(* ===== verification/_CoqProject ===== *)
-Q . S2P
Prelude.v
Types.v
MessagesIn.v
Outbox.v
Split.v
TodoSchema.v
Dispatch.v
Delivery.v
Failover.v
Policy.v
Grants.v
Gate.v
Commands.v
Central.v
Checklist.v
ChecklistProps.v
StreamEdit.v
StreamProps.v
Router.v
RouterProps.v
Approvals.v
ApprovalsProps.v
ApprovalsRace.v
Schedule.v
ScheduleProps.v
Goals.v
Conditions.v
Interactive.v
Sweep.v
SweepTasks.v
SweepTurns.v
SweepGoals.v
SweepConditions.v
SweepPass.v
Budgets.v
BudgetsProps.v
Broker.v
BrokerProps.v
IpAddr.v
NetGuard.v
Egress.v
EgressProps.v
ControlRows.v
ControlProps.v
ControlRuns.v
CrashLoop.v
SupervisorProps.v
Containers.v
ContainersProps.v
ContainersTurns.v
ContainersWake.v
Senders.v
SendersProps.v
AdmissionProps.v
Files.v
Patch.v
FilesProps.v
FilesEdits.v
PatchProps.v
Transcript.v
VerifyGate.v
EditTools.v
EditToolsProps.v
SelfReview.v
Todo.v
VerifyProps.v
TodoProps.v
TodoGates.v
Compaction.v
CompactionProps.v
Redact.v
ProviderCall.v
ProviderProps.v
TurnGuards.v
GuardProps.v
