(* ===== verification/Prelude.v ===== *)
(** * Copperclaw: a verified model of its core

    Copperclaw is a host daemon that connects chat platforms to agents which
    run in containers.  A message travels in one direction through the inbound
    router into the inbox of a session (a SQLite file the host writes), is
    read by the runner of that session's container, and the runner's rows in
    the outbox (a SQLite file the runner writes) travel back through the
    delivery loop to the platform.  On the way the runner asks, for every tool
    call a model makes, whether the call is allowed; the provider it talks to
    is chosen by a failover chain.  Crate names below are directories of
    [src/crates/].

    ** Files

    - [Prelude]: results, the state-and-error monad [stateful] with its
      reasoning principles ([keeps], [returns], [triple], [achieves]), text as
      lists of scalar values with the [str] operations the code uses, JSON
      values, SQL tables as lists of rows, and the lemmas shared by all.
    - [Types]: the enums, row structs and column forms of [copperclaw-types].
    - [MessagesIn], [Outbox]: the tables of a session's two databases
      ([copperclaw-db/src/tables/messages_in.rs], and [messages_out.rs],
      [delivered.rs], [processing_ack.rs], [container_state.rs],
      [session_routing.rs], [outbound_dropped_messages.rs]).
    - [Central]: the routing tables of the central database ([sessions.rs],
      [messaging_groups.rs], [messaging_group_agents.rs],
      [dropped_messages.rs], [unregistered_senders.rs]).
    - [Commands]: the slash commands, workspaces and attachment names the
      router works with ([copperclaw-host-router/src/commands.rs],
      [workspaces.rs], [copperclaw-channels/core/src/inbound_file.rs],
      [copperclaw-db/src/attachments.rs]).
    - [Router], [RouterProps]: the inbound pipeline
      ([copperclaw-host-router/src/route.rs] with [mention.rs],
      [debounce.rs], [hooks.rs], [session.rs]) and what it guarantees.  The
      state [World] holds the central tables, the store of every session, the
      staged files, the debounce map, the in-flight set and the wake count;
      [route_impl], [fanout], [route_one] and [resolve_session] are the
      functions of those names.
    - [Split]: the fence-aware splitter of long messages
      ([copperclaw-channels/core/src/markdown/split.rs], [fence.rs]).
    - [Dispatch], [Delivery]: the outbound pipeline
      ([copperclaw-host-delivery/src/service.rs]): [Dispatch] models what
      happens to one row up to the channel adapter, [Delivery] the pass over a
      session with its retry budget, dead letters and failure cards.
    - [Failover]: the provider chain ([copperclaw-providers/src/failover.rs],
      [error.rs]; [copperclaw-host/src/container_manager/provider_failover.rs]).
    - [Policy]: which tools a profile, a role, a skill and the trust of a turn
      allow ([copperclaw-runner/src/policy.rs]).
    - [Grants]: capability grants of scheduled tasks
      ([copperclaw-db/src/tables/task_grants.rs]) and their debit
      ([apply_grant_consume] of the delivery loop).
    - [Gate]: the runner's decision on each tool call
      ([copperclaw-runner/src/run/tool_dispatch.rs], the turn start of
      [run/mod.rs]) and the grant snapshot the host hands it
      ([copperclaw-host/src/container_manager/tasks_snapshot.rs]).
    - [Approvals], [ApprovalsProps], [ApprovalsRace]: approval requests
      ([copperclaw-db/src/tables/pending_approvals.rs] and the audit log,
      [copperclaw-host/src/handlers/approvals.rs], the tap on a card of
      [approval_intercept.rs], the spending of an approval by
      [copperclaw-modules/src/tunnel.rs], the deletion with a session); what a
      sequence of calls guarantees, with the abstract machine of one request; and what goes
      wrong when two calls overlap, by running the calls of
      [resolve] statement by statement ([ApprovalsRace.advance]).  What an
      approval does outside the approval tables is the class
      [Approvals.Outside].
    - [Schedule], [ScheduleProps]: the schedule language, the next fire time,
      the [tasks] table and the schedule actions
      ([copperclaw-modules/src/scheduling.rs],
      [copperclaw-db/src/tables/tasks.rs],
      [copperclaw-host-sweep/src/task_store.rs], the rows
      [copperclaw-runner/src/tools.rs] writes).  Dates and cron expressions
      ([chrono], [croner]) are the class [Schedule.Calendar].
    - [Goals], [Conditions]: the goals and conditions an agent keeps
      ([copperclaw-db/src/tables/goals.rs], [conditions.rs], the rows
      [apply_goal] and [apply_condition] of the delivery loop, the
      [ConditionStore] of [copperclaw-host-sweep/src/checks/
      condition_checkin.rs]).  The order of a hash map is the class
      [Conditions.HashOrder].
    - [Interactive]: pending questions and the delivery actions for
      questions, edits, reactions and cards
      ([copperclaw-modules/src/interactive.rs]).
    - [Sweep]: the maintenance sweep ([copperclaw-host-sweep/src/service.rs]
      and every file of [checks/]): the state [SweepWorld] holds the central
      tables, the condition store, the pending questions, the spawn failures
      and the directory of every session; [run_once] is the pass, which ends
      with an error when the list of sessions cannot be read.  Each check
      is a computation that may fail; [logged] is the [match] that logs the
      error and goes on.  [SweepTasks], [SweepTurns], [SweepGoals],
      [SweepConditions] and [SweepPass] hold its theorems.
    - [Budgets], [BudgetsProps]: the turns a group has used, their price, and
      the daily and rate caps ([copperclaw-db/src/tables/agent_turns.rs],
      [group_budgets.rs], [copperclaw-types/src/pricing.rs],
      [copperclaw-host/src/handlers/usage.rs],
      [copperclaw-host/src/container_manager/budgets.rs]).
    - [CrashLoop], [SupervisorProps]: everything that restarts with a back-off:
      the supervisor of the host's loops ([copperclaw-host/src/supervisor.rs],
      as the step relation [drive_step]), the crash tracker of sessions, the
      breaker for faults of the whole host and the disk probe
      ([container_manager/crash_loop.rs], [host_resources.rs]), the cooldown
      of image rebuilds.
    - [Containers]: the container manager
      ([copperclaw-host/src/container_manager/classify.rs], [spawn.rs],
      [mod.rs], [stuck_actuator.rs]) and the reset at boot ([boot.rs]).  Its
      state [Manager] holds the world of the sweep, so that both work on the
      same sessions and directories; the container runtime is the class
      [Containers.Runtime], whose answers depend on the calls made before.
      [ContainersProps] shows what a tick does, [ContainersTurns] what happens
      to turns in flight, [ContainersWake] how the sweep and the manager
      together treat a session that waits.
    - [Senders], [SendersProps], [AdmissionProps]: who may talk to an agent: the
      gate for unknown senders ([copperclaw-modules/src/approvals.rs]) as
      [install_modules] of [boot.rs] wires it, its notices to operator and
      sender, the pairing codes ([copperclaw-db/src/tables/dm_pairing_codes.rs]),
      the commands that admit a sender ([copperclaw-host/src/handlers/pairing.rs],
      [approvals.rs], [users.rs]) and the access gate
      ([copperclaw-modules/src/permissions.rs]).  The state [Admission] holds
      the host's tables; [SendersProps.react] is one message, command or tick of
      the clock; [AdmissionProps.wired] puts the gates into the router.
    - [Files], [FilesProps], [FilesEdits]: the tools of an agent that change
      files ([copperclaw-mcp/src/tools/edit_file.rs], [multi_edit.rs],
      [copy_file.rs]) over a [Disk] of directory entries, links and inodes;
      the class [Files.Kernel] says which system calls fail, and [Machine]
      keeps every disk on the way, so that a crash is a point of that record.
    - [EditTools], [EditToolsProps]: the handlers of [edit_file], [multi_edit]
      and [apply_patch]: that work, and then the markers of the verification gate
      on the same disk ([mark_dirty_for_write] of [verify_gate.rs]; the gate as
      its own calls see it is [VerifyGate]).  The card with the difference and
      the run of a linter after an edit are left out.
    - [Patch], [PatchProps]: [apply_patch]
      ([copperclaw-mcp/src/tools/apply_patch.rs]): hunks read line by line and
      applied to the lines of a file.
    - [Transcript], [Compaction], [CompactionProps]: the history a runner keeps
      for its model ([copperclaw-providers/src/types.rs],
      [copperclaw-runner/src/formatter.rs], [compaction.rs], [state.rs], the
      work of [run_loop] before a turn and its chat commands); the steps
      [CompactionProps.run_step] put prompts, turns, compactions, saves and
      crashes in any order.  The provider, the clock and the data root are the
      class [Compaction.Surroundings].
    - [VerifyGate], [SelfReview], [Todo]: the gates a completed todo passes
      ([copperclaw-mcp/src/tools/verify_gate.rs], [self_review.rs], [todo.rs],
      the hooks of [computer_use.rs] and [run/tool_dispatch.rs]).  A [Root] holds
      the marker files of every project; any access to one may fail
      ([MarkerIO]); git and SHA-256 are the class [SelfReview.Git].
      [VerifyProps] holds the calls of a session and what each does to the gate
      of a project, [TodoProps] the list and its checklist, [TodoGates] the
      promises.
    - [TodoSchema]: the list the channels show
      ([copperclaw-channels/core/src/todo_list.rs]): its rules, its JSON, its
      text.
    - [Checklist], [ChecklistProps]: the rows that carry such a list
      ([dispatch_todo_list], [build_combined] and what they call in
      [copperclaw-host-delivery/src/service.rs]): one card per family of
      agents, its anchor, and what becomes of it when the card is gone.
    - [StreamEdit], [StreamProps]: edits and reactions, and a reply streamed by
      edits past the cap of its channel ([try_action_via_adapter],
      [try_streaming_edit_split]).
    - [ControlRows], [ControlProps], [ControlRuns]: the control rows of a
      session ([handle_system] with [system_actions.rs], the requests for a
      human, the failures told to the agent, the handlers of the modules).  The
      state is that of the delivery loop with the record [Services] of the
      tables such rows change; [control_row] puts [Goals], [Conditions],
      [Schedule], [Approvals], [Grants], [Budgets], [Interactive] and
      [StreamEdit] together, and [ControlProps.service_host] is the [Host] of
      the delivery loop made of it.
    - [Broker], [BrokerProps]: the credential broker
      ([copperclaw-host/src/container_manager/broker.rs], [broker_server.rs]):
      the tokens a container gets instead of the provider's key, revocations,
      and the requests sent upstream, redirects included.  SHA-256, hex and the
      text of ids are the class [Broker.Codec]; what the provider answers and what
      the client makes of a redirect are [Broker.Upstream].
    - [IpAddr]: the addresses of the standard library, their text and ranges.
    - [NetGuard]: which addresses the web tools may reach, and every redirect
      of a fetch ([copperclaw-mcp/src/tools/net_guard.rs]); resolver and client
      are the classes [NetGuard.Net] and [NetGuard.Client].
    - [Egress], [EgressProps]: the allow-list of a container, its DNS filter
      and its firewall rules ([container_manager/egress.rs], [spawn.rs],
      [copperclaw-container-rt/src/dns.rs], [nftables.rs]).
    - [Redact]: the redactor of keys and tokens in text that leaves the runner
      ([copperclaw-runner/src/redact.rs]) and what it leaves.
    - [ProviderCall], [ProviderProps]: one call of the model
      ([copperclaw-runner/src/run/provider_call.rs], [failover_health.rs],
      [TurnSpend] of [hud.rs], the usage report of [run/mod.rs]): retries, the
      events of a stream, the walk along the chain of [Failover], what is
      reported to [Budgets].  What the providers answer is the class
      [ProviderCall.Upstream], where a stream may stall for ever; the state is
      [Calls].
    - [TurnGuards], [GuardProps]: the guards of a turn: the content-loop
      breaker, the budget of tool turns and the chains of a batch of calls
      ([run/drive_turn.rs]), the run of refusals ([run/blocker.rs]), the
      meaning of a reaction ([copperclaw-channels/core/src/reaction.rs],
      [run/reaction.rs]).

    ** How code becomes definitions

    A function that reads and writes state is a computation of [stateful]:
    a step from a state to a result and a state, in which the writes made
    before an error stay.  Its definition follows the source statement by
    statement.  A table is the list of its rows in rowid order; [ORDER BY] is
    a stable sort, so rows with equal keys come in rowid order; constraint
    violations are the error [SqliteConstraint], other SQLite failures are not
    modelled.  UUIDs are the integers they denote, instants are nanoseconds;
    fresh ids and clock readings come from the state.  Text that is only
    compared is a [string], text that is taken apart is a list of scalar
    values ([rstr]).  JSON objects are association lists, as the build keeps
    the insertion order.  Integers are unbounded where the code cannot reach
    the bounds, and saturate or truncate explicitly where it says so
    ([sat_add], [sat_sub], [u32_max]).  Code outside the repository (adapters'
    platforms, model providers, regular expressions, the file system's
    failures) is a parameter: the classes [Router.Env] and [Dispatch.Host];
    what the delivery loop relies on of the surfaces that are not modelled is
    the class [Dispatch.HostLaws], which the demonstration environment
    satisfies, and which the service with the modelled surfaces satisfies too
    ([ControlProps.service_meets_contract]).  Metrics and logs are left out.

    Concurrency: calls of the router and passes of the delivery loop on one
    session are sequences of whole calls; the tool calls of one turn are
    interleaved step by step ([Gate.turn_step]), as they run concurrently;
    two calls that resolve one approval request are interleaved statement by
    statement ([ApprovalsRace]); a sweep pass is one computation, into which
    the writes of a runner enter where the code has its hook
    ([Sweep.processing_check_with_hook]) and between passes
    ([SweepTurns.history]); sweep and manager are interleaved pass by pass
    ([ContainersWake.watch_step], [ContainersTurns.crashes]).

    ** What is shown

    - Authorisation: in every interleaving a dispatched call was allowed by
      profile, role and skill, and an external one had the clearance or grant
      it needs ([Gate.dispatch_authorised]); reports happen once per turn;
      a grant never outlives its approval and once unusable stays so
      ([Grants]); narrowing a policy never widens it and the guest floor
      ([Policy]).
    - Routing: an event that is refused writes nothing, a reported delivery is
      there, the tables stay well formed with one session per agent, chat and
      thread, wakes follow work, duplicates inside the window are dropped,
      attachments reach the agent, and whatever happens the in-flight set and
      the staged file are released ([RouterProps]); sanitised file names are
      safe ([Commands]).
    - Session tables: sequence numbers are even on the host's side and odd on
      the runner's, strictly increasing, ids unique, polls newest first, the
      first delivery record wins ([MessagesIn], [Outbox]).
    - Delivery: the retry budget holds across restarts, failures are counted
      once, a split reply resumes where it stopped, a pass always ends and
      accounts for every row, records are final ([Delivery]); chunks fit and
      conserve the text ([Split]).
    - Failover: selection is never dark and prefers healthy keys, failures
      cool down, re-reading turns is harmless with one key per entry
      ([Failover]).
    - Approvals: a request is settled at most once by calls that do not
      overlap, but for the approval of an external action, which its tunnel may
      spend once; every sequence of calls refines the abstract machine, only
      live requests act, a tap needs a role ([ApprovalsProps]).
    - Schedules: printed times of day parse back, a daily task fires at the
      first such instant after now ([ScheduleProps]).
    - Sweep: a pass that can read the list of sessions ends with a report, every
      due task fires exactly once, a message is put back only when its turn was abandoned, whatever
      the runner does between scan and reset, the passes report at most one
      apology for it while its marker stays, finished goals stay finished, the reloaded condition store is what the
      table says ([SweepPass], [SweepTasks], [SweepTurns], [SweepGoals],
      [SweepConditions]).
    - Containers: a container is started only when every gate is open, a tick
      reaches every session whatever fails, a dead container's turns are
      settled and none is left in progress ([ContainersProps],
      [ContainersTurns]); back-off, card and published flag of the loops
      ([SupervisorProps]); the token gate over a day ([BudgetsProps]).
    - Admission: over every sequence of events a stranger gets in only by the
      operator, a code pairs once, lapses in an hour and at most three are live
      per channel ([SendersProps], [AdmissionProps]); inside the router a
      stranger's message in a chat that asks for approval reaches no agent ([AdmissionProps.stranger_held]); a
      lost code cannot be had again, and a code that lapses while it is approved
      leaves the sender admitted.
    - Files: an edit or a patch leaves at every moment the old file or the
      whole new one, and then changes nothing but the gate's markers
      ([EditToolsProps.edit_never_torn]); a one-shot edit acts on the only
      occurrence ([FilesEdits]), several edits in one call are the edits in turn
      and the reverse of a patch restores the file ([EditToolsProps], for plain
      files when no system call fails); a patch is read back as written
      ([PatchProps]).
    - Histories: calls and results stay together in every order of steps,
      compaction always ends with one header of project facts, the trigger
      keeps the room it promises, stubs are stable ([CompactionProps]).
    - Todos: in every order of calls a completed todo means that each stage of
      each changed project ran with success since (markers that work, stage
      names that differ, the verify file left alone), the last one that everything
      was reviewed as it is, the gates give up after two refusals, the
      checklist is the stored list and valid ([TodoGates]).
    - Control rows: the service meets the contract of the delivery loop, and no
      row an agent writes, but the actions that make or call agents, which are
      not modelled, gives it authority ([ControlProps], [ControlRuns]); a
      refused row is recorded and told to the agent ([ControlRuns]).
    - Checklists: a list is read back as written; the card of a family carries
      every plan under distinct ids; there is one card while a plan is
      unfinished, and a card that is gone is replaced ([ChecklistProps]).
    - Streamed replies: on plain text the messages carry the reply in full and
      once, whatever the deltas ([StreamProps]).
    - Network: the provider's key goes out only for a live token of a group
      within budget, first to the configured address (a redirect may take it
      elsewhere), and a token is its session's until it lapses
      ([BrokerProps]); a fetch reaches only addresses outside the blocked
      ranges ([NetGuard]); filter and rules of a container speak of the same
      names, and the model's endpoint is among them ([EgressProps]).
    - Calls of the model: one returns unless a stream stalls for ever, within a
      bounded number of queries, with a report for each candidate tried, and the
      host records what was reported ([ProviderProps]).
    - Guards: the breaker trips at exactly the two patterns, the wall a user is
      told of is what the last two results say, a batch ends with its results
      in order however its chains interleave ([GuardProps]); redacted text
      holds no key ([Redact]).

    The places where the code does something else than its comments say are
    theorems too: [Gate.granted_tainted_call_asks],
    [Gate.unmatched_snapshot_accepted], [Policy.guest_full_external],
    [Failover.refold_degrades_sibling], [Failover.bad_request_text_degrades],
    [RouterProps.first_refusal_ends_fanout],
    [RouterProps.attachment_collision], [Split.split_can_unbalance],
    [Split.split_zero_cap_diverges],
    [ApprovalsRace.denied_request_took_effect],
    [ApprovalsRace.chat_admin_approves_for_any_group],
    [ScheduleProps.offset_unit_panics],
    [ScheduleProps.recurrence_only_task_rejected],
    [ScheduleProps.prompt_update_clears_recurrence],
    [ScheduleProps.any_session_controls_task],
    [SweepTasks.broken_inbox_blocks_tasks],
    [SweepTurns.long_turn_gets_apology],
    [SweepGoals.overflow_stops_checkins],
    [SweepConditions.edge_is_lost], [ContainersTurns.quarantine_never_reached],
    [ContainersWake.woken_session_never_spawns],
    [SupervisorProps.degraded_flag_lost], [BudgetsProps.usage_report_forged],
    [FilesProps.edit_replaces_link], [FilesEdits.copy_onto_itself],
    [EditToolsProps.linked_marker_empties],
    [PatchProps.insertion_is_early], [PatchProps.carriage_returns_differ],
    [CompactionProps.compaction_parts_image_turns],
    [CompactionProps.recovery_parts_parallel_calls],
    [TodoGates.refused_after_every_edit], [TodoGates.long_failure_loses_stage],
    [TodoGates.same_name_greens_both], [TodoGates.rewritten_verify_keeps_green],
    [ControlRuns.ControlDemo.card_answers_for_later_request],
    [ControlRuns.ControlDemo.lost_record_repeats_goal],
    [ChecklistProps.grandchild_shown_nowhere],
    [ChecklistProps.second_card_after_restart],
    [StreamProps.StreamDemo.other_text_loses_front],
    [StreamProps.StreamDemo.fence_lost],
    [BrokerProps.BrokerDemo.long_session_refused],
    [BrokerProps.BrokerDemo.key_follows_redirects],
    [ApprovalsProps.Witnesses.second_grant_never_found],
    [ProviderProps.ProviderDemo.silent_stream_hangs],
    [NetGuard.GuardDemo.not_public_passes],
    [EgressProps.EgressDemo.broker_not_on_list],
    [EgressProps.EgressDemo.entry_smuggles_rule],
    [EgressProps.EgressDemo.bare_ipv6_is_another_address],
    [EgressProps.EgressDemo.colon_opens_https],
    [EgressProps.EgressDemo.stale_ruleset_applied],
    [ProviderProps.ProviderDemo.retried_tokens_lost],
    [ProviderProps.ProviderDemo.tool_row_not_of_running_tool],
    [GuardProps.GuardDemo.spelling_escapes_chain],
    [Redact.short_bearer_kept], [Redact.token_parts_kept],
    [Redact.redaction_grows].

    ** Fuel

    The splitter's loop runs with fuel [2 * length + 2] and the fence scanner
    with [length + 1]; [Split.split_chunks_fit] shows for every positive cap
    that the splitter returns with it, and each step of the scanner consumes a
    character.  Numerals are printed with fuel 40, enough for the 20 digits of
    a 64-bit integer ([Prelude.show_z_spec]).  All other loops are structural.

    ** Not modelled

    The channel adapters and the markdown renderer (protocol glue around
    third-party formats), the model providers' HTTP, the container runtimes, what
    the host writes for a container (runner configuration, mounts), what
    [nft] and [dnsmasq] make of the rules, the loop of a turn around its calls
    and batches, the tools' own input and output (shell, browser, reading of files), the
    setup wizard and the command-line client, skills, metrics.  Of the modelled
    crates: the relay of external tools in the delivery loop ([drain_mcp_calls],
    tasks of their own that call servers and previews), the actions by which an
    agent makes or calls another ([ControlRows.agent_action]), the handlers of
    self modification, the tunnels themselves (their approvals and the spending
    of a grant are in [Approvals]), deletes of sessions and groups with their
    cascades (but for the approval requests that go with a session). *)
From stdpp Require Export base gmap list strings.
From Stdlib Require Export ZArith Lia.
From Stdlib Require Export Ascii Sorted Permutation.

#[global] Open Scope Z_scope.
#[global] Set Default Goal Selector "!".

(** ** Fallible results: Rust's [Result<T, E>] *)

Inductive result (E A : Type) : Type :=
| Ok (a : A)
| Err (e : E).
Arguments Ok {E A} a.
Arguments Err {E A} e.

Definition rbind {E A B} (r : result E A) (k : A -> result E B) : result E B :=
  match r with
  | Ok a => k a
  | Err e => Err e
  end.

Declare Scope rust_scope.
Delimit Scope rust_scope with rust.
#[global] Open Scope rust_scope.
Notation "'let?' x ':=' e 'in' k" := (rbind e (fun x => k))
  (at level 10, x name, e at level 100, k at level 200)
  : rust_scope.
Notation "'let?' ' p ':=' e 'in' k" := (rbind e (fun p => k))
  (at level 10, p strict pattern, e at level 100, k at level 200)
  : rust_scope.

Definition is_ok {E A} (r : result E A) : bool :=
  match r with Ok _ => true | Err _ => false end.

(** ** Stateful fallible code

    A computation on a state [S] that may fail with [E]; the writes made
    before a failure stay. *)

Definition stateful (S E A : Type) : Type := S -> result E A * S.

Section Stateful.
Context {S E : Type}.
Definition ret {A} (a : A) : stateful S E A := fun w => (Ok a, w).
Definition fail {A} (e : E) : stateful S E A := fun w => (Err e, w).
Definition mbind {A B} (m : stateful S E A) (k : A -> stateful S E B) : stateful S E B :=
  fun w => match m w with
           | (Ok a, w') => k a w'
           | (Err e, w') => (Err e, w')
           end.
Definition gets {A} (f : S -> A) : stateful S E A := fun w => (Ok (f w), w).
Definition modify (f : S -> S) : stateful S E unit := fun w => (Ok tt, f w).
(** The outcome as a value ([match m { Ok(..) .. Err(..) .. }]). *)
Definition catch {A} (m : stateful S E A) : stateful S E (result E A) :=
  fun w => let '(r, w') := m w in (Ok r, w').
(** A fallible pure step ([?] on a [Result]). *)
Definition lift {A} (r : result E A) : stateful S E A := fun w => (r, w).
End Stateful.

Declare Scope monad_scope.
Delimit Scope monad_scope with monad.
#[global] Open Scope monad_scope.
Notation "'let!' x ':=' e 'in' k" := (mbind e (fun x => k))
  (at level 10, x name, e at level 100, k at level 200) : monad_scope.
Notation "'let!' ' p ':=' e 'in' k" := (mbind e (fun p => k))
  (at level 10, p strict pattern, e at level 100, k at level 200) : monad_scope.
Notation "m ';;' k" := (mbind m (fun _ : unit => k))
  (at level 100, k at level 200, right associativity) : monad_scope.

(** ** Reasoning about stateful code *)

Section ProgramLogic.
Context {S E : Type}.

(** Every run relates the state before it to the state after it. *)
Definition keeps {A} (R : S -> S -> Prop) (m : stateful S E A) : Prop := forall w, R w (snd (m w)).
(** Every value returned satisfies [P]. *)
Definition returns {A} (P : A -> Prop) (m : stateful S E A) : Prop :=
  forall w a w', m w = (Ok a, w') -> P a.
(** Partial correctness: if a run from [P] succeeds, [Q] holds. *)
Definition triple {A} (P : S -> Prop) (m : stateful S E A) (Q : A -> S -> Prop) : Prop :=
  forall w a w', P w -> m w = (Ok a, w') -> Q a w'.
(** Total correctness: every run from [P] succeeds, and [Q] holds. *)
Definition achieves {A} (P : S -> Prop) (m : stateful S E A) (Q : A -> S -> Prop) : Prop :=
  forall w, P w -> exists a w', m w = (Ok a, w') /\ Q a w'.

Section Keeps.
Context {R : S -> S -> Prop} {HR : PreOrder R}.
Lemma keeps_bind {A B} (m : stateful S E A) (k : A -> stateful S E B) :
  keeps R m -> (forall a, keeps R (k a)) -> keeps R (mbind m k).
Proof.
  intros Hm Hk w. unfold mbind. specialize (Hm w). destruct (m w) as [[a|e] w1]; cbn in *; [|done].
  etransitivity; [exact Hm | apply Hk].
Qed.
Lemma keeps_ret {A} (a : A) : keeps R (ret (E:=E) a).
Proof. intros w. reflexivity. Qed.
Lemma keeps_fail {A} e : keeps R (fail (A:=A) (E:=E) e).
Proof. intros w. reflexivity. Qed.
Lemma keeps_gets {A} (f : S -> A) : keeps R (gets (E:=E) f).
Proof. intros w. reflexivity. Qed.
Lemma keeps_lift {A} (r : result E A) : keeps R (lift (S:=S) r).
Proof. intros w. reflexivity. Qed.
Lemma keeps_catch {A} (m : stateful S E A) : keeps R m -> keeps R (catch m).
Proof. intros Hm w. specialize (Hm w). unfold catch. by destruct (m w). Qed.
End Keeps.
Lemma keeps_modify (R : S -> S -> Prop) f : (forall w, R w (f w)) -> keeps R (modify (E:=E) f).
Proof. intros H w. apply H. Qed.

Lemma returns_bind {A B} (P : B -> Prop) (m : stateful S E A) k :
  (forall a, returns P (k a)) -> returns P (mbind m k).
Proof.
  intros Hk w b w'. unfold mbind. destruct (m w) as [[a|e] w1]; [apply Hk | done].
Qed.
Lemma returns_ret {A} (P : A -> Prop) a : P a -> returns P (ret a).
Proof. intros HP w b w' [= <- _]. done. Qed.

Lemma triple_bind {A B} P (m : stateful S E A) Q (k : A -> stateful S E B) T :
  triple P m Q -> (forall a, triple (Q a) (k a) T) -> triple P (mbind m k) T.
Proof.
  intros Hm Hk w b w' HP. unfold mbind. destruct (m w) as [[a|e] w1] eqn:Em; [|done].
  intros E'. by apply (Hk a w1 b w'), E'; apply (Hm w a w1).
Qed.
Lemma triple_any {A} P (m : stateful S E A) : triple P m (fun _ _ => True).
Proof. by intros w a w' _ _. Qed.
Lemma triple_ret {A} (P : S -> Prop) (a : A) (Q : A -> S -> Prop) :
  (forall w, P w -> Q a w) -> triple P (ret a) Q.
Proof. intros HPQ w b w' HP [= <- <-]. by apply HPQ. Qed.
Lemma triple_when {A} (phi : Prop) P (m : stateful S E A) Q :
  (phi -> triple P m Q) -> triple (fun w => P w /\ phi) m Q.
Proof. intros Hm w a w' [Hw Hphi]. by apply Hm. Qed.

(** Running a step whose outcome is known. *)
Lemma mbind_run {A B} (m : stateful S E A) (k : A -> stateful S E B) w a w' :
  m w = (Ok a, w') -> mbind m k w = k a w'.
Proof. intros H. unfold mbind. by rewrite H. Qed.
Lemma mbind_inv {A B} (m : stateful S E A) (k : A -> stateful S E B) w b w' :
  mbind m k w = (Ok b, w') -> exists a w1, m w = (Ok a, w1) /\ k a w1 = (Ok b, w').
Proof. unfold mbind. destruct (m w) as [[a|e] w1]; [eauto | done]. Qed.
Lemma mbind_stop {A B} (m : stateful S E A) (k : A -> stateful S E B) w e w' :
  m w = (Err e, w') -> mbind m k w = (Err e, w').
Proof. intros H. unfold mbind. by rewrite H. Qed.

Lemma achieves_ret {A} (P : S -> Prop) (a : A) (Q : A -> S -> Prop) :
  (forall w, P w -> Q a w) -> achieves P (ret a) Q.
Proof. intros H w Hw. exists a, w. auto. Qed.
Lemma achieves_bind {A B} P (m : stateful S E A) (k : A -> stateful S E B) T Q :
  achieves P m T -> (forall a, achieves (T a) (k a) Q) -> achieves P (mbind m k) Q.
Proof.
  intros Hm Hk w Hw. destruct (Hm w Hw) as (a & w1 & Em & HR).
  destruct (Hk a w1 HR) as (b & w2 & E2 & HQ). exists b, w2. unfold mbind. by rewrite Em.
Qed.
Lemma achieves_pre {A} (P P' : S -> Prop) (m : stateful S E A) Q :
  (forall w, P w -> P' w) -> achieves P' m Q -> achieves P m Q.
Proof. intros H Hm w Hw. auto. Qed.
End ProgramLogic.

Create HintDb keeps.
#[export] Hint Resolve keeps_ret keeps_fail keeps_gets keeps_lift : keeps.

(** Splits a step into its parts; the primitives are left. *)
Ltac split_steps :=
  repeat first
    [ solve [eauto with keeps typeclass_instances]
    | apply keeps_bind
    | apply keeps_catch
    | match goal with
      | |- forall _, _ => intro
      | |- keeps _ (match ?x with _ => _ end) => destruct x
      | |- keeps _ (let _ := _ in _) => cbv zeta
      end ].
Ltac returns_step :=
  match goal with
  | |- returns _ (mbind _ _) => apply returns_bind; intros
  | |- returns _ (ret _) => by apply returns_ret
  | |- returns _ (let _ := _ in _) => cbv zeta
  | |- returns _ (match ?x with _ => _ end) => destruct x
  end.
Ltac triple_step :=
  match goal with
  | |- triple _ (mbind _ _) _ => eapply triple_bind; [apply triple_any | intros ?]
  | |- triple _ (ret _) _ => by apply triple_ret
  | |- triple _ (match ?x with _ => _ end) _ => destruct x
  | |- triple _ (let _ := _ in _) _ => cbv zeta
  end.

(** ** Machine integers *)

Definition u16_max : Z := 65535.
Definition u32_max : Z := 4294967295.
Definition u64_max : Z := 18446744073709551615.
Definition i64_max : Z := 9223372036854775807.
Definition i64_min : Z := -9223372036854775808.
Definition is_i64 (n : Z) : bool := (i64_min <=? n) && (n <=? i64_max).

Definition sat_add (max a b : Z) : Z := Z.min max (a + b).
Definition sat_mul (max a b : Z) : Z := Z.min max (a * b).
(** [saturating_sub] of an unsigned type. *)
Definition sat_sub (a b : Z) : Z := Z.max 0 (a - b).

(** ** Characters and text

    A Rust [str] is a list of Unicode scalar values; literals written in the
    source are ASCII and are lifted from Coq strings. *)

Abbreviation rchar := Z (only parsing).
Abbreviation rstr := (list Z) (only parsing).

Fixpoint lit (s : string) : rstr :=
  match s with
  | EmptyString => []
  | String a s' => Z.of_N (N_of_ascii a) :: lit s'
  end.

Definition chr (a : ascii) : rchar := Z.of_N (N_of_ascii a).

(** The number of bytes of a scalar value in UTF-8 ([char::len_utf8]). *)
Definition len_utf8 (c : rchar) : Z :=
  if c <? 128 then 1 else if c <? 2048 then 2 else if c <? 65536 then 3 else 4.

(** [str::len]. *)
Fixpoint byte_len (s : rstr) : Z :=
  match s with
  | [] => 0
  | c :: s' => len_utf8 c + byte_len s'
  end.

(** [char::is_whitespace]: the Unicode property White_Space. *)
Definition is_whitespace (c : rchar) : bool :=
  ((9 <=? c) && (c <=? 13)) || (c =? 32) || (c =? 133) || (c =? 160) || (c =? 5760)
  || ((8192 <=? c) && (c <=? 8202)) || (c =? 8232) || (c =? 8233) || (c =? 8239)
  || (c =? 8287) || (c =? 12288).

(** [u8::is_ascii_whitespace]: space, tab, line feed, form feed, return. *)
Definition is_ascii_whitespace (c : rchar) : bool :=
  (c =? 32) || (c =? 9) || (c =? 10) || (c =? 12) || (c =? 13).

Definition is_ascii_digit (c : rchar) : bool := (48 <=? c) && (c <=? 57).

Definition to_ascii_lowercase (c : rchar) : rchar :=
  if (65 <=? c) && (c <=? 90) then c + 32 else c.

Definition eq_ignore_ascii_case (a b : rchar) : bool :=
  to_ascii_lowercase a =? to_ascii_lowercase b.

Fixpoint rstr_eqb (a b : rstr) : bool :=
  match a, b with
  | [], [] => true
  | x :: a', y :: b' => (x =? y) && rstr_eqb a' b'
  | _, _ => false
  end.

(** The order of [str]: lexicographic on scalar values, as on bytes. *)
Fixpoint rstr_leb (a b : rstr) : bool :=
  match a, b with
  | [], _ => true
  | _ :: _, [] => false
  | x :: a', y :: b' => (x <? y) || ((x =? y) && rstr_leb a' b')
  end.

(** [str::strip_prefix]. *)
Fixpoint strip_prefix (p s : rstr) : option rstr :=
  match p, s with
  | [], _ => Some s
  | x :: p', y :: s' => if x =? y then strip_prefix p' s' else None
  | _ :: _, [] => None
  end.

Definition starts_with (p s : rstr) : bool :=
  match strip_prefix p s with Some _ => true | None => false end.

(** [str::find]: the char index of the first occurrence. *)
Fixpoint str_find (needle hay : rstr) : option nat :=
  if starts_with needle hay then Some 0%nat
  else match hay with
       | [] => None
       | _ :: hay' => option_map S (str_find needle hay')
       end.

Definition str_contains (needle hay : rstr) : bool :=
  match str_find needle hay with Some _ => true | None => false end.

Fixpoint trim_start_by (p : rchar -> bool) (s : rstr) : rstr :=
  match s with
  | c :: s' => if p c then trim_start_by p s' else s
  | [] => []
  end.
Definition trim_start (s : rstr) : rstr := trim_start_by is_whitespace s.
Definition trim_end (s : rstr) : rstr := rev (trim_start (rev s)).
Definition trim (s : rstr) : rstr := trim_end (trim_start s).

(** Maximal runs of characters that do not satisfy [p]
    ([split_whitespace], [split_ascii_whitespace]). *)
Fixpoint split_runs (p : rchar -> bool) (cur : rstr) (s : rstr) : list rstr :=
  match s with
  | [] => match cur with [] => [] | _ => [rev cur] end
  | c :: s' =>
      if p c then
        match cur with
        | [] => split_runs p [] s'
        | _ => rev cur :: split_runs p [] s'
        end
      else split_runs p (c :: cur) s'
  end.
Definition split_whitespace (s : rstr) : list rstr := split_runs is_whitespace [] s.
Definition split_ascii_whitespace (s : rstr) : list rstr := split_runs is_ascii_whitespace [] s.

(** [str::split] on a char predicate: always at least one piece. *)
Fixpoint split_on (p : rchar -> bool) (s : rstr) : list rstr :=
  match s with
  | [] => [[]]
  | c :: s' =>
      if p c then [] :: split_on p s'
      else match split_on p s' with
           | w :: ws => (c :: w) :: ws
           | [] => [[c]]
           end
  end.
Definition split_char (d : rchar) (s : rstr) : list rstr := split_on (fun c => c =? d) s.

(** [str::split_once] on a char. *)
Fixpoint split_once (d : rchar) (s : rstr) : option (rstr * rstr) :=
  match s with
  | [] => None
  | c :: s' =>
      if c =? d then Some ([], s')
      else match split_once d s' with
           | Some (a, b) => Some (c :: a, b)
           | None => None
           end
  end.

(** [slice::join] with a one-char separator. *)
Fixpoint join (d : rchar) (ls : list rstr) : rstr :=
  match ls with
  | [] => []
  | [l] => l
  | l :: ls' => l ++ d :: join d ls'
  end.

Definition newline : rchar := 10.
Definition carriage_return : rchar := 13.

(** A line that was terminated by a line feed loses one carriage return. *)
Definition strip_cr (l : rstr) : rstr :=
  match rev l with
  | c :: r => if c =? carriage_return then rev r else l
  | [] => l
  end.

(** [str::lines]: pieces ended by a line feed, the ending removed; a last
    piece without one is kept as it is, and an empty last piece is dropped. *)
Fixpoint lines_of (ps : list rstr) : list rstr :=
  match ps with
  | [] => []
  | [l] => match l with [] => [] | _ => [l] end
  | l :: ps' => strip_cr l :: lines_of ps'
  end.
Definition str_lines (s : rstr) : list rstr := lines_of (split_char newline s).

(** The UTF-8 bytes of a text, as the strings of error messages. *)
Definition utf8_bytes (c : rchar) : list Z :=
  if c <? 128 then [c]
  else if c <? 2048 then [192 + c / 64; 128 + c mod 64]
  else if c <? 65536 then [224 + c / 4096; 128 + c / 64 mod 64; 128 + c mod 64]
  else [240 + c / 262144; 128 + c / 4096 mod 64; 128 + c / 64 mod 64; 128 + c mod 64].
Definition to_string (s : rstr) : string :=
  fold_right (fun b => String (ascii_of_N (Z.to_N b))) EmptyString (flat_map utf8_bytes s).
Definition utf8 (s : rstr) : list Z := flat_map utf8_bytes s.
(** The characters valid UTF-8 bytes stand for. *)
Fixpoint decode_utf8 (bytes : list Z) : rstr :=
  match bytes with
  | [] => []
  | b :: r =>
      if b <? 128 then b :: decode_utf8 r
      else match r with
           | c :: r =>
               if b <? 224 then (b - 192) * 64 + (c - 128) :: decode_utf8 r
               else match r with
                    | d :: r =>
                        if b <? 240 then ((b - 224) * 64 + (c - 128)) * 64 + (d - 128) :: decode_utf8 r
                        else match r with
                             | e :: r => (((b - 240) * 64 + (c - 128)) * 64 + (d - 128)) * 64 + (e - 128) :: decode_utf8 r
                             | [] => []
                             end
                    | [] => []
                    end
           | [] => []
           end
  end.
Definition is_scalar (c : rchar) : bool :=
  (0 <=? c) && (c <? 1114112) && negb ((55296 <=? c) && (c <=? 57343)).
(** [String::from_utf8]: bytes are valid when they are the encoding of what they stand for. *)
Definition from_utf8 (bytes : list Z) : option rstr :=
  let s := decode_utf8 bytes in
  if forallb is_scalar s && rstr_eqb (utf8 s) bytes then Some s else None.

(** Decimal numerals: [u64::to_string] and [str::parse::<u64>] (a leading
    [+] is accepted by the standard library; overflow is an error). *)
Fixpoint show_digits (fuel : nat) (n : Z) (acc : rstr) : rstr :=
  match fuel with
  | O => acc
  | S f => let acc' := (48 + n mod 10) :: acc in
           if n <? 10 then acc' else show_digits f (n / 10) acc'
  end.
Definition show_z (n : Z) : rstr := show_digits 40 n [].

Fixpoint parse_digits (acc : Z) (s : rstr) : option Z :=
  match s with
  | [] => Some acc
  | c :: s' => if is_ascii_digit c then parse_digits (acc * 10 + (c - 48)) s' else None
  end.
Definition parse_uint (max : Z) (s : rstr) : option Z :=
  let body := match strip_prefix (lit "+") s with
              | Some r => r
              | None => s
              end in
  match body with
  | [] => None
  | _ => match parse_digits 0 body with
         | Some n => if n <=? max then Some n else None
         | None => None
         end
  end.

(** ** JSON values: the data type of [serde_json::Value] (numbers as
    integers), objects as association lists. *)
#[warnings="-automation"]
Inductive json : Type :=
| JNull
| JBool (b : bool)
| JNum (n : Z)
| JStr (s : rstr)
| JArr (l : list json)
| JObj (o : list (string * json)).

Fixpoint assoc {A} (k : string) (l : list (string * A)) : option A :=
  match l with
  | [] => None
  | (k', v) :: l' => if String.eqb k k' then Some v else assoc k l'
  end.

(** [Value::get] with a string key. *)
Definition jget (k : string) (j : json) : option json :=
  match j with JObj o => assoc k o | _ => None end.
Definition jas_str (j : json) : option rstr :=
  match j with JStr s => Some s | _ => None end.
Definition jget_str (k : string) (j : json) : option rstr :=
  match jget k j with Some v => jas_str v | None => None end.

(** [Map::insert]: replaces the value of a present key in place. *)
Fixpoint assoc_insert {A} (k : string) (v : A) (l : list (string * A)) : list (string * A) :=
  match l with
  | [] => [(k, v)]
  | (k', v') :: l' => if String.eqb k k' then (k, v) :: l' else (k', v') :: assoc_insert k v l'
  end.
Definition jset (k : string) (v : json) (j : json) : json :=
  match j with JObj o => JObj (assoc_insert k v o) | _ => j end.

(** ** SQL tables

    A table is the list of its rows in rowid (insertion) order. *)
Section Table.
Context {row : Type}.
Implicit Types (t : list row) (p : row -> bool) (f : row -> row).

(** [UPDATE t SET f WHERE p]: the new table and the number of rows matched. *)
Definition sql_update p f t : list row * nat :=
  (map (fun r => if p r then f r else r) t, length (List.filter p t)).
(** [DELETE FROM t WHERE p]. *)
Definition sql_delete p t : list row * nat :=
  (List.filter (fun r => negb (p r)) t, length (List.filter p t)).
(** [SELECT COUNT( * ) FROM t WHERE p]. *)
Definition sql_count p t : Z := Z.of_nat (length (List.filter p t)).
(** [SELECT ... WHERE p] of a unique key. *)
Definition sql_get p t : option row := List.find p t.
(** [SELECT MAX(k) FROM t]. *)
Definition sql_max (k : row -> Z) t : option Z :=
  match t with
  | [] => None
  | r :: t' => Some (fold_left (fun m r' => Z.max m (k r')) t' (k r))
  end.

(** [ORDER BY k]: a stable insertion sort, rows with equal keys stay in
    rowid order. *)
Fixpoint insert_by (k : row -> Z) (r : row) t : list row :=
  match t with
  | [] => [r]
  | r' :: t' => if k r <=? k r' then r :: t else r' :: insert_by k r t'
  end.
Fixpoint order_by (k : row -> Z) t : list row :=
  match t with
  | [] => []
  | r :: t' => insert_by k r (order_by k t')
  end.
End Table.

(** [LIMIT n]: a negative limit means no limit. *)
Definition sql_limit {A} (n : Z) (l : list A) : list A :=
  if (n <? 0) || (Z.of_nat (length l) <=? n) then l else take (Z.to_nat n) l.

(** ** Numbered tables

    The two message tables of a session number their rows: the writer takes
    the next number of its own parity above the maximum. *)
Record numbered {row} (key seq : row -> Z) (parity : bool) (t : list row) : Prop := {
  num_seq : Forall (fun r => 0 < seq r /\ Z.even (seq r) = parity) t;
  num_sorted : StronglySorted (fun a b => seq a < seq b) t;
  num_ids : List.NoDup (map key t);
}.

(** * Lemmas *)

Lemma rbind_Ok {E A B} (r : result E A) (k : A -> result E B) b :
  rbind r k = Ok b -> exists a, r = Ok a /\ k a = Ok b.
Proof. destruct r; cbn; [eauto | discriminate]. Qed.

Lemma rbind_Err {E A B} (r : result E A) (k : A -> result E B) e :
  rbind r k = Err e -> r = Err e \/ exists a, r = Ok a /\ k a = Err e.
Proof. destruct r; cbn; [eauto | intros [= ->]; eauto]. Qed.

(** Invert every successful or failed bind among the hypotheses. *)
Ltac inv_bind :=
  repeat match goal with
  | H : rbind _ _ = Ok _ |- _ =>
      let a := fresh "a" in let E := fresh "E" in
      apply rbind_Ok in H; destruct H as (a & E & H)
  end.

(** Case analysis on every [match]/[if] scrutinee of the goal or of a
    hypothesis, keeping the equations. *)
Ltac case_goal :=
  match goal with
  | |- context [match ?x with _ => _ end] => destruct x eqn:?
  end.
Ltac case_hyp H :=
  match type of H with
  | context [match ?x with _ => _ end] => destruct x eqn:?
  end.

(** Boolean comparisons as propositions. *)
Ltac bool_to_prop :=
  repeat match goal with
  | H : (_ && _)%bool = true |- _ => apply andb_prop in H; destruct H
  | H : (_ || _)%bool = false |- _ => apply orb_false_elim in H; destruct H
  | H : negb _ = true |- _ => apply negb_true_iff in H
  | H : negb _ = false |- _ => apply negb_false_iff in H
  | H : (_ =? _) = true |- _ => apply Z.eqb_eq in H
  | H : (_ =? _) = false |- _ => apply Z.eqb_neq in H
  | H : (_ <=? _) = true |- _ => apply Z.leb_le in H
  | H : (_ <=? _) = false |- _ => apply Z.leb_gt in H
  | H : (_ <? _) = true |- _ => apply Z.ltb_lt in H
  | H : (_ <? _) = false |- _ => apply Z.ltb_ge in H
  | H : String.eqb _ _ = true |- _ => apply String.eqb_eq in H
  | H : String.eqb _ _ = false |- _ => apply String.eqb_neq in H
  end.

Lemma rstr_eqb_eq a b : rstr_eqb a b = true <-> a = b.
Proof.
  revert b; induction a as [|x a IH]; intros [|y b]; cbn; try (split; congruence).
  rewrite andb_true_iff, Z.eqb_eq, IH. split; [intros [-> ->] | intros [= -> ->]]; auto.
Qed.

Lemma rstr_eqb_refl a : rstr_eqb a a = true.
Proof. by apply rstr_eqb_eq. Qed.

Lemma rstr_eqb_sym a b : rstr_eqb a b = rstr_eqb b a.
Proof. apply eq_true_iff_eq. rewrite !rstr_eqb_eq. split; congruence. Qed.

Lemma rstr_eqb_neq a b : a <> b -> rstr_eqb a b = false.
Proof. intros Hn. destruct (rstr_eqb a b) eqn:E; [|done]. exfalso. by apply Hn, rstr_eqb_eq. Qed.
Lemma byte_len_app a b : byte_len (a ++ b) = byte_len a + byte_len b.
Proof. induction a as [|c a IH]; cbn; [done | rewrite IH; lia]. Qed.
Lemma byte_len_nonneg s : 0 <= byte_len s.
Proof.
  induction s as [|c s IH]; cbn; [lia|]. unfold len_utf8. repeat (destruct (_ <? _)); lia.
Qed.

(** Texts are totally ordered. *)
Lemma rstr_leb_cons x a y b : rstr_leb (x :: a) (y :: b) = true <-> x < y \/ (x = y /\ rstr_leb a b = true).
Proof. cbn. rewrite orb_true_iff, andb_true_iff, Z.ltb_lt, Z.eqb_eq. done. Qed.
#[export] Instance rstr_leb_antisym : AntiSymm (=) (fun a b => rstr_leb a b = true).
Proof.
  intros a. induction a as [|x a IH]; intros [|y b]; try done. rewrite !rstr_leb_cons.
  intros [H1 | [-> H1]] [H2 | [E H2]]; try lia. f_equal. by apply IH.
Qed.
#[export] Instance rstr_leb_trans : Transitive (fun a b => rstr_leb a b = true).
Proof.
  intros a. induction a as [|x a IH]; intros [|y b] [|z c]; try done. rewrite !rstr_leb_cons.
  intros [H1 | [-> H1]] [H2 | [-> H2]]; try (left; lia). right. split; [done|]. by eapply IH.
Qed.
Lemma rstr_leb_total a b : rstr_leb a b = false -> rstr_leb b a = true.
Proof.
  revert b. induction a as [|x a IH]; intros [|y b]; try done. intros H.
  rewrite rstr_leb_cons. destruct (Z.lt_trichotomy x y) as [Hl | [-> | Hl]]; [| |by left].
  - exfalso. rewrite <- not_true_iff_false, rstr_leb_cons in H. tauto.
  - right. split; [done|]. apply IH, not_true_iff_false. rewrite <- not_true_iff_false, rstr_leb_cons in H. tauto.
Qed.

Lemma strip_prefix_app p s : strip_prefix p (p ++ s) = Some s.
Proof. induction p as [|x p IH]; cbn; [done|]. by rewrite Z.eqb_refl. Qed.

Lemma strip_prefix_Some p s r : strip_prefix p s = Some r -> s = p ++ r.
Proof.
  revert s; induction p as [|x p IH]; intros s H; cbn in *; [by simplify_eq|].
  destruct s as [|y s]; [done|]. destruct (Z.eqb_spec x y); [subst | done].
  f_equal. by apply IH.
Qed.

(** ** Decimal numerals *)

Lemma parse_digits_app a ds d :
  parse_digits a (ds ++ [d])
  = match parse_digits a ds with
    | Some n => if is_ascii_digit d then Some (n * 10 + (d - 48)) else None
    | None => None
    end.
Proof.
  revert a; induction ds as [|c ds IH]; intros a; cbn; [done|].
  destruct (is_ascii_digit c); [apply IH | done].
Qed.

Lemma is_digit_of n : 0 <= n < 10 -> is_ascii_digit (48 + n) = true.
Proof. intros H. unfold is_ascii_digit. apply andb_true_intro. lia. Qed.

Lemma show_digits_spec fuel n acc :
  0 <= n < 10 ^ Z.of_nat fuel -> (0 < fuel)%nat ->
  exists ds, show_digits fuel n acc = ds ++ acc /\ ds <> []
    /\ parse_digits 0 ds = Some n /\ Forall (fun c => is_ascii_digit c = true) ds.
Proof.
  revert n acc. induction fuel as [|f IH]; intros n acc Hn Hf; [lia|]. cbn [show_digits].
  pose proof (Z.mod_pos_bound n 10 ltac:(lia)) as Hm.
  destruct (Z.ltb_spec n 10) as [Hlt | Hge].
  - exists [48 + n mod 10]. rewrite Z.mod_small by lia. split; [done|]. split; [done|].
    cbn [parse_digits]. rewrite is_digit_of by lia. split; [f_equal; lia|].
    constructor; [apply is_digit_of; lia | done].
  - destruct f as [|f]; [cbn in Hn; lia|].
    assert (0 <= n / 10 < 10 ^ Z.of_nat (S f)) as Hd.
    { split; [apply Z.div_pos; lia|]. apply Z.div_lt_upper_bound; [lia|].
      rewrite <- Z.pow_succ_r, <- Nat2Z.inj_succ by lia. apply Hn. }
    destruct (IH (n / 10) ((48 + n mod 10) :: acc) Hd ltac:(lia)) as (ds & E & Hne & Hp & Hall).
    exists (ds ++ [48 + n mod 10]). rewrite E, <- app_assoc. split; [done|].
    split; [by destruct ds|]. split.
    + rewrite parse_digits_app, Hp, is_digit_of by lia. f_equal.
      pose proof (Z_div_mod_eq_full n 10). lia.
    + apply List.Forall_app. split; [done|]. constructor; [by apply is_digit_of | constructor].
Qed.

Lemma utf8_ascii s : (forall c, In c s -> 0 <= c < 128) -> utf8 s = s /\ decode_utf8 s = s.
Proof.
  induction s as [|c s IH]; intros H; [done|]. specialize (H c ltac:(by left)) as Hc.
  destruct IH as [Hu Hd]; [intros x Hx; apply H; by right|].
  assert (utf8_bytes c = [c]) as Hb by (unfold utf8_bytes; by rewrite (proj2 (Z.ltb_lt c 128)) by lia).
  unfold utf8 in *. cbn [flat_map decode_utf8]. rewrite Hb, Hu, (proj2 (Z.ltb_lt c 128)), Hd by lia. done.
Qed.
Lemma from_utf8_ascii s : (forall c, In c s -> 0 <= c < 128) -> from_utf8 s = Some s.
Proof.
  intros H. destruct (utf8_ascii s H) as [Hu Hd]. unfold from_utf8. rewrite Hd, Hu, rstr_eqb_refl, andb_true_r.
  rewrite (proj2 (forallb_forall _ s)); [done|]. intros c Hc. specialize (H c Hc). unfold is_scalar.
  rewrite (proj2 (Z.leb_le 0 c)), (proj2 (Z.ltb_lt c 1114112)), (proj2 (Z.leb_gt 55296 c)) by lia. done.
Qed.

(** Printing a 64-bit number gives a non-empty run of digits that parses
    back to it. *)
Lemma show_z_spec n :
  0 <= n <= u64_max ->
  show_z n <> [] /\ parse_digits 0 (show_z n) = Some n
  /\ Forall (fun c => is_ascii_digit c = true) (show_z n).
Proof.
  intros Hn. destruct (show_digits_spec 40 n []) as (ds & E & H).
  - split; [lia|]. apply Z.le_lt_trans with u64_max; [lia | vm_compute; reflexivity].
  - lia.
  - unfold show_z. rewrite E, app_nil_r. done.
Qed.

Lemma parse_uint_show n max : 0 <= n <= u64_max -> n <= max -> parse_uint max (show_z n) = Some n.
Proof.
  intros Hn Hm. destruct (show_z_spec n Hn) as (Hne & Hp & Hall). unfold parse_uint.
  destruct (show_z n) as [|c ds]; [done|]. inversion Hall as [|? ? Hc _]; subst.
  unfold is_ascii_digit in Hc. cbn [strip_prefix lit]. change (Z.of_N (N_of_ascii "+"%char)) with 43.
  destruct (Z.eqb_spec 43 c) as [<- | _]; [done|]. rewrite Hp.
  destruct (Z.leb_spec n max); [done | lia].
Qed.

Lemma parse_uint_nonneg m s n : parse_uint m s = Some n -> 0 <= n.
Proof.
  assert (forall s acc n, 0 <= acc -> parse_digits acc s = Some n -> 0 <= n) as Hd.
  { induction s0 as [|c s0 IH]; intros acc k Hacc; cbn; [by intros [= <-]|].
    destruct (is_ascii_digit c) eqn:E; [|done]. apply IH.
    unfold is_ascii_digit in E. apply andb_prop in E as [E _]. apply Z.leb_le in E. lia. }
  unfold parse_uint. destruct (match strip_prefix _ s with Some r => r | None => s end) as [|c b]; [done|].
  destruct (parse_digits 0 (c :: b)) as [k|] eqn:E; [|done]. destruct (k <=? m); [|done].
  intros [= <-]. by eapply (Hd _ 0).
Qed.

(** ** Trimming *)

Lemma trim_start_by_head p s c r : trim_start_by p s = c :: r -> p c = false.
Proof.
  induction s as [|x s IH]; cbn; [done|]. destruct (p x) eqn:E; [apply IH|]. by intros [= <- _].
Qed.
Lemma trim_start_by_cons p c s : p c = false -> trim_start_by p (c :: s) = c :: s.
Proof. intros H. cbn. by rewrite H. Qed.

Lemma trim_start_by_app p w c s :
  p c = false -> trim_start_by p (w ++ c :: s) = trim_start_by p w ++ c :: s.
Proof.
  intros H. induction w as [|x w IH]; cbn; [by rewrite H|]. by destruct (p x).
Qed.

Lemma trim_end_app a c s :
  is_whitespace c = false -> trim_end (a ++ c :: s) = a ++ c :: trim_end s.
Proof.
  intros H. unfold trim_end, trim_start. rewrite rev_app_distr. cbn [rev].
  rewrite <- app_assoc. cbn [app]. rewrite trim_start_by_app by done.
  rewrite rev_app_distr. cbn [rev]. rewrite rev_involutive, <- app_assoc. done.
Qed.

(** ** Splitting *)

Lemma split_once_Some d s a b : split_once d s = Some (a, b) -> s = a ++ d :: b /\ ~ In d a.
Proof.
  revert a. induction s as [|c s IH]; intros a; cbn; [done|].
  destruct (Z.eqb_spec c d) as [-> | Hne]; [intros [= <- <-]; split; [done | intros []]|].
  destruct (split_once d s) as [[a' b']|]; [|done]. intros [= <- <-].
  destruct (IH a' eq_refl) as [-> Hn]. split; [done|]. by intros [? | ?].
Qed.

Lemma split_once_app d a b : ~ In d a -> split_once d (a ++ d :: b) = Some (a, b).
Proof.
  induction a as [|c a IH]; cbn; [by rewrite Z.eqb_refl|]. intros Hn.
  destruct (Z.eqb_spec c d) as [-> | Hne]; [tauto|]. rewrite IH by tauto. done.
Qed.

Lemma split_once_None d s : ~ In d s -> split_once d s = None.
Proof.
  induction s as [|c s IH]; cbn; [done|]. intros Hn.
  destruct (Z.eqb_spec c d) as [-> | Hne]; [tauto|]. rewrite IH by tauto. done.
Qed.

(** ** Lists *)

Lemma In_take {A} n (l : list A) x : In x (take n l) -> In x l.
Proof.
  revert n; induction l as [|y l IH]; intros [|n]; cbn; try done.
  intros [-> | H]; [by left | right; by apply (IH n)].
Qed.

Lemma In_drop {A} n (l : list A) x : In x (drop n l) -> In x l.
Proof.
  revert n; induction l as [|y l IH]; intros [|n]; cbn; try done.
  intros H. right. by apply (IH n).
Qed.

Lemma StronglySorted_snoc {A} (R : A -> A -> Prop) l x :
  StronglySorted R l -> Forall (fun y => R y x) l -> StronglySorted R (l ++ [x]).
Proof.
  induction 1 as [|y l Hl IH Hy]; intros Hx; cbn; [repeat constructor|].
  inversion Hx; subst. constructor; [by apply IH|].
  apply List.Forall_app; split; [done | by repeat constructor].
Qed.

Lemma StronglySorted_map_key {A} (k : A -> Z) (f : A -> A) l :
  (forall x, k (f x) = k x) ->
  StronglySorted (fun a b => k a < k b) l ->
  StronglySorted (fun a b => k a < k b) (map f l).
Proof.
  intros Hf. induction 1 as [|x l Hl IH Hx]; cbn; constructor; [done|].
  apply List.Forall_map. eapply Forall_impl; [exact Hx|]. intros y. by rewrite !Hf.
Qed.

Lemma StronglySorted_map_In {A B} (f : A -> B) (R : A -> A -> Prop) (S : B -> B -> Prop) l :
  (forall x y, In x l -> In y l -> R x y -> S (f x) (f y)) ->
  StronglySorted R l -> StronglySorted S (map f l).
Proof.
  intros Hf. induction 1 as [|x l Hl IH Hx]; cbn; constructor.
  - apply IH. intros a b Ha Hb. apply Hf; by right.
  - apply List.Forall_map, List.Forall_forall. intros y Hy.
    rewrite List.Forall_forall in Hx. apply Hf; [by left | by right | by apply Hx].
Qed.

Lemma StronglySorted_take {A} (R : A -> A -> Prop) n l :
  StronglySorted R l -> StronglySorted R (take n l).
Proof.
  intros H. revert n. induction H as [|x l Hl IH Hx]; intros [|n]; cbn; constructor; [done|].
  rewrite List.Forall_forall in Hx |- *. intros y Hy. by apply Hx, (In_take n).
Qed.

Lemma StronglySorted_take_drop {A} (R : A -> A -> Prop) n l x y :
  StronglySorted R l -> In x (take n l) -> In y (drop n l) -> R x y.
Proof.
  intros H. revert n. induction H as [|z l Hl IH Hz]; intros [|n]; cbn; try done.
  intros [-> | Hx] Hy; [|by apply (IH n)].
  rewrite List.Forall_forall in Hz. by apply Hz, (In_drop n).
Qed.

Lemma NoDup_map_inj {A B} (f : A -> B) l x y :
  List.NoDup (map f l) -> In x l -> In y l -> f x = f y -> x = y.
Proof.
  induction l as [|z l IH]; cbn; [done|]. intros Hnd. inversion Hnd as [|? ? Hz Hl]; subst.
  intros [-> | Hx] [-> | Hy] E; [done | | | by apply IH].
  - exfalso. apply Hz. rewrite E. by apply in_map.
  - exfalso. apply Hz. rewrite <- E. by apply in_map.
Qed.

Section TableLemmas.
Context {row : Type}.
Implicit Types (t : list row) (p : row -> bool) (f : row -> row) (k : row -> Z).

Lemma insert_by_perm k r t : Permutation (insert_by k r t) (r :: t).
Proof.
  induction t as [|r' t IH]; cbn; [done|].
  case_goal; [done|]. rewrite IH. apply Permutation_swap.
Qed.

Lemma order_by_perm k t : Permutation (order_by k t) t.
Proof. induction t as [|r t IH]; cbn; [done|]. rewrite insert_by_perm. by f_equiv. Qed.

Lemma order_by_In k t r : In r (order_by k t) <-> In r t.
Proof.
  split; apply Permutation_in; [|symmetry]; apply order_by_perm.
Qed.

Lemma insert_by_sorted k r t :
  StronglySorted (fun a b => k a <= k b) t ->
  StronglySorted (fun a b => k a <= k b) (insert_by k r t).
Proof.
  induction 1 as [|r' t Ht IH Hall]; cbn; [repeat constructor|].
  destruct (Z.leb_spec (k r) (k r')).
  - constructor; [by constructor|]. constructor; [done|].
    eapply Forall_impl; [exact Hall | cbn; lia].
  - constructor; [done|]. rewrite insert_by_perm. constructor; [lia | done].
Qed.

Lemma order_by_sorted k t : StronglySorted (fun a b => k a <= k b) (order_by k t).
Proof. induction t; cbn; [constructor | by apply insert_by_sorted]. Qed.

Lemma sql_update_length p f t : length (fst (sql_update p f t)) = length t.
Proof. cbn. apply length_map. Qed.

Lemma sql_update_none p f t : snd (sql_update p f t) = 0%nat -> fst (sql_update p f t) = t.
Proof.
  cbn. induction t as [|r t IH]; cbn; [done|].
  destruct (p r); cbn; [done|]. intros H. by rewrite IH.
Qed.

(** A row that matches is counted, and the count is positive exactly when
    one does. *)
Lemma sql_update_count_pos p f t :
  snd (sql_update p f t) <> 0%nat <-> exists r, In r t /\ p r = true.
Proof.
  cbn. split.
  - destruct (List.filter p t) as [|r l] eqn:E; [done|]. intros _.
    exists r. apply filter_In. rewrite E. by left.
  - intros (r & Hr & Hp) Hl. apply length_zero_iff_nil in Hl.
    assert (In r (List.filter p t)) as Hin by by apply filter_In.
    by rewrite Hl in Hin.
Qed.

Lemma fold_max_ge k t m : m <= fold_left (fun m r' => Z.max m (k r')) t m.
Proof. revert m; induction t as [|r t IH]; intros m; cbn; [lia|]. specialize (IH (Z.max m (k r))). lia. Qed.

Lemma fold_max_In k t m r :
  In r t -> k r <= fold_left (fun m r' => Z.max m (k r')) t m.
Proof.
  revert m; induction t as [|r' t IH]; intros m; cbn; [done|].
  intros [-> | Hr]; [|by apply IH].
  etrans; [|apply fold_max_ge]. lia.
Qed.

Lemma fold_max_attained k t m :
  fold_left (fun m r' => Z.max m (k r')) t m = m \/
  exists r, In r t /\ k r = fold_left (fun m r' => Z.max m (k r')) t m.
Proof.
  revert m; induction t as [|r' t IH]; intros m; cbn; [by left|].
  destruct (IH (Z.max m (k r'))) as [E | (r & Hr & E)].
  - rewrite E. destruct (Z.max_spec m (k r')) as [[? ->] | [? ->]]; eauto.
  - right. eauto.
Qed.

Lemma sql_max_None k t : sql_max k t = None <-> t = [].
Proof. destruct t; cbn; split; congruence. Qed.

Lemma sql_max_ge k t m r : sql_max k t = Some m -> In r t -> k r <= m.
Proof.
  destruct t as [|r0 t]; cbn; [done|]. intros [= <-] [-> | Hr].
  - apply fold_max_ge.
  - by apply fold_max_In.
Qed.

Lemma sql_max_attained k t m : sql_max k t = Some m -> exists r, In r t /\ k r = m.
Proof.
  destruct t as [|r0 t]; cbn; [done|]. intros [= <-].
  destruct (fold_max_attained k t (k r0)) as [E | (r & Hr & E)].
  - rewrite E. eauto.
  - eauto.
Qed.

Lemma filter_length_map p f t :
  (forall r, p (f r) = p r) ->
  length (List.filter p (map f t)) = length (List.filter p t).
Proof.
  intros H. induction t as [|r t IH]; cbn; [done|].
  rewrite H. destruct (p r); cbn; congruence.
Qed.

Lemma find_In p t r : List.find p t = Some r -> In r t /\ p r = true.
Proof. apply find_some. Qed.
End TableLemmas.

Lemma NoDup_snoc {A} (l : list A) x : List.NoDup l -> ~ In x l -> List.NoDup (l ++ [x]).
Proof.
  intros Hl Hx. apply (Permutation_NoDup (l := x :: l)); [apply Permutation_cons_append | by constructor].
Qed.

Lemma find_app {A} (p : A -> bool) l l' :
  find p (l ++ l') = match find p l with Some x => Some x | None => find p l' end.
Proof. induction l as [|x l IH]; cbn; [done|]. by destruct (p x). Qed.

Lemma existsb_find {A} (p : A -> bool) l :
  existsb p l = match find p l with Some _ => true | None => false end.
Proof. induction l as [|x l IH]; cbn; [done|]. by destruct (p x). Qed.

(** A text is found in every text it is a part of. *)
Lemma str_find_app p a b : exists n, str_find p (a ++ p ++ b) = Some n.
Proof.
  induction a as [|c a [n IH]]; cbn [app].
  - exists 0%nat. assert (starts_with p (p ++ b) = true) as E by (unfold starts_with; by rewrite strip_prefix_app).
    destruct (p ++ b); cbn [str_find]; by rewrite E.
  - cbn [str_find]. destruct (starts_with p _); [by eexists|]. rewrite IH. by eexists.
Qed.
Lemma str_contains_app p a b : str_contains p (a ++ p ++ b) = true.
Proof. unfold str_contains. by destruct (str_find_app p a b) as [n ->]. Qed.
Lemma str_find_Some p s n : str_find p s = Some n -> exists a b, s = a ++ p ++ b.
Proof.
  revert n. induction s as [|c s IH]; intros n; cbn [str_find]; unfold starts_with.
  - destruct (strip_prefix p []) as [r|] eqn:E; [|done]. intros _. exists [], r. exact (strip_prefix_Some _ _ _ E).
  - destruct (strip_prefix p (c :: s)) as [r|] eqn:E; [intros _; exists [], r; exact (strip_prefix_Some _ _ _ E)|].
    destruct (str_find p s) as [m|]; [|done]. intros _. destruct (IH m eq_refl) as (a & b & ->). by exists (c :: a), b.
Qed.
Lemma str_contains_in p a s b : str_contains p s = true -> str_contains p (a ++ s ++ b) = true.
Proof.
  unfold str_contains at 1. destruct (str_find p s) as [n|] eqn:E; [|done]. intros _. apply str_find_Some in E as (x & y & ->).
  replace (a ++ (x ++ p ++ y) ++ b) with ((a ++ x) ++ p ++ (y ++ b)) by (by rewrite <- !app_assoc). apply str_contains_app.
Qed.
Lemma split_on_none p l : (forall c, In c l -> p c = false) -> split_on p l = [l].
Proof.
  induction l as [|c l IH]; intros H; cbn; [done|].
  rewrite (H c) by by left. rewrite IH; [done | intros x Hx; apply H; by right].
Qed.

Lemma split_on_app p l d s :
  (forall c, In c l -> p c = false) -> p d = true -> split_on p (l ++ d :: s) = l :: split_on p s.
Proof.
  intros H Hd. induction l as [|c l IH]; cbn; [by rewrite Hd|].
  rewrite (H c) by by left. rewrite IH; [done | intros x Hx; apply H; by right].
Qed.

(** Text that neither starts nor ends with white space is left alone. *)
Lemma trim_id c s d :
  is_whitespace c = false -> is_whitespace d = false -> trim (c :: s ++ [d]) = c :: s ++ [d].
Proof.
  intros Hc Hd. unfold trim, trim_start. rewrite trim_start_by_cons by done.
  change (trim_end ([] ++ c :: s ++ [d]) = c :: s ++ [d]). rewrite trim_end_app by done.
  cbn [app]. by rewrite (trim_end_app s d []).
Qed.

(** ** The first row of an ordered selection *)

Section OrderHead.
Context {row : Type} (k : row -> Z).
Implicit Types l : list row.

Lemma head_insert_by r l :
  head (insert_by k r l) = match head l with
                           | None => Some r
                           | Some h => if k r <=? k h then Some r else Some h
                           end.
Proof. destruct l as [|h l]; cbn; [done|]. by case_goal. Qed.

Lemma head_order_by_min l h x :
  head (order_by k l) = Some h -> In x l -> k h <= k x.
Proof.
  intros Hh Hx. pose proof (order_by_sorted k l) as Hs. rewrite <- (order_by_In k) in Hx.
  destruct (order_by k l) as [|h' l']; [done|]. cbn in Hh. simplify_eq.
  destruct Hx as [-> | Hx]; [lia|]. inversion Hs as [|? ? _ Hall]; subst.
  rewrite List.Forall_forall in Hall. by apply Hall.
Qed.

(** Appending rows either leaves the first one in place or puts a new row
    first. *)
Lemma head_order_by_app l l' h :
  head (order_by k (l ++ l')) = Some h -> head (order_by k l) = Some h \/ In h l'.
Proof.
  revert h. induction l as [|r l IH]; intros h; cbn [app order_by].
  - intros H. right. apply (order_by_In k). destruct (order_by k l'); [done|].
    cbn in H. simplify_eq. by left.
  - rewrite !head_insert_by. destruct (head (order_by k (l ++ l'))) as [h'|] eqn:E.
    + specialize (IH h' eq_refl). destruct (Z.leb_spec (k r) (k h')); intros [= <-].
      * left. destruct (head (order_by k l)) as [h|] eqn:El; [|done].
        destruct (Z.leb_spec (k r) (k h)); [done|]. exfalso.
        assert (In h (l ++ l')) as Hin.
        { apply in_or_app. left. apply (order_by_In k). destruct (order_by k l); [done|].
          cbn in El. simplify_eq. by left. }
        pose proof (head_order_by_min _ _ _ E Hin). lia.
      * destruct IH as [-> | Hin]; [|by right]. left. destruct (Z.leb_spec (k r) (k h')); [lia | done].
    + intros [= <-]. left. destruct (head (order_by k l)) as [h|] eqn:El; [|done]. exfalso.
      assert (In h (order_by k (l ++ l'))) as Hin.
      { apply order_by_In, in_or_app. left. apply (order_by_In k).
        destruct (order_by k l); [done|]. cbn in El. simplify_eq. by left. }
      by destruct (order_by k (l ++ l')).
Qed.

Lemma order_by_map (f : row -> row) l :
  (forall r, k (f r) = k r) -> order_by k (map f l) = map f (order_by k l).
Proof.
  intros Hf. assert (forall r l, insert_by k (f r) (map f l) = map f (insert_by k r l)) as Hi.
  { intros r l'. induction l' as [|x l' IH]; cbn; [done|]. rewrite !Hf.
    case_goal; cbn; [done|]. by rewrite IH. }
  induction l as [|r l IH]; cbn; [done|]. by rewrite IH, Hi.
Qed.
End OrderHead.

Lemma filter_map_same {A} (p : A -> bool) (f : A -> A) l :
  (forall x, p (f x) = p x) -> List.filter p (map f l) = map f (List.filter p l).
Proof.
  intros H. induction l as [|x l IH]; cbn; [done|]. rewrite H, IH. by destruct (p x).
Qed.

Lemma sql_limit_take {A} n (l : list A) : 0 <= n -> sql_limit n l = take (Z.to_nat n) l.
Proof.
  intros H. unfold sql_limit.
  destruct (Z.ltb_spec n 0); [lia|]. destruct (Z.leb_spec (Z.of_nat (length l)) n); cbn; [|done].
  rewrite take_ge; [done | lia].
Qed.

Lemma sql_limit_In {A} n (l : list A) x : In x (sql_limit n l) -> In x l.
Proof. unfold sql_limit. case_goal; [done | apply In_take]. Qed.

Section NumberedLemmas.
Context {row : Type} (key seq : row -> Z) (parity : bool).
Implicit Types t : list row.

Lemma numbered_nil : numbered key seq parity [].
Proof. repeat constructor. Qed.

Lemma numbered_pos t : numbered key seq parity t -> Forall (fun r => 0 < seq r) t.
Proof. intros [H _ _]. eapply Forall_impl; [exact H | cbn; tauto]. Qed.

Lemma sql_next_spec t :
  Forall (fun r => 0 < seq r) t ->
  0 < default 0 (sql_max seq t) + 1
  /\ Forall (fun r => seq r < default 0 (sql_max seq t) + 1) t.
Proof.
  intros Hpos. split.
  - destruct (sql_max seq t) as [m|] eqn:E; cbn; [|lia].
    apply sql_max_attained in E as (r & Hr & <-).
    rewrite List.Forall_forall in Hpos. specialize (Hpos r Hr). lia.
  - apply List.Forall_forall. intros r Hr.
    destruct (sql_max seq t) as [m|] eqn:E; cbn.
    + pose proof (sql_max_ge seq t m r E Hr). lia.
    + apply sql_max_None in E. by subst.
Qed.

(** Rounding the successor of the maximum up to a parity. *)
Lemma next_parity n (b : bool) :
  0 < n -> let n' := if Bool.eqb (Z.even n) b then n else n + 1 in
  n <= n' /\ Z.even n' = b.
Proof.
  intros Hn. cbn. destruct (Bool.eqb (Z.even n) b) eqn:E.
  - apply eqb_prop in E. split; [lia | done].
  - split; [lia|]. apply eqb_false_iff in E. rewrite Z.even_add.
    destruct (Z.even n), b; cbn; congruence.
Qed.

Lemma rem2_even n : 0 < n -> (Z.rem n 2 =? 0) = Z.even n.
Proof. intros H. rewrite Z.rem_mod_nonneg by lia. symmetry. apply Zeven_mod. Qed.

(** A number above every row is not taken, so the only constraint an insert
    can violate is the primary key. *)
Lemma fresh_seq_free t n (p : row -> bool) :
  Forall (fun r => seq r < n) t ->
  existsb (fun r => p r || (seq r =? n)) t = existsb p t.
Proof.
  induction 1 as [|r t Hr Ht IH]; cbn; [done|]. rewrite IH.
  destruct (Z.eqb_spec (seq r) n); [lia|]. by rewrite orb_false_r.
Qed.

Lemma numbered_snoc t r :
  numbered key seq parity t -> 0 < seq r -> Z.even (seq r) = parity ->
  Forall (fun r' => seq r' < seq r) t ->
  existsb (fun r' => key r' =? key r) t = false ->
  numbered key seq parity (t ++ [r]).
Proof.
  intros [H1 H2 H3] Hp He Hlt Hid. constructor.
  - apply List.Forall_app; split; [done|]. by repeat constructor.
  - by apply StronglySorted_snoc.
  - rewrite map_app. cbn. apply (Permutation_NoDup (l := key r :: map key t)).
    + apply Permutation_cons_append.
    + constructor; [|done]. intros Hin. apply in_map_iff in Hin as (r' & E & Hr').
      apply not_true_iff_false in Hid. apply Hid, existsb_exists.
      exists r'. split; [done|]. by apply Z.eqb_eq.
Qed.

Lemma numbered_map f t :
  (forall r, seq (f r) = seq r) -> (forall r, key (f r) = key r) ->
  numbered key seq parity t -> numbered key seq parity (map f t).
Proof.
  intros Hs Hi [H1 H2 H3]. constructor.
  - apply List.Forall_map. eapply Forall_impl; [exact H1|]. intros r. by rewrite Hs.
  - by apply StronglySorted_map_key.
  - rewrite map_map. by rewrite (map_ext _ key Hi).
Qed.

Lemma numbered_update p f t :
  (forall r, seq (f r) = seq r) -> (forall r, key (f r) = key r) ->
  numbered key seq parity t -> numbered key seq parity (fst (sql_update p f t)).
Proof. intros Hs Hi. cbn. apply numbered_map; intros r; destruct (p r); auto. Qed.

Lemma numbered_seq_NoDup t : numbered key seq parity t -> List.NoDup (map seq t).
Proof.
  intros [_ H _]. induction H as [|r t Ht IH Hr]; cbn; constructor; [|done].
  intros Hin. apply in_map_iff in Hin as (r' & E & Hr').
  rewrite List.Forall_forall in Hr. specialize (Hr r' Hr'). lia.
Qed.
End NumberedLemmas.

Create HintDb tables.
#[export] Hint Resolve numbered_nil numbered_update numbered_pos : tables.
#[export] Hint Resolve order_by_perm order_by_sorted insert_by_perm : tables.

