(* ===== verification/Types.v ===== *)
(** The shared vocabulary of the crates ([copperclaw-types]) and the error
    type of the database crate: message kinds with their column form,
    session and container status, routing, and the row structs the tables
    hand to their readers.  Identifiers are UUIDs, modelled by the integer
    they denote; instants are integers (nanoseconds since the epoch). *)
From S2P Require Import Prelude.

(** A UUID as the 128-bit number it denotes, and an instant. *)
Abbreviation uuid := Z (only parsing).
Abbreviation instant := Z (only parsing).

Definition ns_per_ms : Z := 1000000.
Definition ns_per_s : Z := 1000000000.

(** [chrono::Duration::num_milliseconds]: truncates toward zero. *)
Definition num_milliseconds (d : Z) : Z := Z.quot d ns_per_ms.
Definition num_seconds (d : Z) : Z := Z.quot d ns_per_s.

Inductive MessageKind : Type :=
| Chat | Task | Webhook | System | Agent | Card | Breadcrumb | TodoList
| Diff | Error | Thinking.

#[export] Instance MessageKind_eq_dec : EqDecision MessageKind.
Proof. solve_decision. Defined.

Definition MessageKind_as_str (k : MessageKind) : string :=
  match k with
  | Chat => "chat" | Task => "task" | Webhook => "webhook" | System => "system"
  | Agent => "agent" | Card => "card" | Breadcrumb => "breadcrumb"
  | TodoList => "todo_list" | Diff => "diff" | Error => "error"
  | Thinking => "thinking"
  end%string.

Definition MessageKind_parse_str (s : string) : option MessageKind :=
  if String.eqb s "chat" then Some Chat
  else if String.eqb s "task" then Some Task
  else if String.eqb s "webhook" then Some Webhook
  else if String.eqb s "system" then Some System
  else if String.eqb s "agent" then Some Agent
  else if String.eqb s "card" then Some Card
  else if String.eqb s "breadcrumb" then Some Breadcrumb
  else if String.eqb s "todo_list" then Some TodoList
  else if String.eqb s "diff" then Some Diff
  else if String.eqb s "error" then Some Error
  else if String.eqb s "thinking" then Some Thinking
  else None.

Inductive ContainerStatus : Type := Idle | Running | Stopped.
Definition ContainerStatus_as_str (s : ContainerStatus) : string :=
  match s with Idle => "idle" | Running => "running" | Stopped => "stopped" end%string.

Module SessionStatus.
Inductive SessionStatus : Type := Active | Stopped | Archived.
Definition as_str (s : SessionStatus) : string :=
  match s with Active => "active" | Stopped => "stopped" | Archived => "archived" end%string.
End SessionStatus.

Inductive SessionMode : Type := Shared | PerThread | AgentShared.
Inductive EngageMode : Type := Pattern | Mention | MentionSticky.

#[export] Instance ContainerStatus_eq_dec : EqDecision ContainerStatus.
Proof. solve_decision. Defined.
#[export] Instance SessionStatus_eq_dec : EqDecision SessionStatus.SessionStatus.
Proof. solve_decision. Defined.

Record Session : Type := mkSession {
  s_id : uuid;
  s_agent_group_id : uuid;
  s_messaging_group_id : option uuid;
  s_thread_id : option string;
  s_agent_provider : option string;
  s_status : SessionStatus.SessionStatus;
  s_container_status : ContainerStatus;
  s_last_active : instant;
  s_created_at : instant;
  s_source_session_id : option uuid;
}.

Record SessionRouting : Type := mkRouting {
  sr_channel_type : option string;
  sr_platform_id : option string;
  sr_thread_id : option string;
}.

Record SenderIdentity : Type := mkSender {
  se_channel_type : string;
  se_identity : string;
  se_display_name : option string;
}.

Record ReplyTo : Type := mkReplyTo {
  rt_channel_type : string;
  rt_platform_id : string;
  rt_thread_id : option string;
  rt_replying_to_self : option bool;
}.

Record InboundMessage : Type := mkInboundMessage {
  im_id : rstr;
  im_kind : MessageKind;
  im_content : json;
  im_timestamp : instant;
  im_is_mention : option bool;
  im_is_group : option bool;
}.

Record InboundEvent : Type := mkEvent {
  ev_channel_type : string;
  ev_platform_id : string;
  ev_thread_id : option string;
  ev_message : InboundMessage;
  ev_reply_to : option ReplyTo;
  ev_sender : option SenderIdentity;
}.

Record MessageInRow : Type := mkMessageIn {
  mi_id : uuid;
  mi_seq : Z;
  mi_kind : MessageKind;
  mi_timestamp : instant;
  mi_status : string;
  mi_process_after : option instant;
  mi_recurrence : option rstr;
  mi_series_id : option rstr;
  mi_tries : Z;
  mi_trigger : bool;
  mi_platform_id : option string;
  mi_channel_type : option string;
  mi_thread_id : option string;
  mi_content : json;
  mi_source_session_id : option rstr;
  mi_on_wake : bool;
  mi_reply_to : option string;
  mi_is_group : option bool;
}.

Record MessageOutRow : Type := mkMessageOut {
  mo_id : uuid;
  mo_seq : Z;
  mo_in_reply_to : option uuid;
  mo_timestamp : instant;
  mo_deliver_after : option instant;
  mo_recurrence : option string;
  mo_kind : MessageKind;
  mo_platform_id : option string;
  mo_channel_type : option string;
  mo_thread_id : option string;
  mo_content : json;
}.

(** The database errors the modelled code tells apart.  [SqliteConstraint]
    is the constraint violation of a rejected [INSERT], [SqliteConversion] a
    column that does not read back as its type. *)
Inductive DbError : Type :=
| SqliteConstraint
| SqliteConversion
| NotFound
| Invariant (msg : string).

(** [Option::or_else] and the SQL test [c IS NULL OR c <= now]. *)
Definition or_else {A} (a b : option A) : option A :=
  match a with Some _ => a | None => b end.
Definition due (now : instant) (c : option instant) : bool :=
  match c with None => true | Some t => t <=? now end.

Lemma MessageKind_parse_as_str k : MessageKind_parse_str (MessageKind_as_str k) = Some k.
Proof. by destruct k. Qed.

Lemma MessageKind_parse_inv s k :
  MessageKind_parse_str s = Some k -> s = MessageKind_as_str k.
Proof.
  unfold MessageKind_parse_str.
  repeat (destruct (String.eqb s _) eqn:E in |- *; [apply String.eqb_eq in E; intros [= <-]; exact E | clear E]).
  done.
Qed.

(** The column form of a message kind round-trips, and no other string
    parses: [parse_str] accepts exactly the image of [as_str]. *)
Theorem MessageKind_roundtrip s k :
  MessageKind_parse_str s = Some k <-> s = MessageKind_as_str k.
Proof.
  split; [apply MessageKind_parse_inv | intros ->; apply MessageKind_parse_as_str].
Qed.
