(* ===== verification/MessagesIn.v ===== *)
(** The session inbox: table [messages_in] of [inbound.db]
    ([copperclaw-db/src/tables/messages_in.rs]).  The table is a list of
    rows; [Utc::now()] and fresh ids are arguments.  The writer is the host,
    which numbers its rows with even sequence numbers. *)
From S2P Require Import Prelude Types.

Record WriteInbound : Type := mkWriteInbound {
  wi_id : uuid;
  wi_kind : MessageKind;
  wi_timestamp : instant;
  wi_content : json;
  wi_trigger : bool;
  wi_on_wake : bool;
  wi_process_after : option instant;
  wi_recurrence : option rstr;
  wi_series_id : option rstr;
  wi_platform_id : option string;
  wi_channel_type : option string;
  wi_thread_id : option string;
  wi_source_session_id : option rstr;
  wi_reply_to : option string;
  wi_is_group : option bool;
}.

(** A row as stored: the columns of [MessageInRow] (unsanitised) and the
    crash counter of migration 033, which the struct does not carry. *)
Record in_row : Type := mkInRow {
  ir_row : MessageInRow;
  ir_crash_attempts : Z;
}.
Abbreviation in_table := (list in_row) (only parsing).

Definition ir_id (r : in_row) : uuid := mi_id (ir_row r).
Definition ir_seq (r : in_row) : Z := mi_seq (ir_row r).
Definition is_pending (r : in_row) : bool := String.eqb (mi_status (ir_row r)) "pending".
Definition is_due (now : instant) (r : in_row) : bool :=
  due now (mi_process_after (ir_row r)).

Definition next_even_seq (t : in_table) : Z :=
  let max := sql_max ir_seq t in
  let next := default 0 max + 1 in
  if negb (Z.rem next 2 =? 0) then next + 1 else next.

Definition pending_row (msg : WriteInbound) (seq : Z) : in_row :=
  {| ir_row :=
       {| mi_id := wi_id msg; mi_seq := seq; mi_kind := wi_kind msg;
          mi_timestamp := wi_timestamp msg; mi_status := "pending";
          mi_process_after := wi_process_after msg;
          mi_recurrence := wi_recurrence msg; mi_series_id := wi_series_id msg;
          mi_tries := 0; mi_trigger := wi_trigger msg;
          mi_platform_id := wi_platform_id msg;
          mi_channel_type := wi_channel_type msg;
          mi_thread_id := wi_thread_id msg; mi_content := wi_content msg;
          mi_source_session_id := wi_source_session_id msg;
          mi_on_wake := wi_on_wake msg; mi_reply_to := wi_reply_to msg;
          mi_is_group := wi_is_group msg |};
     ir_crash_attempts := 0 |}.

(** [PRIMARY KEY (id)] and [UNIQUE (seq)]. *)
Definition conflicts (id : uuid) (seq : Z) (r : in_row) : bool :=
  (ir_id r =? id) || (ir_seq r =? seq).

Definition insert_impl (t : in_table) (msg : WriteInbound) (idempotent : bool)
  : result DbError (Z * in_table) :=
  let seq := next_even_seq t in
  if existsb (conflicts (wi_id msg) seq) t then
    (if idempotent then Ok (0, t) else Err SqliteConstraint)
  else Ok (seq, t ++ [pending_row msg seq]).

Definition insert (t : in_table) (msg : WriteInbound) := insert_impl t msg false.
Definition insert_idempotent (t : in_table) (msg : WriteInbound) := insert_impl t msg true.

Definition count_due (t : in_table) (now : instant) : Z :=
  sql_count (fun r => is_pending r && mi_trigger (ir_row r) && is_due now r) t.

Definition count_pending_for_typing (t : in_table) (now : instant) : Z :=
  sql_count (fun r => is_pending r && is_due now r) t.

Definition set_mi_status (s : string) (r : in_row) : in_row :=
  let m := ir_row r in
  {| ir_row :=
       {| mi_id := mi_id m; mi_seq := mi_seq m; mi_kind := mi_kind m;
          mi_timestamp := mi_timestamp m; mi_status := s;
          mi_process_after := mi_process_after m; mi_recurrence := mi_recurrence m;
          mi_series_id := mi_series_id m; mi_tries := mi_tries m;
          mi_trigger := mi_trigger m; mi_platform_id := mi_platform_id m;
          mi_channel_type := mi_channel_type m; mi_thread_id := mi_thread_id m;
          mi_content := mi_content m; mi_source_session_id := mi_source_session_id m;
          mi_on_wake := mi_on_wake m; mi_reply_to := mi_reply_to m;
          mi_is_group := mi_is_group m |};
     ir_crash_attempts := ir_crash_attempts r |}.

Definition set_mi_tries (n : Z) (r : in_row) : in_row :=
  let m := ir_row r in
  {| ir_row :=
       {| mi_id := mi_id m; mi_seq := mi_seq m; mi_kind := mi_kind m;
          mi_timestamp := mi_timestamp m; mi_status := mi_status m;
          mi_process_after := mi_process_after m; mi_recurrence := mi_recurrence m;
          mi_series_id := mi_series_id m; mi_tries := n;
          mi_trigger := mi_trigger m; mi_platform_id := mi_platform_id m;
          mi_channel_type := mi_channel_type m; mi_thread_id := mi_thread_id m;
          mi_content := mi_content m; mi_source_session_id := mi_source_session_id m;
          mi_on_wake := mi_on_wake m; mi_reply_to := mi_reply_to m;
          mi_is_group := mi_is_group m |};
     ir_crash_attempts := ir_crash_attempts r |}.

Definition has_id (id : uuid) (r : in_row) : bool := ir_id r =? id.

Definition mark_status (s : string) (t : in_table) (id : uuid)
  : result DbError in_table :=
  let '(t', n) := sql_update (has_id id) (set_mi_status s) t in
  if (n =? 0)%nat then Err NotFound else Ok t'.

Definition mark_completed (t : in_table) (id : uuid) := mark_status "completed" t id.
Definition mark_failed (t : in_table) (id : uuid) := mark_status "failed" t id.

Definition bump_crash (r : in_row) : in_row :=
  {| ir_row := ir_row r; ir_crash_attempts := ir_crash_attempts r + 1 |}.

Definition increment_crash_attempts (t : in_table) (id : uuid)
  : result DbError (Z * in_table) :=
  let '(t', n) := sql_update (has_id id) bump_crash t in
  if (n =? 0)%nat then Err NotFound
  else match sql_get (has_id id) t' with
       | Some r => Ok (ir_crash_attempts r, t')
       | None => Err NotFound
       end.

Definition max_seq (t : in_table) : Z := default 0 (sql_max ir_seq t).

(** Reading a row: an empty text column reads as absent, a negative or
    oversized [tries] as zero. *)
Definition non_empty (o : option string) : option string :=
  match o with Some EmptyString => None | _ => o end.
Definition non_empty_text (o : option rstr) : option rstr :=
  match o with Some [] => None | _ => o end.

Definition row_to_message_in (r : in_row) : MessageInRow :=
  let m := ir_row r in
  {| mi_id := mi_id m; mi_seq := mi_seq m; mi_kind := mi_kind m;
     mi_timestamp := mi_timestamp m; mi_status := mi_status m;
     mi_process_after := mi_process_after m; mi_recurrence := mi_recurrence m;
     mi_series_id := mi_series_id m;
     mi_tries := if (0 <=? mi_tries m) && (mi_tries m <=? u32_max) then mi_tries m else 0;
     mi_trigger := mi_trigger m; mi_platform_id := mi_platform_id m;
     mi_channel_type := mi_channel_type m; mi_thread_id := mi_thread_id m;
     mi_content := mi_content m;
     mi_source_session_id := non_empty_text (mi_source_session_id m);
     mi_on_wake := mi_on_wake m;
     mi_reply_to := non_empty (mi_reply_to m);
     mi_is_group := mi_is_group m |}.

Definition get_new_since (t : in_table) (min_seq : Z) (now : instant) : list MessageInRow :=
  map row_to_message_in
    (order_by ir_seq
       (List.filter (fun r => is_pending r && (min_seq <? ir_seq r)
                              && negb (mi_on_wake (ir_row r)) && is_due now r) t)).

Definition pollable (first_poll : bool) (now : instant) (r : in_row) : bool :=
  is_pending r && is_due now r && (negb (mi_on_wake (ir_row r)) || first_poll).

Definition get_pending (t : in_table) (first_poll : bool) (limit : Z) (now : instant)
  : list MessageInRow :=
  map row_to_message_in
    (sql_limit limit
       (order_by (fun r => - ir_seq r) (List.filter (pollable first_poll now) t))).

(** ** The invariant of a table only the host writes *)

(** Sequence numbers are positive and even, grow with the row id, and ids
    are unique. *)
Definition wf (t : in_table) : Prop := numbered ir_id ir_seq true t.

(** * Lemmas *)

Lemma next_even_seq_spec t :
  wf t ->
  0 < next_even_seq t /\ Z.even (next_even_seq t) = true
  /\ Forall (fun r => ir_seq r < next_even_seq t) t.
Proof.
  intros Hwf. destruct (sql_next_spec ir_seq t (numbered_pos _ _ _ t Hwf)) as [Hp Hlt].
  unfold next_even_seq. cbn zeta. rewrite rem2_even by done.
  pose proof (next_parity _ true Hp) as [Hle He]. cbn zeta in *.
  destruct (Z.even _) eqn:E; cbn in *; repeat split; try done; [lia|].
  eapply Forall_impl; [exact Hlt | cbn; lia].
Qed.

Lemma insert_impl_cases t msg b r :
  wf t -> insert_impl t msg b = r ->
  (existsb (has_id (wi_id msg)) t = true /\ r = if b then Ok (0, t) else Err SqliteConstraint)
  \/ (existsb (has_id (wi_id msg)) t = false
      /\ r = Ok (next_even_seq t, t ++ [pending_row msg (next_even_seq t)])).
Proof.
  intros Hwf <-. unfold insert_impl, conflicts. rewrite fresh_seq_free by apply (next_even_seq_spec t Hwf).
  fold (has_id (wi_id msg)). destruct (existsb _ t); [left | right]; done.
Qed.

Lemma wf_snoc t msg :
  wf t -> existsb (has_id (wi_id msg)) t = false ->
  wf (t ++ [pending_row msg (next_even_seq t)]).
Proof.
  intros Hwf Hid. destruct (next_even_seq_spec t Hwf) as (Hp & He & Hlt).
  by apply numbered_snoc.
Qed.

Lemma wf_update p f t :
  (forall r, ir_seq (f r) = ir_seq r) -> (forall r, ir_id (f r) = ir_id r) ->
  wf t -> wf (fst (sql_update p f t)).
Proof. apply numbered_update. Qed.

Lemma wf_nil : wf [].
Proof. apply numbered_nil. Qed.

(** ** The operations of the inbox as a step relation *)

(** Every write the crates make to [messages_in] through this module. *)
Inductive step : in_table -> in_table -> Prop :=
| step_insert t msg seq t' : insert t msg = Ok (seq, t') -> step t t'
| step_insert_idem t msg seq t' : insert_idempotent t msg = Ok (seq, t') -> step t t'
| step_completed t id t' : mark_completed t id = Ok t' -> step t t'
| step_failed t id t' : mark_failed t id = Ok t' -> step t t'
| step_crash t id n t' : increment_crash_attempts t id = Ok (n, t') -> step t t'.

Lemma mark_status_Ok s t id t' :
  mark_status s t id = Ok t' ->
  t' = fst (sql_update (has_id id) (set_mi_status s) t)
  /\ exists r, In r t /\ has_id id r = true.
Proof.
  unfold mark_status. destruct (sql_update _ _ t) as [u n] eqn:E.
  destruct (Nat.eqb_spec n 0); [done|]. intros [= <-].
  split; [done|]. apply (sql_update_count_pos (has_id id) (set_mi_status s)).
  by rewrite E.
Qed.

Lemma step_wf t t' : step t t' -> wf t -> wf t'.
Proof.
  intros Hst Hwf. destruct Hst as
    [t msg seq t' H | t msg seq t' H | t id t' H | t id t' H | t id n t' H].
  - apply (insert_impl_cases t msg false) in H as [(_ & H) | (Hid & H)]; [done | | done].
    simplify_eq. by apply wf_snoc.
  - apply (insert_impl_cases t msg true) in H as [(_ & H) | (Hid & H)]; [| |done];
      simplify_eq; [done | by apply wf_snoc].
  - apply mark_status_Ok in H as [-> _]. by apply wf_update.
  - apply mark_status_Ok in H as [-> _]. by apply wf_update.
  - unfold increment_crash_attempts in H.
    destruct (sql_update (has_id id) bump_crash t) as [u k] eqn:E.
    destruct (k =? 0)%nat; [done|]. destruct (sql_get _ u); [|done].
    injection H as _ <-. apply (f_equal fst) in E. cbn [fst] in E. rewrite <- E.
    by apply wf_update.
Qed.

Lemma get_pending_In t b limit now m :
  In m (get_pending t b limit now) ->
  exists r, In r t /\ m = row_to_message_in r /\ pollable b now r = true.
Proof.
  unfold get_pending. intros H. apply in_map_iff in H as (r & <- & Hr).
  exists r. assert (In r (order_by (fun r => - ir_seq r) (List.filter (pollable b now) t))) as Hin
    by (by eapply sql_limit_In).
  apply order_by_In, filter_In in Hin. tauto.
Qed.

Lemma wf_seq_NoDup t : wf t -> List.NoDup (map ir_seq t).
Proof. apply numbered_seq_NoDup. Qed.

(** The rows a poll may return, newest first. *)
Definition poll_order (b : bool) (now : instant) (t : in_table) : list in_row :=
  order_by (fun r => - ir_seq r) (List.filter (pollable b now) t).

Lemma poll_order_strict b now t :
  wf t -> StronglySorted (fun r r' => ir_seq r' < ir_seq r) (poll_order b now t).
Proof.
  intros Hwf. unfold poll_order.
  assert (List.NoDup (map ir_seq (order_by (fun r => - ir_seq r) (List.filter (pollable b now) t)))) as Hnd.
  { apply (Permutation_NoDup (l := map ir_seq (List.filter (pollable b now) t))).
    - apply Permutation_map. symmetry. apply order_by_perm.
    - pose proof (wf_seq_NoDup t Hwf) as H. clear Hwf.
      induction t as [|r t IH]; cbn; [constructor|].
      inversion H as [|? ? Hr Ht]; subst. destruct (pollable b now r); cbn; [|by apply IH].
      constructor; [|by apply IH]. intros Hin. apply Hr.
      apply in_map_iff in Hin as (r' & E & Hr'). apply in_map_iff.
      exists r'. split; [done|]. by apply filter_In in Hr' as [? _]. }
  pose proof (order_by_sorted (fun r => - ir_seq r) (List.filter (pollable b now) t)) as Hs.
  induction Hs as [|r l Hl IH Hr]; constructor.
  - apply IH. by inversion Hnd.
  - inversion Hnd as [|? ? Hn _]; subst. apply List.Forall_forall. intros y Hy.
    rewrite List.Forall_forall in Hr. specialize (Hr y Hy). cbn in Hr.
    assert (ir_seq y <> ir_seq r); [|lia].
    intros E. apply Hn. rewrite <- E. by apply in_map.
Qed.

(** * Properties *)

(** Every table reachable from the empty one through the operations of
    the module is well formed: sequence numbers are positive, even and
    strictly increasing in insertion order, and message ids are unique. *)
Theorem inbox_reachable_wf t :
  rtc step [] t -> wf t.
Proof.
  intros H. apply (rtc_ind_r (R:=step) wf []); [apply wf_nil | | done].
  intros y z _ Hyz Hy. by apply (step_wf y z).
Qed.

Definition demo_msg (id : Z) : WriteInbound :=
  mkWriteInbound id Chat 0 JNull true false None None None None None None None None None.

(** Three inserts and a completion, evaluated. *)
Lemma inbox_reachable_wf_witness :
  exists t, rtc step [] t /\ wf t /\ map ir_seq t = [2; 4].
Proof.
  exists (map (fun r => if has_id 7 r then set_mi_status "completed" r else r)
            [pending_row (demo_msg 7) 2; pending_row (demo_msg 8) 4]).
  assert (rtc step [] (map (fun r => if has_id 7 r then set_mi_status "completed" r else r)
            [pending_row (demo_msg 7) 2; pending_row (demo_msg 8) 4])) as H.
  { eapply rtc_l; [apply (step_insert [] (demo_msg 7) 2 [pending_row (demo_msg 7) 2]); reflexivity|].
    eapply rtc_l; [apply (step_insert _ (demo_msg 8) 4
       [pending_row (demo_msg 7) 2; pending_row (demo_msg 8) 4]); reflexivity|].
    apply rtc_once. eapply (step_completed _ 7). reflexivity. }
  split; [exact H|]. split; [exact (inbox_reachable_wf _ H) | reflexivity].
Defined.

(** A poll with a non-negative limit hands out the newest pollable rows:
    it returns the first [limit] elements of the pollable rows in strictly
    decreasing sequence order, and every pollable row it leaves behind is
    older than every row it returned. *)
Theorem get_pending_newest_first t first_poll limit now :
  wf t -> 0 <= limit ->
  get_pending t first_poll limit now
    = map row_to_message_in (take (Z.to_nat limit) (poll_order first_poll now t))
  /\ StronglySorted (fun a b => mi_seq b < mi_seq a) (get_pending t first_poll limit now)
  /\ (forall r, In r t -> pollable first_poll now r = true ->
        In (row_to_message_in r) (get_pending t first_poll limit now)
        \/ forall m, In m (get_pending t first_poll limit now) -> ir_seq r < mi_seq m)
  /\ (forall m, In m (get_pending t first_poll limit now) ->
        mi_status m = "pending"%string /\ due now (mi_process_after m) = true
        /\ (mi_on_wake m = true -> first_poll = true)).
Proof.
  intros Hwf Hl.
  assert (get_pending t first_poll limit now
    = map row_to_message_in (take (Z.to_nat limit) (poll_order first_poll now t))) as Heq.
  { unfold get_pending. by rewrite sql_limit_take. }
  pose proof (poll_order_strict first_poll now t Hwf) as Hs.
  split; [done|]. split; [|split].
  - rewrite Heq. apply (StronglySorted_map_In _ (fun r r' => ir_seq r' < ir_seq r)); [done|].
    by apply StronglySorted_take.
  - intros r Hr Hp. rewrite Heq.
    assert (In r (poll_order first_poll now t)) as Hin by (apply order_by_In, filter_In; done).
    rewrite <- (take_drop (Z.to_nat limit) (poll_order first_poll now t)) in Hin.
    apply in_app_iff in Hin as [Hin | Hin]; [left; by apply in_map | right].
    intros m Hm. apply in_map_iff in Hm as (r' & <- & Hr').
    apply (StronglySorted_take_drop _ _ _ r' r Hs Hr' Hin).
  - intros m Hm. apply get_pending_In in Hm as (r & _ & -> & Hp).
    unfold pollable, is_pending, is_due in Hp. bool_to_prop.
    split; [done|]. split; [done|]. cbn. intros Hw.
    destruct (mi_on_wake (ir_row r)); destruct first_poll; done.
Qed.

Definition demo_table : in_table :=
  [pending_row (demo_msg 7) 2; set_mi_status "completed" (pending_row (demo_msg 8) 4);
   pending_row (demo_msg 9) 6; pending_row (demo_msg 10) 8].

Lemma demo_table_wf : wf demo_table.
Proof. repeat constructor; cbn; intuition lia. Qed.

Lemma get_pending_newest_first_witness :
  map mi_seq (get_pending demo_table false 2 0) = [8; 6]
  /\ get_pending demo_table false 2 0
     = map row_to_message_in (take 2 (poll_order false 0 demo_table)).
Proof.
  split; [reflexivity|].
  exact (proj1 (get_pending_newest_first demo_table false 2 0 demo_table_wf
                  ltac:(lia))).
Defined.

(** The retried cross-session write is idempotent: whatever the first
    [insert_idempotent] of a message did, repeating it returns sequence
    number 0 and leaves the table as it was, while a plain [insert] of the
    same id is refused. *)
Theorem insert_idempotent_retry t msg seq t' :
  wf t -> insert_idempotent t msg = Ok (seq, t') ->
  insert_idempotent t' msg = Ok (0, t') /\ insert t' msg = Err SqliteConstraint.
Proof.
  intros Hwf H.
  assert (wf t' /\ existsb (has_id (wi_id msg)) t' = true) as [Hwf' Hid].
  { split; [by apply (step_wf t t'); [econstructor 2|]|].
    apply (insert_impl_cases t msg true) in H as [(Hid & H) | (_ & H)]; [| |done]; simplify_eq.
    - done.
    - rewrite existsb_app. cbn. unfold has_id, ir_id. cbn.
      by rewrite Z.eqb_refl, orb_true_r. }
  destruct (insert_impl_cases t' msg true _ Hwf' eq_refl) as [(_ & E) | (E & _)]; [|congruence].
  destruct (insert_impl_cases t' msg false _ Hwf' eq_refl) as [(_ & E') | (E' & _)]; [|congruence].
  by split.
Qed.

Lemma insert_idempotent_retry_witness :
  exists t', insert_idempotent demo_table (demo_msg 11) = Ok (10, t')
    /\ insert_idempotent t' (demo_msg 11) = Ok (0, t')
    /\ insert t' (demo_msg 11) = Err SqliteConstraint.
Proof.
  eexists. split; [reflexivity|].
  apply (insert_idempotent_retry demo_table (demo_msg 11) 10); [apply demo_table_wf | reflexivity].
Defined.
