(* ===== verification/Outbox.v ===== *)
(** The per-session tables around delivery:
    - [messages_out] of [outbound.db] ([tables/messages_out.rs]): the
      container appends rows with odd sequence numbers, the host mirrors its
      retry state onto the row;
    - [delivered] of [inbound.db] ([tables/delivered.rs]): the first record
      of a row wins;
    - [processing_ack] of [outbound.db] ([tables/processing_ack.rs]);
    - [container_state] ([tables/container_state.rs]) and [session_routing]
      ([tables/session_routing.rs]), tables of at most one row;
    - the central dead letters ([tables/outbound_dropped_messages.rs]). *)
From S2P Require Import Prelude Types MessagesIn.

(** ** [messages_out] *)

Record WriteOutbound : Type := mkWriteOutbound {
  wo_id : uuid;
  wo_in_reply_to : option uuid;
  wo_timestamp : instant;
  wo_deliver_after : option instant;
  wo_recurrence : option string;
  wo_kind : MessageKind;
  wo_platform_id : option string;
  wo_channel_type : option string;
  wo_thread_id : option string;
  wo_content : json;
}.

(** A stored row: the columns of [MessageOutRow] and the retry columns of
    migration 029. *)
Record out_row : Type := mkOutRow {
  or_row : MessageOutRow;
  or_tries : Z;
  or_not_before : option instant;
}.
Abbreviation out_table := (list out_row) (only parsing).

Definition or_id (r : out_row) : uuid := mo_id (or_row r).
Definition or_seq (r : out_row) : Z := mo_seq (or_row r).
Definition out_has_id (id : uuid) (r : out_row) : bool := or_id r =? id.

Definition next_odd_seq (t : out_table) : Z :=
  let max := sql_max or_seq t in
  let next := default 0 max + 1 in
  if Z.rem next 2 =? 0 then next + 1 else next.

Definition out_row_of (msg : WriteOutbound) (seq : Z) : out_row :=
  {| or_row :=
       {| mo_id := wo_id msg; mo_seq := seq; mo_in_reply_to := wo_in_reply_to msg;
          mo_timestamp := wo_timestamp msg; mo_deliver_after := wo_deliver_after msg;
          mo_recurrence := wo_recurrence msg; mo_kind := wo_kind msg;
          mo_platform_id := wo_platform_id msg;
          mo_channel_type := wo_channel_type msg;
          mo_thread_id := wo_thread_id msg; mo_content := wo_content msg |};
     or_tries := 0; or_not_before := None |}.

(** [PRIMARY KEY (id)] and [UNIQUE (seq)]. *)
Definition out_insert (t : out_table) (msg : WriteOutbound)
  : result DbError (Z * out_table) :=
  let seq := next_odd_seq t in
  if existsb (fun r => out_has_id (wo_id msg) r || (or_seq r =? seq)) t
  then Err SqliteConstraint
  else Ok (seq, t ++ [out_row_of msg seq]).

Definition list_due (t : out_table) (now : instant) : list MessageOutRow :=
  map or_row
    (order_by or_seq (List.filter (fun r => due now (mo_deliver_after (or_row r))) t)).

Record PersistedRetryState : Type := mkPersisted {
  pr_id : uuid;
  pr_tries : Z;
  pr_not_before : option instant;
}.

Definition set_retry_state (t : out_table) (id : uuid) (tries : Z) (not_before : option instant)
  : out_table :=
  fst (sql_update (out_has_id id)
         (fun r => {| or_row := or_row r; or_tries := tries; or_not_before := not_before |}) t).

(** [u32::try_from(tries).unwrap_or(0)] on reading. *)
Definition persisted (r : out_row) : PersistedRetryState :=
  {| pr_id := or_id r;
     pr_tries := if (0 <=? or_tries r) && (or_tries r <=? u32_max) then or_tries r else 0;
     pr_not_before := or_not_before r |}.
Definition has_retry_state (r : out_row) : bool :=
  (0 <? or_tries r) || match or_not_before r with Some _ => true | None => false end.
Definition list_retry_state (t : out_table) : list PersistedRetryState :=
  map persisted (List.filter has_retry_state t).

Definition out_get (t : out_table) (id : uuid) : result DbError MessageOutRow :=
  match sql_get (out_has_id id) t with
  | Some r => Ok (or_row r)
  | None => Err NotFound
  end.

(** ** [delivered] *)

Record Delivered : Type := mkDelivered {
  d_message_out_id : uuid;
  d_platform_message_id : option string;
  d_status : string;
  d_delivered_at : instant;
}.
Abbreviation delivered_table := (list Delivered) (only parsing).

Definition delivered_has (id : uuid) (d : Delivered) : bool := d_message_out_id d =? id.

(** [ON CONFLICT(message_out_id) DO NOTHING]. *)
Definition delivered_insert (t : delivered_table) (id : uuid) (pid : option string)
    (status : string) (now : instant) : bool * delivered_table :=
  if existsb (delivered_has id) t then (false, t)
  else (true, t ++ [{| d_message_out_id := id; d_platform_message_id := pid;
                       d_status := status; d_delivered_at := now |}]).

Definition get_delivered_ids (t : delivered_table) : list uuid := map d_message_out_id t.
Definition delivered_list (t : delivered_table) : list Delivered := order_by d_delivered_at t.

(** ** [processing_ack] *)

Inductive ProcessingStatus : Type := Processing | Done | Failed.
#[export] Instance ProcessingStatus_eq_dec : EqDecision ProcessingStatus.
Proof. solve_decision. Defined.

Definition ProcessingStatus_as_str (s : ProcessingStatus) : string :=
  match s with Processing => "processing" | Done => "done" | Failed => "failed" end%string.
Definition ProcessingStatus_parse (s : string) : option ProcessingStatus :=
  if String.eqb s "processing" then Some Processing
  else if String.eqb s "done" then Some Done
  else if String.eqb s "failed" then Some Failed
  else None.

Record ProcessingClaim : Type := mkClaim {
  pc_message_id : uuid;
  pc_status : ProcessingStatus;
  pc_status_changed : instant;
}.
Abbreviation ack_table := (list ProcessingClaim) (only parsing).

Definition claim_of (id : uuid) (c : ProcessingClaim) : bool := pc_message_id c =? id.

Definition ack_insert (t : ack_table) (id : uuid) (status : ProcessingStatus) (now : instant)
  : result DbError ack_table :=
  if existsb (claim_of id) t then Err SqliteConstraint
  else Ok (t ++ [mkClaim id status now]).

Definition ack_update_status (t : ack_table) (id : uuid) (status : ProcessingStatus) (now : instant)
  : result DbError ack_table :=
  let '(t', n) := sql_update (claim_of id) (fun c => mkClaim (pc_message_id c) status now) t in
  if (n =? 0)%nat then Err NotFound else Ok t'.

Definition ack_get_all (t : ack_table) : list ProcessingClaim := order_by pc_status_changed t.
Definition ack_get (t : ack_table) (id : uuid) : option ProcessingClaim := sql_get (claim_of id) t.

Definition ack_delete (t : ack_table) (id : uuid) : result DbError ack_table :=
  let '(t', n) := sql_delete (claim_of id) t in
  if (n =? 0)%nat then Err NotFound else Ok t'.

(** ** [container_state] and [session_routing]: at most one row *)

Record ContainerState : Type := mkContainerState {
  cs_current_tool : option string;
  cs_tool_declared_timeout_ms : option Z;
  cs_tool_started_at : option instant;
  cs_updated_at : option instant;
}.

Definition row_to_state (s : ContainerState) : ContainerState :=
  {| cs_current_tool := match cs_current_tool s with Some EmptyString => None | o => o end;
     cs_tool_declared_timeout_ms := cs_tool_declared_timeout_ms s;
     cs_tool_started_at := cs_tool_started_at s;
     cs_updated_at := cs_updated_at s |}.
Definition state_get (t : option ContainerState) : option ContainerState := option_map row_to_state t.
Definition state_set (t : option ContainerState) (s : ContainerState) : option ContainerState := Some s.
Definition clear_tool (t : option ContainerState) (now : instant) : option ContainerState :=
  Some {| cs_current_tool := None; cs_tool_declared_timeout_ms := None;
          cs_tool_started_at := None; cs_updated_at := Some now |}.

Definition routing_read (t : option SessionRouting) : option SessionRouting := t.
Definition routing_write (t : option SessionRouting) (r : SessionRouting) : option SessionRouting := Some r.

(** ** Central dead letters *)

Record InsertOutboundDropped : Type := mkInsertDropped {
  od_session_id : uuid;
  od_agent_group_id : uuid;
  od_message_out_id : uuid;
  od_channel_type : option string;
  od_platform_id : option string;
  od_thread_id : option string;
  od_kind : MessageKind;
  od_content : json;
  od_last_error : string;
}.
Record OutboundDroppedMessage : Type := mkDropped {
  dm_id : uuid;
  dm_req : InsertOutboundDropped;
  dm_dropped_at : instant;
}.
Abbreviation dropped_table := (list OutboundDroppedMessage) (only parsing).

Definition dropped_insert (t : dropped_table) (id : uuid) (now : instant)
    (req : InsertOutboundDropped) : result DbError dropped_table :=
  if existsb (fun d => dm_id d =? id) t then Err SqliteConstraint
  else Ok (t ++ [mkDropped id req now]).

(** [row_to_record] reads back only six kinds; any other kind in the table
    is a conversion error, which fails the whole query. *)
Definition replayable_kind (k : MessageKind) : bool :=
  match k with
  | Chat | Task | Webhook | System | Agent | Card => true
  | _ => false
  end.
Definition row_to_record (d : OutboundDroppedMessage) : result DbError OutboundDroppedMessage :=
  if replayable_kind (od_kind (dm_req d)) then Ok d
  else Err (Invariant "unknown message kind").

Fixpoint collect_rows (l : list OutboundDroppedMessage)
  : result DbError (list OutboundDroppedMessage) :=
  match l with
  | [] => Ok []
  | d :: l' => let? r := row_to_record d in
               let? rs := collect_rows l' in Ok (r :: rs)
  end.

Definition dropped_get (t : dropped_table) (id : uuid) : result DbError OutboundDroppedMessage :=
  match sql_get (fun d => dm_id d =? id) t with
  | Some d => row_to_record d
  | None => Err NotFound
  end.

Definition dropped_list (t : dropped_table) (since : option instant) (limit : option Z)
  : result DbError (list OutboundDroppedMessage) :=
  let limit_val := default i64_max limit in
  let rows := match since with
              | Some ts => List.filter (fun d => ts <=? dm_dropped_at d) t
              | None => t
              end in
  let ordered := order_by (fun d => - dm_dropped_at d) rows in
  collect_rows (sql_limit limit_val ordered).

Definition dropped_delete (t : dropped_table) (id : uuid) : bool * dropped_table :=
  let '(t', n) := sql_delete (fun d => dm_id d =? id) t in
  (negb (n =? 0)%nat, t').

(** ** Invariant and histories *)

Definition out_wf (t : out_table) : Prop := numbered or_id or_seq false t.

(** The writes of both sides to [messages_out]: the container appends, the
    host mirrors its retry state. *)
Inductive out_step : out_table -> out_table -> Prop :=
| out_step_insert t msg seq t' : out_insert t msg = Ok (seq, t') -> out_step t t'
| out_step_retry t id tries nb : out_step t (set_retry_state t id tries nb).

(** The table of delivery records after a history of record attempts. *)
Definition record_all (attempts : list Delivered) (t : delivered_table) : delivered_table :=
  fold_left (fun t d => snd (delivered_insert t (d_message_out_id d) (d_platform_message_id d)
                               (d_status d) (d_delivered_at d))) attempts t.

(** * Lemmas *)

Lemma next_odd_seq_spec t :
  out_wf t ->
  0 < next_odd_seq t /\ Z.even (next_odd_seq t) = false
  /\ Forall (fun r => or_seq r < next_odd_seq t) t.
Proof.
  intros Hwf. destruct (sql_next_spec or_seq t (numbered_pos _ _ _ t Hwf)) as [Hp Hlt].
  unfold next_odd_seq. cbn zeta. rewrite rem2_even by done.
  pose proof (next_parity _ false Hp) as [Hle He]. cbn zeta in *.
  destruct (Z.even _) eqn:E; cbn in *; repeat split; try done; [lia|].
  eapply Forall_impl; [exact Hlt | cbn; lia].
Qed.

Lemma out_insert_cases t msg r :
  out_wf t -> out_insert t msg = r ->
  (existsb (out_has_id (wo_id msg)) t = true /\ r = Err SqliteConstraint)
  \/ (existsb (out_has_id (wo_id msg)) t = false
      /\ r = Ok (next_odd_seq t, t ++ [out_row_of msg (next_odd_seq t)])).
Proof.
  intros Hwf <-. unfold out_insert. rewrite fresh_seq_free by apply (next_odd_seq_spec t Hwf).
  destruct (existsb _ t); [left | right]; done.
Qed.

Lemma out_insert_wf t msg seq t' : out_wf t -> out_insert t msg = Ok (seq, t') -> out_wf t'.
Proof.
  intros Hwf H. apply out_insert_cases in H as [(_ & H) | (Hid & H)]; [done | | done].
  simplify_eq. destruct (next_odd_seq_spec t Hwf) as (Hp & He & Hlt). by apply numbered_snoc.
Qed.

Lemma set_retry_state_wf t id n nb : out_wf t -> out_wf (set_retry_state t id n nb).
Proof. by apply numbered_update. Qed.

Lemma out_step_wf t t' : out_step t t' -> out_wf t -> out_wf t'.
Proof.
  intros [? ? ? ? H | ? ? ? ?] Hwf; [by eapply out_insert_wf | by apply set_retry_state_wf].
Qed.

#[export] Hint Resolve set_retry_state_wf out_insert_wf : tables.

(** The columns other than the retry state never change. *)
Lemma set_retry_state_rows t id n nb : map or_row (set_retry_state t id n nb) = map or_row t.
Proof. unfold set_retry_state. cbn. rewrite map_map. apply map_ext. intros r. by destruct (out_has_id id r). Qed.

(** With unique ids a row finds its own persisted state, if it has one. *)
Lemma list_retry_state_find t r :
  List.NoDup (map or_id t) -> In r t ->
  find (fun st => pr_id st =? or_id r) (list_retry_state t)
  = if has_retry_state r then Some (persisted r) else None.
Proof.
  unfold list_retry_state. induction t as [|r0 t IH]; cbn; [done|].
  intros Hnd Hr. inversion Hnd as [|? ? Hn Hnd']; subst.
  destruct Hr as [-> | Hr].
  - destruct (has_retry_state r) eqn:E; cbn; [by rewrite Z.eqb_refl|].
    destruct (find _ _) as [st|] eqn:Ef; [|done]. apply find_some in Ef as [Hin Heq].
    apply in_map_iff in Hin as (r1 & <- & Hin). apply filter_In in Hin as [Hin _].
    apply Z.eqb_eq in Heq. cbn in Heq. exfalso. apply Hn. rewrite <- Heq. by apply in_map.
  - assert (or_id r0 <> or_id r) as Hd by (intros E; apply Hn; rewrite E; by apply in_map).
    destruct (has_retry_state r0); cbn; [|by apply IH].
    destruct (Z.eqb_spec (or_id r0) (or_id r)); [done | by apply IH].
Qed.

Lemma list_retry_state_known t id st :
  find (fun st => pr_id st =? id) (list_retry_state t) = Some st ->
  In id (map or_id t) /\ 0 <= pr_tries st.
Proof.
  intros Hf. apply find_some in Hf as [Hin Heq]. apply Z.eqb_eq in Heq. subst id.
  apply in_map_iff in Hin as (r & <- & Hin). apply filter_In in Hin as [Hin _].
  split; [by apply (in_map or_id)|]. cbn. destruct (_ && _) eqn:E; bool_to_prop; lia.
Qed.

Lemma list_due_In t now m : In m (list_due t now) -> In (mo_id m) (map or_id t).
Proof.
  unfold list_due. intros Hm. apply in_map_iff in Hm as (r & <- & Hr).
  apply order_by_In, filter_In in Hr as [Hr _]. by apply (in_map or_id).
Qed.

Lemma delivered_ids_existsb t id :
  existsb (Z.eqb id) (get_delivered_ids t) = existsb (delivered_has id) t.
Proof.
  unfold get_delivered_ids. induction t as [|d t IH]; cbn; [done|].
  rewrite IH. unfold delivered_has at 2. by rewrite Z.eqb_sym.
Qed.

Lemma delivered_insert_has t id pid st now :
  existsb (delivered_has id) (snd (delivered_insert t id pid st now)) = true.
Proof.
  unfold delivered_insert. destruct (existsb (delivered_has id) t) eqn:E; cbn; [done|].
  rewrite existsb_app. unfold delivered_has at 2. cbn. by rewrite Z.eqb_refl, orb_true_r.
Qed.

(** Recording leaves the record of every id that has one, and adds the new
    one otherwise. *)
Lemma delivered_insert_find t d id :
  find (delivered_has id) (snd (delivered_insert t (d_message_out_id d) (d_platform_message_id d)
                                  (d_status d) (d_delivered_at d)))
  = match find (delivered_has id) t with
    | Some x => Some x
    | None => if delivered_has id d then Some d else None
    end.
Proof.
  unfold delivered_insert. rewrite existsb_find.
  destruct (find (delivered_has (d_message_out_id d)) t) as [x|] eqn:E; cbn.
  - destruct (find (delivered_has id) t) eqn:E'; [done|].
    unfold delivered_has. destruct (Z.eqb_spec (d_message_out_id d) id); [|done]. subst. congruence.
  - rewrite find_app. destruct (find (delivered_has id) t); [done|]. cbn.
    unfold delivered_has. cbn. by destruct d.
Qed.

Lemma delivered_insert_NoDup t id pid st now :
  List.NoDup (get_delivered_ids t) ->
  List.NoDup (get_delivered_ids (snd (delivered_insert t id pid st now))).
Proof.
  unfold delivered_insert. destruct (existsb (delivered_has id) t) eqn:E; cbn; [done|].
  intros H. unfold get_delivered_ids. rewrite map_app. cbn.
  apply (Permutation_NoDup (l := id :: map d_message_out_id t)).
  - apply Permutation_cons_append.
  - constructor; [|done]. intros Hin. apply in_map_iff in Hin as (d & E' & Hd).
    apply not_true_iff_false in E. apply E, existsb_exists. exists d. split; [done|].
    by apply Z.eqb_eq.
Qed.
#[export] Hint Resolve delivered_insert_NoDup delivered_insert_has : tables.

(** * Properties *)

(** Every outbox reachable through the container's inserts and the
    host's retry write-through has positive, odd, strictly increasing
    sequence numbers and unique ids, so no outbox row shares its number with
    a row of any well-formed inbox. *)
Theorem outbox_reachable_wf t :
  rtc out_step [] t ->
  out_wf t
  /\ forall inbox a b, MessagesIn.wf inbox -> In a inbox -> In b t ->
       MessagesIn.ir_seq a <> or_seq b.
Proof.
  intros H.
  assert (out_wf t) as Hwf.
  { apply (rtc_ind_r (R:=out_step) out_wf []); [apply numbered_nil | | done].
    intros y z _ Hyz Hy. by apply (out_step_wf y z). }
  split; [done|]. intros inbox a b [Ha _ _] Hina Hinb E. destruct Hwf as [Hb _ _].
  rewrite List.Forall_forall in Ha, Hb.
  destruct (Ha a Hina) as [_ Hea], (Hb b Hinb) as [_ Heb]. congruence.
Qed.

Definition demo_out (id : Z) : WriteOutbound :=
  mkWriteOutbound id None 0 None None Chat None None None JNull.

Lemma outbox_reachable_wf_witness :
  exists t, rtc out_step [] t /\ map or_seq t = [1; 3] /\ out_wf t.
Proof.
  exists (set_retry_state [out_row_of (demo_out 7) 1; out_row_of (demo_out 8) 3] 8 1 (Some 5000)).
  assert (rtc out_step []
    (set_retry_state [out_row_of (demo_out 7) 1; out_row_of (demo_out 8) 3] 8 1 (Some 5000))) as H.
  { eapply rtc_l; [apply (out_step_insert [] (demo_out 7) 1 [out_row_of (demo_out 7) 1]); reflexivity|].
    eapply rtc_l; [apply (out_step_insert _ (demo_out 8) 3
       [out_row_of (demo_out 7) 1; out_row_of (demo_out 8) 3]); reflexivity|].
    apply rtc_once. constructor. }
  split; [exact H|]. split; [reflexivity|]. exact (proj1 (outbox_reachable_wf _ H)).
Defined.

(** The first delivery record of a row is final: after any history of
    record attempts starting from the empty table, the record of an id is
    the first attempt for it, in particular a row recorded twice by two
    overlapping passes keeps its first outcome, and no id is recorded
    twice. *)
Theorem delivered_first_wins attempts id :
  find (delivered_has id) (record_all attempts []) = find (delivered_has id) attempts
  /\ List.NoDup (get_delivered_ids (record_all attempts [])).
Proof.
  assert (forall t, List.NoDup (get_delivered_ids t) ->
    find (delivered_has id) (record_all attempts t)
      = match find (delivered_has id) t with
        | Some x => Some x | None => find (delivered_has id) attempts end
    /\ List.NoDup (get_delivered_ids (record_all attempts t))) as H.
  { induction attempts as [|d ds IH]; intros t Ht; cbn.
    - split; [by destruct (find _ t) | done].
    - destruct (IH _ (delivered_insert_NoDup t (d_message_out_id d) (d_platform_message_id d)
                        (d_status d) (d_delivered_at d) Ht)) as [E Hnd].
      split; [|done]. unfold record_all in E. rewrite E, delivered_insert_find.
      destruct (find (delivered_has id) t); [done|].
      by destruct (delivered_has id d). }
  apply (H []). constructor.
Qed.
