(* ===== verification/Split.v ===== *)
(** Fence-aware splitting of long chat text
    ([copperclaw-channels/core/src/markdown/fence.rs] and [split.rs]).
    Text is the list of its chars and indices are integers, as in the code.
    The two [while] loops take fuel and return [None] when it runs out; both
    are shown to finish with the fuel their callers give. *)
From S2P Require Import Prelude.

(** ** Indexing a char vector *)

Definition char_at (chars : rstr) (i : Z) : rchar := nth (Z.to_nat i) chars 0.
Definition zlen {A} (l : list A) : Z := Z.of_nat (length l).

(** [chars[a..b]]. *)
Definition slice (chars : rstr) (a b : Z) : rstr :=
  take (Z.to_nat (b - a)) (drop (Z.to_nat a) chars).

Fixpoint position (p : rchar -> bool) (l : rstr) : option Z :=
  match l with
  | [] => None
  | c :: l' => if p c then Some 0 else option_map (Z.add 1) (position p l')
  end.

(** Length of the leading run of chars satisfying [p], at most [n] long. *)
Fixpoint run_length (p : rchar -> bool) (n : nat) (l : rstr) : Z :=
  match n, l with
  | S n', c :: l' => if p c then 1 + run_length p n' l' else 0
  | _, _ => 0
  end.

(** The greatest [i] with [lo < i <= lo + n] and [p i]. *)
Fixpoint scan_down (p : Z -> bool) (lo : Z) (n : nat) : option Z :=
  match n with
  | O => None
  | S n' => let i := lo + Z.of_nat n in if p i then Some i else scan_down p lo n'
  end.

(** ** The fence scanner *)

Definition backtick : rchar := 96.
Definition space : rchar := 32.

Inductive FenceKind : Type :=
| Backtick (opener : rstr)
| Pre (opener : rstr).

Definition closer (k : FenceKind) : rstr :=
  match k with
  | Backtick _ => newline :: lit "```"
  | Pre _ => lit "</pre>"
  end.
Definition reopen (k : FenceKind) : rstr :=
  match k with
  | Backtick opener => opener ++ [newline]
  | Pre opener => opener
  end.

Record FenceSpan : Type := mkSpan {
  fs_start : Z;
  fs_end : Z;
  fs_kind : FenceKind;
  fs_closed : bool;
}.

Definition line_end (chars : rstr) (i : Z) : Z :=
  match position (fun c => c =? newline) (drop (Z.to_nat i) chars) with
  | None => zlen chars
  | Some p => i + p
  end.

Definition backtick_run (chars : rstr) (ls le : Z) : option Z :=
  let run_start := ls + run_length (fun c => c =? space) 3 (slice chars ls le) in
  let i := run_start + run_length (fun c => c =? backtick) (length chars) (slice chars run_start le) in
  if 3 <=? i - run_start then Some i else None.

Definition is_backtick_close (chars : rstr) (ls le : Z) : bool :=
  match backtick_run chars ls le with
  | Some after => forallb is_whitespace (slice chars after le)
  | None => false
  end.

Definition matches_ci (chars : rstr) (i : Z) (pat : rstr) : bool :=
  if zlen chars <? i + zlen pat then false
  else forallb (fun '(a, b) => eq_ignore_ascii_case a b)
         (combine (slice chars i (i + zlen pat)) pat).

(** The index of the first [>] at or after [j] on the current line. *)
Fixpoint tag_end (rest : rstr) (j : Z) : option Z :=
  match rest with
  | [] => None
  | c :: rest' =>
      if c =? newline then None else if c =? 62 then Some j else tag_end rest' (j + 1)
  end.

Definition pre_open_end (chars : rstr) (i : Z) : option Z :=
  if negb (matches_ci chars i (lit "<pre")) then None
  else
    let after := i + 4 in
    match nth_error chars (Z.to_nat after) with
    | Some c =>
        if c =? 62 then Some after
        else if is_whitespace c && negb (c =? newline)
        then tag_end (drop (Z.to_nat (after + 1)) chars) (after + 1)
        else None
    | None => None
    end.

Fixpoint scan_loop (fuel : nat) (chars : rstr) (i : Z) (open : option (Z * FenceKind))
    (spans : list FenceSpan) : option (list FenceSpan) :=
  match fuel with
  | O => None
  | S f =>
      if negb (i <? zlen chars) then
        Some (match open with
              | Some (start, kind) => spans ++ [mkSpan start (zlen chars) kind false]
              | None => spans
              end)
      else
        match open with
        | None =>
            let at_line_start := (i =? 0) || (char_at chars (i - 1) =? newline) in
            let le := line_end chars i in
            if at_line_start && match backtick_run chars i le with Some _ => true | None => false end
            then scan_loop f chars (le + 1)
                   (Some (i, Backtick (trim_end (slice chars i le)))) spans
            else match pre_open_end chars i with
                 | Some gt => scan_loop f chars (gt + 1)
                                (Some (i, Pre (slice chars i (gt + 1)))) spans
                 | None => scan_loop f chars (i + 1) None spans
                 end
        | Some (start, Backtick o) =>
            let le := line_end chars i in
            if is_backtick_close chars i le
            then scan_loop f chars (le + 1) None (spans ++ [mkSpan start le (Backtick o) true])
            else scan_loop f chars (le + 1) (Some (start, Backtick o)) spans
        | Some (start, Pre o) =>
            if matches_ci chars i (lit "</pre>")
            then scan_loop f chars (i + 6) None (spans ++ [mkSpan start (i + 6) (Pre o) true])
            else scan_loop f chars (i + 1) (Some (start, Pre o)) spans
        end
  end.

Definition scan_fence_spans (chars : rstr) : list FenceSpan :=
  default [] (scan_loop (S (length chars)) chars 0 None []).

Definition is_balanced (text : rstr) : bool := forallb fs_closed (scan_fence_spans text).

(** ** The splitter *)

Definition full_stop_cjk (c : rchar) : bool := (c =? 12290) || (c =? 65281) || (c =? 65311).
Definition ender (c : rchar) : bool := (c =? 46) || (c =? 33) || (c =? 63).

Definition find_cut (chars : rstr) (lo hi : Z) : Z :=
  let paragraph i := (char_at chars (i - 1) =? newline) && (char_at chars i =? newline) in
  let sentence i :=
    full_stop_cjk (char_at chars i)
    || ((i + 1 <? zlen chars) && ender (char_at chars i) && (char_at chars (i + 1) =? space)) in
  let blank i := (char_at chars i =? space) || (char_at chars i =? newline) in
  let top := sat_sub hi 1 in
  match scan_down paragraph (lo + 1) (Z.to_nat (top - (lo + 1))) with
  | Some i => i + 1
  | None =>
      match scan_down sentence lo (Z.to_nat (top - lo)) with
      | Some i => i + 1
      | None =>
          match scan_down blank lo (Z.to_nat (top - lo)) with
          | Some i => i
          | None => hi
          end
      end
  end.

(** Whitespace skipped at a cut: blanks, line feeds and tabs. *)
Definition cut_space (c : rchar) : bool := (c =? space) || (c =? newline) || (c =? 9).

(** What one turn of the loop decides for a chunk that does not reach the
    end: an ordinary cut, or closing the fence the chunk is inside of. *)
Inductive cut_decision : Type :=
| CutAt (cut : Z)
| CloseFence (body_end next_start : Z) (kind : FenceKind).

Definition decide_cut (chars : rstr) (spans : list FenceSpan) (start budget : Z) : cut_decision :=
  let window_end := start + budget in
  let cut := find_cut chars start window_end in
  match find (fun s => (fs_start s <? cut) && (cut <? fs_end s)) spans with
  | None => CutAt cut
  | Some span =>
      if fs_end span <=? window_end then CutAt (fs_end span)
      else if start <? fs_start span then CutAt (fs_start span)
      else
        let closer_len := zlen (closer (fs_kind span)) in
        if closer_len <? budget then
          let content_end := start + (budget - closer_len) in
          match scan_down (fun j => char_at chars j =? newline) start
                  (Z.to_nat (content_end - start)) with
          | Some j => CloseFence j (j + 1) (fs_kind span)
          | None => CloseFence content_end content_end (fs_kind span)
          end
        else CutAt cut
  end.

Fixpoint split_loop (fuel : nat) (chars : rstr) (spans : list FenceSpan) (max : Z)
    (start : Z) (re : option rstr) (out : list rstr) : option (list rstr) :=
  match fuel with
  | O => None
  | S f =>
      if negb (start <? zlen chars) then Some out
      else
        let prefix := default [] re in
        let budget := sat_sub max (zlen prefix) in
        if budget =? 0 then split_loop f chars spans max start None (out ++ [prefix])
        else
          let remaining := zlen chars - start in
          if remaining <=? budget then Some (out ++ [prefix ++ drop (Z.to_nat start) chars])
          else
            match decide_cut chars spans start budget with
            | CloseFence body_end next_start kind =>
                split_loop f chars spans max next_start (Some (reopen kind))
                  (out ++ [prefix ++ slice chars start body_end ++ closer kind])
            | CutAt cut =>
                let chunk := trim_end (slice chars start cut) in
                let rest := drop (Z.to_nat cut) chars in
                let start' := cut + (zlen rest - zlen (trim_start_by cut_space rest)) in
                split_loop f chars spans max start' None (out ++ [prefix ++ chunk])
            end
  end.

Definition is_nil (s : rstr) : bool := match s with [] => true | _ => false end.

(** Two turns per char are enough when [max] is positive. *)
Definition split_fuel (chars : rstr) : nat := 2 * length chars + 2.

Definition split_raw (chars : rstr) (max : Z) : option (list rstr) :=
  split_loop (split_fuel chars) chars (scan_fence_spans chars) max 0 None [].

Definition split_into_chunks (text : rstr) (max : Z) : list rstr :=
  let out := List.filter (fun s => negb (is_nil s)) (default [] (split_raw text max)) in
  match out with
  | [] => [[]]
  | _ => out
  end.

Definition BYTE_SPLIT_DEPTH : nat := 8.

Fixpoint enforce_byte_cap (depth : nat) (chunk : rstr) (cap_chars max_bytes : Z) : list rstr :=
  match depth with
  | O => [chunk]
  | S d =>
      if (byte_len chunk <=? max_bytes) || (cap_chars <=? 1) then [chunk]
      else
        let est := Z.max (sat_mul u64_max (zlen chunk) max_bytes / byte_len chunk) 1 in
        let next := Z.max (Z.min est (cap_chars - 1)) 1 in
        let pieces := split_into_chunks chunk next in
        if (length pieces <=? 1)%nat then pieces
        else flat_map (fun p => enforce_byte_cap d p next max_bytes) pieces
  end.

Definition split_into_chunks_within_bytes (text : rstr) (max_chars : Z) (max_bytes : option Z)
  : list rstr :=
  let chunks := split_into_chunks text max_chars in
  match max_bytes with
  | Some b => if 0 <? b
              then flat_map (fun c => enforce_byte_cap BYTE_SPLIT_DEPTH c max_chars b) chunks
              else chunks
  | None => chunks
  end.

Definition RENDER_HEADROOM_PERCENT : Z := 90.
Definition effective_max (max : option Z) : option Z :=
  option_map (fun m =>
    let scaled := (m / 100) * RENDER_HEADROOM_PERCENT
                  + (m mod 100) * RENDER_HEADROOM_PERCENT / 100 in
    Z.max scaled 1) max.

(** The part of a text the splitter never touches. *)
Definition solid (s : rstr) : rstr := List.filter (fun c => negb (is_whitespace c)) s.

(** ** Specification vocabulary *)

(** What the splitter may add around a piece of the text: the reopening line
    before it, the closing marker after it. *)
Definition added_before (spans : list FenceSpan) (a : rstr) : Prop :=
  a = [] \/ exists s, In s spans /\ a = reopen (fs_kind s).
Definition added_after (spans : list FenceSpan) (c : rstr) : Prop :=
  c = [] \/ exists s, In s spans /\ c = closer (fs_kind s).

(** A chunk as (added before, text, added after). *)
Abbreviation part := (rstr * rstr * rstr)%type (only parsing).
Definition glue (p : part) : rstr := p.1.1 ++ p.1.2 ++ p.2.
Definition part_ok (spans : list FenceSpan) (p : part) : Prop :=
  added_before spans p.1.1 /\ added_after spans p.2.

(** A chunk within the cap, or a reopening line that alone reaches it. *)
Definition chunk_fits (spans : list FenceSpan) (max : Z) (c : rstr) : Prop :=
  zlen c <= max \/ exists s, In s spans /\ c = reopen (fs_kind s) /\ max <= zlen c.

(** * Lemmas *)

Lemma zlen_app {A} (a b : list A) : zlen (a ++ b) = zlen a + zlen b.
Proof. unfold zlen. rewrite length_app. lia. Qed.
Lemma zlen_nonneg {A} (a : list A) : 0 <= zlen a.
Proof. unfold zlen. lia. Qed.

Lemma zlen_slice chars a b : a <= b -> zlen (slice chars a b) <= b - a.
Proof. intros H. unfold zlen, slice. rewrite length_take. lia. Qed.

Lemma scan_down_Some p lo n i :
  scan_down p lo n = Some i -> lo < i <= lo + Z.of_nat n /\ p i = true.
Proof.
  induction n as [|n IH]; cbn -[Z.of_nat]; [done|].
  destruct (p (lo + Z.of_nat (S n))) eqn:E.
  - intros [= <-]. split; [lia | done].
  - intros H. destruct (IH H) as [? ?]. split; [lia | done].
Qed.

Lemma find_cut_bounds chars lo hi :
  0 <= lo < hi -> lo < find_cut chars lo hi <= hi.
Proof.
  intros H. unfold find_cut, sat_sub.
  repeat case_goal; try lia;
    match goal with E : scan_down _ _ _ = Some _ |- _ => apply scan_down_Some in E; lia end.
Qed.

(** A cut makes progress and stays in the window; closing a fence leaves
    room for the marker, and skips at most the line feed it cuts at. *)
Lemma decide_cut_spec chars spans start budget :
  0 <= start -> 0 < budget ->
  match decide_cut chars spans start budget with
  | CutAt cut => start < cut <= start + budget
  | CloseFence b n k =>
      start < b /\ b - start + zlen (closer k) <= budget
      /\ (n = b \/ (n = b + 1 /\ char_at chars b = newline))
      /\ exists s, In s spans /\ fs_kind s = k
  end.
Proof.
  intros Hs Hb. unfold decide_cut.
  pose proof (find_cut_bounds chars start (start + budget) ltac:(lia)) as Hc.
  destruct (find _ spans) as [span|] eqn:E; [|done].
  apply find_some in E as [Hin E]. bool_to_prop.
  destruct (Z.leb_spec (fs_end span) (start + budget)); [lia|].
  destruct (Z.ltb_spec start (fs_start span)); [lia|].
  destruct (Z.ltb_spec (zlen (closer (fs_kind span))) budget); [|done].
  pose proof (zlen_nonneg (closer (fs_kind span))).
  destruct (scan_down _ start _) as [j|] eqn:Ej.
  - apply scan_down_Some in Ej as [? Ej]. bool_to_prop.
    split; [lia|]. split; [lia|]. split; [by right|]. eauto.
  - split; [lia|]. split; [lia|]. split; [by left|]. eauto.
Qed.

Lemma trim_start_by_split p l :
  exists w, l = w ++ trim_start_by p l /\ Forall (fun c => p c = true) w.
Proof.
  induction l as [|c l (w & E & Hw)]; cbn; [by exists []|].
  destruct (p c) eqn:Hc; [|by exists []].
  exists (c :: w). cbn. split; [by f_equal | by constructor].
Qed.

Lemma drop_trim p l :
  drop (Z.to_nat (zlen l - zlen (trim_start_by p l))) l = trim_start_by p l
  /\ 0 <= zlen l - zlen (trim_start_by p l).
Proof.
  destruct (trim_start_by_split p l) as (w & E & _).
  set (r := trim_start_by p l) in *. rewrite E, zlen_app. unfold zlen. split; [|lia].
  replace (Z.to_nat _) with (length w) by lia. by rewrite drop_app_length.
Qed.

Lemma solid_app a b : solid (a ++ b) = solid a ++ solid b.
Proof. apply List.filter_app. Qed.

Lemma solid_blank w : Forall (fun c => is_whitespace c = true) w -> solid w = [].
Proof. induction 1 as [|c w Hc Hw IH]; cbn; [done|]. by rewrite Hc. Qed.

Lemma solid_trim_start_by p l :
  (forall c, p c = true -> is_whitespace c = true) -> solid (trim_start_by p l) = solid l.
Proof.
  intros H. destruct (trim_start_by_split p l) as (w & E & Hw).
  rewrite E at 2. rewrite solid_app.
  rewrite (solid_blank w); [reflexivity|]. eapply Forall_impl; [exact Hw | exact H].
Qed.

Lemma solid_rev s : solid (rev s) = rev (solid s).
Proof. apply List.filter_rev. Qed.

Lemma solid_trim_end s : solid (trim_end s) = solid s.
Proof.
  unfold trim_end, trim_start. rewrite solid_rev, solid_trim_start_by by done.
  by rewrite solid_rev, rev_involutive.
Qed.

Lemma cut_space_white c : cut_space c = true -> is_whitespace c = true.
Proof.
  unfold cut_space, is_whitespace, space, newline.
  intros H. repeat (apply orb_prop in H as [H | H]); bool_to_prop; by subst.
Qed.

Lemma drop_slice chars a b :
  0 <= a <= b -> drop (Z.to_nat a) chars = slice chars a b ++ drop (Z.to_nat b) chars.
Proof.
  intros H. unfold slice. rewrite <- (take_drop (Z.to_nat (b - a)) (drop (Z.to_nat a) chars)) at 1.
  f_equal. rewrite drop_drop. f_equal. lia.
Qed.

Lemma drop_newline chars b :
  0 <= b -> char_at chars b = newline ->
  drop (Z.to_nat b) chars = newline :: drop (Z.to_nat (b + 1)) chars.
Proof.
  intros Hb H. unfold char_at in H.
  replace (Z.to_nat (b + 1)) with (S (Z.to_nat b)) by lia.
  revert H. generalize (Z.to_nat b) as n. clear Hb b.
  induction chars as [|c chars IH]; intros [|n]; cbn; try done; [by intros -> | apply IH].
Qed.

(** ** The splitting loop *)

Section Loop.
Context (chars : rstr) (spans : list FenceSpan) (max : Z) (Hmax : 1 <= max).

Definition reopen_ok (re : option rstr) : Prop :=
  match re with None => True | Some p => exists s, In s spans /\ p = reopen (fs_kind s) end.

Definition loop_measure (start : Z) (re : option rstr) : Z :=
  2 * (zlen chars - start) + match re with Some _ => 1 | None => 0 end.

Lemma prefix_added re : reopen_ok re -> added_before spans (default [] re).
Proof. destruct re; cbn; [by right | by left]. Qed.

Lemma prefix_zero (re : option rstr) :
  sat_sub max (zlen (default [] re)) = 0 -> exists p, re = Some p /\ max <= zlen p.
Proof.
  unfold sat_sub. destruct re as [p|]; cbn; [exists p; split; [done | lia] | unfold zlen; cbn; lia].
Qed.

(** The result [r] of the loop from [start]: the chunks of [out] followed by
    chunks that fit and carry exactly the solid text that was left. *)
Definition emitted (start : Z) (out : list rstr) (r : option (list rstr)) : Prop :=
  exists parts,
    r = Some (out ++ map glue parts)
    /\ Forall (chunk_fits spans max) (map glue parts)
    /\ Forall (part_ok spans) parts
    /\ solid (concat (map (fun p => p.1.2) parts)) = solid (drop (Z.to_nat start) chars).

Lemma emitted_done start out : zlen chars <= start -> emitted start out (Some out).
Proof.
  intros H. exists []. rewrite app_nil_r. repeat split; [constructor.. |].
  rewrite drop_ge by (unfold zlen in H; lia). done.
Qed.

Lemma emitted_cons p start start' out r :
  chunk_fits spans max (glue p) -> part_ok spans p ->
  solid p.1.2 ++ solid (drop (Z.to_nat start') chars) = solid (drop (Z.to_nat start) chars) ->
  emitted start' (out ++ [glue p]) r -> emitted start out r.
Proof.
  intros Hf Hp Hs (parts & E & H1 & H2 & H3). exists (p :: parts).
  rewrite E, <- app_assoc. split; [done|]. split; [by constructor|]. split; [by constructor|].
  cbn. by rewrite solid_app, H3.
Qed.

Lemma emitted_bare p start out r :
  reopen_ok (Some p) -> max <= zlen p -> emitted start (out ++ [p]) r -> emitted start out r.
Proof.
  intros (s & Hin & Ep) Hp H. apply (emitted_cons (p, [], []) start start); [| |done |].
  - right. exists s. unfold glue. cbn. by rewrite app_nil_r.
  - split; cbn; [right; by exists s | by left].
  - unfold glue. cbn. by rewrite app_nil_r.
Qed.

Lemma zlen_trim_end s : zlen (trim_end s) <= zlen s.
Proof.
  unfold zlen, trim_end, trim_start. rewrite length_rev.
  destruct (trim_start_by_split is_whitespace (rev s)) as (w & Ew & _).
  apply (f_equal length) in Ew. rewrite length_app, length_rev in Ew. lia.
Qed.

Lemma emitted_tail prefix start out :
  added_before spans prefix -> 0 <= start < zlen chars ->
  zlen prefix + (zlen chars - start) <= max ->
  emitted start out (Some (out ++ [prefix ++ drop (Z.to_nat start) chars])).
Proof.
  intros Hpre Hs Hle.
  apply (emitted_cons (prefix, drop (Z.to_nat start) chars, []) start (zlen chars)).
  - left. unfold glue. cbn. rewrite app_nil_r, zlen_app. unfold zlen at 2.
    rewrite length_drop. unfold zlen in *. lia.
  - split; cbn; [done | by left].
  - rewrite (drop_ge chars (Z.to_nat (zlen chars))) by (unfold zlen; lia). apply app_nil_r.
  - unfold glue. cbn. rewrite app_nil_r. apply emitted_done. lia.
Qed.

Lemma emitted_cut prefix start cut out r :
  let rest := drop (Z.to_nat cut) chars in
  added_before spans prefix -> 0 <= start < cut -> zlen prefix + (cut - start) <= max ->
  emitted (cut + (zlen rest - zlen (trim_start_by cut_space rest)))
    (out ++ [prefix ++ trim_end (slice chars start cut)]) r ->
  emitted start out r.
Proof.
  cbv zeta. intros Hpre Hs Hle H.
  destruct (drop_trim cut_space (drop (Z.to_nat cut) chars)) as [Edrop Hskip].
  eapply (emitted_cons (prefix, trim_end (slice chars start cut), []));
    [| | | by unfold glue; cbn; rewrite app_nil_r; exact H].
  - left. unfold glue. cbn. rewrite app_nil_r, zlen_app.
    pose proof (zlen_trim_end (slice chars start cut)).
    pose proof (zlen_slice chars start cut ltac:(lia)). lia.
  - split; cbn; [done | by left].
  - cbn. rewrite solid_trim_end, Z2Nat.inj_add, <- drop_drop, Edrop by lia.
    rewrite solid_trim_start_by by apply cut_space_white.
    rewrite (drop_slice chars start cut) by lia. by rewrite solid_app.
Qed.

Lemma emitted_close prefix start b n s out r :
  added_before spans prefix -> In s spans -> 0 <= start < b ->
  zlen prefix + (b - start) + zlen (closer (fs_kind s)) <= max ->
  n = b \/ (n = b + 1 /\ char_at chars b = newline) ->
  emitted n (out ++ [prefix ++ slice chars start b ++ closer (fs_kind s)]) r ->
  emitted start out r.
Proof.
  intros Hpre Hin Hs Hle Hn.
  apply (emitted_cons (prefix, slice chars start b, closer (fs_kind s)) start n).
  - left. unfold glue. cbn. rewrite !zlen_app. pose proof (zlen_slice chars start b ltac:(lia)). lia.
  - split; cbn; [done | right; by exists s].
  - cbn. rewrite (drop_slice chars start b), solid_app by lia. f_equal.
    destruct Hn as [-> | [-> Hnl]]; [done|].
    by rewrite (drop_newline chars b) by (done || lia).
Qed.

(** The loop ends within its measure, every chunk it adds fits, and the
    chunks it adds carry exactly the solid text that was left. *)
Lemma split_loop_spec fuel start re out :
  0 <= start -> reopen_ok re -> loop_measure start re < Z.of_nat fuel -> (0 < fuel)%nat ->
  emitted start out (split_loop fuel chars spans max start re out).
Proof.
  revert start re out. induction fuel as [|f IH]; intros start re out Hs Hre Hm Hf; [lia|].
  cbn [split_loop]. cbv zeta. unfold loop_measure in *.
  assert (0 <= match re with Some _ => 1 | None => 0 end) by (by destruct re).
  destruct (Z.ltb_spec start (zlen chars)) as [Hlt | Hge]; cbn [negb]; [|by apply emitted_done].
  destruct (Z.eqb_spec (sat_sub max (zlen (default [] re))) 0) as [H0 | Hb].
  { destruct (prefix_zero re H0) as (p & -> & Hp).
    apply (emitted_bare p); [done | done |]. apply IH; [done | done | lia | lia]. }
  pose proof (prefix_added re Hre) as Hpre.
  set (prefix := default [] re) in *. set (budget := sat_sub max (zlen prefix)) in *.
  assert (0 < budget /\ zlen prefix + budget = max) as [Hb0 Hpb] by (unfold budget, sat_sub in *; lia).
  destruct (Z.leb_spec (zlen chars - start) budget) as [Hle | Hgt]; [apply emitted_tail; [done | lia..]|].
  pose proof (decide_cut_spec chars spans start budget Hs Hb0) as Hd.
  destruct (decide_cut chars spans start budget) as [cut | b n k].
  - apply (emitted_cut prefix start cut); [done | lia | lia |].
    pose proof (proj2 (drop_trim cut_space (drop (Z.to_nat cut) chars))).
    apply IH; [lia | done | lia | lia].
  - destruct Hd as (Hb1 & Hb2 & Hn & s & Hin & <-).
    apply (emitted_close prefix start b n s); [done | done | lia | lia | done |].
    apply IH; [lia | by exists s | lia | lia].
Qed.
End Loop.

Lemma split_raw_spec text max :
  1 <= max ->
  exists parts,
    split_raw text max = Some (map glue parts)
    /\ Forall (chunk_fits (scan_fence_spans text) max) (map glue parts)
    /\ Forall (part_ok (scan_fence_spans text)) parts
    /\ solid (concat (map (fun p => p.1.2) parts)) = solid text.
Proof.
  intros Hmax. unfold split_raw, split_fuel.
  apply (split_loop_spec text (scan_fence_spans text) max Hmax
           (2 * length text + 2) 0 None []); [done | done | | lia].
  unfold loop_measure, zlen. lia.
Qed.

(** The post-processing of [split_into_chunks] keeps every solid char. *)
Lemma solid_nil_part p : is_nil (glue p) = true -> solid p.1.2 = [].
Proof. destruct p as [[[|] [|]] c]; cbn; done. Qed.

Lemma drop_empty_parts parts :
  exists parts',
    List.filter (fun s => negb (is_nil s)) (map glue parts) = map glue parts'
    /\ (forall p, In p parts' -> In p parts)
    /\ solid (concat (map (fun p => p.1.2) parts')) = solid (concat (map (fun p => p.1.2) parts)).
Proof.
  induction parts as [|p ps (ps' & E & Hin & Hs)]; cbn; [by exists []|].
  rewrite E. destruct (is_nil (glue p)) eqn:Hp; cbn.
  - exists ps'. split; [done|]. split; [by right; apply Hin|].
    by rewrite solid_app, (solid_nil_part p Hp), Hs.
  - exists (p :: ps'). split; [done|]. split.
    + intros q [-> | Hq]; [by left | right; by apply Hin].
    + cbn. by rewrite !solid_app, Hs.
Qed.

Lemma Forall_glue (P : rstr -> Prop) parts :
  Forall P (map glue parts) <-> forall p, In p parts -> P (glue p).
Proof. by rewrite List.Forall_map, List.Forall_forall. Qed.

Lemma split_into_chunks_spec text max :
  1 <= max ->
  exists parts,
    split_into_chunks text max = map glue parts
    /\ Forall (chunk_fits (scan_fence_spans text) max) (map glue parts)
    /\ Forall (part_ok (scan_fence_spans text)) parts
    /\ solid (concat (map (fun p => p.1.2) parts)) = solid text.
Proof.
  intros Hmax. destruct (split_raw_spec text max Hmax) as (parts & E & H1 & H2 & H3).
  unfold split_into_chunks. rewrite E. cbn [default from_option].
  destruct (drop_empty_parts parts) as (parts' & E' & Hin & Hs).
  change (id (map glue parts)) with (map glue parts). rewrite E'.
  destruct (map glue parts') as [|c cs] eqn:Em.
  - apply map_eq_nil in Em. subst parts'. exists [([], [], [])].
    rewrite <- H3, <- Hs. repeat split; try by left.
    + constructor; [|done]. left. unfold zlen. cbn. lia.
    + constructor; [|done]. split; by left.
  - exists parts'. rewrite <- Em. split; [done|]. split; [|split; [|congruence]].
    + rewrite Forall_glue in *. auto.
    + rewrite List.Forall_forall in *. auto.
Qed.

(** ** The fence scanner *)

Lemma position_spec p l n :
  position p l = Some n -> 0 <= n < zlen l /\ p (char_at l n) = true.
Proof.
  revert n; induction l as [|c l IH]; intros n; cbn; [done|].
  destruct (p c) eqn:E.
  - intros [= <-]. unfold zlen, char_at. cbn. split; [lia | done].
  - destruct (position p l) as [m|] eqn:Em; cbn; [|done]. intros [= <-].
    destruct (IH m eq_refl) as [? ?]. unfold zlen, char_at in *.
    split; [cbn [length]; lia|].
    destruct m; cbn [Z.add] in *; [by cbn | | lia].
    replace (Z.to_nat (1 + Z.pos p0)) with (S (Z.to_nat (Z.pos p0))) by lia. done.
Qed.

Lemma line_end_bounds chars i : 0 <= i <= zlen chars -> i <= line_end chars i <= zlen chars.
Proof.
  intros H. unfold line_end. destruct (position _ _) as [p|] eqn:E; [|lia].
  apply position_spec in E as [E _]. unfold zlen in *. rewrite length_drop in E. lia.
Qed.

Lemma tag_end_bounds rest j n : tag_end rest j = Some n -> j <= n < j + zlen rest.
Proof.
  revert j; induction rest as [|c rest IH]; intros j; cbn [tag_end]; [done|].
  destruct (c =? newline); [done|]. unfold zlen. cbn [length].
  destruct (c =? 62); [intros [= <-]; lia|]. intros H. apply IH in H. unfold zlen in H. lia.
Qed.

Lemma pre_open_end_bounds chars i gt :
  0 <= i -> pre_open_end chars i = Some gt -> i < gt < zlen chars.
Proof.
  intros Hi. unfold pre_open_end. destruct (negb _); [done|].
  destruct (nth_error chars _) as [c|] eqn:E; [|done].
  assert (i + 4 < zlen chars).
  { assert (nth_error chars (Z.to_nat (i + 4)) <> None) as H by congruence.
    apply nth_error_Some in H. unfold zlen. lia. }
  destruct (c =? 62); [intros [= <-]; lia|].
  destruct (_ && _); [|done]. intros H1. apply tag_end_bounds in H1.
  unfold zlen in *. rewrite length_drop in H1. lia.
Qed.

Lemma matches_ci_bounds chars i pat : matches_ci chars i pat = true -> i + zlen pat <= zlen chars.
Proof. unfold matches_ci. destruct (Z.ltb_spec (zlen chars) (i + zlen pat)); [done | lia]. Qed.

(** Spans found so far: inside the text, ordered, disjoint, closed; the one
    being scanned starts after them and before the scan position. *)
Definition spans_ok (len : Z) (spans : list FenceSpan) : Prop :=
  Forall (fun s => 0 <= fs_start s < fs_end s /\ fs_end s <= len) spans
  /\ StronglySorted (fun a b => fs_end a <= fs_start b) spans.
Definition all_before (i : Z) (spans : list FenceSpan) : Prop :=
  Forall (fun s => fs_end s <= i) spans.

Lemma spans_ok_snoc len spans s :
  spans_ok len spans -> all_before (fs_start s) spans ->
  0 <= fs_start s < fs_end s -> fs_end s <= len -> spans_ok len (spans ++ [s]).
Proof.
  intros [H1 H2] Hb Hs He. split.
  - apply List.Forall_app. split; [done|]. constructor; [lia | constructor].
  - by apply StronglySorted_snoc.
Qed.

Lemma all_before_le i j spans : i <= j -> all_before i spans -> all_before j spans.
Proof. intros H Hb. eapply Forall_impl; [exact Hb | cbn; lia]. Qed.

(** The state of the scan at position [i]: while a fence is open it starts
    strictly before [i]. *)
Definition scan_inv (len i : Z) (open : option (Z * FenceKind)) (spans : list FenceSpan) : Prop :=
  0 <= i /\ spans_ok len spans /\ Forall (fun s => fs_closed s = true) spans
  /\ match open with
     | None => all_before i spans
     | Some (start, _) => 0 <= start < len /\ start < i /\ all_before start spans
     end.

(** Closing the open fence at [e], the scan going on at [j]. *)
Lemma scan_inv_close len i j e start kind spans :
  scan_inv len i (Some (start, kind)) spans -> i <= e -> e <= len -> e <= j ->
  scan_inv len j None (spans ++ [mkSpan start e kind true]).
Proof.
  intros (Hi & Hok & Hc & Hs & Hlt & Hb) He Hel Hj. split; [lia|]. split; [|split].
  - apply spans_ok_snoc; cbn; [done | done | lia | done].
  - apply List.Forall_app. split; [done | by repeat constructor].
  - apply List.Forall_app. split; [|by repeat constructor].
    apply (all_before_le start); [lia | done].
Qed.

Lemma scan_inv_open len i j kind spans :
  scan_inv len i None spans -> i < len -> i < j -> scan_inv len j (Some (i, kind)) spans.
Proof. intros (Hi & Hok & Hc & Hb) Hl Hj. repeat split; try done; try lia; by destruct Hok. Qed.

Lemma scan_inv_step len i j open spans :
  scan_inv len i open spans -> i <= j -> scan_inv len j open spans.
Proof.
  intros (Hi & Hok & Hc & Ho) Hj. split; [lia|]. split; [done|]. split; [done|].
  destruct open as [[start k]|]; [|by apply (all_before_le i)].
  destruct Ho as (? & ? & ?). split; [lia|]. split; [lia | done].
Qed.

(** What the scanner promises of its result. *)
Definition scan_result (len : Z) (r : option (list FenceSpan)) : Prop :=
  exists spans, r = Some spans /\ spans_ok len spans
    /\ Forall (fun s => fs_closed s = false -> fs_end s = len) spans.

Lemma scan_loop_spec chars fuel i open spans :
  scan_inv (zlen chars) i open spans ->
  zlen chars - i < Z.of_nat fuel -> (0 < fuel)%nat ->
  scan_result (zlen chars) (scan_loop fuel chars i open spans).
Proof.
  revert i open spans. induction fuel as [|f IH]; intros i open spans Hinv Hf Hf0; [lia|].
  cbn [scan_loop]. destruct (Z.ltb_spec i (zlen chars)) as [Hlt | Hge]; cbn [negb].
  2:{ destruct Hinv as (Hi & Hok & Hc & Ho). destruct open as [[start kind]|]; eexists; split; try done.
      - destruct Ho as (? & ? & ?). split; [apply spans_ok_snoc; cbn; done || lia|].
        apply List.Forall_app. split; [|by repeat constructor].
        eapply Forall_impl; [exact Hc | cbn; congruence].
      - split; [done|]. eapply Forall_impl; [exact Hc | cbn; congruence]. }
  assert (0 <= i) as Hi by apply Hinv.
  pose proof (line_end_bounds chars i ltac:(lia)) as Hle.
  destruct open as [[start [o|o]]|].
  - destruct (is_backtick_close _ _ _); apply IH; try lia.
    + by apply (scan_inv_close _ i); [| lia..].
    + by apply (scan_inv_step _ i); [| lia].
  - destruct (matches_ci chars i (lit "</pre>")) eqn:E; apply IH; try lia.
    + apply matches_ci_bounds in E. change (zlen (lit "</pre>")) with 6 in E.
      by apply (scan_inv_close _ i); [| lia..].
    + by apply (scan_inv_step _ i); [| lia].
  - cbv zeta. destruct (_ && _); [apply IH; [apply (scan_inv_open _ i); [done | lia..] | lia | lia]|].
    destruct (pre_open_end chars i) as [gt|] eqn:E; apply IH; try lia.
    + apply pre_open_end_bounds in E; [|done]. by apply (scan_inv_open _ i); [| lia..].
    + apply pre_open_end_bounds in E; lia.
    + by apply (scan_inv_step _ i); [| lia].
Qed.

Lemma scan_fence_spans_ok chars :
  scan_loop (S (length chars)) chars 0 None [] = Some (scan_fence_spans chars)
  /\ scan_result (zlen chars) (Some (scan_fence_spans chars)).
Proof.
  destruct (scan_loop_spec chars (S (length chars)) 0 None []) as (spans & E & H).
  - repeat split; try done; constructor.
  - unfold zlen. lia.
  - lia.
  - unfold scan_fence_spans. rewrite E. split; [done | by exists spans].
Qed.

(** * Properties *)

(** C37. Splitting ends and never exceeds a positive cap: with the fuel given
    the loop returns, and every chunk has at most [max] chars.  The one
    exception the code makes for a degenerate cap is a fence's reopening
    line, sent bare when it alone reaches the cap. *)
Theorem split_chunks_fit text max :
  1 <= max ->
  split_raw text max <> None
  /\ split_into_chunks text max <> []
  /\ Forall (chunk_fits (scan_fence_spans text) max) (split_into_chunks text max).
Proof.
  intros H. destruct (split_raw_spec text max H) as (ps & E & _).
  destruct (split_into_chunks_spec text max H) as (parts & E' & Hf & _).
  split; [by rewrite E|]. split; [|by rewrite E'].
  unfold split_into_chunks. by destruct (List.filter _ _).
Qed.

Definition demo_text : rstr :=
  lit "Intro text. " ++ lit "```rust" ++ [newline] ++ lit "let first_line = 1;" ++ [newline]
  ++ lit "let second_line = 2;" ++ [newline] ++ lit "```" ++ [newline] ++ lit "Done now.".

Lemma split_chunks_fit_witness :
  map zlen (split_into_chunks demo_text 32) = [11; 31; 30]
  /\ Forall (chunk_fits (scan_fence_spans demo_text) 32) (split_into_chunks demo_text 32).
Proof.
  split; [vm_compute; reflexivity|].
  exact (proj2 (proj2 (split_chunks_fit demo_text 32 ltac:(lia)))).
Defined.

(** Splitting loses and reorders nothing but whitespace: each chunk is a
    piece of the text, possibly preceded by a fence's reopening line and
    followed by its closing marker, and the non-blank chars of the pieces,
    in order, are those of the text.  When the text has no fence the chunks
    themselves carry exactly its non-blank chars. *)
Theorem split_conserves text max :
  1 <= max ->
  (exists parts,
     split_into_chunks text max = map glue parts
     /\ Forall (part_ok (scan_fence_spans text)) parts
     /\ solid (concat (map (fun p => p.1.2) parts)) = solid text)
  /\ (scan_fence_spans text = [] ->
      solid (concat (split_into_chunks text max)) = solid text).
Proof.
  intros H. destruct (split_into_chunks_spec text max H) as (parts & E & _ & Hp & Hs).
  split; [by exists parts|]. intros Hn. rewrite E, <- Hs, Hn in *. clear E Hs H.
  f_equal. f_equal. apply map_ext_Forall. eapply Forall_impl; [exact Hp|].
  intros [[a b] c] [Ha Hc]. unfold glue, added_before, added_after in *. cbn in *.
  destruct Ha as [-> | (s & [] & _)]. destruct Hc as [-> | (s & [] & _)].
  by rewrite app_nil_r.
Qed.

Lemma split_conserves_witness :
  solid (concat (split_into_chunks (lit "one two. three four five") 10))
  = lit "onetwo.threefourfive".
Proof.
  rewrite (proj2 (split_conserves (lit "one two. three four five") 10 ltac:(lia)));
    vm_compute; reflexivity.
Defined.

(** The fence scanner returns non-empty spans inside the text, in order
    and disjoint, and a span it reports as unclosed runs to the end of the
    text (so there is at most one, the last). *)
Theorem scan_fence_spans_wf chars :
  let spans := scan_fence_spans chars in
  Forall (fun s => 0 <= fs_start s < fs_end s /\ fs_end s <= zlen chars) spans
  /\ StronglySorted (fun a b => fs_end a <= fs_start b) spans
  /\ Forall (fun s => fs_closed s = false -> fs_end s = zlen chars) spans
  /\ scan_loop (S (length chars)) chars 0 None [] = Some spans.
Proof.
  destruct (scan_fence_spans_ok chars) as (Hrun & spans & E & [H1 H2] & H3).
  injection E as <-. by repeat split.
Qed.

(** The render headroom: an effective cap is positive, is nine tenths of
    the declared cap rounded down for every cap above one, and never exceeds
    a positive declared cap. *)
Theorem effective_max_bounds m :
  0 <= m ->
  effective_max (Some m) = Some (Z.max 1 (m * RENDER_HEADROOM_PERCENT / 100))
  /\ (1 <= m -> exists e, effective_max (Some m) = Some e /\ 1 <= e <= m).
Proof.
  intros Hm. assert (effective_max (Some m)
    = Some (Z.max 1 (m * RENDER_HEADROOM_PERCENT / 100))) as E.
  { unfold effective_max, RENDER_HEADROOM_PERCENT. cbn [option_map].
    assert (m * 90 = m mod 100 * 90 + m / 100 * 90 * 100) as Em
      by (pose proof (Z_div_mod_eq_full m 100); lia).
    rewrite Em, Z.div_add by lia. f_equal. lia. }
  split; [done|]. intros H1. exists (Z.max 1 (m * RENDER_HEADROOM_PERCENT / 100)).
  split; [exact E|]. unfold RENDER_HEADROOM_PERCENT. clear E.
  assert (m * 90 / 100 <= m) by (apply Z.div_le_upper_bound; lia). lia.
Qed.

Lemma effective_max_bounds_witness :
  effective_max (Some 4096) = Some 3686 /\ effective_max (Some 1) = Some 1.
Proof.
  split; [|vm_compute; reflexivity].
  rewrite (proj1 (effective_max_bounds 4096 ltac:(lia))). vm_compute. reflexivity.
Defined.

(** The module's statement that every emitted chunk has balanced fences does
    not hold: a code line longer than the window can be cut just before a
    run of backticks inside it, and in the next chunk that run starts a line
    and closes the reopened fence early. *)
Definition unbalanced_demo : rstr :=
  lit "```" ++ [newline] ++ lit "aaaaaaaaaaaaaaaaaaaaaaaa```" ++ [newline]
  ++ lit "bbb" ++ [newline] ++ lit "```".

Lemma split_can_unbalance :
  is_balanced unbalanced_demo = true
  /\ forallb is_balanced (split_into_chunks unbalanced_demo 32) = false.
Proof. vm_compute. split; reflexivity. Qed.

(** A zero cap never ends: the empty reopening line fills it again and
    again.  The callers only pass caps from [effective_max] or halved ones,
    which are positive. *)
Lemma split_zero_cap_diverges fuel chars spans out :
  0 < zlen chars -> split_loop fuel chars spans 0 0 None out = None.
Proof.
  intros H. revert out. induction fuel as [|f IH]; intros out; cbn [split_loop]; [done|].
  destruct (Z.ltb_spec 0 (zlen chars)); [|lia]. cbn. apply IH.
Qed.
