(* ===== verification/TodoSchema.v ===== *)
(** The checklist the channels show ([copperclaw-channels/core/src/todo_list.rs]): its
    data, the rules a list must pass, its JSON as [serde] writes and reads it, and its
    text on a channel without rich messages. *)
From S2P Require Import Prelude.

(** ** Data *)

Definition MAX_ITEMS : nat := 50.
Definition MAX_TITLE_CHARS : nat := 64.
Definition MAX_ITEM_TEXT_CHARS : nat := 200.
Inductive TodoItemStatus : Type := WirePending | WireInProgress | WireBlocked | WireCompleted.
Record TodoListItem : Type := mkWire {
  wi_id : Z;
  wi_text : rstr;
  wi_status : TodoItemStatus;
  wi_blocked_reason : option rstr;
}.
Record WireList : Type := mkWireList {
  wl_items : list TodoListItem;
  wl_title : option rstr;
}.
Inductive TodoListError : Type :=
| EmptyList
| TooManyItems (len max : nat)
| DuplicateId (id : Z)
| EmptyItemText (id : Z)
| ItemTextTooLong (id : Z) (len max : nat)
| TitleTooLong (len max : nat).

(** ** Rules *)

Fixpoint validate_items (seen : list Z) (items : list TodoListItem) : result TodoListError unit :=
  match items with
  | [] => Ok tt
  | it :: r =>
      if existsb (Z.eqb (wi_id it)) seen then Err (DuplicateId (wi_id it))
      else match trim (wi_text it) with
           | [] => Err (EmptyItemText (wi_id it))
           | _ =>
               let tlen := length (wi_text it) in
               if (MAX_ITEM_TEXT_CHARS <? tlen)%nat then Err (ItemTextTooLong (wi_id it) tlen MAX_ITEM_TEXT_CHARS)
               else validate_items (wi_id it :: seen) r
           end
  end.
Definition validate (l : WireList) : result TodoListError unit :=
  match wl_items l with
  | [] => Err EmptyList
  | items =>
      if (MAX_ITEMS <? length items)%nat then Err (TooManyItems (length items) MAX_ITEMS)
      else if (match wl_title l with Some t => MAX_TITLE_CHARS <? length t | None => false end)%nat
      then Err (TitleTooLong (match wl_title l with Some t => length t | None => 0 end) MAX_TITLE_CHARS)
      else validate_items [] items
  end.

(** ** Counts *)

Definition status_eqb (a b : TodoItemStatus) : bool :=
  match a, b with
  | WirePending, WirePending | WireInProgress, WireInProgress
  | WireBlocked, WireBlocked | WireCompleted, WireCompleted => true
  | _, _ => false
  end.
Definition count_status (s : TodoItemStatus) (l : WireList) : nat :=
  length (List.filter (fun i => status_eqb (wi_status i) s) (wl_items l)).
Definition pending_count : WireList -> nat := count_status WirePending.
Definition in_progress_count : WireList -> nat := count_status WireInProgress.
Definition completed_count : WireList -> nat := count_status WireCompleted.
Definition blocked_count : WireList -> nat := count_status WireBlocked.
Definition all_completed (items : list TodoListItem) : bool :=
  match items with
  | [] => false
  | _ => forallb (fun i => status_eqb (wi_status i) WireCompleted) items
  end.
Definition is_fully_completed (l : WireList) : bool := all_completed (wl_items l).

(** ** Text *)

Definition non_empty (s : rstr) : option rstr := match s with [] => None | _ => Some s end.
Definition DEFAULT_TITLE : rstr := lit "Plan".
Definition title_or_default (l : WireList) : rstr :=
  default DEFAULT_TITLE (wl_title l ≫= fun t => non_empty (trim t)).
Definition blocked_reason_text (i : TodoListItem) : option rstr :=
  if status_eqb (wi_status i) WireBlocked then wi_blocked_reason i ≫= fun r => non_empty (trim r) else None.
(** The glyphs of the plain vocabulary. *)
Definition glyph (s : TodoItemStatus) : rstr :=
  match s with
  | WirePending => lit "[ ]" | WireInProgress => lit "[~]"
  | WireBlocked => lit "[!]" | WireCompleted => lit "[x]"
  end.
Definition em_dash : rchar := 8212.
Definition reason_suffix (join_text : rstr) (i : TodoListItem) : rstr :=
  match blocked_reason_text i with Some r => join_text ++ r | None => [] end.
Definition item_line (join_text : rstr) (i : TodoListItem) : rstr :=
  newline :: glyph (wi_status i) ++ lit " " ++ trim (wi_text i) ++ reason_suffix join_text i.
Definition show_count (n : nat) : rstr := show_z (Z.of_nat n).
Definition footer (l : WireList) : rstr :=
  match wl_items l with
  | [] => []
  | items =>
      newline :: lit "(" ++ show_count (completed_count l) ++ lit "/" ++ show_count (length items) ++ lit " done, "
      ++ show_count (in_progress_count l) ++ lit " in progress"
      ++ (if (0 <? blocked_count l)%nat then lit ", " ++ show_count (blocked_count l) ++ lit " blocked" else [])
      ++ lit ", " ++ show_count (pending_count l) ++ lit " pending)"
  end.
Definition to_text_fallback (l : WireList) : rstr :=
  title_or_default l ++ concat (map (item_line (lit " " ++ em_dash :: lit " ")) (wl_items l)) ++ footer l.
Definition to_chip_plaintext (l : WireList) : rstr :=
  title_or_default l ++ lit " (" ++ show_count (completed_count l) ++ lit "/" ++ show_count (length (wl_items l)) ++ lit ")"
  ++ concat (map (item_line (lit " " ++ em_dash :: lit " blocked: ")) (wl_items l)).

(** ** JSON *)

Definition status_tag (s : TodoItemStatus) : rstr :=
  match s with
  | WirePending => lit "pending" | WireInProgress => lit "in_progress"
  | WireBlocked => lit "blocked" | WireCompleted => lit "completed"
  end.
Definition parse_tag (s : rstr) : option TodoItemStatus :=
  if rstr_eqb s (lit "pending") then Some WirePending
  else if rstr_eqb s (lit "in_progress") then Some WireInProgress
  else if rstr_eqb s (lit "blocked") then Some WireBlocked
  else if rstr_eqb s (lit "completed") then Some WireCompleted
  else None.
Definition optional (k : string) (o : option rstr) : list (string * json) :=
  match o with Some s => [(k, JStr s)] | None => [] end.
Definition item_to_json (i : TodoListItem) : json :=
  JObj ([("id", JNum (wi_id i)); ("text", JStr (wi_text i)); ("status", JStr (status_tag (wi_status i)))]%string
        ++ optional "blocked_reason" (wi_blocked_reason i)).
Definition list_to_json (l : WireList) : json :=
  JObj (("items"%string, JArr (map item_to_json (wl_items l))) :: optional "title" (wl_title l)).

(** What the derived readers accept: an object with its fields in any order, unknown
    ones ignored, or an array of the fields in order; a variant as a text or as an
    object with a null. *)
Definition u32_of_json (j : json) : option Z :=
  match j with JNum n => if (0 <=? n) && (n <=? u32_max) then Some n else None | _ => None end.
Definition status_of_json (j : json) : option TodoItemStatus :=
  match j with
  | JStr s => parse_tag s
  | JObj [(k, JNull)] => parse_tag (lit k)
  | _ => None
  end.
Definition opt_str_of_json (o : option json) : option (option rstr) :=
  match o with
  | None | Some JNull => Some None
  | Some (JStr s) => Some (Some s)
  | Some _ => None
  end.
Definition item_fields (id text status : json) (reason : option json) : option TodoListItem :=
  id ← u32_of_json id;
  text ← jas_str text;
  status ← status_of_json status;
  reason ← opt_str_of_json reason;
  Some (mkWire id text status reason).
Definition item_of_json (j : json) : option TodoListItem :=
  match j with
  | JObj _ =>
      id ← jget "id" j;
      text ← jget "text" j;
      status ← jget "status" j;
      item_fields id text status (jget "blocked_reason" j)
  | JArr [id; text; status] => item_fields id text status None
  | JArr [id; text; status; reason] => item_fields id text status (Some reason)
  | _ => None
  end.
Definition list_fields (items : json) (title : option json) : option WireList :=
  match items with
  | JArr l =>
      items ← mapM item_of_json l;
      title ← opt_str_of_json title;
      Some (mkWireList items title)
  | _ => None
  end.
Definition list_of_json (j : json) : option WireList :=
  match j with
  | JObj _ => items ← jget "items" j; list_fields items (jget "title" j)
  | JArr [items] => list_fields items None
  | JArr [items; title] => list_fields items (Some title)
  | _ => None
  end.

(** * Lemmas *)

Lemma status_eqb_eq a b : status_eqb a b = true <-> a = b.
Proof. by destruct a, b. Qed.
Lemma parse_tag_status s : parse_tag (status_tag s) = Some s.
Proof. by destruct s. Qed.
Lemma all_completed_forall items :
  all_completed items = true <-> items <> [] /\ Forall (fun i => wi_status i = WireCompleted) items.
Proof.
  assert (forallb (fun i => status_eqb (wi_status i) WireCompleted) items = true
          <-> Forall (fun i => wi_status i = WireCompleted) items) as E.
  { rewrite forallb_forall, List.Forall_forall. by setoid_rewrite status_eqb_eq. }
  destruct items as [|i l]; [split; [done | by intros [? _]] |].
  rewrite <- E. cbn [all_completed]. by intuition.
Qed.
