(* ===== verification/Dispatch.v ===== *)
(** Getting one outbound row onto a channel
    ([copperclaw-host-delivery/src/service.rs], [error.rs]): errors and their
    classification, the host's state around a session, the adapter calls with
    the too-long re-split and the plain-text fallback, and the dispatchers of
    the row kinds.

    The state is passed through a small state-and-error monad: a failed
    computation keeps the state changes made before it failed, as the code
    does.  Channel adapters are parameters: an adapter sees the calls made
    before, answers, and takes some time. *)
From S2P Require Import Prelude Types Outbox Split TodoSchema.

(** ** Errors *)

Inductive AdapterError : Type :=
| Io (msg : rstr)
| Transport (msg : rstr)
| Auth (msg : rstr)
| Rate (retry_after : option Z)
| BadRequest (msg : rstr)
| NotImplemented
| Unsupported (reason : rstr).

Inductive DeliveryError : Type :=
| EDb (e : DbError)
| EAdapter (e : AdapterError)
| ENoAdapter (channel_type : string)
| ENoRoute (session : uuid)
| ESystemAction (reason : string).

Definition retry_after_secs (e : DeliveryError) : option Z :=
  match e with
  | EAdapter (Rate retry_after) => retry_after
  | _ => None
  end.

Definition is_retryable (e : DeliveryError) : bool :=
  match e with
  | EAdapter err => match err with Rate _ | Transport _ | Io _ => true | _ => false end
  | EDb _ | ENoAdapter _ | ENoRoute _ | ESystemAction _ => false
  end.

Definition to_lower (s : rstr) : rstr := map to_ascii_lowercase s.
Definition contains_any (pats : list string) (m : rstr) : bool :=
  existsb (fun p => str_contains (lit p) m) pats.

Definition is_formatting_bad_request (msg : rstr) : bool :=
  contains_any ["parse entities"; "rich text"; "blocks"; "block_kit"; "block kit"; "embed";
                "embeds"; "format"; "formatting"]%string (to_lower msg).
Definition is_too_long_bad_request (msg : rstr) : bool :=
  contains_any ["too long"; "too_long"]%string (to_lower msg).
Definition is_stale_edit_target (msg : rstr) : bool :=
  contains_any ["message to edit not found"; "message can't be edited";
                "message cant be edited"; "message_id_invalid"; "message_not_found";
                "cant_update_message"; "unknown message"]%string (to_lower msg).

(** ** Chat text *)

Record OutboundFile : Type := mkFile { of_filename : string; of_data : list Z }.
Record OutboundMessage : Type := mkOutbound {
  om_kind : MessageKind;
  om_content : json;
  om_files : list OutboundFile;
}.

Definition positive (o : option Z) : option Z :=
  match o with Some m => if 0 <? m then Some m else None | None => None end.
Definition within (limit : option Z) (n : Z) : bool :=
  match limit with Some m => n <=? m | None => true end.

Definition split_chat_content_if_needed (content : json) (max max_bytes : option Z) : list json :=
  let eff_chars := positive (effective_max max) in
  let eff_bytes := positive (effective_max max_bytes) in
  match eff_chars, eff_bytes with
  | None, None => [content]
  | _, _ =>
      match jget_str "text" content with
      | None => [content]
      | Some text =>
          if within eff_chars (zlen text) && within eff_bytes (byte_len text) then [content]
          else map (fun chunk => jset "text" (JStr chunk) content)
                 (split_into_chunks_within_bytes text (default u64_max eff_chars) eff_bytes)
      end
  end.

Definition chat_text_is_empty (content : json) : bool :=
  match jget_str "text" content with
  | Some text => is_nil (trim text)
  | None => true
  end.

Fixpoint common_prefix_chars (a b : rstr) : Z :=
  match a, b with
  | x :: a', y :: b' => if x =? y then 1 + common_prefix_chars a' b' else 0
  | _, _ => 0
  end.

Definition source_consumed (chunk source : rstr) : Z :=
  let direct := common_prefix_chars chunk source in
  if 0 <? direct then direct
  else match split_once newline chunk with
       | Some (head, tail) =>
           if starts_with (lit "```") (trim_start head) then common_prefix_chars tail source else 0
       | None => 0
       end.

(** ** The state of the host around one session *)

Record DispatchTarget : Type := mkTarget {
  dt_channel_type : option string;
  dt_platform_id : option string;
  dt_thread_id : option string;
  dt_agent_group_id : option uuid;
}.

(** A pair (session, outbound row). *)
Abbreviation DeliveryKey := (uuid * uuid)%type (only parsing).

Record RetryState : Type := mkRetry {
  rs_tries : Z;
  rs_not_before : instant;
  rs_chunks_sent : Z;
  rs_first_chunk_pid : option string;
}.

(** The calls an adapter receives. *)
Inductive call : Type :=
| CDeliver (m : OutboundMessage)
| CCollapsible (text summary : rstr) (preview_lines : list rstr)
| CRich (kind : MessageKind) (payload : json) (to_hint : option rstr)
    (existing_message_id : option string)
| CTodoList (list : WireList) (existing_message_id : option string) (pin_hint : bool)
| CEdit (external_id : string) (text : rstr)
| CReaction (external_id : string) (emoji : rstr).
Record logged : Type := mkLogged {
  lg_channel : string;
  lg_platform_id : string;
  lg_thread_id : option string;
  lg_call : call;
}.

(** A reply streamed by edits that outgrew its message: how much of its text earlier
    messages hold, and the message the rest goes to. *)
Record EditSplitState : Type := mkEditSplit {
  es_committed : Z;
  es_tail_external_id : string;
  es_updated : instant;
}.

(** [w_out], [w_delivered], [w_routing]: the session's tables; [w_dropped]:
    the central dead letters; [w_retries], [w_inflight], [w_primed],
    [w_backlog], [w_anchors], [w_edit_splits]: the service's in-memory maps, the last
    two for the pinned checklists and the replies streamed by edits; [w_log]: every adapter call,
    newest first; [w_mono], [w_wall]: the clocks; [w_fresh]: the next id. *)
Record world : Type := mkWorld {
  w_out : list out_row;
  w_delivered : list Delivered;
  w_routing : option SessionRouting;
  w_dropped : list OutboundDroppedMessage;
  w_retries : gmap (uuid * uuid) RetryState;
  w_inflight : gmap (uuid * uuid) instant;
  w_primed : gset uuid;
  w_backlog : gmap uuid nat;
  w_anchors : gmap uuid string;
  w_edit_splits : gmap string EditSplitState;
  w_log : list logged;
  w_mono : instant;
  w_wall : instant;
  w_fresh : uuid;
}.

Definition set_out (f : list out_row -> list out_row) (w : world) : world :=
  mkWorld (f (w_out w)) (w_delivered w) (w_routing w) (w_dropped w) (w_retries w) (w_inflight w)
    (w_primed w) (w_backlog w) (w_anchors w) (w_edit_splits w) (w_log w) (w_mono w) (w_wall w) (w_fresh w).
Definition set_delivered (f : list Delivered -> list Delivered) (w : world) : world :=
  mkWorld (w_out w) (f (w_delivered w)) (w_routing w) (w_dropped w) (w_retries w) (w_inflight w)
    (w_primed w) (w_backlog w) (w_anchors w) (w_edit_splits w) (w_log w) (w_mono w) (w_wall w) (w_fresh w).
Definition set_dropped (t : list OutboundDroppedMessage) (w : world) : world :=
  mkWorld (w_out w) (w_delivered w) (w_routing w) t (w_retries w) (w_inflight w)
    (w_primed w) (w_backlog w) (w_anchors w) (w_edit_splits w) (w_log w) (w_mono w) (w_wall w) (w_fresh w).
Definition set_retries (f : gmap (uuid * uuid) RetryState -> gmap (uuid * uuid) RetryState)
    (w : world) : world :=
  mkWorld (w_out w) (w_delivered w) (w_routing w) (w_dropped w) (f (w_retries w)) (w_inflight w)
    (w_primed w) (w_backlog w) (w_anchors w) (w_edit_splits w) (w_log w) (w_mono w) (w_wall w) (w_fresh w).
Definition set_inflight (f : gmap (uuid * uuid) instant -> gmap (uuid * uuid) instant)
    (w : world) : world :=
  mkWorld (w_out w) (w_delivered w) (w_routing w) (w_dropped w) (w_retries w) (f (w_inflight w))
    (w_primed w) (w_backlog w) (w_anchors w) (w_edit_splits w) (w_log w) (w_mono w) (w_wall w) (w_fresh w).
Definition set_primed (f : gset uuid -> gset uuid) (w : world) : world :=
  mkWorld (w_out w) (w_delivered w) (w_routing w) (w_dropped w) (w_retries w) (w_inflight w)
    (f (w_primed w)) (w_backlog w) (w_anchors w) (w_edit_splits w) (w_log w) (w_mono w) (w_wall w) (w_fresh w).
Definition set_backlog (f : gmap uuid nat -> gmap uuid nat) (w : world) : world :=
  mkWorld (w_out w) (w_delivered w) (w_routing w) (w_dropped w) (w_retries w) (w_inflight w)
    (w_primed w) (f (w_backlog w)) (w_anchors w) (w_edit_splits w) (w_log w) (w_mono w) (w_wall w) (w_fresh w).
Definition set_anchors (f : gmap uuid string -> gmap uuid string) (w : world) : world :=
  mkWorld (w_out w) (w_delivered w) (w_routing w) (w_dropped w) (w_retries w) (w_inflight w)
    (w_primed w) (w_backlog w) (f (w_anchors w)) (w_edit_splits w) (w_log w) (w_mono w) (w_wall w)
    (w_fresh w).
Definition set_edit_splits (f : gmap string EditSplitState -> gmap string EditSplitState) (w : world)
  : world :=
  mkWorld (w_out w) (w_delivered w) (w_routing w) (w_dropped w) (w_retries w) (w_inflight w)
    (w_primed w) (w_backlog w) (w_anchors w) (f (w_edit_splits w)) (w_log w) (w_mono w) (w_wall w)
    (w_fresh w).
(** An adapter call is logged and takes [d] of both clocks. *)
Definition after_call (l : logged) (d : Z) (w : world) : world :=
  mkWorld (w_out w) (w_delivered w) (w_routing w) (w_dropped w) (w_retries w) (w_inflight w)
    (w_primed w) (w_backlog w) (w_anchors w) (w_edit_splits w) (l :: w_log w) (w_mono w + Z.max 0 d) (w_wall w + Z.max 0 d)
    (w_fresh w).
Definition bump_fresh (w : world) : world :=
  mkWorld (w_out w) (w_delivered w) (w_routing w) (w_dropped w) (w_retries w) (w_inflight w)
    (w_primed w) (w_backlog w) (w_anchors w) (w_edit_splits w) (w_log w) (w_mono w) (w_wall w) (w_fresh w + 1).

(** ** The monad *)

Definition M (A : Type) : Type := stateful world DeliveryError A.

Definition record_delivered (id : uuid) (pid : option string) (status : string) : M unit :=
  fun w => (Ok tt, set_delivered (fun t => snd (delivered_insert t id pid status (w_wall w))) w).

(** ** Adapters *)

(** [ad_answer] sees the calls made so far and returns the answer and the
    time the call took. *)
Record Adapter : Type := mkAdapter {
  ad_max_message_chars : option Z;
  ad_max_message_bytes : option Z;
  ad_answer : list logged -> logged -> result AdapterError (option string) * Z;
  ad_plain_text_fallback : OutboundMessage -> option OutboundMessage;
}.

(** What the delivery service is configured with and what it calls outside
    the part modelled here: the registered adapters; serde's deserialisation
    of the structured payloads ([inl reason] when it fails) and their text
    renderings; the [agent_dispatch] handler; and the two surfaces handled
    elsewhere, control rows and the live checklist. *)
Class Host : Type := {
  adapters : string -> option Adapter;
  parse_payload : MessageKind -> json -> rstr + json;
  text_fallback : MessageKind -> json -> rstr;
  collapsible_fallback : rstr -> rstr -> list rstr -> rstr;
  agent_dispatch : option (json -> DispatchTarget -> uuid -> uuid -> result string unit);
  handle_system : Session -> MessageOutRow -> option DispatchTarget -> M unit;
  dispatch_todo_list : MessageOutRow -> DispatchTarget -> Session -> M unit;
}.

Section Dispatch.
Context `{Host}.

Definition answer (ct : string) (a : Adapter) (pid : string) (thread : option string) (c : call)
  : world -> result AdapterError (option string) * world :=
  fun w =>
    let l := mkLogged ct pid thread c in
    let '(r, d) := ad_answer a (w_log w) l in (r, after_call l d w).

(** One [deliver] call and the plain-text fallback for a rejected markup. *)
Definition call_adapter_once (ct : string) (a : Adapter) (pid : string) (thread : option string)
    (message : OutboundMessage) : M (option string) :=
  fun w =>
    match answer ct a pid thread (CDeliver message) w with
    | (Ok id, w1) => (Ok id, w1)
    | (Err (BadRequest msg), w1) =>
        if is_formatting_bad_request msg then
          match ad_plain_text_fallback a message with
          | None => (Err (EAdapter (BadRequest msg)), w1)
          | Some fallback_msg =>
              match answer ct a pid thread (CDeliver fallback_msg) w1 with
              | (Ok id, w2) => (Ok id, w2)
              | (Err _, w2) => (Err (EAdapter (BadRequest msg)), w2)
              end
          end
        else (Err (EAdapter (BadRequest msg)), w1)
    | (Err other, w1) => (Err (EAdapter other), w1)
    end.

Fixpoint deliver_parts_from (ct : string) (a : Adapter) (pid : string) (thread : option string)
    (message : OutboundMessage) (first_part : bool) (first : option string) (parts : list json)
  : M (option string) :=
  match parts with
  | [] => ret first
  | content :: rest =>
      let part := mkOutbound (om_kind message) content
                    (if first_part then om_files message else []) in
      let! id := call_adapter_once ct a pid thread part in
      deliver_parts_from ct a pid thread message false (if first_part then id else first) rest
  end.

Definition deliver_parts (ct : string) (a : Adapter) (pid : string) (thread : option string)
    (message : OutboundMessage) (parts : list json) : M (option string) :=
  deliver_parts_from ct a pid thread message true None parts.

Definition TOO_LONG_RETRY_FALLBACK_CAP : Z := 4096.

Definition call_adapter (ct : string) (a : Adapter) (pid : string) (thread : option string)
    (message : OutboundMessage) : M (option string) :=
  let is_chat := bool_decide (om_kind message = Chat) in
  let parts :=
    if is_chat
    then split_chat_content_if_needed (om_content message)
           (ad_max_message_chars a) (ad_max_message_bytes a)
    else [om_content message] in
  if (1 <? length parts)%nat then deliver_parts ct a pid thread message parts
  else
    let! r := catch (call_adapter_once ct a pid thread message) in
    match r with
    | Err (EAdapter (BadRequest msg)) =>
        if is_chat && is_too_long_bad_request msg then
          let declared := default TOO_LONG_RETRY_FALLBACK_CAP (ad_max_message_chars a) in
          let retry_parts :=
            split_chat_content_if_needed (om_content message)
              (Some (Z.max (declared / 2) 1))
              (option_map (fun b => Z.max (b / 2) 1) (ad_max_message_bytes a)) in
          if (length retry_parts <=? 1)%nat then fail (EAdapter (BadRequest msg))
          else deliver_parts ct a pid thread message retry_parts
        else fail (EAdapter (BadRequest msg))
    | Err e => fail e
    | Ok id => ret id
    end.

(** The adapter and destination of a target. *)
Definition resolve_adapter (target : DispatchTarget) : M (string * Adapter * string) :=
  match dt_channel_type target with
  | None => fail (ENoRoute 0)
  | Some ct =>
      match dt_platform_id target with
      | None => fail (ENoRoute 0)
      | Some pid =>
          match adapters ct with
          | None => fail (ENoAdapter ct)
          | Some a => ret (ct, a, pid)
          end
      end
  end.

Definition chat_message (text : rstr) : OutboundMessage :=
  mkOutbound Chat (JObj [("text"%string, JStr text)]) [].

Definition str_items (j : json) : list rstr :=
  match j with JArr l => omap jas_str l | _ => [] end.

Definition dispatch_collapsible (row : MessageOutRow) (target : DispatchTarget)
    (ct : string) (a : Adapter) (pid : string) (expander : json) : M unit :=
  let text := default [] (jget_str "text" (mo_content row)) in
  let summary := default (lit "(long output)") (jget_str "summary" expander) in
  let preview_lines := match jget "preview_lines" expander with
                       | Some v => str_items v | None => [] end in
  let! id := (fun w =>
    match answer ct a pid (dt_thread_id target) (CCollapsible text summary preview_lines) w with
    | (Ok id, w1) => (Ok id, w1)
    | (Err (Unsupported _), w1) =>
        call_adapter ct a pid (dt_thread_id target)
          (chat_message (collapsible_fallback text summary preview_lines)) w1
    | (Err other, w1) => (Err (EAdapter other), w1)
    end) in
  record_delivered (mo_id row) id "ok".

(** A delivery progress entry that does not exist yet starts at zero. *)
Definition blank_retry (now : instant) : RetryState := mkRetry 0 now 0 None.

(** Progress is recorded before the next chunk is sent. *)
Definition note_chunk (key : uuid * uuid) (i : Z) (first_pid : option string) (w : world) : world :=
  set_retries (fun m =>
    let entry := default (blank_retry (w_mono w)) (m !! key) in
    <[key := mkRetry (rs_tries entry) (rs_not_before entry)
               (Z.min u32_max (Z.min u32_max i + 1))
               (if i =? 0 then first_pid else rs_first_chunk_pid entry)]> m) w.

(** The sending loop from chunk [i] on; [parts] are the chunks left. *)
Fixpoint send_chunks (ct : string) (a : Adapter) (pid : string) (thread : option string)
    (kind : MessageKind) (key : uuid * uuid) (total : nat) (i : Z) (first : option string)
    (parts : list json) : M (option string) :=
  match parts with
  | [] => ret first
  | content :: rest =>
      let! id := call_adapter ct a pid thread (mkOutbound kind content []) in
      let first' := if i =? 0 then id else first in
      (if (1 <? total)%nat then modify (note_chunk key i first') else ret tt) ;;
      send_chunks ct a pid thread kind key total (i + 1) first' rest
  end.

Definition dispatch_chat (session_id : uuid) (row : MessageOutRow) (target : DispatchTarget)
  : M unit :=
  let! '(ct, a, pid) := resolve_adapter target in
  match jget "expander" (mo_content row) with
  | Some expander => dispatch_collapsible row target ct a pid expander
  | None =>
      if bool_decide (mo_kind row = Chat) && chat_text_is_empty (mo_content row)
      then record_delivered (mo_id row) None "ok"
      else
        let parts := split_chat_content_if_needed (mo_content row)
                       (ad_max_message_chars a) (ad_max_message_bytes a) in
        let key := (session_id, mo_id row) in
        let! progress := gets (fun w => w_retries w !! key) in
        let '(start_index, first_platform_id) :=
          match progress with
          | Some s => (rs_chunks_sent s, rs_first_chunk_pid s)
          | None => (0, None)
          end in
        let! first := send_chunks ct a pid (dt_thread_id target) (mo_kind row) key
                        (length parts) start_index first_platform_id
                        (drop (Z.to_nat start_index) parts) in
        record_delivered (mo_id row) first "ok"
  end.

(** The payload of a structured row: its key in [content]. *)
Definition payload_key (k : MessageKind) : string :=
  match k with
  | Card => "card" | Breadcrumb => "breadcrumb" | Error => "error"
  | Thinking => "thinking" | Diff => "diff" | _ => ""
  end%string.

Definition parse_row_payload (k : MessageKind) (row : MessageOutRow) : M json :=
  match jget (payload_key k) (mo_content row) with
  | None => fail (ESystemAction "row missing its payload")
  | Some v => match parse_payload k v with
              | inl _ => fail (ESystemAction "payload failed to deserialise")
              | inr p => ret p
              end
  end.

(** The adapter's native hook, with the text fallback on [Unsupported]. *)
Definition rich_or_text (ct : string) (a : Adapter) (pid : string) (thread : option string)
    (k : MessageKind) (payload : json) (to_hint : option rstr) (existing : option string)
    (on_other : AdapterError -> M (option string)) : M (option string) :=
  fun w =>
    match answer ct a pid thread (CRich k payload to_hint existing) w with
    | (Ok id, w1) => (Ok id, w1)
    | (Err (Unsupported _), w1) =>
        call_adapter ct a pid thread (chat_message (text_fallback k payload)) w1
    | (Err other, w1) => on_other other w1
    end.

Definition adapter_error {A} (e : AdapterError) : M A := fail (EAdapter e).

Definition dispatch_card (row : MessageOutRow) (target : DispatchTarget) : M unit :=
  let! '(ct, a, pid) := resolve_adapter target in
  let! card := parse_row_payload Card row in
  let to_field k := match jget "to" (mo_content row) with
                    | Some t => jget_str k t | None => None end in
  let to_hint := or_else (to_field "id"%string) (to_field "session_id"%string) in
  let! id := rich_or_text ct a pid (dt_thread_id target) Card card to_hint None adapter_error in
  record_delivered (mo_id row) id "ok".

Definition dispatch_breadcrumb (row : MessageOutRow) (target : DispatchTarget)
    (existing_message_id : option string) : M unit :=
  let! '(ct, a, pid) := resolve_adapter target in
  let! breadcrumb := parse_row_payload Breadcrumb row in
  let repost (e : AdapterError) : M (option string) :=
    match e, existing_message_id with
    | BadRequest msg, Some _ =>
        if is_stale_edit_target msg then
          fun w => match answer ct a pid (dt_thread_id target)
                           (CRich Breadcrumb breadcrumb None None) w with
                   | (Ok id, w1) => (Ok id, w1)
                   | (Err e', w1) => (Err (EAdapter e'), w1)
                   end
        else adapter_error e
    | _, _ => adapter_error e
    end in
  let! id := rich_or_text ct a pid (dt_thread_id target) Breadcrumb breadcrumb None
               existing_message_id repost in
  record_delivered (mo_id row) id "ok".

(** Error, thinking and diff rows share one shape. *)
Definition dispatch_receipt (k : MessageKind) (row : MessageOutRow) (target : DispatchTarget)
  : M unit :=
  let! '(ct, a, pid) := resolve_adapter target in
  let! payload := parse_row_payload k row in
  let! id := rich_or_text ct a pid (dt_thread_id target) k payload None None adapter_error in
  record_delivered (mo_id row) id "ok".
Definition dispatch_error := dispatch_receipt Error.
Definition dispatch_thinking := dispatch_receipt Thinking.
Definition dispatch_diff := dispatch_receipt Diff.

Definition resolve_target (row : MessageOutRow) (routing : option SessionRouting)
  : option DispatchTarget :=
  let from (f : SessionRouting -> option string) := match routing with Some r => f r | None => None end in
  let channel_type := or_else (mo_channel_type row) (from sr_channel_type) in
  let platform_id := or_else (mo_platform_id row) (from sr_platform_id) in
  let thread_id := or_else (mo_thread_id row) (from sr_thread_id) in
  let target := mkTarget channel_type platform_id thread_id None in
  if bool_decide (mo_kind row = Agent) then Some target
  else match channel_type, platform_id with
       | Some _, Some _ => Some target
       | _, _ => None
       end.

Definition process_row (sess : Session) (row : MessageOutRow) (routing : option SessionRouting)
  : M unit :=
  let resolved := resolve_target row routing in
  if bool_decide (mo_kind row = System) then handle_system sess row resolved
  else
    match resolved with
    | None => fail (ENoRoute (s_id sess))
    | Some target =>
        match mo_kind row with
        | System => ret tt
        | Agent =>
            match agent_dispatch with
            | Some handler =>
                match handler (mo_content row) target (s_id sess) (mo_id row) with
                | Err err => fail (ESystemAction err)
                | Ok _ => record_delivered (mo_id row) None "ok"
                end
            | None => record_delivered (mo_id row) None "ok"
            end
        | Chat | Task | Webhook => dispatch_chat (s_id sess) row target
        | Card => dispatch_card row target
        | Breadcrumb => dispatch_breadcrumb row target None
        | Diff => dispatch_diff row target
        | TodoList => dispatch_todo_list row target sess
        | Error => dispatch_error row target
        | Thinking => dispatch_thinking row target
        end
    end.
End Dispatch.

(** ** What a dispatch may change

    A computation on behalf of row [id] of session [s] only appends delivery
    records of that row, logs adapter calls, lets time pass, and touches no
    retry entry but its own, whose attempt count and window it keeps. *)

Definition tries_of (o : option RetryState) : Z :=
  match o with Some e => rs_tries e | None => 0 end.

Definition budget_kept (o o' : option RetryState) : Prop :=
  o' = o \/
  exists e', o' = Some e' /\ rs_tries e' = tries_of o
             /\ match o with Some e => rs_not_before e' = rs_not_before e | None => True end.

Record frame (s id : uuid) (w w' : world) : Prop := {
  fr_out : w_out w' = w_out w;
  fr_routing : w_routing w' = w_routing w;
  fr_dropped : w_dropped w' = w_dropped w;
  fr_inflight : w_inflight w' = w_inflight w;
  fr_primed : w_primed w' = w_primed w;
  fr_backlog : w_backlog w' = w_backlog w;
  fr_fresh : w_fresh w' = w_fresh w;
  fr_other : forall k, k <> (s, id) -> w_retries w' !! k = w_retries w !! k;
  fr_key : budget_kept (w_retries w !! (s, id)) (w_retries w' !! (s, id));
  fr_delivered : exists l, w_delivered w' = w_delivered w ++ l
                           /\ Forall (fun d => d_message_out_id d = id) l;
  fr_time : 0 <= w_mono w' - w_mono w /\ w_mono w' - w_mono w = w_wall w' - w_wall w;
}.

Definition framed {A} (s id : uuid) (m : M A) : Prop := keeps (frame s id) m.

Definition recorded (id : uuid) (w : world) : Prop :=
  existsb (delivered_has id) (w_delivered w) = true.
Definition records (id : uuid) (m : M unit) : Prop :=
  forall w w', m w = (Ok tt, w') -> recorded id w'.

(** What the two surfaces handled elsewhere promise to the delivery loop. *)
Class HostLaws `{Host} : Prop := {
  handle_system_framed sess row t : framed (s_id sess) (mo_id row) (handle_system sess row t);
  handle_system_records sess row t : records (mo_id row) (handle_system sess row t);
  todo_list_framed row t sess : framed (s_id sess) (mo_id row) (dispatch_todo_list row t sess);
  todo_list_records row t sess : records (mo_id row) (dispatch_todo_list row t sess);
}.

(** * Lemmas *)

Lemma budget_kept_trans a b c : budget_kept a b -> budget_kept b c -> budget_kept a c.
Proof.
  intros [-> | (e & -> & Ht & Hn)] [-> | (e' & -> & Ht' & Hn')]; unfold budget_kept; eauto 10.
  right. exists e'. cbn in *. split; [done|]. split; [congruence|]. destruct a; congruence.
Qed.

Lemma budget_kept_tries o o' : budget_kept o o' -> tries_of o' = tries_of o.
Proof. by intros [-> | (e & -> & Ht & _)]. Qed.

Lemma frame_refl s id w : frame s id w w.
Proof.
  constructor; try done; [by left | | lia]. exists []. by rewrite app_nil_r.
Qed.

Lemma frame_trans s id w1 w2 w3 : frame s id w1 w2 -> frame s id w2 w3 -> frame s id w1 w3.
Proof.
  intros [] []. constructor; try congruence.
  - intros k Hk. rewrite <- fr_other0 by done. by apply fr_other1.
  - by eapply budget_kept_trans.
  - destruct fr_delivered0 as (l & E & Hl), fr_delivered1 as (l' & E' & Hl').
    exists (l ++ l'). rewrite E', E, app_assoc. split; [done|].
    by apply List.Forall_app.
  - lia.
Qed.

#[export] Instance frame_preorder s id : PreOrder (frame s id).
Proof. split; [intros w; apply frame_refl | intros x y z; apply frame_trans]. Qed.
Lemma framed_ret {A} s id (a : A) : framed s id (ret a).
Proof. apply keeps_ret. Qed.
Lemma framed_fail {A} s id e : framed s id (fail e : M A).
Proof. apply keeps_fail. Qed.
Lemma framed_gets {A} s id (f : world -> A) : framed s id (gets f).
Proof. apply keeps_gets. Qed.
Lemma framed_bind {A B} s id (m : M A) (k : A -> M B) :
  framed s id m -> (forall a, framed s id (k a)) -> framed s id (mbind m k).
Proof. apply keeps_bind. Qed.
Lemma framed_catch {A} s id (m : M A) : framed s id m -> framed s id (catch m).
Proof. apply keeps_catch. Qed.

Lemma framed_record s id pid st : framed s id (record_delivered id pid st).
Proof.
  intros w. constructor; try done; [by left | | cbn; lia]. cbn.
  unfold delivered_insert. destruct (existsb _ _); cbn; [exists []; by rewrite app_nil_r|].
  eexists. split; [done|]. by repeat constructor.
Qed.

Lemma framed_note_chunk s id i first : framed s id (modify (note_chunk (s, id) i first)).
Proof.
  intros w. cbn. constructor; try done; cbn.
  - intros k Hk. by rewrite lookup_insert_ne.
  - rewrite lookup_insert_eq. right. eexists. split; [done|]. by destruct (w_retries w !! (s, id)).
  - exists []. by rewrite app_nil_r.
  - lia.
Qed.

Lemma after_call_frame s id l d w : frame s id w (after_call l d w).
Proof.
  constructor; try done; cbn; [by left | | lia]. exists []. by rewrite app_nil_r.
Qed.

Lemma records_bind {A} id (m : M A) (k : A -> M unit) :
  (forall a, records id (k a)) -> records id (mbind m k).
Proof. intros H w w'. unfold mbind. destruct (m w) as [[a|e] w1]; [apply H | done]. Qed.
Lemma records_fail id e : records id (fail e).
Proof. by intros w w'. Qed.
Lemma records_record id pid st : records id (record_delivered id pid st).
Proof. intros w w' [= <-]. apply delivered_insert_has. Qed.

Create HintDb framed.
#[export] Hint Resolve framed_ret framed_fail framed_gets framed_bind framed_catch framed_record
  framed_note_chunk after_call_frame frame_refl records_bind records_fail records_record : framed.

Section DispatchLemmas.
Context `{Host}.

Lemma answer_frame s id ct a pid th c w r w' :
  answer ct a pid th c w = (r, w') -> frame s id w w'.
Proof. unfold answer. destruct (ad_answer _ _ _). intros [= _ <-]. apply after_call_frame. Qed.

Lemma call_adapter_once_framed s id ct a pid th m : framed s id (call_adapter_once ct a pid th m).
Proof.
  intros w. unfold call_adapter_once.
  destruct (answer ct a pid th (CDeliver m) w) as [[o|e] w1] eqn:E;
    apply (answer_frame s id) in E; [done|].
  destruct e as [| | | |msg| |]; try done.
  destruct (is_formatting_bad_request msg); [|done].
  destruct (ad_plain_text_fallback a m) as [fb|]; [|done].
  destruct (answer ct a pid th (CDeliver fb) w1) as [[o|e'] w2] eqn:E2;
    apply (answer_frame s id) in E2; by eapply frame_trans.
Qed.

Lemma deliver_parts_framed s id ct a pid th m parts : framed s id (deliver_parts ct a pid th m parts).
Proof.
  unfold deliver_parts. generalize true as b, (@None string) as first.
  induction parts as [|p ps IH]; intros b first; cbn; [apply framed_ret|].
  apply framed_bind; [apply call_adapter_once_framed | intros; apply IH].
Qed.

Lemma call_adapter_framed s id ct a pid th m : framed s id (call_adapter ct a pid th m).
Proof.
  unfold call_adapter. case_goal; [apply deliver_parts_framed|].
  apply framed_bind; [apply framed_catch, call_adapter_once_framed|].
  intros [o|[| [| | | |msg| |] | | |]]; auto with framed.
  repeat case_goal; auto using deliver_parts_framed with framed.
Qed.

Lemma send_chunks_framed s id ct a pid th k total i first parts :
  framed s id (send_chunks ct a pid th k (s, id) total i first parts).
Proof.
  revert i first. induction parts as [|p ps IH]; intros i first; cbn; [apply framed_ret|].
  apply framed_bind; [apply call_adapter_framed|]. intros o.
  apply framed_bind; [case_goal; auto with framed | intros; apply IH].
Qed.

Lemma rich_or_text_framed s id ct a pid th k p hint ex other :
  (forall e, framed s id (other e)) -> framed s id (rich_or_text ct a pid th k p hint ex other).
Proof.
  intros Ho w. unfold rich_or_text.
  destruct (answer ct a pid th _ w) as [[o|e] w1] eqn:E; apply (answer_frame s id) in E; [done|].
  destruct e; try (eapply frame_trans; [exact E | apply Ho]).
  eapply frame_trans; [exact E | apply call_adapter_framed].
Qed.

Lemma resolve_adapter_framed s id t : framed s id (resolve_adapter t).
Proof. unfold resolve_adapter. repeat case_goal; auto with framed. Qed.
Lemma parse_row_payload_framed s id k row : framed s id (parse_row_payload k row).
Proof. unfold parse_row_payload. repeat case_goal; auto with framed. Qed.

Lemma dispatch_collapsible_framed s row t ct a pid e :
  framed s (mo_id row) (dispatch_collapsible row t ct a pid e).
Proof.
  unfold dispatch_collapsible. apply framed_bind; [|intros; apply framed_record].
  intros w. destruct (answer ct a pid _ _ w) as [[o|e'] w1] eqn:E;
    apply (answer_frame s (mo_id row)) in E; [done|].
  destruct e'; try done. eapply frame_trans; [exact E | apply call_adapter_framed].
Qed.

Lemma adapter_error_framed {A} s id e : framed s id (@adapter_error A e).
Proof. apply framed_fail. Qed.

Hint Resolve adapter_error_framed resolve_adapter_framed parse_row_payload_framed rich_or_text_framed
  dispatch_collapsible_framed send_chunks_framed : framed.

Lemma dispatch_chat_framed s row t : framed s (mo_id row) (dispatch_chat s row t).
Proof.
  apply framed_bind; [auto with framed|]. intros [[ct a] pid].
  destruct (jget _ _); [auto with framed|]. destruct (_ && _); [auto with framed|].
  cbv zeta. apply framed_bind; [auto with framed|]. intros [p|]; auto with framed.
Qed.

Lemma dispatch_receipt_framed s k row t : framed s (mo_id row) (dispatch_receipt k row t).
Proof.
  apply framed_bind; [auto with framed|]. intros [[ct a] pid].
  apply framed_bind; [auto with framed|]. intros p.
  apply framed_bind; [|auto with framed]. apply rich_or_text_framed. auto with framed.
Qed.

Lemma dispatch_card_framed s row t : framed s (mo_id row) (dispatch_card row t).
Proof.
  apply framed_bind; [auto with framed|]. intros [[ct a] pid].
  apply framed_bind; [auto with framed|]. intros p.
  apply framed_bind; [|auto with framed]. apply rich_or_text_framed. auto with framed.
Qed.

Lemma dispatch_breadcrumb_framed s row t ex : framed s (mo_id row) (dispatch_breadcrumb row t ex).
Proof.
  apply framed_bind; [auto with framed|]. intros [[ct a] pid].
  apply framed_bind; [auto with framed|]. intros p.
  apply framed_bind; [|auto with framed]. apply rich_or_text_framed.
  intros [| | | |msg| |]; auto with framed. destruct ex; [|auto with framed].
  destruct (is_stale_edit_target msg); [|auto with framed].
  intros w. destruct (answer ct a pid _ _ w) as [[o|e'] w1] eqn:E;
    by apply (answer_frame s (mo_id row)) in E.
Qed.

Lemma dispatch_chat_records s row t : records (mo_id row) (dispatch_chat s row t).
Proof.
  apply records_bind. intros [[ct a] pid].
  destruct (jget _ _); [apply records_bind; auto with framed|].
  destruct (_ && _); [auto with framed|]. cbv zeta. apply records_bind.
  intros [p|]; auto with framed.
Qed.

(** Whatever its kind, processing a row stays within the row's frame, and a
    row processed without error has been recorded. *)
Lemma process_row_framed `{!HostLaws} sess row routing :
  framed (s_id sess) (mo_id row) (process_row sess row routing).
Proof.
  unfold process_row. case_goal; [apply handle_system_framed|].
  destruct (resolve_target row routing) as [t|]; [|auto with framed].
  destruct (mo_kind row); auto using dispatch_chat_framed, dispatch_card_framed,
    dispatch_breadcrumb_framed, todo_list_framed with framed;
    try apply dispatch_receipt_framed.
  repeat case_goal; auto with framed.
Qed.

Lemma process_row_records `{!HostLaws} sess row routing :
  records (mo_id row) (process_row sess row routing).
Proof.
  unfold process_row. case_goal; [apply handle_system_records|].
  destruct (resolve_target row routing) as [t|]; [|auto with framed].
  apply bool_decide_eq_false in Heqb.
  destruct (mo_kind row); try done; auto using dispatch_chat_records, todo_list_records;
    try (apply records_bind; intros [[ct a] pid]; apply records_bind; intros p;
         apply records_bind; auto with framed).
  repeat case_goal; auto with framed.
Qed.
End DispatchLemmas.
