(* ===== verification/Delivery.v ===== *)
(** The delivery loop of one session
    ([copperclaw-host-delivery/src/service.rs]): retry budget and backoff,
    the in-memory retry cache and its write-through columns, the dead
    letters, and one pass over the outbound queue
    ([process_session_once]). *)
From S2P Require Import Prelude Types Outbox Split Dispatch.

(** ** Constants *)
Definition ABSOLUTE_CEILING_MS : Z := 1800000.
Definition MAX_DELIVERY_ATTEMPTS : Z := 3.
Definition BACKOFF_BASE_MS : Z := 5000.
Definition NO_ADAPTER_MAX_AGE_HOURS : Z := 24.
Definition NO_ADAPTER_DROP_REASON : string := "no_adapter".
Definition NO_ROUTE_DROP_REASON : string := "no_route".

Record DeliveryReport : Type := mkReport {
  delivered : nat;
  failed : nat;
  deferred : nat;
}.
Definition total (r : DeliveryReport) : nat := (delivered r + failed r + deferred r)%nat.

Inductive DeferOutcome : Type := Defer | Fail_.

Definition parse_preview_port (input : json) : option Z :=
  match jget "port" input with
  | Some (JNum n) =>
      if (0 <=? n) && (n <=? u64_max)
      then if (n =? 0) || (u16_max <? n) then None else Some n
      else None
  | _ => None
  end.

Definition backoff_delay_ms (tries : Z) : Z :=
  let exp := Z.min (sat_sub tries 1) 31 in
  let scaled := sat_mul u64_max BACKOFF_BASE_MS (Z.shiftl 1 exp) in
  Z.min scaled ABSOLUTE_CEILING_MS.

Definition hours (n : Z) : Z := n * 3600 * ns_per_s.
Definition millis (n : Z) : Z := n * ns_per_ms.

Definition no_adapter_expired (row_timestamp now : instant) : bool :=
  hours NO_ADAPTER_MAX_AGE_HOURS <=? now - row_timestamp.

(** ** Retry bookkeeping *)

Definition bump_retry (key : uuid * uuid) (retry_after : option Z) : M DeferOutcome :=
  fun w =>
    let now := w_mono w in
    let entry := default (blank_retry now) (w_retries w !! key) in
    let tries := rs_tries entry + 1 in
    if MAX_DELIVERY_ATTEMPTS <=? tries then
      let entry' := mkRetry tries (rs_not_before entry) (rs_chunks_sent entry) (rs_first_chunk_pid entry) in
      (Ok Fail_, set_out (fun t => set_retry_state t key.2 tries None)
                   (set_retries <[key := entry']> w))
    else
      let delay := match retry_after with
                   | Some s => Z.min (sat_mul u64_max s 1000) ABSOLUTE_CEILING_MS
                   | None => backoff_delay_ms tries
                   end in
      let entry' := mkRetry tries (now + millis delay) (rs_chunks_sent entry) (rs_first_chunk_pid entry) in
      (Ok Defer, set_out (fun t => set_retry_state t key.2 tries (Some (w_wall w + millis delay)))
                   (set_retries <[key := entry']> w)).

(** The entry a persisted state primes the cache with. *)
Definition primed_entry (now now_wall : instant) (state : PersistedRetryState) : RetryState :=
  let not_before :=
    match pr_not_before state with
    | Some t => if now_wall <? t
                then now + Z.min (t - now_wall) (millis ABSOLUTE_CEILING_MS) else now
    | None => now
    end in
  mkRetry (pr_tries state) not_before 0 None.

(** One persisted state: skipped when the row is recorded or the cache
    already has an entry. *)
Definition prime_step (session : uuid) (delivered_ids : list uuid) (now now_wall : instant)
    (m : gmap (uuid * uuid) RetryState) (state : PersistedRetryState)
  : gmap (uuid * uuid) RetryState :=
  if existsb (Z.eqb (pr_id state)) delivered_ids then m
  else match m !! (session, pr_id state) with
       | Some _ => m
       | None => <[(session, pr_id state) := primed_entry now now_wall state]> m
       end.

Definition prime_retry_cache (session : uuid) (delivered_ids : list uuid) : M unit :=
  fun w =>
    if bool_decide (session ∈ w_primed w) then (Ok tt, w)
    else
      (Ok tt, set_primed (fun p => {[session]} ∪ p)
                (set_retries (fun m =>
                   fold_left (prime_step session delivered_ids (w_mono w) (w_wall w))
                     (list_retry_state (w_out w)) m) w)).

(** ** Terminal records *)

(** The card telling the user that a message did not get out. *)
Definition failure_summary (reason : rstr) : rstr :=
  let trimmed := trim reason in
  match trimmed with
  | [] => lit "delivery failed after exhausting the retry budget"
  | _ => lit "delivery failed after exhausting the retry budget: " ++ take 400 trimmed
  end.
Definition failure_card (reason : rstr) : json :=
  JObj [("error"%string,
         JObj [("title"%string, JStr (lit "Could not deliver message"));
               ("summary"%string, JStr (failure_summary reason));
               ("kind"%string, JStr (lit "delivery"));
               ("retryable"%string, JBool false)])].

Definition emit_delivery_failure_error_card (failed_row : MessageOutRow) (reason : rstr) : M unit :=
  match mo_channel_type failed_row, mo_platform_id failed_row with
  | Some channel_type, Some platform_id =>
      fun w =>
        let write :=
          mkWriteOutbound (w_fresh w) (mo_in_reply_to failed_row) (w_wall w) None None Error
            (Some platform_id) (Some channel_type) (mo_thread_id failed_row) (failure_card reason) in
        match out_insert (w_out w) write with
        | Ok (_, t) => (Ok tt, bump_fresh (set_out (fun _ => t) w))
        | Err e => (Err (EDb e), bump_fresh w)
        end
  | _, _ => ret tt
  end.

Definition forget (key : uuid * uuid) : M unit := modify (set_retries (delete key)).

Definition record_exhausted_row (row : MessageOutRow) (key : uuid * uuid) (reason : rstr) : M unit :=
  record_delivered (mo_id row) None "failed" ;;
  forget key ;;
  let! _ignored := catch (emit_delivery_failure_error_card row reason) in
  ret tt.

(** Kinds a central dead letter is written for. *)
Definition replayable (k : MessageKind) : bool :=
  match k with Chat | Task | Webhook | System | Agent | Card => true | _ => false end.

Definition dead_letter (sess : Session) (row : MessageOutRow) (channel_type platform_id thread_id : option string)
    (last_error : string) : M unit :=
  fun w =>
    let req := mkInsertDropped (s_id sess) (s_agent_group_id sess) (mo_id row)
                 channel_type platform_id thread_id (mo_kind row) (mo_content row) last_error in
    match dropped_insert (w_dropped w) (w_fresh w) (w_wall w) req with
    | Ok t => (Ok tt, bump_fresh (set_dropped t w))
    | Err e => (Err (EDb e), bump_fresh w)
    end.

Definition from_routing (routing : option SessionRouting) (f : SessionRouting -> option string)
  : option string := match routing with Some r => f r | None => None end.

Definition no_route_error : string :=
  NO_ROUTE_DROP_REASON ++ ": no dispatch target resolvable (row and session_routing carry no channel + platform pair); replay with `cclaw dropped-messages replay` once the session has routing".
Definition no_adapter_error (ct : string) : string :=
  NO_ADAPTER_DROP_REASON ++ ": no live adapter for channel '" ++ ct ++ "' for over 24h; replay with `cclaw dropped-messages replay` once the channel is configured".

Definition record_no_route (sess : Session) (row : MessageOutRow) (key : uuid * uuid)
    (routing : option SessionRouting) : M unit :=
  (if replayable (mo_kind row) then
     dead_letter sess row
       (or_else (mo_channel_type row) (from_routing routing sr_channel_type))
       (or_else (mo_platform_id row) (from_routing routing sr_platform_id))
       (or_else (mo_thread_id row) (from_routing routing sr_thread_id))
       no_route_error
   else ret tt) ;;
  record_delivered (mo_id row) None "failed" ;;
  forget key.

Definition record_no_adapter_expired (sess : Session) (row : MessageOutRow) (key : uuid * uuid)
    (channel_type : string) (routing : option SessionRouting) : M unit :=
  (if replayable (mo_kind row) then
     dead_letter sess row (Some channel_type)
       (or_else (mo_platform_id row) (from_routing routing sr_platform_id))
       (or_else (mo_thread_id row) (from_routing routing sr_thread_id))
       (no_adapter_error channel_type)
   else ret tt) ;;
  record_delivered (mo_id row) None "failed" ;;
  forget key.

(** ** One pass *)

(** The buckets of the report; [Waiting] is a row deferred because its
    channel has no live adapter. *)
Inductive bucket : Type := Delivered_ | FailedRow | Deferred_ | Waiting | Skipped.

(** Claiming the in-flight slot; a claim older than the ceiling is stale. *)
Definition claim (key : uuid * uuid) (now : instant) : M bool :=
  fun w =>
    match w_inflight w !! key with
    | Some t =>
        if now - t <? millis ABSOLUTE_CEILING_MS then (Ok false, w)
        else (Ok true, set_inflight <[key := now]> w)
    | None => (Ok true, set_inflight <[key := now]> w)
    end.

Definition release (key : uuid * uuid) : M unit := modify (set_inflight (delete key)).

Section Pass.
Context `{Host}.

(** What is done with the outcome of [process_row]. *)
Definition settle (sess : Session) (row : MessageOutRow) (key : uuid * uuid)
    (routing : option SessionRouting) (reason_of : DeliveryError -> rstr)
    (r : result DeliveryError unit) : M bucket :=
  match r with
  | Ok _ => forget key ;; ret Delivered_
  | Err err =>
      if is_retryable err then
        let! outcome := bump_retry key (retry_after_secs err) in
        match outcome with
        | Defer => ret Deferred_
        | Fail_ => record_exhausted_row row key (reason_of err) ;; ret FailedRow
        end
      else
        match err with
        | ESystemAction _ =>
            record_delivered (mo_id row) None "failed" ;; forget key ;; ret FailedRow
        | ENoAdapter ct =>
            let! now_wall := gets w_wall in
            if no_adapter_expired (mo_timestamp row) now_wall
            then record_no_adapter_expired sess row key ct routing ;; ret FailedRow
            else ret Waiting
        | ENoRoute _ => record_no_route sess row key routing ;; ret FailedRow
        | _ => record_delivered (mo_id row) None "failed" ;; forget key ;; ret FailedRow
        end
  end.

Definition in_backoff (now : instant) (key : uuid * uuid) (w : world) : bool :=
  match w_retries w !! key with Some r => now <? rs_not_before r | None => false end.
Definition exhausted (key : uuid * uuid) (w : world) : bool :=
  match w_retries w !! key with Some r => MAX_DELIVERY_ATTEMPTS <=? rs_tries r | None => false end.

Definition process_one (sess : Session) (routing : option SessionRouting)
    (delivered_ids : list uuid) (now : instant) (reason_of : DeliveryError -> rstr)
    (row : MessageOutRow) : M bucket :=
  if existsb (Z.eqb (mo_id row)) delivered_ids then ret Skipped
  else
    let key := (s_id sess, mo_id row) in
    let! waiting := gets (in_backoff now key) in
    if waiting then ret Deferred_
    else
      let! claimed := claim key now in
      if negb claimed then ret Skipped
      else
        let! spent := gets (exhausted key) in
        if spent then
          release key ;;
          record_exhausted_row row key (lit "retry budget exhausted before a host restart") ;;
          ret FailedRow
        else
          let! r := catch (process_row sess row routing) in
          release key ;;
          settle sess row key routing reason_of r.

Definition tally (r : DeliveryReport) (b : bucket) : DeliveryReport :=
  match b with
  | Delivered_ => mkReport (S (delivered r)) (failed r) (deferred r)
  | FailedRow => mkReport (delivered r) (S (failed r)) (deferred r)
  | Deferred_ | Waiting => mkReport (delivered r) (failed r) (S (deferred r))
  | Skipped => r
  end.

Fixpoint process_rows (sess : Session) (routing : option SessionRouting)
    (delivered_ids : list uuid) (now : instant) (reason_of : DeliveryError -> rstr)
    (rows : list MessageOutRow) (report : DeliveryReport) (no_adapter_pending : nat)
  : M (DeliveryReport * nat) :=
  match rows with
  | [] => ret (report, no_adapter_pending)
  | row :: rest =>
      let! b := process_one sess routing delivered_ids now reason_of row in
      process_rows sess routing delivered_ids now reason_of rest (tally report b)
        (match b with Waiting => S no_adapter_pending | _ => no_adapter_pending end)
  end.

(** The external tool-call relay at the end of the pass is best-effort, works
    on other tables and is not part of this model. *)
Definition process_session_once (reason_of : DeliveryError -> rstr) (sess : Session)
  : M DeliveryReport :=
  let! rows := gets (fun w => list_due (w_out w) (w_wall w)) in
  let! delivered_ids := gets (fun w => get_delivered_ids (w_delivered w)) in
  let! routing := gets (fun w => routing_read (w_routing w)) in
  prime_retry_cache (s_id sess) delivered_ids ;;
  let! now := gets w_mono in
  let! '(report, no_adapter_pending) :=
    process_rows sess routing delivered_ids now reason_of rows (mkReport 0 0 0) 0 in
  modify (set_backlog (if (0 <? no_adapter_pending)%nat
                       then <[s_id sess := no_adapter_pending]>
                       else delete (s_id sess))) ;;
  ret report.
End Pass.

(** ** The invariant of the service around one session *)

Definition key_tries (s : uuid) (w : world) (id : uuid) : Z := tries_of (w_retries w !! (s, id)).
Definition row_ids (w : world) : list uuid := map or_id (w_out w).

(** The persisted counters stay within the budget; once the cache is primed
    it agrees with them on every row without a delivery record; no claim is
    held between rows; dead letters are of the kinds that can be read back. *)
Record inv (s : uuid) (w : world) : Prop := {
  iv_out : out_wf (w_out w);
  iv_tries : Forall (fun r => 0 <= or_tries r <= MAX_DELIVERY_ATTEMPTS) (w_out w);
  iv_nonneg : forall id, 0 <= key_tries s w id;
  iv_known : forall id, 0 < key_tries s w id -> In id (row_ids w);
  iv_unprimed : s ∉ w_primed w -> forall id, w_retries w !! (s, id) = None;
  iv_primed : s ∈ w_primed w -> forall r, In r (w_out w) -> ~ recorded (or_id r) w ->
                key_tries s w (or_id r) = or_tries r;
  iv_quiet : forall id, w_inflight w !! (s, id) = None;
  iv_dropped : Forall (fun d => dm_id d < w_fresh w
                                /\ replayable_kind (od_kind (dm_req d)) = true) (w_dropped w);
}.

(** The host dies: its tables stay, its maps are lost. *)
Definition restart (w : world) : world :=
  mkWorld (w_out w) (w_delivered w) (w_routing w) (w_dropped w) ∅ ∅ ∅ ∅ ∅ ∅ (w_log w)
    (w_mono w) (w_wall w) (w_fresh w).

Definition tick (d : Z) (w : world) : world :=
  mkWorld (w_out w) (w_delivered w) (w_routing w) (w_dropped w) (w_retries w) (w_inflight w)
    (w_primed w) (w_backlog w) (w_anchors w) (w_edit_splits w) (w_log w) (w_mono w + d) (w_wall w + d) (w_fresh w).

(** The history of one session: the container writes rows, the host runs
    passes (with whatever adapters are registered at the time), restarts, or
    dies right after counting a failed attempt of a row it was working on. *)
Inductive step (s : uuid) : world -> world -> Prop :=
| step_write w msg seq t :
    out_insert (w_out w) msg = Ok (seq, t) -> step s w (set_out (fun _ => t) w)
| step_pass (Hh : Host) (Hl : HostLaws) w sess reason_of r w' :
    s_id sess = s -> process_session_once reason_of sess w = (r, w') -> step s w w'
| step_restart w : step s w (restart w)
| step_crash w id hint :
    s ∈ w_primed w -> In id (row_ids w) -> exhausted (s, id) w = false ->
    step s w (restart (snd (bump_retry (s, id) hint w)))
| step_tick w d : 0 <= d -> step s w (tick d w).

Definition initial (fresh mono wall : Z) : world :=
  mkWorld [] [] None [] ∅ ∅ ∅ ∅ ∅ ∅ [] mono wall fresh.

(** * Lemmas *)

Lemma recorded_insert id id' pid st now w :
  recorded id w ->
  recorded id (set_delivered (fun t => snd (delivered_insert t id' pid st now)) w).
Proof.
  unfold recorded. cbn. unfold delivered_insert. destruct (existsb (delivered_has id') _); cbn; [done|].
  intros Hr. by rewrite existsb_app, Hr.
Qed.

Lemma recorded_frame s id id' w w' : frame s id w w' -> recorded id' w -> recorded id' w'.
Proof.
  intros [] Hr. destruct fr_delivered as (l & E & _). unfold recorded in *.
  by rewrite E, existsb_app, Hr.
Qed.

(** Changes that keep the invariant: a dispatch, a delivery record, dropping
    the entry of a recorded row, counting an attempt, a new outbound row. *)
Section InvLemmas.
Context (s : uuid).

Lemma key_tries_frame id w w' id' : frame s id w w' -> key_tries s w' id' = key_tries s w id'.
Proof.
  intros []. unfold key_tries. destruct (decide (id' = id)) as [-> | Hne].
  - by apply budget_kept_tries.
  - by rewrite fr_other by congruence.
Qed.

Lemma inv_frame id w w' :
  inv s w -> s ∈ w_primed w -> frame s id w w' -> inv s w'.
Proof.
  intros [] Hp Hf. pose proof (key_tries_frame id w w' : forall id', _) as Hk.
  destruct Hf as [Eo Er Ed Ei Ep Eb Ef Eother Ekey Edel Et] eqn:HF. constructor.
  - by rewrite Eo.
  - by rewrite Eo.
  - intros id'. by rewrite Hk.
  - intros id'. unfold row_ids. rewrite Eo, Hk by done. apply iv_known0.
  - rewrite Ep. done.
  - intros _ r Hr Hrec. rewrite Eo in Hr. rewrite Hk by done. apply iv_primed0; [done | done |].
    intros Hrec'. apply Hrec. by eapply recorded_frame.
  - intros id'. by rewrite Ei.
  - by rewrite Ed, Ef.
Qed.

Lemma inv_delivered f w :
  inv s w -> (forall id, recorded id w -> recorded id (set_delivered f w)) ->
  inv s (set_delivered f w).
Proof.
  intros [] Hmono. constructor; try done.
  intros Hp r Hr Hrec. apply iv_primed0; [done | done |]. intros Hrec'. by apply Hrec, Hmono.
Qed.

Lemma inv_forget id w :
  inv s w -> recorded id w -> inv s (set_retries (delete (s, id)) w).
Proof.
  intros [] Hrec.
  assert (forall id', id' <> id -> key_tries s (set_retries (delete (s, id)) w) id' = key_tries s w id') as Hne.
  { intros id' Hn. unfold key_tries. cbn. by rewrite lookup_delete_ne by congruence. }
  assert (key_tries s (set_retries (delete (s, id)) w) id = 0) as H0.
  { unfold key_tries. cbn. by rewrite lookup_delete_eq. }
  constructor; try done.
  - intros id'. destruct (decide (id' = id)) as [-> | Hn]; [rewrite H0; lia | by rewrite Hne].
  - intros id'. destruct (decide (id' = id)) as [-> | Hn]; [rewrite H0; lia | rewrite Hne by done; apply iv_known0].
  - intros Hp id'. cbn. apply iv_unprimed0 with (id := id') in Hp.
    destruct (decide (id' = id)) as [-> | Hn]; [by rewrite lookup_delete_eq | by rewrite lookup_delete_ne by congruence].
  - intros Hp r Hr Hn. cbn in *. destruct (decide (or_id r = id)) as [E | Hne']; [by rewrite E in Hn|].
    rewrite Hne by done. by apply iv_primed0.
Qed.

Lemma set_retry_state_In t id n nb r :
  In r (set_retry_state t id n nb) ->
  exists r0, In r0 t /\ or_row r = or_row r0
    /\ or_tries r = (if out_has_id id r0 then n else or_tries r0).
Proof.
  unfold set_retry_state. cbn. intros Hr. apply in_map_iff in Hr as (r0 & <- & Hr0).
  exists r0. split; [done|]. by destruct (out_has_id id r0).
Qed.

Lemma row_ids_retry t id n nb : map or_id (set_retry_state t id n nb) = map or_id t.
Proof.
  pose proof (set_retry_state_rows t id n nb) as E. apply (f_equal (map mo_id)) in E.
  by rewrite !map_map in E.
Qed.

(** The counted state: entry and column hold the same new count. *)
Definition counted (id : uuid) (n : Z) (w w' : world) : Prop :=
  exists e nb, rs_tries e = n
    /\ w' = set_out (fun t => set_retry_state t id n nb) (set_retries <[(s, id) := e]> w).

Lemma counted_keeps id n w w' :
  counted id n w w' ->
  row_ids w' = row_ids w /\ w_primed w' = w_primed w /\ w_delivered w' = w_delivered w.
Proof.
  intros (e & nb & _ & ->). split; [|done]. unfold row_ids. apply row_ids_retry.
Qed.

Lemma bump_retry_counted id hint w :
  exists o w', bump_retry (s, id) hint w = (Ok o, w')
    /\ counted id (key_tries s w id + 1) w w'
    /\ (o = Fail_ <-> MAX_DELIVERY_ATTEMPTS <= key_tries s w id + 1).
Proof.
  unfold bump_retry, counted, key_tries.
  assert (rs_tries (default (blank_retry (w_mono w)) (w_retries w !! (s, id)))
          = tries_of (w_retries w !! (s, id))) as ->
    by (by destruct (w_retries w !! (s, id))).
  destruct (Z.leb_spec MAX_DELIVERY_ATTEMPTS (tries_of (w_retries w !! (s, id)) + 1));
    do 2 eexists; (split; [done|]); (split; [do 2 eexists; split; [|done]; done | split; [done || lia | done || lia]]).
Qed.

Lemma inv_counted id n w w' :
  inv s w -> In id (row_ids w) -> 0 <= n <= MAX_DELIVERY_ATTEMPTS -> s ∈ w_primed w ->
  counted id n w w' -> inv s w'.
Proof.
  intros [] Hid Hn Hp (e & nb & He & ->).
  set (w' := set_out _ _).
  assert (key_tries s w' id = n) as Hk by (unfold key_tries; cbn; by rewrite lookup_insert_eq).
  assert (forall id', id' <> id -> key_tries s w' id' = key_tries s w id') as Hne.
  { intros id' Hd. unfold key_tries. cbn. by rewrite lookup_insert_ne by congruence. }
  assert (row_ids w' = row_ids w) as Hids by (unfold row_ids; apply row_ids_retry).
  constructor; try done.
  - by apply set_retry_state_wf.
  - apply List.Forall_forall. intros r Hr. apply set_retry_state_In in Hr as (r0 & Hr0 & _ & ->).
    rewrite List.Forall_forall in iv_tries0. specialize (iv_tries0 r0 Hr0). case_goal; lia.
  - intros id'. destruct (decide (id' = id)) as [-> | Hd]; [lia | by rewrite Hne].
  - intros id'. rewrite Hids. destruct (decide (id' = id)) as [-> | Hd]; [done|].
    rewrite Hne by done. apply iv_known0.
  - intros _ r Hr Hrec. apply set_retry_state_In in Hr as (r0 & Hr0 & E & ->).
    unfold out_has_id, or_id in *. rewrite E in *.
    destruct (Z.eqb_spec (mo_id (or_row r0)) id) as [Ei | Hd]; [by rewrite Ei|].
    rewrite Hne by done. by apply iv_primed0.
Qed.

Lemma inv_write msg seq t w :
  inv s w -> out_insert (w_out w) msg = Ok (seq, t) -> inv s (set_out (fun _ => t) w).
Proof.
  intros Hinv Hi. pose proof (out_insert_wf _ _ _ _ (iv_out _ _ Hinv) Hi) as Hwf.
  apply out_insert_cases in Hi as [(_ & Hi) | (Hnew & Hi)]; [done | | by apply iv_out with s].
  injection Hi as Hseq Ht. subst seq t. destruct Hinv.
  constructor; try done; cbn.
  - apply List.Forall_app. split; [done|]. repeat constructor; cbn; done.
  - intros id Hid. unfold row_ids. cbn. rewrite map_app. apply in_app_iff. left. by apply iv_known0.
  - intros Hp r Hr Hrec. apply in_app_iff in Hr as [Hr | [<- | []]]; [by apply iv_primed0|].
    cbn. change (key_tries s w (wo_id msg) = 0).
    destruct (Z.lt_trichotomy (key_tries s w (wo_id msg)) 0) as [Hlt | [-> | Hgt]]; [|done|].
    + specialize (iv_nonneg0 (wo_id msg)). lia.
    + apply iv_known0 in Hgt. apply in_map_iff in Hgt as (r0 & E & Hr0).
      apply not_true_iff_false in Hnew. exfalso. apply Hnew, existsb_exists.
      exists r0. split; [done|]. by apply Z.eqb_eq.
Qed.

Lemma inv_fresh w : inv s w -> inv s (bump_fresh w).
Proof.
  intros []. constructor; try done. cbn. eapply Forall_impl; [exact iv_dropped0|].
  cbn. intros d [? ?]. split; [lia | done].
Qed.

Lemma inv_restart w : inv s w -> inv s (restart w).
Proof.
  intros []. by constructor.
Qed.
End InvLemmas.

(** ** Priming the cache *)

Lemma prime_fold_lookup s dids now wall l m id :
  fold_left (prime_step s dids now wall) l m !! (s, id)
  = match m !! (s, id) with
    | Some e => Some e
    | None => if existsb (Z.eqb id) dids then None
              else option_map (primed_entry now wall) (find (fun st => pr_id st =? id) l)
    end.
Proof.
  revert m. induction l as [|st l IH]; intros m; cbn.
  - destruct (m !! (s, id)); [done|]. by destruct (existsb _ _).
  - rewrite IH. unfold prime_step.
    destruct (Z.eqb_spec (pr_id st) id) as [E | Hd].
    + subst id. destruct (existsb _ dids); [done|].
      destruct (m !! (s, pr_id st)) eqn:Em; [by rewrite Em | by rewrite lookup_insert_eq].
    + destruct (existsb (Z.eqb (pr_id st)) dids); [done|].
      destruct (m !! (s, pr_id st)); [done|]. by rewrite lookup_insert_ne by congruence.
Qed.

Lemma MAX_in_u32 n : 0 <= n <= MAX_DELIVERY_ATTEMPTS -> (0 <=? n) && (n <=? u32_max) = true.
Proof. unfold MAX_DELIVERY_ATTEMPTS, u32_max. intros H. apply andb_true_intro. split; lia. Qed.

(** Priming only changes the retry entries and the primed set, and
    establishes the agreement of the cache with the columns. *)
Lemma prime_retry_cache_spec s w :
  inv s w ->
  exists w', prime_retry_cache s (get_delivered_ids (w_delivered w)) w = (Ok tt, w')
    /\ inv s w' /\ s ∈ w_primed w'
    /\ w_out w' = w_out w /\ w_delivered w' = w_delivered w.
Proof.
  intros Hinv. unfold prime_retry_cache. case_bool_decide as Hp; [by exists w|].
  eexists. split; [done|]. split; [|by split; [set_solver | ]].
  destruct Hinv. set (w' := set_primed _ _).
  assert (forall id, w_retries w' !! (s, id)
    = if existsb (delivered_has id) (w_delivered w) then None
      else option_map (primed_entry (w_mono w) (w_wall w))
             (find (fun st => pr_id st =? id) (list_retry_state (w_out w)))) as Hl.
  { intros id. cbn. rewrite prime_fold_lookup, iv_unprimed0 by done.
    by rewrite delivered_ids_existsb. }
  assert (forall id, key_tries s w' id = 0 \/
            (In id (row_ids w) /\ 0 <= key_tries s w' id)) as Hk.
  { intros id. unfold key_tries. rewrite Hl. destruct (existsb _ _); [by left|].
    destruct (find _ _) as [st|] eqn:E; [right | by left].
    apply list_retry_state_known in E as [? ?]. by cbn. }
  constructor; try done.
  - intros id. destruct (Hk id) as [-> | [_ ?]]; lia.
  - intros id Hid. destruct (Hk id) as [E | [? _]]; [lia | done].
  - intros Hn. exfalso. apply Hn. set_solver.
  - intros _ r Hr Hrec. unfold key_tries. rewrite Hl.
    change (w_delivered w') with (w_delivered w) in *.
    unfold recorded in Hrec. apply not_true_iff_false in Hrec.
    change (w_delivered w') with (w_delivered w) in Hrec. rewrite Hrec.
    rewrite (list_retry_state_find _ r (num_ids _ _ _ _ iv_out0)) by done.
    rewrite List.Forall_forall in iv_tries0. specialize (iv_tries0 r Hr).
    unfold has_retry_state. destruct (Z.ltb_spec 0 (or_tries r)); cbn.
    + by rewrite MAX_in_u32.
    + destruct (or_not_before r); cbn; [by rewrite MAX_in_u32 | lia].
Qed.

(** ** One row *)

(** The state between the rows of a pass. *)
Definition ready (s : uuid) (ids : list uuid) (w : world) : Prop :=
  inv s w /\ s ∈ w_primed w /\ incl ids (row_ids w).

Section RowLemmas.
Context (s : uuid) (ids : list uuid).

Lemma ready_frame id w w' : ready s ids w -> frame s id w w' -> ready s ids w'.
Proof.
  intros (Hi & Hp & Hids) Hf. split; [by eapply inv_frame|].
  destruct Hf. split; [by rewrite fr_primed|]. unfold row_ids. by rewrite fr_out.
Qed.

Lemma achieves_record id pid st :
  achieves (ready s ids) (record_delivered id pid st) (fun _ w => ready s ids w /\ recorded id w).
Proof.
  intros w (Hi & Hp & Hids). exists tt. eexists. split; [done|]. split; [split; [|done]|].
  - apply inv_delivered; [done|]. intros id0. apply recorded_insert.
  - apply delivered_insert_has.
Qed.

Lemma achieves_forget id :
  achieves (fun w => ready s ids w /\ recorded id w) (forget (s, id)) (fun _ w => ready s ids w).
Proof.
  intros w ((Hi & Hp & Hids) & Hr). exists tt. eexists. split; [done|].
  split; [by apply inv_forget | done].
Qed.

Lemma achieves_emit row reason :
  achieves (ready s ids) (catch (emit_delivery_failure_error_card row reason))
    (fun _ w => ready s ids w).
Proof.
  intros w Hw. unfold catch, emit_delivery_failure_error_card, ret.
  destruct (mo_channel_type row) as [ct|]; [|by do 2 eexists].
  destruct (mo_platform_id row) as [pid|]; [|by do 2 eexists].
  cbv zeta. destruct Hw as (Hi & Hp & Hids).
  destruct (out_insert (w_out w) _) as [[seq t]|e] eqn:E; do 2 eexists; split; try done.
  - split; [by apply inv_fresh, (inv_write s _ _ _ _ Hi E)|]. split; [done|].
    apply out_insert_cases in E as [(_ & E) | (_ & E)]; [done | | by apply Hi].
    injection E as _ ->. unfold row_ids in *. cbn. rewrite map_app. by apply incl_appl.
  - split; [by apply inv_fresh | done].
Qed.

Lemma achieves_exhausted row reason :
  achieves (ready s ids) (record_exhausted_row row (s, mo_id row) reason) (fun _ w => ready s ids w).
Proof.
  unfold record_exhausted_row.
  eapply achieves_bind; [apply achieves_record|].
  intros ?. eapply achieves_bind; [apply achieves_forget|]. intros ?.
  eapply achieves_bind; [apply achieves_emit|]. intros ?. by apply achieves_ret.
Qed.

Lemma achieves_dead_letter sess row ct pid th err :
  achieves (fun w => ready s ids w /\ replayable (mo_kind row) = true)
    (dead_letter sess row ct pid th err) (fun _ w => ready s ids w).
Proof.
  intros w ((Hi & Hp & Hids) & Hk). unfold dead_letter, dropped_insert.
  destruct (existsb _ (w_dropped w)) eqn:E.
  - exfalso. apply existsb_exists in E as (d & Hd & E). apply Z.eqb_eq in E.
    pose proof (iv_dropped s w Hi) as Hdr. rewrite List.Forall_forall in Hdr.
    destruct (Hdr d Hd). lia.
  - do 2 eexists. split; [done|]. split; [|done]. destruct Hi. constructor; try done. cbn.
    apply List.Forall_app. split; [|].
    + eapply Forall_impl; [exact iv_dropped0|]. cbn. intros d [? ?]. split; [lia | done].
    + constructor; [|constructor]. cbn. split; [lia|]. by destruct (mo_kind row).
Qed.

(** A dead letter for the replayable kinds, then the terminal record. *)
Lemma achieves_terminal sess row ct pid th err :
  achieves (ready s ids)
    ((if replayable (mo_kind row) then dead_letter sess row ct pid th err else ret tt) ;;
     record_delivered (mo_id row) None "failed" ;; forget (s, mo_id row))
    (fun _ w => ready s ids w).
Proof.
  eapply achieves_bind.
  - instantiate (1 := fun _ w => ready s ids w). destruct (replayable (mo_kind row)) eqn:E.
    + eapply achieves_pre; [|apply achieves_dead_letter]. by split.
    + by apply achieves_ret.
  - intros ?. eapply achieves_bind; [apply achieves_record | intros ?; apply achieves_forget].
Qed.

Lemma achieves_fail_record row :
  achieves (ready s ids) (record_delivered (mo_id row) None "failed" ;; forget (s, mo_id row) ;; ret FailedRow)
    (fun b w => ready s ids w /\ b <> Skipped).
Proof.
  eapply achieves_bind; [apply achieves_record|].
  intros ?. eapply achieves_bind; [apply achieves_forget|]. intros ?. by apply achieves_ret.
Qed.

End RowLemmas.

Section PassLemmas.
Context `{HL : HostLaws} (s : uuid) (ids : list uuid).

Lemma achieves_settle sess row routing reason_of r :
  achieves (fun w => ready s ids w /\ In (mo_id row) ids
                   /\ key_tries s w (mo_id row) < MAX_DELIVERY_ATTEMPTS
                   /\ (r = Ok tt -> recorded (mo_id row) w))
    (settle sess row (s, mo_id row) routing reason_of r)
    (fun b w => ready s ids w /\ b <> Skipped).
Proof.
  intros w (Hw & Hid & Ht & Hrec). unfold settle. destruct r as [[]|err].
  { eapply achieves_bind; [apply achieves_forget | intros ?; by apply achieves_ret|].
    split; [done | by apply Hrec]. }
  destruct (is_retryable err) eqn:Eret.
  - destruct (bump_retry_counted s (mo_id row) (retry_after_secs err) w) as (o & w1 & E & Hc & _).
    assert (ready s ids w1) as Hw1.
    { destruct Hw as (Hi & Hp & Hids).
      pose proof (iv_nonneg s w Hi (mo_id row)).
      split; [eapply inv_counted; [done | by apply Hids | | done | exact Hc]; lia|].
      apply counted_keeps in Hc as (-> & -> & _). by split. }
    unfold mbind at 1. rewrite E. destruct o; [by do 2 eexists|].
    eapply achieves_bind; [apply achieves_exhausted | intros ?; by apply achieves_ret | done].
  - destruct err as [e|e|ct|sid|m]; try (by eapply achieves_fail_record).
    + unfold mbind at 1. cbn [gets]. destruct (no_adapter_expired _ _); [|by do 2 eexists].
      unfold record_no_adapter_expired.
      eapply achieves_bind; [apply achieves_terminal | intros ?; by apply achieves_ret | done].
    + unfold record_no_route.
      eapply achieves_bind; [apply achieves_terminal | intros ?; by apply achieves_ret | done].
Qed.

(** Claim, dispatch and release: the claim leaves no trace. *)
Lemma claimed_frame id now w w' :
  inv s w ->
  frame s id (set_inflight <[(s, id) := now]> w) w' ->
  frame s id w (set_inflight (delete (s, id)) w').
Proof.
  intros Hi []. constructor; try done; cbn.
  rewrite fr_inflight. cbn. rewrite delete_insert_id; [done | apply Hi].
Qed.

Lemma process_one_spec sess routing dids now reason_of row :
  s_id sess = s -> In (mo_id row) ids ->
  achieves (ready s ids) (process_one sess routing dids now reason_of row)
    (fun b w => ready s ids w /\ (b = Skipped <-> existsb (Z.eqb (mo_id row)) dids = true)).
Proof.
  intros Hs Hid w Hw. unfold process_one. rewrite Hs.
  destruct (existsb (Z.eqb (mo_id row)) dids) eqn:Ed; [by do 2 eexists|].
  unfold mbind at 1. cbn [gets].
  destruct (in_backoff now (s, mo_id row) w); [do 2 eexists; split; [done|]; by split|].
  unfold mbind at 1, claim. rewrite (iv_quiet s w (proj1 Hw)). cbn [negb].
  unfold mbind at 1. cbn [gets].
  set (w1 := set_inflight <[(s, mo_id row) := now]> w).
  destruct (exhausted (s, mo_id row) w1) eqn:Ee.
  - assert (ready s ids (set_inflight (delete (s, mo_id row)) w1)) as Hw2.
    { eapply ready_frame; [exact Hw|]. apply claimed_frame with now; [apply Hw | apply frame_refl]. }
    unfold release, modify, mbind at 1.
    destruct (achieves_exhausted s ids row (lit "retry budget exhausted before a host restart") _ Hw2)
      as (u & w3 & E & Hw3).
    unfold mbind. rewrite E. by do 2 eexists.
  - unfold mbind at 1, catch.
    pose proof (process_row_framed sess row routing w1) as Hf.
    pose proof (process_row_records sess row routing w1) as Hr.
    destruct (process_row sess row routing w1) as [r w2]. cbn [snd] in Hf. rewrite Hs in Hf.
    pose proof (claimed_frame _ _ _ _ (proj1 Hw) Hf) as Hf3.
    unfold release, modify, mbind at 1.
    destruct (achieves_settle sess row routing reason_of r (set_inflight (delete (s, mo_id row)) w2))
      as (b & w4 & E & Hw4 & Hb).
    + split; [by eapply ready_frame|]. split; [done|]. split.
      * rewrite (key_tries_frame s (mo_id row) w _ (mo_id row) Hf3).
        unfold exhausted in Ee. change (w_retries w1) with (w_retries w) in Ee.
        unfold key_tries. destruct (w_retries w !! (s, mo_id row)); cbn; [bool_to_prop; lia | done].
      * intros ->. by apply (Hr w2).
    + rewrite E. do 2 eexists. split; [done|]. by split.
Qed.

(** The rows a pass considers. *)
Definition unsent (dids : list uuid) (rows : list MessageOutRow) : list MessageOutRow :=
  List.filter (fun row => negb (existsb (Z.eqb (mo_id row)) dids)) rows.

Lemma process_rows_spec sess routing dids now reason_of rows rep n :
  s_id sess = s -> incl (map mo_id rows) ids ->
  achieves (ready s ids) (process_rows sess routing dids now reason_of rows rep n)
    (fun rn w => ready s ids w
       /\ total (fst rn) = (total rep + length (unsent dids rows))%nat).
Proof.
  intros Hs. revert rep n. induction rows as [|row rows IH]; intros rep n Hids.
  - apply achieves_ret. intros w Hw. cbn. split; [done | lia].
  - cbn [process_rows]. eapply achieves_bind; [apply process_one_spec; [done | apply Hids; by left]|].
    intros b. intros w [Hw Hb].
    destruct (IH (tally rep b) (match b with Waiting => S n | _ => n end)
                ltac:(intros x Hx; apply Hids; by right) w Hw) as ([rep' n'] & w' & E & Hw' & Ht).
    do 2 eexists. split; [exact E|]. split; [done|]. rewrite Ht. unfold unsent. cbn [List.filter].
    destruct (existsb (Z.eqb (mo_id row)) dids) eqn:Ed; cbn [negb].
    + by rewrite (proj2 Hb eq_refl).
    + assert (b <> Skipped) by (intros ->; by discriminate (proj1 Hb eq_refl)).
      destruct b; unfold total; cbn [tally delivered failed deferred length]; done || lia.
Qed.
End PassLemmas.

(** A pass always completes, accounts every row in one bucket, and keeps the
    invariant. *)
Lemma process_session_once_spec `{HL : HostLaws} sess reason_of w :
  inv (s_id sess) w ->
  exists rep w', process_session_once reason_of sess w = (Ok rep, w')
    /\ inv (s_id sess) w' /\ s_id sess ∈ w_primed w' /\ incl (row_ids w) (row_ids w')
    /\ total rep = length (unsent (get_delivered_ids (w_delivered w)) (list_due (w_out w) (w_wall w))).
Proof.
  intros Hi. unfold process_session_once, mbind at 1. cbn [gets].
  unfold mbind at 1. cbn [gets]. unfold mbind at 1. cbn [gets].
  destruct (prime_retry_cache_spec (s_id sess) w Hi) as (w1 & E1 & Hi1 & Hp1 & Eo & Ed).
  unfold mbind at 1. rewrite E1. unfold mbind at 1. cbn [gets].
  assert (incl (map mo_id (list_due (w_out w) (w_wall w))) (row_ids w)) as Hids.
  { intros id Hid. apply in_map_iff in Hid as (m & <- & Hm). by eapply list_due_In. }
  assert (ready (s_id sess) (row_ids w) w1) as Hw1.
  { split; [done|]. split; [done|]. unfold row_ids. rewrite Eo. apply incl_refl. }
  destruct (process_rows_spec (s_id sess) (row_ids w) sess (routing_read (w_routing w))
              (get_delivered_ids (w_delivered w)) (w_mono w1) reason_of
              (list_due (w_out w) (w_wall w)) (mkReport 0 0 0) 0 eq_refl Hids w1 Hw1)
    as ([rep n] & w2 & E2 & (Hi2 & Hp2 & Hids2) & Ht).
  unfold mbind at 1. rewrite E2. do 2 eexists. split; [done|].
  split; [by destruct Hi2|]. split; [done|]. split; [done|]. exact Ht.
Qed.

Lemma step_inv s w w' : step s w w' -> inv s w -> inv s w'.
Proof.
  intros [w1 msg seq t Hi | Hh Hl w1 sess reason_of r w2 Hs Hpass | w1 | w1 id hint Hp Hid Hex | w1 d Hd] Hinv.
  - by eapply inv_write.
  - subst s. destruct (process_session_once_spec sess reason_of w1 Hinv) as (rep & w3 & E & Hi & _).
    rewrite E in Hpass. by simplify_eq.
  - by apply inv_restart.
  - apply inv_restart. destruct (bump_retry_counted s id hint w1) as (o & w2 & E & Hc & _).
    rewrite E. cbn. eapply inv_counted; [done | done | | done | exact Hc].
    pose proof (iv_nonneg s w1 Hinv id).
    unfold exhausted in Hex. unfold key_tries in *.
    destruct (w_retries w1 !! (s, id)); cbn in *; [bool_to_prop; lia | unfold MAX_DELIVERY_ATTEMPTS; lia].
  - by destruct Hinv.
Qed.

Lemma initial_inv s fresh mono wall : inv s (initial fresh mono wall).
Proof. constructor; try done. apply numbered_nil. Qed.

Lemma history_inv s fresh mono wall w : rtc (step s) (initial fresh mono wall) w -> inv s w.
Proof.
  intros H. apply (rtc_ind_r (R:=step s) (inv s) (initial fresh mono wall)); [apply initial_inv | | done].
  intros y z _ Hyz Hy. by apply (step_inv s y z).
Qed.

(** ** Delivery records only grow *)

Definition grows (w w' : world) : Prop := exists l, w_delivered w' = w_delivered w ++ l.
Definition growing {A} (m : M A) : Prop := keeps grows m.

Lemma grows_refl w : grows w w.
Proof. exists []. by rewrite app_nil_r. Qed.
Lemma grows_trans w1 w2 w3 : grows w1 w2 -> grows w2 w3 -> grows w1 w3.
Proof. intros (l & E) (l' & E'). exists (l ++ l'). by rewrite E', E, app_assoc. Qed.

#[export] Instance grows_preorder : PreOrder grows.
Proof. split; [intros w; apply grows_refl | intros x y z; apply grows_trans]. Qed.
Lemma growing_bind {A B} (m : M A) (k : A -> M B) :
  growing m -> (forall a, growing (k a)) -> growing (mbind m k).
Proof. apply keeps_bind. Qed.
Lemma growing_ret {A} (a : A) : growing (ret a).
Proof. apply keeps_ret. Qed.
Lemma growing_gets {A} (f : world -> A) : growing (gets f).
Proof. apply keeps_gets. Qed.
Lemma growing_record id pid st : growing (record_delivered id pid st).
Proof.
  intros w. unfold grows. cbn. unfold delivered_insert.
  destruct (existsb (delivered_has id) (w_delivered w)); cbn; [exists []; by rewrite app_nil_r|].
  by eexists.
Qed.
Lemma growing_same {A} (m : M A) :
  (forall w, w_delivered (snd (m w)) = w_delivered w) -> growing m.
Proof. intros H w. exists []. by rewrite H, app_nil_r. Qed.
Lemma growing_framed {A} s id (m : M A) : framed s id m -> growing m.
Proof. intros H w. destruct (fr_delivered _ _ _ _ (H w)) as (l & E & _). by exists l. Qed.
Lemma growing_catch {A} (m : M A) : growing m -> growing (catch m).
Proof. apply keeps_catch. Qed.
Lemma growing_forget k : growing (forget k).
Proof. by apply growing_same. Qed.
Lemma growing_release k : growing (release k).
Proof. by apply growing_same. Qed.
Lemma growing_claim k now : growing (claim k now).
Proof. apply growing_same. intros w. unfold claim. repeat case_goal; done. Qed.
Lemma growing_bump k h : growing (bump_retry k h).
Proof. apply growing_same. intros w. unfold bump_retry. case_goal; done. Qed.
Lemma growing_prime s dids : growing (prime_retry_cache s dids).
Proof. apply growing_same. intros w. unfold prime_retry_cache. case_goal; done. Qed.
Lemma growing_emit row r : growing (catch (emit_delivery_failure_error_card row r)).
Proof.
  apply growing_catch, growing_same. intros w. unfold emit_delivery_failure_error_card.
  repeat case_goal; done.
Qed.
Lemma growing_dead_letter sess row c p t e : growing (dead_letter sess row c p t e).
Proof. apply growing_same. intros w. unfold dead_letter. case_goal; done. Qed.

#[export] Hint Resolve growing_bind growing_ret growing_gets growing_record growing_forget
  growing_release growing_claim growing_bump growing_prime growing_emit growing_dead_letter
  growing_catch : framed.

Lemma growing_exhausted row k r : growing (record_exhausted_row row k r).
Proof. unfold record_exhausted_row. auto 7 with framed. Qed.
#[export] Hint Resolve growing_exhausted : framed.

Section Growing.
Context `{HL : HostLaws}.

Lemma growing_settle sess row k routing reason r : growing (settle sess row k routing reason r).
Proof.
  unfold settle, record_no_route, record_no_adapter_expired.
  destruct r as [u|err]; [auto with framed|]. destruct (is_retryable err).
  - apply growing_bind; [auto with framed|]. intros [|]; auto with framed.
  - destruct err; auto with framed.
    + apply growing_bind; [auto with framed|]. intros now. destruct (no_adapter_expired _ _); [|auto with framed].
      apply growing_bind; [|auto with framed]. apply growing_bind; [case_goal|]; auto with framed.
    + apply growing_bind; [|auto with framed]. apply growing_bind; [case_goal|]; auto with framed.
Qed.

Lemma growing_process_one sess routing dids now reason row :
  growing (process_one sess routing dids now reason row).
Proof.
  unfold process_one. destruct (existsb _ _); [auto with framed|].
  apply growing_bind; [auto with framed|]. intros [|]; [auto with framed|].
  apply growing_bind; [auto with framed|]. intros [|]; cbn [negb]; [|auto with framed].
  apply growing_bind; [auto with framed|]. intros [|]; [auto with framed|].
  apply growing_bind; [apply growing_catch; eapply growing_framed, process_row_framed|].
  intros r. apply growing_bind; [auto with framed|]. intros ?. apply growing_settle.
Qed.

Lemma growing_rows sess routing dids now reason rows rep n :
  growing (process_rows sess routing dids now reason rows rep n).
Proof.
  revert rep n. induction rows as [|row rows IH]; intros rep n; cbn; [auto with framed|].
  apply growing_bind; [apply growing_process_one | intros b; apply IH].
Qed.

Lemma growing_pass sess reason : growing (process_session_once reason sess).
Proof.
  unfold process_session_once. do 5 (apply growing_bind; [auto with framed|]; intros ?).
  apply growing_bind; [apply growing_rows|]. intros [rep n].
  apply growing_bind; [by apply growing_same | auto with framed].
Qed.
End Growing.

Lemma step_grows s w w' : step s w w' -> grows w w'.
Proof.
  intros [w1 msg seq t Hi | Hh Hl w1 sess reason_of r w2 Hs Hpass | w1 | w1 id hint Hp Hid Hex | w1 d Hd];
    try (exists []; by rewrite app_nil_r).
  - pose proof (growing_pass sess reason_of w1) as Hg. by rewrite Hpass in Hg.
  - pose proof (growing_bump (s, id) hint w1) as (l & E). exists l. exact E.
Qed.

Lemma grows_find w w' id d :
  grows w w' -> find (delivered_has id) (w_delivered w) = Some d ->
  find (delivered_has id) (w_delivered w') = Some d.
Proof. intros (l & ->) E. by rewrite find_app, E. Qed.

(** ** Chunk progress *)

Definition progress (w : world) (key : uuid * uuid) : Z :=
  match w_retries w !! key with Some e => rs_chunks_sent e | None => 0 end.

Section Chunks.
Context `{Host} (ct : string) (a : Adapter) (pid : string) (thread : option string)
  (kind : MessageKind) (s id : uuid).

(** The chunks of a list are accepted by the channel one after the other,
    from index [i] on, the progress being noted after each. *)
Inductive accepted : Z -> option string -> list json -> world -> world -> option string -> Prop :=
| accepted_nil i first w : accepted i first [] w w first
| accepted_cons i first p ps w w1 w2 o last :
    call_adapter ct a pid thread (mkOutbound kind p []) w = (Ok o, w1) ->
    accepted (i + 1) (if i =? 0 then o else first) ps
      (note_chunk (s, id) i (if i =? 0 then o else first) w1) w2 last ->
    accepted i first (p :: ps) w w2 last.

Lemma call_adapter_progress p w : progress (snd (call_adapter ct a pid thread p w)) (s, id) = progress w (s, id).
Proof.
  unfold progress. rewrite (fr_other s (id + 1) w _ (call_adapter_framed s (id + 1) ct a pid thread p w)); [done|].
  intros E. injection E. lia.
Qed.

Lemma note_chunk_progress i first w :
  0 <= i < u32_max -> progress (note_chunk (s, id) i first w) (s, id) = i + 1.
Proof. intros Hi. unfold progress. cbn. rewrite lookup_insert_eq. cbn. lia. Qed.

(** The loop accepts a prefix of the chunks; it ends with all of them, or at
    the first one the channel rejects, with the progress at its index. *)
Lemma send_chunks_run total i first parts w r w' :
  (1 < total)%nat -> 0 <= i -> i + zlen parts < u32_max ->
  send_chunks ct a pid thread kind (s, id) total i first parts w = (r, w') ->
  exists sent left w1 last,
    parts = sent ++ left /\ accepted i first sent w w1 last
    /\ (sent <> [] -> progress w1 (s, id) = i + zlen sent)
    /\ match left with
       | [] => r = Ok last /\ w' = w1
       | p :: _ => exists e, call_adapter ct a pid thread (mkOutbound kind p []) w1 = (Err e, w')
                             /\ r = Err e
       end.
Proof.
  intros Ht. revert i first w. induction parts as [|p ps IH]; intros i first w Hi Hb; cbn [send_chunks].
  { intros [= <- <-]. exists [], [], w, first. repeat split; [constructor | done]. }
  unfold mbind at 1. destruct (call_adapter ct a pid thread (mkOutbound kind p []) w) as [[o|e] w1] eqn:E.
  2:{ intros [= <- <-]. exists [], (p :: ps), w, first.
      split; [done|]. split; [constructor|]. split; [done|]. by exists e. }
  destruct (Nat.ltb_spec 1 total); [|lia]. unfold mbind at 1, modify. intros Hrun.
  assert (zlen (p :: ps) = 1 + zlen ps) as Hz by (unfold zlen; cbn [length]; lia).
  pose proof (zlen_nonneg ps).
  destruct (IH (i + 1) _ _ ltac:(lia) ltac:(lia) Hrun) as (sent & left & w2 & last & -> & Ha & Hp & Hl).
  exists (p :: sent), left, w2, last. split; [done|]. split; [by econstructor|]. split; [|done].
  intros _. assert (zlen (p :: sent) = 1 + zlen sent) as Hz' by (unfold zlen; cbn [length]; lia).
  destruct sent as [|q sent']; [|rewrite Hp by done; lia].
  inversion Ha; subst. rewrite note_chunk_progress; [unfold zlen; cbn; lia | lia].
Qed.
End Chunks.

(** The failure card only adds an outbound row, and its failure is ignored. *)
Lemma emit_run row reason w :
  exists r w', catch (emit_delivery_failure_error_card row reason) w = (Ok r, w')
    /\ w_delivered w' = w_delivered w /\ w_retries w' = w_retries w /\ w_log w' = w_log w
    /\ (w_out w' = w_out w \/ exists msg seq, out_insert (w_out w) msg = Ok (seq, w_out w')).
Proof.
  unfold catch, emit_delivery_failure_error_card, ret.
  destruct (mo_channel_type row) as [ct|], (mo_platform_id row) as [pid|];
    try (do 2 eexists; split; [done|]; by auto).
  cbv zeta. destruct (out_insert (w_out w) _) as [[seq t]|e] eqn:E;
    do 2 eexists; (split; [done|]); repeat (split; [done|]); [right | by left].
  cbn. eauto.
Qed.

(** Giving a row up always succeeds: the record, the dropped entry, and at
    most one new outbound row. *)
Lemma exhausted_run row key reason w :
  exists w', record_exhausted_row row key reason w = (Ok tt, w')
    /\ recorded (mo_id row) w' /\ w_retries w' = delete key (w_retries w) /\ w_log w' = w_log w
    /\ (w_out w' = w_out w \/ exists msg seq, out_insert (w_out w) msg = Ok (seq, w_out w')).
Proof.
  unfold record_exhausted_row, mbind. cbn [record_delivered forget modify].
  set (w1 := set_retries (delete key) _).
  destruct (emit_run row reason w1) as (r & w' & E & Hd & Hr & Hl & Ho).
  rewrite E. eexists. split; [done|]. split; [unfold recorded; rewrite Hd; apply delivered_insert_has|].
  by split.
Qed.

Lemma insert_other_row t msg seq t' r :
  out_wf t -> out_insert t msg = Ok (seq, t') -> In r t' ->
  In r t \/ ~ In (or_id r) (map or_id t).
Proof.
  intros Hwf Hi. apply out_insert_cases in Hi as [(_ & Hi) | (Hn & Hi)]; [done | | done].
  injection Hi as _ ->. intros Hr. apply in_app_iff in Hr as [Hr | [<- | []]]; [by left | right].
  cbn. intros Hin. apply in_map_iff in Hin as (r0 & E & Hr0).
  apply not_true_iff_false in Hn. apply Hn, existsb_exists. exists r0. split; [done|]. by apply Z.eqb_eq.
Qed.

(** The window of a deferred row. *)
Lemma bump_deferred key hint w w' :
  bump_retry key hint w = (Ok Defer, w') ->
  option_map rs_not_before (w_retries w' !! key)
  = Some (w_mono w + millis (match hint with
                             | Some h => Z.min (sat_mul u64_max h 1000) ABSOLUTE_CEILING_MS
                             | None => backoff_delay_ms (tries_of (w_retries w !! key) + 1)
                             end)).
Proof.
  unfold bump_retry. case_goal; [done|]. intros [= <-]. cbn. rewrite lookup_insert_eq. cbn.
  do 3 f_equal. destruct hint; [done|]. by destruct (w_retries w !! key).
Qed.

Lemma counted_columns s id n w w' r' :
  counted s id n w w' -> In r' (w_out w') -> or_id r' = id -> or_tries r' = n.
Proof.
  intros (e & nb & _ & ->) Hr' E. cbn [w_out set_out] in Hr'.
  apply set_retry_state_In in Hr' as (r0 & _ & Er & ->).
  unfold out_has_id, or_id in *. rewrite Er in E. by rewrite E, Z.eqb_refl.
Qed.

(** * Properties *)

(** C38. The retry budget survives restarts.  Whatever the history of a
    session (writes, passes under any adapters, restarts, the host dying
    right after counting an attempt), the persisted attempt counter of every
    outbound row stays between zero and three, and once the service has read
    the session its cache agrees with the counter of every row that has no
    delivery record yet.  A row found with a spent budget is recorded as
    failed without any further channel call. *)
Theorem retry_budget_survives_restart s fresh mono wall w :
  rtc (step s) (initial fresh mono wall) w ->
  Forall (fun r => 0 <= or_tries r <= MAX_DELIVERY_ATTEMPTS) (w_out w)
  /\ (s ∈ w_primed w -> forall r, In r (w_out w) -> ~ recorded (or_id r) w ->
        key_tries s w (or_id r) = or_tries r
        /\ forall (Hh : Host) sess routing dids now reason_of,
             s_id sess = s -> or_tries r = MAX_DELIVERY_ATTEMPTS ->
             existsb (Z.eqb (or_id r)) dids = false -> in_backoff now (s, or_id r) w = false ->
             exists w', process_one sess routing dids now reason_of (or_row r) w = (Ok FailedRow, w')
               /\ recorded (or_id r) w' /\ w_log w' = w_log w).
Proof.
  intros Hh. pose proof (history_inv s fresh mono wall w Hh) as Hinv. clear Hh.
  split; [apply Hinv|]. intros Hp r Hr Hrec.
  assert (key_tries s w (or_id r) = or_tries r) as Hk by by apply Hinv.
  split; [done|]. intros Hh sess routing dids now reason_of Hs Hmax Hd Hb.
  unfold or_id in *. unfold process_one, mbind, gets. rewrite Hs, Hd, Hb.
  unfold claim. rewrite (iv_quiet s w Hinv). cbn [negb].
  assert (exhausted (s, mo_id (or_row r)) (set_inflight <[(s, mo_id (or_row r)) := now]> w) = true) as ->.
  { unfold exhausted, key_tries in *. cbn [w_retries set_inflight].
    destruct (w_retries w !! _); cbn in Hk; rewrite Hmax in Hk; [by rewrite Hk | done]. }
  unfold release, modify.
  destruct (exhausted_run (or_row r) (s, mo_id (or_row r))
              (lit "retry budget exhausted before a host restart")
              (set_inflight (delete (s, mo_id (or_row r)))
                 (set_inflight <[(s, mo_id (or_row r)) := now]> w)))
    as (w' & E & Hrec' & _ & Hl & _).
  unfold mbind. rewrite E. by exists w'.
Qed.

(** One failed attempt, counted once: when dispatching a row of an
    agreeing cache fails with a retryable error, the row's counter grows by
    exactly one, in the cache and in its column.  Below the budget the row is
    deferred, the cache holding the rate-limit hint in milliseconds (capped)
    or the backoff delay as the time to wait; at the budget it is recorded as
    failed and its entry dropped. *)
Theorem failed_attempt_counts_once `{HL : HostLaws} sess routing dids now reason_of r w err w2 :
  let s := s_id sess in
  let id := or_id r in
  let n := or_tries r + 1 in
  inv s w -> s ∈ w_primed w -> In r (w_out w) -> ~ recorded id w ->
  or_tries r < MAX_DELIVERY_ATTEMPTS ->
  existsb (Z.eqb id) dids = false -> in_backoff now (s, id) w = false ->
  process_row sess (or_row r) routing (set_inflight <[(s, id) := now]> w) = (Err err, w2) ->
  is_retryable err = true ->
  exists b w', process_one sess routing dids now reason_of (or_row r) w = (Ok b, w')
    /\ (forall r', In r' (w_out w') -> or_id r' = id -> or_tries r' = n)
    /\ if n <? MAX_DELIVERY_ATTEMPTS then
         b = Deferred_ /\ key_tries s w' id = n
         /\ option_map rs_not_before (w_retries w' !! (s, id))
            = Some (w_mono w2 + millis (match retry_after_secs err with
                                        | Some h => Z.min (sat_mul u64_max h 1000) ABSOLUTE_CEILING_MS
                                        | None => backoff_delay_ms n
                                        end))
       else b = FailedRow /\ recorded id w' /\ w_retries w' !! (s, id) = None.
Proof.
  cbv zeta. intros Hinv Hp Hr Hrec Hlt Hd Hb Hrow Hret. unfold or_id in *.
  assert (key_tries (s_id sess) w (mo_id (or_row r)) = or_tries r) as Hk by by apply Hinv.
  unfold process_one, mbind, gets. rewrite Hd, Hb. unfold claim. rewrite (iv_quiet _ w Hinv).
  cbn [negb]. set (w1 := set_inflight _ w) in *.
  assert (exhausted (s_id sess, mo_id (or_row r)) w1 = false) as ->.
  { unfold exhausted, key_tries in *. cbn [w_retries set_inflight w1].
    destruct (w_retries w !! _); cbn in Hk; [rewrite Hk; lia | done]. }
  unfold catch. rewrite Hrow. unfold release, modify, settle. rewrite Hret.
  pose proof (process_row_framed sess (or_row r) routing w1) as Hf. rewrite Hrow in Hf. cbn [snd] in Hf.
  apply (claimed_frame _ _ _ _ _ Hinv) in Hf. set (w3 := set_inflight _ w2) in *.
  pose proof (inv_frame _ _ _ _ Hinv Hp Hf) as Hinv3.
  rewrite <- (key_tries_frame _ _ _ _ (mo_id (or_row r)) Hf) in Hk.
  destruct (bump_retry_counted (s_id sess) (mo_id (or_row r)) (retry_after_secs err) w3)
    as (o & w4 & E & Hc & Ho).
  rewrite Hk in Hc, Ho.
  assert (inv (s_id sess) w4) as Hinv4.
  { pose proof (iv_nonneg _ _ Hinv3 (mo_id (or_row r))) as Hnn. rewrite Hk in Hnn. destruct Hf.
    eapply (inv_counted _ _ (or_tries r + 1) w3); [done | | lia | by rewrite fr_primed | exact Hc].
    unfold row_ids. rewrite fr_out. by apply (in_map or_id). }
  unfold mbind. rewrite E. destruct (Z.ltb_spec (or_tries r + 1) MAX_DELIVERY_ATTEMPTS) as [Hn | Hn].
  - destruct o; [|by apply proj1 in Ho; specialize (Ho eq_refl); lia].
    do 2 eexists. split; [done|]. split; [by intros r'; eapply counted_columns|]. split; [done|].
    split; [by destruct Hc as (e & nb & He & ->); unfold key_tries; cbn; rewrite lookup_insert_eq|].
    rewrite (bump_deferred _ _ _ _ E). change (tries_of _) with (key_tries (s_id sess) w3 (mo_id (or_row r))).
    by rewrite Hk.
  - destruct o; [by apply proj2 in Ho; specialize (Ho Hn)|].
    destruct (exhausted_run (or_row r) (s_id sess, mo_id (or_row r)) (reason_of err) w4)
      as (w5 & E5 & Hrec5 & Hr5 & _ & Ho5).
    rewrite E5. do 2 eexists. split; [done|]. split.
    + intros r' Hr' Hid. destruct Ho5 as [Eo | (msg & seq & Hi)];
        [rewrite Eo in Hr'; by eapply counted_columns|].
      destruct (insert_other_row _ _ _ _ r' (iv_out _ _ Hinv4) Hi Hr') as [Hin | Hnin];
        [by eapply counted_columns|].
      exfalso. apply Hnin. unfold or_id at 1. rewrite Hid.
      apply counted_keeps in Hc as (Hids & _). unfold row_ids in Hids. rewrite Hids.
      destruct Hf. rewrite fr_out. by apply (in_map or_id).
    + split; [done|]. split; [done|]. rewrite Hr5. apply lookup_delete_eq.
Qed.

(** A small host: one channel that accepts short texts and rate-limits the
    rest, asking for seven seconds; control rows and checklists are recorded
    as delivered. *)
Definition demo_adapter : Adapter :=
  mkAdapter (Some 10) None
    (fun log l => match lg_call l with
                  | CDeliver m => match jget_str "text" (om_content m) with
                                  | Some t => if str_contains (lit "!") t then (Err (Rate (Some 7)), 0)
                                              else (Ok (Some "pid"%string), 0)
                                  | None => (Ok None, 0)
                                  end
                  | _ => (Ok None, 0)
                  end)
    (fun _ => None).

Definition demo_host : Host :=
  {| adapters := fun ct => if String.eqb ct "cli" then Some demo_adapter else None;
     parse_payload := fun _ j => inr j; text_fallback := fun _ _ => [];
     collapsible_fallback := fun _ _ _ => []; agent_dispatch := None;
     handle_system := fun _ row _ => record_delivered (mo_id row) None "ok";
     dispatch_todo_list := fun row _ _ => record_delivered (mo_id row) None "ok" |}.

Lemma demo_laws : @HostLaws demo_host.
Proof. constructor; intros; apply framed_record || apply records_record. Qed.

Definition demo_session : Session :=
  mkSession 1 2 None None None SessionStatus.Active Idle 0 0 None.
Definition demo_write (id : Z) (ct text : string) : WriteOutbound :=
  mkWriteOutbound id None 0 None None Chat (Some "room"%string) (Some ct) None
    (JObj [("text"%string, JStr (lit text))]).
Definition written (msgs : list WriteOutbound) (w : world) : world :=
  fold_left (fun w msg => match out_insert (w_out w) msg with
                          | Ok (_, t) => set_out (fun _ => t) w
                          | Err _ => w
                          end) msgs w.
Definition demo_pass (w : world) : world :=
  snd (@process_session_once demo_host (fun _ => []) demo_session w).

(** Two rows, one of which the channel rate-limits, and one pass. *)
Definition demo_start : world := initial 100 0 0.
Definition demo_rows : list WriteOutbound := [demo_write 7 "cli" "hi"; demo_write 8 "cli" "no!"].
Definition demo_after : world := demo_pass (written demo_rows demo_start).

Lemma written_history s msgs w0 w :
  rtc (step s) w0 w -> rtc (step s) w0 (written msgs w).
Proof.
  revert w. induction msgs as [|m ms IH]; intros w Hw; cbn; [done|]. apply IH.
  destruct (out_insert (w_out w) m) as [[seq t]|e] eqn:E; [|done].
  eapply rtc_r; [exact Hw | by eapply step_write].
Qed.

Lemma pass_history w0 w : rtc (step 1) w0 w -> rtc (step 1) w0 (demo_pass w).
Proof.
  intros Hw. eapply rtc_r; [exact Hw|].
  eapply (step_pass 1 demo_host demo_laws w demo_session); [done | apply surjective_pairing].
Qed.

Lemma demo_history : rtc (step 1) demo_start demo_after.
Proof. apply pass_history, written_history. apply rtc_refl. Qed.

Lemma retry_budget_survives_restart_witness :
  map or_tries (w_out demo_after) = [0; 1]
  /\ Forall (fun r => 0 <= or_tries r <= MAX_DELIVERY_ATTEMPTS) (w_out demo_after).
Proof.
  split; [vm_compute; reflexivity|].
  exact (proj1 (retry_budget_survives_restart 1 100 0 0 demo_after demo_history)).
Defined.

Definition demo_row8 : out_row := out_row_of (demo_write 8 "cli" "no!") 3.
Definition primed_start : world := set_primed (fun p => {[1]} ∪ p) (written demo_rows demo_start).

Lemma primed_start_inv : inv 1 primed_start.
Proof.
  assert (inv 1 (written demo_rows demo_start)) as [].
  { apply (history_inv 1 100 0 0), written_history, rtc_refl. }
  constructor; try done.
  intros _ r [<- | [<- | []]] _; reflexivity.
Qed.

Lemma failed_attempt_counts_once_witness :
  exists b w', @process_one demo_host demo_session None [] 0 (fun _ => []) (or_row demo_row8) primed_start
    = (Ok b, w') /\ b = Deferred_ /\ key_tries 1 w' 8 = 1
      /\ option_map rs_not_before (w_retries w' !! (1, 8)) = Some (millis 7000).
Proof.
  destruct (@failed_attempt_counts_once demo_host demo_laws demo_session None [] 0 (fun _ => [])
              demo_row8 primed_start (EAdapter (Rate (Some 7)))
              (snd (@process_row demo_host demo_session (or_row demo_row8) None
                      (set_inflight <[(1, 8) := 0]> primed_start))))
    as (b & w' & E & _ & H).
  - apply primed_start_inv.
  - set_solver.
  - right. left. vm_compute. reflexivity.
  - done.
  - reflexivity.
  - reflexivity.
  - vm_compute. reflexivity.
  - vm_compute. reflexivity.
  - reflexivity.
  - exists b, w'. split; [exact E|]. exact H.
Defined.

(** C40. A pass always completes and accounts for every row once: after any
    history, each due row without a delivery record is counted as delivered,
    failed or deferred, exactly once, and no claim is left behind. *)
Theorem pass_accounts_every_row `{HL : HostLaws} s fresh mono wall w sess reason_of :
  rtc (step s) (initial fresh mono wall) w -> s_id sess = s ->
  exists rep w', process_session_once reason_of sess w = (Ok rep, w')
    /\ total rep = length (List.filter
         (fun row => negb (existsb (Z.eqb (mo_id row)) (get_delivered_ids (w_delivered w))))
         (list_due (w_out w) (w_wall w)))
    /\ forall id, w_inflight w' !! (s, id) = None.
Proof.
  intros Hh <-. apply history_inv in Hh.
  destruct (process_session_once_spec sess reason_of w Hh) as (rep & w' & E & Hi & _ & _ & Ht).
  exists rep, w'. split; [done|]. split; [exact Ht | apply Hi].
Qed.

Lemma pass_accounts_every_row_witness :
  exists rep w', @process_session_once demo_host (fun _ => []) demo_session demo_after = (Ok rep, w')
    /\ total rep = 1%nat.
Proof.
  destruct (@pass_accounts_every_row demo_host demo_laws 1 100 0 0 demo_after demo_session (fun _ => [])
              demo_history eq_refl) as (rep & w' & E & Ht & _).
  exists rep, w'. split; [exact E|]. rewrite Ht. vm_compute. reflexivity.
Defined.

(** A delivery record is final and its row is never processed again:
    once a row is recorded, every later state of the session has the same
    record for it, and a pass that reads the records then skips the row
    without touching anything. *)
Theorem record_is_final s w w' d :
  rtc (step s) w w' -> find (delivered_has (d_message_out_id d)) (w_delivered w) = Some d ->
  find (delivered_has (d_message_out_id d)) (w_delivered w') = Some d
  /\ forall (Hh : Host) sess routing now reason_of row,
       mo_id row = d_message_out_id d ->
       process_one sess routing (get_delivered_ids (w_delivered w')) now reason_of row w' = (Ok Skipped, w').
Proof.
  intros Hh Hd.
  assert (find (delivered_has (d_message_out_id d)) (w_delivered w') = Some d) as Hd'.
  { induction Hh as [w|w1 w2 w3 H12 _ IH]; [done|]. apply IH. by eapply grows_find, Hd; apply step_grows with s. }
  split; [done|]. intros Hhost sess routing now reason_of row E. unfold process_one.
  by rewrite delivered_ids_existsb, E, existsb_find, Hd'.
Qed.

Lemma record_is_final_witness :
  find (delivered_has 7) (w_delivered (demo_pass demo_after)) = Some (mkDelivered 7 (Some "pid"%string) "ok" 0).
Proof.
  apply (record_is_final 1 demo_after (demo_pass demo_after) (mkDelivered 7 (Some "pid"%string) "ok" 0)).
  - apply pass_history, rtc_refl.
  - vm_compute. reflexivity.
Defined.

(** Backoff: the delay after the [n]-th failed attempt is the base
    doubled [n - 1] times until it reaches the ceiling, so it never
    decreases and stays between the base and the ceiling. *)
Theorem backoff_bounds n m :
  1 <= n -> n <= m ->
  backoff_delay_ms n = Z.min (BACKOFF_BASE_MS * 2 ^ (n - 1)) ABSOLUTE_CEILING_MS
  /\ BACKOFF_BASE_MS <= backoff_delay_ms n <= backoff_delay_ms m
  /\ backoff_delay_ms m <= ABSOLUTE_CEILING_MS.
Proof.
  intros Hn Hm.
  assert (forall k, 1 <= k ->
    backoff_delay_ms k = Z.min (BACKOFF_BASE_MS * 2 ^ (k - 1)) ABSOLUTE_CEILING_MS) as E.
  { intros k Hk. unfold backoff_delay_ms, sat_sub, sat_mul, BACKOFF_BASE_MS, ABSOLUTE_CEILING_MS.
    rewrite Z.max_r, Z.shiftl_1_l by lia. destruct (Z.min_spec (k - 1) 31) as [[Hlt ->] | [Hge ->]].
    - pose proof (Z.pow_le_mono_r 2 (k - 1) 31 ltac:(lia) ltac:(lia)). unfold u64_max. lia.
    - pose proof (Z.pow_le_mono_r 2 31 (k - 1) ltac:(lia) ltac:(lia)). unfold u64_max. lia. }
  rewrite !E by lia. split; [done|].
  pose proof (Z.pow_le_mono_r 2 (n - 1) (m - 1) ltac:(lia) ltac:(lia)).
  pose proof (Z.pow_pos_nonneg 2 (n - 1) ltac:(lia) ltac:(lia)).
  unfold BACKOFF_BASE_MS, ABSOLUTE_CEILING_MS. lia.
Qed.

Lemma backoff_bounds_witness :
  backoff_delay_ms 2 = 10000 /\ backoff_delay_ms 2 <= backoff_delay_ms 40.
Proof.
  split; [reflexivity|]. exact (proj2 (proj1 (proj2 (backoff_bounds 2 40 ltac:(lia) ltac:(lia))))).
Defined.

(** The texts of the first chat row, as sent so far. *)
Definition sent_texts (w : world) : list (option rstr) :=
  rev (map (fun l => match lg_call l with CDeliver m => jget_str "text" (om_content m) | _ => None end)
         (w_log w)).

(** C39. A split reply resumes where it stopped: when dispatching a split
    text row fails, the chunks from the noted progress up to some index were
    accepted in order, the channel refused the chunk at that index, and that
    index is the progress noted for the next attempt, which starts with the
    very chunk that was refused. *)
Theorem split_reply_resumes `{Host} s row target ct pid a w e w' :
  let key := (s, mo_id row) in
  let parts := split_chat_content_if_needed (mo_content row)
                 (ad_max_message_chars a) (ad_max_message_bytes a) in
  resolve_adapter target w = (Ok (ct, a, pid), w) ->
  jget "expander" (mo_content row) = None ->
  bool_decide (mo_kind row = Chat) && chat_text_is_empty (mo_content row) = false ->
  (1 < length parts)%nat -> zlen parts < u32_max -> 0 <= progress w key <= zlen parts ->
  dispatch_chat s row target w = (Err e, w') ->
  exists sent refused w1 last,
    accepted ct a pid (dt_thread_id target) (mo_kind row) s (mo_id row)
      (progress w key) (match w_retries w !! key with Some st => rs_first_chunk_pid st | None => None end)
      sent w w1 last
    /\ drop (Z.to_nat (progress w key)) parts
       = sent ++ refused :: drop (Z.to_nat (progress w' key) + 1) parts
    /\ call_adapter ct a pid (dt_thread_id target) (mkOutbound (mo_kind row) refused []) w1 = (Err e, w')
    /\ progress w' key = progress w key + zlen sent
    /\ exists rest, drop (Z.to_nat (progress w' key)) parts = refused :: rest.
Proof.
  cbv zeta. intros Hres Hexp Hempty Hlen Hbig Hk. unfold dispatch_chat, mbind at 1.
  rewrite Hres, Hexp, Hempty. cbv zeta. unfold mbind at 1. cbn [gets].
  set (key := (s, mo_id row)) in *. set (parts := split_chat_content_if_needed _ _ _) in *.
  set (first := match w_retries w !! key with Some st => rs_first_chunk_pid st | None => None end).
  replace (match w_retries w !! key with
           | Some st => (rs_chunks_sent st, rs_first_chunk_pid st) | None => (0, None) end)
    with (progress w key, first) by (unfold progress, first; by destruct (w_retries w !! key)).
  unfold mbind at 1.
  destruct (send_chunks _ _ _ _ _ _ _ _ _ _ _) as [r w2] eqn:E.
  assert (zlen (drop (Z.to_nat (progress w key)) parts) = zlen parts - progress w key) as Hz
    by (unfold zlen in *; rewrite length_drop; lia).
  apply send_chunks_run in E as (sent & left & w1 & last & Ep & Ha & Hp & Hl); [| done | lia | lia].
  destruct left as [|p rest]; [by destruct Hl as [-> _]|].
  destruct Hl as (e' & Ecall & ->). intros [= <- <-].
  pose proof (call_adapter_progress ct a pid (dt_thread_id target) s (mo_id row)
                (mkOutbound (mo_kind row) p []) w1) as Hcp.
  rewrite Ecall in Hcp. cbn [snd] in Hcp. fold key in Hcp, Hp.
  assert (progress w2 key = progress w key + zlen sent) as Hprog.
  { rewrite Hcp. destruct sent; [|by apply Hp]. inversion Ha; subst. unfold zlen. cbn. lia. }
  assert (drop (Z.to_nat (progress w2 key)) parts = p :: rest) as Hd.
  { rewrite Hprog, Z2Nat.inj_add, <- drop_drop, Ep by (unfold zlen; lia).
    rewrite drop_app_ge by (unfold zlen; lia).
    replace (_ - _)%nat with 0%nat by (unfold zlen; lia). done. }
  exists sent, p, w1, last. split; [done|]. split; [|split; [done | split; [done | by exists rest]]].
  rewrite Ep, <- drop_drop, Hd. done.
Qed.

(** A reply of three chunks whose last one is refused. *)
Definition demo_reply : MessageOutRow :=
  or_row (out_row_of (demo_write 9 "cli" "one two. three. fo!r") 5).
Definition demo_target : DispatchTarget := mkTarget (Some "cli"%string) (Some "room"%string) None None.

Lemma split_reply_resumes_witness :
  let w' := snd (@dispatch_chat demo_host 1 demo_reply demo_target demo_start) in
  progress w' (1, 9) = 2
  /\ exists refused rest,
       drop 2 (split_chat_content_if_needed (mo_content demo_reply) (Some 10) None) = refused :: rest.
Proof.
  cbv zeta. split; [vm_compute; reflexivity|].
  destruct (@split_reply_resumes demo_host 1 demo_reply demo_target "cli" "room" demo_adapter demo_start
              (EAdapter (Rate (Some 7)))
              (snd (@dispatch_chat demo_host 1 demo_reply demo_target demo_start)))
    as (sent & refused & w1 & last & _ & _ & _ & _ & rest & E);
    try (vm_compute; reflexivity); try (vm_compute; intuition congruence).
  - vm_compute. lia.
  - exists refused, rest. exact E.
Defined.

(** Dead letters never poison their listing: every row the delivery loop
    puts into the central table is of a kind the table reads back, so
    listing with any filter succeeds and returns exactly the newest matching
    rows. *)
Theorem dead_letters_listable s fresh mono wall w since limit :
  rtc (step s) (initial fresh mono wall) w ->
  dropped_list (w_dropped w) since limit
  = Ok (sql_limit (default i64_max limit)
          (order_by (fun d => - dm_dropped_at d)
             (match since with
              | Some ts => List.filter (fun d => ts <=? dm_dropped_at d) (w_dropped w)
              | None => w_dropped w
              end))).
Proof.
  intros Hh. apply history_inv in Hh. pose proof (iv_dropped s w Hh) as Hd. clear Hh.
  unfold dropped_list. cbv zeta.
  assert (forall l, (forall d, In d l -> In d (w_dropped w)) -> collect_rows l = Ok l) as Hc.
  { induction l as [|d l IH]; intros Hl; cbn; [done|]. unfold row_to_record.
    rewrite List.Forall_forall in Hd. destruct (Hd d (Hl d ltac:(by left))) as [_ ->]. cbn.
    rewrite IH; [done|]. intros d' Hd'. apply Hl. by right. }
  apply Hc. intros d Hin. apply sql_limit_In, order_by_In in Hin.
  destruct since; [by apply filter_In in Hin as [? _] | done].
Qed.

(** A row for a channel nobody serves, a day old. *)
Definition demo_dead : world :=
  demo_pass (tick (hours 25) (written [demo_write 7 "gone" "hi"] demo_start)).

Lemma demo_dead_history : rtc (step 1) demo_start demo_dead.
Proof.
  apply pass_history. eapply rtc_r; [apply written_history, rtc_refl|].
  constructor. vm_compute. discriminate.
Qed.

Lemma dead_letters_listable_witness :
  is_ok (dropped_list (w_dropped demo_dead) None (Some 10)) = true /\ length (w_dropped demo_dead) = 1%nat.
Proof.
  split; [|vm_compute; reflexivity].
  by rewrite (dead_letters_listable 1 100 0 0 demo_dead None (Some 10) demo_dead_history).
Defined.

(** A restart resumes the count and the window: after a restart the first
    read of a session gives every row that has a retry state and no delivery
    record a cache entry with its persisted count, waiting for the rest of
    its persisted window but never longer than the ceiling. *)
Theorem restart_resumes s fresh mono wall w r :
  rtc (step s) (initial fresh mono wall) w ->
  In r (w_out w) -> ~ recorded (or_id r) w -> has_retry_state r = true ->
  exists w' e, prime_retry_cache s (get_delivered_ids (w_delivered (restart w))) (restart w) = (Ok tt, w')
    /\ w_retries w' !! (s, or_id r) = Some e
    /\ rs_tries e = or_tries r
    /\ rs_not_before e - w_mono w'
       = match or_not_before r with
         | Some t => Z.max 0 (Z.min (t - w_wall w') (millis ABSOLUTE_CEILING_MS))
         | None => 0
         end.
Proof.
  intros Hh Hr Hrec Hst. apply history_inv in Hh. unfold prime_retry_cache.
  case_bool_decide as Hp; [set_solver|]. do 2 eexists. split; [done|].
  split.
  { cbn [w_retries w_out w_delivered w_mono w_wall set_primed set_retries restart].
    rewrite prime_fold_lookup, lookup_empty, delivered_ids_existsb.
    unfold recorded in Hrec. apply not_true_iff_false in Hrec. rewrite Hrec.
    rewrite (list_retry_state_find _ r (num_ids _ _ _ _ (iv_out s w Hh))) by done.
    rewrite Hst. reflexivity. }
  pose proof (iv_tries s w Hh) as Ht. rewrite List.Forall_forall in Ht. specialize (Ht r Hr).
  cbn. rewrite MAX_in_u32 by done. split; [done|].
  assert (0 <= millis ABSOLUTE_CEILING_MS) by (vm_compute; discriminate).
  destruct (or_not_before r) as [t|]; cbn; [|lia].
  destruct (Z.ltb_spec (w_wall w) t); lia.
Qed.

Lemma demo_after_pending :
  In (mkOutRow (or_row demo_row8) 1 (Some (millis 7000))) (w_out demo_after)
  /\ existsb (delivered_has 8) (w_delivered demo_after) = false.
Proof.
  assert (w_out demo_after = [out_row_of (demo_write 7 "cli" "hi") 1;
                              mkOutRow (or_row demo_row8) 1 (Some (millis 7000))]) as ->
    by (vm_compute; reflexivity).
  split; [right; by left | vm_compute; reflexivity].
Qed.

Lemma restart_resumes_witness :
  exists w' e, prime_retry_cache 1 (get_delivered_ids (w_delivered (restart demo_after))) (restart demo_after) = (Ok tt, w')
    /\ w_retries w' !! (1, 8) = Some e /\ rs_tries e = 1
    /\ rs_not_before e - w_mono w' = Z.max 0 (Z.min (millis 7000 - w_wall w') (millis ABSOLUTE_CEILING_MS)).
Proof.
  apply (restart_resumes 1 100 0 0 demo_after (mkOutRow (or_row demo_row8) 1 (Some (millis 7000))) demo_history).
  - apply demo_after_pending.
  - apply not_true_iff_false, demo_after_pending.
  - reflexivity.
Defined.
