(* ===== verification/Failover.v ===== *)
(** Provider resilience ([copperclaw-providers/src/failover.rs],
    [error.rs]; [copperclaw-host/src/container_manager/provider_failover.rs]):
    fallback chains with key rotation, the health of each (provider, model,
    key), classification of failures, and the folding of reported turns into
    health.  A [HashMap] is a [gmap]; the host's health rows are the entries
    of the map it hydrates from and persists to. *)
From S2P Require Import Prelude Types.

(** ** Chains and health *)

Definition AMBIENT_KEY_ID : string := "".
Definition DEFAULT_REPROBE_AFTER : Z := 120 * ns_per_s.

Record ProviderKey : Type := mkKey {
  pk_id : string;
  pk_api_key_env : option string;
}.
Record ChainEntry : Type := mkEntry {
  ce_provider : string;
  ce_model : string;
  ce_keys : list ProviderKey;
}.
Definition key_ids (e : ChainEntry) : list string :=
  match ce_keys e with
  | [] => [AMBIENT_KEY_ID]
  | ks => map pk_id ks
  end.

Record FallbackChain : Type := mkChain {
  fc_entries : list ChainEntry;
  fc_model_by_channel : gmap string string;
  fc_reprobe_after_secs : option Z;
}.

Inductive HealthStatus : Type := Healthy | RateLimited | Down.
#[export] Instance HealthStatus_eq_dec : EqDecision HealthStatus.
Proof. solve_decision. Defined.

Definition HealthStatus_as_str (s : HealthStatus) : string :=
  match s with Healthy => "healthy" | RateLimited => "rate_limited" | Down => "down" end%string.
Definition HealthStatus_parse (s : string) : HealthStatus :=
  if String.eqb s "rate_limited" then RateLimited
  else if String.eqb s "down" then Down else Healthy.

Inductive DegradeReason : Type := RateLimit | Overloaded | ServerError | TransportFailure.
Definition DegradeReason_as_str (r : DegradeReason) : string :=
  match r with
  | RateLimit => "rate_limit" | Overloaded => "overloaded"
  | ServerError => "server_error" | TransportFailure => "transport"
  end%string.
Definition reason_status (r : DegradeReason) : HealthStatus :=
  match r with
  | RateLimit | Overloaded => RateLimited
  | ServerError | TransportFailure => Down
  end.

(** ** Errors and their classification *)

Inductive ProviderError : Type :=
| Transport (msg : rstr)
| SessionInvalid
| Api (status : Z) (message : rstr)
| Decode (msg : rstr)
| Cancelled
| ErrOverloaded
| BadRequest (msg : rstr)
| DeadlineExceeded (deadline_ms attempts : Z).

Definition display (e : ProviderError) : rstr :=
  match e with
  | Transport m => lit "transport error: " ++ m
  | SessionInvalid => lit "session invalidated"
  | Api status m => lit "api error " ++ show_z status ++ lit ": " ++ m
  | Decode m => lit "decode error: " ++ m
  | Cancelled => lit "cancelled"
  | ErrOverloaded => lit "overloaded"
  | BadRequest m => lit "bad request: " ++ m
  | DeadlineExceeded d a =>
      lit "provider deadline exceeded after " ++ show_z a ++ lit " attempt(s) ("
        ++ show_z d ++ lit " ms each)"
  end.

Definition is_retryable (e : ProviderError) : bool :=
  match e with
  | Transport _ | ErrOverloaded => true
  | Api status _ => 500 <=? status
  | SessionInvalid | Decode _ | Cancelled | BadRequest _ | DeadlineExceeded _ _ => false
  end.

Definition from_error (e : ProviderError) : option DegradeReason :=
  match e with
  | ErrOverloaded => Some Overloaded
  | Transport _ => Some TransportFailure
  | Api status _ =>
      if status =? 429 then Some RateLimit
      else if 500 <=? status then Some ServerError else None
  | SessionInvalid | Decode _ | Cancelled | BadRequest _ | DeadlineExceeded _ _ => None
  end.

(** Every occurrence of [needle] in turn, [prev] being the char before. *)
Fixpoint contains_token (needle : rstr) (prev : option rchar) (hay : rstr) : bool :=
  match strip_prefix needle hay with
  | Some after =>
      let left_ok := match prev with Some c => negb (is_ascii_digit c) | None => true end in
      let right_ok := match after with c :: _ => negb (is_ascii_digit c) | [] => true end in
      left_ok && right_ok
  | None => false
  end
  || match hay with
     | [] => false
     | c :: hay' => contains_token needle (Some c) hay'
     end.
Definition contains_status (hay : rstr) (status : Z) : bool :=
  contains_token (show_z status) None hay.

(** The first maximal run of digits. *)
Definition first_number (s : rstr) : option rstr :=
  find (fun w => match w with [] => false | _ => true end)
    (split_on (fun c => negb (is_ascii_digit c)) s).

Definition api_marker : rstr := lit "api error ".
Definition server_statuses : list Z := map (fun i => 500 + Z.of_nat i) (seq 0 100).

Definition from_error_text (text : rstr) : option DegradeReason :=
  let t := map to_ascii_lowercase (trim text) in
  match t with
  | [] => None
  | _ =>
      match str_find api_marker t with
      | Some idx =>
          let rest := drop (idx + length api_marker) t in
          match match first_number rest with
                | Some ds => parse_uint u16_max ds
                | None => None
                end with
          | Some s =>
              if s =? 429 then Some RateLimit
              else if (500 <=? s) && (s <? 600) then Some ServerError else None
          | None => None
          end
      | None =>
          let has := existsb (fun p => str_contains (lit p) t) in
          if has ["transport error"; "connection reset"; "connection refused";
                  "timed out"; "timeout"]%string
          then Some TransportFailure
          else if has ["overload"]%string || contains_status t 529 then Some Overloaded
          else if has ["rate limit"; "rate-limit"]%string || contains_status t 429
          then Some RateLimit
          else if has ["service unavailable"; "bad gateway"; "internal server error";
                       "gateway timeout"]%string
                  || existsb (contains_status t) server_statuses
          then Some ServerError
          else None
      end
  end.

(** ** Health entries *)

Record HealthEntry : Type := mkHealth {
  he_status : HealthStatus;
  he_cooldown_until : option instant;
  he_last_failure_at : option instant;
  he_last_reason : option string;
  he_failure_count : Z;
}.
Definition default_health : HealthEntry := mkHealth Healthy None None None 0.

Definition is_eligible (h : HealthEntry) (now : instant) : bool :=
  match he_status h with
  | Healthy => true
  | RateLimited | Down =>
      match he_cooldown_until h with None => true | Some until => until <=? now end
  end.

(** (provider, model, key id). *)
Abbreviation HealthKey := (string * string * string)%type (only parsing).
Abbreviation HealthMap := (gmap (string * string * string) HealthEntry) (only parsing).

Definition health (m : HealthMap) (k : HealthKey) : HealthEntry := default default_health (m !! k).
Definition entry_key (e : ChainEntry) (key_id : string) : HealthKey :=
  (ce_provider e, ce_model e, key_id).

(** ** Selection *)

Record Selection : Type := mkSelection {
  sel_entry_index : nat;
  sel_provider : string;
  sel_model : string;
  sel_key_id : string;
  sel_api_key_env : option string;
  sel_degraded : bool;
  sel_pinned_model : bool;
}.

Definition is_empty (c : FallbackChain) : bool := match fc_entries c with [] => true | _ => false end.

Definition reprobe_after (c : FallbackChain) : Z :=
  match fc_reprobe_after_secs c with
  | Some s => if s <=? i64_max then s * ns_per_s else DEFAULT_REPROBE_AFTER
  | None => DEFAULT_REPROBE_AFTER
  end.

Definition key_choice (k : ProviderKey) : string * option string := (pk_id k, pk_api_key_env k).

Definition pick_key (e : ChainEntry) (m : HealthMap) (now : instant)
  : option (string * option string) :=
  match ce_keys e with
  | [] => if is_eligible (health m (entry_key e AMBIENT_KEY_ID)) now
          then Some (AMBIENT_KEY_ID, None) else None
  | ks =>
      let h k := health m (entry_key e (pk_id k)) in
      match find (fun k => bool_decide (he_status (h k) = Healthy)) ks with
      | Some k => Some (key_choice k)
      | None => option_map key_choice (find (fun k => is_eligible (h k) now) ks)
      end
  end.

Definition entry_eligible (m : HealthMap) (now : instant) (e : ChainEntry) : bool :=
  match pick_key e m now with Some _ => true | None => false end.

Fixpoint find_index {A} (p : A -> bool) (l : list A) : option nat :=
  match l with
  | [] => None
  | x :: l' => if p x then Some 0%nat else option_map S (find_index p l')
  end.

Definition select (c : FallbackChain) (channel_type : option string) (m : HealthMap) (now : instant)
  : option Selection :=
  match fc_entries c with
  | [] => None
  | e0 :: _ =>
      let pin := match channel_type with
                 | Some ch => fc_model_by_channel c !! ch
                 | None => None
                 end in
      let chosen_index := default 0%nat (find_index (entry_eligible m now) (fc_entries c)) in
      let entry := nth chosen_index (fc_entries c) e0 in
      let '(key_id, api_key_env) :=
        match pick_key entry m now with
        | Some k => k
        | None => match ce_keys entry with
                  | k :: _ => key_choice k
                  | [] => (AMBIENT_KEY_ID, None)
                  end
        end in
      Some {| sel_entry_index := chosen_index;
              sel_provider := ce_provider entry;
              sel_model := default (ce_model entry) pin;
              sel_key_id := key_id;
              sel_api_key_env := api_key_env;
              sel_degraded := (0 <? chosen_index)%nat;
              sel_pinned_model := match pin with Some _ => true | None => false end |}
  end.

Definition record_failure (c : FallbackChain) (m : HealthMap) (k : HealthKey)
    (reason : DegradeReason) (now : instant) : HealthMap :=
  let e := health m k in
  <[k := {| he_status := reason_status reason;
            he_cooldown_until := Some (now + reprobe_after c);
            he_last_failure_at := Some now;
            he_last_reason := Some (DegradeReason_as_str reason);
            he_failure_count := sat_add u32_max (he_failure_count e) 1 |}]> m.

Definition record_success (m : HealthMap) (k : HealthKey) : HealthMap :=
  let e := health m k in
  <[k := {| he_status := Healthy; he_cooldown_until := None;
            he_last_failure_at := he_last_failure_at e;
            he_last_reason := None; he_failure_count := 0 |}]> m.

(** ** The host's side *)

Definition pick_eligible_key_env (e : ChainEntry) (m : HealthMap) (now : instant)
  : option (option string) :=
  let lookup key_id := default default_health (m !! entry_key e key_id) in
  match ce_keys e with
  | [] => if is_eligible (lookup AMBIENT_KEY_ID) now then Some None else None
  | ks =>
      match find (fun k => bool_decide (he_status (lookup (pk_id k)) = Healthy)) ks with
      | Some k => Some (pk_api_key_env k)
      | None => option_map pk_api_key_env (find (fun k => is_eligible (lookup (pk_id k)) now) ks)
      end
  end.

Record FailoverAlternate : Type := mkAlternate {
  fa_provider : string;
  fa_model : string;
  fa_key_env : option string;
}.

Definition failover_alternates (c : FallbackChain) (m : HealthMap) (primary : Selection)
    (now : instant) : list FailoverAlternate :=
  omap (fun e => option_map (mkAlternate (ce_provider e) (ce_model e))
                   (pick_eligible_key_env e m now))
    (drop (S (sel_entry_index primary)) (fc_entries c)).

(** A reported turn: the columns of [agent_turns] the fold reads. *)
Record Turn : Type := mkTurn {
  tu_provider : string;
  tu_model : string;
  tu_status : string;
  tu_error : option rstr;
  tu_ended_at : instant;
}.

Definition fold_entry_for_turn (c : FallbackChain) (provider model : string) : option ChainEntry :=
  match find (fun e => String.eqb (ce_provider e) provider && String.eqb (ce_model e) model)
          (fc_entries c) with
  | Some direct => Some direct
  | None =>
      if existsb (fun p => String.eqb (snd p) model) (map_to_list (fc_model_by_channel c))
      then find (fun e => String.eqb (ce_provider e) provider) (fc_entries c)
      else None
  end.

(** The key a failed turn is charged to. *)
Definition failed_key (c : FallbackChain) (m : HealthMap) (e : ChainEntry) (turn : Turn) : string :=
  match select c None m (tu_ended_at turn) with
  | Some s => if String.eqb (sel_provider s) (tu_provider turn) && String.eqb (sel_model s) (ce_model e)
              then sel_key_id s else hd ""%string (key_ids e)
  | None => hd ""%string (key_ids e)
  end.

Definition restore_key (e : ChainEntry) (turn : Turn) (m : HealthMap) (key_id : string) : HealthMap :=
  let hk := (tu_provider turn, ce_model e, key_id) in
  match m !! hk with
  | Some h => match he_last_failure_at h with
              | Some prev => if prev <? tu_ended_at turn then record_success m hk else m
              | None => m
              end
  | None => m
  end.

Definition fold_turn (c : FallbackChain) (m : HealthMap) (turn : Turn) : HealthMap :=
  match fold_entry_for_turn c (tu_provider turn) (tu_model turn) with
  | None => m
  | Some e =>
      if String.eqb (tu_status turn) "error" then
        match match tu_error turn with Some t => from_error_text t | None => None end with
        | None => m
        | Some reason =>
            let key_id := failed_key c m e turn in
            let hk := (tu_provider turn, ce_model e, key_id) in
            let last_failure := match m !! hk with Some h => he_last_failure_at h | None => None end in
            if match last_failure with Some prev => tu_ended_at turn <=? prev | None => false end
            then m
            else record_failure c m hk reason (tu_ended_at turn)
        end
      else fold_left (restore_key e turn) (key_ids e) m
  end.

(** [turns] is newest first, as the query returns it. *)
Definition fold_recent_turns (c : FallbackChain) (turns : list Turn) (m : HealthMap) : HealthMap :=
  fold_left (fold_turn c) (rev turns) m.

(** ** Vocabulary of the theorems *)

Definition usable (m : HealthMap) (now : instant) (e : ChainEntry) (key_id : string) : Prop :=
  is_eligible (health m (entry_key e key_id)) now = true.

(** Every entry has at most one key, and no two entries the same provider
    and model. *)
Definition single_keyed (c : FallbackChain) : Prop :=
  Forall (fun e => (length (ce_keys e) <= 1)%nat) (fc_entries c)
  /\ List.NoDup (map (fun e => (ce_provider e, ce_model e)) (fc_entries c)).

(** * Lemmas *)

Lemma healthy_usable h now : he_status h = Healthy -> is_eligible h now = true.
Proof. unfold is_eligible. by intros ->. Qed.

Lemma pick_key_Some e m now k env :
  pick_key e m now = Some (k, env) ->
  In k (key_ids e) /\ usable m now e k
  /\ (he_status (health m (entry_key e k)) = Healthy
      \/ forall k', In k' (key_ids e) -> ce_keys e <> [] ->
           he_status (health m (entry_key e k')) <> Healthy).
Proof.
  unfold pick_key, key_ids, usable. destruct (ce_keys e) as [|k0 ks] eqn:Ek.
  { destruct (is_eligible _ now) eqn:E; [|done]. intros [= <- <-].
    split; [by left|]. split; [done | by right]. }
  destruct (find _ (k0 :: ks)) as [x|] eqn:Ef.
  - intros [= <- _]. apply find_some in Ef as [Hin Hh]. apply bool_decide_eq_true in Hh.
    split; [by apply (in_map pk_id)|]. split; [by apply healthy_usable | by left].
  - destruct (find (fun k => is_eligible _ now) (k0 :: ks)) as [x|] eqn:Ef2; cbn [option_map]; [|done].
    intros [= <- _]. apply find_some in Ef2 as [Hin Hh].
    split; [by apply (in_map pk_id)|]. split; [done|]. right. intros k' Hk' _ Hbad.
    apply in_map_iff in Hk' as (y & <- & Hy). pose proof (find_none _ _ Ef y Hy) as Hn.
    cbn in Hn. by rewrite bool_decide_eq_false in Hn.
Qed.

Lemma pick_key_None e m now k :
  pick_key e m now = None -> In k (key_ids e) -> ~ usable m now e k.
Proof.
  unfold pick_key, key_ids, usable. destruct (ce_keys e) as [|k0 ks].
  { destruct (is_eligible _ now) eqn:E; [done|]. intros _ [<- | []]. congruence. }
  destruct (find _ (k0 :: ks)); [done|].
  destruct (find (fun k => is_eligible _ now) (k0 :: ks)) eqn:Ef; cbn [option_map]; [done|].
  intros _ Hk. apply in_map_iff in Hk as (y & <- & Hy).
  by rewrite (find_none _ _ Ef y Hy).
Qed.

Lemma find_index_Some {A} (p : A -> bool) l i d :
  find_index p l = Some i ->
  nth_error l i = Some (nth i l d) /\ p (nth i l d) = true
  /\ forall j x, (j < i)%nat -> nth_error l j = Some x -> p x = false.
Proof.
  revert i; induction l as [|x l IH]; intros i; cbn; [done|].
  destruct (p x) eqn:Ep.
  - intros [= <-]. repeat split; [done | lia].
  - destruct (find_index p l) as [n|]; cbn; [|done]. intros [= <-].
    destruct (IH n eq_refl) as (H1 & H2 & H3). split; [done|]. split; [done|].
    intros [|j] y Hj; cbn; [by intros [= <-] | apply H3; lia].
Qed.

Lemma find_index_None {A} (p : A -> bool) l x : find_index p l = None -> In x l -> p x = false.
Proof.
  induction l as [|y l IH]; cbn; [done|]. destruct (p y) eqn:Ep; [done|].
  destruct (find_index p l); cbn; [done|]. intros _ [<- | Hx]; [done | by apply IH].
Qed.

Lemma hd_key_ids e : In (hd ""%string (key_ids e)) (key_ids e).
Proof. unfold key_ids. destruct (ce_keys e); by left. Qed.

(** The entry and key of a selection: the first entry with a usable key and
    that key, or the primary when none has one. *)
Lemma select_entry c ch m now :
  fc_entries c <> [] ->
  exists sel e,
    select c ch m now = Some sel
    /\ nth_error (fc_entries c) (sel_entry_index sel) = Some e
    /\ sel_provider sel = ce_provider e
    /\ sel_model sel = default (ce_model e) (match ch with Some x => fc_model_by_channel c !! x | None => None end)
    /\ (sel_degraded sel = true <-> (0 < sel_entry_index sel)%nat)
    /\ In (sel_key_id sel) (key_ids e)
    /\ ((usable m now e (sel_key_id sel)
         /\ (forall j e', (j < sel_entry_index sel)%nat -> nth_error (fc_entries c) j = Some e' ->
               pick_key e' m now = None)
         /\ pick_key e m now = Some (sel_key_id sel, sel_api_key_env sel))
        \/ (sel_entry_index sel = 0%nat /\ forall e', In e' (fc_entries c) -> pick_key e' m now = None)).
Proof.
  intros Hne. unfold select. destruct (fc_entries c) as [|e0 es] eqn:Ee; [done|].
  set (pin := match ch with Some x => _ | None => None end).
  assert (forall e, entry_eligible m now e = false -> pick_key e m now = None) as Hel
    by (intros e; unfold entry_eligible; by destruct (pick_key e m now)).
  destruct (find_index _ (e0 :: es)) as [i|] eqn:Ef; cbn [default from_option].
  - destruct (find_index_Some _ _ _ e0 Ef) as (Hn & Hp & Hj). change (id i) with i.
    set (e := nth i (e0 :: es) e0) in *.
    unfold entry_eligible in Hp. destruct (pick_key e m now) as [[k env]|] eqn:Ek; [|done].
    pose proof (pick_key_Some _ _ _ _ _ Ek) as (Hin & Hu & _).
    eexists _, e. split; [done|]. cbn -[e Nat.ltb]. repeat (split; [done|]).
    split; [apply Nat.ltb_lt|]. split; [done|]. left. split; [done|].
    split; [|done]. intros j e' Hlt He'. by apply Hel, (Hj j e').
  - cbn [nth].
    assert (pick_key e0 m now = None) as -> by (apply Hel, (find_index_None _ _ e0 Ef); by left).
    destruct (ce_keys e0) as [|k0 ks] eqn:Ek; eexists _, e0; (split; [done|]); cbn -[Nat.ltb];
      repeat (split; [done|]); (split; [apply Nat.ltb_lt|]);
      (split; [unfold key_ids; rewrite Ek; by left|]); right; (split; [done|]);
      intros e' He'; by apply Hel, (find_index_None _ _ e' Ef).
Qed.

Lemma record_failure_same c m k r now now' :
  is_eligible (health (record_failure c m k r now) k) now' = (now + reprobe_after c <=? now').
Proof.
  unfold record_failure, health at 1. rewrite lookup_insert_eq.
  unfold is_eligible. cbn. by destruct r.
Qed.

Lemma record_failure_other c m k k' r now :
  k <> k' -> health (record_failure c m k r now) k' = health m k'.
Proof. intros H. unfold record_failure, health. by rewrite lookup_insert_ne. Qed.

(** ** Folding turns when every entry has one key *)

(** What a turn does to health: nothing, a failure or a restoration of one
    key. *)
Definition turn_event (c : FallbackChain) (turn : Turn) : option (HealthKey * option DegradeReason) :=
  match fold_entry_for_turn c (tu_provider turn) (tu_model turn) with
  | None => None
  | Some e =>
      let hk := (tu_provider turn, ce_model e, hd ""%string (key_ids e)) in
      if String.eqb (tu_status turn) "error" then
        match match tu_error turn with Some t => from_error_text t | None => None end with
        | None => None
        | Some reason => Some (hk, Some reason)
        end
      else Some (hk, None)
  end.

Definition last_failure (m : HealthMap) (k : HealthKey) : option instant :=
  match m !! k with Some h => he_last_failure_at h | None => None end.

Definition apply_event (c : FallbackChain) (t : instant) (ev : option (HealthKey * option DegradeReason))
    (m : HealthMap) : HealthMap :=
  match ev with
  | None => m
  | Some (hk, Some reason) =>
      if match last_failure m hk with Some prev => t <=? prev | None => false end then m
      else record_failure c m hk reason t
  | Some (hk, None) =>
      if match last_failure m hk with Some prev => prev <? t | None => false end
      then record_success m hk else m
  end.

Lemma single_keyed_ids c e :
  single_keyed c -> In e (fc_entries c) -> key_ids e = [hd ""%string (key_ids e)].
Proof.
  intros [Hl _] He. rewrite List.Forall_forall in Hl. specialize (Hl e He).
  unfold key_ids. destruct (ce_keys e) as [|k [|k' ks]]; cbn in *; [done | done | lia].
Qed.

Lemma fold_entry_In c p mo e :
  fold_entry_for_turn c p mo = Some e -> In e (fc_entries c) /\ ce_provider e = p.
Proof.
  unfold fold_entry_for_turn. destruct (find _ (fc_entries c)) as [d|] eqn:Ef.
  - intros [= <-]. apply find_some in Ef as [Hin Heq]. bool_to_prop. done.
  - destruct (existsb _ _); [|done]. intros Hf. apply find_some in Hf as [Hin Heq]. by bool_to_prop.
Qed.

Lemma failed_key_single c m e turn :
  single_keyed c -> In e (fc_entries c) -> ce_provider e = tu_provider turn ->
  failed_key c m e turn = hd ""%string (key_ids e).
Proof.
  intros Hs He Hp. unfold failed_key.
  destruct (select_entry c None m (tu_ended_at turn)) as (sel & e' & -> & Hn & Hsp & Hsm & _ & Hk & _).
  { by intros E; rewrite E in He. }
  destruct (String.eqb_spec (sel_provider sel) (tu_provider turn)) as [Ep | _]; cbn; [|done].
  destruct (String.eqb_spec (sel_model sel) (ce_model e)) as [Em | _]; [|done].
  assert (e' = e) as ->.
  { apply nth_error_In in Hn. eapply (NoDup_map_inj (fun x => (ce_provider x, ce_model x)));
      [apply Hs | done | done |]. cbn in Hsm. congruence. }
  rewrite (single_keyed_ids c e Hs He) in Hk. by destruct Hk as [<- | []].
Qed.

Lemma fold_turn_event c m turn :
  single_keyed c -> fold_turn c m turn = apply_event c (tu_ended_at turn) (turn_event c turn) m.
Proof.
  intros Hs. unfold fold_turn, turn_event.
  destruct (fold_entry_for_turn c (tu_provider turn) (tu_model turn)) as [e|] eqn:Ef; [|done].
  apply fold_entry_In in Ef as [He Hp]. destruct (String.eqb (tu_status turn) "error").
  - destruct (match tu_error turn with Some t => _ | None => None end); [|done].
    by rewrite failed_key_single.
  - rewrite (single_keyed_ids c e Hs He). cbn. unfold restore_key, last_failure.
    destruct (m !! _) as [h|]; [by destruct (he_last_failure_at h) | done].
Qed.

(** An event that has been taken into account leaves health as it is, and
    later events keep it so. *)
Definition absorbed (t : instant) (ev : option (HealthKey * option DegradeReason)) (m : HealthMap) : Prop :=
  match ev with
  | None => True
  | Some (hk, Some _) => exists p, last_failure m hk = Some p /\ t <= p
  | Some (hk, None) =>
      match last_failure m hk with
      | Some p => t <= p \/ m !! hk = Some (mkHealth Healthy None (Some p) None 0)
      | None => True
      end
  end.

Lemma absorbed_noop c t ev m : absorbed t ev m -> apply_event c t ev m = m.
Proof.
  destruct ev as [[hk [r|]]|]; cbn; [| |done].
  - intros (p & -> & Hle). by rewrite (proj2 (Z.leb_le t p)).
  - destruct (last_failure m hk) as [p|]; [|done].
    destruct (Z.ltb_spec p t); [|done]. intros [? | E]; [lia|].
    unfold record_success, health. rewrite E. cbn. by rewrite insert_id.
Qed.

Lemma last_failure_insert m k k' h :
  last_failure (<[k := h]> m) k' = if decide (k = k') then he_last_failure_at h else last_failure m k'.
Proof.
  unfold last_failure. destruct (decide (k = k')) as [-> | Hn];
    [by rewrite lookup_insert_eq | by rewrite lookup_insert_ne].
Qed.

Lemma absorbed_after c t ev m : absorbed t ev (apply_event c t ev m).
Proof.
  destruct ev as [[hk [r|]]|]; cbn; [| |done].
  - destruct (last_failure m hk) as [p|] eqn:E; [destruct (Z.leb_spec t p); [by exists p|]|];
      exists t; unfold record_failure; rewrite last_failure_insert, decide_True by done;
      (split; [done | lia]).
  - destruct (last_failure m hk) as [p|] eqn:E; [|by rewrite E].
    destruct (Z.ltb_spec p t); [|rewrite E; left; lia].
    assert (he_last_failure_at (health m hk) = Some p) as Ep.
    { unfold last_failure, health in *. by destruct (m !! hk). }
    unfold record_success. rewrite last_failure_insert, decide_True by done. cbn. rewrite Ep.
    right. by rewrite lookup_insert_eq.
Qed.

Lemma absorbed_later c t ev t' ev' m :
  t <= t' -> absorbed t ev m -> absorbed t ev (apply_event c t' ev' m).
Proof.
  intros Ht Ha. destruct ev' as [[hk' [r'|]]|]; cbn; [| |done].
  - destruct (match last_failure m hk' with Some _ => _ | None => _ end); [done|].
    destruct ev as [[hk [r|]]|]; cbn in *; [| |done]; unfold record_failure;
      rewrite last_failure_insert; destruct (decide (hk' = hk)) as [-> | Hn]; try done.
    + cbn. eauto.
    + cbn. by left.
    + destruct (last_failure m hk); [|done]. by rewrite lookup_insert_ne.
  - destruct (last_failure m hk') as [p'|] eqn:E'; [|done]. destruct (Z.ltb_spec p' t'); [|done].
    assert (he_last_failure_at (health m hk') = Some p') as Ep.
    { unfold last_failure, health in *. by destruct (m !! hk'). }
    destruct ev as [[hk [r|]]|]; cbn in *; [| |done]; unfold record_success;
      rewrite last_failure_insert; destruct (decide (hk' = hk)) as [-> | Hn]; try done; cbn; rewrite ?Ep.
    + by rewrite <- E'.
    + right. by rewrite lookup_insert_eq.
    + destruct (last_failure m hk); [|done]. by rewrite lookup_insert_ne.
Qed.

Lemma fold_absorbs c turns m :
  single_keyed c -> StronglySorted (fun a b => tu_ended_at a <= tu_ended_at b) turns ->
  Forall (fun t => absorbed (tu_ended_at t) (turn_event c t) (fold_left (fold_turn c) turns m)) turns.
Proof.
  intros Hs Hsort. revert m. induction Hsort as [|t ts Hts IH Hall]; intros m; cbn; [done|].
  constructor; [|by apply IH].
  assert (absorbed (tu_ended_at t) (turn_event c t) (fold_turn c m t)) as Ha.
  { rewrite fold_turn_event by done. apply absorbed_after. }
  revert Ha. generalize (fold_turn c m t) as m'. clear IH Hts m.
  induction Hall as [|t' ts Ht' Hall IH]; intros m' Ha; cbn; [done|].
  apply IH. rewrite fold_turn_event by done. by apply absorbed_later.
Qed.

Lemma fold_absorbed c turns m :
  single_keyed c -> Forall (fun t => absorbed (tu_ended_at t) (turn_event c t) m) turns ->
  fold_left (fold_turn c) turns m = m.
Proof.
  intros Hs. induction 1 as [|t ts Ht Hts IH]; cbn; [done|].
  by rewrite fold_turn_event, absorbed_noop.
Qed.

(** ** Classification of a printed API error *)

Lemma lower_digits ds : Forall (fun c => is_ascii_digit c = true) ds -> map to_ascii_lowercase ds = ds.
Proof.
  induction 1 as [|c ds Hc Hds IH]; cbn; [done|]. rewrite IH. f_equal.
  unfold is_ascii_digit in Hc. unfold to_ascii_lowercase. bool_to_prop.
  destruct (Z.leb_spec 65 c); [lia | done].
Qed.

Lemma first_number_digits ds c s :
  ds <> [] -> Forall (fun c => is_ascii_digit c = true) ds -> is_ascii_digit c = false ->
  first_number (ds ++ c :: s) = Some ds.
Proof.
  intros Hne Hds Hc. unfold first_number.
  assert (split_on (fun c => negb (is_ascii_digit c)) (ds ++ c :: s)
          = ds :: split_on (fun c => negb (is_ascii_digit c)) s) as ->.
  { clear Hne. induction Hds as [|d ds Hd Hds IH]; cbn; [by rewrite Hc|]. by rewrite Hd, IH. }
  cbn. by destruct ds.
Qed.

Lemma trim_start_solid c s : is_whitespace c = false -> trim_start (c :: s) = c :: s.
Proof. apply trim_start_by_cons. Qed.

(** The classification once the marker has been found after [pre]. *)
Lemma classify_after_marker text pre status tail :
  0 <= status <= u16_max ->
  map to_ascii_lowercase (trim text) = pre ++ api_marker ++ show_z status ++ 58 :: tail ->
  str_find api_marker (pre ++ api_marker ++ show_z status ++ 58 :: tail) = Some (length pre) ->
  from_error_text text
  = if status =? 429 then Some RateLimit
    else if (500 <=? status) && (status <? 600) then Some ServerError else None.
Proof.
  intros Hs Et Hf. unfold from_error_text. rewrite Et.
  destruct (pre ++ api_marker ++ show_z status ++ 58 :: tail) as [|x t] eqn:E; [by destruct pre|].
  rewrite <- E in *. clear E x t. rewrite Hf. cbv zeta.
  rewrite <- drop_drop, drop_app_length, drop_app_length.
  assert (0 <= status <= u64_max) as Hs' by (unfold u16_max, u64_max in *; lia).
  destruct (show_z_spec status Hs') as (Hne & _ & Hall).
  by rewrite first_number_digits, parse_uint_show by (done || lia).
Qed.

(** What the runner puts around a provider error. *)
Definition rejected_prefix : rstr := lit "provider rejected the query before streaming started (".

Lemma lower_api_text pre status m tail :
  0 <= status <= u16_max ->
  map to_ascii_lowercase (pre ++ (api_marker ++ show_z status ++ 58 :: m) ++ tail)
  = map to_ascii_lowercase pre ++ api_marker ++ show_z status ++ 58 :: map to_ascii_lowercase (m ++ tail).
Proof.
  intros Hs. assert (0 <= status <= u64_max) as Hs' by (unfold u16_max, u64_max in *; lia).
  destruct (show_z_spec status Hs') as (_ & _ & Hall).
  rewrite !map_app, (lower_digits _ Hall). cbn [map]. by rewrite <- !app_assoc.
Qed.

(** * Properties *)

(** Selection never goes dark and takes the first entry that can be
    used: with a non-empty chain it returns an entry of the chain and one of
    its keys, the model being the channel's pin or the entry's own.  If that
    key is usable, no earlier entry has a usable key, and the key is healthy
    unless no declared key of the entry is.  If it is not usable, nothing in
    the chain is, and the entry is the primary. *)
Theorem select_first_usable c ch m now :
  fc_entries c <> [] ->
  exists sel e,
    select c ch m now = Some sel
    /\ nth_error (fc_entries c) (sel_entry_index sel) = Some e
    /\ In (sel_key_id sel) (key_ids e)
    /\ sel_provider sel = ce_provider e
    /\ sel_model sel = default (ce_model e) (match ch with Some x => fc_model_by_channel c !! x | None => None end)
    /\ (sel_degraded sel = true <-> (0 < sel_entry_index sel)%nat)
    /\ (usable m now e (sel_key_id sel) ->
          (forall j e' k, (j < sel_entry_index sel)%nat -> nth_error (fc_entries c) j = Some e' ->
             In k (key_ids e') -> ~ usable m now e' k)
          /\ (he_status (health m (entry_key e (sel_key_id sel))) = Healthy
              \/ forall k, In k (key_ids e) -> ce_keys e <> [] ->
                   he_status (health m (entry_key e k)) <> Healthy))
    /\ (~ usable m now e (sel_key_id sel) ->
          sel_entry_index sel = 0%nat
          /\ forall e' k, In e' (fc_entries c) -> In k (key_ids e') -> ~ usable m now e' k).
Proof.
  intros Hne. destruct (select_entry c ch m now Hne) as (sel & e & E & Hn & Hp & Hm & Hd & Hk & Hcase).
  exists sel, e. repeat (split; [done|]). destruct Hcase as [(Hu & Hbefore & Hpick) | (H0 & Hnone)].
  - split; [|done]. intros _. split; [|by apply (pick_key_Some _ _ now _ _ Hpick)].
    intros j e' k Hj He' Hk'. by apply pick_key_None; [eapply Hbefore|].
  - assert (forall e' k, In e' (fc_entries c) -> In k (key_ids e') -> ~ usable m now e' k) as Hall
      by (intros e' k He' Hk'; by apply pick_key_None; [apply Hnone|]).
    apply nth_error_In in Hn. split; [|done]. intros Hu. by destruct (Hall e _ Hn Hk).
Qed.

Definition demo_chain : FallbackChain :=
  mkChain [mkEntry "anthropic" "big" [mkKey "A" (Some "KEY_A"); mkKey "B" (Some "KEY_B")];
           mkEntry "ollama" "small" []]%string
    {["telegram" := "pinned"]}%string None.

Lemma select_first_usable_witness :
  exists sel, select demo_chain (Some "telegram"%string) ∅ 0 = Some sel
    /\ sel_model sel = "pinned"%string /\ sel_key_id sel = "A"%string.
Proof.
  destruct (select_first_usable demo_chain (Some "telegram"%string) ∅ 0 ltac:(discriminate))
    as (sel & e & E & _). exists sel. split; [exact E|].
  assert (Some sel = Some (mkSelection 0 "anthropic" "pinned" "A" (Some "KEY_A"%string) false true)) as H
    by (rewrite <- E; vm_compute; reflexivity).
  injection H as ->. split; reflexivity.
Defined.

(** Degrade and restore: a recorded failure takes exactly its (provider,
    model, key) out of use until the re-probe delay has passed and no longer,
    whatever the reason; every other triple is unaffected; a recorded success
    makes it usable at once. *)
Theorem failure_cools_down c m k reason now now' :
  is_eligible (health (record_failure c m k reason now) k) now' = (now + reprobe_after c <=? now')
  /\ (forall k', k' <> k -> health (record_failure c m k reason now) k' = health m k')
  /\ is_eligible (health (record_success (record_failure c m k reason now) k) k) now' = true
  /\ he_failure_count (health (record_failure c m k reason now) k)
     = sat_add u32_max (he_failure_count (health m k)) 1.
Proof.
  split; [apply record_failure_same|]. split; [intros k' Hk; by apply record_failure_other|].
  split; unfold record_success, record_failure, health at 1; by rewrite lookup_insert_eq.
Qed.

(** Rotation: after the selected key fails, a selection made before the
    re-probe delay has passed does not choose the same (provider, model, key)
    again, unless nothing in the chain is usable. *)
Theorem next_selection_avoids_failed c ch ch' m now now' reason sel e :
  select c ch m now = Some sel -> nth_error (fc_entries c) (sel_entry_index sel) = Some e ->
  now' < now + reprobe_after c ->
  let m' := record_failure c m (entry_key e (sel_key_id sel)) reason now in
  exists sel' e',
    select c ch' m' now' = Some sel' /\ nth_error (fc_entries c) (sel_entry_index sel') = Some e'
    /\ (entry_key e' (sel_key_id sel') <> entry_key e (sel_key_id sel)
        \/ forall e0 k, In e0 (fc_entries c) -> In k (key_ids e0) -> ~ usable m' now' e0 k).
Proof.
  cbv zeta. intros Hsel He Hlt. set (m' := record_failure _ _ _ _ _).
  assert (fc_entries c <> []) as Hne by (intros E; unfold select in Hsel; by rewrite E in Hsel).
  destruct (select_entry c ch' m' now' Hne) as (sel' & e' & E' & Hn' & _ & _ & _ & _ & Hcase).
  exists sel', e'. split; [done|]. split; [done|]. destruct Hcase as [(Hu & _) | (_ & Hnone)].
  - left. intros Heq. unfold usable in Hu. rewrite Heq in Hu. unfold m' in Hu.
    rewrite record_failure_same in Hu. bool_to_prop. lia.
  - right. intros e0 k He0 Hk. by apply pick_key_None; [apply Hnone|].
Qed.

Lemma next_selection_avoids_failed_witness :
  exists sel', select demo_chain None
      (record_failure demo_chain ∅ ("anthropic", "big", "A")%string RateLimit 0) 5 = Some sel'
    /\ sel_key_id sel' = "B"%string.
Proof.
  destruct (next_selection_avoids_failed demo_chain None None ∅ 0 5 RateLimit
              (mkSelection 0 "anthropic" "big" "A" (Some "KEY_A"%string) false false)
              (mkEntry "anthropic" "big" [mkKey "A" (Some "KEY_A"); mkKey "B" (Some "KEY_B")]%string))
    as (sel' & e' & E & _).
  - vm_compute. reflexivity.
  - reflexivity.
  - vm_compute. reflexivity.
  - exists sel'. split; [exact E|].
    assert (Some sel' = Some (mkSelection 0 "anthropic" "big" "B" (Some "KEY_B"%string) false false)) as H
      by (rewrite <- E; vm_compute; reflexivity).
    injection H as ->. reflexivity.
Defined.

(** Folding the reported turns is idempotent when no entry rotates keys:
    for a chain whose entries have at most one key and distinct providers and
    models, reading the same turns again changes no health entry, so a
    failure is charged once however many spawns re-read it. *)
Theorem fold_idempotent_single_key c turns m :
  single_keyed c -> StronglySorted (fun a b => tu_ended_at b <= tu_ended_at a) turns ->
  fold_recent_turns c turns (fold_recent_turns c turns m) = fold_recent_turns c turns m.
Proof.
  intros Hs Hsort. unfold fold_recent_turns. apply fold_absorbed; [done|].
  apply fold_absorbs; [done|]. clear Hs. induction Hsort as [|t ts Hts IH Hall]; cbn; [constructor|].
  apply StronglySorted_snoc; [done|]. by apply List.Forall_rev.
Qed.

Definition demo_single : FallbackChain :=
  mkChain [mkEntry "anthropic" "big" [mkKey "A" None]; mkEntry "ollama" "small" []]%string ∅ None.
Definition demo_turns : list Turn :=
  [mkTurn "anthropic" "big" "ok" None 30;
   mkTurn "anthropic" "big" "error" (Some (lit "api error 429: slow down")) 10].

Lemma fold_idempotent_single_key_witness :
  fold_recent_turns demo_single demo_turns (fold_recent_turns demo_single demo_turns ∅)
  = fold_recent_turns demo_single demo_turns ∅.
Proof.
  apply (fold_idempotent_single_key demo_single demo_turns ∅).
  - split; [repeat constructor|].
    constructor; [intros [H | []]; discriminate H | constructor; [intros [] | constructor]].
  - repeat constructor. cbn. lia.
Defined.

(** With rotating keys the fold is not idempotent: re-reading a single
    rate-limited turn charges it to the next key of the entry, so after two
    spawns one failure has taken every key of a two-key entry out of use and
    selection leaves the entry. *)
Theorem refold_degrades_sibling :
  let turn := mkTurn "anthropic" "big" "error" (Some (lit "api error 429: slow down")) 10 in
  let once := fold_recent_turns demo_chain [turn] ∅ in
  let twice := fold_recent_turns demo_chain [turn] once in
  option_map sel_key_id (select demo_chain None once 20) = Some "B"%string
  /\ option_map sel_entry_index (select demo_chain None once 20) = Some 0%nat
  /\ he_failure_count (health twice ("anthropic", "big", "B")%string) = 1
  /\ option_map sel_entry_index (select demo_chain None twice 20) = Some 1%nat.
Proof. vm_compute. repeat split; reflexivity. Qed.

(** The alternates handed to the runner are the entries after the
    selected one that have a usable key, in order, each with the environment
    variable of the very key selection would pick for it. *)
Theorem alternates_agree_with_selection c m primary now :
  failover_alternates c m primary now
  = omap (fun e => option_map (fun k => mkAlternate (ce_provider e) (ce_model e) (snd k)) (pick_key e m now))
      (drop (S (sel_entry_index primary)) (fc_entries c)).
Proof.
  unfold failover_alternates. induction (drop _ (fc_entries c)) as [|e es IH]; [done|].
  assert (pick_eligible_key_env e m now = option_map snd (pick_key e m now)) as E.
  { unfold pick_eligible_key_env, pick_key, health. destruct (ce_keys e) as [|k ks];
      [by destruct (is_eligible _ now)|].
    destruct (find _ (k :: ks)); [done|]. by destruct (find _ (k :: ks)). }
  cbn. rewrite E, IH. by destruct (pick_key e m now).
Qed.

(** A recorded API error is classified like the error it came from: for
    every status below 600 the text of the error, bare or wrapped by the
    runner, gives the reason [from_error] gives, and for a larger one it
    gives none. *)
Theorem api_error_text_classified status m :
  0 <= status <= u16_max ->
  let expected := if status <? 600 then from_error (Api status m) else None in
  from_error_text (display (Api status m)) = expected
  /\ from_error_text (rejected_prefix ++ display (Api status m) ++ lit ")") = expected.
Proof.
  cbv zeta. intros Hs.
  assert (forall s, (if s =? 429 then Some RateLimit
                     else if (500 <=? s) && (s <? 600) then Some ServerError else None)
                    = if s <? 600 then from_error (Api s m) else None) as Hend.
  { intros s. cbn. destruct (Z.eqb_spec s 429) as [-> | ?]; [done|].
    destruct (Z.leb_spec 500 s), (Z.ltb_spec s 600); done || lia. }
  assert (display (Api status m) = [] ++ (api_marker ++ show_z status ++ 58 :: 32 :: m) ++ []) as Ed
    by (by rewrite app_nil_r).
  rewrite <- Hend, Ed, app_nil_r. cbn [app]. clear Ed Hend. split.
  - apply (classify_after_marker _ [] status (map to_ascii_lowercase (trim_end (32 :: m) ++ []))); [done | | done].
    rewrite <- (lower_api_text [] status) by done. f_equal. rewrite app_nil_r. cbn [app]. unfold trim.
    change (trim_start (api_marker ++ show_z status ++ 58 :: 32 :: m))
      with (api_marker ++ show_z status ++ 58 :: 32 :: m).
    rewrite app_assoc, trim_end_app by done. by rewrite <- app_assoc.
  - apply (classify_after_marker _ (map to_ascii_lowercase rejected_prefix) status
             (map to_ascii_lowercase ((32 :: m) ++ lit ")"))); [done | | done].
    rewrite <- lower_api_text by done. f_equal. unfold trim.
    change (trim_start (rejected_prefix ++ (api_marker ++ show_z status ++ 58 :: 32 :: m) ++ lit ")"))
      with (rejected_prefix ++ (api_marker ++ show_z status ++ 58 :: 32 :: m) ++ lit ")").
    change (lit ")") with [41]. rewrite app_assoc. by apply (trim_end_app _ 41 []).
Qed.

Lemma api_error_text_classified_witness :
  from_error_text (display (Api 503 (lit "try later"))) = Some ServerError.
Proof. exact (proj1 (api_error_text_classified 503 (lit "try later") ltac:(unfold u16_max; lia))). Defined.

(** The text classifier also degrades the chain on errors it is meant to
    leave alone: a bad request whose message mentions a timeout, and a
    deadline whose length in milliseconds looks like a server status. *)
Theorem bad_request_text_degrades :
  from_error (BadRequest (lit "timeout must be positive")) = None
  /\ from_error_text (display (BadRequest (lit "timeout must be positive"))) = Some TransportFailure
  /\ from_error (DeadlineExceeded 503 3) = None
  /\ from_error_text (display (DeadlineExceeded 503 3)) = Some ServerError.
Proof. vm_compute. repeat split; reflexivity. Qed.
