(* ===== verification/Policy.v ===== *)
(** Tool authorization ([copperclaw-runner/src/policy.rs]): the tool lists,
    the group profiles, the sender roles and the layered evaluation of one
    tool name.  The metrics increments are left out. *)
From S2P Require Import Prelude.

(** ** The tool lists *)

Definition contains (l : list rstr) (tool : rstr) : bool := existsb (rstr_eqb tool) l.

Definition ALWAYS_TOOLS : list rstr := Eval vm_compute in map lit
  ["send_message"; "send_file"; "edit_message"; "add_reaction"; "send_card";
   "ask_user_question"; "load_skill"; "todo_add"; "todo_list"; "todo_update";
   "todo_delete"; "compact_now"; "clear_history"; "artifact_path"]%string.

Definition READONLY_TOOLS : list rstr := Eval vm_compute in map lit
  ["read_file"; "view_image"; "glob"; "grep"; "find_symbol"; "git_blame"; "git_diff";
   "git_log"; "git_status"; "web_search"; "web_fetch"; "list_tasks"; "list_goals";
   "list_skills"]%string.

Definition SCHEDULING_MUTATION_TOOLS : list rstr := Eval vm_compute in map lit
  ["schedule_task"; "cancel_task"; "pause_task"; "resume_task"; "update_task";
   "create_goal"; "update_goal"; "register_condition"; "set_condition_flag"]%string.

Definition CODING_TOOLS : list rstr := Eval vm_compute in map lit
  ["shell"; "write_file"; "edit_file"; "multi_edit"; "apply_patch"; "copy_file";
   "explore"; "create_agent"; "delegate"; "expose_preview"; "close_preview";
   "make_preview_public"; "ui_screenshot"; "ui_inspect"; "diagnostics";
   "self_review"]%string.

Definition SELF_MOD_TOOLS : list rstr := Eval vm_compute in map lit
  ["install_packages"; "add_mcp_server"; "save_skill"]%string.
Definition MEMORY_WRITE_TOOLS : list rstr := Eval vm_compute in map lit ["memory_save"]%string.
Definition BROWSER_WRITE_TOOLS : list rstr := Eval vm_compute in map lit ["browser_interact"]%string.

Definition CREDENTIALED_EXTERNAL_TOOLS : list rstr := Eval vm_compute in map lit
  ["web_fetch"; "web_search"; "install_packages"; "add_mcp_server"; "expose_preview";
   "close_preview"; "make_preview_public"]%string.
Definition LAN_PREVIEW_TOOLS : list rstr := Eval vm_compute in map lit
  ["expose_preview"; "close_preview"]%string.
Definition PROVIDER_PINNED_SEARCH_TOOLS : list rstr := Eval vm_compute in
  map lit ["web_search"]%string.

Definition EXTERNAL_MCP_PREFIX : rstr := Eval vm_compute in lit "mcp__".

Definition is_credentialed_external (tool : rstr) : bool :=
  contains CREDENTIALED_EXTERNAL_TOOLS tool || starts_with EXTERNAL_MCP_PREFIX tool.
Definition is_lan_preview (tool : rstr) : bool := contains LAN_PREVIEW_TOOLS tool.
Definition is_provider_pinned_search (tool : rstr) : bool :=
  contains PROVIDER_PINNED_SEARCH_TOOLS tool.
Definition is_readonly_tool (tool : rstr) : bool := contains READONLY_TOOLS tool.

Definition is_mutating (tool : rstr) : bool :=
  contains SCHEDULING_MUTATION_TOOLS tool || contains CODING_TOOLS tool
  || contains SELF_MOD_TOOLS tool || contains MEMORY_WRITE_TOOLS tool
  || contains BROWSER_WRITE_TOOLS tool.

(** ** Profiles and roles *)

Inductive ToolProfile : Type := Minimal | Messaging | Coding | Full.
#[export] Instance ToolProfile_eq_dec : EqDecision ToolProfile.
Proof. solve_decision. Defined.

Module Profile.
Definition as_str (p : ToolProfile) : rstr :=
  match p with
  | Minimal => lit "minimal" | Messaging => lit "messaging"
  | Coding => lit "coding" | Full => lit "full"
  end.
Definition parse (s : rstr) : option ToolProfile :=
  if rstr_eqb s (lit "minimal") then Some Minimal
  else if rstr_eqb s (lit "messaging") then Some Messaging
  else if rstr_eqb s (lit "coding") then Some Coding
  else if rstr_eqb s (lit "full") then Some Full
  else None.
Definition allows (p : ToolProfile) (tool : rstr) : bool :=
  if contains ALWAYS_TOOLS tool then true
  else match p with
       | Minimal => false
       | Messaging => contains READONLY_TOOLS tool || contains SCHEDULING_MUTATION_TOOLS tool
       | Coding => contains READONLY_TOOLS tool || contains SCHEDULING_MUTATION_TOOLS tool
                   || contains CODING_TOOLS tool
       | Full => true
       end.
End Profile.

Inductive SenderRole : Type := Admin | Member | Guest.
#[export] Instance SenderRole_eq_dec : EqDecision SenderRole.
Proof. solve_decision. Defined.

Module Role.
Definition as_str (r : SenderRole) : rstr :=
  match r with Admin => lit "admin" | Member => lit "member" | Guest => lit "guest" end.
Definition parse (s : rstr) : option SenderRole :=
  if rstr_eqb s (lit "admin") then Some Admin
  else if rstr_eqb s (lit "member") then Some Member
  else if rstr_eqb s (lit "guest") then Some Guest
  else None.
Definition denies_mutating (r : SenderRole) : bool :=
  match r with Guest => true | Admin | Member => false end.
End Role.

(** ** The policy *)

Inductive PolicyDecision : Type :=
| Allow
| Deny (reason : rstr).

Definition is_allow (d : PolicyDecision) : bool :=
  match d with Allow => true | Deny _ => false end.
Definition deny_reason (d : PolicyDecision) : option rstr :=
  match d with Deny reason => Some reason | Allow => None end.

Record TurnTrust : Type := mkTrust {
  tainted : bool;
  approved : bool;
  autonomous : bool;
}.
Definition default_trust : TurnTrust := mkTrust false false false.

Record ToolPolicy : Type := mkPolicy {
  profile : ToolProfile;
  sender_role : option SenderRole;
  skill_allowed : option (list rstr);
  trust : TurnTrust;
}.
Definition default_policy : ToolPolicy := mkPolicy Full None None default_trust.
Definition new (profile : ToolProfile) (sender_role : option SenderRole) : ToolPolicy :=
  mkPolicy profile sender_role None default_trust.
Definition with_active_skill (p : ToolPolicy) (allowed_tools : option (list rstr)) : ToolPolicy :=
  mkPolicy (profile p) (sender_role p) allowed_tools (trust p).
Definition with_trust (p : ToolPolicy) (t : TurnTrust) : ToolPolicy :=
  mkPolicy (profile p) (sender_role p) (skill_allowed p) t.

Definition role_reason (tool : rstr) (role : SenderRole) : rstr :=
  lit "Tool `" ++ tool ++ lit "` is not available to `" ++ Role.as_str role
  ++ lit "` senders (read-only).".
Definition skill_reason (tool : rstr) : rstr :=
  lit "Tool `" ++ tool ++ lit "` is not in the active skill's allowed-tools list.".
Definition profile_reason (tool : rstr) (p : ToolProfile) : rstr :=
  lit "Tool `" ++ tool ++ lit "` is not permitted by the `" ++ Profile.as_str p
  ++ lit "` tool profile.".
Definition autonomy_reason (tool : rstr) : rstr :=
  lit "Tool `" ++ tool
  ++ lit "` takes a credentialed external action, which is not permitted on an autonomous (heartbeat/scheduled) turn. Search memory and propose the action for a human turn to approve instead.".
Definition taint_reason (tool : rstr) : rstr :=
  lit "Tool `" ++ tool
  ++ lit "` takes a credentialed external action, but this turn's context contains untrusted-provenance content (e.g. a fetched page or an untrusted memory entry). Fresh operator approval is required: an approval request has been filed for this action. Tell the user what you were blocked from doing and that once they approve it (the approval card, or `cclaw approvals approve-id <id>`) the clearance covers exactly ONE turn "
  ++ [8212] ++ lit " retry the action on your next turn after approval.".

Definition evaluate (p : ToolPolicy) (tool : rstr) : PolicyDecision :=
  let layer4 :=
    if is_credentialed_external tool then
      if autonomous (trust p) then Deny (autonomy_reason tool)
      else if tainted (trust p) && negb (approved (trust p))
              && negb (is_lan_preview tool) && negb (is_provider_pinned_search tool)
      then Deny (taint_reason tool)
      else Allow
    else Allow in
  let layer3 :=
    if negb (Profile.allows (profile p) tool) then Deny (profile_reason tool (profile p))
    else layer4 in
  let layer2 :=
    match skill_allowed p with
    | Some allowed =>
        if negb (contains ALWAYS_TOOLS tool) && negb (contains allowed tool)
        then Deny (skill_reason tool) else layer3
    | None => layer3
    end in
  match sender_role p with
  | Some role =>
      if Role.denies_mutating role && is_mutating tool
      then Deny (role_reason tool role) else layer2
  | None => layer2
  end.

(** * Properties *)

Lemma contains_In l t : contains l t = true <-> In t l.
Proof.
  unfold contains. rewrite existsb_exists. split.
  - intros (x & Hx & E). apply rstr_eqb_eq in E. by subst.
  - intros H. exists t. split; [done | apply rstr_eqb_refl].
Qed.

(** A predicate that is false on every tool of a list is false on any tool
    the list contains; a finite check by evaluation. *)
Lemma contains_forallb l (p : rstr -> bool) t :
  forallb p l = true -> contains l t = true -> p t = true.
Proof. rewrite forallb_forall, contains_In. auto. Qed.

(** The housekeeping tools are neither mutating nor external. *)
Lemma always_harmless t :
  contains ALWAYS_TOOLS t = true -> is_mutating t = false /\ is_credentialed_external t = false.
Proof.
  intros H.
  assert (negb (is_mutating t) && negb (is_credentialed_external t) = true) as E.
  { by apply (contains_forallb ALWAYS_TOOLS
      (fun t => negb (is_mutating t) && negb (is_credentialed_external t))). }
  apply andb_prop in E as [E1 E2]. by apply negb_true_iff in E1, E2.
Qed.

(** What every layer demands of a call that is let through. *)
Record permitted (p : ToolPolicy) (tool : rstr) : Prop := {
  perm_role : sender_role p = Some Guest -> is_mutating tool = false;
  perm_skill : forall allowed, skill_allowed p = Some allowed ->
    In tool ALWAYS_TOOLS \/ In tool allowed;
  perm_profile : Profile.allows (profile p) tool = true;
  perm_external : is_credentialed_external tool = true ->
    autonomous (trust p) = false
    /\ (tainted (trust p) = true -> approved (trust p) = true
        \/ is_lan_preview tool = true \/ is_provider_pinned_search tool = true);
}.

Lemma evaluate_permitted p tool : evaluate p tool = Allow <-> permitted p tool.
Proof.
  split.
  - unfold evaluate. cbv zeta. intros H. constructor.
    + intros E. rewrite E in H. cbn in H. by destruct (is_mutating tool).
    + intros allowed E. rewrite E in H. rewrite <- !contains_In.
      destruct (contains ALWAYS_TOOLS tool); [by left|].
      destruct (contains allowed tool); [by right|]. cbn in H. by repeat case_match.
    + destruct (Profile.allows (profile p) tool); [done|]. cbn in H. by repeat case_match.
    + intros E. rewrite E in H.
      destruct (autonomous (trust p)); [by repeat case_match|]. split; [done|]. intros Ht.
      rewrite Ht in H. destruct (approved (trust p)); [by left|]. right.
      destruct (is_lan_preview tool); [by left|]. right.
      destruct (is_provider_pinned_search tool); [done|]. cbn in H. by repeat case_match.
  - intros [Hr Hs Hp He]. unfold evaluate. cbv zeta.
    assert ((if is_credentialed_external tool
             then if autonomous (trust p) then Deny (autonomy_reason tool)
                  else if tainted (trust p) && negb (approved (trust p))
                          && negb (is_lan_preview tool) && negb (is_provider_pinned_search tool)
                       then Deny (taint_reason tool) else Allow
             else Allow) = Allow) as ->.
    { destruct (is_credentialed_external tool); [|done].
      destruct (He eq_refl) as [-> Ht]. destruct (tainted (trust p)); [|done].
      destruct (Ht eq_refl) as [-> | [-> | ->]]; cbn; rewrite ?andb_false_r; done. }
    rewrite Hp. cbn [negb].
    assert (match skill_allowed p with
            | Some allowed =>
                if negb (contains ALWAYS_TOOLS tool) && negb (contains allowed tool)
                then Deny (skill_reason tool) else Allow
            | None => Allow
            end = Allow) as ->.
    { destruct (skill_allowed p) as [allowed|]; [|done].
      destruct (Hs allowed eq_refl) as [H | H]; apply contains_In in H; rewrite H;
        cbn; by rewrite ?andb_false_r. }
    destruct (sender_role p) as [[]|]; try done. cbn. by rewrite Hr.
Qed.

(** The tiers of the profiles. *)
Definition rank (p : ToolProfile) : nat :=
  match p with Minimal => 0 | Messaging => 1 | Coding => 2 | Full => 3 end.

Lemma allows_mono p q tool :
  (rank p <= rank q)%nat -> Profile.allows p tool = true -> Profile.allows q tool = true.
Proof.
  unfold Profile.allows. destruct (contains ALWAYS_TOOLS tool); [done|].
  destruct p, q; cbn; try lia; try done; intros _ ->; by rewrite ?orb_true_r.
Qed.

(** [p] is at least as narrow as [q] in every layer. *)
Record narrower (p q : ToolPolicy) : Prop := {
  nar_profile : (rank (profile p) <= rank (profile q))%nat;
  nar_role : sender_role q = Some Guest -> sender_role p = Some Guest;
  nar_skill : forall aq, skill_allowed q = Some aq ->
    exists ap, skill_allowed p = Some ap /\ incl ap aq;
  nar_autonomous : autonomous (trust q) = true -> autonomous (trust p) = true;
  nar_tainted : tainted (trust q) = true -> tainted (trust p) = true;
  nar_approved : approved (trust p) = true -> approved (trust q) = true;
}.

(** Narrowing never widens: a policy with a lower profile, a guest in
    place of another sender, a smaller skill scope, an autonomous in place of
    a human turn, an added taint or a withdrawn approval lets through no tool
    that the wider policy refuses. *)
Theorem narrowing_never_widens p q tool :
  narrower p q -> evaluate p tool = Allow -> evaluate q tool = Allow.
Proof.
  intros [Hp Hr Hs Ha Ht Hap]. rewrite !evaluate_permitted. intros [Pr Ps Pp Pe]. constructor.
  - auto.
  - intros aq E. destruct (Hs aq E) as (ap & E' & Hincl).
    destruct (Ps ap E') as [H | H]; [by left | right; by apply Hincl].
  - by apply (allows_mono (profile p)).
  - intros E. destruct (Pe E) as [E1 E2]. split.
    + apply not_true_iff_false. intros H. apply Ha in H. congruence.
    + intros H. destruct (E2 (Ht H)) as [H' | H']; [left; by apply Hap | by right].
Qed.

Example narrowing_never_widens_witness :
  let p := with_active_skill (new Messaging (Some Guest)) (Some [lit "read_file"]) in
  narrower p (new Coding None) /\ evaluate (new Coding None) (lit "read_file") = Allow.
Proof.
  intros p. assert (narrower p (new Coding None)) as H by by constructor; cbn; try lia.
  split; [exact H|]. by apply (narrowing_never_widens p).
Defined.

(** The read-only floor: whatever the profile, the skill scope and the
    trust of the turn, a guest is refused every tool that schedules, writes
    files or memory, runs a shell, drives a browser or rewires the agent;
    under any profile but the full one a guest is let through to
    housekeeping and read-only tools only. *)
Theorem guest_floor p tool :
  sender_role p = Some Guest -> evaluate p tool = Allow ->
  is_mutating tool = false
  /\ (profile p = Full \/ In tool ALWAYS_TOOLS \/ In tool READONLY_TOOLS).
Proof.
  intros Hg. rewrite evaluate_permitted. intros [Hr _ Hp _]. specialize (Hr Hg).
  split; [done|]. rewrite <- !contains_In. revert Hp. unfold Profile.allows.
  destruct (contains ALWAYS_TOOLS tool); [auto|]. revert Hr. unfold is_mutating.
  rewrite !orb_false_iff. intros [[[[-> ->] _] _] _].
  destruct (profile p); [done | | | by left]; rewrite !orb_false_r; auto.
Qed.

Example guest_floor_witness :
  let p := new Coding (Some Guest) in
  evaluate p (lit "git_log") = Allow
  /\ (profile p = Full \/ In (lit "git_log") ALWAYS_TOOLS \/ In (lit "git_log") READONLY_TOOLS).
Proof. intros p. split; [done|]. by apply (guest_floor p (lit "git_log")). Defined.

(** The floor does not reach the tools of external servers: under the
    full profile a guest may call every one of them, whatever it changes. *)
Theorem guest_full_external tool :
  evaluate (new Full (Some Guest)) (EXTERNAL_MCP_PREFIX ++ tool) = Allow.
Proof.
  apply evaluate_permitted. constructor; [done | done | | done].
  unfold Profile.allows. by case_goal.
Qed.

(** The tools an agent needs to answer and to keep its session in order
    are let through under every policy. *)
Theorem housekeeping_always_allowed p tool :
  In tool ALWAYS_TOOLS -> evaluate p tool = Allow.
Proof.
  intros H. apply evaluate_permitted. apply contains_In in H.
  destruct (always_harmless tool H) as [Hm He]. constructor.
  - done.
  - intros. left. by apply contains_In.
  - unfold Profile.allows. by rewrite H.
  - congruence.
Qed.

Example housekeeping_always_allowed_witness :
  evaluate (mkPolicy Minimal (Some Guest) (Some []) (mkTrust true false true))
    (lit "send_message") = Allow.
Proof. apply (housekeeping_always_allowed _ (lit "send_message")). by left. Defined.
