(* ===== verification/Grants.v ===== *)
(** Capability grants ([copperclaw-db/src/tables/task_grants.rs]): the
    human-approved, bounded authorisations of autonomous task fires, their
    liveness and the scope grammar; and the debit the delivery loop applies
    ([copperclaw-host-delivery/src/service.rs], [apply_grant_consume]).
    Columns are integers and instants; a grant's [task_id] refers to the
    tasks table, whose membership test is an argument of the insert. *)
From S2P Require Import Prelude Types.

(** ** Scopes *)

Definition split_scope (token : rstr) : rstr * option rstr :=
  match split_once (chr ":") token with
  | Some (class, res) => (class, Some res)
  | None => (token, None)
  end.

Definition class_level (res : option rstr) : bool :=
  match res with None => true | Some r => rstr_eqb r (lit "*") end.

Definition scope_permits (scope required : rstr) : bool :=
  let required := trim required in
  match required with
  | [] => false
  | _ =>
      let '(req_class, _) := split_scope required in
      existsb (fun token =>
        if rstr_eqb token required then true
        else let '(tok_class, tok_res) := split_scope token in
             class_level tok_res && rstr_eqb tok_class req_class)
        (split_whitespace scope)
  end.

(** ** Rows *)

Inductive GrantStatus : Type := Approved | Revoked.
#[export] Instance GrantStatus_eq_dec : EqDecision GrantStatus.
Proof. solve_decision. Defined.

Definition GrantStatus_as_str (s : GrantStatus) : string :=
  match s with Approved => "approved" | Revoked => "revoked" end%string.
Definition GrantStatus_from_str (s : string) : result string GrantStatus :=
  if String.eqb s "approved" then Ok Approved
  else if String.eqb s "revoked" then Ok Revoked
  else Err (String.append "unknown grant status `" (String.append s "`")).

Record TaskGrant : Type := mkGrant {
  tg_id : rstr;
  tg_task_id : rstr;
  tg_capability_scope : rstr;
  tg_token_budget : option Z;
  tg_tokens_consumed : Z;
  tg_max_fires : option Z;
  tg_fires_consumed : Z;
  tg_expires_at : option instant;
  tg_granted_by : option rstr;
  tg_status : GrantStatus;
  tg_approved_at : option instant;
  tg_revoked_at : option instant;
  tg_created_at : instant;
  tg_updated_at : instant;
}.

Definition reached (bound : option Z) (consumed : Z) : bool :=
  match bound with Some b => b <=? consumed | None => false end.
Definition expired (expires_at : option instant) (now : instant) : bool :=
  match expires_at with Some exp => exp <=? now | None => false end.
Definition not_approved (g : TaskGrant) : bool :=
  negb (bool_decide (tg_status g = Approved))
  || match tg_revoked_at g with Some _ => true | None => false end.

Definition effective_status (g : TaskGrant) (now : instant) : string :=
  if not_approved g then "revoked"
  else if expired (tg_expires_at g) now then "expired"
  else if reached (tg_token_budget g) (tg_tokens_consumed g) then "exhausted"
  else if reached (tg_max_fires g) (tg_fires_consumed g) then "exhausted"
  else "live".

Record NewTaskGrant : Type := mkNewGrant {
  ng_id : rstr;
  ng_task_id : rstr;
  ng_capability_scope : rstr;
  ng_token_budget : option Z;
  ng_max_fires : option Z;
  ng_expires_at : option instant;
  ng_granted_by : option rstr;
}.

Record EffectiveGrant : Type := mkEffective {
  eg_id : rstr;
  eg_task_id : rstr;
  eg_capability_scope : rstr;
  eg_token_budget : option Z;
  eg_tokens_consumed : Z;
  eg_max_fires : option Z;
  eg_fires_consumed : Z;
  eg_expires_at : option instant;
  eg_granted_by : option rstr;
  eg_approved_at : option instant;
}.

Definition permits (e : EffectiveGrant) (required : rstr) : bool :=
  scope_permits (eg_capability_scope e) required.
Definition tokens_remaining (e : EffectiveGrant) : option Z :=
  option_map (fun b => Z.max (b - eg_tokens_consumed e) 0) (eg_token_budget e).
Definition fires_remaining (e : EffectiveGrant) : option Z :=
  option_map (fun m => Z.max (m - eg_fires_consumed e) 0) (eg_max_fires e).

(** ** The table *)

Abbreviation grant_table := (list TaskGrant) (only parsing).
Definition has_id (id : rstr) (g : TaskGrant) : bool := rstr_eqb (tg_id g) id.

Definition inserted (grant : NewTaskGrant) (now : instant) : TaskGrant :=
  mkGrant (ng_id grant) (ng_task_id grant) (ng_capability_scope grant) (ng_token_budget grant) 0
    (ng_max_fires grant) 0 (ng_expires_at grant) (ng_granted_by grant) Approved (Some now) None
    now now.

(** [INSERT] with the primary key and the foreign key on the tasks. *)
Definition insert_approved (task_exists : rstr -> bool) (t : grant_table)
  (grant : NewTaskGrant) (now : instant) : result DbError (TaskGrant * grant_table) :=
  if existsb (has_id (ng_id grant)) t || negb (task_exists (ng_task_id grant))
  then Err SqliteConstraint
  else Ok (inserted grant now, t ++ [inserted grant now]).

Definition grant_get (t : grant_table) (id : rstr) : option TaskGrant := sql_get (has_id id) t.

Definition list_for_task (t : grant_table) (task_id : rstr) : list TaskGrant :=
  order_by (fun g => - tg_created_at g)
    (List.filter (fun g => rstr_eqb (tg_task_id g) task_id) t).

(** The task columns a listing is joined with. *)
Record TaskIdentity : Type := mkTaskIdentity {
  ti_id : rstr;
  ti_name : option string;
  ti_agent_group_id : string;
  ti_session_id : string;
}.
Record GrantWithTask : Type := mkGrantWithTask {
  gw_grant : TaskGrant;
  gw_task_name : option string;
  gw_agent_group_id : string;
  gw_session_id : string;
}.
Definition list_with_tasks (tasks : list TaskIdentity) (t : grant_table)
  (agent_group_id : option string) : list GrantWithTask :=
  order_by (fun w => - tg_created_at (gw_grant w))
    (flat_map (fun g =>
       map (fun ti => mkGrantWithTask g (ti_name ti) (ti_agent_group_id ti) (ti_session_id ti))
         (List.filter (fun ti =>
            rstr_eqb (ti_id ti) (tg_task_id g)
            && match agent_group_id with
               | Some ag => String.eqb (ti_agent_group_id ti) ag
               | None => true
               end) tasks)) t).

(** [UPDATE ... WHERE id = ?], an error when no row matches. *)
Definition update_by_id (id : rstr) (f : TaskGrant -> TaskGrant) (t : grant_table)
  : result DbError grant_table :=
  let '(t', n) := sql_update (has_id id) f t in
  if (n =? 0)%nat then Err NotFound else Ok t'.

Definition set_revoked (now : instant) (g : TaskGrant) : TaskGrant :=
  mkGrant (tg_id g) (tg_task_id g) (tg_capability_scope g) (tg_token_budget g)
    (tg_tokens_consumed g) (tg_max_fires g) (tg_fires_consumed g) (tg_expires_at g)
    (tg_granted_by g) Revoked (tg_approved_at g) (Some now) (tg_created_at g) now.
Definition add_consumed (tokens fires : Z) (now : instant) (g : TaskGrant) : TaskGrant :=
  mkGrant (tg_id g) (tg_task_id g) (tg_capability_scope g) (tg_token_budget g)
    (tg_tokens_consumed g + tokens) (tg_max_fires g) (tg_fires_consumed g + fires)
    (tg_expires_at g) (tg_granted_by g) (tg_status g) (tg_approved_at g) (tg_revoked_at g)
    (tg_created_at g) now.

Definition revoke (t : grant_table) (id : rstr) (now : instant) : result DbError grant_table :=
  update_by_id id (set_revoked now) t.
Definition consume_fire (t : grant_table) (id : rstr) (now : instant)
  : result DbError grant_table :=
  update_by_id id (add_consumed 0 1 now) t.
Definition consume_tokens (t : grant_table) (id : rstr) (tokens : Z) (now : instant)
  : result DbError grant_table :=
  if tokens <? 0 then Err (Invariant "consume_tokens: `tokens` must be non-negative")
  else update_by_id id (add_consumed tokens 0 now) t.

Definition effective_of (g : TaskGrant) : EffectiveGrant :=
  mkEffective (tg_id g) (tg_task_id g) (tg_capability_scope g) (tg_token_budget g)
    (tg_tokens_consumed g) (tg_max_fires g) (tg_fires_consumed g) (tg_expires_at g)
    (tg_granted_by g) (tg_approved_at g).

Definition effective_grant (t : grant_table) (task_id : rstr) (now : instant)
  : option EffectiveGrant :=
  match list_for_task t task_id with
  | [] => None
  | g :: _ =>
      if not_approved g then None
      else if expired (tg_expires_at g) now then None
      else if reached (tg_token_budget g) (tg_tokens_consumed g) then None
      else if reached (tg_max_fires g) (tg_fires_consumed g) then None
      else Some (effective_of g)
  end.

(** ** The debit of a reported fire *)

(** [for _ in 0..fires { consume_fire(...)? }]: one update per fire, stopping
    at the first error. *)
Fixpoint consume_fires (n : nat) (t : grant_table) (id : rstr) (now : instant)
  : result DbError grant_table :=
  match n with
  | O => Ok t
  | S n' => let? t' := consume_fire t id now in consume_fires n' t' id now
  end.

Definition jget_i64 (k : string) (j : json) : option Z :=
  match jget k j with
  | Some (JNum n) => if (i64_min <=? n) && (n <=? i64_max) then Some n else None
  | _ => None
  end.

Definition apply_grant_consume (t : grant_table) (payload : json)
  (now : instant) : result DbError grant_table :=
  match option_map trim (jget_str "grant_id" payload) with
  | None | Some [] => Err (Invariant "grant_consume: missing grant_id")
  | Some grant_id =>
      let fires := Z.max (default 1 (jget_i64 "fires" payload)) 0 in
      let? t' := consume_fires (Z.to_nat fires) t grant_id now in
      match jget_i64 "tokens" payload with
      | Some tokens => if 0 <? tokens then consume_tokens t' grant_id tokens now else Ok t'
      | None => Ok t'
      end
  end.

(** ** Histories *)

Inductive grant_op : Type :=
| OpInsert (g : NewTaskGrant)
| OpRevoke (id : rstr)
| OpFire (id : rstr)
| OpTokens (id : rstr) (n : Z).

Definition grant_write (task_exists : rstr -> bool) (t : grant_table)
  (op : instant * grant_op) : grant_table :=
  let '(now, o) := op in
  let r := match o with
           | OpInsert g => match insert_approved task_exists t g now with
                           | Ok (_, t') => Ok t'
                           | Err e => Err e
                           end
           | OpRevoke id => revoke t id now
           | OpFire id => consume_fire t id now
           | OpTokens id n => consume_tokens t id n now
           end in
  match r with Ok t' => t' | Err _ => t end.
Definition run_grants (task_exists : rstr -> bool) (t : grant_table)
  (ops : list (instant * grant_op)) : grant_table :=
  fold_left (grant_write task_exists) ops t.

(** What a history does to one grant. *)
Definition fires_on (id : rstr) (ops : list (instant * grant_op)) : Z :=
  sql_count (fun o => match snd o with OpFire i => rstr_eqb i id | _ => false end) ops.
Fixpoint tokens_on (id : rstr) (ops : list (instant * grant_op)) : Z :=
  match ops with
  | [] => 0
  | (_, OpTokens i n) :: ops' =>
      (if rstr_eqb i id && (0 <=? n) then n else 0) + tokens_on id ops'
  | _ :: ops' => tokens_on id ops'
  end.
Definition revoked_on (id : rstr) (ops : list (instant * grant_op)) : bool :=
  existsb (fun o => match snd o with OpRevoke i => rstr_eqb i id | _ => false end) ops.

(** * Properties *)

(** ** The scope grammar *)

(** What a scope token covers: the exact capability, or the whole class of
    the capability as the bare class or with the wildcard. *)
Definition covers (token required : rstr) : Prop :=
  let class := fst (split_scope required) in
  token = required \/ token = class \/ token = class ++ lit ":*".

Lemma split_scope_class s : ~ In (chr ":") (fst (split_scope s)).
Proof.
  unfold split_scope. destruct (split_once _ s) as [[a b]|] eqn:E; cbn.
  - by apply split_once_Some in E as [_ ?].
  - induction s as [|c s IH]; [intros []|]. cbn in E. revert E.
    destruct (Z.eqb_spec c (chr ":")) as [|Hne]; [done|].
    destruct (split_once (chr ":") s) as [[]|]; [done|]. intros _ [? | ?]; [done|]. by apply IH.
Qed.

Lemma covers_iff token required :
  (if rstr_eqb token required then true
   else let '(tok_class, tok_res) := split_scope token in
        class_level tok_res && rstr_eqb tok_class (fst (split_scope required))) = true
  <-> covers token required.
Proof.
  unfold covers. cbv zeta. pose proof (split_scope_class required) as Hc.
  set (class := fst (split_scope required)) in *. clearbody class.
  destruct (rstr_eqb token required) eqn:E.
  { apply rstr_eqb_eq in E. tauto. }
  assert (token <> required) as Hne by (intros ->; by rewrite rstr_eqb_refl in E).
  split.
  - destruct (split_scope token) as [tc tr] eqn:Et. intros H. apply andb_prop in H as [Hl H].
    apply rstr_eqb_eq in H. subst tc. right. unfold split_scope in Et.
    destruct (split_once (chr ":") token) as [[a b]|] eqn:Es; simplify_eq; [|by left].
    right. apply split_once_Some in Es as [-> _]. cbn in Hl. apply rstr_eqb_eq in Hl. by subst.
  - unfold split_scope. intros [? | [-> | ->]]; [done | |].
    + rewrite split_once_None by done. cbn. apply rstr_eqb_refl.
    + change (lit ":*") with (chr ":" :: lit "*"). rewrite split_once_app by done. cbn.
      apply rstr_eqb_refl.
Qed.

(** A scope permits a capability exactly when one of its tokens covers
    it: there is no matching across classes, a resource token does not widen
    to its class, and an empty scope or an empty capability permits
    nothing. *)
Theorem scope_permits_spec scope required :
  scope_permits scope required = true
  <-> trim required <> []
      /\ exists token, In token (split_whitespace scope) /\ covers token (trim required).
Proof.
  unfold scope_permits. cbv zeta. destruct (trim required) as [|c r] eqn:E; [split; [done | tauto]|].
  destruct (split_scope (c :: r)) as [rc rr] eqn:Er.
  assert (rc = fst (split_scope (c :: r))) as -> by by rewrite Er.
  rewrite existsb_exists. split.
  - intros (tok & Hin & H). apply covers_iff in H. eauto.
  - intros (_ & tok & Hin & H). apply covers_iff in H. eauto.
Qed.

(** ** Liveness *)

(** The grant an autonomous fire may use is the newest one of its task,
    and there is one exactly when the operator's listing shows that newest
    grant as live; an older grant is never fallen back to. *)
Theorem effective_grant_newest t task_id now :
  match head (list_for_task t task_id) with
  | None => effective_grant t task_id now = None
  | Some g =>
      In g t /\ tg_task_id g = task_id
      /\ (forall g', In g' t -> tg_task_id g' = task_id -> tg_created_at g' <= tg_created_at g)
      /\ (effective_status g now = "live"%string -> effective_grant t task_id now = Some (effective_of g))
      /\ (effective_status g now <> "live"%string -> effective_grant t task_id now = None)
  end.
Proof.
  unfold effective_grant, list_for_task. set (p := fun g => rstr_eqb (tg_task_id g) task_id).
  destruct (order_by _ _) as [|g l] eqn:E; [done|]. cbn [head].
  assert (In g (List.filter p t)) as Hin.
  { apply (order_by_In (fun g => - tg_created_at g)). rewrite E. by left. }
  apply filter_In in Hin as [Hin Hp]. apply rstr_eqb_eq in Hp. repeat split; try done.
  - intros g' Hg' Ht. assert (In g' (List.filter p t)) as Hf.
    { apply filter_In. split; [done|]. unfold p. by rewrite Ht, rstr_eqb_refl. }
    pose proof (head_order_by_min (fun g => - tg_created_at g) (List.filter p t) g g').
    rewrite E in H. specialize (H eq_refl Hf). cbn in H. lia.
  - unfold effective_status. by repeat case_match.
  - unfold effective_status. by repeat case_match.
Qed.

(** ** Histories *)

(** The columns no write touches. *)
Definition same_terms (g g' : TaskGrant) : Prop :=
  tg_id g' = tg_id g /\ tg_task_id g' = tg_task_id g
  /\ tg_capability_scope g' = tg_capability_scope g
  /\ tg_token_budget g' = tg_token_budget g /\ tg_max_fires g' = tg_max_fires g
  /\ tg_expires_at g' = tg_expires_at g /\ tg_created_at g' = tg_created_at g.

(** What one write does to a grant that is in the table. *)
Definition rewrite_by (op : instant * grant_op) (g : TaskGrant) : TaskGrant :=
  let '(now, o) := op in
  match o with
  | OpInsert _ => g
  | OpRevoke id => if has_id id g then set_revoked now g else g
  | OpFire id => if has_id id g then add_consumed 0 1 now g else g
  | OpTokens id n =>
      if has_id id g && (0 <=? n) then add_consumed n 0 now g else g
  end.

Lemma rewrite_by_terms op g : same_terms g (rewrite_by op g).
Proof. destruct op as [now []]; cbn; try case_match; done. Qed.

Lemma update_by_id_eq id f t :
  match update_by_id id f t with Ok t' => t' | Err _ => t end
  = map (fun g => if has_id id g then f g else g) t.
Proof.
  unfold update_by_id. destruct (sql_update (has_id id) f t) as [t' n] eqn:E.
  assert (t' = fst (sql_update (has_id id) f t) /\ n = snd (sql_update (has_id id) f t)) as [-> ->]
    by by rewrite E.
  destruct (Nat.eqb_spec (snd (sql_update (has_id id) f t)) 0); [|done].
  symmetry. by apply sql_update_none.
Qed.

(** A write is a rewriting of the grants that are there, followed by at most
    one new grant with a fresh id. *)
Lemma grant_write_shape tx t op :
  exists new, grant_write tx t op = map (rewrite_by op) t ++ new
    /\ Forall (fun g => ~ In (tg_id g) (map tg_id t)) new.
Proof.
  assert (forall A (l : list A), map (fun x => x) l = l) as Hid by apply List.map_id.
  destruct op as [now [g | id | id | id n]]; unfold grant_write, rewrite_by; cbv zeta.
  - unfold insert_approved. rewrite Hid.
    destruct (existsb (has_id (ng_id g)) t) eqn:E; cbn [orb]; [by exists []; rewrite app_nil_r|].
    destruct (negb (tx (ng_task_id g))); cbn; [by exists []; rewrite app_nil_r|].
    eexists. split; [done|]. repeat constructor. intros Hin. apply not_true_iff_false in E.
    apply E, existsb_exists. apply in_map_iff in Hin as (g' & Hg' & Hin). exists g'.
    split; [done|]. apply rstr_eqb_eq. by rewrite Hg'.
  - exists []. rewrite app_nil_r. split; [apply update_by_id_eq | done].
  - exists []. rewrite app_nil_r. split; [apply update_by_id_eq | done].
  - exists []. rewrite app_nil_r. split; [|done]. unfold consume_tokens.
    destruct (Z.ltb_spec n 0), (Z.leb_spec 0 n); try lia.
    + rewrite <- (Hid _ t) at 1. apply map_ext. intros g. by rewrite andb_false_r.
    + etrans; [apply update_by_id_eq|]. apply map_ext. intros g. by rewrite andb_true_r.
Qed.

(** The first grant of a task after a write is the rewriting of the first
    one before it, or new. *)
Lemma list_for_task_write tx t op task g' :
  head (list_for_task (grant_write tx t op) task) = Some g' ->
  (exists g, head (list_for_task t task) = Some g /\ g' = rewrite_by op g)
  \/ ~ In (tg_id g') (map tg_id t).
Proof.
  destruct (grant_write_shape tx t op) as (new & -> & Hnew). unfold list_for_task.
  rewrite List.filter_app. rewrite filter_map_same.
  2: { intros x. destruct (rewrite_by_terms op x) as (_ & -> & _). done. }
  intros H. apply head_order_by_app in H as [H | H].
  - rewrite order_by_map in H.
    + left. destruct (order_by _ _) as [|g l]; [done|]. cbn in *. exists g. split; congruence.
    + intros x. destruct (rewrite_by_terms op x) as (_ & _ & _ & _ & _ & _ & ->). done.
  - right. apply filter_In in H as [H _]. rewrite List.Forall_forall in Hnew. by apply Hnew.
Qed.

(** The grant with this id is not usable at this instant, for any task. *)
Definition inert (id : rstr) (t : grant_table) (now : instant) : Prop :=
  forall task e, effective_grant t task now = Some e -> eg_id e <> id.

Lemma effective_grant_Some t task now e :
  effective_grant t task now = Some e ->
  exists g, head (list_for_task t task) = Some g /\ e = effective_of g
    /\ not_approved g = false /\ expired (tg_expires_at g) now = false
    /\ reached (tg_token_budget g) (tg_tokens_consumed g) = false
    /\ reached (tg_max_fires g) (tg_fires_consumed g) = false.
Proof.
  unfold effective_grant. destruct (list_for_task t task) as [|g l]; [done|].
  repeat (case_match; [done|]). intros [= <-]. by exists g.
Qed.

Lemma effective_grant_intro t task now g :
  head (list_for_task t task) = Some g -> not_approved g = false ->
  expired (tg_expires_at g) now = false ->
  reached (tg_token_budget g) (tg_tokens_consumed g) = false ->
  reached (tg_max_fires g) (tg_fires_consumed g) = false ->
  effective_grant t task now = Some (effective_of g).
Proof.
  unfold effective_grant. destruct (list_for_task t task) as [|g' l]; [done|]. cbn.
  by intros [= ->] -> -> -> ->.
Qed.

(** A write never makes a used-up or revoked grant usable. *)
Lemma rewrite_by_live op g :
  not_approved (rewrite_by op g) = false -> not_approved g = false.
Proof. destruct op as [now []]; cbn; try case_match; done. Qed.

Lemma rewrite_by_consumed op g :
  tg_tokens_consumed g <= tg_tokens_consumed (rewrite_by op g)
  /\ tg_fires_consumed g <= tg_fires_consumed (rewrite_by op g).
Proof.
  destruct op as [now []]; cbn; try case_match; cbn; bool_to_prop; lia.
Qed.

Lemma reached_mono b x y : x <= y -> reached b y = false -> reached b x = false.
Proof. destruct b as [b|]; cbn; [|done]. intros. bool_to_prop. apply Z.leb_gt. lia. Qed.

Lemma inert_write tx t op id now :
  In id (map tg_id t) -> inert id t now -> inert id (grant_write tx t op) now.
Proof.
  intros Hid Hi task e He Heq. apply effective_grant_Some in He as (g' & Hh & -> & Ha & Hx & Ht & Hf).
  apply list_for_task_write in Hh as [(g & Hh & ->) | Hn]; [|cbn in Heq; by subst id].
  destruct (rewrite_by_terms op g) as (E1 & _ & _ & E4 & E5 & E6 & _).
  destruct (rewrite_by_consumed op g) as [C1 C2].
  rewrite E4 in Ht. rewrite E5 in Hf. rewrite E6 in Hx. cbn in Heq. rewrite E1 in Heq.
  apply (Hi task (effective_of g)); [|done]. apply effective_grant_intro; try done.
  - by apply (rewrite_by_live op).
  - by apply (reached_mono _ _ (tg_tokens_consumed (rewrite_by op g))).
  - by apply (reached_mono _ _ (tg_fires_consumed (rewrite_by op g))).
Qed.

Lemma write_keeps_id tx t op id :
  In id (map tg_id t) -> In id (map tg_id (grant_write tx t op)).
Proof.
  destruct (grant_write_shape tx t op) as (new & -> & _). intros H. rewrite map_app.
  apply in_or_app. left. rewrite map_map.
  erewrite map_ext; [exact H|]. intros g. by destruct (rewrite_by_terms op g).
Qed.

(** Authority is never regained: a grant that is in the table and not
    usable, because it was revoked, has expired, is used up or was
    superseded by a newer one, stays unusable for every task at every later
    instant, whatever is inserted, revoked or consumed in between. *)
Theorem inert_grant_stays_inert tx t ops id now now' :
  In id (map tg_id t) -> inert id t now -> now <= now' ->
  inert id (run_grants tx t ops) now'.
Proof.
  intros Hid Hi Hle. assert (inert id t now') as Hi'.
  { intros task e He. apply effective_grant_Some in He as (g & Hh & -> & Ha & Hx & Ht & Hf).
    apply (Hi task). apply effective_grant_intro; try done.
    destruct (tg_expires_at g) as [x|]; cbn in *; [|done]. bool_to_prop. apply Z.leb_gt. lia. }
  clear Hi. unfold run_grants. revert t Hid Hi'.
  induction ops as [|op ops IH]; intros t Hid Hi; cbn; [done|].
  apply IH; [by apply write_keeps_id | by apply inert_write].
Qed.

(** A grant with one fire is used once: inert for good. *)
Definition tasks_all : rstr -> bool := fun _ => true.
Definition sample_grant : NewTaskGrant :=
  mkNewGrant (lit "g1") (lit "t1") (lit "web_fetch:example.com") None (Some 1) None None.
Definition sample_table : grant_table :=
  run_grants tasks_all [] [(10, OpInsert sample_grant); (20, OpFire (lit "g1"))].

Lemma sample_inert : inert (lit "g1") sample_table 30.
Proof.
  intros task e He. exfalso. apply effective_grant_Some in He as (g & Hh & -> & _ & _ & _ & Hf).
  unfold list_for_task in Hh.
  assert (In g sample_table) as Hin.
  { apply (proj1 (filter_In (fun g => rstr_eqb (tg_task_id g) task) g sample_table)).
    apply (order_by_In (fun g => - tg_created_at g)).
    destruct (order_by _ _); [done|]. cbn in Hh. simplify_eq. by left. }
  vm_compute in Hin. by destruct Hin as [<- | []].
Qed.

Example inert_grant_stays_inert_witness :
  inert (lit "g1") (run_grants tasks_all sample_table [(40, OpInsert sample_grant); (50, OpTokens (lit "g1") 7)]) 60.
Proof.
  apply (inert_grant_stays_inert tasks_all sample_table _ (lit "g1") 30 60).
  - by left.
  - exact sample_inert.
  - lia.
Defined.

(** What a history has done to the grant with this id so far. *)
Record account (id : rstr) (g0 : TaskGrant) (fires tokens : Z) (revoked : bool) (g : TaskGrant)
  : Prop := {
  ac_terms : same_terms g0 g;
  ac_fires : tg_fires_consumed g = fires;
  ac_tokens : tg_tokens_consumed g = tokens;
  ac_revoked : not_approved g = revoked;
}.

Lemma account_write op id g0 f t r g :
  tg_id g = id -> account id g0 f t r g ->
  account id g0 (f + fires_on id [op]) (t + tokens_on id [op]) (r || revoked_on id [op])
    (rewrite_by op g).
Proof.
  intros Hg [Ht Hf Hk Hr]. unfold fires_on, revoked_on, sql_count.
  assert (forall i, has_id i g = rstr_eqb i id) as Hi.
  { intros i. unfold has_id. rewrite Hg. apply rstr_eqb_sym. }
  constructor.
  - pose proof (rewrite_by_terms op g). unfold same_terms in *. intuition congruence.
  - destruct op as [now []]; cbn; rewrite ?Hi; try case_match; cbn; rewrite ?Hf; try lia; done.
  - destruct op as [now []]; cbn; rewrite ?Hi; try case_match; cbn; rewrite ?Hk; lia.
  - destruct op as [now []]; cbn; rewrite ?Hi; try case_match; cbn; rewrite ?orb_false_r, ?orb_true_r; done.
Qed.

Lemma tokens_on_cons id op ops : tokens_on id (op :: ops) = tokens_on id [op] + tokens_on id ops.
Proof. destruct op as [now []]; cbn; lia. Qed.

Lemma fires_on_cons id op ops : fires_on id (op :: ops) = fires_on id [op] + fires_on id ops.
Proof. unfold fires_on, sql_count. cbn. case_match; cbn; lia. Qed.

(** The grants with this id, in a table that has one, all have this account. *)
Lemma account_run tx id g0 ops t f k r :
  In id (map tg_id t) ->
  (forall g, In g t -> tg_id g = id -> account id g0 f k r g) ->
  forall g, In g (run_grants tx t ops) -> tg_id g = id ->
    account id g0 (f + fires_on id ops) (k + tokens_on id ops) (r || revoked_on id ops) g.
Proof.
  unfold run_grants. revert t f k r. induction ops as [|op ops IH]; intros t f k r Hid Hall.
  - intros g Hg E. cbn in *. rewrite !Z.add_0_r, orb_false_r. auto.
  - cbn [fold_left]. intros g Hg E. rewrite fires_on_cons, tokens_on_cons.
    replace (r || revoked_on id (op :: ops)) with (r || revoked_on id [op] || revoked_on id ops).
    2: { unfold revoked_on. cbn. by rewrite orb_false_r, orb_assoc. }
    rewrite !Z.add_assoc. apply (IH (grant_write tx t op)); try done.
    + by apply write_keeps_id.
    + destruct (grant_write_shape tx t op) as (new & -> & Hnew). intros x Hx Ex.
      apply in_app_or in Hx as [Hx | Hx].
      * apply in_map_iff in Hx as (y & <- & Hy).
        destruct (rewrite_by_terms op y) as (Ey & _). rewrite Ey in Ex.
        apply account_write; auto.
      * rewrite List.Forall_forall in Hnew. specialize (Hnew x Hx). by rewrite Ex in Hnew.
Qed.

(** A usable grant is one a human approved, on the terms that were
    approved, and within them: whatever happened since the approval, it has
    not been revoked, has not expired, and the fires and tokens charged to it
    are below the approved bounds. *)
Theorem usable_grant_within_approval tx t0 spec when_ g0 t1 ops task now e :
  insert_approved tx t0 spec when_ = Ok (g0, t1) ->
  effective_grant (run_grants tx t1 ops) task now = Some e -> eg_id e = ng_id spec ->
  eg_capability_scope e = ng_capability_scope spec /\ task = ng_task_id spec
  /\ revoked_on (ng_id spec) ops = false
  /\ (forall exp, ng_expires_at spec = Some exp -> now < exp)
  /\ (forall m, ng_max_fires spec = Some m -> fires_on (ng_id spec) ops < m)
  /\ (forall b, ng_token_budget spec = Some b -> tokens_on (ng_id spec) ops < b).
Proof.
  intros Hins He Heid. unfold insert_approved in Hins.
  destruct (existsb (has_id (ng_id spec)) t0) eqn:Efresh; [done|].
  destruct (negb (tx (ng_task_id spec))); [done|]. cbn in Hins. simplify_eq.
  apply effective_grant_Some in He as (g & Hh & -> & Ha & Hx & Ht & Hf). cbn in Heid.
  assert (In g (run_grants tx (t0 ++ [inserted spec when_]) ops) /\ tg_task_id g = task) as [Hin Htask].
  { unfold list_for_task in Hh.
    rewrite <- (rstr_eqb_eq (tg_task_id g) task).
    apply (filter_In (fun g => rstr_eqb (tg_task_id g) task)).
    apply (order_by_In (fun g => - tg_created_at g)).
    destruct (order_by _ _); [done|]. cbn in Hh. simplify_eq. by left. }
  destruct (account_run tx (ng_id spec) (inserted spec when_) ops
    (t0 ++ [inserted spec when_]) 0 0 false) with (g := g) as [Hterms Hfi Hto Hre]; try done.
  { rewrite map_app. apply in_or_app. right. by left. }
  { intros x Hx' Ex. apply in_app_or in Hx' as [Hx' | [<- | []]]; [|done].
    exfalso. apply not_true_iff_false in Efresh. apply Efresh, existsb_exists.
    exists x. split; [done|]. by apply rstr_eqb_eq. }
  destruct Hterms as (_ & T2 & T3 & T4 & T5 & T6 & _). cbn in *.
  rewrite T4 in Ht. rewrite T5 in Hf. rewrite T6 in Hx. repeat split; try congruence.
  - intros x E. rewrite E in Hx. cbn in Hx. bool_to_prop. lia.
  - intros m E. rewrite E in Hf. cbn in Hf. bool_to_prop. lia.
  - intros b E. rewrite E in Ht. cbn in Ht. bool_to_prop. lia.
Qed.

Definition twice_grant : NewTaskGrant :=
  mkNewGrant (lit "g2") (lit "t1") (lit "web_fetch") (Some 100) (Some 2) (Some 99) None.

Example usable_grant_within_approval_witness :
  fires_on (lit "g2") [(20, OpFire (lit "g2")); (21, OpTokens (lit "g2") 40)] < 2.
Proof.
  apply (usable_grant_within_approval tasks_all [] twice_grant 10 (inserted twice_grant 10)
    [inserted twice_grant 10] [(20, OpFire (lit "g2")); (21, OpTokens (lit "g2") 40)] (lit "t1") 50
    (mkEffective (lit "g2") (lit "t1") (lit "web_fetch") (Some 100) 40 (Some 2) 1 (Some 99) None (Some 10)));
    reflexivity.
Defined.

(** ** The debit *)

(** The same grant, charged when it has this id. *)
Definition charged (id : rstr) (fires tokens : Z) (g g' : TaskGrant) : Prop :=
  same_terms g g' /\ not_approved g' = not_approved g
  /\ tg_fires_consumed g' = tg_fires_consumed g + (if has_id id g then fires else 0)
  /\ tg_tokens_consumed g' = tg_tokens_consumed g + (if has_id id g then tokens else 0).

Lemma charged_refl id t : Forall2 (charged id 0 0) t t.
Proof.
  apply Forall_Forall2_diag, List.Forall_forall. intros g _.
  split; [done|]. split; [done|]. case_match; lia.
Qed.

Lemma charged_trans id f k f' k' t t' t'' :
  Forall2 (charged id f k) t t' -> Forall2 (charged id f' k') t' t'' ->
  Forall2 (charged id (f + f') (k + k')) t t''.
Proof.
  apply Forall2_trans. intros g g' g'' (T & A & F & K) (T' & A' & F' & K').
  assert (has_id id g' = has_id id g) as E by (unfold has_id; destruct T as (-> & _); done).
  rewrite E in F', K'. split; [unfold same_terms in *; intuition congruence|].
  split; [congruence|]. destruct (has_id id g); lia.
Qed.

Lemma update_charged id k f now t t' :
  update_by_id id (add_consumed k f now) t = Ok t' -> Forall2 (charged id f k) t t'.
Proof.
  intros H. pose proof (update_by_id_eq id (add_consumed k f now) t) as E. rewrite H in E. subst t'.
  assert (forall g, charged id f k g (if has_id id g then add_consumed k f now g else g)) as H'.
  { intros g. unfold charged. destruct (has_id id g); cbn; repeat split; lia. }
  apply Forall2_fmap_r, Forall_Forall2_diag, List.Forall_forall. intros g _. apply H'.
Qed.

Lemma consume_fires_charged n id now t t' :
  consume_fires n t id now = Ok t' -> Forall2 (charged id (Z.of_nat n) 0) t t'.
Proof.
  revert t. induction n as [|n IH]; intros t H; cbn in H; [simplify_eq; apply charged_refl|].
  inv_bind. replace (Z.of_nat (S n)) with (1 + Z.of_nat n) by lia.
  apply (charged_trans id 1 0 (Z.of_nat n) 0 t a t'); [by apply (update_charged id 0 1 now) | by apply IH].
Qed.

Lemma has_id_map_update id f t :
  (forall g, tg_id (f g) = tg_id g) ->
  existsb (has_id id) (fst (sql_update (has_id id) f t)) = existsb (has_id id) t.
Proof.
  intros Hf. cbn. induction t as [|g t IH]; cbn; [done|]. rewrite IH. f_equal.
  destruct (has_id id g) eqn:E; [|done]. unfold has_id in *. by rewrite Hf.
Qed.

Lemma update_by_id_ok id f t :
  (forall g, tg_id (f g) = tg_id g) -> existsb (has_id id) t = true ->
  exists t', update_by_id id f t = Ok t' /\ existsb (has_id id) t' = true.
Proof.
  intros Hf H. unfold update_by_id.
  pose proof (proj2 (sql_update_count_pos (has_id id) f t)) as Hc.
  pose proof (has_id_map_update id f t Hf) as Hm.
  destruct (sql_update (has_id id) f t) as [t' n]. cbn [fst snd] in *.
  destruct (Nat.eqb_spec n 0) as [->|]; [|exists t'; split; [done | congruence]].
  exfalso. apply Hc; [|done]. apply existsb_exists in H. exact H.
Qed.

Lemma consume_fires_ok n id now t :
  existsb (has_id id) t = true ->
  exists t', consume_fires n t id now = Ok t' /\ existsb (has_id id) t' = true.
Proof.
  revert t. induction n as [|n IH]; intros t H; cbn [consume_fires]; [by exists t|].
  destruct (update_by_id_ok id (add_consumed 0 1 now) t) as (t1 & E & H1); [done | done |].
  unfold consume_fire. rewrite E. cbn [rbind]. by apply IH.
Qed.

(** A reported fire is debited in full and can only be a debit: for a
    grant in the table every payload that names it is accepted and adds the
    reported fires (one when absent, none when negative) and the reported
    tokens (none when absent or negative) to it, leaving its terms, its
    approval and all other grants alone. *)
Theorem grant_consume_debits t payload now grant_id :
  option_map trim (jget_str "grant_id" payload) = Some grant_id -> grant_id <> [] ->
  existsb (has_id grant_id) t = true ->
  exists t', apply_grant_consume t payload now = Ok t'
    /\ Forall2 (charged grant_id
                  (Z.max (default 1 (jget_i64 "fires" payload)) 0)
                  (Z.max (default 0 (jget_i64 "tokens" payload)) 0)) t t'.
Proof.
  intros Hg Hne Hid. unfold apply_grant_consume. rewrite Hg. destruct grant_id as [|c r]; [done|].
  set (gid := c :: r) in *. set (fires := Z.max (default 1 (jget_i64 "fires" payload)) 0).
  cbv zeta. destruct (consume_fires_ok (Z.to_nat fires) gid now t Hid) as (t1 & E1 & Hid1).
  rewrite E1. cbn [rbind]. apply consume_fires_charged in E1 as Hc. rewrite Z2Nat.id in Hc by lia.
  destruct (jget_i64 "tokens" payload) as [k|]; [|by exists t1].
  change (default 0 (Some k)) with k. destruct (Z.ltb_spec 0 k); [|exists t1; rewrite Z.max_r by lia; done].
  unfold consume_tokens. destruct (Z.ltb_spec k 0); [lia|].
  destruct (update_by_id_ok gid (add_consumed k 0 now) t1) as (t2 & E2 & _); [done | done |].
  exists t2. split; [done|]. apply update_charged in E2. rewrite Z.max_l by lia.
  pose proof (charged_trans gid fires 0 0 k t t1 t2 Hc E2) as H'.
  by rewrite Z.add_0_r in H'.
Qed.

Definition sample_payload : json :=
  JObj [("grant_id", JStr (lit " g2 ")); ("fires", JNum (-4)); ("tokens", JNum 7)]%string.

Example grant_consume_debits_witness :
  exists t', apply_grant_consume [inserted twice_grant 10] sample_payload 20 = Ok t'
    /\ map (fun g => (tg_fires_consumed g, tg_tokens_consumed g)) t' = [(0, 7)].
Proof.
  destruct (grant_consume_debits [inserted twice_grant 10] sample_payload 20 (lit "g2"))
    as (t' & E & H); [reflexivity | done | reflexivity |].
  exists t'. split; [exact E|]. vm_compute in E. injection E as <-. reflexivity.
Defined.
