(* ===== verification/Gate.v ===== *)
(** The dispatch gate of the runner
    ([copperclaw-runner/src/run/tool_dispatch.rs], the turn start of
    [run/mod.rs], and the host's snapshot of a grant,
    [copperclaw-host/src/container_manager/tasks_snapshot.rs]): which tool
    calls of a turn are let through, what the gate reports to the host, and
    how the calls of a turn interleave.

    Files in the session's data directory are modelled by their parsed form:
    [None] when absent, [Some None] when unreadable as JSON of the expected
    shape.  Tool handlers, the host relay and the rendering of results are
    parameters; logs and metrics are left out. *)
From stdpp Require Import relations.
From S2P Require Import Prelude Types MessagesIn Outbox Policy Grants.

(** ** The grant of a turn *)

Record TurnGrant : Type := mkTurnGrant {
  gr_grant_id : rstr;
  gr_task_id : rstr;
  gr_capability_scope : rstr;
  gr_tokens_remaining : option Z;
  gr_fires_remaining : option Z;
  gr_expires_at : option instant;
}.

Definition gr_permits (g : TurnGrant) (required : rstr) : bool :=
  scope_permits (gr_capability_scope g) required.
Definition spent (left : option Z) : bool :=
  match left with Some n => n <=? 0 | None => false end.
Definition is_live (g : TurnGrant) (now : instant) : bool :=
  if expired (gr_expires_at g) now then false
  else if spent (gr_fires_remaining g) then false
  else if spent (gr_tokens_remaining g) then false
  else true.

Record GrantGateState : Type := mkGate {
  grant : option TurnGrant;
  fire_consumed : bool;
  taint_source : option rstr;
  taint_request_emitted : bool;
}.

(** ** The capability a call needs *)

(** [split_once("://")] and the pieces around a separator. *)
Definition after_scheme (url : rstr) : rstr :=
  match str_find (lit "://") url with
  | Some n => drop (n + 3) url
  | None => url
  end.
Definition url_host (input : json) : option rstr :=
  match jget_str "url" input with
  | None => None
  | Some url =>
      let authority := hd [] (split_on (fun c => (c =? chr "/") || (c =? chr "?") || (c =? chr "#"))
                                (after_scheme url)) in
      let host_port := List.last (split_char (chr "@") authority) [] in
      let host := trim (hd [] (split_char (chr ":") host_port)) in
      match host with
      | [] => None
      | _ => Some (map to_ascii_lowercase host)
      end
  end.

Definition required_capability (name : rstr) (input : json) : rstr :=
  match strip_prefix EXTERNAL_MCP_PREFIX name with
  | Some rest =>
      let server := match str_find (lit "__") rest with
                    | Some n => take n rest
                    | None => rest
                    end in
      lit "mcp:" ++ server
  | None =>
      if rstr_eqb name (lit "web_fetch") then
        match url_host input with
        | Some host => lit "web_fetch:" ++ host
        | None => lit "web_fetch"
        end
      else name
  end.

Inductive AutonomyVerdict : Type :=
| NotGated
| Granted (g : TurnGrant)
| Blocked (reason : rstr).

Definition scope_reason (name required scope : rstr) : rstr :=
  lit "Tool `" ++ name ++ lit "` takes a credentialed external action requiring capability `"
  ++ required ++ lit "`, which is outside this task's approved grant (scope: `" ++ scope
  ++ lit "`) on this autonomous (heartbeat/scheduled) turn. Search memory and propose the action for a human turn to approve instead.".

Definition autonomy_verdict (autonomous : bool) (g : option TurnGrant) (call_name : rstr)
  (input : json) (now : instant) : AutonomyVerdict :=
  if negb autonomous || negb (is_credentialed_external call_name) then NotGated
  else
    let required := required_capability call_name input in
    match g with
    | Some g =>
        if is_live g now then
          if gr_permits g required then Granted g
          else Blocked (scope_reason call_name required (gr_capability_scope g))
        else NotGated
    | None => NotGated
    end.

(** ** The rows the gate reports to the host *)

Definition system_row (id : uuid) (now : instant) (content : json) : WriteOutbound :=
  mkWriteOutbound id None now None None System None None None content.
Definition debit_content (g : TurnGrant) : json :=
  JObj [("grant_consume", JObj [("grant_id", JStr (gr_grant_id g));
                                ("task_id", JStr (gr_task_id g)); ("fires", JNum 1)])]%string.
Definition taint_content (tool source : rstr) : json :=
  JObj [("taint_approval_request", JObj [("tool", JStr tool);
                                         ("taint_source", JStr source)])]%string.

(** The latches: [None] when the report was already made this turn. *)
Definition charge_grant_fire_once (gate : GrantGateState) (g : TurnGrant)
  : option (GrantGateState * json) :=
  if fire_consumed gate then None
  else Some (mkGate (grant gate) true (taint_source gate) (taint_request_emitted gate),
             debit_content g).
Definition emit_taint_approval_request (gate : GrantGateState) (tool : rstr)
  : option (GrantGateState * json) :=
  if taint_request_emitted gate then None
  else Some (mkGate (grant gate) (fire_consumed gate) (taint_source gate) true,
             taint_content tool (default (lit "unknown") (taint_source gate))).

(** ** Authorising a call *)

(** The flags of the tool context the gate reads. *)
Record ToolCtx : Type := mkCtx {
  context_tainted : bool;
  external_approved : bool;
  autonomous_turn : bool;
  active_skill_allowed : option (list rstr);
}.

Record PendingToolCall : Type := mkCall {
  tc_name : rstr;
  tc_input : json;
}.

Definition taint_was_deciding_layer (policy : ToolPolicy) (tool : rstr) : bool :=
  let t := trust policy in
  if negb (tainted t) || approved t || autonomous t then false
  else is_allow (evaluate (with_trust policy (mkTrust (tainted t) true (autonomous t))) tool).

(** What the gate decides, with the row it has to report first. *)
Inductive Verdict : Type :=
| Refuse (reason : rstr) (report : option json)
| Admit (report : option json).

Definition turn_trust (ctx : ToolCtx) : TurnTrust :=
  mkTrust (context_tainted ctx) (external_approved ctx) (autonomous_turn ctx).

Definition report_of (gate : GrantGateState) (r : option (GrantGateState * json))
  : GrantGateState * option json :=
  match r with Some (gate', row) => (gate', Some row) | None => (gate, None) end.

Definition authorize (base : ToolPolicy) (ctx : ToolCtx) (gate : GrantGateState)
  (call : PendingToolCall) (now : instant) : GrantGateState * Verdict :=
  let trust := turn_trust ctx in
  match autonomy_verdict (autonomous trust) (grant gate) (tc_name call) (tc_input call) now with
  | Blocked reason => (gate, Refuse reason None)
  | verdict =>
      let '(trust, granted_fire) :=
        match verdict with
        | Granted g => (mkTrust (tainted trust) (approved trust) false, Some g)
        | _ => (trust, None)
        end in
      let policy := with_trust (with_active_skill base (active_skill_allowed ctx)) trust in
      match evaluate policy (tc_name call) with
      | Deny reason =>
          let '(gate', report) :=
            if taint_was_deciding_layer policy (tc_name call)
            then report_of gate (emit_taint_approval_request gate (tc_name call))
            else (gate, None) in
          (gate', Refuse reason report)
      | Allow =>
          let '(gate', report) :=
            match granted_fire with
            | Some g => report_of gate (charge_grant_fire_once gate g)
            | None => (gate, None)
            end in
          (gate', Admit report)
      end
  end.

(** ** Where an admitted call goes *)

Record ExternalToolRoute : Type := mkRoute {
  rt_server : rstr;
  rt_tool : rstr;
}.
Definition PREVIEW_SERVER : rstr := lit "__preview".
Definition is_preview_tool (name : rstr) : bool :=
  rstr_eqb name (lit "expose_preview") || rstr_eqb name (lit "close_preview")
  || rstr_eqb name (lit "make_preview_public").
Definition preview_route (name : rstr) : ExternalToolRoute := mkRoute PREVIEW_SERVER name.

Definition short_type (v : json) : rstr :=
  match v with
  | JNull => lit "null" | JBool _ => lit "bool" | JNum _ => lit "number"
  | JStr _ => lit "string" | JArr _ => lit "array" | JObj _ => lit "object"
  end.

Inductive Target : Type :=
| Relay (route : ExternalToolRoute)
| Rejected (message : rstr)
| Local (arguments : option (list (string * json))).

(** The preview tools take precedence over the configured external tools,
    those over the tools of the container. *)
Definition route_call (external_tools : gmap rstr ExternalToolRoute) (tool_map : gset rstr)
  (call : PendingToolCall) : Target :=
  let name := tc_name call in
  if is_preview_tool name then Relay (preview_route name)
  else match external_tools !! name with
       | Some route => Relay route
       | None =>
           if negb (bool_decide (name ∈ tool_map))
           then Rejected (lit "Unknown tool `" ++ name ++ lit "` " ++ [8212]
                          ++ lit " no handler registered.")
           else match tc_input call with
                | JObj o => Local (Some o)
                | JNull => Local None
                | v => Rejected (lit "Tool `" ++ name ++ lit "` input must be a JSON object, got "
                                 ++ short_type v)
                end
       end.

(** What the wrapper records after a call. *)
Definition observe_taint (tainted_before : bool) (ctx : ToolCtx) (call : PendingToolCall)
  (gate : GrantGateState) : GrantGateState :=
  if negb tainted_before && context_tainted ctx then
    match taint_source gate with
    | None => mkGate (grant gate) (fire_consumed gate) (Some (tc_name call))
                (taint_request_emitted gate)
    | Some _ => gate
    end
  else gate.

(** ** The start of a turn *)

Record TaintClearance : Type := mkClearance {
  cl_session_id : rstr;
  cl_expires_at : instant;
}.
Record DataFiles : Type := mkFiles {
  f_grant : option (option TurnGrant);
  f_clearance : option (option TaintClearance);
}.

Definition firing_task_id (rows : list MessageInRow) : option rstr :=
  match find (fun r => bool_decide (mi_kind r = Task)) rows with
  | Some r => or_else (jget_str "task_id" (mi_content r)) (mi_series_id r)
  | None => None
  end.

Definition load_turn_grant (file : option (option TurnGrant)) (task_id : option rstr)
  (now : instant) : option TurnGrant :=
  match file with
  | Some (Some g) =>
      let foreign := match task_id with
                     | Some tid => negb (rstr_eqb (gr_task_id g) tid)
                     | None => false
                     end in
      if foreign then None else if is_live g now then Some g else None
  | _ => None
  end.

(** The clearance, and the file after it was read; [removable] is whether the
    file system let it be removed. *)
Definition consume_taint_clearance (file : option (option TaintClearance)) (removable : bool)
  (session_id : rstr) (now : instant) : bool * option (option TaintClearance) :=
  match file with
  | None => (false, None)
  | Some content =>
      if negb removable then (false, file)
      else (match content with
            | None => false
            | Some c => rstr_eqb (cl_session_id c) session_id && negb (cl_expires_at c <=? now)
            end, None)
  end.

Definition is_autonomous (rows : list MessageInRow) : bool :=
  negb (existsb (fun r => bool_decide (mi_kind r = Chat)) rows).

(** The gate, the context and the files at the start of driving a turn; the
    skill scope carries over from the turn before. *)
Definition begin_turn (rows : list MessageInRow) (files : DataFiles) (removable : bool)
  (session_id : rstr) (skill : option (list rstr)) (now : instant)
  : GrantGateState * ToolCtx * DataFiles :=
  let autonomous := is_autonomous rows in
  let g := if autonomous then load_turn_grant (f_grant files) (firing_task_id rows) now
           else None in
  let '(external_approved, clearance) :=
    if negb autonomous
    then consume_taint_clearance (f_clearance files) removable session_id now
    else (false, f_clearance files) in
  (mkGate g false None false, mkCtx false external_approved autonomous skill,
   mkFiles (f_grant files) clearance).

(** ** The host's side: the snapshot *)

Definition firing_task_id_from_inbound (inbox : option (list in_row)) (now : instant)
  : option rstr :=
  match inbox with
  | None => None
  | Some t => firing_task_id (get_pending t true 64 now)
  end.

Definition GrantSnapshotRow (e : EffectiveGrant) : TurnGrant :=
  mkTurnGrant (eg_id e) (eg_task_id e) (eg_capability_scope e) (tokens_remaining e)
    (fires_remaining e) (eg_expires_at e).

(** The content of [grant.json] after the host refreshed it; [read] is the
    lookup of the live grant, [None] when the database read failed. *)
Definition write_grant_snapshot (read : rstr -> option (option EffectiveGrant))
  (inbox : option (list in_row)) (now : instant) : option (option TurnGrant) :=
  match firing_task_id_from_inbound inbox now with
  | None => None
  | Some task_id =>
      match read task_id with
      | Some (Some e) => Some (Some (GrantSnapshotRow e))
      | Some None | None => None
      end
  end.

(** ** A turn as a transition system

    The calls of a block run in chains that are polled together, so their
    steps interleave at the points where a call awaits: before a report is
    inserted and while a handler runs. *)

Inductive CallStatus : Type :=
| Waiting
| Reporting (tainted_before : bool) (row : json) (admitted : bool)
| InFlight (tainted_before : bool)
| Finished (executed : bool).

Record Turn : Type := mkTurn {
  tn_gate : GrantGateState;
  tn_ctx : ToolCtx;
  tn_outbound : list out_row;
  tn_calls : list (PendingToolCall * CallStatus);
}.

(** The rows that report to the host under a key. *)
Definition reports (key : string) (t : list out_row) : Z :=
  sql_count (fun r => match jget key (mo_content (or_row r)) with Some _ => true | None => false end) t.

Definition gate_keys : list string := ["grant_consume"; "taint_approval_request"]%string.

Definition next_status (tainted_before : bool) (v : Verdict) : CallStatus :=
  match v with
  | Refuse _ (Some row) => Reporting tainted_before row false
  | Refuse _ None => Finished false
  | Admit (Some row) => Reporting tainted_before row true
  | Admit None => InFlight tainted_before
  end.

Definition best_effort (t : list out_row) (msg : WriteOutbound) : list out_row :=
  match out_insert t msg with Ok (_, t') => t' | Err _ => t end.

(** The steps of the calls of one turn.  A handler in flight may taint the
    context, change the skill scope and write rows; the provenance of the
    turn and the gate's own reports are not its to change. *)
Inductive turn_step (base : ToolPolicy) : Turn -> Turn -> Prop :=
| step_request gate ctx out calls call :
    turn_step base (mkTurn gate ctx out calls) (mkTurn gate ctx out (calls ++ [(call, Waiting)]))
| step_authorize gate ctx out calls i call now gate' v :
    calls !! i = Some (call, Waiting) ->
    authorize base ctx gate call now = (gate', v) ->
    turn_step base (mkTurn gate ctx out calls)
      (mkTurn gate' ctx out (<[i := (call, next_status (context_tainted ctx) v)]> calls))
| step_report_refused gate ctx out calls i call tb row id now :
    calls !! i = Some (call, Reporting tb row false) ->
    turn_step base (mkTurn gate ctx out calls)
      (mkTurn (observe_taint tb ctx call gate) ctx (best_effort out (system_row id now row))
         (<[i := (call, Finished false)]> calls))
| step_report_admitted gate ctx out calls i call tb row id now :
    calls !! i = Some (call, Reporting tb row true) ->
    turn_step base (mkTurn gate ctx out calls)
      (mkTurn gate ctx (best_effort out (system_row id now row))
         (<[i := (call, InFlight tb)]> calls))
| step_handler gate ctx out calls i call tb ctx' out' :
    calls !! i = Some (call, InFlight tb) ->
    external_approved ctx' = external_approved ctx ->
    autonomous_turn ctx' = autonomous_turn ctx ->
    (forall key, In key gate_keys -> reports key out' = reports key out) ->
    turn_step base (mkTurn gate ctx out calls) (mkTurn gate ctx' out' calls)
| step_finish gate ctx out calls i call tb :
    calls !! i = Some (call, InFlight tb) ->
    turn_step base (mkTurn gate ctx out calls)
      (mkTurn (observe_taint tb ctx call gate) ctx out (<[i := (call, Finished true)]> calls)).

(** * Properties *)

(** ** One decision *)

(** What holds of a call the gate lets through, at the moment it decides. *)
Record admissible (base : ToolPolicy) (g0 : option TurnGrant) (ctx : ToolCtx)
  (call : PendingToolCall) (now : instant) : Prop := {
  adm_policy : evaluate (with_trust (with_active_skill base (active_skill_allowed ctx))
                           (mkTrust (context_tainted ctx) (external_approved ctx) false))
                 (tc_name call) = Allow;
  adm_grant : autonomous_turn ctx = true -> is_credentialed_external (tc_name call) = true ->
    exists g, g0 = Some g /\ is_live g now = true
      /\ gr_permits g (required_capability (tc_name call) (tc_input call)) = true;
}.

Lemma autonomy_verdict_granted a g0 name input now g :
  autonomy_verdict a g0 name input now = Granted g ->
  g0 = Some g /\ is_live g now = true /\ gr_permits g (required_capability name input) = true.
Proof.
  unfold autonomy_verdict. destruct (negb a || _); [done|]. cbv zeta.
  destruct g0 as [g'|]; [|done]. destruct (is_live g' now) eqn:El; [|done].
  destruct (gr_permits g' _) eqn:Ep; [|done]. by intros [= ->].
Qed.

Lemma autonomy_dropped p tainted_ approved_ a tool :
  is_credentialed_external tool = false \/ a = false ->
  evaluate (with_trust p (mkTrust tainted_ approved_ a)) tool
  = evaluate (with_trust p (mkTrust tainted_ approved_ false)) tool.
Proof. unfold evaluate. cbn. by intros [-> | ->]. Qed.

(** The outcome of [authorize]: what it admits is admissible, and the only
    reports are the first debit of a granted call and the first request for
    a call that only the taint blocks. *)
Inductive authorize_spec (base : ToolPolicy) (ctx : ToolCtx) (gate : GrantGateState)
  (call : PendingToolCall) (now : instant) : GrantGateState -> Verdict -> Prop :=
| auth_refused reason :
    authorize_spec base ctx gate call now gate (Refuse reason None)
| auth_asked reason :
    taint_request_emitted gate = false ->
    authorize_spec base ctx gate call now
      (mkGate (grant gate) (fire_consumed gate) (taint_source gate) true)
      (Refuse reason (Some (taint_content (tc_name call)
                              (default (lit "unknown") (taint_source gate)))))
| auth_admitted :
    admissible base (grant gate) ctx call now ->
    (autonomous_turn ctx = true -> is_credentialed_external (tc_name call) = true ->
     fire_consumed gate = true) ->
    authorize_spec base ctx gate call now gate (Admit None)
| auth_charged g :
    admissible base (grant gate) ctx call now ->
    fire_consumed gate = false -> grant gate = Some g -> autonomous_turn ctx = true ->
    authorize_spec base ctx gate call now
      (mkGate (grant gate) true (taint_source gate) (taint_request_emitted gate))
      (Admit (Some (debit_content g))).

Lemma authorize_ok base ctx gate call now :
  authorize_spec base ctx gate call now
    (fst (authorize base ctx gate call now)) (snd (authorize base ctx gate call now)).
Proof.
  unfold authorize. cbv zeta. cbn [turn_trust tainted approved autonomous].
  assert (forall p gate' report reason,
    (gate', report) = (if taint_was_deciding_layer p (tc_name call)
       then report_of gate (emit_taint_approval_request gate (tc_name call)) else (gate, None)) ->
    authorize_spec base ctx gate call now gate' (Refuse reason report)) as Hrefuse.
  { intros p gate' report reason. unfold emit_taint_approval_request.
    destruct (taint_was_deciding_layer p _); [|intros [= -> ->]; constructor].
    destruct (taint_request_emitted gate) eqn:E; cbn; intros [= -> ->]; by constructor. }
  destruct (autonomy_verdict _ _ _ _ _) as [|g|reason] eqn:Ev; [| |constructor].
  - destruct (evaluate _ _) as [|reason] eqn:Ee; cbn [fst snd].
    + constructor.
      * constructor.
        -- rewrite <- (autonomy_dropped _ _ _ (autonomous_turn ctx)); [done|].
           apply evaluate_permitted in Ee as [_ _ _ He]. cbn in He.
           destruct (is_credentialed_external _); [right; by apply He | by left].
        -- intros Ha Hx. apply evaluate_permitted in Ee as [_ _ _ He]. destruct (He Hx) as [Hf _].
           cbn in Hf. congruence.
      * intros Ha Hx. apply evaluate_permitted in Ee as [_ _ _ He]. destruct (He Hx) as [Hf _].
        cbn in Hf. congruence.
    + destruct (if taint_was_deciding_layer _ _ then _ else _) as [gate' report] eqn:Er.
      eapply Hrefuse. symmetry. exact Er.
  - pose proof (autonomy_verdict_granted _ _ _ _ _ _ Ev) as (Hg & Hl & Hp).
    destruct (evaluate _ _) as [|reason] eqn:Ee; cbn [fst snd].
    + assert (admissible base (grant gate) ctx call now) as Hadm by (constructor; eauto).
      unfold charge_grant_fire_once. destruct (fire_consumed gate) eqn:Ef; cbn.
      * by constructor.
      * apply auth_charged; try done. unfold autonomy_verdict in Ev.
        by destruct (autonomous_turn ctx).
    + destruct (if taint_was_deciding_layer _ _ then _ else _) as [gate' report] eqn:Er.
      eapply Hrefuse. symmetry. exact Er.
Qed.

(** ** The turn *)

Definition has_key (key : string) (j : json) : bool :=
  match jget key j with Some _ => true | None => false end.
(** A report that was decided and is not inserted yet. *)
Definition pending_report (key : string) (s : CallStatus) : Z :=
  match s with Reporting _ row _ => if has_key key row then 1 else 0 | _ => 0 end.
Definition pending_reports (key : string) (calls : list (PendingToolCall * CallStatus)) : Z :=
  foldr (fun c n => pending_report key (snd c) + n) 0 calls.

Lemma pending_insert key calls i c s s' :
  calls !! i = Some (c, s) ->
  pending_reports key (<[i := (c, s')]> calls)
  = pending_reports key calls - pending_report key s + pending_report key s'.
Proof.
  unfold pending_reports. revert i. induction calls as [|x calls IH]; intros [|i] H; cbn in *; try done.
  - simplify_eq. cbn. lia.
  - rewrite IH by done. lia.
Qed.

Lemma pending_snoc key calls c :
  pending_reports key (calls ++ [(c, Waiting)]) = pending_reports key calls.
Proof. unfold pending_reports. induction calls; cbn in *; lia. Qed.

Lemma pending_nonneg key calls : 0 <= pending_reports key calls.
Proof.
  unfold pending_reports. induction calls as [|[c s] calls IH]; cbn; [lia|].
  assert (0 <= pending_report key s); [|lia].
  unfold pending_report. destruct s; try case_match; lia.
Qed.

Lemma reports_best_effort key t id now row :
  reports key (best_effort t (system_row id now row))
  <= reports key t + (if has_key key row then 1 else 0).
Proof.
  unfold best_effort, out_insert. cbv zeta. destruct (existsb _ t); [case_match; lia|].
  unfold reports, sql_count. rewrite List.filter_app, length_app. cbn. unfold has_key.
  destruct (jget key row); cbn; lia.
Qed.

(** The latch that guards the reports under a key. *)
Definition latched (key : string) (gate : GrantGateState) : bool :=
  if String.eqb key "grant_consume" then fire_consumed gate else taint_request_emitted gate.

Definition dispatched (s : CallStatus) : Prop :=
  match s with Reporting _ _ true | InFlight _ | Finished true => True | _ => False end.

(** The invariant of a turn that began with these reports in its outbox. *)
Record turn_inv (base : ToolPolicy) (g0 : option TurnGrant) (approved_ autonomous_ : bool)
  (start : string -> Z) (tn : Turn) : Prop := {
  ti_grant : grant (tn_gate tn) = g0;
  ti_approved : external_approved (tn_ctx tn) = approved_;
  ti_autonomous : autonomous_turn (tn_ctx tn) = autonomous_;
  ti_reports : forall key, In key gate_keys ->
    reports key (tn_outbound tn) + pending_reports key (tn_calls tn)
    <= start key + (if latched key (tn_gate tn) then 1 else 0);
  ti_charged : fire_consumed (tn_gate tn) = true -> autonomous_ = true /\ g0 <> None;
  ti_calls : forall i call s, tn_calls tn !! i = Some (call, s) -> dispatched s ->
    exists ctx now, external_approved ctx = approved_ /\ autonomous_turn ctx = autonomous_
      /\ admissible base g0 ctx call now
      /\ (autonomous_ = true -> is_credentialed_external (tc_name call) = true ->
          fire_consumed (tn_gate tn) = true);
}.

Lemma observe_taint_gate tb ctx call gate :
  grant (observe_taint tb ctx call gate) = grant gate
  /\ fire_consumed (observe_taint tb ctx call gate) = fire_consumed gate
  /\ taint_request_emitted (observe_taint tb ctx call gate) = taint_request_emitted gate.
Proof. unfold observe_taint. by repeat case_match. Qed.

Lemma latched_observe key tb ctx call gate :
  latched key (observe_taint tb ctx call gate) = latched key gate.
Proof.
  destruct (observe_taint_gate tb ctx call gate) as (_ & E1 & E2).
  unfold latched. by rewrite E1, E2.
Qed.

(** A call that was already let through stays so when the status of one call
    changes without a new one being let through. *)
Lemma lookup_insert_dispatched (calls : list (PendingToolCall * CallStatus)) i j c s s' call st :
  calls !! i = Some (c, s) -> (dispatched s' -> dispatched s) ->
  <[i := (c, s')]> calls !! j = Some (call, st) -> dispatched st ->
  exists st', calls !! j = Some (call, st') /\ dispatched st'.
Proof.
  intros Hi Hd Hj Hst. destruct (decide (i = j)) as [<- | Hne].
  - rewrite list_lookup_insert_eq in Hj by (by apply lookup_lt_Some in Hi). simplify_eq. eauto.
  - rewrite list_lookup_insert_ne in Hj by done. eauto.
Qed.

Section TurnInvariant.
Context (base : ToolPolicy) (g0 : option TurnGrant) (approved_ autonomous_ : bool).
Context (start : string -> Z).
Abbreviation inv := (turn_inv base g0 approved_ autonomous_ start).

Lemma inv_authorize gate ctx out calls i call now gate' v :
  inv (mkTurn gate ctx out calls) -> calls !! i = Some (call, Waiting) ->
  authorize base ctx gate call now = (gate', v) ->
  inv (mkTurn gate' ctx out (<[i := (call, next_status (context_tainted ctx) v)]> calls)).
Proof.
  intros [Hg Hap Hau Hr Hc Hcalls] Hi E. cbn [tn_gate tn_ctx tn_outbound tn_calls] in *.
  pose proof (authorize_ok base ctx gate call now) as Hok. rewrite E in Hok. cbn in Hok.
  assert (forall s', ~ dispatched s' -> forall j c st,
    <[i := (call, s')]> calls !! j = Some (c, st) -> dispatched st ->
    exists st', calls !! j = Some (c, st') /\ dispatched st') as Hold.
  { intros s' Hn j c st. by apply (lookup_insert_dispatched calls i j call Waiting s'). }
  assert (forall s' j c st, <[i := (call, s')]> calls !! j = Some (c, st) -> dispatched st ->
    c = call \/ exists st', calls !! j = Some (c, st') /\ dispatched st') as Hnew.
  { intros s' j c st Hj Hst. destruct (decide (i = j)) as [<- | Hne].
    - rewrite list_lookup_insert_eq in Hj by (by apply lookup_lt_Some in Hi). simplify_eq. by left.
    - rewrite list_lookup_insert_ne in Hj by done. right. eauto. }
  inversion Hok; subst gate' v; cbn [next_status]; constructor;
    cbn [tn_gate tn_ctx tn_outbound tn_calls grant fire_consumed]; try done.
  - intros key Hk. rewrite (pending_insert _ _ _ _ _ _ Hi). cbn [pending_report]. specialize (Hr key Hk). lia.
  - intros j c st Hj Hst. destruct (Hold (Finished false) (fun H => H) j c st Hj Hst) as (st' & ? & ?). eauto.
  - intros key Hk. rewrite (pending_insert _ _ _ _ _ _ Hi). specialize (Hr key Hk).
    destruct Hk as [<- | [<- | []]]; cbn -[pending_reports reports] in *; [lia|]. rewrite H in Hr. lia.
  - intros j c st Hj Hst.
    destruct (Hold (Reporting (context_tainted ctx) _ false) (fun H => H) j c st Hj Hst) as (st' & ? & ?). eauto.
  - intros key Hk. rewrite (pending_insert _ _ _ _ _ _ Hi). cbn [pending_report]. specialize (Hr key Hk). lia.
  - intros j c st Hj Hst. destruct (Hnew _ j c st Hj Hst) as [-> | (st' & ? & ?)]; [|eauto].
    exists ctx, now. subst. eauto.
  - intros key Hk. rewrite (pending_insert _ _ _ _ _ _ Hi). specialize (Hr key Hk).
    destruct Hk as [<- | [<- | []]]; cbn -[pending_reports reports] in *; [|lia]. rewrite H0 in Hr. lia.
  - intros _. split; [congruence|]. congruence.
  - intros j c st Hj Hst. destruct (Hnew _ j c st Hj Hst) as [-> | (st' & Hs & Hd)].
    + exists ctx, now. subst. eauto.
    + destruct (Hcalls j c st' Hs Hd) as (x & n & ? & ? & ? & ?). exists x, n. eauto.
Qed.

Lemma inv_step tn tn' : turn_step base tn tn' -> inv tn -> inv tn'.
Proof.
  intros Hstep Hinv. destruct Hstep as
    [gate ctx out calls call | gate ctx out calls i call now gate' v Hi Hauth
    | gate ctx out calls i call tb row id now Hi | gate ctx out calls i call tb row id now Hi
    | gate ctx out calls i call tb ctx' out' Hi Ha Hau' Hrep | gate ctx out calls i call tb Hi].
  2: { by eapply inv_authorize. }
  all: destruct Hinv as [Hg Hap Hau Hr Hc Hcalls];
    cbn [tn_gate tn_ctx tn_outbound tn_calls] in *; constructor;
    cbn [tn_gate tn_ctx tn_outbound tn_calls]; try done.
  - intros key Hk. rewrite pending_snoc. by apply Hr.
  - intros j c st Hj Hst. apply lookup_app_Some in Hj as [Hj | [_ Hj]]; [eauto|].
    apply list_lookup_singleton_Some in Hj as [_ Hj]. by simplify_eq.
  - by destruct (observe_taint_gate tb ctx call gate) as (-> & _).
  - intros key Hk. rewrite latched_observe, (pending_insert _ _ _ _ _ _ Hi). cbn [pending_report].
    specialize (Hr key Hk). pose proof (reports_best_effort key out id now row). lia.
  - destruct (observe_taint_gate tb ctx call gate) as (_ & -> & _). done.
  - destruct (observe_taint_gate tb ctx call gate) as (_ & -> & _). intros j c st Hj Hst.
    destruct (lookup_insert_dispatched calls i j call _ (Finished false) c st Hi) as (st' & ? & ?); eauto.
  - intros key Hk. rewrite (pending_insert _ _ _ _ _ _ Hi). cbn [pending_report].
    specialize (Hr key Hk). pose proof (reports_best_effort key out id now row). lia.
  - intros j c st Hj Hst.
    destruct (lookup_insert_dispatched calls i j call _ (InFlight tb) c st Hi) as (st' & ? & ?); eauto.
  - congruence.
  - congruence.
  - intros key Hk. rewrite Hrep by done. by apply Hr.
  - by destruct (observe_taint_gate tb ctx call gate) as (-> & _).
  - intros key Hk. rewrite latched_observe, (pending_insert _ _ _ _ _ _ Hi). cbn [pending_report].
    specialize (Hr key Hk). lia.
  - destruct (observe_taint_gate tb ctx call gate) as (_ & -> & _). done.
  - destruct (observe_taint_gate tb ctx call gate) as (_ & -> & _). intros j c st Hj Hst.
    destruct (lookup_insert_dispatched calls i j call _ (Finished true) c st Hi) as (st' & ? & ?); eauto.
Qed.

Lemma inv_rtc tn tn' : rtc (turn_step base) tn tn' -> inv tn -> inv tn'.
Proof. induction 1; eauto using inv_step. Qed.
End TurnInvariant.

Lemma begin_turn_inv base rows files removable sid skill now gate ctx files' out :
  begin_turn rows files removable sid skill now = (gate, ctx, files') ->
  turn_inv base (grant gate) (external_approved ctx) (autonomous_turn ctx)
    (fun key => reports key out) (mkTurn gate ctx out []).
Proof.
  unfold begin_turn. cbv zeta. destruct (if negb _ then _ else _) as [ap cl].
  intros E. injection E as <- <- <-. constructor; cbn; try done.
  intros key Hk. unfold latched. cbn. case_match; lia.
Qed.

Lemma consume_taint_clearance_true file removable sid now file' :
  consume_taint_clearance file removable sid now = (true, file') ->
  file' = None /\ exists c, file = Some (Some c) /\ cl_session_id c = sid /\ now < cl_expires_at c.
Proof.
  unfold consume_taint_clearance. destruct file as [[c|]|]; [| |done]; destruct removable; try done.
  cbn. intros [= E <-]. bool_to_prop. split; [done|]. exists c.
  match goal with H : rstr_eqb _ _ = true |- _ => apply rstr_eqb_eq in H end. done.
Qed.

Lemma load_turn_grant_Some file task now g :
  load_turn_grant file task now = Some g ->
  file = Some (Some g) /\ is_live g now = true
  /\ forall tid, task = Some tid -> gr_task_id g = tid.
Proof.
  unfold load_turn_grant. destruct file as [[g'|]|]; [|done..]. cbv zeta.
  destruct task as [tid|].
  - destruct (rstr_eqb (gr_task_id g') tid) eqn:E; [|done]. cbn. destruct (is_live g' now) eqn:El; [|done].
    intros [= ->]. apply rstr_eqb_eq in E. split; [done|]. split; [done|]. congruence.
  - destruct (is_live g' now) eqn:El; [|done]. by intros [= ->].
Qed.

(** A call that is dispatched was admitted at a point of the run: it was waiting there, and
    the gate let it through in the context of the turn as it was then. *)
Lemma admitted_before base tn0 tn i call s : rtc (turn_step base) tn0 tn -> tn_calls tn0 = [] ->
  tn_calls tn !! i = Some (call, s) -> dispatched s ->
  exists tn1 now1 gate' report, rtc (turn_step base) tn0 tn1 /\ tn_calls tn1 !! i = Some (call, Waiting)
  /\ authorize base (tn_ctx tn1) (tn_gate tn1) call now1 = (gate', Admit report)
  /\ rtc (turn_step base) (mkTurn gate' (tn_ctx tn1) (tn_outbound tn1)
       (<[i := (call, next_status (context_tainted (tn_ctx tn1)) (Admit report))]> (tn_calls tn1))) tn.
Proof.
  intros Hrun Hnil. revert tn Hrun i call s. refine (rtc_ind_r _ tn0 _ _); [by rewrite Hnil|]. intros tn1 tn Hrun Hstep IH i call s Hi Hd.
  assert (forall s', tn_calls tn1 !! i = Some (call, s') -> dispatched s' -> exists tn1 now1 gate' report, rtc (turn_step base) tn0 tn1
    /\ tn_calls tn1 !! i = Some (call, Waiting) /\ authorize base (tn_ctx tn1) (tn_gate tn1) call now1 = (gate', Admit report)
    /\ rtc (turn_step base) (mkTurn gate' (tn_ctx tn1) (tn_outbound tn1)
       (<[i := (call, next_status (context_tainted (tn_ctx tn1)) (Admit report))]> (tn_calls tn1))) tn) as Hold.
  { intros s' Hs Hd'. destruct (IH i call s' Hs Hd') as (t & n & g & r & H1 & H2 & H3 & H4). exists t, n, g, r. do 3 (split; [done|]). by eapply rtc_r. }
  pose proof Hstep as Hlast. destruct Hstep as
    [gate ctx out calls c | gate ctx out calls k c now gate' v Hk Hauth
    | gate ctx out calls k c tb row id now Hk | gate ctx out calls k c tb row id now Hk
    | gate ctx out calls k c tb ctx' out' Hk Ha Hau Hrep | gate ctx out calls k c tb Hk]; cbn [tn_calls] in *.
  1: { apply lookup_app_Some in Hi as [Hi | [_ Hi]]; [by apply (Hold s)|]. apply list_lookup_singleton_Some in Hi as [_ Hi]. by simplify_eq. }
  2-3,5: eapply lookup_insert_dispatched in Hi as (s' & Hs & Hd'); [by apply (Hold s') | exact Hk | done | exact Hd].
  2: by apply (Hold s).
  destruct (decide (k = i)) as [->|Hne]; [|rewrite list_lookup_insert_ne in Hi by done; by apply (Hold s)].
  rewrite list_lookup_insert_eq in Hi by (by apply lookup_lt_Some in Hk). injection Hi as -> <-.
  destruct v as [reason [row|]|report]; [done..|]. exists (mkTurn gate ctx out calls), now, gate', report. do 3 (split; [done|]). apply rtc_refl.
Qed.

(** C1. Nothing is dispatched without authority.  However the calls of a turn
    interleave, a call that was handed to its tool was let through by the gate at a
    point of that turn, in the context and with the gate the turn had there: within
    the profile, the role floor and the scope of the skill then active; if it acts
    externally and that context was tainted, it is exempt, or the turn is a human's
    and spent an unexpired clearance of this session; and if it acts externally on an
    autonomous turn, the grant snapshot held a live grant, for the firing task if the
    turn names one, whose scope permits exactly this action, and its fire has been
    charged. *)
Theorem dispatch_authorised base rows files removable sid skill now0 gate ctx files' out tn i call s :
  begin_turn rows files removable sid skill now0 = (gate, ctx, files') ->
  rtc (turn_step base) (mkTurn gate ctx out []) tn ->
  tn_calls tn !! i = Some (call, s) -> dispatched s ->
  exists tn1 now1 gate' report,
    rtc (turn_step base) (mkTurn gate ctx out []) tn1
    /\ tn_calls tn1 !! i = Some (call, Waiting)
    /\ authorize base (tn_ctx tn1) (tn_gate tn1) call now1 = (gate', Admit report)
    /\ rtc (turn_step base) (mkTurn gate' (tn_ctx tn1) (tn_outbound tn1)
         (<[i := (call, next_status (context_tainted (tn_ctx tn1)) (Admit report))]> (tn_calls tn1))) tn
    /\ (sender_role base = Some Guest -> is_mutating (tc_name call) = false)
    /\ Profile.allows (profile base) (tc_name call) = true
    /\ (forall allowed, active_skill_allowed (tn_ctx tn1) = Some allowed ->
        In (tc_name call) ALWAYS_TOOLS \/ In (tc_name call) allowed)
    /\ (is_credentialed_external (tc_name call) = true ->
        (context_tainted (tn_ctx tn1) = true ->
         is_lan_preview (tc_name call) = true \/ is_provider_pinned_search (tc_name call) = true
         \/ is_autonomous rows = false /\ f_clearance files' = None
            /\ exists c, f_clearance files = Some (Some c) /\ cl_session_id c = sid
                         /\ now0 < cl_expires_at c)
        /\ (is_autonomous rows = true ->
            exists g, f_grant files = Some (Some g)
              /\ (forall tid, firing_task_id rows = Some tid -> gr_task_id g = tid)
              /\ is_live g now1 = true
              /\ gr_permits g (required_capability (tc_name call) (tc_input call)) = true
              /\ fire_consumed (tn_gate tn) = true)).
Proof.
  intros Hb Hrun Hi Hs. pose proof (begin_turn_inv base _ _ _ _ _ _ _ _ _ out Hb) as Hinv.
  pose proof (inv_rtc _ _ _ _ _ _ _ Hrun Hinv) as [_ _ _ _ _ Hcalls].
  destruct (Hcalls i call s Hi Hs) as (_ & _ & _ & _ & _ & Hfire).
  destruct (admitted_before _ _ _ _ _ _ Hrun eq_refl Hi Hs) as (tn1 & now1 & gate' & report & H1 & H2 & H3 & H4).
  pose proof (inv_rtc _ _ _ _ _ _ _ H1 Hinv) as [Hg0 Hap Hau _ _ _]. cbn in Hg0.
  pose proof (authorize_ok base (tn_ctx tn1) (tn_gate tn1) call now1) as Hok. rewrite H3 in Hok. cbn in Hok.
  assert (admissible base (grant gate) (tn_ctx tn1) call now1) as [Hpol Hgr] by (rewrite <- Hg0; by inversion Hok).
  apply evaluate_permitted in Hpol as [Pr Ps Pp Pe]. cbn in Pr, Ps, Pp, Pe.
  unfold begin_turn in Hb. cbv zeta in Hb. exists tn1, now1, gate', report. do 4 (split; [done|]). repeat split; auto; intros Hx.
  - destruct (Pe H) as [_ Ht]. destruct (Ht Hx) as [E | [E | E]]; [| by left | by right; left].
    right; right. rewrite Hap in E. destruct (is_autonomous rows); cbn in Hb;
      [injection Hb as <- <- <-; done|].
    destruct (consume_taint_clearance _ _ _ _) as [b cl] eqn:Ec. injection Hb as <- <- <-.
    cbn in E. subst b. apply consume_taint_clearance_true in Ec as [-> Hc]. done.
  - rewrite Hx in Hb. cbn in Hb. injection Hb as <- <- <-. cbn in *.
    destruct (Hgr Hau H) as (g & Hg & Hl & Hp). apply load_turn_grant_Some in Hg as (Hf & _ & Ht).
    exists g. eauto 10.
Qed.

(** C2. Each report reaches the host at most once per turn, however the calls
    interleave: the debit of the grant (a fire is a turn, not an action) and
    the request for an approval; and a turn that has no grant debits none. *)
Theorem reports_at_most_once base rows files removable sid skill now0 gate ctx files' out tn key :
  begin_turn rows files removable sid skill now0 = (gate, ctx, files') ->
  rtc (turn_step base) (mkTurn gate ctx out []) tn -> In key gate_keys ->
  reports key (tn_outbound tn) <= reports key out + 1
  /\ (is_autonomous rows = false \/ f_grant files = None ->
      reports "grant_consume" (tn_outbound tn) <= reports "grant_consume" out).
Proof.
  intros Hb Hrun Hk. pose proof (begin_turn_inv base _ _ _ _ _ _ _ _ _ out Hb) as Hinv.
  apply (inv_rtc _ _ _ _ _ _ _ Hrun) in Hinv as [_ _ _ Hr Hc _]. split.
  - specialize (Hr key Hk). pose proof (pending_nonneg key (tn_calls tn)).
    destruct (latched key (tn_gate tn)); lia.
  - intros Hno. specialize (Hr _ (or_introl eq_refl)).
    pose proof (pending_nonneg "grant_consume" (tn_calls tn)).
    unfold latched in Hr. cbn [String.eqb Ascii.eqb Bool.eqb] in Hr.
    destruct (fire_consumed (tn_gate tn)); [|cbn -[pending_reports reports] in Hr; lia].
    exfalso. destruct (Hc eq_refl) as [Ha Hg]. unfold begin_turn in Hb. cbv zeta in Hb.
    destruct (if negb (is_autonomous rows) then _ else _). injection Hb as <- <- <-. cbn in Ha, Hg.
    destruct Hno as [E | E]; [congruence|]. rewrite E in Hg. by destruct (is_autonomous rows).
Qed.

(** A bound that is not reached leaves something. *)
Lemma not_spent bound consumed :
  reached bound consumed = false ->
  spent (option_map (fun b => Z.max (b - consumed) 0) bound) = false.
Proof. destruct bound as [b|]; cbn; [|done]. intros. bool_to_prop. apply Z.leb_gt. lia. Qed.

Lemma effective_snapshot_live t task now e :
  effective_grant t task now = Some e ->
  eg_task_id e = task /\ is_live (GrantSnapshotRow e) now = true.
Proof.
  intros H. apply effective_grant_Some in H as (g & Hh & -> & _ & Hx & Ht & Hf). split.
  - cbn. unfold list_for_task in Hh. apply rstr_eqb_eq.
    apply (filter_In (fun g => rstr_eqb (tg_task_id g) task) g t).
    apply (order_by_In (fun g => - tg_created_at g)).
    destruct (order_by _ _); [done|]. cbn in Hh. simplify_eq. by left.
  - unfold is_live, GrantSnapshotRow, fires_remaining, tokens_remaining. cbn.
    by rewrite Hx, !not_spent.
Qed.

(** The snapshot carries the database's authority to the runner: a turn
    fired by a task finds, in the file the host has just written, exactly
    the grant that is live for that task in the database, with what is left
    of it, and nothing when another task or none is pending. *)
Theorem snapshot_roundtrip grants inbox now tid :
  load_turn_grant
    (write_grant_snapshot (fun task => Some (effective_grant grants task now)) inbox now)
    (Some tid) now
  = match firing_task_id_from_inbound inbox now with
    | Some task => if rstr_eqb task tid
                   then option_map GrantSnapshotRow (effective_grant grants tid now) else None
    | None => None
    end.
Proof.
  unfold write_grant_snapshot. destruct (firing_task_id_from_inbound inbox now) as [task|]; [|done].
  destruct (rstr_eqb task tid) eqn:Et.
  - apply rstr_eqb_eq in Et. subst task.
    destruct (effective_grant grants tid now) as [e|] eqn:E; [|done].
    destruct (effective_snapshot_live _ _ _ _ E) as [Etask El]. cbn [load_turn_grant option_map].
    cbv zeta. cbn [GrantSnapshotRow gr_task_id]. rewrite Etask, rstr_eqb_refl. cbn [negb].
    change (mkTurnGrant _ _ _ _ _ _) with (GrantSnapshotRow e). by rewrite El.
  - destruct (effective_grant grants task now) as [e|] eqn:E; [|done].
    destruct (effective_snapshot_live _ _ _ _ E) as [Etask El]. cbn [load_turn_grant].
    cbv zeta. cbn [GrantSnapshotRow gr_task_id]. by rewrite Etask, Et.
Qed.

(** ** Asking for an approval *)

Definition approve_ctx (ctx : ToolCtx) : ToolCtx :=
  mkCtx (context_tainted ctx) true (autonomous_turn ctx) (active_skill_allowed ctx).
Definition refused (v : Verdict) : bool := match v with Refuse _ _ => true | Admit _ => false end.
Definition report (v : Verdict) : option json :=
  match v with Refuse _ r => r | Admit r => r end.

Lemma authorize_human base ctx gate call now :
  autonomous_turn ctx = false ->
  authorize base ctx gate call now
  = let policy := with_trust (with_active_skill base (active_skill_allowed ctx)) (turn_trust ctx) in
    match evaluate policy (tc_name call) with
    | Deny reason =>
        let '(gate', report) :=
          if taint_was_deciding_layer policy (tc_name call)
          then report_of gate (emit_taint_approval_request gate (tc_name call)) else (gate, None) in
        (gate', Refuse reason report)
    | Allow => (gate, Admit None)
    end.
Proof. intros E. unfold authorize. cbn. by rewrite E. Qed.

(** On a human turn the operator is asked exactly for the refusals an
    approval would lift: the first refused call of the turn files a request
    if and only if the same call, with the clearance, would be let
    through. *)
Theorem request_iff_approval_helps base ctx gate call now :
  autonomous_turn ctx = false -> taint_request_emitted gate = false ->
  refused (snd (authorize base ctx gate call now)) = true ->
  (report (snd (authorize base ctx gate call now)) <> None
   <-> snd (authorize base (approve_ctx ctx) gate call now) = Admit None).
Proof.
  intros Ha He Hr. rewrite !authorize_human in * by done. cbv zeta in *.
  destruct ctx as [t ap au skill]. cbn in Ha. subst au.
  unfold taint_was_deciding_layer, emit_taint_approval_request, approve_ctx, turn_trust in *.
  cbn [context_tainted external_approved autonomous_turn active_skill_allowed trust
    tainted approved autonomous with_trust] in *. rewrite He in *.
  change (mkPolicy _ _ (skill_allowed ?p) ?t) with (with_trust p t) in *.
  set (p := with_active_skill base skill) in *. clearbody p.
  change (with_trust (with_trust p _) ?t) with (with_trust p t) in *.
  assert (forall t ap, t = false \/ ap = true ->
    evaluate (with_trust p (mkTrust t ap false)) (tc_name call)
    = evaluate (with_trust p (mkTrust t true false)) (tc_name call)) as Hsame.
  { intros t' ap' [-> | ->]; reflexivity. }
  destruct (evaluate (with_trust p (mkTrust t ap false)) (tc_name call)) as [|reason] eqn:E; [done|].
  rewrite !orb_false_r, orb_true_r in *. destruct (negb t || ap) eqn:Eta.
  - rewrite <- (Hsame t ap), E by (destruct t, ap; auto). cbn [snd report]. split; congruence.
  - destruct (evaluate (with_trust p (mkTrust t true false)) (tc_name call));
      cbn [snd report is_allow report_of]; split; congruence.
Qed.

(** The taint is the last layer: a call that only lacks the approval is
    refused for the taint. *)
Lemma taint_is_last p tool :
  is_credentialed_external tool = true -> is_lan_preview tool = false ->
  is_provider_pinned_search tool = false ->
  evaluate (with_trust p (mkTrust true true false)) tool = Allow ->
  evaluate (with_trust p (mkTrust true false false)) tool = Deny (taint_reason tool).
Proof.
  intros Hx Hl Hs. unfold evaluate, with_trust.
  cbn [trust tainted approved autonomous profile sender_role skill_allowed].
  rewrite Hx, Hl, Hs. cbn [negb andb].
  destruct (sender_role p) as [r|]; [destruct (_ && is_mutating tool); [done|] |];
    (destruct (skill_allowed p) as [allowed|]; [destruct (_ && _); [done|] |]);
    by destruct (negb (Profile.allows _ _)).
Qed.

(** The approval is also asked for on an autonomous turn: a granted call
    on a tainted context is refused, and since the gate has dropped the
    autonomy mark for the call it files a request, although a clearance is
    only ever spent on a human turn. *)
Theorem granted_tainted_call_asks base ctx gate call now g :
  autonomous_turn ctx = true -> context_tainted ctx = true -> external_approved ctx = false ->
  is_credentialed_external (tc_name call) = true ->
  is_lan_preview (tc_name call) = false -> is_provider_pinned_search (tc_name call) = false ->
  grant gate = Some g -> is_live g now = true ->
  gr_permits g (required_capability (tc_name call) (tc_input call)) = true ->
  evaluate (with_trust (with_active_skill base (active_skill_allowed ctx)) (mkTrust true true false))
    (tc_name call) = Allow ->
  taint_request_emitted gate = false ->
  snd (authorize base ctx gate call now)
  = Refuse (taint_reason (tc_name call))
      (Some (taint_content (tc_name call) (default (lit "unknown") (taint_source gate)))).
Proof.
  intros Ha Ht Hap Hx Hl Hs Hg Hlive Hp Hev He.
  pose proof (taint_is_last _ _ Hx Hl Hs Hev) as Hd.
  unfold authorize, autonomy_verdict, turn_trust. cbn [autonomous tainted approved].
  rewrite Ha, Hx, Hg, Hlive, Hp, Ht, Hap. cbn [negb orb]. rewrite Hd.
  unfold taint_was_deciding_layer. cbv zeta. change (trust (with_trust ?p ?t)) with t.
  change (with_trust (with_trust ?p _) ?t) with (with_trust p t).
  cbn [tainted approved autonomous negb orb]. rewrite Hev. cbn [is_allow]. unfold emit_taint_approval_request. by rewrite He.
Qed.

(** A turn driven by nothing a task fired, such as the result of a child
    agent, takes whatever grant the snapshot holds: the check that the
    snapshot belongs to the firing task is skipped when there is none. *)
Theorem unmatched_snapshot_accepted rows files removable sid skill now g :
  (forall r, In r rows -> mi_kind r <> Chat /\ mi_kind r <> Task) ->
  f_grant files = Some (Some g) -> is_live g now = true ->
  let '(gate, ctx, _) := begin_turn rows files removable sid skill now in
  grant gate = Some g /\ autonomous_turn ctx = true.
Proof.
  intros Hrows Hf Hl. unfold begin_turn. cbv zeta.
  assert (is_autonomous rows = true) as ->.
  { unfold is_autonomous. apply negb_true_iff, not_true_iff_false. intros H.
    apply existsb_exists in H as (r & Hr & E). apply bool_decide_eq_true in E.
    destruct (Hrows r Hr). congruence. }
  assert (firing_task_id rows = None) as ->.
  { unfold firing_task_id. destruct (find _ rows) as [r|] eqn:E; [|done].
    apply find_some in E as [Hr E]. apply bool_decide_eq_true in E.
    destruct (Hrows r Hr). congruence. }
  cbn [negb]. rewrite Hf. cbn. by rewrite Hl.
Qed.

(** ** A concrete turn *)

Definition sample_row (kind : MessageKind) (content : json) : MessageInRow :=
  mkMessageIn 1 2 kind 0 "pending" None None None 0 true None None None content None true None None.
Definition sample_rows : list MessageInRow :=
  [sample_row Task (JObj [("task_id", JStr (lit "t1"))]%string)].
Definition sample_turn_grant : TurnGrant :=
  mkTurnGrant (lit "g1") (lit "t1") (lit "web_fetch:example.com") None (Some 1) None.
Definition sample_files : DataFiles := mkFiles (Some (Some sample_turn_grant)) None.
Definition sample_base : ToolPolicy := new Full None.
Definition sample_call : PendingToolCall :=
  mkCall (lit "web_fetch") (JObj [("url", JStr (lit "https://Example.com:443/page"))]%string).
Definition sample_gate (consumed : bool) (source : option rstr) : GrantGateState :=
  mkGate (Some sample_turn_grant) consumed source false.
Definition sample_ctx (tainted_ : bool) : ToolCtx := mkCtx tainted_ false true None.
Definition sample_out : list out_row :=
  best_effort [] (system_row 7 20 (debit_content sample_turn_grant)).
(** The call was let through, debited, tainted the context and finished. *)
Definition sample_end : Turn :=
  mkTurn (sample_gate true (Some (lit "web_fetch"))) (sample_ctx true) sample_out
    [(sample_call, Finished true)].

Lemma sample_begin :
  begin_turn sample_rows sample_files true (lit "s") None 10 = (sample_gate false None, sample_ctx false, sample_files).
Proof. vm_compute. reflexivity. Qed.

Lemma sample_run :
  rtc (turn_step sample_base) (mkTurn (sample_gate false None) (sample_ctx false) [] []) sample_end.
Proof.
  eapply rtc_l; [apply (step_request sample_base _ _ _ [] sample_call)|].
  eapply rtc_l.
  { apply (step_authorize sample_base _ _ _ _ 0 sample_call 20 (sample_gate true None)
      (Admit (Some (debit_content sample_turn_grant)))); vm_compute; reflexivity. }
  eapply rtc_l.
  { apply (step_report_admitted sample_base _ _ _ _ 0 sample_call false
      (debit_content sample_turn_grant) 7 20). reflexivity. }
  eapply rtc_l.
  { apply (step_handler sample_base _ _ _ _ 0 sample_call false (sample_ctx true) sample_out);
      try reflexivity. }
  eapply rtc_l; [by apply (step_finish sample_base _ _ _ _ 0 sample_call false)|].
  apply rtc_refl.
Qed.

Example dispatch_authorised_witness :
  exists now g, f_grant sample_files = Some (Some g) /\ is_live g now = true
    /\ gr_permits g (lit "web_fetch:example.com") = true.
Proof.
  destruct (dispatch_authorised sample_base sample_rows sample_files true (lit "s") None 10 _ _ _ []
    sample_end 0 sample_call (Finished true) sample_begin sample_run eq_refl I)
    as (tn1 & now1 & gate' & report & _ & _ & _ & _ & _ & _ & _ & H).
  destruct (H eq_refl) as [_ Hg]. destruct (Hg eq_refl) as (g & Hf & _ & Hl & Hp & _).
  exists now1, g. split; [exact Hf|]. split; [exact Hl | exact Hp].
Defined.

Example reports_at_most_once_witness : reports "grant_consume" (tn_outbound sample_end) <= 0 + 1.
Proof.
  apply (reports_at_most_once sample_base sample_rows sample_files true (lit "s") None 10 _ _ _ []
    sample_end "grant_consume" sample_begin sample_run (or_introl eq_refl)).
Defined.

Definition human_ctx : ToolCtx := mkCtx true false false None.
Lemma sample_refused :
  refused (snd (authorize sample_base human_ctx (mkGate None false None false) sample_call 20)) = true.
Proof. vm_compute. reflexivity. Qed.

Lemma sample_lifted :
  snd (authorize sample_base (approve_ctx human_ctx) (mkGate None false None false) sample_call 20) = Admit None.
Proof. vm_compute. reflexivity. Qed.

Example request_iff_approval_helps_witness :
  report (snd (authorize sample_base human_ctx (mkGate None false None false) sample_call 20)) <> None.
Proof.
  exact (proj2 (request_iff_approval_helps sample_base human_ctx (mkGate None false None false)
    sample_call 20 eq_refl eq_refl sample_refused) sample_lifted).
Defined.

Example granted_tainted_call_asks_witness :
  exists reason row,
    snd (authorize sample_base (sample_ctx true) (sample_gate false None) sample_call 20)
    = Refuse reason (Some row).
Proof.
  do 2 eexists.
  apply (granted_tainted_call_asks sample_base (sample_ctx true) (sample_gate false None) sample_call 20
    sample_turn_grant); reflexivity.
Defined.

Example unmatched_snapshot_accepted_witness :
  grant (fst (fst (begin_turn [sample_row Agent JNull] sample_files true (lit "s") None 10)))
  = Some sample_turn_grant.
Proof.
  apply (unmatched_snapshot_accepted [sample_row Agent JNull] sample_files true (lit "s") None 10
    sample_turn_grant); [|reflexivity | reflexivity].
  intros r [<- | []]. split; discriminate.
Defined.
