(* ===== verification/Commands.v ===== *)
(** Slash commands, workspaces and attachment names
    ([copperclaw-host-router/src/commands.rs], [workspaces.rs];
    [copperclaw-channels/core/src/inbound_file.rs], [reaction.rs];
    [copperclaw-db/src/attachments.rs]): the text functions the router
    applies to what a user sent. *)
From S2P Require Import Prelude Types.

(** ** Commands *)

Inductive SlashCommand : Type := Stop | Status | Compact | Clear | Projects.
#[export] Instance SlashCommand_eq_dec : EqDecision SlashCommand.
Proof. solve_decision. Defined.

Definition before_at (token : rstr) : rstr := hd [] (split_char (chr "@") token).
Definition ascii_lower (s : rstr) : rstr := map to_ascii_lowercase s.

Definition command_word (w : rstr) : option SlashCommand :=
  if rstr_eqb w (lit "/stop") || rstr_eqb w (lit "/cancel") then Some Stop
  else if rstr_eqb w (lit "/status") then Some Status
  else if rstr_eqb w (lit "/compact") then Some Compact
  else if rstr_eqb w (lit "/clear") || rstr_eqb w (lit "/reset") || rstr_eqb w (lit "/new")
  then Some Clear
  else if rstr_eqb w (lit "/projects") then Some Projects
  else None.

Module Slash.
Definition parse (text : rstr) : option SlashCommand :=
  let trimmed := trim text in
  if negb (starts_with (lit "/") trimmed) then None
  else match split_whitespace trimmed with
       | [token] => command_word (ascii_lower (before_at token))
       | _ => None
       end.
Definition canonical (c : SlashCommand) : rstr :=
  match c with
  | Stop => lit "/stop" | Status => lit "/status" | Compact => lit "/compact"
  | Clear => lit "/clear" | Projects => lit "/projects"
  end.
Definition op (c : SlashCommand) : rstr :=
  match c with
  | Stop => lit "stop" | Status => lit "status" | Compact => lit "compact"
  | Clear => lit "clear" | Projects => lit "projects"
  end.
End Slash.

Inductive SwitchTarget : Type :=
| Valid (name : rstr)
| Invalid (raw : rstr).
Inductive ParsedCommand : Type :=
| Bare (c : SlashCommand)
| Switch (t : SwitchTarget).

Definition is_ascii_alphanumeric (c : rchar) : bool :=
  ((48 <=? c) && (c <=? 57)) || ((65 <=? c) && (c <=? 90)) || ((97 <=? c) && (c <=? 122)).
Definition name_char (c : rchar) : bool :=
  is_ascii_alphanumeric c || (c =? chr ".") || (c =? chr "_") || (c =? chr "-").

Definition has_char (d : rchar) (s : rstr) : bool := existsb (fun c => c =? d) s.

Definition validate_workspace_name (name : rstr) : bool :=
  if rstr_eqb name [] || rstr_eqb name (lit ".") || rstr_eqb name (lit "..") then false
  else if has_char (chr "/") name || has_char (chr "\") name then false
  else forallb name_char name.

Definition parse_switch (trimmed : rstr) : option SwitchTarget :=
  match split_whitespace trimmed with
  | [] => None
  | head :: rest =>
      if negb (rstr_eqb (ascii_lower (before_at head)) (lit "/switch")) then None
      else match rest with
           | [] => Some (Invalid [])
           | [name] => if validate_workspace_name name then Some (Valid name) else Some (Invalid name)
           | name :: _ => Some (Invalid name)
           end
  end.

Module Parsed.
Definition parse (text : rstr) : option ParsedCommand :=
  let trimmed := trim text in
  if negb (starts_with (lit "/") trimmed) then None
  else match Slash.parse trimmed with
       | Some cmd => Some (Bare cmd)
       | None => option_map Switch (parse_switch trimmed)
       end.
Definition detect (event : InboundEvent) : option ParsedCommand :=
  if negb (bool_decide (im_kind (ev_message event) = Chat)) then None
  else match jget_str "text" (im_content (ev_message event)) with
       | Some text => parse text
       | None => None
       end.
End Parsed.

(** ** Row contents *)

Definition preserve_original (obj : json) (cmd : SlashCommand) (original_text : rstr) : json :=
  let trimmed := trim original_text in
  if rstr_eqb trimmed (Slash.canonical cmd) then obj
  else jset "original_text" (JStr trimmed) obj.

Definition control_content (cmd : SlashCommand) (original_text : rstr) : json :=
  preserve_original
    (JObj [("control", JObj [("op", JStr (Slash.op cmd))]); ("command", JStr (Slash.op cmd));
           ("text", JStr (Slash.canonical cmd))]%string)
    cmd original_text.

Definition passthrough_content (cmd : SlashCommand) (original : json) (original_text : rstr) : json :=
  let obj := match original with JObj _ => original | other => JObj [("raw"%string, other)] end in
  preserve_original
    (jset "command" (JStr (Slash.op cmd)) (jset "text" (JStr (Slash.canonical cmd)) obj))
    cmd original_text.

Definition is_reaction_content (content : json) : bool :=
  match jget "reaction" content with
  | Some (JObj o) => match assoc "emoji" o with Some _ => true | None => false end
  | _ => false
  end.

(** ** Workspaces *)

Definition CONTAINER_SESSION_DIR : rstr := lit "/data".
Definition container_workspace_path (name : rstr) : rstr := CONTAINER_SESSION_DIR ++ lit "/" ++ name.
Definition switch_shell_state (name : rstr) : rstr :=
  lit "cd '" ++ container_workspace_path name ++ lit "'" ++ [newline].

Definition SYSTEM_DIRS : list rstr :=
  map lit ["skills"; "memory"; "inbox"; "outbox"; "node_modules"]%string.
Definition is_system_dir (name : rstr) : bool :=
  starts_with (lit ".") name || existsb (rstr_eqb name) SYSTEM_DIRS.

Definition single_quote : rchar := chr "'".
Definition double_quote : rchar := 34.

(** One matched pair of quotes around at least two characters. *)
Definition unquote_shell (s : rstr) : rstr :=
  match s with
  | f :: rest =>
      match rev rest with
      | l :: mid =>
          if (f =? single_quote) && (l =? single_quote) || (f =? double_quote) && (l =? double_quote)
          then rev mid else s
      | [] => s
      end
  | [] => s
  end.

Definition trim_end_by (p : rchar -> bool) (s : rstr) : rstr := rev (trim_start_by p (rev s)).
Definition trim_matches (d : rchar) (s : rstr) : rstr :=
  trim_end_by (fun c => c =? d) (trim_start_by (fun c => c =? d) s).

Definition pwd_of_line (line : rstr) : option rstr :=
  match str_find (lit "PWD=") line with
  | None => None
  | Some idx =>
      if match idx with O => false | S i => is_ascii_alphanumeric (nth i line 0) end then None
      else match trim_matches double_quote (trim (drop (idx + 4) line)) with
           | [] => None
           | val => Some val
           end
  end.
Fixpoint first_some {A B} (f : A -> option B) (l : list A) : option B :=
  match l with
  | [] => None
  | x :: l' => match f x with Some y => Some y | None => first_some f l' end
  end.
Definition parse_shell_pwd (state : rstr) : option rstr := first_some pwd_of_line (str_lines state).

Definition cd_of_line (line : rstr) : option rstr :=
  match strip_prefix (lit "cd ") (trim line) with
  | None => None
  | Some rest => match unquote_shell (trim rest) with [] => None | path => Some path end
  end.
Definition parse_shell_cwd (state : rstr) : option rstr :=
  match first_some cd_of_line (str_lines state) with
  | Some path => Some path
  | None => parse_shell_pwd state
  end.

Definition active_from_shell_state (state : rstr) : option rstr :=
  match parse_shell_cwd state with
  | None => None
  | Some cwd =>
      match strip_prefix CONTAINER_SESSION_DIR cwd with
      | None => None
      | Some rel =>
          if negb (rstr_eqb rel []) && negb (starts_with (lit "/") rel) then None
          else match hd [] (split_char (chr "/") (trim_start_by (fun c => c =? chr "/") rel)) with
               | [] => None
               | seg => Some seg
               end
      end
  end.

Record Workspace : Type := mkWorkspace {
  ws_name : rstr;
  ws_is_git : bool;
  ws_active : bool;
}.
(** The replies of the host-answered commands. *)
Definition em_dash : rchar := 8212.
Definition render_projects (workspaces : list Workspace) : rstr :=
  match workspaces with
  | [] => lit "No workspaces yet " ++ [em_dash]
          ++ lit " say 'build me X', or /switch <name> to start one."
  | _ =>
      join newline (lit "Workspaces (/data):" ::
        map (fun w => (if ws_active w then [8594] else lit " ") ++ lit " " ++ ws_name w
                      ++ (if ws_is_git w then lit " (git)" else [])) workspaces)
  end.
Definition render_switch_ok (name : rstr) (created : bool) : rstr :=
  lit "Switched to workspace `" ++ name ++ lit "` " ++ [em_dash] ++ lit " "
  ++ container_workspace_path name ++ lit " (" ++ (if created then lit "new" else lit "existing")
  ++ lit ")" ++ [newline] ++ lit "context reset; send your next message to continue there.".
Definition render_switch_invalid (raw : rstr) : rstr :=
  match raw with
  | [] => lit "Usage: /switch <name> " ++ [em_dash]
          ++ lit " names may use letters, digits, '.', '_' and '-' only."
  | _ => lit "Invalid workspace name `" ++ raw ++ lit "` " ++ [em_dash]
         ++ lit " use letters, digits, '.', '_' and '-' only (no '/', '..', or spaces)."
  end.

(** ** Attachment names *)

Definition MAX_FILENAME_LEN : Z := 255.
Definition FALLBACK_FILENAME : rstr := lit "attachment.bin".

Definition sanitize_filename (name : option rstr) (fallback : rstr) : rstr :=
  let raw := trim (default [] name) in
  match raw with
  | [] => fallback
  | _ =>
      let cleaned := map (fun c => if name_char c then c else chr "_") raw in
      match trim_start_by (fun c => (c =? chr ".") || (c =? chr "_")) cleaned with
      | [] => fallback
      | trimmed => if MAX_FILENAME_LEN <? byte_len trimmed
                   then take (Z.to_nat MAX_FILENAME_LEN) trimmed else trimmed
      end
  end.

(** [char::is_control]: the C0 and C1 controls and delete. *)
Definition is_control (c : rchar) : bool := (c <? 32) || ((127 <=? c) && (c <=? 159)).

Definition safe_attachment_name (name : rstr) : result DbError unit :=
  if rstr_eqb name [] then Err (Invariant "filename is empty")
  else if MAX_FILENAME_LEN <? byte_len name then Err (Invariant "filename too long")
  else if starts_with (lit ".") name then Err (Invariant "filename starts with '.'")
  else if rstr_eqb name (lit ".") || rstr_eqb name (lit "..") then Err (Invariant "filename is . or ..")
  else if has_char (chr "/") name || has_char (chr "\") name || has_char 0 name
  then Err (Invariant "filename has path separator or NUL")
  else if existsb is_control name then Err (Invariant "filename has control character")
  else Ok tt.

Definition container_inbox_path (msg_id filename : rstr) : rstr :=
  lit "/data/inbox/" ++ msg_id ++ lit "/" ++ filename.

(** * Properties *)

Lemma name_char_range c :
  name_char c = true ->
  45 <= c <= 46 \/ 48 <= c <= 57 \/ 65 <= c <= 90 \/ c = 95 \/ 97 <= c <= 122.
Proof.
  unfold name_char, is_ascii_alphanumeric. change (chr ".") with 46. change (chr "_") with 95.
  change (chr "-") with 45. rewrite !orb_true_iff, !andb_true_iff, !Z.leb_le, !Z.eqb_eq. lia.
Qed.

Lemma valid_name name :
  validate_workspace_name name = true ->
  name <> [] /\ forall c, In c name -> name_char c = true.
Proof.
  unfold validate_workspace_name. destruct (rstr_eqb name []) eqn:E; [done|].
  destruct (_ || _); [done|]. destruct (_ || _); [done|].
  rewrite forallb_forall. intros H. split; [by intros -> | done].
Qed.

Lemma str_lines_one l :
  (forall c, In c l -> c <> newline) -> last l <> Some carriage_return -> str_lines (l ++ [newline]) = [l].
Proof.
  intros Hn Hl. unfold str_lines, split_char.
  rewrite split_on_app; [|intros c Hc; apply Z.eqb_neq; by apply Hn | by apply Z.eqb_refl].
  cbn. f_equal. unfold strip_cr. destruct (rev l) as [|c r] eqn:E; [done|].
  destruct (Z.eqb_spec c carriage_return) as [->|]; [|done]. exfalso. apply Hl.
  rewrite <- (rev_involutive l), E. cbn. by rewrite last_snoc.
Qed.

(** Switching is seen by the listing: after [/switch] to a valid name the
    shell state names exactly that workspace as the active one. *)
Theorem switch_roundtrip name :
  validate_workspace_name name = true ->
  active_from_shell_state (switch_shell_state name) = Some name.
Proof.
  intros Hv. destruct (valid_name name Hv) as [Hne Hall].
  assert (forall d, ~ name_char d = true -> forall c, In c name -> c <> d) as Hno by (intros d Hd c Hc ->; auto).
  set (path := container_workspace_path name).
  assert (switch_shell_state name = (lit "cd '" ++ path ++ [single_quote]) ++ [newline]) as ->.
  { unfold switch_shell_state. rewrite <- !app_assoc. done. }
  unfold active_from_shell_state, parse_shell_cwd. rewrite str_lines_one.
  2: { intros c Hc. unfold path, container_workspace_path in Hc. rewrite !in_app_iff in Hc.
       destruct Hc as [Hc | [[Hc | [Hc | Hc]] | Hc]];
         try (cbn in Hc; repeat destruct Hc as [<- | Hc]; done). by apply (Hno newline). }
  2: { rewrite app_assoc, last_snoc. done. }
  assert (cd_of_line (lit "cd '" ++ path ++ [single_quote]) = Some path) as Hcd.
  { unfold cd_of_line.
    change (lit "cd '" ++ path ++ [single_quote]) with (99 :: (lit "d '" ++ path) ++ [single_quote]).
    rewrite trim_id by done.
    change (strip_prefix (lit "cd ") (99 :: (lit "d '" ++ path) ++ [single_quote]))
      with (Some (single_quote :: path ++ [single_quote])).
    cbv iota. rewrite trim_id by done. unfold unquote_shell. rewrite rev_app_distr. cbn [rev app].
    cbn [Z.eqb]. rewrite rev_involutive. done. }
  cbn [first_some]. rewrite Hcd.
  unfold path, container_workspace_path. rewrite strip_prefix_app. cbn [negb].
  destruct name as [|c0 name0]; [done|]. change (lit "/" ++ c0 :: name0) with (chr "/" :: c0 :: name0).
  cbn [rstr_eqb negb andb]. change (starts_with (lit "/") (chr "/" :: c0 :: name0)) with true.
  cbn [negb]. assert (c0 <> chr "/") as Hc0 by (apply Hno; [done | by left]).
  assert (trim_start_by (fun c => c =? chr "/") (chr "/" :: c0 :: name0) = c0 :: name0) as ->.
  { cbn. destruct (Z.eqb_spec c0 (chr "/")); [done|]. done. }
  unfold split_char. rewrite split_on_none; [done|].
  intros c Hc. apply Z.eqb_neq. by apply Hno.
Qed.

Example switch_roundtrip_witness :
  active_from_shell_state (switch_shell_state (lit "my-app_2.0")) = Some (lit "my-app_2.0").
Proof. apply (switch_roundtrip (lit "my-app_2.0")). reflexivity. Defined.

(** ** Attachment names *)

Lemma byte_len_ascii s : (forall c, In c s -> c < 128) -> byte_len s = Z.of_nat (length s).
Proof.
  induction s as [|c s IH]; intros H; [done|]. cbn [byte_len length].
  rewrite IH by (intros x Hx; apply H; by right). unfold len_utf8.
  specialize (H c (or_introl eq_refl)). destruct (Z.ltb_spec c 128); lia.
Qed.

Lemma trim_start_by_In p s c : In c (trim_start_by p s) -> In c s.
Proof.
  induction s as [|x s IH]; cbn; [done|]. destruct (p x); [|done]. intros H. right. by apply IH.
Qed.

Lemma has_char_false d s : (forall c, In c s -> c <> d) -> has_char d s = false.
Proof.
  intros H. apply not_true_iff_false. intros E. apply existsb_exists in E as (c & Hc & E).
  apply Z.eqb_eq in E. by apply (H c).
Qed.

(** A non-empty name of at most 255 name characters that does not start with
    a dot is accepted. *)
Lemma clean_name_safe c r :
  (forall x, In x (c :: r) -> name_char x = true) -> c <> chr "." ->
  (length (c :: r) <= 255)%nat -> safe_attachment_name (c :: r) = Ok tt.
Proof.
  intros Hall Hdot Hlen. unfold safe_attachment_name. change (rstr_eqb (c :: r) []) with false. cbv iota.
  assert (forall x, In x (c :: r) -> 45 <= x <= 122 /\ x <> chr "/" /\ x <> chr "\") as Hr.
  { intros x Hx. apply Hall, name_char_range in Hx. change (chr "/") with 47. change (chr "\") with 92. lia. }
  rewrite byte_len_ascii by (intros x Hx; destruct (Hr x Hx); lia).
  destruct (Z.ltb_spec MAX_FILENAME_LEN (Z.of_nat (length (c :: r)))) as [Hl | _];
    [unfold MAX_FILENAME_LEN in Hl; lia|].
  assert (starts_with (lit ".") (c :: r) = false) as ->.
  { unfold starts_with. cbn [lit strip_prefix]. destruct (Z.eqb_spec (Z.of_N (N_of_ascii ".")) c); [|done].
    by subst c. }
  assert (rstr_eqb (c :: r) (lit ".") || rstr_eqb (c :: r) (lit "..") = false) as ->.
  { apply orb_false_intro; apply not_true_iff_false; intros E; apply rstr_eqb_eq in E; by injection E as -> _. }
  rewrite !has_char_false by (intros x Hx; destruct (Hr x Hx); lia). cbn [orb].
  assert (existsb is_control (c :: r) = false) as ->; [|done].
  apply not_true_iff_false. intros E. apply existsb_exists in E as (x & Hx & E).
  destruct (Hr x Hx) as [Hx1 _]. unfold is_control in E. rewrite orb_true_iff, andb_true_iff in E.
  rewrite Z.ltb_lt, !Z.leb_le in E. lia.
Qed.

Lemma sanitized_safe name fallback :
  safe_attachment_name fallback = Ok tt ->
  safe_attachment_name (sanitize_filename name fallback) = Ok tt.
Proof.
  intros Hf. unfold sanitize_filename. cbv zeta. destruct (trim (default [] name)) as [|c0 raw]; [done|].
  set (cleaned := map _ (c0 :: raw)).
  assert (forall x, In x cleaned -> name_char x = true) as Hc.
  { intros x Hx. apply in_map_iff in Hx as (y & <- & _). by destruct (name_char y) eqn:E. }
  set (p := fun c => (c =? chr ".") || (c =? chr "_")).
  destruct (trim_start_by p cleaned) as [|c r] eqn:E; [done|].
  assert (forall x, In x (c :: r) -> name_char x = true) as Hall.
  { intros x Hx. apply Hc, (trim_start_by_In p). by rewrite E. }
  apply trim_start_by_head in E. apply orb_false_elim in E as [E _]. apply Z.eqb_neq in E.
  rewrite byte_len_ascii by (intros x Hx; apply Hall, name_char_range in Hx; lia).
  destruct (Z.ltb_spec MAX_FILENAME_LEN (Z.of_nat (length (c :: r)))) as [Hl | Hl]; unfold MAX_FILENAME_LEN in *.
  - change (take (Z.to_nat 255) (c :: r)) with (c :: take 254 r). apply clean_name_safe; [|done|].
    + intros x [<- | Hx]; apply Hall; [by left | right; by apply (In_take 254)].
    + cbn. rewrite length_take. lia.
  - apply clean_name_safe; [done | done | lia].
Qed.

(** A sanitised name is always one the inbox writer accepts: whatever a
    sender supplies, the result is a non-empty single path component without
    leading dot, separator or control character, of at most 255 bytes. *)
Theorem sanitize_filename_safe name fallback :
  safe_attachment_name fallback = Ok tt ->
  safe_attachment_name (sanitize_filename name fallback) = Ok tt.
Proof. apply sanitized_safe. Qed.

Example sanitize_filename_safe_witness :
  safe_attachment_name (sanitize_filename (Some (lit "../../etc/passwd")) FALLBACK_FILENAME) = Ok tt.
Proof. apply (sanitize_filename_safe (Some (lit "../../etc/passwd")) FALLBACK_FILENAME). reflexivity. Defined.

(** ** Command rows *)

Lemma assoc_insert_same {A} k (v : A) o : assoc k (assoc_insert k v o) = Some v.
Proof.
  induction o as [|[k' v'] o IH]; cbn; [by rewrite String.eqb_refl|].
  destruct (String.eqb k k') eqn:E; cbn; [by rewrite String.eqb_refl | by rewrite E].
Qed.

Lemma assoc_insert_other {A} k k' (v : A) o : k <> k' -> assoc k (assoc_insert k' v o) = assoc k o.
Proof.
  intros H. apply String.eqb_neq in H. induction o as [|[k1 v1] o IH]; cbn; [by rewrite H|].
  destruct (String.eqb k' k1) eqn:E; cbn; [|by rewrite IH].
  apply String.eqb_eq in E. subst k1. by rewrite H.
Qed.

Lemma jget_jset_same k v o : jget k (jset k v (JObj o)) = Some v.
Proof. apply assoc_insert_same. Qed.

Lemma jget_jset_other k k' v j : k <> k' -> jget k (jset k' v j) = jget k j.
Proof. intros H. destruct j; cbn; try done. by apply assoc_insert_other. Qed.

(** Every command is recognised from its canonical text. *)
Lemma parse_canonical c : Slash.parse (Slash.canonical c) = Some c.
Proof. by destruct c. Qed.

(** A command row carries the command and loses nothing: however the user
    typed it (alias, case, bot suffix), the text of a passed-through row
    parses back to the same command, the command marker names it, what was
    typed is the text itself or kept beside it, and every other field of the
    message is unchanged. *)
Theorem passthrough_keeps_message cmd o text :
  let row := passthrough_content cmd (JObj o) text in
  (exists canon, jget_str "text" row = Some canon /\ Slash.parse canon = Some cmd
     /\ (trim text = canon \/ jget_str "original_text" row = Some (trim text)))
  /\ jget_str "command" row = Some (Slash.op cmd)
  /\ (forall k, k <> "text"%string -> k <> "command"%string -> k <> "original_text"%string ->
      jget k row = jget k (JObj o)).
Proof.
  intros row. unfold row, passthrough_content, preserve_original. cbv zeta.
  set (base := jset "command" _ _). unfold jget_str.
  assert (jget "text" base = Some (JStr (Slash.canonical cmd))) as Ht.
  { unfold base. rewrite jget_jset_other by done. apply jget_jset_same. }
  assert (jget "command" base = Some (JStr (Slash.op cmd))) as Hc by apply jget_jset_same.
  assert (exists b, base = JObj b) as [b Hb] by by eexists.
  destruct (rstr_eqb (trim text) (Slash.canonical cmd)) eqn:E.
  - apply rstr_eqb_eq in E. rewrite Ht, Hc. split; [|split; [done|]].
    + exists (Slash.canonical cmd). split; [done|]. split; [apply parse_canonical | by left].
    + intros k H1 H2 _. unfold base. by rewrite !jget_jset_other.
  - rewrite (jget_jset_other "text"), (jget_jset_other "command") by done.
    rewrite Ht, Hc. split; [|split; [done|]].
    + exists (Slash.canonical cmd). split; [done|]. split; [apply parse_canonical | right].
      rewrite Hb, jget_jset_same. done.
    + intros k H1 H2 H3. rewrite jget_jset_other by done. unfold base. by rewrite !jget_jset_other.
Qed.
