(* ===== verification/Central.v ===== *)
(** The routing tables of the central database ([copperclaw-db/src/tables/]:
    [sessions.rs], [messaging_groups.rs], [messaging_group_agents.rs],
    [dropped_messages.rs], [unregistered_senders.rs]).  Fresh ids and the
    clock are arguments; a foreign key is a membership test given by the
    caller. *)
From S2P Require Import Prelude Types.

(** ** Sessions *)

Record CreateSession : Type := mkCreateSession {
  cs_agent_group_id : uuid;
  cs_messaging_group_id : option uuid;
  cs_thread_id : option string;
  cs_agent_provider : option string;
  cs_source_session_id : option uuid;
}.

Definition parse_status (s : string) : SessionStatus.SessionStatus :=
  if String.eqb s "archived" then SessionStatus.Archived
  else if String.eqb s "stopped" then SessionStatus.Stopped
  else SessionStatus.Active.
Definition parse_container_status (s : string) : ContainerStatus :=
  if String.eqb s "running" then Running
  else if String.eqb s "idle" then Idle
  else Stopped.

Abbreviation session_table := (list Session) (only parsing).
Definition has_session (id : uuid) (s : Session) : bool := s_id s =? id.

Definition new_session (id : uuid) (req : CreateSession) (now : instant) : Session :=
  mkSession id (cs_agent_group_id req) (cs_messaging_group_id req) (cs_thread_id req)
    (cs_agent_provider req) SessionStatus.Active Stopped now now (cs_source_session_id req).

(** [refs] holds when the rows the new one refers to exist. *)
Definition create (t : session_table) (refs : bool) (id : uuid) (req : CreateSession) (now : instant)
  : result DbError (Session * session_table) :=
  if existsb (has_session id) t || negb refs then Err SqliteConstraint
  else Ok (new_session id req now, t ++ [new_session id req now]).

Definition session_get (t : session_table) (id : uuid) : result DbError Session :=
  match sql_get (has_session id) t with Some s => Ok s | None => Err NotFound end.

Definition opt_eqb {A} (eqb : A -> A -> bool) (a b : option A) : bool :=
  match a, b with
  | Some x, Some y => eqb x y
  | None, None => true
  | _, _ => false
  end.
(** The SQL comparison [IS] of nullable columns. *)
Definition matches_target (agent : uuid) (mg : option uuid) (thread : option string) (s : Session) : bool :=
  (s_agent_group_id s =? agent) && opt_eqb Z.eqb (s_messaging_group_id s) mg
  && opt_eqb String.eqb (s_thread_id s) thread.
Definition newest (t : session_table) : option Session :=
  match order_by (fun s => - s_created_at s) t with s :: _ => Some s | [] => None end.
Definition find_for_agent (t : session_table) (agent : uuid) (mg : option uuid) (thread : option string)
  : option Session := newest (List.filter (matches_target agent mg thread) t).
Definition find_by_agent_group (t : session_table) (agent : uuid) : option Session :=
  newest (List.filter (fun s => s_agent_group_id s =? agent) t).

Definition with_status (st : SessionStatus.SessionStatus) (s : Session) : Session :=
  mkSession (s_id s) (s_agent_group_id s) (s_messaging_group_id s) (s_thread_id s) (s_agent_provider s)
    st (s_container_status s) (s_last_active s) (s_created_at s) (s_source_session_id s).
Definition with_container (c : ContainerStatus) (now : instant) (s : Session) : Session :=
  mkSession (s_id s) (s_agent_group_id s) (s_messaging_group_id s) (s_thread_id s) (s_agent_provider s)
    (s_status s) c now (s_created_at s) (s_source_session_id s).
Definition with_last_active (now : instant) (s : Session) : Session :=
  with_container (s_container_status s) now s.

Definition update_session (id : uuid) (f : Session -> Session) (t : session_table)
  : result DbError session_table :=
  let '(t', n) := sql_update (has_session id) f t in
  if (n =? 0)%nat then Err NotFound else Ok t'.
Definition set_status (t : session_table) (id : uuid) (st : SessionStatus.SessionStatus)
  : result DbError session_table := update_session id (with_status st) t.
Definition set_container_status (t : session_table) (id : uuid) (c : ContainerStatus) (now : instant)
  : result DbError session_table := update_session id (with_container c now) t.
Definition touch_last_active (t : session_table) (id : uuid) (now : instant) : session_table :=
  fst (sql_update (has_session id) (with_last_active now) t).

Definition list_active (t : session_table) : list Session :=
  order_by (fun s => - s_last_active s)
    (List.filter (fun s => bool_decide (s_status s = SessionStatus.Active)) t).
Definition list_for_agent_group (t : session_table) (agent : uuid) : list Session :=
  order_by (fun s => - s_last_active s) (List.filter (fun s => s_agent_group_id s =? agent) t).
Definition list_running (t : session_table) : list Session :=
  List.filter (fun s => bool_decide (s_container_status s = Running)) t.

Record ReapableChild : Type := mkReapable { rc_session_id : uuid; rc_agent_group_id : uuid }.
Definition reapable (idle_before : instant) (s : Session) : bool :=
  match s_source_session_id s with Some _ => true | None => false end
  && bool_decide (s_container_status s = Stopped) && (s_last_active s <? idle_before).
Definition list_reapable_children (t : session_table) (idle_before : instant) : list ReapableChild :=
  map (fun s => mkReapable (s_id s) (s_agent_group_id s))
    (order_by s_last_active (List.filter (reapable idle_before) t)).

(** ** Messaging groups and wirings *)

Record MessagingGroup : Type := mkMessagingGroup {
  mg_id : uuid;
  mg_channel_type : string;
  mg_platform_id : string;
  mg_name : option rstr;
  mg_is_group : bool;
  mg_unknown_sender_policy : rstr;
  mg_denied_at : option instant;
  mg_created_at : instant;
}.
Record UpsertMessagingGroup : Type := mkUpsertMg {
  um_channel_type : string;
  um_platform_id : string;
  um_name : option rstr;
  um_is_group : bool;
  um_unknown_sender_policy : rstr;
}.
Abbreviation mg_table := (list MessagingGroup) (only parsing).

Definition at_platform (ct pid : string) (g : MessagingGroup) : bool :=
  String.eqb (mg_channel_type g) ct && String.eqb (mg_platform_id g) pid.
Definition mg_has_id (id : uuid) (g : MessagingGroup) : bool := mg_id g =? id.
Definition mg_list (t : mg_table) : list MessagingGroup := order_by mg_created_at t.
Definition mg_get (t : mg_table) (id : uuid) : result DbError MessagingGroup :=
  match sql_get (mg_has_id id) t with Some g => Ok g | None => Err NotFound end.
Definition get_by_platform (t : mg_table) (ct pid : string) : option MessagingGroup :=
  sql_get (at_platform ct pid) t.

Definition mg_patched (req : UpsertMessagingGroup) (g : MessagingGroup) : MessagingGroup :=
  mkMessagingGroup (mg_id g) (mg_channel_type g) (mg_platform_id g) (um_name req) (um_is_group req)
    (um_unknown_sender_policy req) (mg_denied_at g) (mg_created_at g).
Definition mg_new (id : uuid) (req : UpsertMessagingGroup) (now : instant) : MessagingGroup :=
  mkMessagingGroup id (um_channel_type req) (um_platform_id req) (um_name req) (um_is_group req)
    (um_unknown_sender_policy req) None now.
Definition mg_upsert (t : mg_table) (id : uuid) (req : UpsertMessagingGroup) (now : instant)
  : result DbError (MessagingGroup * mg_table) :=
  match get_by_platform t (um_channel_type req) (um_platform_id req) with
  | Some g =>
      let t' := fst (sql_update (mg_has_id (mg_id g)) (mg_patched req) t) in
      let? g' := mg_get t' (mg_id g) in Ok (g', t')
  | None =>
      if existsb (mg_has_id id) t then Err SqliteConstraint
      else Ok (mg_new id req now, t ++ [mg_new id req now])
  end.

Record MessagingGroupAgent : Type := mkWiring {
  wr_id : uuid;
  wr_messaging_group_id : uuid;
  wr_agent_group_id : uuid;
  wr_engage_mode : EngageMode;
  wr_engage_pattern : option string;
  wr_sender_scope : string;
  wr_ignored_message_policy : string;
  wr_session_mode : SessionMode;
  wr_priority : Z;
  wr_created_at : instant;
}.
Abbreviation wiring_table := (list MessagingGroupAgent) (only parsing).

Definition engage_mode_to_str (m : EngageMode) : string :=
  match m with Pattern => "pattern" | Mention => "mention" | MentionSticky => "mention-sticky" end%string.
Definition parse_engage_mode (s : string) : option EngageMode :=
  if String.eqb s "pattern" then Some Pattern
  else if String.eqb s "mention" then Some Mention
  else if String.eqb s "mention-sticky" then Some MentionSticky
  else None.
Definition session_mode_to_str (m : SessionMode) : string :=
  match m with Shared => "shared" | PerThread => "per-thread" | AgentShared => "agent-shared" end%string.
Definition parse_session_mode (s : string) : option SessionMode :=
  if String.eqb s "shared" then Some Shared
  else if String.eqb s "per-thread" then Some PerThread
  else if String.eqb s "agent-shared" then Some AgentShared
  else None.

(** [ORDER BY priority DESC, created_at]: sorted by the second key first, the
    sort being stable. *)
Definition by_priority (t : wiring_table) : list MessagingGroupAgent :=
  order_by (fun w => - wr_priority w) (order_by wr_created_at t).
Definition list_for_mg (t : wiring_table) (mg : uuid) : list MessagingGroupAgent :=
  by_priority (List.filter (fun w => wr_messaging_group_id w =? mg) t).
Definition list_for_ag (t : wiring_table) (ag : uuid) : list MessagingGroupAgent :=
  by_priority (List.filter (fun w => wr_agent_group_id w =? ag) t).

(** ** Diagnostics *)

Record DroppedMessage : Type := mkDropped {
  dr_id : uuid;
  dr_channel_type : string;
  dr_platform_id : string;
  dr_user_id : option uuid;
  dr_sender_name : option string;
  dr_reason : rstr;
  dr_messaging_group_id : option uuid;
  dr_agent_group_id : option uuid;
  dr_created_at : instant;
}.
Definition dropped_message_insert (t : list DroppedMessage) (row : DroppedMessage)
  : result DbError (list DroppedMessage) :=
  if existsb (fun d => dr_id d =? dr_id row) t then Err SqliteConstraint else Ok (t ++ [row]).
Definition dropped_message_list (t : list DroppedMessage) (since : option instant) : list DroppedMessage :=
  order_by dr_created_at
    (match since with
     | Some ts => List.filter (fun d => ts <=? dr_created_at d) t
     | None => t
     end).

Record UnregisteredSender : Type := mkUnregistered {
  us_channel_type : string;
  us_platform_id : string;
  us_user_id : option uuid;
  us_sender_name : option string;
  us_reason : rstr;
  us_messaging_group_id : option uuid;
  us_agent_group_id : option uuid;
  us_message_count : Z;
  us_first_seen : instant;
  us_last_seen : instant;
}.
Record UpsertUnregisteredSender : Type := mkUpsertUnregistered {
  uu_channel_type : string;
  uu_platform_id : string;
  uu_user_id : option uuid;
  uu_sender_name : option string;
  uu_reason : rstr;
  uu_messaging_group_id : option uuid;
  uu_agent_group_id : option uuid;
}.
Definition us_key (ct pid : string) (u : UnregisteredSender) : bool :=
  String.eqb (us_channel_type u) ct && String.eqb (us_platform_id u) pid.
(** [INSERT ... ON CONFLICT DO UPDATE]; [COALESCE] is [or_else]. *)
Definition seen_again (req : UpsertUnregisteredSender) (now : instant) (u : UnregisteredSender)
  : UnregisteredSender :=
  mkUnregistered (us_channel_type u) (us_platform_id u) (or_else (uu_user_id req) (us_user_id u))
    (or_else (uu_sender_name req) (us_sender_name u)) (uu_reason req)
    (or_else (uu_messaging_group_id req) (us_messaging_group_id u))
    (or_else (uu_agent_group_id req) (us_agent_group_id u)) (us_message_count u + 1)
    (us_first_seen u) now.
Definition unregistered_upsert (t : list UnregisteredSender) (req : UpsertUnregisteredSender)
  (now : instant) : list UnregisteredSender :=
  let key := us_key (uu_channel_type req) (uu_platform_id req) in
  if existsb key t then fst (sql_update key (seen_again req now) t)
  else t ++ [mkUnregistered (uu_channel_type req) (uu_platform_id req) (uu_user_id req)
               (uu_sender_name req) (uu_reason req) (uu_messaging_group_id req)
               (uu_agent_group_id req) 1 now now].
