(* ===== verification/Checklist.v ===== *)
(** The live checklist of a conversation
    ([copperclaw-host-delivery/src/service.rs], [dispatch_todo_list] and what it calls):
    the plans of an agent and of its sub-agents are rolled up into one card, which is
    posted once, pinned, and then edited in place.

    The tables of the other sessions of the family are an argument: a row is handled
    under the lock of its family, and each table is read once. *)
From S2P Require Import Prelude Types MessagesIn Outbox Split TodoSchema Dispatch Central.

(** ** Messages posted before *)

(** The rows of a kind, newest first. *)
Definition rows_desc (k : MessageKind) (t : out_table) : list MessageOutRow :=
  map or_row (order_by (fun r => - or_seq r) (List.filter (fun r => bool_decide (mo_kind (or_row r) = k)) t)).
Definition platform_message_id_for (t : delivered_table) (id : uuid) : option string :=
  match sql_get (fun d => delivered_has id d && String.eqb (d_status d) "ok") t with
  | Some d => d_platform_message_id d
  | None => None
  end.
Fixpoint first_posted (matches : json -> bool) (delivered : delivered_table) (rows : list MessageOutRow)
  : option string :=
  match rows with
  | [] => None
  | row :: rest =>
      if matches (mo_content row) then
        match platform_message_id_for delivered (mo_id row) with
        | Some external => Some external
        | None => first_posted matches delivered rest
        end
      else first_posted matches delivered rest
  end.
Definition LOOKUP_LIMIT : nat := 32.
Definition lookup_prior_kind_external_id (out : out_table) (delivered : delivered_table) (k : MessageKind)
    (matches : json -> bool) : option string :=
  first_posted matches delivered (take LOOKUP_LIMIT (rows_desc k out)).

(** ** The family of a session *)

Definition MAX_ANCESTORS : nat := 32.
Fixpoint ancestor (fuel : nat) (t : session_table) (current : Session) : Session :=
  match fuel with
  | O => current
  | S fuel' =>
      match s_source_session_id current with
      | None => current
      | Some parent_id =>
          match session_get t parent_id with
          | Ok parent => ancestor fuel' t parent
          | Err _ => current
          end
      end
  end.
Definition resolve_root (t : session_table) (sess : Session) : Session := ancestor MAX_ANCESTORS t sess.
Definition family_children (t : session_table) (root_id : uuid) : list Session :=
  List.filter (fun s => opt_eqb Z.eqb (s_source_session_id s) (Some root_id)) (list_active t).

(** ** The card *)

Definition aggregate_status (items : list TodoListItem) : TodoItemStatus :=
  if all_completed items then WireCompleted
  else if existsb (fun i => status_eqb (wi_status i) WireBlocked) items then WireBlocked
  else if existsb (fun i => status_eqb (wi_status i) WireInProgress || status_eqb (wi_status i) WireCompleted) items
  then WireInProgress
  else WirePending.
Definition next_item_id (id : Z) : Z := (id + 1) mod (u32_max + 1).
Definition first_free_id (items : list TodoListItem) : Z :=
  match map wi_id items with
  | [] => 0
  | i :: ids => next_item_id (fold_left Z.max ids i)
  end.
Definition rightwards_arrow : rchar := 8627.
(** The items of one child, from the id [next] on. *)
Fixpoint numbered_items (next : Z) (items : list TodoListItem) : list TodoListItem * Z :=
  match items with
  | [] => ([], next)
  | it :: rest =>
      let '(l, next') := numbered_items (next_item_id next) rest in
      (mkWire next (lit "    " ++ wi_text it) (wi_status it) None :: l, next')
  end.
Fixpoint child_sections (next : Z) (children : list (rstr * WireList)) : list TodoListItem :=
  match children with
  | [] => []
  | (name, child) :: rest =>
      let header := mkWire next (rightwards_arrow :: lit " " ++ name) (aggregate_status (wl_items child)) None in
      let '(l, next') := numbered_items (next_item_id next) (wl_items child) in
      header :: l ++ child_sections next' rest
  end.
Definition build_combined (root : option WireList) (children : list (rstr * WireList)) : WireList :=
  let items := match root with Some l => wl_items l | None => [] end in
  mkWireList (items ++ child_sections (first_free_id items) children)
    (match root with Some l => wl_title l | None => None end).

(** ** Where the plans are *)

(** The sessions of the central database, the names of the agent groups, and the
    tables of the sessions, [None] for those that cannot be opened, with the error of
    the attempt. *)
Record Family : Type := mkFamily {
  fam_sessions : session_table;
  fam_group_name : uuid -> option rstr;
  fam_outbound : uuid -> option out_table;
  fam_inbound : uuid -> option delivered_table;
  fam_open_error : DbError;
}.

Section Checklist.
Context `{Host} (fam : Family).

(** The tables of the session at work are those of the state. *)
Definition outbound_of (sess : Session) (w : world) (id : uuid) : option out_table :=
  if id =? s_id sess then Some (w_out w) else fam_outbound fam id.
Definition inbound_of (sess : Session) (w : world) (id : uuid) : option delivered_table :=
  if id =? s_id sess then Some (w_delivered w) else fam_inbound fam id.

Definition latest_in (t : out_table) : option WireList :=
  match rows_desc TodoList t with
  | [] => None
  | row :: _ => jget "todo_list" (mo_content row) ≫= list_of_json
  end.
Definition latest_todo_list (sess : Session) (w : world) (id : uuid) : option WireList :=
  outbound_of sess w id ≫= latest_in.
Definition sub_agent : rstr := lit "sub-agent".
Definition child_list (sess : Session) (w : world) (child : Session) : option (rstr * WireList) :=
  match latest_todo_list sess w (s_id child) with
  | Some list =>
      match wl_items list with
      | [] => None
      | _ => Some (default sub_agent (fam_group_name fam (s_agent_group_id child)), list)
      end
  | None => None
  end.
Definition card_of (sess root : Session) (w : world) : WireList :=
  build_combined (latest_todo_list sess w (s_id root))
    (omap (child_list sess w) (family_children (fam_sessions fam) (s_id root))).

Definition prior_anchor (sess root : Session) : M (option string) :=
  fun w =>
    match w_anchors w !! s_id root with
    | Some id => (Ok (Some id), w)
    | None =>
        match outbound_of sess w (s_id root), inbound_of sess w (s_id root) with
        | Some out, Some delivered => (Ok (lookup_prior_kind_external_id out delivered TodoList (fun _ => true)), w)
        | _, _ => (Err (EDb (fam_open_error fam)), w)
        end
    end.

(** The adapter's hook: the text of the list when there is none, a fresh pinned card
    when the one to edit is gone. *)
Definition deliver_todo_list (ct : string) (a : Adapter) (pid : string) (thread : option string)
    (root : uuid) (combined : WireList) (prior : option string) (pin_hint : bool) : M (option string) :=
  fun w =>
    match answer ct a pid thread (CTodoList combined prior pin_hint) w with
    | (Ok id, w1) => (Ok id, w1)
    | (Err (Unsupported _), w1) =>
        call_adapter ct a pid thread (chat_message (to_text_fallback combined)) w1
    | (Err (BadRequest msg), w1) =>
        if bool_decide (is_Some prior) && is_stale_edit_target msg then
          match answer ct a pid thread (CTodoList combined None true) (set_anchors (delete root) w1) with
          | (Ok id, w2) => (Ok id, w2)
          | (Err e, w2) => (Err (EAdapter e), w2)
          end
        else (Err (EAdapter (BadRequest msg)), w1)
    | (Err other, w1) => (Err (EAdapter other), w1)
    end.

Definition track_anchor (root : uuid) (id : option string) (done : bool) (w : world) : world :=
  match id, done with
  | Some id, false => set_anchors <[root := id]> w
  | _, true => set_anchors (delete root) w
  | None, false => w
  end.

Definition todo_list_row (row : MessageOutRow) (target : DispatchTarget) (sess : Session) : M unit :=
  match jget "todo_list" (mo_content row) with
  | None => fail (ESystemAction "todo_list row missing content.todo_list")
  | Some _ =>
      let! '(ct, a, pid) := resolve_adapter target in
      let root := resolve_root (fam_sessions fam) sess in
      let! combined := gets (card_of sess root) in
      match wl_items combined with
      | [] => record_delivered (mo_id row) None "ok"
      | _ =>
          let! prior := prior_anchor sess root in
          let done := is_fully_completed combined in
          let pin_hint := bool_decide (prior = None) || done in
          let! id := deliver_todo_list ct a pid (dt_thread_id target) (s_id root) combined prior pin_hint in
          modify (track_anchor (s_id root) id done) ;;
          record_delivered (mo_id row) id "ok"
      end
  end.

(** ** What the delivery loop relies on *)

Lemma framed_set_anchors s id f : framed s id (modify (set_anchors f)).
Proof.
  intros w. cbn. constructor; try done; cbn; [by left | | lia]. exists []. by rewrite app_nil_r.
Qed.
Lemma framed_track_anchor s id root o done : framed s id (modify (track_anchor root o done)).
Proof.
  intros w. cbn. destruct o, done; cbn; try apply frame_refl; apply (framed_set_anchors s id _ w).
Qed.
Lemma framed_prior_anchor s id sess root : framed s id (prior_anchor sess root).
Proof. intros w. unfold prior_anchor. repeat case_goal; apply frame_refl. Qed.

Lemma framed_deliver_todo_list s id ct a pid th root l prior pin :
  framed s id (deliver_todo_list ct a pid th root l prior pin).
Proof.
  intros w. unfold deliver_todo_list.
  destruct (answer ct a pid th _ w) as [[o|e] w1] eqn:E; apply (answer_frame s id) in E; [done|].
  destruct e as [| | | |msg| |]; try done; [|eapply frame_trans; [exact E | apply call_adapter_framed]].
  destruct (_ && _); [|done].
  destruct (answer ct a pid th (CTodoList l None true) _) as [[o|e] w2] eqn:E2; apply (answer_frame s id) in E2;
    (eapply frame_trans; [exact E | eapply frame_trans; [exact (framed_set_anchors s id (delete root) w1) | exact E2]]).
Qed.
#[local] Hint Resolve framed_track_anchor framed_prior_anchor framed_deliver_todo_list resolve_adapter_framed : framed.

Lemma todo_list_row_framed row t sess : framed (s_id sess) (mo_id row) (todo_list_row row t sess).
Proof.
  unfold todo_list_row. destruct (jget _ _); [|auto with framed].
  apply framed_bind; [auto with framed|]. intros [[ct a] pid].
  apply framed_bind; [auto with framed|]. intros combined. destruct (wl_items combined); [auto with framed|].
  apply framed_bind; [auto with framed|]. intros prior.
  apply framed_bind; [auto with framed|]. intros o. apply framed_bind; auto with framed.
Qed.
Lemma todo_list_row_records row t sess : records (mo_id row) (todo_list_row row t sess).
Proof.
  unfold todo_list_row. destruct (jget _ _); [|auto with framed].
  apply records_bind. intros [[ct a] pid]. apply records_bind. intros combined.
  destruct (wl_items combined); [auto with framed|].
  do 3 (apply records_bind; intros ?). auto with framed.
Qed.
End Checklist.
