(* ===== verification/ChecklistProps.v ===== *)
(** The live checklist: its JSON is read back as it was written, the card of a family
    shows each plan item and is complete when all of them are, and while the work is
    unfinished one card is edited. *)
From S2P Require Import Prelude Types MessagesIn Outbox Split TodoSchema Dispatch Central Checklist.

(** ** JSON *)

Definition in_u32 (n : Z) : Prop := 0 <= n <= u32_max.
Lemma u32_of_json_num n : in_u32 n -> u32_of_json (JNum n) = Some n.
Proof. intros [H1 H2]. cbn. by rewrite (proj2 (Z.leb_le 0 n)), (proj2 (Z.leb_le n u32_max)). Qed.
Lemma item_of_json_item i : in_u32 (wi_id i) -> item_of_json (item_to_json i) = Some i.
Proof.
  destruct i as [id text st o]. cbn [wi_id]. intros H.
  assert (forall r, item_fields (JNum id) (JStr text) (JStr (status_tag st)) r
                    = match opt_str_of_json r with Some o => Some (mkWire id text st o) | None => None end) as E.
  { intros r. unfold item_fields. rewrite (u32_of_json_num id H). cbn [base.mbind option_bind jas_str status_of_json].
    by rewrite parse_tag_status. }
  by destruct o; (etransitivity; [apply E | done]).
Qed.
Lemma items_of_json_items l :
  Forall (fun i => in_u32 (wi_id i)) l -> mapM item_of_json (map item_to_json l) = Some l.
Proof.
  intros H. apply mapM_Some_2. induction H as [|i l Hi _ IH]; [constructor|].
  cbn [map]. constructor; [by apply item_of_json_item | done].
Qed.

(** The list a row carries is read back as it was written, for every list whose ids
    are 32-bit numbers. *)
Theorem wire_list_roundtrip l :
  Forall (fun i => in_u32 (wi_id i)) (wl_items l) -> list_of_json (list_to_json l) = Some l.
Proof.
  destruct l as [items title]. cbn [wl_items]. intros H.
  unfold list_of_json, list_to_json, jget, list_fields. cbn [wl_items wl_title]. simpl.
  rewrite (items_of_json_items items H). by destruct title.
Qed.
Definition demo_item (id : Z) (text : string) (s : TodoItemStatus) : TodoListItem := mkWire id (lit text) s None.
Definition demo_list : WireList :=
  mkWireList [demo_item 1 "wash" WireCompleted; mkWire 2 (lit "dry") WireBlocked (Some (lit "no towel"))] None.
Lemma wire_list_roundtrip_witness : list_of_json (list_to_json demo_list) = Some demo_list.
Proof. apply wire_list_roundtrip. repeat constructor; by vm_compute. Defined.

(** ** The card of a family *)

Lemma numbered_items_spec next l :
  snd (numbered_items next l) = Nat.iter (length l) next_item_id next
  /\ length (fst (numbered_items next l)) = length l
  /\ map wi_text (fst (numbered_items next l)) = map (fun it => lit "    " ++ wi_text it) l
  /\ map wi_status (fst (numbered_items next l)) = map wi_status l.
Proof.
  revert next. induction l as [|it l IH]; intros next; [done|]. cbn [numbered_items].
  destruct (IH (next_item_id next)) as (E1 & E2 & E3 & E4).
  destruct (numbered_items (next_item_id next) l) as [l' next']. cbn [fst snd length map wi_text wi_status] in *.
  rewrite E1, E2, E3, E4. split_and!; [|done..]. cbn [Nat.iter]. by rewrite Nat.iter_swap.
Qed.
Lemma next_item_id_small n : 0 <= n < u32_max -> next_item_id n = n + 1.
Proof. intros H. unfold next_item_id. apply Z.mod_small. lia. Qed.
(** Ids counted up from [next], each once. *)
Fixpoint counted (next : Z) (ids : list Z) : Prop :=
  match ids with
  | [] => True
  | i :: ids' => i = next /\ counted (next + 1) ids'
  end.
Lemma counted_bound next ids i : counted next ids -> In i ids -> next <= i.
Proof.
  revert next. induction ids as [|j ids IH]; intros next; [done|].
  intros [-> Hc] [->|Hi]; [lia|]. specialize (IH _ Hc Hi). lia.
Qed.
Lemma counted_NoDup next ids : counted next ids -> NoDup ids.
Proof.
  revert next. induction ids as [|j ids IH]; intros next; [constructor|].
  intros [-> Hc]. constructor; [|by eapply IH].
  rewrite list_elem_of_In. intros Hi. specialize (counted_bound _ _ _ Hc Hi). lia.
Qed.
Lemma counted_app next a b : counted next a -> counted (next + Z.of_nat (length a)) b -> counted next (a ++ b).
Proof.
  revert next. induction a as [|i a IH]; intros next; cbn [counted app length].
  - by rewrite Z.add_0_r.
  - intros [-> Ha] Hb. split; [done|]. apply IH; [done|]. by replace (next + 1 + Z.of_nat (length a)) with (next + Z.of_nat (S (length a))) by lia.
Qed.
Lemma numbered_items_counted next l :
  0 <= next -> next + Z.of_nat (length l) <= u32_max ->
  counted next (map wi_id (fst (numbered_items next l)))
  /\ snd (numbered_items next l) = next + Z.of_nat (length l).
Proof.
  revert next. induction l as [|it l IH]; intros next H0 Hm; [cbn; split; [done|lia]|].
  cbn [numbered_items]. cbn [length] in Hm. rewrite next_item_id_small by lia.
  destruct (IH (next + 1)) as [Hc He]; [lia..|].
  destruct (numbered_items (next + 1) l) as [l' next']. cbn in *. split; [done|]. lia.
Qed.

(** How many items the children take. *)
Definition sections_size (children : list (rstr * WireList)) : nat :=
  list_sum (map (fun c => S (length (wl_items (snd c)))) children).
Lemma child_sections_counted next children :
  0 <= next -> next + Z.of_nat (sections_size children) <= u32_max ->
  counted next (map wi_id (child_sections next children)).
Proof.
  revert next. induction children as [|[name l] r IH]; intros next H0 Hm; [done|].
  change (sections_size ((name, l) :: r)) with (S (length (wl_items l)) + sections_size r)%nat in Hm.
  cbn [child_sections]. rewrite next_item_id_small by lia.
  destruct (numbered_items_counted (next + 1) (wl_items l)) as [Hc He]; [lia..|].
  destruct (numbered_items_spec (next + 1) (wl_items l)) as (_ & Hl & _).
  destruct (numbered_items (next + 1) (wl_items l)) as [items next'] eqn:E. cbn [fst snd] in *.
  cbn [map wi_id counted]. split; [done|]. rewrite map_app. apply counted_app; [done|].
  rewrite length_map, Hl, <- He. apply IH; lia.
Qed.

Lemma fold_max_le ids acc : acc <= fold_left Z.max ids acc /\ Forall (fun i => i <= fold_left Z.max ids acc) ids.
Proof.
  revert acc. induction ids as [|i ids IH]; intros acc; cbn; [split; [lia | constructor]|].
  destruct (IH (Z.max acc i)) as [H1 H2]. split; [lia|]. constructor; [lia | done].
Qed.
Lemma fold_max_in ids acc : fold_left Z.max ids acc = acc \/ In (fold_left Z.max ids acc) ids.
Proof.
  revert acc. induction ids as [|i ids IH]; intros acc; cbn; [by left|].
  destruct (IH (Z.max acc i)) as [->|Hin]; [|by right; right].
  destruct (Z.max_spec acc i) as [[_ ->]|[_ ->]]; [right; by left | by left].
Qed.
(** The text of a section: the header, then the plan indented. *)
Definition section_texts (c : rstr * WireList) : list rstr :=
  (rightwards_arrow :: lit " " ++ fst c) :: map (fun it => lit "    " ++ wi_text it) (wl_items (snd c)).
Definition section_statuses (c : rstr * WireList) : list TodoItemStatus :=
  aggregate_status (wl_items (snd c)) :: map wi_status (wl_items (snd c)).
Lemma child_sections_content next children :
  map wi_text (child_sections next children) = concat (map section_texts children)
  /\ map wi_status (child_sections next children) = concat (map section_statuses children).
Proof.
  revert next. induction children as [|[name l] r IH]; intros next; [done|]. cbn [child_sections].
  destruct (numbered_items_spec (next_item_id next) (wl_items l)) as (_ & _ & Ht & Hs).
  destruct (numbered_items (next_item_id next) (wl_items l)) as [items next']. cbn [fst snd] in *.
  destruct (IH next') as [IHt IHs].
  cbn [map concat]. unfold section_texts at 1, section_statuses at 1. cbn [fst snd wi_text wi_status].
  rewrite !map_app, Ht, Hs, IHt, IHs. done.
Qed.

Definition done_items (items : list TodoListItem) : Prop := Forall (fun i => wi_status i = WireCompleted) items.
Lemma done_items_app a b : done_items (a ++ b) <-> done_items a /\ done_items b.
Proof. apply Forall_app. Qed.
Lemma aggregate_done items : aggregate_status items = WireCompleted <-> items <> [] /\ done_items items.
Proof.
  unfold aggregate_status. rewrite <- all_completed_forall. destruct (all_completed items); [done|].
  split; [|done]. by repeat case_goal.
Qed.
Lemma done_statuses items : done_items items <-> Forall (eq WireCompleted) (map wi_status items).
Proof. unfold done_items. rewrite Forall_map. split; intros H; (eapply Forall_impl; [exact H|]); intros ?; cbn; congruence. Qed.
Lemma sections_done next children :
  Forall (fun c => wl_items (snd c) <> []) children ->
  (done_items (child_sections next children) <-> Forall (fun c => done_items (wl_items (snd c))) children).
Proof.
  intros Hne. rewrite done_statuses, (proj2 (child_sections_content next children)).
  induction Hne as [|[name l] r Hc _ IH]; [split; constructor|].
  cbn [map concat]. rewrite Forall_app, IH, Forall_cons. cbn [snd].
  unfold section_statuses at 1. rewrite Forall_cons, <- done_statuses.
  cbn [snd] in *. split; [by intros [[_ ?] ?] | intros [Hd Hr]; split; [split|]; try done].
  symmetry. by apply aggregate_done.
Qed.

(** The card of a family shows the root's plan and then, for each child in order, a
    header and the child's plan indented; its ids are distinct, and it is complete when
    there is an item and every plan is. *)
Theorem card_rolls_up (root : WireList) (children : list (rstr * WireList)) :
  NoDup (map wi_id (wl_items root)) ->
  Forall (fun i => 0 <= i /\ i + 1 + Z.of_nat (sections_size children) <= u32_max) (map wi_id (wl_items root)) ->
  Z.of_nat (sections_size children) <= u32_max ->
  Forall (fun c => wl_items (snd c) <> []) children ->
  let card := build_combined (Some root) children in
  map wi_text (wl_items card) = map wi_text (wl_items root) ++ concat (map section_texts children)
  /\ NoDup (map wi_id (wl_items card))
  /\ (is_fully_completed card = true <->
      wl_items card <> [] /\ done_items (wl_items root) /\ Forall (fun c => done_items (wl_items (snd c))) children).
Proof.
  intros Hnd Hids Hsize Hne. cbn [build_combined wl_items].
  rewrite !map_app, (proj1 (child_sections_content _ children)). split; [done|]. split.
  - unfold first_free_id. destruct (map wi_id (wl_items root)) as [|i ids].
    { by eapply counted_NoDup, child_sections_counted; [|lia]. }
    destruct (fold_max_le ids i) as [Hi Hle].
    assert (Hmax : 0 <= fold_left Z.max ids i /\ fold_left Z.max ids i + 1 + Z.of_nat (sections_size children) <= u32_max).
    { rewrite Forall_cons, List.Forall_forall in Hids.
      destruct (fold_max_in ids i) as [->|Hin]; [exact (proj1 Hids) | exact (proj2 Hids _ Hin)]. }
    rewrite next_item_id_small by lia.
    assert (counted (fold_left Z.max ids i + 1) (map wi_id (child_sections (fold_left Z.max ids i + 1) children))) as Hc.
    { apply child_sections_counted; lia. }
    apply NoDup_app. split; [done|]. split; [|by eapply counted_NoDup].
    intros x Hx Hx'. apply list_elem_of_In in Hx, Hx'. specialize (counted_bound _ _ _ Hc Hx').
    destruct Hx as [<-|Hx]; [lia|]. rewrite List.Forall_forall in Hle. specialize (Hle _ Hx). lia.
  - unfold is_fully_completed. cbn [wl_items]. rewrite all_completed_forall.
    pose proof (sections_done (first_free_id (wl_items root)) children Hne) as Hs.
    pose proof (done_items_app (wl_items root) (child_sections (first_free_id (wl_items root)) children)) as Ha.
    unfold done_items in *. tauto.
Qed.
Definition demo_children : list (rstr * WireList) :=
  [(lit "tester", mkWireList [demo_item 1 "run" WireCompleted; demo_item 2 "report" WireInProgress] None)].
Lemma card_rolls_up_witness :
  map wi_text (wl_items (build_combined (Some demo_list) demo_children))
  = [lit "wash"; lit "dry"; rightwards_arrow :: lit " tester"; lit "    run"; lit "    report"].
Proof.
  etransitivity; [apply (card_rolls_up demo_list demo_children) | by vm_compute];
    [apply (bool_decide_unpack _); by vm_compute | repeat constructor; by vm_compute..].
Defined.

(** ** One card *)

(** Adapters with an edit API that works: a posted card has an id, an edited card keeps
    its own, and nothing is refused as unsupported or gone. *)
Class CardAdapters `{Host} : Prop := {
  card_answers ct a log l list existing pin :
    adapters ct = Some a -> lg_call l = CTodoList list existing pin ->
    match fst (ad_answer a log l) with
    | Ok id => exists i, id = Some i /\ forall j, existing = Some j -> i = j
    | Err (Unsupported _) => False
    | Err (BadRequest msg) => existing <> None -> is_stale_edit_target msg = false
    | Err _ => True
    end;
}.
Definition edits (i : string) (l : logged) : Prop :=
  match lg_call l with CTodoList _ existing _ => existing = Some i | _ => True end.

Section OneCard.
Context `{Hc : CardAdapters}.

(** One call of the hook: an error changes nothing but the log, a success has an id. *)
Lemma deliver_todo_list_once ct a pid th root card prior pin w r w' :
  adapters ct = Some a -> deliver_todo_list ct a pid th root card prior pin w = (r, w') ->
  (exists l, w_log w' = l :: w_log w /\ (forall i, prior = Some i -> edits i l))
  /\ w_anchors w' = w_anchors w
  /\ match r with Ok id => exists i, id = Some i /\ forall j, prior = Some j -> i = j | Err _ => True end.
Proof.
  intros Ha. unfold deliver_todo_list, answer.
  pose proof (card_answers ct a (w_log w) (mkLogged ct pid th (CTodoList card prior pin)) _ _ _ Ha eq_refl) as Hl.
  destruct (ad_answer a (w_log w) _) as [[id|e] d]; cbn [fst] in Hl.
  - intros [= <- <-]. split; [|done]. eexists. split; [done|]. by intros i ->.
  - assert (e = e -> (Err (EAdapter e), after_call (mkLogged ct pid th (CTodoList card prior pin)) d w) = (r, w')
            -> (exists l, w_log w' = l :: w_log w /\ (forall i, prior = Some i -> edits i l))
               /\ w_anchors w' = w_anchors w
               /\ match r with Ok id => exists i, id = Some i /\ forall j, prior = Some j -> i = j | Err _ => True end) as He.
    { intros _ [= <- <-]. split; [|done]. eexists. split; [done|]. by intros i ->. }
    destruct e; try (by apply He); [|done]. destruct prior as [p|]; [|by apply He].
    rewrite Hl, andb_false_r by done. by apply He.
Qed.

Context (fam : Family) (sess : Session).
Abbreviation root := (resolve_root (fam_sessions fam) sess).
Lemma prior_anchor_spec w r w' :
  prior_anchor fam sess root w = (r, w') ->
  w' = w /\ forall i, w_anchors w !! s_id root = Some i -> r = Ok (Some i).
Proof.
  unfold prior_anchor. destruct (w_anchors w !! s_id root) as [i|]; [intros [= <- <-]; split; [done | by intros ? [= ->]]|].
  destruct (outbound_of fam sess w (s_id root)), (inbound_of fam sess w (s_id root)); by intros [= <- <-].
Qed.
Lemma resolve_adapter_spec t w r w' :
  resolve_adapter t w = (r, w') ->
  w' = w /\ match r with Ok (ct, a, _) => adapters ct = Some a | Err _ => True end.
Proof.
  unfold resolve_adapter. destruct (dt_channel_type t) as [ct|]; [|by intros [= <- <-]].
  destruct (dt_platform_id t); [|by intros [= <- <-]].
  destruct (adapters ct) eqn:E; by intros [= <- <-].
Qed.

(** A row of an unfinished family: the card it shows and what it leaves. *)
Lemma todo_list_row_unfinished row t w r w' :
  is_fully_completed (card_of fam sess root w) = false ->
  todo_list_row fam row t sess w = (r, w') ->
  exists calls, w_log w' = calls ++ w_log w
    /\ (forall i, w_anchors w !! s_id root = Some i -> Forall (edits i) calls /\ w_anchors w' !! s_id root = Some i)
    /\ (r = Ok tt -> wl_items (card_of fam sess root w) <> [] -> is_Some (w_anchors w' !! s_id root)).
Proof.
  intros Hu. unfold todo_list_row.
  destruct (jget _ _); [|intros [= <- <-]; by exists []].
  unfold mbind at 1. destruct (resolve_adapter t w) as [ra w0] eqn:Er.
  apply resolve_adapter_spec in Er. destruct Er as [-> Ha].
  destruct ra as [[[ct a] pid]|e]; [|intros [= <- <-]; by exists []].
  cbn [mbind gets]. set (card := card_of fam sess root w) in *.
  destruct (wl_items card) as [|x xs] eqn:Ei; [intros [= <- <-]; by exists []|].
  unfold mbind at 1. destruct (prior_anchor fam sess root w) as [rp w0] eqn:Ep.
  apply prior_anchor_spec in Ep. destruct Ep as [-> Hp].
  destruct rp as [prior|e]; [|intros [= <- <-]; exists []; split; [done|]; split; [intros i Hi; by apply Hp in Hi | done]].
  unfold mbind at 1. rewrite Hu.
  destruct (deliver_todo_list _ _ _ _ _ _ _ _ w) as [rd w1] eqn:Ed.
  apply deliver_todo_list_once in Ed; [|done]. destruct Ed as ((l & Hl & He) & Han & Hr).
  assert (forall i, w_anchors w !! s_id root = Some i -> prior = Some i) as Hpi by (intros i Hi; apply Hp in Hi; congruence).
  destruct rd as [id|e]; [destruct Hr as (i & -> & Hj)|]; intros [= <- <-]; exists [l]; (split; [exact Hl|]).
  - cbn. split; [|intros _ _; rewrite lookup_insert_eq; eauto].
    intros k Hw. rewrite lookup_insert_eq. specialize (Hpi k Hw). rewrite (Hj k Hpi). eauto.
  - split; [|done]. intros i Hi. rewrite Han. eauto.
Qed.
End OneCard.

(** The history of a family whose root is [r], between two points at which its plans are
    unfinished: rows of its members, whatever else leaves the service's note of its card
    alone, and the calls its rows made. *)
Inductive family_run `{Host} (r : uuid) : world -> list logged -> world -> Prop :=
| run_end w : family_run r w [] w
| run_else w w1 calls w2 :
    w_anchors w1 !! r = w_anchors w !! r -> family_run r w1 calls w2 -> family_run r w calls w2
| run_row fam sess row t w res made w1 calls w2 :
    s_id (resolve_root (fam_sessions fam) sess) = r ->
    is_fully_completed (card_of fam sess (resolve_root (fam_sessions fam) sess) w) = false ->
    todo_list_row fam row t sess w = (res, w1) -> w_log w1 = made ++ w_log w ->
    family_run r w1 calls w2 -> family_run r w (made ++ calls) w2.

(** C13. Where channels edit in place: once a row of a family with unfinished plans was
    delivered, there is a card which every later row of the family edits, whichever
    member wrote it, and no other card is posted until the plans are finished or the
    host restarts. *)
Theorem one_card_while_unfinished `{CardAdapters} fam sess row t w w1 :
  let root := resolve_root (fam_sessions fam) sess in
  wl_items (card_of fam sess root w) <> [] ->
  is_fully_completed (card_of fam sess root w) = false ->
  todo_list_row fam row t sess w = (Ok tt, w1) ->
  exists i, forall calls w2, family_run (s_id root) w1 calls w2 ->
    Forall (edits i) calls /\ w_anchors w2 !! s_id root = Some i.
Proof.
  intros root Hne Hu Hrow.
  destruct (todo_list_row_unfinished fam sess row t w _ w1 Hu Hrow) as (_ & _ & _ & Hi).
  destruct (Hi eq_refl Hne) as [i Ha]. exists i. fold root in Ha. clear - Ha H0.
  intros calls w2 Hrun. induction Hrun as [w | w w1' calls w2 He Hrun IH | fam' sess' row' t' w res made w1' calls w2 Hr Hu' Hrow' Hlog Hrun IH].
  - by split.
  - apply IH. by rewrite He.
  - destruct (todo_list_row_unfinished fam' sess' row' t' w res w1' Hu' Hrow') as (made' & Hlog' & Hk & _).
    rewrite Hlog in Hlog'. apply app_inv_tail in Hlog' as ->. rewrite Hr in Hk.
    destruct (Hk i Ha) as [Hmade Ha']. destruct (IH Ha') as [Hc Hw]. split; [|done]. by apply Forall_app.
Qed.

(** ** A family of three *)

(** A channel that edits in place. *)
Definition card_adapter : Adapter :=
  mkAdapter None None
    (fun log l => match lg_call l with
                  | CTodoList _ (Some id) _ => (Ok (Some id), 1)
                  | CTodoList _ None _ => (Ok (Some (if (length log =? 0)%nat then "m1" else "m2")%string), 1)
                  | _ => (Ok None, 1)
                  end)
    (fun _ => None).
Definition card_host : Host :=
  {| adapters := fun ct => if String.eqb ct "cli" then Some card_adapter else None;
     parse_payload := fun _ j => inr j; text_fallback := fun _ _ => [];
     collapsible_fallback := fun _ _ _ => []; agent_dispatch := None;
     handle_system := fun _ row _ => record_delivered (mo_id row) None "ok";
     dispatch_todo_list := fun row _ _ => record_delivered (mo_id row) None "ok" |}.
#[local] Instance card_adapters_ok : @CardAdapters card_host.
Proof.
  constructor. intros ct a log l list existing pin Ha Hl. cbn in Ha.
  destruct (String.eqb ct "cli"); [|done]. injection Ha as <-. cbn. rewrite Hl.
  destruct existing as [i|]; cbn; eexists; split; done || by intros ? [= ->].
Qed.

Definition member (id : uuid) (parent : option uuid) : Session :=
  mkSession id (id + 10) None None None SessionStatus.Active Idle 0 0 parent.
Definition three : session_table := [member 1 None; member 2 (Some 1); member 3 (Some 2)].
Definition plan_row (id seq : Z) (l : WireList) : out_row :=
  mkOutRow (mkMessageOut id seq None 0 None None TodoList (Some "room"%string) (Some "cli"%string) None
              (JObj [("todo_list"%string, list_to_json l)])) 0 None.
Definition room : DispatchTarget := mkTarget (Some "cli"%string) (Some "room"%string) None None.
Definition with_rows (t : list out_row) : world :=
  mkWorld t [] None [] ∅ ∅ ∅ ∅ ∅ ∅ [] 0 0 100.
(** The family seen by a member: the tables of the others. *)
Definition family_with (tables : gmap uuid (list out_row * list Delivered)) : Family :=
  mkFamily three (fun g => Some (lit "agent")) (fun id => option_map fst (tables !! id))
    (fun id => option_map snd (tables !! id)) NotFound.
Definition plan (s : TodoItemStatus) : WireList := mkWireList [demo_item 1 "step" s] None.
Definition run_row_of (tables : gmap uuid (list out_row * list Delivered)) (r : out_row) (sess : Session) (w : world)
  : result DeliveryError unit * world :=
  @todo_list_row card_host (family_with tables) (or_row r) room sess w.

Definition root_row : out_row := plan_row 50 1 (plan WireInProgress).
Lemma one_card_while_unfinished_witness :
  exists i, forall calls w2,
    @family_run card_host 1 (snd (run_row_of ∅ root_row (member 1 None) (with_rows [root_row]))) calls w2 ->
    Forall (edits i) calls /\ w_anchors w2 !! 1 = Some i.
Proof.
  apply (@one_card_while_unfinished card_host card_adapters_ok (family_with ∅) (member 1 None) (or_row root_row) room
           (with_rows [root_row])).
  - by vm_compute.
  - by vm_compute.
  - unfold run_row_of. rewrite (surjective_pairing (todo_list_row _ _ _ _ _)). f_equal.
Defined.

(** The list calls of a log, oldest first: the card edited and the pin hint. *)
Definition card_calls (w : world) : list (option string * bool) :=
  rev (omap (fun l => match lg_call l with CTodoList _ e pin => Some (e, pin) | _ => None end) (w_log w)).
Definition with_row (r : out_row) (w : world) : world := set_out (fun t => t ++ [r]) w.

(** A plan is posted and pinned, finished and unpinned; the next plan edits the card of
    the finished one, which nothing pins again. *)
Definition next_plan_after_done : world :=
  let r1 := plan_row 50 1 (plan WireInProgress) in
  let r2 := plan_row 51 3 (plan WireCompleted) in
  let r3 := plan_row 52 5 (plan WirePending) in
  let root := member 1 None in
  let w1 := snd (run_row_of ∅ r1 root (with_rows [r1])) in
  let w2 := snd (run_row_of ∅ r2 root (with_row r2 w1)) in
  snd (run_row_of ∅ r3 root (with_row r3 w2)).
Example finished_card_not_pinned_again :
  card_calls next_plan_after_done = [(None, true); (Some "m1"%string, true); (Some "m1"%string, false)].
Proof. by vm_compute. Qed.

(** A grandchild's plan is on no card: the row is recorded as delivered and no channel
    is called. *)
Example grandchild_shown_nowhere :
  let r := plan_row 60 1 (plan WireInProgress) in
  let '(res, w) := run_row_of {[ 1 := ([], []); 2 := ([], []) ]} r (member 3 (Some 2)) (with_rows [r]) in
  res = Ok tt /\ w_log w = [] /\ map d_status (w_delivered w) = ["ok"%string].
Proof. by vm_compute. Qed.

(** When a child posted the card and the host restarts, the next row posts a second one. *)
Definition second_card : world :=
  let r := plan_row 60 1 (plan WireInProgress) in
  let r' := plan_row 61 3 (plan WireCompleted) in
  let child := member 2 (Some 1) in
  let fam := {[ 1 := ([plan_row 50 1 (plan WirePending)], []) ]} in
  let w := snd (run_row_of fam r child (with_rows [r])) in
  snd (run_row_of fam r' child (set_anchors (fun _ => ∅) (with_row r' w))).
Example second_card_after_restart : card_calls second_card = [(None, true); (None, true)].
Proof. by vm_compute. Qed.

(** What a child said about its block is not on the card. *)
Lemma numbered_items_no_reason next l : Forall (fun i => wi_blocked_reason i = None) (fst (numbered_items next l)).
Proof.
  revert next. induction l as [|it l IH]; intros next; [constructor|]. cbn [numbered_items].
  specialize (IH (next_item_id next)). destruct (numbered_items _ l). by constructor.
Qed.
Lemma child_reasons_dropped next children :
  Forall (fun i => blocked_reason_text i = None) (child_sections next children).
Proof.
  revert next. induction children as [|[name l] r IH]; intros next; [constructor|]. cbn [child_sections].
  pose proof (numbered_items_no_reason (next_item_id next) (wl_items l)) as Hn.
  destruct (numbered_items _ _) as [items next']. cbn [fst] in Hn. constructor.
  { unfold blocked_reason_text. by case_goal. }
  apply Forall_app. split; [|apply IH]. eapply Forall_impl; [exact Hn|]. intros i Hi.
  unfold blocked_reason_text. rewrite Hi. by case_goal.
Qed.

(** ** A card that is gone *)

(** The note of the family's card is used first. *)
Lemma prior_anchor_noted `{Host} fam sess root w i :
  w_anchors w !! s_id root = Some i -> prior_anchor fam sess root w = (Ok (Some i), w).
Proof. intros Hi. unfold prior_anchor. by rewrite Hi. Qed.

(** When the channel says the card to edit is gone and takes a fresh one, the row is
    delivered, the fresh card is pinned and it is the one edited from then on. *)
Theorem gone_card_replaced `{Host} fam sess row t ct pid a w i msg d j d' :
  let root := resolve_root (fam_sessions fam) sess in
  let card := card_of fam sess root w in
  let edit := mkLogged ct pid (dt_thread_id t) (CTodoList card (Some i) false) in
  let post := mkLogged ct pid (dt_thread_id t) (CTodoList card None true) in
  is_Some (jget "todo_list" (mo_content row)) ->
  dt_channel_type t = Some ct -> dt_platform_id t = Some pid -> adapters ct = Some a ->
  wl_items card <> [] -> is_fully_completed card = false ->
  w_anchors w !! s_id root = Some i -> is_stale_edit_target msg = true ->
  ad_answer a (w_log w) edit = (Err (BadRequest msg), d) ->
  ad_answer a (edit :: w_log w) post = (Ok (Some j), d') ->
  exists w', todo_list_row fam row t sess w = (Ok tt, w')
    /\ w_log w' = post :: edit :: w_log w /\ w_anchors w' !! s_id root = Some j.
Proof.
  intros root card edit post [v Hv] Hct Hpid Ha Hne Hu Hi Hs He Hp. subst root card.
  unfold todo_list_row. rewrite Hv.
  rewrite (mbind_run _ _ w (ct, a, pid) w) by (unfold resolve_adapter; by rewrite Hct, Hpid, Ha).
  cbn [mbind gets]. destruct (wl_items _) eqn:Ei; [done|].
  rewrite (mbind_run _ _ w (Some i) w) by (by apply prior_anchor_noted).
  rewrite Hu, (bool_decide_eq_false_2 (Some i = None)) by done. cbn [orb].
  rewrite (mbind_run _ _ w (Some j)
             (after_call post d' (set_anchors (delete (s_id (resolve_root (fam_sessions fam) sess))) (after_call edit d w)))).
  - eexists. split; [done|]. split; [done|]. cbn. by rewrite lookup_insert_eq.
  - unfold deliver_todo_list, answer. fold edit. rewrite He, Hs.
    rewrite (bool_decide_eq_true_2 (is_Some (Some i))) by done. cbn [andb]. fold post.
    change (w_log (set_anchors _ _)) with (edit :: w_log w). by rewrite Hp.
Qed.

(** A channel on which the first card was deleted. *)
Definition gone_adapter : Adapter :=
  mkAdapter None None
    (fun _ l => match lg_call l with
                | CTodoList _ (Some _) _ => (Err (BadRequest (lit "message to edit not found")), 1)
                | CTodoList _ None _ => (Ok (Some "m9"%string), 1)
                | _ => (Ok None, 1)
                end)
    (fun _ => None).
Definition gone_host : Host :=
  {| adapters := fun _ => Some gone_adapter;
     parse_payload := fun _ j => inr j; text_fallback := fun _ _ => [];
     collapsible_fallback := fun _ _ _ => []; agent_dispatch := None;
     handle_system := fun _ row _ => record_delivered (mo_id row) None "ok";
     dispatch_todo_list := fun row _ _ => record_delivered (mo_id row) None "ok" |}.
Lemma gone_card_replaced_witness :
  exists w', @todo_list_row gone_host (family_with ∅) (or_row root_row) room (member 1 None)
               (set_anchors <[1 := "m1"%string]> (with_rows [root_row])) = (Ok tt, w')
    /\ card_calls w' = [(Some "m1"%string, false); (None, true)] /\ w_anchors w' !! 1 = Some "m9"%string.
Proof.
  edestruct (@gone_card_replaced gone_host (family_with ∅) (member 1 None) (or_row root_row) room "cli" "room"
               gone_adapter (set_anchors <[1 := "m1"%string]> (with_rows [root_row])) "m1"
               (lit "message to edit not found") 1 "m9" 1) as (w' & Hr & Hl & Ha);
    [by eexists | done | done | done | by vm_compute | by vm_compute | done | by vm_compute | done | done |].
  exists w'. split; [exact Hr|]. split; [|exact Ha]. unfold card_calls. rewrite Hl. by vm_compute.
Defined.
