(* ===== verification/StreamEdit.v ===== *)
(** Edits and reactions of messages already posted
    ([copperclaw-host-delivery/src/service.rs], [try_action_via_adapter],
    [try_streaming_edit_split]): a streamed reply is one message and a run of edits, each
    with the whole text so far; past the channel's cap its text is spread over several
    messages, of which only the last is edited. *)
From S2P Require Import Prelude Types MessagesIn Outbox Split TodoSchema Dispatch Central Checklist Grants.

Definition EDIT_SPLIT_TTL_SECS : Z := 3600.
Definition EDIT_SPLIT_PRUNE_THRESHOLD : nat := 256.

Inductive ActionAdapterOutcome : Type := Done | FallThrough.

Definition message_id_for_seq (t : out_table) (seq : Z) : option uuid :=
  option_map or_id (sql_get (fun r => or_seq r =? seq) t).

(** What a chunk that another follows froze: the count of chars committed and the text
    still to account for. *)
Definition account (chunk rem : rstr) (committed : Z) : Z * rstr :=
  let consumed := source_consumed chunk rem in
  if consumed =? 0 then (committed, rem)
  else
    let rem := drop (Z.to_nat consumed) rem in
    let rem' := trim_start_by is_whitespace rem in
    (committed + consumed + (zlen rem - zlen rem'), rem').

Definition live_split (now : instant) (s : EditSplitState) : bool :=
  now - es_updated s <? EDIT_SPLIT_TTL_SECS * ns_per_s.
Definition touch_edit_split (anchor : string) (committed : Z) (tail : string) (w : world) : world :=
  set_edit_splits (fun m =>
    let m := if (EDIT_SPLIT_PRUNE_THRESHOLD <? size m)%nat
             then filter (fun p => Is_true (live_split (w_mono w) (snd p))) m else m in
    <[anchor := mkEditSplit committed tail (w_mono w)]> m) w.

Section StreamEdit.
Context `{Host}.

(** [edit_message]; [false] when the channel cannot edit. *)
Definition edit_message (ct : string) (a : Adapter) (pid : string) (thread : option string)
    (external_id : string) (text : rstr) : M bool :=
  fun w =>
    match answer ct a pid thread (CEdit external_id text) w with
    | (Ok _, w1) => (Ok true, w1)
    | (Err (Unsupported _), w1) => (Ok false, w1)
    | (Err other, w1) => (Err (EAdapter other), w1)
    end.
Definition add_reaction (ct : string) (a : Adapter) (pid : string) (thread : option string)
    (external_id : string) (emoji : rstr) : M bool :=
  fun w =>
    match answer ct a pid thread (CReaction external_id emoji) w with
    | (Ok _, w1) => (Ok true, w1)
    | (Err (Unsupported _), w1) => (Ok false, w1)
    | (Err other, w1) => (Err (EAdapter other), w1)
    end.

(** The chunks of an overflow, the first of which the tail already has: each further one
    is a new message, the last of which is the new tail. *)
Fixpoint spill (ct : string) (a : Adapter) (pid : string) (thread : option string) (first : bool)
    (chunks : list rstr) (rem : rstr) (committed : Z) (tail : string) : M (Z * string) :=
  match chunks with
  | [] => ret (committed, tail)
  | chunk :: rest =>
      let '(committed, rem) := match rest with [] => (committed, rem) | _ => account chunk rem committed end in
      let! tail := if first then ret tail
                   else let! id := call_adapter ct a pid thread (chat_message chunk) in ret (default tail id) in
      spill ct a pid thread false rest rem committed tail
  end.

Definition edit_caps (a : Adapter) : option Z * option Z :=
  let byte_cap := positive (effective_max (ad_max_message_bytes a)) in
  (or_else (positive (effective_max (ad_max_message_chars a))) byte_cap, byte_cap).
Definition split_state (anchor : string) (w : world) : Z * string :=
  match w_edit_splits w !! anchor with
  | Some s => (es_committed s, es_tail_external_id s)
  | None => (0, anchor)
  end.
(** [None]: an ordinary edit, left to the caller. *)
Definition try_streaming_edit_split (ct : string) (a : Adapter) (pid : string) (thread : option string)
    (anchor : string) (text : rstr) : M (option ActionAdapterOutcome) :=
  match edit_caps a with
  | (None, _) => ret None
  | (Some cap, byte_cap) =>
      let! prior := gets (fun w => w_edit_splits w !! anchor) in
      let! '(committed, tail) := gets (split_state anchor) in
      let remainder := drop (Z.to_nat committed) text in
      if (zlen remainder <=? cap) && within byte_cap (byte_len remainder) then
        match prior with
        | None => ret None
        | Some _ =>
            let! edited := edit_message ct a pid thread tail remainder in
            if edited then modify (touch_edit_split anchor committed tail) ;; ret (Some Done)
            else ret (Some FallThrough)
        end
      else
        let chunks := split_into_chunks_within_bytes remainder cap byte_cap in
        match chunks with
        | [] => ret None
        | chunk0 :: _ =>
            let! edited := edit_message ct a pid thread tail chunk0 in
            if edited then
              let! '(new_committed, new_tail) := spill ct a pid thread true chunks remainder committed tail in
              modify (touch_edit_split anchor new_committed new_tail) ;; ret (Some Done)
            else ret (Some FallThrough)
        end
  end.

Definition outcome_of (done : bool) : ActionAdapterOutcome := if done then Done else FallThrough.
(** An edit of a posted message: streamed past the cap, or as it is. *)
Definition edit_text (ct : string) (a : Adapter) (pid : string) (thread : option string)
    (external_id : string) (text : rstr) : M ActionAdapterOutcome :=
  let! streamed := try_streaming_edit_split ct a pid thread external_id text in
  match streamed with
  | Some outcome => ret outcome
  | None => let! done := edit_message ct a pid thread external_id text in ret (outcome_of done)
  end.
Definition is_edit (name : string) : bool := String.eqb name "edit".
Definition is_reaction (name : string) : bool := String.eqb name "reaction".
Definition try_action_via_adapter (name : string) (payload : json) (target : DispatchTarget)
  : M ActionAdapterOutcome :=
  match jget_i64 "seq" payload with
  | None => ret FallThrough
  | Some seq =>
      match dt_channel_type target, dt_platform_id target with
      | Some ct, Some pid =>
          match adapters ct with
          | None => fail (ENoAdapter ct)
          | Some a =>
              let thread := dt_thread_id target in
              let! original := gets (fun w => message_id_for_seq (w_out w) seq) in
              let! external := gets (fun w => original ≫= platform_message_id_for (w_delivered w)) in
              match external with
              | None => ret FallThrough
              | Some external_id =>
                  if is_edit name then
                    match jget_str "text" payload with
                    | None => ret FallThrough
                    | Some text => edit_text ct a pid thread external_id text
                    end
                  else if is_reaction name then
                    match jget_str "emoji" payload with
                    | None => ret FallThrough
                    | Some emoji => let! done := add_reaction ct a pid thread external_id emoji in ret (outcome_of done)
                    end
                  else ret FallThrough
              end
          end
      | _, _ => ret FallThrough
      end
  end.
(** Whether the row was settled here. *)
Definition maybe_handle_edit_or_reaction (row : MessageOutRow) (name : string) (payload : json)
    (target : DispatchTarget) : M bool :=
  if negb (is_edit name) && negb (is_reaction name) then ret false
  else
    let! outcome := try_action_via_adapter name payload target in
    match outcome with
    | Done => record_delivered (mo_id row) None "ok" ;; ret true
    | FallThrough => ret false
    end.

(** ** The frame of a row *)

Lemma framed_set_edit_splits s id f : framed s id (modify (set_edit_splits f)).
Proof.
  intros w. cbn. constructor; try done; cbn; [by left | | lia]. exists []. by rewrite app_nil_r.
Qed.
Lemma framed_touch s id anchor c tail : framed s id (modify (touch_edit_split anchor c tail)).
Proof. intros w. apply (framed_set_edit_splits s id _ w). Qed.
Lemma framed_edit_message s id ct a pid th ext text : framed s id (edit_message ct a pid th ext text).
Proof.
  intros w. unfold edit_message. destruct (answer ct a pid th _ w) as [[o|e] w1] eqn:E;
    apply (answer_frame s id) in E; [done|]. by destruct e.
Qed.
Lemma framed_add_reaction s id ct a pid th ext text : framed s id (add_reaction ct a pid th ext text).
Proof.
  intros w. unfold add_reaction. destruct (answer ct a pid th _ w) as [[o|e] w1] eqn:E;
    apply (answer_frame s id) in E; [done|]. by destruct e.
Qed.
#[local] Hint Resolve framed_touch framed_edit_message framed_add_reaction call_adapter_framed : framed.
Lemma framed_spill s id ct a pid th first chunks rem c tail :
  framed s id (spill ct a pid th first chunks rem c tail).
Proof.
  revert first rem c tail. induction chunks as [|chunk rest IH]; intros first rem c tail; cbn [spill]; [auto with framed|].
  destruct (match rest with [] => _ | _ => _ end) as [c' rem'].
  apply framed_bind; [|intros; apply IH]. destruct first; auto with framed.
Qed.
#[local] Hint Resolve framed_spill : framed.
Lemma framed_try_streaming s id ct a pid th anchor text :
  framed s id (try_streaming_edit_split ct a pid th anchor text).
Proof.
  unfold try_streaming_edit_split. destruct (edit_caps a) as [[cap|] bc]; [|auto with framed].
  apply framed_bind; [auto with framed|]. intros prior. apply framed_bind; [auto with framed|]. intros [c tail].
  destruct (_ && _).
  - destruct prior; [|auto with framed]. apply framed_bind; [auto with framed|]. intros []; auto with framed.
  - destruct (split_into_chunks_within_bytes _ _ _); [auto with framed|].
    apply framed_bind; [auto with framed|]. intros []; [|auto with framed].
    apply framed_bind; [auto with framed|]. intros [c' tail']. auto with framed.
Qed.
#[local] Hint Resolve framed_try_streaming : framed.
Lemma framed_edit_text s id ct a pid th ext text : framed s id (edit_text ct a pid th ext text).
Proof. unfold edit_text. apply framed_bind; [auto with framed|]. intros []; auto with framed. Qed.
#[local] Hint Resolve framed_edit_text : framed.
Lemma framed_try_action s id name payload t : framed s id (try_action_via_adapter name payload t).
Proof.
  unfold try_action_via_adapter. destruct (jget_i64 _ _); [|auto with framed].
  destruct (dt_channel_type t) as [ct|]; [|auto with framed]. destruct (dt_platform_id t); [|auto with framed].
  destruct (adapters ct); [|auto with framed].
  do 2 (apply framed_bind; [auto with framed|]; intros ?). destruct a1; [|auto with framed].
  repeat case_goal; auto with framed.
Qed.
#[local] Hint Resolve framed_try_action : framed.
Lemma framed_maybe_handle s row name payload t :
  framed s (mo_id row) (maybe_handle_edit_or_reaction row name payload t).
Proof.
  unfold maybe_handle_edit_or_reaction. destruct (_ && _); [auto with framed|].
  apply framed_bind; [auto with framed|]. intros []; auto with framed.
Qed.
(** A row settled here has been recorded. *)
Lemma maybe_handle_records row name payload t w w' :
  maybe_handle_edit_or_reaction row name payload t w = (Ok true, w') -> recorded (mo_id row) w'.
Proof.
  unfold maybe_handle_edit_or_reaction. destruct (_ && _); [done|]. unfold mbind at 1.
  destruct (try_action_via_adapter name payload t w) as [[[]|e] w1]; [|done..].
  cbn. intros [= <-]. apply delivered_insert_has.
Qed.
End StreamEdit.
