(* ===== verification/StreamProps.v ===== *)
(** A reply streamed by edits past the cap of its channel: on plain text nothing of it is
    lost or shown twice, and what the accounting does not cover. *)
From S2P Require Import Prelude Types MessagesIn Outbox Split TodoSchema Dispatch Central Checklist Grants StreamEdit.

(** ** Plain text *)

(** No character that can open a fence, and no white space but that at which a text is
    cut. *)
Definition plain_char (c : rchar) : Prop :=
  c <> backtick /\ c <> chr "<" /\ (is_whitespace c = true -> cut_space c = true).
Definition plain (s : rstr) : Prop := Forall plain_char s.
Definition starts_solid (s : rstr) : Prop := exists c r, s = c :: r /\ is_whitespace c = false.
Definition blanks (s : rstr) : Prop := Forall (fun c => is_whitespace c = true) s.

Lemma plain_drop n s : plain s -> plain (drop n s).
Proof. apply Forall_drop. Qed.
Lemma plain_no_backtick s ls le p : plain s -> backtick_run s ls le = Some p -> False.
Proof.
  intros Hs. unfold backtick_run.
  assert (forall n l, plain l -> run_length (fun c => c =? backtick) n l = 0) as Hr.
  { intros [|n] [|c l] Hl; cbn [run_length]; try done. apply Forall_cons in Hl as [[Hc _] _].
    by destruct (Z.eqb_spec c backtick). }
  rewrite Hr; [|apply Forall_take, plain_drop, Hs]. rewrite Z.add_0_r, Z.sub_diag. done.
Qed.
Lemma plain_no_pre s i : plain s -> 0 <= i -> pre_open_end s i = None.
Proof.
  intros Hs Hi. unfold pre_open_end, matches_ci. destruct (Z.ltb_spec (zlen s) (i + zlen (lit "<pre"))) as [Hl|Hl]; [done|].
  assert (plain (slice s i (i + zlen (lit "<pre")))) as Hp by apply Forall_take, plain_drop, Hs.
  destruct (slice s i (i + zlen (lit "<pre"))) as [|c l] eqn:E.
  - apply (f_equal length) in E. unfold slice in E. rewrite length_take, length_drop in E.
    change (zlen (lit "<pre")) with 4 in *. unfold zlen in *. cbn [length] in E. lia.
  - apply Forall_cons in Hp as [(_ & Hc & _) _]. change (lit "<pre") with (chr "<" :: lit "pre"). cbn [combine forallb].
    replace (eq_ignore_ascii_case c (chr "<")) with false; [done|]. symmetry.
    unfold eq_ignore_ascii_case, to_ascii_lowercase. change (chr "<") with 60 in *. cbn.
    apply Z.eqb_neq. case_goal; [|done]. bool_to_prop. lia.
Qed.
Lemma plain_scan fuel s i : plain s -> 0 <= i -> scan_loop fuel s i None [] = None \/ scan_loop fuel s i None [] = Some [].
Proof.
  intros Hs. revert i. induction fuel as [|f IH]; intros i Hi; cbn [scan_loop]; [by left|].
  destruct (negb _); [by right|].
  destruct (backtick_run s i (line_end s i)) as [p|] eqn:E; [by apply plain_no_backtick in E|].
  rewrite andb_false_r, plain_no_pre by done. apply IH. lia.
Qed.
Lemma plain_no_fence s : plain s -> scan_fence_spans s = [].
Proof. intros Hs. unfold scan_fence_spans. by destruct (plain_scan (S (length s)) s 0 Hs) as [->| ->]. Qed.

(** ** The chunks of a plain text *)

(** A text as chunks with the white space between them left out. *)
Inductive pieces : rstr -> list rstr -> Prop :=
| pieces_last c w : starts_solid c -> blanks w -> pieces (c ++ w) [c]
| pieces_more c w rest l :
    starts_solid c -> blanks w -> starts_solid rest -> pieces rest l -> pieces (c ++ w ++ rest) (c :: l).

Lemma starts_solid_app a b : starts_solid a -> starts_solid (a ++ b).
Proof. intros (c & r & -> & Hc). exists c, (r ++ b). done. Qed.
Lemma starts_solid_no_blank w rest : blanks w -> starts_solid rest -> trim_start_by is_whitespace (w ++ rest) = rest.
Proof.
  intros Hw (c & r & -> & Hc). induction Hw as [|b w Hb _ IH]; cbn; [by rewrite Hc | by rewrite Hb].
Qed.
Lemma trim_end_split s : exists w, s = trim_end s ++ w /\ blanks w.
Proof.
  destruct (trim_start_by_split is_whitespace (rev s)) as (w & E & Hw). exists (rev w). split.
  - apply (f_equal (@rev rchar)) in E. rewrite rev_involutive, rev_app_distr in E. exact E.
  - apply Forall_rev, Hw.
Qed.
Lemma trim_end_solid s : starts_solid s -> starts_solid (trim_end s).
Proof.
  intros (c & r & -> & Hc). destruct (trim_end_split (c :: r)) as (w & E & Hw).
  destruct (trim_end (c :: r)) as [|d t]; [|injection E as -> _; by exists d, t].
  cbn in E. subst w. apply Forall_cons in Hw as [Hw _]. congruence.
Qed.
Lemma pieces_nonempty s l : pieces s l -> Forall (fun c => is_nil c = false) l.
Proof. induction 1 as [c w (x & r & -> & _) _ | c w rest l (x & r & -> & _) _ _ _ IH]; by repeat constructor. Qed.
Lemma zdrop_nil {A} (s : list A) n : zlen s <= n -> drop (Z.to_nat n) s = [].
Proof. intros H. apply drop_ge. unfold zlen in H. lia. Qed.

(** The loop of the splitter on a plain text. *)
Lemma plain_split_loop s max fuel start out :
  plain s -> 1 <= max -> 0 <= start -> starts_solid (drop (Z.to_nat start) s) ->
  2 * (zlen s - start) < Z.of_nat fuel ->
  exists l, split_loop fuel s [] max start None out = Some (out ++ l) /\ pieces (drop (Z.to_nat start) s) l.
Proof.
  intros Hs Hmax. revert start out. induction fuel as [|f IH]; intros start out H0 Hsol Hf.
  { destruct Hsol as (c & r & E & _). destruct (Z.le_gt_cases (zlen s) start) as [Hl|Hl]; [|lia].
    by rewrite zdrop_nil in E. }
  assert (start < zlen s) as Hlt.
  { destruct (Z.lt_ge_cases start (zlen s)) as [|Hge]; [done|]. destruct Hsol as (c & r & E & _). by rewrite zdrop_nil in E. }
  cbn [split_loop]. cbv zeta. rewrite (proj2 (Z.ltb_lt _ _) Hlt). cbn [negb default from_option].
  change (zlen (id [])) with 0. unfold sat_sub at 1 2 3. rewrite Z.sub_0_r, Z.max_r by lia.
  rewrite (proj2 (Z.eqb_neq max 0)) by lia.
  destruct (Z.leb_spec (zlen s - start) max) as [Hle|Hgt].
  { eexists. split; [done|]. cbn. rewrite <- (app_nil_r (drop _ s)) at 1. apply pieces_last; [done | constructor]. }
  pose proof (find_cut_bounds s start (start + max) ltac:(lia)) as Hc.
  unfold decide_cut. cbn [find]. set (cut := find_cut s start (start + max)) in *.
  set (rest := drop (Z.to_nat cut) s). set (rest' := trim_start_by cut_space rest).
  assert (drop (Z.to_nat start) s = slice s start cut ++ rest) as Ed by (apply drop_slice; lia).
  destruct (drop_trim cut_space rest) as [Er Hn]. fold rest' in Er, Hn.
  destruct (trim_start_by_split cut_space rest) as (w2 & Ew2 & Hw2). fold rest' in Ew2.
  destruct (trim_end_split (slice s start cut)) as (w1 & Ew1 & Hw1).
  assert (starts_solid (trim_end (slice s start cut))) as Hts.
  { apply trim_end_solid. destruct Hsol as (x & r & Ex & Hx). rewrite Ed in Ex.
    destruct (slice s start cut) as [|y t] eqn:Ey; [|injection Ex as -> _; by exists x, t].
    apply (f_equal length) in Ey. unfold slice in Ey. rewrite length_take, length_drop in Ey. cbn in Ey. unfold zlen in *. lia. }
  set (c := trim_end (slice s start cut)) in *.
  assert (blanks (w1 ++ w2)) as Hw.
  { apply Forall_app. split; [done|]. eapply Forall_impl; [exact Hw2 | exact cut_space_white]. }
  rewrite app_nil_l.
  assert (drop (Z.to_nat start) s = c ++ (w1 ++ w2) ++ rest') as Eall by (rewrite Ed, Ew1 at 1; rewrite Ew2, <- !app_assoc; done).
  destruct (decide (rest' = [])) as [En|En].
  - destruct f as [|f']; [lia|]. exists [c]. split.
    + cbn [split_loop]. rewrite (proj2 (Z.ltb_ge _ _)); [done|].
      rewrite En. unfold rest, zlen. rewrite length_drop. unfold zlen in *. cbn [length]. lia.
    + rewrite Eall, En, app_nil_r. by apply pieces_last.
  - assert (drop (Z.to_nat (cut + (zlen rest - zlen rest'))) s = rest') as Er'.
    { rewrite Z2Nat.inj_add, <- drop_drop by lia. exact Er. }
    assert (starts_solid rest') as Hr.
    { destruct rest' as [|x t] eqn:Ex; [done|]. pose proof (trim_start_by_head cut_space rest x t Ex) as Hh.
      exists x, t. split; [done|]. destruct (is_whitespace x) eqn:Hx; [|done].
      assert (plain_char x) as (_ & _ & Hp).
      { assert (plain (x :: t)) as Hpl by (rewrite <- Er'; apply plain_drop, Hs). by apply Forall_cons in Hpl as [? _]. }
      by rewrite (Hp Hx) in Hh. }
    destruct (IH (cut + (zlen rest - zlen rest')) (out ++ [c])) as (l & El & Hl); [lia | by rewrite Er' | lia |].
    exists (c :: l). rewrite El, <- app_assoc. split; [done|]. rewrite Eall. rewrite Er' in Hl. by apply pieces_more.
Qed.

(** A plain text that starts with a solid character is cut into its pieces. *)
Lemma plain_chunks s max :
  plain s -> 1 <= max -> starts_solid s ->
  pieces s (split_into_chunks s max) /\ Forall (fun c => zlen c <= max) (split_into_chunks s max).
Proof.
  intros Hs Hmax Hsol. destruct (plain_split_loop s max (split_fuel s) 0 []) as (l & E & Hl); try done.
  { unfold split_fuel, zlen. lia. }
  assert (split_into_chunks s max = l) as El.
  { unfold split_into_chunks, split_raw. rewrite (plain_no_fence s Hs), E. cbn [default from_option app].
    change (id l) with l. rewrite (forallb_filter_id (fun c => negb (is_nil c))); [by destruct Hl|].
    apply forallb_forall. pose proof (pieces_nonempty _ _ Hl) as Hn. rewrite List.Forall_forall in Hn.
    intros c Hc. by rewrite Hn. }
  split; [by rewrite El|]. destruct (split_into_chunks_spec s max Hmax) as (parts & Ep & Hf & _).
  rewrite Ep. eapply Forall_impl; [exact Hf|]. intros c [Hc | (x & Hx & _)]; [done|]. by rewrite plain_no_fence in Hx.
Qed.

(** ** The accounting *)

Lemma common_prefix_app c x : common_prefix_chars c (c ++ x) = zlen c.
Proof.
  induction c as [|a c IH]; [done|]. cbn [common_prefix_chars app]. rewrite Z.eqb_refl, IH.
  unfold zlen. cbn [length]. lia.
Qed.
Lemma account_piece c w rest k :
  starts_solid c -> blanks w -> starts_solid rest ->
  account c (c ++ w ++ rest) k = (k + zlen c + zlen w, rest).
Proof.
  intros Hc Hw Hr. unfold account, source_consumed. rewrite common_prefix_app.
  assert (0 < zlen c) as H0 by (destruct Hc as (x & r & -> & _); unfold zlen; cbn [length]; lia).
  rewrite (proj2 (Z.ltb_lt _ _) H0). rewrite (proj2 (Z.eqb_neq _ _)) by lia.
  replace (Z.to_nat (zlen c)) with (length c) by (unfold zlen; lia).
  rewrite drop_app_length, starts_solid_no_blank by done. f_equal.
  rewrite zlen_app. lia.
Qed.
Lemma solid_piece c w rest : blanks w -> solid (c ++ w ++ rest) = solid c ++ solid rest.
Proof. intros Hw. by rewrite !solid_app, (solid_blank w Hw). Qed.

(** ** What a channel shows *)

(** The messages of a channel, oldest first, after the calls of a log (newest first). *)
Definition text_of (m : OutboundMessage) : rstr := default [] (jget_str "text" (om_content m)).
Definition rewrite_message (id : string) (text : rstr) (p : string * rstr) : string * rstr :=
  if String.eqb (fst p) id then (fst p, text) else p.
Fixpoint screen_of (a : Adapter) (log : list logged) : list (string * rstr) :=
  match log with
  | [] => []
  | l :: older =>
      let screen := screen_of a older in
      match lg_call l, fst (ad_answer a older l) with
      | CDeliver m, Ok (Some id) => screen ++ [(id, text_of m)]
      | CEdit id text, Ok _ => map (rewrite_message id text) screen
      | _, _ => screen
      end
  end.
(** A channel with an edit API that takes what it is given: a posted message has an id of
    its own. *)
Record StreamChannel (a : Adapter) : Prop := {
  sc_bytes : ad_max_message_bytes a = None;
  sc_edit log l id text : lg_call l = CEdit id text -> exists o, fst (ad_answer a log l) = Ok o;
  sc_post log l m : lg_call l = CDeliver m ->
    exists id, fst (ad_answer a log l) = Ok (Some id) /\ ~ In id (map fst (screen_of a log));
}.

Lemma rewrite_other id text pre : ~ In id (map fst pre) -> map (rewrite_message id text) pre = pre.
Proof.
  induction pre as [|[i t] pre IH]; cbn; [done|]. intros Hn. rewrite IH by tauto.
  unfold rewrite_message at 1. cbn. destruct (String.eqb_spec i id); [tauto | done].
Qed.
Lemma rewrite_last id old text pre :
  ~ In id (map fst pre) -> map (rewrite_message id text) (pre ++ [(id, old)]) = pre ++ [(id, text)].
Proof.
  intros Hn. rewrite map_app, rewrite_other by done. cbn. unfold rewrite_message. cbn. by rewrite String.eqb_refl.
Qed.

Section Stream.
Context (ct : string) (a : Adapter) (pid : string) (thread : option string) (Ha : StreamChannel a).
Abbreviation screen w := (screen_of a (w_log w)).

Lemma edit_shown w pre id old text :
  screen w = pre ++ [(id, old)] -> ~ In id (map fst pre) ->
  exists w', edit_message ct a pid thread id text w = (Ok true, w') /\ screen w' = pre ++ [(id, text)]
    /\ w_edit_splits w' = w_edit_splits w.
Proof.
  intros Hs Hn. unfold edit_message, answer.
  destruct (sc_edit a Ha (w_log w) (mkLogged ct pid thread (CEdit id text)) id text eq_refl) as [o Ho].
  destruct (ad_answer a (w_log w) _) as [r d] eqn:E. cbn [fst] in Ho. subst r. eexists. split; [done|]. split; [|done].
  cbn [after_call w_log screen_of lg_call]. rewrite E. cbn [fst]. rewrite Hs. by apply rewrite_last.
Qed.

Context (cap : Z) (Hcap : positive (effective_max (ad_max_message_chars a)) = Some cap).

Lemma chunk_shown w chunk :
  zlen chunk <= cap ->
  exists id w', call_adapter ct a pid thread (chat_message chunk) w = (Ok (Some id), w')
    /\ screen w' = screen w ++ [(id, chunk)] /\ ~ In id (map fst (screen w))
    /\ w_edit_splits w' = w_edit_splits w.
Proof.
  intros Hl. unfold call_adapter. rewrite (sc_bytes a Ha).
  change (om_kind (chat_message chunk)) with Chat. rewrite (bool_decide_eq_true_2 (Chat = Chat)) by done.
  assert (split_chat_content_if_needed (om_content (chat_message chunk)) (ad_max_message_chars a) None
          = [om_content (chat_message chunk)]) as Es.
  { unfold split_chat_content_if_needed. rewrite Hcap. cbn [positive effective_max option_map].
    change (jget_str "text" (om_content (chat_message chunk))) with (Some chunk). cbn [within].
    by rewrite (proj2 (Z.leb_le _ _) Hl). }
  rewrite Es. cbn [length Nat.ltb Nat.leb]. unfold mbind, catch, call_adapter_once, answer.
  destruct (sc_post a Ha (w_log w) (mkLogged ct pid thread (CDeliver (chat_message chunk))) _ eq_refl) as (id & Hid & Hf).
  destruct (ad_answer a (w_log w) _) as [r d] eqn:E. cbn [fst] in Hid. subst r.
  do 2 eexists. split; [done|]. split; [|done].
  cbn [after_call w_log screen_of lg_call]. by rewrite E.
Qed.

(** What the chunks after the first leave: messages [fin] for the part of the text that is
    accounted for, and a tail [x] for the rest. *)
Definition spilled (rem : rstr) (k : Z) (w w' : world) (pre : list (string * rstr)) (fin : list (string * rstr))
    (id : string) (x : rstr) (k' : Z) : Prop :=
  screen w' = pre ++ fin ++ [(id, x)] /\ NoDup (map fst (screen w')) /\ w_edit_splits w' = w_edit_splits w
  /\ exists front rest, rem = front ++ rest /\ k' = k + zlen front /\ starts_solid rest
     /\ solid (concat (map snd fin)) = solid front /\ solid x = solid rest.
Lemma NoDup_posted (id : string) ids : NoDup ids -> ~ In id ids -> NoDup (ids ++ [id]).
Proof.
  intros Hn Hi. apply NoDup_app. split; [done|]. split; [|by apply NoDup_singleton].
  intros y Hy Hy'. apply list_elem_of_In in Hy, Hy'. destruct Hy' as [<-|[]]. done.
Qed.
Lemma spill_shown rem l : pieces rem l -> Forall (fun c => zlen c <= cap) l ->
  forall k tail w, NoDup (map fst (screen w)) ->
  exists fin id x k' w', spill ct a pid thread false l rem k tail w = (Ok (k', id), w')
    /\ spilled rem k w w' (screen w) fin id x k'.
Proof.
  induction 1 as [c w0 Hc Hw | c w0 rest l Hc Hw Hr Hp IH]; intros Hf k tail w Hn; apply Forall_cons in Hf as [Hlc Hf];
    destruct (chunk_shown w c Hlc) as (id & w1 & Hrun & Hs & Hi & He);
    assert (NoDup (map fst (screen w1))) as Hn1 by (rewrite Hs, map_app; by apply NoDup_posted).
  - exists [], id, c, k, w1. split.
    + cbn [spill]. unfold mbind. rewrite Hrun. done.
    + split; [done|]. split; [done|]. split; [done|]. exists [], (c ++ w0). split; [done|]. split; [unfold zlen; cbn; lia|].
      split; [by apply starts_solid_app|]. split; [done|]. by rewrite solid_app, (solid_blank w0 Hw), app_nil_r.
  - destruct (IH Hf (k + zlen c + zlen w0) id w1 Hn1) as (fin & id' & x & k' & w' & Hrun' & Hs' & Hn' & He' & front & rest' & Er & Ek & Hsr & Hsf & Hsx).
    exists ((id, c) :: fin), id', x, k', w'. split.
    + cbn [spill]. destruct l as [|c' l']; [by inversion Hp|]. rewrite account_piece by done.
      unfold mbind. rewrite Hrun. exact Hrun'.
    + split; [by rewrite Hs', Hs, <- app_assoc|]. split; [done|]. split; [congruence|].
      exists (c ++ w0 ++ front), rest'. rewrite Er, <- !app_assoc. split; [done|]. split; [rewrite Ek, !zlen_app; lia|].
      split; [done|]. split; [|done]. cbn [map concat snd]. by rewrite solid_app, solid_piece, Hsf.
Qed.
(** The first chunk is in the tail already. *)
Lemma spill_first rem l : pieces rem l -> Forall (fun c => zlen c <= cap) l ->
  forall k tail w pre chunk0, head l = Some chunk0 -> screen w = pre ++ [(tail, chunk0)] -> NoDup (map fst (screen w)) ->
  exists fin id x k' w', spill ct a pid thread true l rem k tail w = (Ok (k', id), w')
    /\ spilled rem k w w' pre fin id x k' /\ head (map fst (fin ++ [(id, x)])) = Some tail.
Proof.
  intros Hp Hf k tail w pre chunk0 Hh Hs Hn.
  destruct Hp as [c w0 Hc Hw | c w0 rest l Hc Hw Hr Hp]; injection Hh as <-.
  - exists [], tail, c, k, w. split; [done|]. split; [|done]. split; [done|]. split; [done|]. split; [done|].
    exists [], (c ++ w0). split; [done|]. split; [unfold zlen; cbn; lia|].
    split; [by apply starts_solid_app|]. split; [done|]. by rewrite solid_app, (solid_blank w0 Hw), app_nil_r.
  - apply Forall_cons in Hf as [_ Hf].
    destruct (spill_shown rest l Hp Hf (k + zlen c + zlen w0) tail w Hn) as (fin & id & x & k' & w' & Hrun & Hs' & Hn' & He' & front & rest' & Er & Ek & Hsr & Hsf & Hsx).
    exists ((tail, c) :: fin), id, x, k', w'. split.
    + cbn [spill]. destruct l as [|c' l']; [by inversion Hp|]. rewrite account_piece by done. exact Hrun.
    + split; [|done]. split; [by rewrite Hs', Hs, <- app_assoc|]. split; [done|]. split; [done|].
      exists (c ++ w0 ++ front), rest'. rewrite Er, <- !app_assoc. split; [done|]. split; [rewrite Ek, !zlen_app; lia|].
      split; [done|]. split; [|done]. cbn [map concat snd]. by rewrite solid_app, solid_piece, Hsf.
Qed.

(** ** The stream *)

(** The stream with this anchor shows [text]: finished messages and a tail. *)
Definition streaming (before : list (string * rstr)) (anchor : string) (text : rstr) (w : world) : Prop :=
  exists fin id x front rest,
    screen w = before ++ fin ++ [(id, x)] /\ NoDup (map fst (screen w))
    /\ head (map fst (fin ++ [(id, x)])) = Some anchor
    /\ text = front ++ rest /\ starts_solid rest
    /\ split_state anchor w = (zlen front, id)
    /\ solid (concat (map snd fin)) = solid front /\ solid x = solid rest.

Lemma touch_state anchor k id w : split_state anchor (touch_edit_split anchor k id w) = (k, id).
Proof. unfold split_state, touch_edit_split. cbn. by rewrite lookup_insert_eq. Qed.
Lemma edit_caps_char : edit_caps a = (Some cap, None).
Proof. unfold edit_caps. rewrite (sc_bytes a Ha), Hcap. done. Qed.
Lemma cap_positive : 1 <= cap.
Proof.
  revert Hcap. unfold positive. destruct (effective_max _); [|done]. destruct (Z.ltb_spec 0 z); [|done]. intros [= ->]. lia.
Qed.
Lemma NoDup_last_notin {A} (ids : list A) id : NoDup (ids ++ [id]) -> ~ In id ids.
Proof.
  intros Hn Hi. apply NoDup_app in Hn as (_ & Hd & _). apply (Hd id); [by apply list_elem_of_In | by left].
Qed.
Lemma edit_text_streaming before anchor text more w :
  plain (text ++ more) -> streaming before anchor text w ->
  exists w', edit_text ct a pid thread anchor (text ++ more) w = (Ok Done, w') /\ streaming before anchor (text ++ more) w'.
Proof.
  intros Hpl (fin & id & x & front & rest & Hs & Hn & Hh & -> & Hr & Hst & Hf & Hx).
  assert (drop (Z.to_nat (zlen front)) ((front ++ rest) ++ more) = rest ++ more) as Ed.
  { rewrite <- app_assoc. replace (Z.to_nat (zlen front)) with (length front) by (unfold zlen; lia). apply drop_app_length. }
  assert (starts_solid (rest ++ more)) as Hrm by by apply starts_solid_app.
  assert (screen w = (before ++ fin) ++ [(id, x)]) as Hs' by by rewrite Hs, app_assoc.
  assert (~ In id (map fst (before ++ fin))) as Hid by (apply NoDup_last_notin; rewrite Hs', map_app in Hn; exact Hn).
  unfold edit_text, try_streaming_edit_split. rewrite edit_caps_char. unfold mbind, gets. rewrite Hst, Ed.
  cbn [within]. rewrite andb_true_r. destruct (Z.leb_spec (zlen (rest ++ more)) cap) as [Hle|Hgt].
  - (* the tail holds it *)
    destruct (edit_shown w (before ++ fin) id x (rest ++ more) Hs' Hid) as (w1 & He & Hs1 & Hsp1).
    assert (forall w2, screen w2 = screen w1 -> split_state anchor w2 = (zlen front, id) ->
              streaming before anchor ((front ++ rest) ++ more) w2) as Hdone.
    { intros w2 E2 Est. exists fin, id, (rest ++ more), front, (rest ++ more). rewrite E2, Hs1, <- app_assoc.
      split; [done|]. split; [rewrite app_assoc, map_app in *; rewrite Hs', map_app in Hn; exact Hn|].
      split; [rewrite map_app in *; exact Hh|]. rewrite <- app_assoc. done. }
    destruct (w_edit_splits w !! anchor) as [st|] eqn:Esp.
    + rewrite He. eexists. split; [done|]. apply Hdone; [done | apply touch_state].
    + unfold split_state in Hst. rewrite Esp in Hst. injection Hst as Ez <-.
      assert (front = []) as -> by (destruct front; [done | unfold zlen in Ez; cbn [length] in Ez; lia]).
      cbn [ret app] in *. rewrite He. eexists. split; [done|]. apply Hdone; [done|].
      unfold split_state. by rewrite Hsp1, Esp.
  - (* it spills *)
    assert (plain (rest ++ more)) as Hplr by (rewrite <- Ed; apply plain_drop, Hpl).
    destruct (plain_chunks (rest ++ more) cap Hplr cap_positive Hrm) as [Hp Hfit].
    cbn [split_into_chunks_within_bytes]. destruct (split_into_chunks (rest ++ more) cap) as [|c0 l] eqn:El; [by inversion Hp|].
    destruct (edit_shown w (before ++ fin) id x c0 Hs' Hid) as (w1 & He & Hs1 & Hsp1). rewrite He.
    assert (NoDup (map fst (screen w1))) as Hn1 by (rewrite Hs1, map_app; rewrite Hs', map_app in Hn; exact Hn).
    destruct (spill_first _ _ Hp Hfit (zlen front) id w1 (before ++ fin) c0 eq_refl Hs1 Hn1)
      as (fin' & id' & x' & k' & w' & Hrun & (Hs2 & Hn2 & _ & front' & rest' & Er & Ek & Hr' & Hf' & Hx') & Hh').
    rewrite Hrun. eexists. split; [done|].
    exists (fin ++ fin'), id', x', (front ++ front'), rest'.
    split; [change (screen _) with (screen w'); by rewrite Hs2, <- !app_assoc|]. split; [done|]. split.
    { rewrite <- app_assoc, map_app. destruct fin as [|q fin]; [|exact Hh]. cbn in Hh. injection Hh as ->. exact Hh'. }
    split; [by rewrite <- !app_assoc, Er|]. split; [done|].
    split; [rewrite touch_state, Ek, zlen_app; done|]. split; [|done].
    by rewrite map_app, concat_app, !solid_app, Hf, Hf'.
Qed.
End Stream.

(** A reply that grows: each delta is an edit with the whole text so far. *)
Fixpoint stream_ticks (ct : string) (a : Adapter) (pid : string) (thread : option string) (anchor : string)
    (text : rstr) (deltas : list rstr) : M unit :=
  match deltas with
  | [] => ret tt
  | d :: ds => let! _ := edit_text ct a pid thread anchor (text ++ d) in
               stream_ticks ct a pid thread anchor (text ++ d) ds
  end.

(** C14. On a channel with a cap that takes edits and posts, a plain reply streamed by
    edits is shown in full however long it grows and however it is cut into deltas: from
    the first message on, the messages carry exactly its non-blank characters, in order
    and once. *)
Theorem streamed_reply_complete ct a pid thread cap anchor before text deltas w :
  StreamChannel a -> positive (effective_max (ad_max_message_chars a)) = Some cap ->
  plain (text ++ concat deltas) -> starts_solid text ->
  screen_of a (w_log w) = before ++ [(anchor, text)] -> NoDup (map fst (screen_of a (w_log w))) ->
  w_edit_splits w !! anchor = None ->
  exists w' msgs, stream_ticks ct a pid thread anchor text deltas w = (Ok tt, w')
    /\ screen_of a (w_log w') = before ++ msgs /\ head (map fst msgs) = Some anchor
    /\ solid (concat (map snd msgs)) = solid (text ++ concat deltas).
Proof.
  intros Ha Hcap Hpl Hsol Hs Hn Hsp.
  assert (streaming a before anchor text w) as Hst.
  { exists [], anchor, text, [], text. unfold split_state. by rewrite Hsp. }
  clear Hs Hn Hsp Hsol. revert text w Hpl Hst. induction deltas as [|d ds IH]; intros text w Hpl Hst.
  - destruct Hst as (fin & id & x & front & rest & Hs & _ & Hh & -> & _ & _ & Hf & Hx).
    exists w, (fin ++ [(id, x)]). split; [done|]. split; [done|]. split; [done|].
    rewrite map_app, concat_app, !solid_app, Hf. cbn [map snd concat]. by rewrite app_nil_r, Hx, app_nil_r.
  - cbn [concat] in *. rewrite app_assoc in Hpl.
    destruct (edit_text_streaming ct a pid thread Ha cap Hcap before anchor text d w) as (w1 & Hrun & Hst1); [|done|].
    { by apply Forall_app in Hpl as [? _]. }
    destruct (IH (text ++ d) w1 Hpl Hst1) as (w' & msgs & Hrun' & Hs & Hh & Hsol). exists w', msgs.
    split; [cbn [stream_ticks]; unfold mbind; rewrite Hrun; exact Hrun'|]. by rewrite app_assoc.
Qed.

(** ** A channel with a small cap *)

Module StreamDemo.
(** Its cap is twenty characters, eighteen with the headroom. *)
Definition nth_id (n : nat) : string := Nat.iter n (String "m") EmptyString.
Definition small_channel : Adapter :=
  mkAdapter (Some 20) None
    (fun log l => match lg_call l with
                  | CDeliver _ => (Ok (Some (nth_id (S (length log)))), 1)
                  | _ => (Ok None, 1)
                  end)
    (fun _ => None).
Lemma nth_id_length n : String.length (nth_id n) = n.
Proof.
  induction n as [|n IH]; [done|]. change (nth_id (S n)) with (String "m" (nth_id n)). cbn [String.length]. by rewrite IH.
Qed.
Lemma small_ids log id : In id (map fst (screen_of small_channel log)) -> (String.length id <= length log)%nat.
Proof.
  induction log as [|l log IH]; [done|]. cbn [screen_of].
  assert (forall i t, map fst (map (rewrite_message i t) (screen_of small_channel log)) = map fst (screen_of small_channel log)) as Hr.
  { intros i t. rewrite map_map. apply map_ext. intros [j u]. unfold rewrite_message. cbn. by destruct (String.eqb j i). }
  destruct l as [c p th []]; cbn [lg_call ad_answer small_channel fst length];
    try (intros Hin; specialize (IH Hin); lia).
  - rewrite map_app, in_app_iff. intros [Hin | [<- | []]]; [specialize (IH Hin); lia|]. cbn [fst]. by rewrite nth_id_length.
  - rewrite Hr. intros Hin. specialize (IH Hin). lia.
Qed.
Lemma small_channel_ok : StreamChannel small_channel.
Proof.
  constructor; [done | |].
  - intros log l id text Hl. cbn. rewrite Hl. by eexists.
  - intros log l m Hl. cbn [ad_answer small_channel]. rewrite Hl. eexists. split; [done|].
    intros Hin. apply small_ids in Hin. rewrite nth_id_length in Hin. lia.
Qed.
Definition posted (text : rstr) : world :=
  mkWorld [] [] None [] ∅ ∅ ∅ ∅ ∅ ∅ [mkLogged "cli" "room" None (CDeliver (chat_message text))] 0 0 100.
Definition tick (text : rstr) (w : world) : world :=
  snd (edit_text "cli" small_channel "room" None "m" text w).
Definition shown (w : world) : list rstr := map snd (screen_of small_channel (w_log w)).

Lemma streamed_reply_complete_witness :
  exists w' msgs,
    stream_ticks "cli" small_channel "room" None "m" (lit "one two.") [lit " three four five."; lit " six seven eight nine."]
      (posted (lit "one two.")) = (Ok tt, w')
    /\ screen_of small_channel (w_log w') = msgs
    /\ solid (concat (map snd msgs)) = lit "onetwo.threefourfive.sixseveneightnine.".
Proof.
  destruct (streamed_reply_complete "cli" small_channel "room" None 18 "m" [] (lit "one two.")
              [lit " three four five."; lit " six seven eight nine."] (posted (lit "one two.")) small_channel_ok)
    as (w' & msgs & Hr & Hs & _ & Hsol).
  - done.
  - unfold plain, plain_char. apply List.Forall_forall. intros c Hc.
    assert (forallb (fun c => negb (c =? backtick) && negb (c =? chr "<") && (negb (is_whitespace c) || cut_space c))
              (lit "one two." ++ concat [lit " three four five."; lit " six seven eight nine."]) = true) as Hb by (by vm_compute).
    rewrite forallb_forall in Hb. specialize (Hb c Hc). apply andb_prop in Hb as [Hb H3]. apply andb_prop in Hb as [H1 H2].
    split; [intros ->; discriminate H1|]. split; [intros ->; discriminate H2|]. intros Hw. by rewrite Hw in H3.
  - by exists (chr "o"), (lit "ne two.").
  - done.
  - apply NoDup_singleton.
  - done.
  - exists w', msgs. split; [exact Hr|]. split; [exact Hs|]. rewrite Hsol. by vm_compute.
Defined.

Definition long_text : rstr := lit "one two three four five six".
(** The accounting is in memory: after a restart what was spilled is posted again. *)
Example restart_repeats_text :
  shown (tick (lit "one two three four five six seven")
           (set_edit_splits (fun _ => ∅) (tick (lit "one two three four five six") (posted (lit "one")))))
  = [lit "one two three"; lit "four five six"; lit "four five six"; lit "seven"].
Proof. by vm_compute. Qed.
(** An edit that does not extend the text of before: the finished message stays, and as
    many characters of the new text are shown nowhere. *)
Example other_text_loses_front :
  shown (tick (lit "nothing came out of it at all") (tick (lit "one two three four five six") (posted (lit "one"))))
  = [lit "one two three"; lit "ut of it at all"].
Proof. by vm_compute. Qed.
Definition aged (w : world) : world := set_edit_splits (fmap (fun s => mkEditSplit (es_committed s) (es_tail_external_id s) (es_updated s - 2 * EDIT_SPLIT_TTL_SECS * ns_per_s))) w.
(** An accounting older than its time to live is used as long as the table is small. *)
Example stale_split_kept :
  shown (tick (lit "one two three four five six seven") (aged (tick (lit "one two three four five six") (posted (lit "one")))))
  = [lit "one two three"; lit "four five six"; lit "seven"].
Proof. by vm_compute. Qed.
Definition fence : rstr := [backtick; backtick; backtick].
Definition code (body : list rstr) : rstr := fence ++ concat (map (fun l => 10 :: l) body).
(** A code block cut by the overflow is opened again in the new tail, and that opening is
    gone after the next tick, which sends what is left of the source. *)
Example fence_lost :
  let body := [lit "a b c d"; lit "eeeee"; lit "ffff"; lit "ggggg"] in
  let w := tick (code body) (posted (lit "one")) in
  shown w = [code [lit "a b c d"; fence]; code [lit "eeeee"; lit "ffff"; fence]; code [lit "ggggg"]]
  /\ last (shown (tick (code (body ++ [lit "h"])) w)) = Some (lit "ggggg" ++ 10 :: lit "h").
Proof. by vm_compute. Qed.
End StreamDemo.
