(* ===== verification/Router.v ===== *)
(** The inbound router ([copperclaw-host-router/src/route.rs], [mention.rs],
    [debounce.rs], [hooks.rs]; the operations of
    [copperclaw-modules/src/permissions.rs]): from an inbound event to rows
    in the inboxes of the wired sessions.

    The hooks, the regular expressions of the wirings and the rendering of
    ids and dates are parameters.  A session's files are its store; opening
    them and writing attachments can fail as the parameters say.  Metrics and
    logs are left out. *)
From S2P Require Import Prelude Types MessagesIn Outbox Commands Central.

(** ** Mention gate *)

Record MentionGate : Type := mkMentionGate {
  require_in_groups : bool;
  require_in_dms : bool;
}.
Definition default_gate : MentionGate := mkMentionGate true false.

Inductive MentionDecision : Type := Process | Drop (label : string).

Definition is_interaction_payload (event : InboundEvent) : bool :=
  match im_content (ev_message event) with
  | JObj o =>
      existsb (fun k => match assoc k o with Some _ => true | None => false end)
        ["callback"; "button"; "command"; "reaction"]%string
  | _ => false
  end.

Definition gates_venue (g : MentionGate) (is_group : bool) : bool :=
  if is_group then require_in_groups g else require_in_dms g.

Definition replying_to_self (event : InboundEvent) : bool :=
  match ev_reply_to event with
  | Some r => default false (rt_replying_to_self r)
  | None => false
  end.

(** [regex p] is the compiled pattern, [None] when it is invalid. *)
Definition pattern_matches (regex : string -> option (rstr -> bool)) (pattern : string)
  (event : InboundEvent) : bool :=
  match jget_str "text" (im_content (ev_message event)) with
  | None => false
  | Some text => match regex pattern with Some re => re text | None => false end
  end.

Module Gating.
Definition decide (regex : string -> option (rstr -> bool)) (g : MentionGate) (event : InboundEvent)
  (is_group : bool) (mode : EngageMode) (pattern : option string) : MentionDecision :=
  if negb (bool_decide (im_kind (ev_message event) = Chat)) then Process
  else if is_interaction_payload event then Process
  else if negb (gates_venue g is_group) then Process
  else if bool_decide (im_is_mention (ev_message event) = Some true) then Process
  else if replying_to_self event then Process
  else
    match mode, pattern with
    | Pattern, Some pat => if pattern_matches regex pat event then Process else Drop "unmentioned"
    | _, _ => Drop "unmentioned"
    end.
End Gating.

(** ** Debounce *)

Definition DEBOUNCE_WINDOW : Z := 500 * ns_per_ms.
Definition DebounceKey : Type := (string * string * option string * rstr)%type.
Definition debounce_key (event : InboundEvent) : DebounceKey :=
  (ev_channel_type event, ev_platform_id event, ev_thread_id event, im_id (ev_message event)).

Definition check_and_record (m : gmap DebounceKey instant) (key : DebounceKey) (now : instant)
  : bool * gmap DebounceKey instant :=
  match m !! key with
  | Some prev => if sat_sub now prev <? DEBOUNCE_WINDOW then (true, m) else (false, <[key := now]> m)
  | None => (false, <[key := now]> m)
  end.
Definition purge_expired (m : gmap DebounceKey instant) (now : instant) : gmap DebounceKey instant :=
  filter (fun p => sat_sub now (snd p) < DEBOUNCE_WINDOW * 4) m.

(** ** Hooks *)

Record GateCtx : Type := mkGateCtx {
  gc_user : option uuid;
  gc_agent_group_id : option uuid;
  gc_messaging_group_id : option uuid;
  gc_op : string;
}.
Inductive GateDecision : Type := GAllow | GDeny (reason : rstr) | GDefer.
Record SenderScopeCtx : Type := mkScopeCtx {
  sc_event_sender : option SenderIdentity;
  sc_messaging_group_id : option uuid;
  sc_agent_group_id : uuid;
  sc_resolved_user : option uuid;
}.
Inductive SenderScopeDecision : Type :=
| SAllow | SDeny (reason : rstr) | SPending (reason : rstr) | SDefer.
Record ChannelRequestCtx : Type := mkChannelCtx {
  cc_channel_type : string;
  cc_platform_id : string;
  cc_thread_id : option string;
  cc_requester : option uuid;
  cc_agent_group_id : option uuid;
}.
Record ApprovalInterceptCtx : Type := mkApprovalCtx {
  ac_callback_data : rstr;
  ac_event_sender : option SenderIdentity;
  ac_resolved_user : option uuid;
  ac_agent_group_id : uuid;
  ac_messaging_group_id : option uuid;
  ac_channel_type : string;
  ac_platform_id : string;
  ac_thread_id : option string;
}.
Inductive ApprovalInterceptDecision : Type := Handled | Passthrough.

Inductive PermissionOp : Type :=
| CreateAgent | EditWiring | ApproveSender | ApproveChannel | InstallPackages
| AddMcpServer | ScheduleTask | CancelOtherTask | SendMessage.
Definition PermissionOp_parse (s : string) : option PermissionOp :=
  if String.eqb s "create_agent" then Some CreateAgent
  else if String.eqb s "edit_wiring" then Some EditWiring
  else if String.eqb s "approve_sender" then Some ApproveSender
  else if String.eqb s "approve_channel" then Some ApproveChannel
  else if String.eqb s "install_packages" then Some InstallPackages
  else if String.eqb s "add_mcp_server" then Some AddMcpServer
  else if String.eqb s "schedule_task" then Some ScheduleTask
  else if String.eqb s "cancel_other_task" then Some CancelOtherTask
  else if String.eqb s "send_message" || String.eqb s "deliver_message" then Some SendMessage
  else None.
Definition is_privileged (op : PermissionOp) : bool :=
  match op with SendMessage => false | _ => true end.
Definition op_is_privileged (op : string) : bool :=
  match PermissionOp_parse op with Some o => is_privileged o | None => false end.

(** ** Outcomes *)

Inductive RouterError : Type :=
| RDb (e : DbError)
| SessionCreate (msg : rstr)
| InvalidWiring (msg : rstr).

Record DeliveredTo : Type := mkDeliveredTo {
  dt_agent_group_id : uuid;
  dt_session_id : uuid;
  dt_message_id : uuid;
  dt_seq : Z;
}.
Inductive DropReason : Type :=
| NoMessagingGroup | NoAgents | AccessDenied (reason : rstr) | InterceptorDropped (reason : rstr)
| Debounced | ReentryGuard | MentionGated.
Inductive PendingReason : Type :=
| SenderUnregistered | ChannelRequestPending (reason : rstr) | ApprovalHandled.
Inductive RouteOutcome : Type :=
| Delivered (sessions : list DeliveredTo)
| Answered (sessions : list DeliveredTo)
| Dropped (reason : DropReason)
| Pending (reason : PendingReason).
Inductive FanoutOutcome : Type :=
| FDelivered (d : DeliveredTo)
| FAnswered (d : DeliveredTo)
| FDropped (reason : DropReason)
| FPending (reason : PendingReason).

Definition drop_reason_label (r : DropReason) : rstr :=
  match r with
  | NoMessagingGroup => lit "no_messaging_group"
  | NoAgents => lit "no_agents"
  | AccessDenied r => lit "access_denied:" ++ r
  | InterceptorDropped r => lit "interceptor_drop:" ++ r
  | Debounced => lit "debounced"
  | ReentryGuard => lit "reentry_guard"
  | MentionGated => lit "mention_gated"
  end.
Definition scope_reason (d : option SenderScopeDecision) : rstr :=
  match d with
  | Some (SDeny r) => lit "scope_deny:" ++ r
  | Some (SPending r) => lit "scope_pending:" ++ r
  | Some SAllow => lit "scope_allow"
  | Some SDefer | None => lit "unknown_sender"
  end.

Record TargetSession : Type := mkTarget {
  ts_agent_group_id : uuid;
  ts_id : uuid;
}.

(** ** State *)

(** The files of one session the router touches: its two databases, the
    entries at the top of its directory, the shell state and the files under
    [inbox/], by message id and name. *)
Inductive Entry : Type := Dir (is_git : bool) | File.
Record Store : Type := mkStore {
  st_inbox : list in_row;
  st_outbox : list out_row;
  st_routing : option SessionRouting;
  st_entries : gmap rstr Entry;
  st_shell_state : option rstr;
  st_inbox_files : gmap (rstr * rstr) rstr;
}.
Definition empty_store : Store := mkStore [] [] None ∅ None ∅.

Definition with_inbox (t : list in_row) (s : Store) : Store :=
  mkStore t (st_outbox s) (st_routing s) (st_entries s) (st_shell_state s) (st_inbox_files s).
Definition with_outbox (t : list out_row) (s : Store) : Store :=
  mkStore (st_inbox s) t (st_routing s) (st_entries s) (st_shell_state s) (st_inbox_files s).
Definition with_routing (r : SessionRouting) (s : Store) : Store :=
  mkStore (st_inbox s) (st_outbox s) (Some r) (st_entries s) (st_shell_state s) (st_inbox_files s).
Definition with_entry (name : rstr) (e : Entry) (s : Store) : Store :=
  mkStore (st_inbox s) (st_outbox s) (st_routing s)
    (match st_entries s !! name with Some _ => st_entries s | None => <[name := e]> (st_entries s) end)
    (st_shell_state s) (st_inbox_files s).
Definition with_shell_state (text : rstr) (s : Store) : Store :=
  mkStore (st_inbox s) (st_outbox s) (st_routing s) (<[lit ".shell_state" := File]> (st_entries s))
    (Some text) (st_inbox_files s).
Definition with_inbox_file (key : rstr * rstr) (bytes : rstr) (s : Store) : Store :=
  mkStore (st_inbox s) (st_outbox s) (st_routing s) (st_entries s) (st_shell_state s)
    (<[key := bytes]> (st_inbox_files s)).

Record World : Type := mkRouterWorld {
  w_sessions : list Session;
  w_groups : list MessagingGroup;
  w_wirings : list MessagingGroupAgent;
  w_agent_names : gmap uuid rstr;
  w_dropped : list DroppedMessage;
  w_unregistered : list UnregisteredSender;
  w_stores : gmap uuid Store;
  w_staged : gmap rstr rstr;
  w_debounce : gmap DebounceKey instant;
  w_inflight : gset uuid;
  w_fanout : Z;
  w_wakes : nat;
  w_fresh : uuid;
  w_mono : instant;
  w_wall : instant;
}.

Definition store_of (w : World) (id : uuid) : Store := default empty_store (w_stores w !! id).

Definition set_sessions (t : list Session) (w : World) : World :=
  mkRouterWorld (t) (w_groups w) (w_wirings w) (w_agent_names w) (w_dropped w) (w_unregistered w)
    (w_stores w) (w_staged w) (w_debounce w) (w_inflight w) (w_fanout w) (w_wakes w) (w_fresh w)
    (w_mono w) (w_wall w).
Definition set_dropped (t : list DroppedMessage) (w : World) : World :=
  mkRouterWorld (w_sessions w) (w_groups w) (w_wirings w) (w_agent_names w) (t) (w_unregistered w)
    (w_stores w) (w_staged w) (w_debounce w) (w_inflight w) (w_fanout w) (w_wakes w) (w_fresh w)
    (w_mono w) (w_wall w).
Definition set_unregistered (t : list UnregisteredSender) (w : World) : World :=
  mkRouterWorld (w_sessions w) (w_groups w) (w_wirings w) (w_agent_names w) (w_dropped w) (t)
    (w_stores w) (w_staged w) (w_debounce w) (w_inflight w) (w_fanout w) (w_wakes w) (w_fresh w)
    (w_mono w) (w_wall w).
Definition on_store (id : uuid) (f : Store -> Store) (w : World) : World :=
  mkRouterWorld (w_sessions w) (w_groups w) (w_wirings w) (w_agent_names w) (w_dropped w)
    (w_unregistered w) (<[id := f (store_of w id)]> (w_stores w)) (w_staged w) (w_debounce w)
    (w_inflight w) (w_fanout w) (w_wakes w) (w_fresh w) (w_mono w) (w_wall w).
Definition on_staged (f : gmap rstr rstr -> gmap rstr rstr) (w : World) : World :=
  mkRouterWorld (w_sessions w) (w_groups w) (w_wirings w) (w_agent_names w) (w_dropped w)
    (w_unregistered w) (w_stores w) (f (w_staged w)) (w_debounce w) (w_inflight w) (w_fanout w)
    (w_wakes w) (w_fresh w) (w_mono w) (w_wall w).
Definition set_debounce (m : gmap DebounceKey instant) (w : World) : World :=
  mkRouterWorld (w_sessions w) (w_groups w) (w_wirings w) (w_agent_names w) (w_dropped w)
    (w_unregistered w) (w_stores w) (w_staged w) (m) (w_inflight w) (w_fanout w) (w_wakes w)
    (w_fresh w) (w_mono w) (w_wall w).
Definition on_inflight (f : gset uuid -> gset uuid) (w : World) : World :=
  mkRouterWorld (w_sessions w) (w_groups w) (w_wirings w) (w_agent_names w) (w_dropped w)
    (w_unregistered w) (w_stores w) (w_staged w) (w_debounce w) (f (w_inflight w)) (w_fanout w)
    (w_wakes w) (w_fresh w) (w_mono w) (w_wall w).
Definition count_fanout  (w : World) : World :=
  mkRouterWorld (w_sessions w) (w_groups w) (w_wirings w) (w_agent_names w) (w_dropped w)
    (w_unregistered w) (w_stores w) (w_staged w) (w_debounce w) (w_inflight w) (w_fanout w + 1)
    (w_wakes w) (w_fresh w) (w_mono w) (w_wall w).
Definition add_wake  (w : World) : World :=
  mkRouterWorld (w_sessions w) (w_groups w) (w_wirings w) (w_agent_names w) (w_dropped w)
    (w_unregistered w) (w_stores w) (w_staged w) (w_debounce w) (w_inflight w) (w_fanout w)
    (S (w_wakes w)) (w_fresh w) (w_mono w) (w_wall w).
Definition next_fresh  (w : World) : World :=
  mkRouterWorld (w_sessions w) (w_groups w) (w_wirings w) (w_agent_names w) (w_dropped w)
    (w_unregistered w) (w_stores w) (w_staged w) (w_debounce w) (w_inflight w) (w_fanout w)
    (w_wakes w) (w_fresh w + 1) (w_mono w) (w_wall w).
Definition set_wall (t : instant) (w : World) : World :=
  mkRouterWorld (w_sessions w) (w_groups w) (w_wirings w) (w_agent_names w) (w_dropped w)
    (w_unregistered w) (w_stores w) (w_staged w) (w_debounce w) (w_inflight w) (w_fanout w)
    (w_wakes w) (w_fresh w) (w_mono w) (t).

(** ** What the router is configured with and calls outside its crate *)

Class Env : Type := {
  sender_resolver : option (InboundEvent -> option uuid);
  access_gate : option (GateCtx -> GateDecision);
  sender_scope_gate : option (SenderScopeCtx -> SenderScopeDecision);
  channel_request_gate : option (ChannelRequestCtx -> GateDecision);
  approval_interceptor : option (ApprovalInterceptCtx -> ApprovalInterceptDecision);
  mention_gate : MentionGate;
  regex : string -> option (rstr -> bool);
  uuid_text : uuid -> rstr;
  to_rfc3339 : instant -> rstr;
  db_error_text : DbError -> rstr;
  (** The reading of the clock after one that gave the argument. *)
  clock_after : instant -> instant;
  (** Why the directory or a database of a session cannot be opened. *)
  dir_error : uuid -> option rstr;
  inbound_error : uuid -> option rstr;
  outbound_error : uuid -> option rstr;
  (** Why a staged file, an inbox file or a workspace cannot be read or
      written. *)
  staged_error : rstr -> rstr;
  inbox_file_error : uuid -> rstr * rstr -> option rstr;
  workspace_error : uuid -> rstr -> option rstr;
  shell_state_error : uuid -> option rstr;
}.

(** ** Steps *)

Definition RM (A : Type) : Type := stateful World RouterError A.

Definition fresh_id : RM uuid := fun w => (Ok (w_fresh w), next_fresh w).
Definition notify_one : RM unit := modify add_wake.
Definition db {A} (r : result DbError A) : RM A :=
  lift (match r with Ok a => Ok a | Err e => Err (RDb e) end).

Section Steps.
Context `{Env}.

Definition utc_now : RM instant := fun w => (Ok (w_wall w), set_wall (clock_after (w_wall w)) w).

Definition or_fail (context : rstr) (o : option rstr) : RM unit :=
  match o with
  | Some e => fail (SessionCreate (context ++ e))
  | None => ret tt
  end.
Definition ensure_session_dir (sid : uuid) : RM unit :=
  or_fail (lit "ensure_dirs: ") (dir_error sid) ;;
  modify (on_store sid (fun s => with_entry (lit "outbox") (Dir false)
                                   (with_entry (lit "inbox") (Dir false) s))).
Definition inbound_pool (sid : uuid) : RM unit :=
  or_fail (lit "open inbound: ") (inbound_error sid) ;;
  modify (on_store sid (with_entry (lit "inbound.db") File)).
Definition outbound_pool (sid : uuid) : RM unit :=
  or_fail (lit "open outbound: ") (outbound_error sid) ;;
  modify (on_store sid (with_entry (lit "outbound.db") File)).

Definition insert_inbound (sid : uuid) (msg : WriteInbound) : RM Z :=
  let! s := gets (fun w => store_of w sid) in
  let! '(seq, t) := db (insert (st_inbox s) msg) in
  modify (on_store sid (with_inbox t)) ;;
  ret seq.
Definition insert_outbound (sid : uuid) (msg : WriteOutbound) : RM Z :=
  let! s := gets (fun w => store_of w sid) in
  let! '(seq, t) := db (out_insert (st_outbox s) msg) in
  modify (on_store sid (with_outbox t)) ;;
  ret seq.

Definition with_inflight {A} (sid : uuid) (m : RM A) : RM A :=
  fun w =>
    if bool_decide (sid ∈ w_inflight w)
    then (Err (InvalidWiring (lit "re-entered in-flight session")), w)
    else let '(r, w') := m (on_inflight (fun i => {[sid]} ∪ i) w) in
         (r, on_inflight (fun i => i ∖ {[sid]}) w').

(** ** Reading an event *)

Definition staged_attachment_path (event : InboundEvent) : option rstr :=
  match jget "attachment" (im_content (ev_message event)) with
  | Some att => jget_str "staged_path" att
  | None => None
  end.
Definition approval_callback_data (event : InboundEvent) : option rstr :=
  match jget "callback" (im_content (ev_message event)) with
  | Some callback =>
      match jget "data" callback with
      | Some v => jas_str v
      | None => jget_str "value" callback
      end
  | None => None
  end.
Definition source_session_for (event : InboundEvent) : option rstr :=
  if bool_decide (im_kind (ev_message event) = Agent)
  then jget_str "source_session_id" (im_content (ev_message event))
  else None.

(** The default policy of the access gate: without a decision a privileged
    operation is denied, any other allowed. *)
Definition resolve_access_gate (ctx : GateCtx) : GateDecision :=
  match option_map (fun g => g ctx) access_gate with
  | Some GAllow => GAllow
  | Some (GDeny reason) => GDeny reason
  | Some GDefer | None =>
      if op_is_privileged (gc_op ctx)
      then GDeny (lit "privileged operation `" ++ lit (gc_op ctx) ++ lit "` denied: no gate granted access")
      else GAllow
  end.

Definition record_drop (event : InboundEvent) (mg ag : option uuid) (reason : rstr) : RM unit :=
  let sender_name :=
    match ev_sender event with
    | Some s => or_else (se_display_name s) (Some (se_identity s))
    | None => None
    end in
  let! id := fresh_id in
  let! now := utc_now in
  let! t := gets w_dropped in
  let! t' := db (dropped_message_insert t
                   (mkDropped id (ev_channel_type event) (ev_platform_id event) None sender_name
                      reason mg ag now)) in
  modify (set_dropped t').

(** ** Sessions *)

Definition session_key (event : InboundEvent) (mg : uuid) (mode : SessionMode)
  : option uuid * option string :=
  match mode with
  | Shared => (Some mg, None)
  | PerThread => (Some mg, ev_thread_id event)
  | AgentShared => (None, None)
  end.

Definition new_target (event : InboundEvent) (req : CreateSession) : RM TargetSession :=
  let! id := fresh_id in
  let! now := utc_now in
  let! w := gets (fun w => w) in
  let refs :=
    match w_agent_names w !! cs_agent_group_id req with Some _ => true | None => false end
    && match cs_messaging_group_id req with
       | Some g => existsb (mg_has_id g) (w_groups w)
       | None => true
       end in
  match create (w_sessions w) refs id req now with
  | Err e => fail (SessionCreate (lit "create session: " ++ db_error_text e))
  | Ok (created, t) =>
      modify (set_sessions t) ;;
      ensure_session_dir id ;;
      inbound_pool id ;;
      modify (on_store id (with_routing (mkRouting (Some (ev_channel_type event))
                                           (Some (ev_platform_id event)) (ev_thread_id event)))) ;;
      ret (mkTarget (s_agent_group_id created) (s_id created))
  end.

Definition resolve_session (event : InboundEvent) (mg : uuid) (wiring : MessagingGroupAgent)
  : RM TargetSession :=
  let '(search_mg, search_thread) := session_key event mg (wr_session_mode wiring) in
  let! t := gets w_sessions in
  match find_for_agent t (wr_agent_group_id wiring) search_mg search_thread with
  | Some s => ensure_session_dir (s_id s) ;; ret (mkTarget (s_agent_group_id s) (s_id s))
  | None =>
      new_target event (mkCreateSession (wr_agent_group_id wiring) search_mg search_thread None None)
  end.

(** ** Attachments *)

(** [Map::remove] of an insertion-ordered map: the last entry takes the
    place of the removed one. *)
Definition swap_remove (k : string) (o : list (string * json)) : list (string * json) :=
  match assoc k o with
  | None => o
  | Some _ =>
      match rev o with
      | [] => []
      | (k', v') :: front =>
          if String.eqb k k' then rev front
          else map (fun p => if String.eqb k (fst p) then (k', v') else p) (rev front)
      end
  end.

Inductive WriteError : Type := AlreadyExists | OtherError (text : rstr).
Definition extract_to_inbox (sid : uuid) (msg_id filename bytes : rstr) (s : Store)
  : result WriteError Store :=
  match safe_attachment_name filename, safe_attachment_name msg_id with
  | Err e, _ | Ok _, Err e => Err (OtherError (db_error_text e))
  | Ok _, Ok _ =>
      match inbox_file_error sid (msg_id, filename) with
      | Some e => Err (OtherError e)
      | None =>
          match st_inbox_files s !! (msg_id, filename) with
          | Some _ => Err AlreadyExists
          | None => Ok (with_inbox_file (msg_id, filename) bytes s)
          end
      end
  end.

Definition copy_staged_into_inbox (sid : uuid) (msg_id filename staged : rstr)
  : RM (result rstr unit) :=
  let! w := gets (fun w => w) in
  match w_staged w !! staged with
  | None => ret (Err (lit "read staged file: " ++ staged_error staged))
  | Some bytes =>
      match extract_to_inbox sid msg_id filename bytes (store_of w sid) with
      | Ok s => modify (on_store sid (fun _ => s)) ;; ret (Ok tt)
      | Err AlreadyExists => ret (Ok tt)
      | Err (OtherError e) => ret (Err (lit "write inbox file: " ++ e))
      end
  end.

Definition msg_component (event : InboundEvent) : rstr :=
  sanitize_filename (Some (im_id (ev_message event))) (lit "message").

Definition materialized_content (event : InboundEvent) (session : TargetSession) : RM json :=
  let content := im_content (ev_message event) in
  match jget "attachment" content with
  | Some (JObj att) =>
      match jget_str "staged_path" (JObj att) with
      | None => ret content
      | Some staged =>
          let att := swap_remove "staged_path" att in
          let supplied_name := default [] (jget_str "filename" (JObj att)) in
          let safe_name := sanitize_filename (Some supplied_name) FALLBACK_FILENAME in
          ensure_session_dir (ts_id session) ;;
          let! copied := copy_staged_into_inbox (ts_id session) (msg_component event) safe_name staged in
          let att' :=
            match copied with
            | Ok _ =>
                assoc_insert "path" (JStr (container_inbox_path (msg_component event) safe_name))
                  (assoc_insert "filename" (JStr safe_name) att)
            | Err err => assoc_insert "error" (JStr (lit "attachment file unavailable: " ++ err)) att
            end in
          ret (jset "attachment" (JObj att') content)
      end
  | _ => ret content
  end.

(** ** Host-answered commands *)

Definition host_row (event : InboundEvent) (id : uuid) (now : instant) (text : rstr) : WriteOutbound :=
  {| wo_id := id; wo_in_reply_to := None; wo_timestamp := now; wo_deliver_after := None;
     wo_recurrence := None; wo_kind := Chat; wo_platform_id := Some (ev_platform_id event);
     wo_channel_type := Some (ev_channel_type event); wo_thread_id := ev_thread_id event;
     wo_content := JObj [("text"%string, JStr text)] |}.
Definition write_host_reply (event : InboundEvent) (session : TargetSession) (text : rstr)
  : RM FanoutOutcome :=
  outbound_pool (ts_id session) ;;
  let! id := fresh_id in
  let! now := utc_now in
  let! seq := insert_outbound (ts_id session) (host_row event id now text) in
  ret (FAnswered (mkDeliveredTo (ts_agent_group_id session) (ts_id session) id seq)).

Definition render_status (name : rstr) (session : Session) (queued : Z) : rstr :=
  join newline
    [lit "Agent status";
     lit "- agent group: " ++ name;
     lit "- session: " ++ uuid_text (s_id session);
     lit "- session state: " ++ lit (SessionStatus.as_str (s_status session)) ++ lit " (container "
     ++ lit (ContainerStatus_as_str (s_container_status session)) ++ lit ")";
     lit "- queued messages: " ++ show_z queued;
     lit "- last active: " ++ to_rfc3339 (s_last_active session);
     lit "- created: " ++ to_rfc3339 (s_created_at session)].
Definition answer_status (event : InboundEvent) (session : TargetSession) : RM FanoutOutcome :=
  let! t := gets w_sessions in
  let! full := db (session_get t (ts_id session)) in
  let! names := gets w_agent_names in
  let! name := db (match names !! ts_agent_group_id session with
                   | Some n => Ok n
                   | None => Err NotFound
                   end) in
  inbound_pool (ts_id session) ;;
  let! now := utc_now in
  let! queued := gets (fun w => count_due (st_inbox (store_of w (ts_id session))) now) in
  write_host_reply event session (render_status name full queued).

Fixpoint insert_workspace (w : Workspace) (l : list Workspace) : list Workspace :=
  match l with
  | [] => [w]
  | w' :: l' => if rstr_leb (ws_name w) (ws_name w') then w :: l else w' :: insert_workspace w l'
  end.
Definition list_workspaces (s : Store) : list Workspace :=
  let active := match st_shell_state s with Some text => active_from_shell_state text | None => None end in
  let workspace (p : rstr * Entry) :=
    match p with
    | (name, Dir is_git) =>
        if is_system_dir name then []
        else [mkWorkspace name is_git (match active with Some a => rstr_eqb a name | None => false end)]
    | (_, File) => []
    end in
  foldr insert_workspace [] (concat (map workspace (map_to_list (st_entries s)))).
Definition answer_projects (event : InboundEvent) (session : TargetSession) : RM FanoutOutcome :=
  ensure_session_dir (ts_id session) ;;
  let! s := gets (fun w => store_of w (ts_id session)) in
  write_host_reply event session (render_projects (list_workspaces s)).

Definition inbound_row (event : InboundEvent) (id : uuid) (kind : MessageKind) (timestamp : instant)
  (content : json) (trigger : bool) (source : option rstr) (reply_to : option string) : WriteInbound :=
  {| wi_id := id; wi_kind := kind; wi_timestamp := timestamp; wi_content := content;
     wi_trigger := trigger; wi_on_wake := false; wi_process_after := None; wi_recurrence := None;
     wi_series_id := None; wi_platform_id := Some (ev_platform_id event);
     wi_channel_type := Some (ev_channel_type event); wi_thread_id := ev_thread_id event;
     wi_source_session_id := source; wi_reply_to := reply_to;
     wi_is_group := im_is_group (ev_message event) |}.
Definition write_clear_row (event : InboundEvent) (session : TargetSession) : RM unit :=
  inbound_pool (ts_id session) ;;
  let canonical := Slash.canonical Clear in
  let content := passthrough_content Clear (JObj [("text"%string, JStr canonical)]) canonical in
  let! id := fresh_id in
  let! now := utc_now in
  let! _ := insert_inbound (ts_id session) (inbound_row event id Chat now content true None None) in
  notify_one.

Definition answer_switch (event : InboundEvent) (session : TargetSession) (target : SwitchTarget)
  : RM FanoutOutcome :=
  match target with
  | Invalid raw => write_host_reply event session (render_switch_invalid raw)
  | Valid name =>
      let sid := ts_id session in
      ensure_session_dir sid ;;
      let! s := gets (fun w => store_of w sid) in
      let created := match st_entries s !! name with Some _ => false | None => true end in
      (if created
       then or_fail (lit "create workspace " ++ name ++ lit ": ") (workspace_error sid name) ;;
            modify (on_store sid (with_entry name (Dir false)))
       else ret tt) ;;
      or_fail (lit "write .shell_state: ") (shell_state_error sid) ;;
      modify (on_store sid (with_shell_state (switch_shell_state name))) ;;
      write_clear_row event session ;;
      write_host_reply event session (render_switch_ok name created)
  end.

(** ** One wiring *)

(** The kind, content and trigger flag of the row of a message. *)
Definition shape_row (event : InboundEvent) (command : option ParsedCommand) (content : json)
  : MessageKind * json * bool :=
  let original_text := default [] (jget_str "text" (im_content (ev_message event))) in
  let '(kind, content, trigger) :=
    match command with
    | Some (Bare Stop) => (System, control_content Stop original_text, false)
    | Some (Bare ((Compact | Clear) as cmd)) =>
        (im_kind (ev_message event), passthrough_content cmd content original_text, true)
    | _ => (im_kind (ev_message event), content, true)
    end in
  (kind, content, trigger && negb (is_reaction_content content)).

Definition write_message (event : InboundEvent) (session : TargetSession) (command : option ParsedCommand)
  : RM FanoutOutcome :=
  let! event_content := materialized_content event session in
  inbound_pool (ts_id session) ;;
  let! id := fresh_id in
  let '(kind, content, trigger) := shape_row event command event_content in
  let reply_to := match ev_reply_to event with Some r => rt_thread_id r | None => None end in
  let! seq := insert_inbound (ts_id session)
                (inbound_row event id kind (im_timestamp (ev_message event)) content trigger
                   (source_session_for event) reply_to) in
  (if trigger then notify_one else ret tt) ;;
  ret (FDelivered (mkDeliveredTo (ts_agent_group_id session) (ts_id session) id seq)).

Definition in_session (event : InboundEvent) (session : TargetSession) (command : option ParsedCommand)
  : RM FanoutOutcome :=
  match command with
  | Some (Bare Status) => answer_status event session
  | Some (Bare Projects) => answer_projects event session
  | Some (Switch target) => answer_switch event session target
  | _ => write_message event session command
  end.

(** The gates before a session is chosen: the outcome when one of them ends
    the delivery. *)
Definition scope_gate (event : InboundEvent) (mg : uuid) (wiring : MessagingGroupAgent)
  (user : option uuid) : option SenderScopeDecision :=
  option_map (fun g => g (mkScopeCtx (ev_sender event) (Some mg) (wr_agent_group_id wiring) user))
    sender_scope_gate.
Definition note_unregistered (event : InboundEvent) (mg : uuid) (wiring : MessagingGroupAgent)
  (user : option uuid) (decision : option SenderScopeDecision) : RM unit :=
  match user, ev_sender event with
  | None, Some sender =>
      let! now := utc_now in
      let! t := gets w_unregistered in
      modify (set_unregistered
        (unregistered_upsert t
           (mkUpsertUnregistered (se_channel_type sender) (se_identity sender) None
              (se_display_name sender) (scope_reason decision) (Some mg)
              (Some (wr_agent_group_id wiring))) now))
  | _, _ => ret tt
  end.
Definition intercepted (event : InboundEvent) (mg : uuid) (wiring : MessagingGroupAgent)
  (user : option uuid) : bool :=
  match approval_interceptor, approval_callback_data event with
  | Some f, Some data =>
      match f (mkApprovalCtx data (ev_sender event) user (wr_agent_group_id wiring) (Some mg)
                 (ev_channel_type event) (ev_platform_id event) (ev_thread_id event)) with
      | Handled => true
      | Passthrough => false
      end
  | _, _ => false
  end.
Definition mention_dropped (event : InboundEvent) (mg_is_group : bool) (wiring : MessagingGroupAgent)
  (command : option ParsedCommand) : bool :=
  let is_group := mg_is_group || bool_decide (im_is_group (ev_message event) = Some true) in
  match command with
  | Some _ => false
  | None =>
      match Gating.decide regex mention_gate event is_group (wr_engage_mode wiring) (wr_engage_pattern wiring) with
      | Drop _ => true
      | Process => false
      end
  end.

Definition route_one (event : InboundEvent) (mg : uuid) (mg_is_group : bool)
  (wiring : MessagingGroupAgent) (user : option uuid) (command : option ParsedCommand)
  : RM FanoutOutcome :=
  match resolve_access_gate
          (mkGateCtx user (Some (wr_agent_group_id wiring)) (Some mg) "deliver_message") with
  | GDeny reason => ret (FDropped (AccessDenied reason))
  | _ =>
      let decision := scope_gate event mg wiring user in
      note_unregistered event mg wiring user decision ;;
      match decision with
      | Some (SDeny reason) => ret (FDropped (AccessDenied reason))
      | Some (SPending _) => ret (FPending SenderUnregistered)
      | _ =>
          if intercepted event mg wiring user then ret (FPending ApprovalHandled)
          else if mention_dropped event mg_is_group wiring command then ret (FDropped MentionGated)
          else
            let! session := resolve_session event mg wiring in
            if match source_session_for event with
               | Some src => rstr_eqb src (uuid_text (ts_id session))
               | None => false
               end
            then ret (FDropped ReentryGuard)
            else with_inflight (ts_id session) (in_session event session command)
      end
  end.

(** ** The pipeline *)

Definition conclude (sessions answered : list DeliveredTo) (last_pending : option PendingReason)
  : RouteOutcome :=
  match sessions, answered, last_pending with
  | _ :: _, _, _ => Delivered sessions
  | [], _ :: _, _ => Answered answered
  | [], [], Some reason => Pending reason
  | [], [], None => Dropped NoAgents
  end.

Fixpoint fanout (event : InboundEvent) (mg : MessagingGroup) (user : option uuid)
  (command : option ParsedCommand) (wirings : list MessagingGroupAgent)
  (sessions answered : list DeliveredTo) (last_pending : option PendingReason) : RM RouteOutcome :=
  match wirings with
  | [] => ret (conclude sessions answered last_pending)
  | wiring :: rest =>
      modify count_fanout ;;
      let! outcome := route_one event (mg_id mg) (mg_is_group mg) wiring user command in
      match outcome with
      | FDelivered d => fanout event mg user command rest (sessions ++ [d]) answered last_pending
      | FAnswered d => fanout event mg user command rest sessions (answered ++ [d]) last_pending
      | FDropped reason =>
          record_drop event (Some (mg_id mg)) (Some (wr_agent_group_id wiring))
            (drop_reason_label reason) ;;
          match sessions, answered with
          | [], [] => ret (Dropped reason)
          | _, _ => fanout event mg user command rest sessions answered last_pending
          end
      | FPending reason => fanout event mg user command rest sessions answered (Some reason)
      end
  end.

Definition debounced (event : InboundEvent) : RM bool :=
  fun w =>
    let '(dup, m) := check_and_record (w_debounce w) (debounce_key event) (w_mono w) in
    (Ok dup, set_debounce m w).

Definition channel_gate (event : InboundEvent) (user : option uuid) : option GateDecision :=
  option_map (fun g => g (mkChannelCtx (ev_channel_type event) (ev_platform_id event)
                            (ev_thread_id event) user None)) channel_request_gate.

Definition route_impl (event : InboundEvent) : RM RouteOutcome :=
  let! dup := debounced event in
  if (dup : bool) then ret (Dropped Debounced)
  else
    let! groups := gets w_groups in
    match get_by_platform groups (ev_channel_type event) (ev_platform_id event) with
    | None =>
        record_drop event None None (lit "no_messaging_group") ;;
        ret (Dropped NoMessagingGroup)
    | Some mg =>
        let user := match sender_resolver with Some f => f event | None => None end in
        match channel_gate event user with
        | Some (GDeny reason) =>
            record_drop event (Some (mg_id mg)) None reason ;;
            ret (Dropped (AccessDenied reason))
        | _ =>
            let! table := gets w_wirings in
            match list_for_mg table (mg_id mg) with
            | [] =>
                record_drop event (Some (mg_id mg)) None (lit "no_agents") ;;
                ret (Dropped NoAgents)
            | wirings => fanout event mg user (Parsed.detect event) wirings [] [] None
            end
        end
    end.

Definition route (event : InboundEvent) : RM RouteOutcome :=
  let! outcome := catch (route_impl event) in
  (match staged_attachment_path event with
   | Some path => modify (on_staged (delete path))
   | None => ret tt
   end) ;;
  lift outcome.
End Steps.
