(* ===== verification/RouterProps.v ===== *)
(** What the inbound router guarantees: it leaves the in-flight set and the
    tables as it must, whatever fails on the way; an outcome that reports
    a refusal wrote nothing; an outcome that reports a delivery names rows that
    are there; duplicates and staged files are consumed. *)
From stdpp Require Import relations.
From S2P Require Import Prelude Types MessagesIn Outbox Commands Central Router.

(** ** Frames: a step relates the state before it to the state after it *)

Lemma keeps_db {A} {R : World -> World -> Prop} {HR : PreOrder R} (r : result DbError A) : keeps R (db r).
Proof. apply keeps_lift. Qed.
Lemma keeps_or_fail {R : World -> World -> Prop} {HR : PreOrder R} c o : keeps R (or_fail c o).
Proof. destruct o; [apply keeps_fail | apply keeps_ret]. Qed.
#[export] Hint Resolve keeps_db keeps_or_fail : keeps.

(** A change of a session's files leaves its two message tables alone. *)
Definition files_only (f : Store -> Store) : Prop :=
  forall s, st_inbox (f s) = st_inbox s /\ st_outbox (f s) = st_outbox s.

(** What the parts of the pipeline that write no message may do. *)
Class QuietFrame (R : World -> World -> Prop) : Prop := {
  frame_preorder :: PreOrder R;
  frame_fresh w : R w (next_fresh w);
  frame_wall w t : R w (set_wall t w);
  frame_fanout w : R w (count_fanout w);
  frame_dropped w t : R w (set_dropped t w);
  frame_unregistered w t : R w (set_unregistered t w);
  frame_files w sid f : files_only f -> R w (on_store sid f w);
  frame_create w refs id req now s t :
    find_for_agent (w_sessions w) (cs_agent_group_id req) (cs_messaging_group_id req)
      (cs_thread_id req) = None ->
    create (w_sessions w) refs id req now = Ok (s, t) -> R w (set_sessions t w);
}.

(** What the whole pipeline may do. *)
Class Frame (R : World -> World -> Prop) : Prop := {
  frame_quiet :: QuietFrame R;
  frame_wake w : R w (add_wake w);
  frame_inbound sid msg : keeps R (insert_inbound sid msg);
  frame_outbound sid msg : keeps R (insert_outbound sid msg);
  frame_inflight {A} sid (m : RM A) : keeps R m -> keeps R (with_inflight sid m);
}.

(** What [route] does around the pipeline. *)
Class Envelope (R : World -> World -> Prop) : Prop := {
  frame_debounce w m : R w (set_debounce m w);
  frame_staged w f : R w (on_staged f w);
}.

Lemma with_entry_files n e : files_only (with_entry n e).
Proof. done. Qed.
Lemma with_dirs_files n e n' e' : files_only (fun s => with_entry n e (with_entry n' e' s)).
Proof. done. Qed.
Lemma with_routing_files r : files_only (with_routing r).
Proof. done. Qed.
Lemma with_shell_state_files t : files_only (with_shell_state t).
Proof. done. Qed.
#[export] Hint Resolve with_entry_files with_dirs_files with_routing_files with_shell_state_files : keeps.

Section Quiet.
Context `{Env} {R : World -> World -> Prop} {HR : QuietFrame R}.

Lemma keeps_fresh_id : keeps R fresh_id.
Proof. intros w. apply frame_fresh. Qed.
Lemma keeps_utc_now : keeps R utc_now.
Proof. intros w. apply frame_wall. Qed.
Lemma keeps_files sid f : files_only f -> keeps R (modify (on_store sid f) : RM unit).
Proof. intros Hf. apply keeps_modify. intros w. by apply frame_files. Qed.
Hint Resolve keeps_fresh_id keeps_utc_now keeps_files : keeps.

Lemma keeps_ensure_session_dir sid : keeps R (ensure_session_dir sid).
Proof. unfold ensure_session_dir. split_steps. Qed.
Lemma keeps_inbound_pool sid : keeps R (inbound_pool sid).
Proof. unfold inbound_pool. split_steps. Qed.
Lemma keeps_outbound_pool sid : keeps R (outbound_pool sid).
Proof. unfold outbound_pool. split_steps. Qed.
Hint Resolve keeps_ensure_session_dir keeps_inbound_pool keeps_outbound_pool : keeps.

Lemma keeps_record_drop event mg ag reason : keeps R (record_drop event mg ag reason).
Proof.
  unfold record_drop. split_steps. apply keeps_modify. intros w. apply frame_dropped.
Qed.

Hint Resolve keeps_record_drop : keeps.

Lemma new_target_frame event req w :
  find_for_agent (w_sessions w) (cs_agent_group_id req) (cs_messaging_group_id req)
    (cs_thread_id req) = None ->
  R w (snd (new_target event req w)).
Proof.
  intros Hnone.
  assert (forall id r tgt, keeps R (ensure_session_dir id ;; inbound_pool id ;;
            modify (on_store id (with_routing r)) ;; ret (A:=TargetSession) tgt)) as Hk
    by (intros; split_steps).
  unfold new_target. unfold mbind at 1, fresh_id. unfold mbind at 1, utc_now.
  set (w1 := set_wall _ _).
  assert (R w w1) as H1 by (transitivity (next_fresh w); [apply frame_fresh | apply frame_wall]).
  unfold mbind at 1, gets. destruct (create (w_sessions w1) _ _ req _) as [[s t]|e] eqn:E; [|exact H1].
  transitivity w1; [exact H1|]. transitivity (set_sessions t w1); [by eapply frame_create | apply Hk].
Qed.

Lemma keeps_resolve_session event mg wiring : keeps R (resolve_session event mg wiring).
Proof.
  intros w. unfold resolve_session. destruct (session_key _ _ _) as [m t].
  unfold mbind at 1, gets. destruct (find_for_agent _ _ _ _) as [s|] eqn:E.
  - assert (forall sid tgt, keeps R (ensure_session_dir sid ;; ret (A:=TargetSession) tgt)) as Hk
      by (intros; split_steps). apply Hk.
  - by apply new_target_frame.
Qed.

Lemma keeps_note_unregistered event mg wiring user d :
  keeps R (note_unregistered event mg wiring user d).
Proof.
  unfold note_unregistered. split_steps. apply keeps_modify. intros w. apply frame_unregistered.
Qed.

Lemma extract_files sid m f b s s' :
  extract_to_inbox sid m f b s = Ok s' -> s' = with_inbox_file (m, f) b s.
Proof.
  unfold extract_to_inbox. repeat case_match; intros; by simplify_eq.
Qed.

Lemma keeps_copy sid m f p : keeps R (copy_staged_into_inbox sid m f p).
Proof.
  intros w. unfold copy_staged_into_inbox, mbind, gets. cbn.
  destruct (w_staged w !! p) as [bytes|]; [|reflexivity].
  destruct (extract_to_inbox sid m f bytes (store_of w sid)) as [s|[|e]] eqn:E; [|reflexivity..].
  apply extract_files in E. subst s.
  assert (on_store sid (fun _ => with_inbox_file (m, f) bytes (store_of w sid)) w
          = on_store sid (with_inbox_file (m, f) bytes) w) as E by done.
  cbn. rewrite E. by apply frame_files.
Qed.
Hint Resolve keeps_copy : keeps.

Lemma keeps_materialized event session : keeps R (materialized_content event session).
Proof. unfold materialized_content. split_steps. Qed.
End Quiet.
#[export] Hint Resolve keeps_fresh_id keeps_utc_now keeps_files keeps_ensure_session_dir
  keeps_inbound_pool keeps_outbound_pool keeps_record_drop keeps_resolve_session
  keeps_note_unregistered keeps_copy keeps_materialized : keeps.

Lemma keeps_debounced {R : World -> World -> Prop} {HE : Envelope R} event : keeps R (debounced event).
Proof.
  intros w. unfold debounced. destruct (check_and_record _ _ _). apply frame_debounce.
Qed.
#[export] Hint Resolve keeps_debounced : keeps.

Section Whole.
Context `{Env} {R : World -> World -> Prop} {HR : Frame R}.

Hint Resolve frame_inbound frame_outbound : keeps.
Lemma keeps_notify_one : keeps R notify_one.
Proof. apply keeps_modify, frame_wake. Qed.
Hint Resolve keeps_notify_one : keeps.

Lemma keeps_write_host_reply event session text : keeps R (write_host_reply event session text).
Proof. unfold write_host_reply. split_steps. Qed.
Lemma keeps_write_clear_row event session : keeps R (write_clear_row event session).
Proof. unfold write_clear_row. split_steps. Qed.
Hint Resolve keeps_write_host_reply keeps_write_clear_row : keeps.

Lemma keeps_write_message event session command : keeps R (write_message event session command).
Proof. unfold write_message. split_steps. Qed.
Hint Resolve keeps_write_message : keeps.

Lemma keeps_in_session event session command : keeps R (in_session event session command).
Proof.
  unfold in_session, answer_status, answer_projects, answer_switch. split_steps.
Qed.

Lemma keeps_route_one event mg g wiring user command :
  keeps R (route_one event mg g wiring user command).
Proof.
  unfold route_one. split_steps; apply frame_inflight, keeps_in_session.
Qed.
Hint Resolve keeps_route_one : keeps.

Lemma keeps_fanout event mg user command wirings sessions answered pending :
  keeps R (fanout event mg user command wirings sessions answered pending).
Proof.
  revert sessions answered pending. induction wirings as [|w ws IH]; intros; cbn [fanout].
  - split_steps.
  - apply keeps_bind; [apply keeps_modify, frame_fanout|]. split_steps.
Qed.
Hint Resolve keeps_fanout : keeps.

Lemma keeps_route `{!Envelope R} event : keeps R (route event).
Proof.
  assert (keeps R (route_impl event)) by (unfold route_impl; split_steps).
  unfold route. split_steps. apply keeps_modify. intros w. apply frame_staged.
Qed.
End Whole.
#[export] Hint Resolve keeps_route_one keeps_fanout : keeps.

(** ** Two frames *)

Definition same {A} (p : World -> A) (w w' : World) : Prop := p w' = p w.
#[export] Instance same_preorder {A} (p : World -> A) : PreOrder (same p).
Proof. split; [by intros w | intros x y z; unfold same; congruence]. Qed.

#[export] Instance inflight_envelope : Envelope (same w_inflight).
Proof. done. Qed.
#[export] Instance inflight_quiet : QuietFrame (same w_inflight).
Proof. split; intros; try done. apply _. Qed.

Lemma insert_inbound_run sid msg w :
  insert_inbound sid msg w =
  match insert (st_inbox (store_of w sid)) msg with
  | Ok (seq, t) => (Ok seq, on_store sid (with_inbox t) w)
  | Err e => (Err (RDb e), w)
  end.
Proof.
  unfold insert_inbound, mbind, gets, db, lift. by destruct (insert _ msg) as [[seq t]|e].
Qed.
Lemma insert_outbound_run sid msg w :
  insert_outbound sid msg w =
  match out_insert (st_outbox (store_of w sid)) msg with
  | Ok (seq, t) => (Ok seq, on_store sid (with_outbox t) w)
  | Err e => (Err (RDb e), w)
  end.
Proof.
  unfold insert_outbound, mbind, gets, db, lift. by destruct (out_insert _ msg) as [[seq t]|e].
Qed.

#[export] Instance inflight_frame : Frame (same w_inflight).
Proof.
  split; [apply _ | done | | |].
  - intros sid msg w. rewrite insert_inbound_run. by destruct (insert _ msg) as [[seq t]|e].
  - intros sid msg w. rewrite insert_outbound_run. by destruct (out_insert _ msg) as [[seq t]|e].
  - intros A sid m Hm w. unfold with_inflight. case_bool_decide; [done|].
    specialize (Hm (on_inflight (fun i => {[sid]} ∪ i) w)).
    destruct (m _) as [r w']. unfold same in *. cbn in *. rewrite Hm. apply set_eq. intros x.
    rewrite elem_of_difference, elem_of_union, elem_of_singleton.
    split; [by intros [[?|?] ?] | intros Hx; split; [by right | by intros ->]].
Qed.

#[export] Instance debounce_quiet : QuietFrame (same w_debounce).
Proof. split; intros; try done. apply _. Qed.
#[export] Instance debounce_frame : Frame (same w_debounce).
Proof.
  split; [apply _ | done | | |].
  - intros sid msg w. rewrite insert_inbound_run. by destruct (insert _ msg) as [[seq t]|e].
  - intros sid msg w. rewrite insert_outbound_run. by destruct (out_insert _ msg) as [[seq t]|e].
  - intros A sid m Hm w. unfold with_inflight. case_bool_decide; [done|].
    specialize (Hm (on_inflight (fun i => {[sid]} ∪ i) w)). by destruct (m _).
Qed.

(** The message tables only grow at their end. *)
Definition grows (w w' : World) : Prop :=
  forall sid, (exists l, st_inbox (store_of w' sid) = st_inbox (store_of w sid) ++ l)
              /\ (exists l, st_outbox (store_of w' sid) = st_outbox (store_of w sid) ++ l).
#[export] Instance grows_preorder : PreOrder grows.
Proof.
  split.
  - intros w sid. split; exists []; by rewrite app_nil_r.
  - intros x y z Hxy Hyz sid. destruct (Hxy sid) as [[a Ha] [b Hb]], (Hyz sid) as [[c Hc] [d Hd]].
    split; [exists (a ++ c) | exists (b ++ d)]; rewrite app_assoc; congruence.
Qed.

Lemma store_of_on_store w sid f sid' :
  store_of (on_store sid f w) sid' = if decide (sid' = sid) then f (store_of w sid) else store_of w sid'.
Proof.
  unfold store_of, on_store. cbn. destruct (decide (sid' = sid)) as [->|].
  - by rewrite lookup_insert_eq.
  - by rewrite lookup_insert_ne.
Qed.

Lemma grows_on_store w sid f :
  (exists l, st_inbox (f (store_of w sid)) = st_inbox (store_of w sid) ++ l) ->
  (exists l, st_outbox (f (store_of w sid)) = st_outbox (store_of w sid) ++ l) ->
  grows w (on_store sid f w).
Proof.
  intros H1 H2 sid'. rewrite store_of_on_store. destruct (decide (sid' = sid)) as [->|]; [done|].
  split; exists []; by rewrite app_nil_r.
Qed.

Lemma grows_stores w w' : w_stores w' = w_stores w -> grows w w'.
Proof. intros E sid. unfold store_of. rewrite E. split; exists []; by rewrite app_nil_r. Qed.

#[export] Instance grows_envelope : Envelope grows.
Proof. split; intros; by apply grows_stores. Qed.
#[export] Instance grows_quiet : QuietFrame grows.
Proof.
  split; [apply _ | intros; by apply grows_stores.. | | intros; by apply grows_stores].
  intros w sid f Hf. apply grows_on_store; exists []; rewrite app_nil_r; apply Hf.
Qed.

Lemma insert_snoc t msg seq t' : insert t msg = Ok (seq, t') -> t' = t ++ [pending_row msg seq].
Proof. unfold insert, insert_impl. case_goal; intros; by simplify_eq. Qed.
Lemma out_insert_snoc t msg seq t' : out_insert t msg = Ok (seq, t') -> t' = t ++ [out_row_of msg seq].
Proof. unfold out_insert. case_goal; intros; by simplify_eq. Qed.

#[export] Instance grows_frame : Frame grows.
Proof.
  split; [apply _ | intros; by apply grows_stores | | |].
  - intros sid msg w. rewrite insert_inbound_run.
    destruct (insert _ msg) as [[seq t]|e] eqn:E; [|reflexivity].
    apply insert_snoc in E. subst t. apply grows_on_store; [by eexists | exists []; by rewrite app_nil_r].
  - intros sid msg w. rewrite insert_outbound_run.
    destruct (out_insert _ msg) as [[seq t]|e] eqn:E; [|reflexivity].
    apply out_insert_snoc in E. subst t. apply grows_on_store; [exists []; by rewrite app_nil_r | by eexists].
  - intros A sid m Hm w. unfold with_inflight. case_bool_decide; [reflexivity|].
    specialize (Hm (on_inflight (fun i => {[sid]} ∪ i) w)). by destruct (m _) as [r w'].
Qed.

(** No message is written and nobody is woken. *)
Definition quiet (w w' : World) : Prop :=
  (forall sid, st_inbox (store_of w' sid) = st_inbox (store_of w sid)
               /\ st_outbox (store_of w' sid) = st_outbox (store_of w sid))
  /\ w_wakes w' = w_wakes w.
#[export] Instance quiet_preorder : PreOrder quiet.
Proof.
  split; [done|]. intros x y z [H1 E1] [H2 E2]. split; [|congruence].
  intros sid. destruct (H1 sid), (H2 sid). split; congruence.
Qed.
#[export] Instance quiet_envelope : Envelope quiet.
Proof. done. Qed.
#[export] Instance quiet_quiet : QuietFrame quiet.
Proof.
  split; [apply _ | done.. | | done].
  intros w sid f Hf. split; [|done]. intros sid'. rewrite store_of_on_store.
  destruct (decide (sid' = sid)) as [->|]; [apply Hf | done].
Qed.

(** The tables of the sessions are well formed, and no two sessions serve the
    same agent, chat and thread. *)
Definition session_target (s : Session) : uuid * option uuid * option string :=
  (s_agent_group_id s, s_messaging_group_id s, s_thread_id s).
Definition tables_wf (w : World) : Prop :=
  (forall sid, MessagesIn.wf (st_inbox (store_of w sid)) /\ out_wf (st_outbox (store_of w sid)))
  /\ List.NoDup (map s_id (w_sessions w)) /\ List.NoDup (map session_target (w_sessions w)).
Definition keeps_wf (w w' : World) : Prop := tables_wf w -> tables_wf w'.
#[export] Instance keeps_wf_preorder : PreOrder keeps_wf.
Proof. split; [by intros w H | intros x y z; unfold keeps_wf; auto]. Qed.

Lemma opt_eqb_refl {A} (eqb : A -> A -> bool) o : (forall a, eqb a a = true) -> opt_eqb eqb o o = true.
Proof. intros Hr. destruct o; cbn; auto. Qed.

Lemma find_none_target t agent mg thread :
  find_for_agent t agent mg thread = None -> ~ In (agent, mg, thread) (map session_target t).
Proof.
  unfold find_for_agent, newest. intros E Hin. apply in_map_iff in Hin as (s & Hs & Hin).
  injection Hs as <- <- <-.
  assert (In s (order_by (fun s => - s_created_at s)
                  (List.filter (matches_target (s_agent_group_id s) (s_messaging_group_id s) (s_thread_id s)) t)))
    as Hm.
  { apply order_by_In, List.filter_In. split; [done|]. unfold matches_target.
    rewrite Z.eqb_refl, !opt_eqb_refl; [done | apply String.eqb_refl | apply Z.eqb_refl]. }
  destruct (order_by _ _); [done | discriminate].
Qed.

#[export] Instance keeps_wf_envelope : Envelope keeps_wf.
Proof. split; intros; intros Hw; exact Hw. Qed.
#[export] Instance keeps_wf_quiet : QuietFrame keeps_wf.
Proof.
  split; [apply _ | intros; intros Hw; exact Hw.. | |].
  - intros w sid f Hf [Ht Hs]. split; [|done]. intros sid'. rewrite store_of_on_store.
    destruct (decide (sid' = sid)) as [->|]; [|done]. destruct (Hf (store_of w sid)) as [-> ->]. done.
  - intros w refs id req now s t Hnone E [Ht [Hi Hk]]. split; [exact Ht|]. unfold create in E.
    destruct (existsb (has_session id) (w_sessions w) || negb refs) eqn:Ex; [done|]. simplify_eq.
    apply orb_false_elim in Ex as [Ex _]. cbn. rewrite !map_app. cbn. split.
    + apply NoDup_snoc; [done|]. intros Hin. apply in_map_iff in Hin as (s & Es & Hin).
      apply not_true_iff_false in Ex. apply Ex, existsb_exists. exists s. split; [done | by apply Z.eqb_eq].
    + apply NoDup_snoc; [done|]. by apply find_none_target.
Qed.

#[export] Instance keeps_wf_frame : Frame keeps_wf.
Proof.
  split; [apply _ | intros w Hw; exact Hw | | |].
  - intros sid msg w. rewrite insert_inbound_run.
    destruct (insert _ msg) as [[seq t]|e] eqn:E; [|reflexivity].
    intros [Ht Hs]. split; [|done]. intros sid'. cbn [snd]. rewrite store_of_on_store.
    destruct (decide (sid' = sid)) as [->|]; [|done]. destruct (Ht sid) as [Hin Hout].
    split; [|done]. cbn. eapply MessagesIn.step_wf; [by eapply step_insert | done].
  - intros sid msg w. rewrite insert_outbound_run.
    destruct (out_insert _ msg) as [[seq t]|e] eqn:E; [|reflexivity].
    intros [Ht Hs]. split; [|done]. intros sid'. cbn [snd]. rewrite store_of_on_store.
    destruct (decide (sid' = sid)) as [->|]; [|done]. destruct (Ht sid) as [Hin Hout].
    split; [done|]. cbn. by eapply out_insert_wf.
  - intros A sid m Hm w. unfold with_inflight. case_bool_decide; [reflexivity|].
    specialize (Hm (on_inflight (fun i => {[sid]} ∪ i) w)). by destruct (m _) as [r w'].
Qed.

(** ** What a step can return *)

Lemma returns_inflight {A} (P : A -> Prop) sid m : returns P m -> returns P (with_inflight sid m).
Proof.
  intros Hm w a w'. unfold with_inflight. case_bool_decide; [done|].
  destruct (m _) as [r w1] eqn:E. intros [= -> _]. by eapply Hm.
Qed.

Definition writes_message (o : FanoutOutcome) : Prop :=
  match o with FDelivered _ | FAnswered _ => True | FDropped _ | FPending _ => False end.

Section Outcomes.
Context `{Env}.

Lemma in_session_writes event session command : returns writes_message (in_session event session command).
Proof.
  unfold in_session, answer_status, answer_projects, answer_switch, write_message, write_host_reply.
  repeat first [apply returns_bind; intros | by apply returns_ret | case_match].
Qed.

Lemma route_one_quiet event mg g wiring user command w o w' :
  route_one event mg g wiring user command w = (Ok o, w') -> writes_message o \/ quiet w w'.
Proof.
  unfold route_one. destruct (resolve_access_gate _); [|intros [= <- <-]; right; reflexivity|].
  all: cbv zeta; unfold mbind at 1; pose proof (keeps_note_unregistered (R:=quiet) event mg wiring user
         (scope_gate event mg wiring user) w) as Hn.
  all: destruct (note_unregistered _ _ _ _ _ w) as [[[]|e] w1]; [|done]; cbn in Hn.
  all: destruct (scope_gate event mg wiring user) as [[]|]; try (intros [= <- <-]; by right).
  all: destruct (intercepted _ _ _ _); [intros [= <- <-]; by right|].
  all: destruct (mention_dropped _ _ _ _); [intros [= <- <-]; by right|].
  all: unfold mbind; pose proof (keeps_resolve_session (R:=quiet) event mg wiring w1) as Hs.
  all: destruct (resolve_session event mg wiring w1) as [[session|e] w2]; [|done]; cbn in Hs.
  all: destruct (match source_session_for event with Some _ => _ | None => _ end);
         [intros [= <- <-]; right; by transitivity w1|].
  all: intros E; left; eapply (returns_inflight writes_message); [apply in_session_writes | exact E].
Qed.

Lemma fanout_conclusion event mg user command wirings sessions answered pending w o w' :
  fanout event mg user command wirings sessions answered pending w = (Ok o, w') ->
  match o with
  | Delivered _ | Answered _ => True
  | Dropped _ | Pending _ => sessions = [] /\ answered = [] /\ quiet w w'
  end.
Proof.
  revert sessions answered pending w.
  induction wirings as [|wiring ws IH]; intros sessions answered pending w; cbn [fanout].
  - intros [= <- <-]. unfold conclude.
    destruct sessions, answered, pending; done.
  - unfold mbind at 1, modify. unfold mbind at 1.
    destruct (route_one event (mg_id mg) (mg_is_group mg) wiring user command (count_fanout w))
      as [[out|e] w1] eqn:E1; [|done].
    apply route_one_quiet in E1. destruct out as [d|d|reason|reason].
    + intros E. apply IH in E. destruct o; try done; destruct E as (E & _); by destruct sessions.
    + intros E. apply IH in E. destruct o; try done; destruct E as (_ & E & _); by destruct answered.
    + destruct E1 as [[]|Hq]. unfold mbind at 1.
      pose proof (keeps_record_drop (R:=quiet) event (Some (mg_id mg)) (Some (wr_agent_group_id wiring))
                    (drop_reason_label reason) w1) as Hd.
      destruct (record_drop _ _ _ _ w1) as [[[]|e] w2]; [|done]. cbn in Hd.
      assert (quiet w w2) as Hq2 by (transitivity w1; [exact Hq | exact Hd]).
      destruct sessions as [|s ss], answered as [|a aa]; intros E;
        [by injection E as <- <- |
         apply IH in E; destruct o; [done | done | by destruct E as (? & ? & _)..]..].
    + destruct E1 as [[]|Hq]. intros E. apply IH in E.
      destruct o; try done; destruct E as (-> & -> & E); (split; [done|]; split; [done|];
        transitivity w1; [exact Hq | exact E]).
Qed.
End Outcomes.

(** ** What a step leaves behind when it succeeds *)

Lemma triple_inflight {A} (P : World -> Prop) sid (m : RM A) (Q : A -> World -> Prop) :
  (forall w f, P w -> P (on_inflight f w)) -> (forall a w f, Q a w -> Q a (on_inflight f w)) ->
  triple P m Q -> triple P (with_inflight sid m) Q.
Proof.
  intros HP HQ Hm w a w' Hw. unfold with_inflight. case_bool_decide; [done|].
  destruct (m _) as [r w1] eqn:E. intros [= -> <-]. eapply HQ, Hm; [by apply HP | exact E].
Qed.
(** The row a delivery record names: an unread message of the event, from
    the chat it came from. *)
Definition delivered_row (event : InboundEvent) (d : DeliveredTo) (w : World) : Prop :=
  exists r, In r (st_inbox (store_of w (dt_session_id d)))
    /\ ir_id r = dt_message_id d /\ ir_seq r = dt_seq d /\ is_pending r = true
    /\ mi_channel_type (ir_row r) = Some (ev_channel_type event)
    /\ mi_platform_id (ir_row r) = Some (ev_platform_id event)
    /\ mi_thread_id (ir_row r) = ev_thread_id event.
(** The reply a host-answered command leaves, addressed to the chat it came
    from. *)
Definition answer_row (event : InboundEvent) (d : DeliveredTo) (w : World) : Prop :=
  exists r, In r (st_outbox (store_of w (dt_session_id d)))
    /\ or_id r = dt_message_id d /\ or_seq r = dt_seq d
    /\ mo_channel_type (or_row r) = Some (ev_channel_type event)
    /\ mo_platform_id (or_row r) = Some (ev_platform_id event)
    /\ mo_thread_id (or_row r) = ev_thread_id event.
Definition outcome_rows (event : InboundEvent) (o : FanoutOutcome) (w : World) : Prop :=
  match o with
  | FDelivered d => delivered_row event d w
  | FAnswered d => answer_row event d w
  | FDropped _ | FPending _ => True
  end.

Lemma delivered_row_grows event d w w' : grows w w' -> delivered_row event d w -> delivered_row event d w'.
Proof.
  intros Hg (r & Hr & Hrest). destruct (Hg (dt_session_id d)) as [[l Hl] _].
  exists r. split; [rewrite Hl; apply in_or_app; by left | done].
Qed.
Lemma answer_row_grows event d w w' : grows w w' -> answer_row event d w -> answer_row event d w'.
Proof.
  intros Hg (r & Hr & Hrest). destruct (Hg (dt_session_id d)) as [_ [l Hl]].
  exists r. split; [rewrite Hl; apply in_or_app; by left | done].
Qed.

Section Rows.
Context `{Env}.

Lemma triple_insert_inbound P sid msg :
  triple P (insert_inbound sid msg)
    (fun seq w => In (pending_row msg seq) (st_inbox (store_of w sid))).
Proof.
  intros w seq w' _. rewrite insert_inbound_run. destruct (insert _ msg) as [[n t]|e] eqn:E; [|done].
  apply insert_snoc in E. intros [= <- <-]. rewrite store_of_on_store, decide_True by done. subst t.
  cbn. apply in_or_app. right. by left.
Qed.
Lemma triple_insert_outbound P sid msg :
  triple P (insert_outbound sid msg)
    (fun seq w => In (out_row_of msg seq) (st_outbox (store_of w sid))).
Proof.
  intros w seq w' _. rewrite insert_outbound_run. destruct (out_insert _ msg) as [[n t]|e] eqn:E; [|done].
  apply out_insert_snoc in E. intros [= <- <-]. rewrite store_of_on_store, decide_True by done. subst t.
  cbn. apply in_or_app. right. by left.
Qed.

Lemma reply_rows P event session text :
  triple P (write_host_reply event session text) (outcome_rows event).
Proof.
  unfold write_host_reply. eapply triple_bind; [apply triple_any | intros []].
  eapply triple_bind; [apply triple_any | intros id].
  eapply triple_bind; [apply triple_any | intros now].
  eapply triple_bind; [apply triple_insert_outbound | intros seq].
  apply triple_ret. intros w Hr. eexists. by split; [exact Hr|].
Qed.

Lemma message_rows P event session command :
  triple P (write_message event session command) (outcome_rows event).
Proof.
  unfold write_message. eapply triple_bind; [apply triple_any | intros content].
  eapply triple_bind; [apply triple_any | intros []].
  eapply triple_bind; [apply triple_any | intros id].
  destruct (shape_row event command content) as [[kind content'] trigger].
  eapply triple_bind; [apply triple_insert_inbound | intros seq].
  eapply (triple_bind _ _ (fun _ w => In _ (st_inbox (store_of w (ts_id session))))).
  - intros w [] w' Hr. destruct trigger; intros [= <-]; exact Hr.
  - intros []. apply triple_ret. intros w Hr. eexists. by split; [exact Hr|].
Qed.

Lemma in_session_rows P event session command :
  triple P (in_session event session command) (outcome_rows event).
Proof.
  unfold in_session, answer_status, answer_projects, answer_switch.
  repeat first [triple_step | apply reply_rows | apply message_rows].
Qed.

Lemma route_one_rows event mg g wiring user command :
  triple (fun _ => True) (route_one event mg g wiring user command) (outcome_rows event).
Proof.
  unfold route_one.
  repeat first [triple_step | apply triple_inflight; [done | by intros [] | apply in_session_rows]].
Qed.

Lemma fanout_rows event mg user command wirings sessions answered pending :
  triple (fun w => Forall (fun d => delivered_row event d w) sessions
                   /\ Forall (fun d => answer_row event d w) answered)
    (fanout event mg user command wirings sessions answered pending)
    (fun o w => match o with
                | Delivered ds => ds <> [] /\ Forall (fun d => delivered_row event d w) ds
                | Answered ds => ds <> [] /\ Forall (fun d => answer_row event d w) ds
                | Dropped _ | Pending _ => True
                end).
Proof.
  revert sessions answered pending. induction wirings as [|wiring ws IH]; intros; cbn [fanout].
  - apply triple_ret. intros w [Hs Ha]. unfold conclude. destruct sessions, answered, pending; done.
  - intros w o w' [Hs Ha]. unfold mbind at 1, modify. unfold mbind at 1.
    pose proof (keeps_route_one (R:=grows) event (mg_id mg) (mg_is_group mg) wiring user command
                  (count_fanout w)) as Hg.
    destruct (route_one _ _ _ _ _ _ (count_fanout w)) as [[out|e] w1] eqn:E1; [|done]. cbn in Hg.
    pose proof (route_one_rows _ _ _ _ _ _ _ _ _ I E1) as Hrow.
    assert (forall w2, grows w1 w2 -> Forall (fun d => delivered_row event d w2) sessions
              /\ Forall (fun d => answer_row event d w2) answered) as Hkeep.
    { intros w2 H2. assert (grows w w2) as Hw by (transitivity w1; [exact Hg | exact H2]).
      split; [eapply Forall_impl; [exact Hs|] | eapply Forall_impl; [exact Ha|]]; intros d;
        [by apply delivered_row_grows | by apply answer_row_grows]. }
    destruct (Hkeep w1 ltac:(reflexivity)) as [Hs1 Ha1].
    destruct out as [d|d|reason|reason]; [| | |by apply IH].
    + apply IH. split; [|done]. apply List.Forall_app. by repeat constructor.
    + apply IH. split; [done|]. apply List.Forall_app. by repeat constructor.
    + unfold mbind at 1.
      pose proof (keeps_record_drop (R:=grows) event (Some (mg_id mg)) (Some (wr_agent_group_id wiring))
                    (drop_reason_label reason) w1) as Hd.
      destruct (record_drop _ _ _ _ w1) as [[[]|e] w2]; [|done]. cbn in Hd. destruct (Hkeep w2 Hd).
      destruct sessions, answered; [by intros [= <- <-] | by apply IH..].
Qed.
End Rows.

Section Properties.
Context `{Env}.

(** The pipeline and the clean-up of [route]. *)
Lemma route_run event w r w' :
  route event w = (r, w') ->
  exists w1, route_impl event w = (r, w1)
    /\ w' = match staged_attachment_path event with
            | Some path => on_staged (delete path) w1
            | None => w1
            end.
Proof.
  unfold route, mbind, catch, lift, modify. destruct (route_impl event w) as [r1 w1].
  destruct (staged_attachment_path event); intros [= <- <-]; eauto.
Qed.

Lemma route_impl_conclusion event w o w' :
  route_impl event w = (Ok o, w') ->
  match o with Delivered _ | Answered _ => True | Dropped _ | Pending _ => quiet w w' end.
Proof.
  assert (forall w mg ag reason d w1, (record_drop event mg ag reason ;; ret (Dropped d)) w = (Ok o, w1) ->
            o = Dropped d /\ quiet w w1) as Hd.
  { intros w0 mg ag reason d w1. unfold mbind at 1.
    pose proof (keeps_record_drop (R:=quiet) event mg ag reason w0) as Hk.
    destruct (record_drop _ _ _ _ w0) as [[[]|e] w2]; [|done]. by intros [= <- <-]. }
  unfold route_impl. unfold mbind at 1. pose proof (keeps_debounced (R:=quiet) event w) as Hb.
  destruct (debounced event w) as [[[]|e] w1]; [by intros [= <- <-] | | done]. cbn in Hb.
  unfold mbind at 1, gets at 1. destruct (get_by_platform _ _ _) as [mg|];
    [|intros E; apply Hd in E as [-> Hq]; by transitivity w1].
  cbv zeta. destruct (channel_gate _ _) as [[| reason |]|];
    [| intros E; apply Hd in E as [-> Hq]; by transitivity w1 | |].
  all: unfold mbind at 1, gets at 1; destruct (list_for_mg _ _) as [|wiring ws];
    [intros E; apply Hd in E as [-> Hq]; by transitivity w1|].
  all: intros E; apply fanout_conclusion in E; destruct o; [done | done | |];
    destruct E as (_ & _ & Hq); by transitivity w1.
Qed.

Lemma rejected_writes_nothing_aux event w o w' :
  route event w = (Ok o, w') ->
  match o with Delivered _ | Answered _ => True | Dropped _ | Pending _ => quiet w w' end.
Proof.
  intros E. apply route_run in E as (w1 & E & ->). apply route_impl_conclusion in E.
  destruct o; [done | done | |]; (destruct (staged_attachment_path event); exact E).
Qed.

(** C3. A refused message leaves no trace in any session: when the router
    reports that it dropped a message or that the message waits for an
    approval, whichever gate decided it and however many wirings were tried,
    every session's inbox and outbox is as it was and no session was woken. *)
Theorem rejected_writes_nothing event w o w' :
  route event w = (Ok o, w') ->
  match o with
  | Delivered _ | Answered _ => True
  | Dropped _ | Pending _ => quiet w w'
  end.
Proof. apply rejected_writes_nothing_aux. Qed.

(** Routing releases what it holds, whatever happens: on every outcome,
    errors included, the set of sessions being routed to is the one before,
    and the file the adapter staged for the event is gone. *)
Theorem route_releases event w :
  w_inflight (snd (route event w)) = w_inflight w
  /\ forall path, staged_attachment_path event = Some path -> w_staged (snd (route event w)) !! path = None.
Proof.
  split; [apply (keeps_route (R:=same w_inflight))|].
  intros path Hp. destruct (route event w) as [r w'] eqn:E.
  apply route_run in E as (w1 & _ & ->). rewrite Hp. apply lookup_delete_eq.
Qed.

(** What the router reports as delivered is there: after [Delivered] every
    record names an unread row of its session's inbox, and after [Answered] a
    reply in its session's outbox, with the record's id and number and the
    address of the chat the event came from; and the report is never empty.
    Later wirings of the same event do not disturb the rows of earlier ones. *)
Theorem reported_rows_exist event w o w' :
  route event w = (Ok o, w') ->
  match o with
  | Delivered ds => ds <> [] /\ Forall (fun d => delivered_row event d w') ds
  | Answered ds => ds <> [] /\ Forall (fun d => answer_row event d w') ds
  | Dropped _ | Pending _ => True
  end.
Proof.
  intros E. apply route_run in E as (w1 & E & ->).
  set (Q := fun (o : RouteOutcome) (w : World) => match o with
                | Delivered ds => ds <> [] /\ Forall (fun d => delivered_row event d w) ds
                | Answered ds => ds <> [] /\ Forall (fun d => answer_row event d w) ds
                | Dropped _ | Pending _ => True
                end).
  assert (Q o w1) as HQ.
  { revert E. assert (triple (fun _ => True) (route_impl event) Q) as H1; [|intros E; by eapply H1].
    unfold route_impl. repeat triple_step.
    all: intros w0 o0 w0' _; apply fanout_rows; by constructor. }
  unfold Q in HQ. destruct (staged_attachment_path event); [|exact HQ]. exact HQ.
Qed.

(** C4. Routing keeps the tables well formed, on every path and whatever
    fails: inbox rows keep unique ids and growing even numbers, outbox rows
    odd ones, and no event ever makes a second session for the same agent,
    chat and thread. *)
Theorem route_preserves_tables event w : tables_wf w -> tables_wf (snd (route event w)).
Proof. apply (keeps_route (R:=keeps_wf)). Qed.

(** *** Duplicates *)

Lemma route_one_not_debounced event mg g wiring user command :
  returns (fun o => o <> FDropped Debounced) (route_one event mg g wiring user command).
Proof.
  unfold route_one.
  repeat first
    [ returns_step
    | apply returns_inflight; intros w0 o w0' E; apply in_session_writes in E; by destruct o ].
Qed.

Lemma fanout_not_debounced event mg user command wirings sessions answered pending :
  returns (fun o => o <> Dropped Debounced) (fanout event mg user command wirings sessions answered pending).
Proof.
  revert sessions answered pending. induction wirings as [|wiring ws IH]; intros; cbn [fanout].
  - apply returns_ret. unfold conclude. by destruct sessions, answered, pending.
  - intros w o w'. unfold mbind at 1, modify. unfold mbind at 1.
    destruct (route_one _ _ _ _ _ _ _) as [[out|e] w1] eqn:E1; [|done].
    apply route_one_not_debounced in E1. destruct out as [d|d|reason|reason]; try apply IH.
    unfold mbind at 1. destruct (record_drop _ _ _ _ w1) as [[[]|e] w2]; [|done].
    destruct sessions, answered; try apply IH. intros [= <- <-] [= ->]. done.
Qed.

Lemma route_rest_not_debounced event w w1 o w' :
  debounced event w = (Ok false, w1) -> route_impl event w = (Ok o, w') -> o <> Dropped Debounced.
Proof.
  intros Hd. unfold route_impl. unfold mbind at 1. rewrite Hd. cbv zeta iota.
  assert (forall k : RM RouteOutcome, returns (fun o => o <> Dropped Debounced) k -> k w1 = (Ok o, w') ->
            o <> Dropped Debounced) as Hk by (intros k Hk; apply Hk).
  apply Hk.
  repeat returns_step; apply fanout_not_debounced.
Qed.

(** The same state at another reading of the monotonic clock. *)
Definition at_time (t : instant) (w : World) : World :=
  mkRouterWorld (w_sessions w) (w_groups w) (w_wirings w) (w_agent_names w) (w_dropped w)
    (w_unregistered w) (w_stores w) (w_staged w) (w_debounce w) (w_inflight w) (w_fanout w)
    (w_wakes w) (w_fresh w) t (w_wall w).

Lemma route_impl_debounce event w :
  w_debounce (snd (route_impl event w))
  = snd (check_and_record (w_debounce w) (debounce_key event) (w_mono w)).
Proof.
  unfold route_impl. unfold mbind at 1, debounced.
  destruct (check_and_record _ _ _) as [dup m] eqn:E. cbn [snd].
  match goal with |- w_debounce (snd (?k ?w1)) = _ =>
    assert (keeps (same w_debounce) k) as Hk; [|apply (Hk w1)] end.
  destruct dup; split_steps.
Qed.

(** An event is routed at most once per window: once it has been routed,
    an event with the same channel, chat, thread and message id is dropped as
    a duplicate exactly while less than half a second has passed, and such a
    duplicate writes nothing. *)
Theorem duplicates_dropped event event' w t :
  debounce_key event' = debounce_key event ->
  fst (route event w) <> Ok (Dropped Debounced) ->
  w_mono w <= t ->
  let w1 := at_time t (snd (route event w)) in
  (fst (route event' w1) = Ok (Dropped Debounced) <-> t < w_mono w + DEBOUNCE_WINDOW)
  /\ (t < w_mono w + DEBOUNCE_WINDOW -> quiet w1 (snd (route event' w1))).
Proof.
  intros Hkey Hfirst Ht w1.
  assert (w_debounce w1 !! debounce_key event' = Some (w_mono w)) as Hrec.
  { unfold w1. cbn. destruct (route event w) as [r w'] eqn:E. apply route_run in E as (w2 & E & ->).
    assert (w_debounce w2 !! debounce_key event' = Some (w_mono w)) as H2;
      [|by destruct (staged_attachment_path event)].
    pose proof (route_impl_debounce event w) as Hd. rewrite E in Hd. cbn in Hd. rewrite Hd, Hkey.
    unfold check_and_record. destruct (w_debounce w !! debounce_key event) as [prev|] eqn:Ep;
      [|apply lookup_insert_eq].
    destruct (sat_sub (w_mono w) prev <? DEBOUNCE_WINDOW) eqn:El; [|apply lookup_insert_eq].
    exfalso. apply Hfirst. revert E. unfold route_impl, mbind at 1, debounced, check_and_record.
    rewrite Ep, El. by intros [= <- _]. }
  assert (check_and_record (w_debounce w1) (debounce_key event') (w_mono w1)
          = if t <? w_mono w + DEBOUNCE_WINDOW then (true, w_debounce w1)
            else (false, <[debounce_key event' := t]> (w_debounce w1))) as Hc.
  { unfold check_and_record. rewrite Hrec. change (w_mono w1) with t. unfold sat_sub, DEBOUNCE_WINDOW, ns_per_ms.
    destruct (Z.ltb_spec (Z.max 0 (t - w_mono w)) (500 * 1000000)),
      (Z.ltb_spec t (w_mono w + 500 * 1000000)); try lia; done. }
  destruct (route event' w1) as [r w'] eqn:E. pose proof E as E0. apply route_run in E as (w2 & E & Ew).
  cbn [fst snd]. destruct (Z.ltb_spec t (w_mono w + DEBOUNCE_WINDOW)) as [Hl|Hl].
  - assert (r = Ok (Dropped Debounced)) as ->.
    { revert E. unfold route_impl, mbind at 1, debounced. rewrite Hc. by intros [= <- _]. }
    split; [done|]. intros _. by apply rejected_writes_nothing_aux in E0.
  - split; [|lia]. split; [|lia]. intros ->. exfalso.
    assert (debounced event' w1 = (Ok false, set_debounce (<[debounce_key event' := t]> (w_debounce w1)) w1))
      as Hd by (unfold debounced; by rewrite Hc).
    by apply (route_rest_not_debounced event' w1 _ (Dropped Debounced) w2 Hd E).
Qed.

(** *** Wakes and work *)

Lemma triple_quiet {A} w0 (m : RM A) : keeps quiet m -> triple (quiet w0) m (fun _ => quiet w0).
Proof. intros Hm w a w' Hq E. specialize (Hm w). rewrite E in Hm. by transitivity w. Qed.

(** Session [sid] gained one inbox row, [row]; nothing else changed in any
    inbox, and [n] wakes were sent. *)
Definition gained (w0 : World) (sid : uuid) (row : in_row) (n : nat) (w : World) : Prop :=
  (forall sid', st_inbox (store_of w sid')
                = if decide (sid' = sid) then st_inbox (store_of w0 sid) ++ [row]
                  else st_inbox (store_of w0 sid'))
  /\ w_wakes w = (w_wakes w0 + n)%nat.

Lemma gained_insert w0 sid msg :
  triple (quiet w0) (insert_inbound sid msg) (fun seq => gained w0 sid (pending_row msg seq) 0).
Proof.
  intros w seq w' [Hq Hw]. rewrite insert_inbound_run.
  destruct (insert _ msg) as [[n t]|e] eqn:E; [|done]. apply insert_snoc in E.
  intros [= <- <-]. split; [|cbn; lia]. intros sid'. rewrite store_of_on_store.
  destruct (decide (sid' = sid)) as [->|]; [|apply Hq]. cbn. rewrite E. f_equal. apply Hq.
Qed.

Lemma gained_wake w0 sid row (b : bool) :
  triple (gained w0 sid row 0) (if b then notify_one else ret tt)
    (fun _ => gained w0 sid row (if b then 1 else 0)).
Proof.
  intros w [] w' [Hg Hw]. destruct b; intros [= <-]; (split; [exact Hg|]); cbn in *; lia.
Qed.

(** The event asks for a turn: it is neither [/stop] nor a reaction. *)
Definition asks_for_turn (event : InboundEvent) (command : option ParsedCommand) : bool :=
  negb (match command with Some (Bare Stop) => true | _ => false end)
  && negb (is_reaction_content (im_content (ev_message event))).

Lemma is_reaction_jset k v j :
  k <> "reaction"%string -> is_reaction_content (jset k v j) = is_reaction_content j.
Proof. intros Hk. unfold is_reaction_content. by rewrite jget_jset_other. Qed.

Lemma materialized_reaction event session :
  returns (fun c => is_reaction_content c = is_reaction_content (im_content (ev_message event)))
    (materialized_content event session).
Proof.
  unfold materialized_content.
  repeat first [returns_step | apply returns_ret; by rewrite is_reaction_jset].
Qed.

Lemma passthrough_reaction cmd c t : is_reaction_content (passthrough_content cmd c t) = is_reaction_content c.
Proof.
  unfold passthrough_content, preserve_original. cbv zeta.
  destruct (rstr_eqb _ _); rewrite !is_reaction_jset by done; by destruct c.
Qed.

Lemma shape_row_trigger event command content :
  is_reaction_content content = is_reaction_content (im_content (ev_message event)) ->
  snd (shape_row event command content) = asks_for_turn event command.
Proof.
  intros Hc. unfold shape_row, asks_for_turn.
  destruct command as [[[]|]|]; cbn [snd fst negb andb]; rewrite ?passthrough_reaction, ?Hc; done.
Qed.

Lemma write_message_gained w0 event session command :
  triple (quiet w0) (write_message event session command)
    (fun o w => exists d row, o = FDelivered d /\ dt_session_id d = ts_id session
       /\ mi_trigger (ir_row row) = asks_for_turn event command
       /\ mi_process_after (ir_row row) = None /\ is_pending row = true
       /\ gained w0 (ts_id session) row (if asks_for_turn event command then 1 else 0) w).
Proof.
  unfold write_message.
  eapply (triple_bind _ _ (fun content w => quiet w0 w /\ is_reaction_content content
                             = is_reaction_content (im_content (ev_message event)))).
  { intros w content w' Hq E. split; [|by eapply materialized_reaction].
    eapply triple_quiet; [|exact Hq | exact E]. split_steps. }
  intros content. apply triple_when. intros Hc. apply shape_row_trigger with (command := command) in Hc.
  eapply triple_bind; [apply triple_quiet; split_steps | intros []].
  eapply triple_bind; [apply triple_quiet; split_steps | intros id].
  destruct (shape_row event command content) as [[kind content'] trigger]. cbn in Hc. subst trigger. cbv zeta.
  eapply triple_bind; [apply gained_insert | intros seq].
  eapply triple_bind; [apply gained_wake | intros []].
  apply triple_ret. intros w Hg. do 2 eexists.
  split; [reflexivity|]. split; [reflexivity|]. split; [|split; [|split; [|exact Hg]]]; reflexivity.
Qed.

Definition gains (w : World) (event : InboundEvent) (command : option ParsedCommand)
  (o : FanoutOutcome) (w' : World) : Prop :=
  match o with
  | FDelivered d =>
      exists row, mi_trigger (ir_row row) = asks_for_turn event command
        /\ mi_process_after (ir_row row) = None /\ is_pending row = true
        /\ gained w (dt_session_id d) row (Z.to_nat (if asks_for_turn event command then 1 else 0)) w'
  | _ => True
  end.

Lemma in_session_gains w event session command :
  triple (quiet w) (in_session event session command) (gains w event command).
Proof.
  assert (triple (quiet w) (write_message event session command) (gains w event command)) as Hm.
  { intros w1 o1 w1' Hq E.
    apply (write_message_gained w) in E as (d & row & -> & Hd & Ht & Hp & Hi & Hg); [|done].
    exists row. rewrite Hd. do 3 (split; [done|]). by destruct (asks_for_turn event command). }
  assert (forall m : RM FanoutOutcome,
            returns (fun o => match o with FDelivered _ => False | _ => True end) m ->
            triple (quiet w) m (gains w event command)) as Ha
    by (intros m Hm' w1 o1 w1' _ E; apply Hm' in E; by destruct o1).
  unfold in_session.
  destruct command as [[[]|]|]; try exact Hm; apply Ha;
    unfold answer_status, answer_projects, answer_switch, write_host_reply;
    repeat first [apply returns_bind; intros | by apply returns_ret | case_match].
Qed.

Lemma route_one_gains w event mg g wiring user command :
  triple (quiet w) (route_one event mg g wiring user command) (gains w event command).
Proof.
  unfold route_one.
  repeat first
    [ match goal with
      | |- triple _ (ret _) _ => by apply triple_ret
      | |- triple _ (match ?x with _ => _ end) _ => destruct x
      | |- triple _ (let _ := _ in _) _ => cbv zeta
      | |- triple _ (mbind _ _) _ =>
          eapply triple_bind; [apply triple_quiet; solve [split_steps] | intros ?]
      end
    | apply triple_inflight; [done | by intros [] | apply in_session_gains] ].
Qed.

Lemma count_due_snoc t r now :
  count_due (t ++ [r]) now
  = count_due t now + (if is_pending r && mi_trigger (ir_row r) && is_due now r then 1 else 0).
Proof.
  unfold count_due, sql_count. rewrite List.filter_app, length_app. cbn. case_goal; cbn; lia.
Qed.

(** Waking follows work: a delivery puts exactly one row into one inbox,
    whatever the wiring's gates did before.  A wake is sent exactly when the
    row asks for a turn, and then the session's due work grew by one at every
    later time; [/stop] and reactions neither wake nor add due work. *)
Theorem wake_follows_work event mg g wiring user command w d w' :
  route_one event mg g wiring user command w = (Ok (FDelivered d), w') ->
  let n := if asks_for_turn event command then 1 else 0 in
  w_wakes w' = (w_wakes w + Z.to_nat n)%nat
  /\ (forall now, count_due (st_inbox (store_of w' (dt_session_id d))) now
                  = count_due (st_inbox (store_of w (dt_session_id d))) now + n)
  /\ (forall sid, sid <> dt_session_id d -> st_inbox (store_of w' sid) = st_inbox (store_of w sid)).
Proof.
  intros E n.
  assert (exists row, mi_trigger (ir_row row) = asks_for_turn event command
            /\ mi_process_after (ir_row row) = None /\ is_pending row = true
            /\ gained w (dt_session_id d) row (Z.to_nat n) w') as (row & Ht & Hp & Hpend & Hg & Hw).
  { by apply (route_one_gains w event mg g wiring user command w (FDelivered d) w'). }
  split; [done|]. split.
  - intros now. rewrite Hg, decide_True by done. rewrite count_due_snoc, Hpend, Ht. unfold is_due, due.
    rewrite Hp. unfold n. by destruct (asks_for_turn event command).
  - intros sid Hne. by rewrite Hg, decide_False.
Qed.

(** *** Attachments *)

Lemma assoc_in {A} k (o : list (string * A)) v : assoc k o = Some v -> In (k, v) o.
Proof.
  induction o as [|[k' v'] o IH]; cbn; [done|]. destruct (String.eqb_spec k k') as [->|].
  - intros [= ->]. by left.
  - intros Hv. right. by apply IH.
Qed.
Lemma assoc_none {A} k (o : list (string * A)) : ~ In k (map fst o) -> assoc k o = None.
Proof.
  induction o as [|[k' v'] o IH]; cbn; [done|]. intros Hn.
  destruct (String.eqb_spec k k') as [->|]; [exfalso; apply Hn; by left|].
  apply IH. intros Hin. apply Hn. by right.
Qed.

Lemma swap_remove_gone k o : List.NoDup (map fst o) -> assoc k (swap_remove k o) = None.
Proof.
  intros Hnd. unfold swap_remove. destruct (assoc k o) as [v|] eqn:E; [|done].
  destruct (rev o) as [|[k' v'] front] eqn:Er; [done|].
  assert (o = rev front ++ [(k', v')]) as Eo by (rewrite <- (rev_involutive o), Er; done).
  rewrite Eo, map_app in Hnd. cbn in Hnd.
  destruct (String.eqb_spec k k') as [->|Hne].
  - apply assoc_none. apply NoDup_remove_2 in Hnd. by rewrite app_nil_r in Hnd.
  - apply assoc_none. intros Hin. rewrite map_map in Hin. apply in_map_iff in Hin as ([k1 v1] & E1 & _).
    cbn in E1. destruct (String.eqb_spec k k1); cbn in E1; congruence.
Qed.

Definition file_name (att : list (string * json)) : rstr :=
  sanitize_filename (Some (default [] (jget_str "filename" (JObj (swap_remove "staged_path" att)))))
    FALLBACK_FILENAME.

Section Attachment.
Context (event : InboundEvent) (session : TargetSession) (w : World)
  (att : list (string * json)) (staged bytes : rstr).
Let key := (msg_component event, file_name att).
Let sid := ts_id session.

(** The event carries a staged file that can be read, and the inbox of the
    session can be written. *)
Definition staged_file : Prop :=
  jget "attachment" (im_content (ev_message event)) = Some (JObj att)
  /\ List.NoDup (map fst att)
  /\ jget_str "staged_path" (JObj att) = Some staged
  /\ w_staged w !! staged = Some bytes
  /\ dir_error sid = None /\ inbox_file_error sid key = None.

(** The content of the row names, as the container sees it, the file kept
    under [key], and not the host's path. *)
Definition names_file (content : json) : Prop :=
  exists att', jget "attachment" content = Some (JObj att')
    /\ jget_str "path" (JObj att') = Some (container_inbox_path (fst key) (snd key))
    /\ jget "staged_path" (JObj att') = None
    /\ jget "error" (JObj att') = jget "error" (JObj (swap_remove "staged_path" att)).

Lemma materialized_run :
  staged_file ->
  exists content w', materialized_content event session w = (Ok content, w') /\ names_file content
    /\ st_inbox_files (store_of w' sid) !! key
       = Some (default bytes (st_inbox_files (store_of w sid) !! key)).
Proof.
  intros (Hatt & Hnd & Hst & Hby & Hdir & Hio). unfold materialized_content. rewrite Hatt, Hst. cbv zeta.
  fold (file_name att). unfold mbind at 1, ensure_session_dir, mbind at 1, or_fail. fold sid. rewrite Hdir.
  unfold ret at 1, modify. set (w1 := on_store sid _ w). unfold mbind at 1, copy_staged_into_inbox.
  unfold mbind at 1, gets. change (w_staged w1) with (w_staged w). rewrite Hby.
  unfold extract_to_inbox. unfold file_name at 1. rewrite !sanitized_safe by done. fold (file_name att).
  unfold msg_component at 1. rewrite sanitized_safe by done. fold key. rewrite Hio.
  assert (st_inbox_files (store_of w1 sid) = st_inbox_files (store_of w sid)) as Hf.
  { unfold w1. by rewrite store_of_on_store, decide_True. }
  assert (forall o, names_file (jset "attachment" (JObj (assoc_insert "path" (JStr (container_inbox_path
            (msg_component event) (file_name att))) (assoc_insert "filename" o (swap_remove "staged_path" att))))
            (im_content (ev_message event)))) as Hn.
  { intros o. eexists. split.
    { destruct (im_content (ev_message event)); try discriminate Hatt. apply jget_jset_same. }
    split; [unfold jget_str, jget; by rewrite assoc_insert_same|].
    unfold jget. rewrite !assoc_insert_other by done. split; [by apply swap_remove_gone | done]. }
  rewrite Hf. destruct (st_inbox_files (store_of w sid) !! key) as [old|] eqn:Eo.
  - do 2 eexists. split; [reflexivity|]. split; [apply Hn|]. by rewrite Hf, Eo.
  - do 2 eexists. split; [reflexivity|]. split; [apply Hn|].
    unfold modify. cbn [snd]. rewrite store_of_on_store, decide_True by done. apply lookup_insert_eq.
Qed.
End Attachment.

(** An attachment reaches the agent: when the inbox has no file of that
    name yet, the row's content names, under the path the container sees,
    exactly the file the adapter staged, and the host's path is gone. *)
Theorem attachment_reaches_agent event session w att staged bytes :
  staged_file event session w att staged bytes ->
  let key := (msg_component event, file_name att) in
  st_inbox_files (store_of w (ts_id session)) !! key = None ->
  exists content w', materialized_content event session w = (Ok content, w')
    /\ names_file event att content
    /\ st_inbox_files (store_of w' (ts_id session)) !! key = Some bytes.
Proof.
  intros Hs key Hnone. destruct (materialized_run event session w att staged bytes Hs)
    as (content & w' & E & Hn & Hf).
  exists content, w'. split; [done|]. split; [done|]. unfold key in *. by rewrite Hf, Hnone.
Qed.

(** A name that is taken is taken for delivered: when the session's inbox
    already holds another file under the sanitised message id and name, the
    message is routed as if its own file had been copied, without an error
    note, and its content points the agent at the other message's file.
    Platform message ids are unique only within a chat, and different ids can
    have one sanitised form, while one session may serve several chats. *)
Theorem attachment_collision event session w att staged bytes other :
  staged_file event session w att staged bytes ->
  let key := (msg_component event, file_name att) in
  st_inbox_files (store_of w (ts_id session)) !! key = Some other -> other <> bytes ->
  exists content w', materialized_content event session w = (Ok content, w')
    /\ names_file event att content
    /\ st_inbox_files (store_of w' (ts_id session)) !! key = Some other.
Proof.
  intros Hs key Hold _. destruct (materialized_run event session w att staged bytes Hs)
    as (content & w' & E & Hn & Hf).
  exists content, w'. split; [done|]. split; [done|]. unfold key in *. by rewrite Hf, Hold.
Qed.

(** The first refusal decides for every wiring: when no earlier wiring
    took the message, a wiring that drops it ends the fan-out, and the
    wirings after it (of lower priority, possibly of other agents that would
    take the message) are never tried. *)
Theorem first_refusal_ends_fanout event mg user command wiring rest pending w reason w1 :
  route_one event (mg_id mg) (mg_is_group mg) wiring user command (count_fanout w)
    = (Ok (FDropped reason), w1) ->
  fanout event mg user command (wiring :: rest) [] [] pending w
  = fanout event mg user command [wiring] [] [] pending w.
Proof.
  intros E. cbn [fanout]. unfold mbind, modify. by rewrite E.
Qed.
End Properties.

(** ** A concrete router *)

Module Demo.
(** No hooks, the default mention policy, and files that can be written. *)
Definition env : Env :=
  {| sender_resolver := None; access_gate := None; sender_scope_gate := None;
     channel_request_gate := None; approval_interceptor := None;
     Router.mention_gate := default_gate; regex := fun _ => Some (fun _ => true);
     uuid_text := show_z; to_rfc3339 := show_z; db_error_text := fun _ => lit "database";
     clock_after := fun t => t + 1; dir_error := fun _ => None; inbound_error := fun _ => None;
     outbound_error := fun _ => None; staged_error := fun _ => lit "missing";
     inbox_file_error := fun _ _ => None; workspace_error := fun _ _ => None;
     shell_state_error := fun _ => None |}.

Definition chat (id : uuid) (pid : string) (is_group : bool) : MessagingGroup :=
  mkMessagingGroup id "telegram" pid None is_group (lit "open") None 0.
Definition wiring (id mg ag : uuid) (mode : EngageMode) (pattern : option string) (priority : Z)
  : MessagingGroupAgent :=
  mkWiring id mg ag mode pattern "all" "drop" AgentShared priority 0.
Definition world (wirings : list MessagingGroupAgent) : World :=
  mkRouterWorld [] [chat 1 "100" false; chat 2 "200" false; chat 3 "300" true] wirings
    (<[10 := lit "ops"]> (<[11 := lit "dev"]> ∅)) [] [] ∅
    (<[lit "/stage/a" := lit "AAA"]> (<[lit "/stage/b" := lit "BBB"]> ∅)) ∅ ∅ 0 0 100 0 0.

Definition event (pid id : string) (content : json) : InboundEvent :=
  mkEvent "telegram" pid None (mkInboundMessage (lit id) Chat content 0 None None) None None.
Definition text (t : string) : json := JObj [("text"%string, JStr (lit t))].
Definition attachment (path : string) : list (string * json) :=
  [("staged_path", JStr (lit path)); ("filename", JStr (lit "report.pdf"))]%string.
Definition with_file (path : string) : json := JObj [("attachment"%string, JObj (attachment path))].

(** Both chats talk to one session of agent 10. *)
Definition shared : World := world [wiring 1 1 10 Mention None 0; wiring 2 2 10 Mention None 0].
(** A group chat with two agents; the second answers a pattern. *)
Definition group : World := world [wiring 1 3 10 Mention None 5; wiring 2 3 11 Pattern (Some "deploy"%string) 0].
End Demo.

Module Witnesses.
#[local] Existing Instance Demo.env.

Definition hello : InboundEvent := Demo.event "100" "m1" (Demo.text "hi").
Definition deploy : InboundEvent := Demo.event "300" "m1" (Demo.text "deploy now").
Definition first_file : InboundEvent := Demo.event "100" "42" (Demo.with_file "/stage/a").
Definition second_file : InboundEvent := Demo.event "200" "42" (Demo.with_file "/stage/b").

Lemma rejected_writes_nothing_witness : quiet Demo.group (snd (route deploy Demo.group)).
Proof.
  apply (rejected_writes_nothing deploy Demo.group (Dropped MentionGated) (snd (route deploy Demo.group))).
  vm_compute. reflexivity.
Defined.

Lemma route_releases_witness :
  w_inflight (snd (route first_file Demo.shared)) = w_inflight Demo.shared
  /\ w_staged (snd (route first_file Demo.shared)) !! lit "/stage/a" = None.
Proof.
  destruct (route_releases first_file Demo.shared) as [H1 H2]. split; [exact H1|].
  apply H2. vm_compute. reflexivity.
Defined.

Lemma reported_rows_exist_witness :
  delivered_row hello (mkDeliveredTo 10 100 101 2) (snd (route hello Demo.shared)).
Proof.
  destruct (reported_rows_exist hello Demo.shared (Delivered [mkDeliveredTo 10 100 101 2])
              (snd (route hello Demo.shared))) as [_ Hd]; [vm_compute; reflexivity|].
  exact (Forall_inv Hd).
Defined.

Lemma shared_wf : tables_wf Demo.shared.
Proof.
  split; [|split; constructor]. intros sid. split; [apply MessagesIn.wf_nil|].
  apply numbered_nil.
Qed.
Lemma route_preserves_tables_witness : tables_wf (snd (route hello Demo.shared)).
Proof. apply (route_preserves_tables hello Demo.shared). exact shared_wf. Defined.

Lemma duplicates_dropped_witness :
  let w1 := snd (route hello Demo.shared) in
  fst (route hello (at_time 499999999 w1)) = Ok (Dropped Debounced)
  /\ fst (route hello (at_time 500000000 w1)) <> Ok (Dropped Debounced).
Proof.
  assert (fst (route hello Demo.shared) <> Ok (Dropped Debounced)) as Hf by (vm_compute; discriminate).
  split.
  - apply (proj1 (duplicates_dropped hello hello Demo.shared 499999999 eq_refl Hf ltac:(vm_compute; discriminate))).
    vm_compute. reflexivity.
  - intros E.
    apply (proj1 (duplicates_dropped hello hello Demo.shared 500000000 eq_refl Hf ltac:(vm_compute; discriminate))) in E.
    vm_compute in E. discriminate.
Defined.

Lemma wake_follows_work_witness :
  exists w', route_one hello 1 false (Demo.wiring 1 1 10 Mention None 0) None None Demo.shared
             = (Ok (FDelivered (mkDeliveredTo 10 100 101 2)), w')
    /\ w_wakes w' = 1%nat /\ count_due (st_inbox (store_of w' 100)) 7 = 1.
Proof.
  exists (snd (route_one hello 1 false (Demo.wiring 1 1 10 Mention None 0) None None Demo.shared)).
  assert (route_one hello 1 false (Demo.wiring 1 1 10 Mention None 0) None None Demo.shared
          = (Ok (FDelivered (mkDeliveredTo 10 100 101 2)),
             snd (route_one hello 1 false (Demo.wiring 1 1 10 Mention None 0) None None Demo.shared))) as E
    by (vm_compute; reflexivity).
  destruct (wake_follows_work hello 1 false (Demo.wiring 1 1 10 Mention None 0) None None Demo.shared
              (mkDeliveredTo 10 100 101 2) _ E) as (H1 & H2 & _).
  split; [exact E|]. split; [exact H1 | exact (H2 7)].
Defined.

Lemma attachment_reaches_agent_witness :
  exists content w', materialized_content first_file (mkTarget 10 100) Demo.shared = (Ok content, w')
    /\ st_inbox_files (store_of w' 100) !! (lit "42", lit "report.pdf") = Some (lit "AAA").
Proof.
  destruct (attachment_reaches_agent first_file (mkTarget 10 100) Demo.shared (Demo.attachment "/stage/a")
              (lit "/stage/a") (lit "AAA")) as (content & w' & E & _ & Hf).
  - repeat split; try (vm_compute; reflexivity). repeat constructor; cbn; intuition discriminate.
  - vm_compute. reflexivity.
  - exists content, w'. split; [exact E | exact Hf].
Defined.

(** The second chat's file is lost: its row points at the first chat's. *)
Lemma attachment_collision_witness :
  let w1 := snd (route first_file Demo.shared) in
  exists content w', materialized_content second_file (mkTarget 10 100) w1 = (Ok content, w')
    /\ names_file second_file (Demo.attachment "/stage/b") content
    /\ st_inbox_files (store_of w' 100) !! (lit "42", lit "report.pdf") = Some (lit "AAA").
Proof.
  intros w1.
  destruct (attachment_collision second_file (mkTarget 10 100) w1 (Demo.attachment "/stage/b")
              (lit "/stage/b") (lit "BBB") (lit "AAA")) as (content & w' & E & Hn & Hf).
  - repeat split; try (vm_compute; reflexivity). repeat constructor; cbn; intuition discriminate.
  - vm_compute. reflexivity.
  - vm_compute. discriminate.
  - exists content, w'. split; [exact E|]. split; [exact Hn | exact Hf].
Defined.

(** The agent that answers the pattern would take the message. *)
Lemma first_refusal_ends_fanout_witness :
  let a := Demo.wiring 1 3 10 Mention None 5 in
  let b := Demo.wiring 2 3 11 Pattern (Some "deploy"%string) 0 in
  let mg := Demo.chat 3 "300" true in
  fanout deploy mg None None [a; b] [] [] None Demo.group
  = fanout deploy mg None None [a] [] [] None Demo.group
  /\ fst (fanout deploy mg None None [a; b] [] [] None Demo.group) = Ok (Dropped MentionGated)
  /\ fst (fanout deploy mg None None [b] [] [] None Demo.group)
     = Ok (Delivered [mkDeliveredTo 11 100 101 2]).
Proof.
  intros a b mg. split; [|split; vm_compute; reflexivity].
  apply (first_refusal_ends_fanout deploy mg None None a [b] None Demo.group MentionGated
           (snd (route_one deploy (mg_id mg) (mg_is_group mg) a None None (count_fanout Demo.group)))).
  vm_compute. reflexivity.
Defined.
End Witnesses.
