(* ===== verification/Approvals.v ===== *)
(** Human approvals ([copperclaw-db/src/tables/pending_approvals.rs],
    [users.rs], [user_roles.rs], the approval columns of
    [container_configs.rs]; [copperclaw-host/src/handlers/approvals.rs],
    [approval_intercept.rs]): the table of requests with its decision log, the
    handlers that settle a request and apply its effect, and the in-chat tap
    that resolves one.

    The rows of other tables an effect writes are part of the state; the
    skills crate, the file system and the parsers of ids and dates are
    parameters.  Metrics and logs are left out; the JSON of a response is the
    record [Resolution]. *)
From S2P Require Import Prelude Gate Grants Types Central.

(** ** The table *)

Module Approval.
Inductive ApprovalStatus : Type := Pending | Approved | Denied | Expired | Revoked.
#[global] Instance ApprovalStatus_eq_dec : EqDecision ApprovalStatus.
Proof. solve_decision. Defined.
Definition as_str (s : ApprovalStatus) : string :=
  match s with
  | Pending => "pending" | Approved => "approved" | Denied => "denied"
  | Expired => "expired" | Revoked => "revoked"
  end%string.
Definition parse (s : string) : option ApprovalStatus :=
  if String.eqb s "pending" then Some Pending
  else if String.eqb s "approved" then Some Approved
  else if String.eqb s "denied" then Some Denied
  else if String.eqb s "expired" then Some Expired
  else if String.eqb s "revoked" then Some Revoked
  else None.
Definition is_terminal (s : ApprovalStatus) : bool := negb (bool_decide (s = Pending)).
End Approval.
Abbreviation ApprovalStatus := Approval.ApprovalStatus (only parsing).

Inductive DecisionOutcome : Type := Approve | Deny | Expire | Revoke.
#[export] Instance DecisionOutcome_eq_dec : EqDecision DecisionOutcome.
Proof. solve_decision. Defined.

Record PendingApproval : Type := mkApproval {
  pa_approval_id : uuid;
  pa_session_id : option uuid;
  pa_request_id : string;
  pa_action : string;
  pa_payload : json;
  pa_created_at : instant;
  pa_agent_group_id : option uuid;
  pa_channel_type : option string;
  pa_platform_id : option string;
  pa_platform_message_id : option string;
  pa_expires_at : option instant;
  pa_status : ApprovalStatus;
  pa_title : rstr;
  pa_options : list rstr;
}.
Definition is_expired_at (a : PendingApproval) (now : instant) : bool :=
  match pa_expires_at a with Some exp => exp <=? now | None => false end.
Definition is_actionable_at (a : PendingApproval) (now : instant) : bool :=
  bool_decide (pa_status a = Approval.Pending) && negb (is_expired_at a now).

Record ApprovalDecision : Type := mkDecision {
  de_id : Z;
  de_approval_id : uuid;
  de_action : string;
  de_outcome : DecisionOutcome;
  de_decided_by : rstr;
  de_reason : option rstr;
  de_decided_at : instant;
}.

Record UpsertPendingApproval : Type := mkUpsertApproval {
  ua_session_id : option uuid;
  ua_request_id : string;
  ua_action : string;
  ua_payload : json;
  ua_agent_group_id : option uuid;
  ua_channel_type : option string;
  ua_platform_id : option string;
  ua_platform_message_id : option string;
  ua_expires_at : option instant;
  ua_title : rstr;
  ua_options : list rstr;
}.
Definition DEFAULT_APPROVAL_TTL : Z := 3600 * ns_per_s.

Abbreviation approval_table := (list PendingApproval) (only parsing).
Definition pa_has_id (id : uuid) (a : PendingApproval) : bool := pa_approval_id a =? id.
Definition is_pending (a : PendingApproval) : bool := bool_decide (pa_status a = Approval.Pending).

Definition with_status (s : ApprovalStatus) (a : PendingApproval) : PendingApproval :=
  mkApproval (pa_approval_id a) (pa_session_id a) (pa_request_id a) (pa_action a) (pa_payload a)
    (pa_created_at a) (pa_agent_group_id a) (pa_channel_type a) (pa_platform_id a)
    (pa_platform_message_id a) (pa_expires_at a) s (pa_title a) (pa_options a).
Definition with_message_id (pmid : string) (a : PendingApproval) : PendingApproval :=
  mkApproval (pa_approval_id a) (pa_session_id a) (pa_request_id a) (pa_action a) (pa_payload a)
    (pa_created_at a) (pa_agent_group_id a) (pa_channel_type a) (pa_platform_id a)
    (Some pmid) (pa_expires_at a) (pa_status a) (pa_title a) (pa_options a).
(** The columns the [DO UPDATE] branch replaces. *)
Definition asked_again (req : UpsertPendingApproval) (exp : option instant) (a : PendingApproval)
  : PendingApproval :=
  mkApproval (pa_approval_id a) (ua_session_id req) (pa_request_id a) (pa_action a) (ua_payload req)
    (pa_created_at a) (ua_agent_group_id req) (ua_channel_type req) (ua_platform_id req)
    (ua_platform_message_id req) exp (pa_status a) (ua_title req) (ua_options req).
Definition asked (id : uuid) (req : UpsertPendingApproval) (exp : option instant) (now : instant)
  : PendingApproval :=
  mkApproval id (ua_session_id req) (ua_request_id req) (ua_action req) (ua_payload req) now
    (ua_agent_group_id req) (ua_channel_type req) (ua_platform_id req) (ua_platform_message_id req)
    exp Approval.Pending (ua_title req) (ua_options req).
(** The partial unique index on the pending rows. *)
Definition same_request (req : UpsertPendingApproval) (a : PendingApproval) : bool :=
  is_pending a && String.eqb (pa_request_id a) (ua_request_id req)
  && String.eqb (pa_action a) (ua_action req).

Definition approval_get (t : approval_table) (id : uuid) : result DbError PendingApproval :=
  match sql_get (pa_has_id id) t with Some a => Ok a | None => Err NotFound end.
(** [refs]: the session and the agent group the row names exist. *)
Definition approval_upsert (t : approval_table) (refs : bool) (id : uuid) (req : UpsertPendingApproval)
  (now : instant) : result DbError (PendingApproval * approval_table) :=
  let exp := or_else (ua_expires_at req) (Some (now + DEFAULT_APPROVAL_TTL)) in
  if existsb (pa_has_id id) t || negb refs then Err SqliteConstraint
  else
    let t' := if existsb (same_request req) t
              then fst (sql_update (same_request req) (asked_again req exp) t)
              else t ++ [asked id req exp now] in
    match sql_get (same_request req) t' with
    | Some a => let? a' := approval_get t' (pa_approval_id a) in Ok (a', t')
    | None => Err NotFound
    end.
Definition approval_list (t : approval_table) (action : option string) (status : option ApprovalStatus)
  : list PendingApproval :=
  order_by pa_created_at
    (List.filter (fun a => match action with Some s => String.eqb (pa_action a) s | None => true end
                           && match status with Some s => bool_decide (pa_status a = s) | None => true end)
       t).

Definition approval_update (t : approval_table) (id : uuid) (f : PendingApproval -> PendingApproval)
  : result DbError approval_table :=
  let '(t', n) := sql_update (pa_has_id id) f t in
  if (n =? 0)%nat then Err NotFound else Ok t'.
Definition update_status (t : approval_table) (id : uuid) (s : ApprovalStatus)
  : result DbError approval_table := approval_update t id (with_status s).
Definition set_platform_message_id (t : approval_table) (id : uuid) (pmid : string)
  : result DbError approval_table := approval_update t id (with_message_id pmid).

Definition list_decisions (log : list ApprovalDecision) (id : option uuid) (limit : Z)
  : list ApprovalDecision :=
  sql_limit limit
    (order_by (fun d => - de_decided_at d) (order_by (fun d => - de_id d)
       (List.filter (fun d => match id with Some i => de_approval_id d =? i | None => true end) log))).

(** ** Users, roles and container settings *)

Record User : Type := mkUser {
  u_id : uuid;
  u_kind : string;
  u_display_name : option rstr;
  u_created_at : instant;
}.
Inductive Role : Type := Owner | Admin.
Record UserRole : Type := mkUserRole {
  ur_user_id : uuid;
  ur_role : Role;
  ur_agent_group_id : option uuid;
  ur_granted_at : instant;
}.
Definition list_for_user (t : list UserRole) (user : uuid) : list UserRole :=
  order_by ur_granted_at (List.filter (fun r => ur_user_id r =? user) t).
Definition user_has_id (id : uuid) (u : User) : bool := u_id u =? id.
(** [INSERT ... ON CONFLICT(id) DO UPDATE SET display_name = COALESCE(...)]. *)
Definition user_upsert (t : list User) (id : uuid) (kind : string) (name : option rstr) (now : instant)
  : list User :=
  if existsb (user_has_id id) t
  then fst (sql_update (user_has_id id)
              (fun u => mkUser (u_id u) (u_kind u) (or_else name (u_display_name u)) (u_created_at u)) t)
  else t ++ [mkUser id kind name now].

(** The columns approvals write; a fresh row has the defaults.  The servers
    are [None] when the column holds no JSON object. *)
Record ContainerConfig : Type := mkConfig {
  cc_packages_apt : list rstr;
  cc_packages_npm : list rstr;
  cc_mcp_servers : option (gmap rstr json);
  cc_preview_enabled : bool;
}.
Definition default_config : ContainerConfig := mkConfig [] [] (Some ∅) false.
Definition add_once (p : rstr) (l : list rstr) : list rstr :=
  if existsb (rstr_eqb p) l then l else l ++ [p].
Definition add_package_apt (p : rstr) (c : ContainerConfig) : ContainerConfig :=
  mkConfig (add_once p (cc_packages_apt c)) (cc_packages_npm c) (cc_mcp_servers c) (cc_preview_enabled c).
Definition add_package_npm (p : rstr) (c : ContainerConfig) : ContainerConfig :=
  mkConfig (cc_packages_apt c) (add_once p (cc_packages_npm c)) (cc_mcp_servers c) (cc_preview_enabled c).
Definition set_mcp_servers (j : gmap rstr json) (c : ContainerConfig) : ContainerConfig :=
  mkConfig (cc_packages_apt c) (cc_packages_npm c) (Some j) (cc_preview_enabled c).
Definition set_preview_enabled (b : bool) (c : ContainerConfig) : ContainerConfig :=
  mkConfig (cc_packages_apt c) (cc_packages_npm c) (cc_mcp_servers c) b.

(** ** State *)

Record AuditEntry : Type := mkAudit {
  au_ts : instant;
  au_agent_group : uuid;
  au_command : rstr;
  au_args : rstr;
  au_result : string;
  au_error_code : option string;
}.
(** What the dispatcher was asked to put on a channel. *)
Inductive Sent : Type :=
| Reply (channel_type platform_id : string) (thread_id : option string) (text : rstr)
| Edit (channel_type platform_id : string) (thread_id : option string) (message_id : string) (text : rstr).

Record AState : Type := mkAState {
  a_pending : list PendingApproval;
  a_decisions : list ApprovalDecision;
  a_next_decision : Z;
  a_users : list User;
  a_roles : list UserRole;
  a_groups : list MessagingGroup;
  a_configs : gmap uuid ContainerConfig;
  a_agents : gset uuid;
  a_grants : list TaskGrant;
  a_clearances : gmap rstr TaintClearance;
  a_skills : list (rstr * rstr * rstr);
  a_audit : list AuditEntry;
  a_sent : list Sent;
  a_fresh : uuid;
  a_wall : instant;
}.

Definition set_pending (t : list PendingApproval) (w : AState) : AState :=
  mkAState (t) (a_decisions w) (a_next_decision w) (a_users w) (a_roles w) (a_groups w)
    (a_configs w) (a_agents w) (a_grants w) (a_clearances w) (a_skills w) (a_audit w) (a_sent w)
    (a_fresh w) (a_wall w).
Definition push_decision (d : ApprovalDecision) (w : AState) : AState :=
  mkAState (a_pending w) (a_decisions w ++ [d]) (a_next_decision w + 1) (a_users w) (a_roles w)
    (a_groups w) (a_configs w) (a_agents w) (a_grants w) (a_clearances w) (a_skills w) (a_audit w)
    (a_sent w) (a_fresh w) (a_wall w).
Definition drop_decisions (id : uuid) (w : AState) : AState :=
  mkAState (a_pending w)
    (List.filter (fun d => negb (de_approval_id d =? id)) (a_decisions w)) (a_next_decision w)
    (a_users w) (a_roles w) (a_groups w) (a_configs w) (a_agents w) (a_grants w) (a_clearances w)
    (a_skills w) (a_audit w) (a_sent w) (a_fresh w) (a_wall w).
Definition set_users (t : list User) (w : AState) : AState :=
  mkAState (a_pending w) (a_decisions w) (a_next_decision w) (t) (a_roles w) (a_groups w)
    (a_configs w) (a_agents w) (a_grants w) (a_clearances w) (a_skills w) (a_audit w) (a_sent w)
    (a_fresh w) (a_wall w).
Definition set_groups (t : list MessagingGroup) (w : AState) : AState :=
  mkAState (a_pending w) (a_decisions w) (a_next_decision w) (a_users w) (a_roles w) (t)
    (a_configs w) (a_agents w) (a_grants w) (a_clearances w) (a_skills w) (a_audit w) (a_sent w)
    (a_fresh w) (a_wall w).
Definition on_configs (f : gmap uuid ContainerConfig -> gmap uuid ContainerConfig) (w : AState) : AState :=
  mkAState (a_pending w) (a_decisions w) (a_next_decision w) (a_users w) (a_roles w) (a_groups w)
    (f (a_configs w)) (a_agents w) (a_grants w) (a_clearances w) (a_skills w) (a_audit w) (a_sent w)
    (a_fresh w) (a_wall w).
Definition set_grants (t : list TaskGrant) (w : AState) : AState :=
  mkAState (a_pending w) (a_decisions w) (a_next_decision w) (a_users w) (a_roles w) (a_groups w)
    (a_configs w) (a_agents w) (t) (a_clearances w) (a_skills w) (a_audit w) (a_sent w) (a_fresh w)
    (a_wall w).
Definition on_clearances (f : gmap rstr TaintClearance -> gmap rstr TaintClearance) (w : AState) : AState :=
  mkAState (a_pending w) (a_decisions w) (a_next_decision w) (a_users w) (a_roles w) (a_groups w)
    (a_configs w) (a_agents w) (a_grants w) (f (a_clearances w)) (a_skills w) (a_audit w) (a_sent w)
    (a_fresh w) (a_wall w).
Definition add_skill (s : rstr * rstr * rstr) (w : AState) : AState :=
  mkAState (a_pending w) (a_decisions w) (a_next_decision w) (a_users w) (a_roles w) (a_groups w)
    (a_configs w) (a_agents w) (a_grants w) (a_clearances w) (a_skills w ++ [s]) (a_audit w)
    (a_sent w) (a_fresh w) (a_wall w).
Definition add_audit (e : AuditEntry) (w : AState) : AState :=
  mkAState (a_pending w) (a_decisions w) (a_next_decision w) (a_users w) (a_roles w) (a_groups w)
    (a_configs w) (a_agents w) (a_grants w) (a_clearances w) (a_skills w) (a_audit w ++ [e])
    (a_sent w) (a_fresh w) (a_wall w).
Definition send (s : Sent) (w : AState) : AState :=
  mkAState (a_pending w) (a_decisions w) (a_next_decision w) (a_users w) (a_roles w) (a_groups w)
    (a_configs w) (a_agents w) (a_grants w) (a_clearances w) (a_skills w) (a_audit w)
    (a_sent w ++ [s]) (a_fresh w) (a_wall w).
Definition next_fresh (w : AState) : AState :=
  mkAState (a_pending w) (a_decisions w) (a_next_decision w) (a_users w) (a_roles w) (a_groups w)
    (a_configs w) (a_agents w) (a_grants w) (a_clearances w) (a_skills w) (a_audit w) (a_sent w)
    (a_fresh w + 1) (a_wall w).
Definition set_wall (t : instant) (w : AState) : AState :=
  mkAState (a_pending w) (a_decisions w) (a_next_decision w) (a_users w) (a_roles w) (a_groups w)
    (a_configs w) (a_agents w) (a_grants w) (a_clearances w) (a_skills w) (a_audit w) (a_sent w)
    (a_fresh w) (t).

Record ErrorPayload : Type := mkError { ep_code : string; ep_message : rstr }.
Definition AM (A : Type) : Type := stateful AState ErrorPayload A.

(** What a settled request did. *)
Inductive SideEffect : Type :=
| DidSender (user : uuid)
| DidChannel (messaging_group : uuid)
| DidPackages (agent_group : uuid) (scope : rstr) (apt npm : list rstr)
| DidMcpServer (agent_group : uuid) (name : rstr) (transport : json)
| DidSkill (name path : rstr)
| DidGrant (grant_id : rstr)
| DidPreview (agent_group : uuid)
| DidExternalAction (kind : rstr)
| DidClearance (session_id : rstr) (expires_at : instant).
Record Resolution : Type := mkResolution {
  re_approval : PendingApproval;
  re_applied : bool;
  re_effect : option SideEffect;
}.

(** What the handlers call outside: the derivation, parsing and printing of
    ids and dates, the clock, the tasks a grant refers to, the skills crate
    and the file system. *)
Class Outside : Type := {
  derive_user_id : string -> string -> uuid;
  parse_uuid : rstr -> option uuid;
  show_uuid : uuid -> rstr;
  parse_rfc3339 : rstr -> result rstr instant;
  db_text : DbError -> rstr;
  clock_after : instant -> instant;
  row_exists : uuid -> bool;
  task_exists : rstr -> bool;
  save_group_skill : rstr -> rstr -> rstr -> rstr -> result rstr rstr;
  canonicalize : rstr -> result rstr rstr;
  clearance_write_error : rstr -> option rstr;
}.

Definition utc_now `{Outside} : AM instant :=
  fun w => (Ok (a_wall w), set_wall (clock_after (a_wall w)) w).
Definition fresh_id : AM uuid := fun w => (Ok (a_fresh w), next_fresh w).
Definition db_err `{Outside} (e : DbError) : ErrorPayload :=
  match e with
  | NotFound => mkError "not_found" (lit "not found")
  | other => mkError "db_error" (db_text other)
  end.
Definition db `{Outside} {A} (r : result DbError A) : AM A :=
  lift (match r with Ok a => Ok a | Err e => Err (db_err e) end).
Definition bad_request {A} (message : rstr) : AM A := fail (mkError "bad_request" message).
Definition required {A} (message : rstr) (o : option A) : AM A :=
  match o with Some a => ret a | None => bad_request message end.

(** ** Decisions and expiry *)

Definition record_decision `{Outside} (id : uuid) (action : string) (outcome : DecisionOutcome)
  (decided_by : rstr) (reason : option rstr) : AM unit :=
  let! now := utc_now in
  let! t := gets a_pending in
  if existsb (pa_has_id id) t
  then fun w => (Ok tt, push_decision (mkDecision (a_next_decision w) id action outcome decided_by reason now) w)
  else db (Err SqliteConstraint).

Definition expiring (now : instant) (a : PendingApproval) : bool := is_pending a && is_expired_at a now.
Definition expire_one (now : instant) (w : AState) (a : PendingApproval) : AState :=
  push_decision (mkDecision (a_next_decision w) (pa_approval_id a) (pa_action a) Expire
                   (lit "system:expiry") None now) w.
Definition sweep_expired (now : instant) : AM (list uuid) :=
  fun w =>
    let candidates := List.filter (expiring now) (a_pending w) in
    (Ok (map pa_approval_id candidates),
     fold_left (expire_one now) candidates
       (set_pending (map (fun a => if expiring now a then with_status Approval.Expired a else a)
                       (a_pending w)) w)).
Definition update_row `{Outside} (id : uuid) (s : ApprovalStatus) : AM unit :=
  let! t := gets a_pending in
  let! t' := db (update_status t id s) in
  modify (set_pending t').
Definition get_row `{Outside} (id : uuid) : AM PendingApproval :=
  let! t := gets a_pending in
  db (approval_get t id).

(** ** Applying the effect of a request *)

Section Appliers.
Context `{Outside}.

Definition apply_sender (row : PendingApproval) : AM SideEffect :=
  let! channel := required (lit "sender approval row is missing `channel_type`") (pa_channel_type row) in
  let! identity := required (lit "sender approval row is missing `platform_id`") (pa_platform_id row) in
  let! now := utc_now in
  let! t := gets a_users in
  let id := derive_user_id channel identity in
  modify (set_users (user_upsert t id channel (jget_str "display_name" (pa_payload row)) now)) ;;
  ret (DidSender id).

Definition jget_bool (k : string) (j : json) : option bool :=
  match jget k j with Some (JBool b) => Some b | _ => None end.
Definition apply_channel (row : PendingApproval) : AM SideEffect :=
  let! channel := required (lit "channel approval row is missing `channel_type`") (pa_channel_type row) in
  let! pid := required (lit "channel approval row is missing `platform_id`") (pa_platform_id row) in
  let payload := pa_payload row in
  let! id := fresh_id in
  let! now := utc_now in
  let! t := gets a_groups in
  let! '(mg, t') := db (mg_upsert t id
    (mkUpsertMg channel pid (jget_str "name" payload) (default false (jget_bool "is_group" payload))
       (default (lit "strict") (jget_str "unknown_sender_policy" payload))) now) in
  modify (set_groups t') ;;
  ret (DidChannel (mg_id mg)).

Definition blank (s : rstr) : bool := rstr_eqb (trim s) [].
Definition json_str_array (payload : json) (key : string) : list rstr :=
  match jget key payload with
  | Some (JArr l) => List.filter (fun s => negb (blank s)) (omap jas_str l)
  | _ => []
  end.
Definition ensure_config_row (ag : uuid) : AM unit :=
  let! configs := gets a_configs in
  let! agents := gets a_agents in
  match configs !! ag with
  | Some _ => ret tt
  | None =>
      if bool_decide (ag ∈ agents) then modify (on_configs (insert ag default_config))
      else db (Err SqliteConstraint)
  end.
Definition update_config (ag : uuid) (f : ContainerConfig -> ContainerConfig) : AM unit :=
  let! configs := gets a_configs in
  match configs !! ag with
  | Some c => modify (on_configs (insert ag (f c)))
  | None => db (Err NotFound)
  end.
Fixpoint each {A} (f : A -> AM unit) (l : list A) : AM unit :=
  match l with
  | [] => ret tt
  | x :: l' => f x ;; each f l'
  end.
Definition apply_install_packages (row : PendingApproval) : AM SideEffect :=
  let! ag := required (lit "install_packages approval row is missing `agent_group_id`")
               (pa_agent_group_id row) in
  let apt := json_str_array (pa_payload row) "apt" in
  let npm := json_str_array (pa_payload row) "npm" in
  match apt, npm with
  | [], [] => bad_request (lit "install_packages payload has no `apt` or `npm` entries")
  | _, _ =>
      ensure_config_row ag ;;
      each (fun p => update_config ag (add_package_apt p)) apt ;;
      each (fun p => update_config ag (add_package_npm p)) npm ;;
      ret (DidPackages ag (default (lit "image") (jget_str "scope" (pa_payload row))) apt npm)
  end.

Definition mcp_object (c : option ContainerConfig) : gmap rstr json :=
  match c with Some c => default ∅ (cc_mcp_servers c) | None => ∅ end.
Definition apply_add_mcp_server (row : PendingApproval) : AM SideEffect :=
  let! ag := required (lit "add_mcp_server approval row is missing `agent_group_id`")
               (pa_agent_group_id row) in
  let! name := required (lit "add_mcp_server payload requires a string `name`")
                 (jget_str "name" (pa_payload row)) in
  if blank name then bad_request (lit "add_mcp_server payload `name` must be non-empty")
  else if rstr_eqb name PREVIEW_SERVER
  then bad_request (lit "`" ++ PREVIEW_SERVER
                    ++ lit "` is a reserved server name (session-preview relay) and cannot be used for an external MCP server")
  else
    let transport := default JNull (jget "transport" (pa_payload row)) in
    ensure_config_row ag ;;
    let! configs := gets a_configs in
    update_config ag (set_mcp_servers (<[name := transport]> (mcp_object (configs !! ag)))) ;;
    ret (DidMcpServer ag name transport).

Definition apply_save_skill (row : PendingApproval) : AM SideEffect :=
  let text key := jget_str key (pa_payload row) in
  let! name := required (lit "save_skill payload requires a string `name`") (text "name"%string) in
  let! content := required (lit "save_skill payload requires a string `content`") (text "content"%string) in
  let! dest := required (lit "save_skill payload requires a string `dest_dir`") (text "dest_dir"%string) in
  let! root := required (lit "save_skill payload requires a string `allowed_root`")
                 (text "allowed_root"%string) in
  match save_group_skill dest root name content with
  | Ok path => modify (add_skill (dest, name, content)) ;; ret (DidSkill name path)
  | Err e => bad_request (lit "save_skill rejected: " ++ e)
  end.

Definition keep {A} (p : A -> bool) (o : option A) : option A :=
  match o with Some a => if p a then Some a else None | None => None end.
Definition apply_task_grant (row : PendingApproval) (decided_by : rstr) : AM SideEffect :=
  let payload := pa_payload row in
  let! task := required (lit "task_grant payload requires a non-empty string `task_id`")
                 (keep (fun s => negb (rstr_eqb s [])) (jget_str "task_id" payload)) in
  let! scope := required (lit "task_grant payload requires a non-empty string `capability_scope`")
                  (keep (fun s => negb (blank s)) (jget_str "capability_scope" payload)) in
  let! expires_at :=
    match jget_str "expires_at" payload with
    | None => ret None
    | Some s =>
        match parse_rfc3339 s with
        | Ok t => ret (Some t)
        | Err e => bad_request (lit "task_grant `expires_at` is not RFC-3339: " ++ e)
        end
    end in
  let! id := fresh_id in
  let! now := utc_now in
  let! t := gets a_grants in
  let! '(grant, t') := db (insert_approved task_exists t
    (mkNewGrant (lit "grant_" ++ show_uuid id) task scope (jget_i64 "token_budget" payload)
       (jget_i64 "max_fires" payload) expires_at (Some decided_by)) now) in
  modify (set_grants t') ;;
  ret (DidGrant (tg_id grant)).

Definition apply_enable_preview (row : PendingApproval) : AM SideEffect :=
  let! ag := required (lit "enable_preview approval row is missing `agent_group_id`")
               (pa_agent_group_id row) in
  ensure_config_row ag ;;
  update_config ag (set_preview_enabled true) ;;
  ret (DidPreview ag).

Definition apply_credentialed_external_action (row : PendingApproval) : SideEffect :=
  DidExternalAction (default (lit "credentialed_external_action") (jget_str "kind" (pa_payload row))).

(** [Path::starts_with] of canonical paths: by components. *)
Definition components (path : rstr) : list rstr :=
  List.filter (fun c => negb (rstr_eqb c [])) (split_char (chr "/") path).
Fixpoint is_prefix (p l : list rstr) : bool :=
  match p, l with
  | [], _ => true
  | x :: p', y :: l' => rstr_eqb x y && is_prefix p' l'
  | _ :: _, [] => false
  end.
Definition path_starts_with (path root : rstr) : bool := is_prefix (components root) (components path).
Definition canonical (what : rstr) (path : rstr) : AM rstr :=
  match canonicalize path with
  | Ok p => ret p
  | Err e => bad_request (what ++ e)
  end.
Definition apply_taint_clearance (row : PendingApproval) (decided_by : rstr) : AM SideEffect :=
  let text key :=
    required (lit "taint_clearance payload requires a string `" ++ lit key ++ lit "`")
      (jget_str key (pa_payload row)) in
  let! session_id := text "session_id"%string in
  let! session_dir := text "session_dir"%string in
  let! allowed_root := text "allowed_root"%string in
  let! dir := canonical (lit "taint_clearance session dir `" ++ session_dir
                         ++ lit "` is not usable (session gone?): ") session_dir in
  let! root := canonical (lit "taint_clearance allowed_root is not usable: ") allowed_root in
  if negb (path_starts_with dir root)
  then bad_request (lit "taint_clearance session dir `" ++ session_dir
                    ++ lit "` escapes the sessions root; refusing")
  else
    let! now := utc_now in
    let expires_at := now + DEFAULT_APPROVAL_TTL in
    match clearance_write_error dir with
    | Some e => fail (mkError "internal" (lit "write clearance: " ++ e))
    | None =>
        modify (on_clearances (insert dir (mkClearance session_id expires_at))) ;;
        ret (DidClearance session_id expires_at)
    end.

Definition apply_effect (row : PendingApproval) (decided_by : rstr) : AM SideEffect :=
  let action := pa_action row in
  if String.eqb action "sender" || String.eqb action "approve_sender" then apply_sender row
  else if String.eqb action "channel" then apply_channel row
  else if String.eqb action "install_packages" then apply_install_packages row
  else if String.eqb action "add_mcp_server" then apply_add_mcp_server row
  else if String.eqb action "save_skill" then apply_save_skill row
  else if String.eqb action "task_grant" then apply_task_grant row decided_by
  else if String.eqb action "enable_preview" then apply_enable_preview row
  else if String.eqb action "credentialed_external_action"
  then ret (apply_credentialed_external_action row)
  else if String.eqb action "taint_clearance" then apply_taint_clearance row decided_by
  else if String.eqb action "one_cli"
  then bad_request (lit "approval action `one_cli` cannot be resolved through the generic dispatcher yet; no side-effect applier is wired for it")
  else bad_request (lit "unknown approval action `" ++ lit action ++ lit "`; cannot dispatch").

(** ** Settling a request *)

Definition conflict {A} (s : ApprovalStatus) (verb : string) : AM A :=
  fail (mkError "conflict" (lit "row is " ++ lit (Approval.as_str s) ++ lit "; refusing to " ++ lit verb)).

(** The common frame of approve, deny and revoke: lapse what is overdue,
    load the row, and act only on a pending one. *)
Definition settle (id : uuid) (target : ApprovalStatus) (verb : string)
  (act : PendingApproval -> AM (option SideEffect)) (outcome : DecisionOutcome) (decided_by : rstr)
  (reason : option rstr) : AM Resolution :=
  let! now := utc_now in
  let! _ := sweep_expired now in
  let! row := get_row id in
  if bool_decide (pa_status row = target) then ret (mkResolution row false None)
  else if negb (is_pending row) then conflict (pa_status row) verb
  else
    let! effect := act row in
    update_row id target ;;
    record_decision id (pa_action row) outcome decided_by reason ;;
    let! after := get_row id in
    ret (mkResolution after true effect).

Definition resolve_approve (id : uuid) (decided_by : rstr) : AM Resolution :=
  settle id Approval.Approved "approve"
    (fun row => let! effect := apply_effect row decided_by in ret (Some effect))
    Approve decided_by None.
Definition resolve_deny (id : uuid) (decided_by : rstr) : AM Resolution :=
  settle id Approval.Denied "deny" (fun _ => ret None) Deny decided_by None.
Definition revoke (id : uuid) (reason : option rstr) : AM Resolution :=
  settle id Approval.Revoked "revoke" (fun _ => ret None) Revoke (lit "host") reason.

Definition upsert_request (req : UpsertPendingApproval) : AM PendingApproval :=
  let! id := fresh_id in
  let! now := utc_now in
  let refs := match ua_session_id req with Some s => row_exists s | None => true end
              && match ua_agent_group_id req with Some g => row_exists g | None => true end in
  let! t := gets a_pending in
  let! '(row, t') := db (approval_upsert t refs id req now) in
  modify (set_pending t') ;;
  ret row.
Definition set_message_id (id : uuid) (pmid : string) : AM unit :=
  let! t := gets a_pending in
  let! t' := db (set_platform_message_id t id pmid) in
  modify (set_pending t').
(** [DELETE]; the decisions of the row go with it. *)
Definition delete_request (id : uuid) : AM unit :=
  let! t := gets a_pending in
  let '(t', n) := sql_delete (pa_has_id id) t in
  if (n =? 0)%nat then db (Err NotFound)
  else modify (set_pending t') ;; modify (drop_decisions id).
(** Deleting a session takes its requests along, and their decisions. *)
Definition of_session (session : uuid) (a : PendingApproval) : bool :=
  match pa_session_id a with Some s => s =? session | None => false end.
Definition forget_session (session : uuid) : AM unit :=
  let! t := gets a_pending in
  modify (set_pending (List.filter (fun a => negb (of_session session a)) t)) ;;
  modify (fun w => fold_left (fun w a => drop_decisions (pa_approval_id a) w) (List.filter (of_session session) t) w).

(** ** Public tunnels *)

Definition TUNNEL_APPROVAL_ACTION : string := "credentialed_external_action".
(** The first of the list is the oldest. *)
Definition find_approval (t : approval_table) (request_id : string) : option PendingApproval :=
  List.find (fun r => String.eqb (pa_request_id r) request_id) (approval_list t (Some TUNNEL_APPROVAL_ACTION) None).
Definition consume_grant (id : uuid) : AM unit :=
  let internal {A} (message : string) : AM A := fail (mkError "internal" (lit message)) in
  let! row := catch (get_row id) in
  match row with
  | Err _ => internal "could not read approval grant to consume it"
  | Ok row =>
      if negb (bool_decide (pa_status row = Approval.Approved)) then internal "approval grant is no longer approved"
      else
        let! written := catch (update_row id Approval.Revoked) in
        match written with
        | Err _ => internal "could not consume approval grant"
        | Ok _ =>
            let! _ := catch (record_decision id TUNNEL_APPROVAL_ACTION Revoke (lit "system:tunnel-consumed")
                               (Some (lit "grant consumed by one-shot public tunnel exposure"))) in
            ret tt
        end
  end.
(** What a call of [expose] does to the requests when no tunnel is up: spend the grant, report
    the denial, wait for the tap, or ask with [req], whose request id names the exposure.
    Whether the tunnel then opens is outside. *)
Inductive Exposure : Type := GrantSpent | ExposureDenied | AwaitingTap | ApprovalRaised.
Definition expose (req : UpsertPendingApproval) : AM Exposure :=
  let! t := gets a_pending in
  let existing := find_approval t (ua_request_id req) in
  let! now := utc_now in
  match existing with
  | Some row =>
      if bool_decide (pa_status row = Approval.Approved)
      then consume_grant (pa_approval_id row) ;; ret GrantSpent
      else if bool_decide (pa_status row = Approval.Denied) then ret ExposureDenied
      else if is_actionable_at row now then ret AwaitingTap
      else let! _ := upsert_request req in ret ApprovalRaised
  | None => let! _ := upsert_request req in ret ApprovalRaised
  end.
End Appliers.

(** ** The tap on an approval card *)

Inductive Verb : Type := VApprove | VDeny.
Definition past (v : Verb) : rstr := match v with VApprove => lit "Approved" | VDeny => lit "Denied" end.
Definition verb_label (v : Verb) : rstr := match v with VApprove => lit "approve" | VDeny => lit "deny" end.
Definition parse_callback (data : rstr) : option (Verb * rstr) :=
  match strip_prefix (lit "approve:") data with
  | Some rest => Some (VApprove, rest)
  | None => option_map (fun rest => (VDeny, rest)) (strip_prefix (lit "deny:") data)
  end.

(** The fields of [ApprovalInterceptCtx] the interceptor reads. *)
Record Tap : Type := mkTap {
  tap_callback_data : rstr;
  tap_sender : option SenderIdentity;
  tap_agent_group_id : uuid;
  tap_channel_type : string;
  tap_platform_id : string;
  tap_thread_id : option string;
}.
Inductive TapDecision : Type := Handled | Passthrough.

Section Taps.
Context `{Outside}.

Definition authorizes (agent_group : uuid) (r : UserRole) : bool :=
  match ur_role r with Owner | Admin => true end
  && match ur_agent_group_id r with None => true | Some g => g =? agent_group end.
Definition resolve_approver (w : AState) (agent_group : uuid) (tap : Tap) : option (uuid * rstr) :=
  match tap_sender tap with
  | None => None
  | Some sender =>
      match sql_get (user_has_id (derive_user_id (se_channel_type sender) (se_identity sender))) (a_users w) with
      | None => None
      | Some user =>
          if existsb (authorizes agent_group) (list_for_user (a_roles w) (u_id user))
          then Some (u_id user,
                     match se_display_name sender, u_display_name user with
                     | Some n, _ => lit n
                     | None, Some n => n
                     | None, None => lit (se_identity sender)
                     end)
          else None
      end
  end.

Definition double_quote : rchar := 34.
Definition quoted (s : rstr) : rstr := double_quote :: s ++ [double_quote].
Definition audit (agent_group id : uuid) (outcome : rstr) (result : string) (code : option string)
  (actor : rstr) : AM unit :=
  let! now := utc_now in
  let actor := map (fun c => if c =? double_quote then chr "'" else c) actor in
  modify (add_audit (mkAudit now agent_group (lit "approvals." ++ outcome)
    (lit "{" ++ quoted (lit "source") ++ lit ":" ++ quoted (lit "in_chat") ++ lit ","
     ++ quoted (lit "approval_id") ++ lit ":" ++ quoted (show_uuid id) ++ lit ","
     ++ quoted (lit "actor") ++ lit ":" ++ quoted actor ++ lit "}")
    result code)).
Definition reply (tap : Tap) (text : rstr) : AM unit :=
  modify (send (Reply (tap_channel_type tap) (tap_platform_id tap) (tap_thread_id tap) text)).

Definition EXPIRED_CARD_TEXT : rstr :=
  lit "This approval request expired before anyone responded. Ask the agent to try again.".
Definition stamp_expired (swept : list uuid) (row : PendingApproval) (w : AState) : AState :=
  if negb (existsb (Z.eqb (pa_approval_id row)) swept) then w
  else match pa_channel_type row, pa_platform_id row, pa_platform_message_id row with
       | Some ct, Some pid, Some pmid => send (Edit ct pid None pmid EXPIRED_CARD_TEXT) w
       | _, _, _ => w
       end.
Definition expire_and_edit_cards : AM unit :=
  let! now := utc_now in
  let! t := gets a_pending in
  let doomed := List.filter (fun r => is_expired_at r now)
                  (approval_list t None (Some Approval.Pending)) in
  match doomed with
  | [] => ret tt
  | _ =>
      let! swept := sweep_expired now in
      modify (fun w => fold_left (fun w row => stamp_expired swept row w) doomed w)
  end.

Definition edit_card (tap : Tap) (id : uuid) (verb : Verb) (approver : rstr) : AM unit :=
  let! t := gets a_pending in
  let text := past verb ++ lit " by " ++ approver in
  match approval_get t id with
  | Ok row =>
      match pa_platform_message_id row with
      | Some pmid =>
          modify (send (Edit (tap_channel_type tap) (tap_platform_id tap) (tap_thread_id tap) pmid text))
      | None => reply tap text
      end
  | Err _ => reply tap text
  end.
Definition resolved_note (log : list ApprovalDecision) (id : uuid) : rstr :=
  match list_decisions log (Some id) 1 with
  | d :: _ =>
      if bool_decide (de_outcome d = Expire)
      then lit "This approval request expired before it was resolved. Ask the agent to try again."
      else lit "This request was already resolved by " ++ de_decided_by d ++ lit "."
  | [] => lit "That approval is no longer pending."
  end.
Definition resolve (verb : Verb) (id : uuid) (approver : rstr) : AM Resolution :=
  match verb with
  | VApprove => resolve_approve id approver
  | VDeny => resolve_deny id approver
  end.

Definition note_resolved (tap : Tap) (id : uuid) : AM unit :=
  let! log := gets a_decisions in
  reply tap (resolved_note log id).
(** What the tapper and the audit table see of the outcome. *)
Definition answer (tap : Tap) (agent_group id : uuid) (verb : Verb) (approver : rstr)
  (outcome : result ErrorPayload Resolution) : AM TapDecision :=
  match outcome with
  | Ok r =>
      if re_applied r
      then audit agent_group id (verb_label verb) "ok" None approver ;;
           edit_card tap id verb approver ;;
           ret Handled
      else note_resolved tap id ;; ret Handled
  | Err e =>
      if String.eqb (ep_code e) "conflict" then note_resolved tap id ;; ret Handled
      else if String.eqb (ep_code e) "not_found"
      then reply tap (lit "That approval is no longer pending.") ;; ret Handled
      else ret Handled
  end.
Definition handle_tap (tap : Tap) : AM TapDecision :=
  match parse_callback (tap_callback_data tap) with
  | None => ret Passthrough
  | Some (verb, id_str) =>
      match parse_uuid (trim id_str) with
      | None => ret Handled
      | Some id =>
          let agent_group := tap_agent_group_id tap in
          expire_and_edit_cards ;;
          let! approver := gets (fun w => resolve_approver w agent_group tap) in
          match approver with
          | None =>
              audit agent_group id (verb_label verb) "error" (Some "unauthorized"%string)
                (match tap_sender tap with Some s => lit (se_identity s) | None => lit "unknown" end) ;;
              reply tap (lit "You are not authorized to resolve this approval.") ;;
              ret Handled
          | Some (_, approver) =>
              let! outcome := catch (resolve verb id approver) in
              answer tap agent_group id verb approver outcome
          end
      end
  end.
End Taps.
