(* ===== verification/ApprovalsProps.v ===== *)
(** What the approval workflow guarantees: a request is settled once and
    stays settled, with one decision in the log; only a live request takes
    effect; a tap needs a role.  And what it does not: the role is checked
    for the chat's group, not for the request's, and two resolutions that
    overlap in time both take effect. *)
From stdpp Require Import relations.
From S2P Require Import Prelude Gate Grants Types Central Approvals.

(** ** What the steps leave alone *)

(** The requests, the log and its counter. *)
Definition book (w : AState) : list PendingApproval * list ApprovalDecision * Z :=
  (a_pending w, a_decisions w, a_next_decision w).
(** Everything an applied request may change. *)
Definition effects (w : AState) :=
  (a_users w, a_groups w, a_configs w, a_grants w, a_clearances w, a_skills w).
Definition same {A} (p : AState -> A) (w w' : AState) : Prop := p w' = p w.
#[export] Instance same_preorder {A} (p : AState -> A) : PreOrder (same p).
Proof. split; [by intros w | intros x y z; unfold same; congruence]. Qed.

Section Frames.
Context `{Outside}.

Lemma keeps_required {A} {R : AState -> AState -> Prop} `{!PreOrder R} m (o : option A) :
  keeps R (required m o).
Proof. destruct o; [apply keeps_ret | apply keeps_fail]. Qed.
Lemma keeps_of_db {A} {R : AState -> AState -> Prop} `{!PreOrder R} (r : result DbError A) :
  keeps R (Approvals.db r).
Proof. apply keeps_lift. Qed.
Lemma keeps_bad_request {A} {R : AState -> AState -> Prop} `{!PreOrder R} m :
  keeps R (bad_request (A:=A) m).
Proof. apply keeps_fail. Qed.
Hint Resolve keeps_required keeps_of_db keeps_bad_request : keeps.

Lemma keeps_each {A} {R : AState -> AState -> Prop} `{!PreOrder R} (f : A -> AM unit) l :
  (forall x, keeps R (f x)) -> keeps R (each f l).
Proof. intros Hf. induction l; cbn; split_steps. Qed.

#[local] Opaque each.
Lemma book_modify f : (forall w, book (f w) = book w) -> keeps (same book) (modify f : AM unit).
Proof. intros Hf w. apply Hf. Qed.
Lemma book_utc_now : keeps (same book) utc_now.
Proof. done. Qed.
Lemma book_fresh_id : keeps (same book) fresh_id.
Proof. done. Qed.
Hint Resolve book_utc_now book_fresh_id : keeps.

Ltac book_steps :=
  repeat first [ progress split_steps | apply book_modify; done | apply keeps_each
               | match goal with
                 | |- keeps _ (update_config _ _) => unfold update_config
                 | |- keeps _ (ensure_config_row _) => unfold ensure_config_row
                 | |- keeps _ (canonical _ _) => unfold canonical
                 end ].

(** Applying an effect never touches the requests or the log. *)
Lemma apply_effect_book row decided_by : keeps (same book) (apply_effect row decided_by).
Proof.
  unfold apply_effect, apply_sender, apply_channel, apply_install_packages, apply_add_mcp_server,
    apply_save_skill, apply_task_grant, apply_enable_preview, apply_taint_clearance.
  book_steps.
Qed.
End Frames.

(** ** The ledger: requests and their decisions *)

Definition outcomes (log : list ApprovalDecision) (id : uuid) : list DecisionOutcome :=
  map de_outcome (List.filter (fun d => de_approval_id d =? id) log).
Definition expected (s : ApprovalStatus) : list DecisionOutcome :=
  match s with
  | Approval.Pending => [] | Approval.Approved => [Approve] | Approval.Denied => [Deny]
  | Approval.Expired => [Expire] | Approval.Revoked => [Revoke]
  end.
(** The log of a request is the one decision its status stands for; only a tunnel's grant
    may have two, the approval and that it was spent. *)
Definition accounted (a : PendingApproval) (os : list DecisionOutcome) : Prop :=
  os = expected (pa_status a)
  \/ pa_status a = Approval.Revoked /\ pa_action a = TUNNEL_APPROVAL_ACTION /\ os = [Approve; Revoke].
(** Ids are unique, the log of every request is accounted for, and no decision is about a
    request that is not there. *)
Record ledger_ok (t : list PendingApproval) (log : list ApprovalDecision) : Prop := {
  lg_ids : List.NoDup (map pa_approval_id t);
  lg_log : forall a, In a t -> accounted a (outcomes log (pa_approval_id a));
  lg_rows : forall d, In d log -> In (de_approval_id d) (map pa_approval_id t);
}.
Definition ledger (w : AState) : Prop := ledger_ok (a_pending w) (a_decisions w).
Lemma pending_log t log a : ledger_ok t log -> In a t -> pa_status a = Approval.Pending -> outcomes log (pa_approval_id a) = [].
Proof. intros Hl Ha Hs. destruct (lg_log _ _ Hl a Ha) as [-> | (E & _)]; [by rewrite Hs | by rewrite Hs in E]. Qed.

(** ** The specification *)

(** An abstract request: what it asks for, its session, its status and its decisions. *)
Record Request : Type := mkRequest {
  rq_action : string;
  rq_session : option uuid;
  rq_status : ApprovalStatus;
  rq_log : list DecisionOutcome;
}.
(** A pending request may be asked again, from another session too; it is settled once, with
    the decision that goes with its new status; the grant of a tunnel is spent once. *)
Inductive request_step : Request -> Request -> Prop :=
| req_again act s s' : request_step (mkRequest act s Approval.Pending []) (mkRequest act s' Approval.Pending [])
| req_settle act s st o : expected st = [o] ->
    request_step (mkRequest act s Approval.Pending []) (mkRequest act s st [o])
| req_spend s : request_step (mkRequest TUNNEL_APPROVAL_ACTION s Approval.Approved [Approve])
    (mkRequest TUNNEL_APPROVAL_ACTION s Approval.Revoked [Approve; Revoke]).
Section Spec.
(** The sessions that may be deleted. *)
Context (gone : uuid -> Prop).
Inductive tidy_step (m : gmap uuid Request) : gmap uuid Request -> Prop :=
| tidy_change i e e' : m !! i = Some e -> request_step e e' -> tidy_step m (<[i := e']> m)
| tidy_forget i e s : m !! i = Some e -> rq_session e = Some s -> gone s -> tidy_step m (delete i m).
(** A request appears pending, changes as above, or goes with its session. *)
Inductive spec_step (m : gmap uuid Request) : gmap uuid Request -> Prop :=
| spec_ask i act s : m !! i = None -> spec_step m (<[i := mkRequest act s Approval.Pending []]> m)
| spec_tidy m' : tidy_step m m' -> spec_step m m'.
End Spec.

Definition abstract (log : list ApprovalDecision) (a : PendingApproval) : Request :=
  mkRequest (pa_action a) (pa_session_id a) (pa_status a) (outcomes log (pa_approval_id a)).
Definition view_of (t : list PendingApproval) (g : PendingApproval -> Request) : gmap uuid Request :=
  list_to_map (map (fun a => (pa_approval_id a, g a)) t).
Definition view (w : AState) : gmap uuid Request := view_of (a_pending w) (abstract (a_decisions w)).
Definition evolves (gone : uuid -> Prop) t log t' log' : Prop :=
  rtc (spec_step gone) (view_of t (abstract log)) (view_of t' (abstract log')).
Definition orderly (gone : uuid -> Prop) (w w' : AState) : Prop :=
  ledger w -> ledger w' /\ rtc (spec_step gone) (view w) (view w').

#[export] Instance orderly_preorder gone : PreOrder (orderly gone).
Proof.
  split.
  - intros w Hl. split; [done | apply rtc_refl].
  - intros x y z Hxy Hyz Hl. destruct (Hxy Hl) as [Hly H1], (Hyz Hly) as [Hlz H2].
    split; [done|]. by etransitivity.
Qed.

Lemma view_ids t (g : PendingApproval -> Request) : map fst (map (fun a => (pa_approval_id a, g a)) t) = map pa_approval_id t.
Proof. by rewrite map_map. Qed.
Lemma view_In t (g : PendingApproval -> Request) a :
  List.NoDup (map pa_approval_id t) -> In a t -> view_of t g !! pa_approval_id a = Some (g a).
Proof.
  intros Hnd Ha. apply elem_of_list_to_map_1.
  - apply NoDup_ListNoDup. by rewrite <- (view_ids t g) in Hnd.
  - apply list_elem_of_In. by apply (in_map (fun a => (pa_approval_id a, g a))).
Qed.
Lemma view_None t (g : PendingApproval -> Request) i : ~ In i (map pa_approval_id t) -> view_of t g !! i = None.
Proof. intros Hn. apply not_elem_of_list_to_map_1. rewrite list_elem_of_In. by rewrite <- (view_ids t g) in Hn. Qed.
Lemma view_Some t g i e : view_of t g !! i = Some e -> exists a, In a t /\ pa_approval_id a = i /\ g a = e.
Proof.
  intros E. apply elem_of_list_to_map_2, list_elem_of_In, in_map_iff in E as (a & [= Hi Hs] & Ha). by exists a.
Qed.

(** In the specification a settled request stays as it is, but for a tunnel's grant, which
    may be spent. *)
Definition settled_as (e e' : Request) : Prop :=
  e' = e
  \/ exists s, e = mkRequest TUNNEL_APPROVAL_ACTION s Approval.Approved [Approve]
              /\ e' = mkRequest TUNNEL_APPROVAL_ACTION s Approval.Revoked [Approve; Revoke].
Lemma settled_as_step e e1 e2 : rq_status e <> Approval.Pending -> settled_as e e1 -> request_step e1 e2 -> settled_as e e2.
Proof.
  intros Hs [-> | (s & -> & ->)] Hstep; inversion Hstep; subst; try done. right. by exists s.
Qed.
Lemma spec_final gone m m' i e : rtc (spec_step gone) m m' -> m !! i = Some e -> rq_status e <> Approval.Pending ->
  (forall s, rq_session e = Some s -> ~ gone s) -> exists e', m' !! i = Some e' /\ settled_as e e'.
Proof.
  intros Hr Hi Hs Hg. revert m' Hr. refine (rtc_ind_r _ m _ _); [exists e; split; [done | by left]|].
  intros m1 m2 _ Hstep (e1 & Hi1 & He1). assert (rq_session e1 = rq_session e) as Hsess by (by destruct He1 as [-> | (s & -> & ->)]).
  destruct Hstep as [j act s Hj | m2 [j e2 e3 Hj Hc | j e2 s Hj Hs2 Hgs]].
  - exists e1. rewrite lookup_insert_ne by congruence. done.
  - destruct (decide (j = i)) as [->|Hne]; [|exists e1; by rewrite lookup_insert_ne].
    exists e3. rewrite lookup_insert_eq. split; [done|]. simplify_eq. by eapply settled_as_step.
  - destruct (decide (j = i)) as [->|Hne]; [|exists e1; by rewrite lookup_delete_ne].
    simplify_eq. rewrite Hsess in Hs2. by destruct (Hg s Hs2).
Qed.

(** Steps on some keys leave room for another. *)
Lemma tidy_frame gone m m' k x :
  rtc (tidy_step gone) m m' -> m !! k = None -> rtc (tidy_step gone) (<[k := x]> m) (<[k := x]> m').
Proof.
  intros Hr. induction Hr as [|m1 m2 m3 Hstep _ IH]; intros Hk; [apply rtc_refl|].
  destruct Hstep as [i e e' Hi Hc | i e s Hi Hs Hg]; assert (i <> k) by congruence.
  - apply rtc_l with (<[k := x]> (<[i := e']> m1)); [|apply IH; by rewrite lookup_insert_ne].
    rewrite insert_insert_ne by done. apply tidy_change with e; [by rewrite lookup_insert_ne | done].
  - apply rtc_l with (<[k := x]> (delete i m1)); [|apply IH; by rewrite lookup_delete_ne].
    rewrite insert_delete_ne by done. by apply tidy_forget with e s; [rewrite lookup_insert_ne|..].
Qed.
Lemma tidy_change_at gone m k e e' :
  rtc request_step e e' -> rtc (tidy_step gone) (<[k := e]> m) (<[k := e']> m).
Proof.
  induction 1 as [e|e1 e2 e3 Hstep _ IH]; [apply rtc_refl|].
  apply rtc_l with (<[k := e2]> m); [|done]. rewrite <- (insert_insert_eq m k e2 e1).
  apply tidy_change with e1; [apply lookup_insert_eq | done].
Qed.
(** Rows that change one by one, and rows that go, are steps of the specification. *)
Lemma view_evolves gone t (keep : PendingApproval -> bool) (g g' : PendingApproval -> Request) :
  List.NoDup (map pa_approval_id t) ->
  (forall a, In a t -> if keep a then rtc request_step (g a) (g' a) else exists s, rq_session (g a) = Some s /\ gone s) ->
  rtc (spec_step gone) (view_of t g) (view_of (List.filter keep t) g').
Proof.
  intros Hnd Hg. apply (rtc_subrel (tidy_step gone)). { intros x y Hxy. by apply spec_tidy. }
  unfold view_of. induction t as [|a t IH]; cbn [map list_to_map List.filter]; [apply rtc_refl|].
  inversion Hnd as [|? ? Hni Hnd']; subst. specialize (IH Hnd' (fun b Hb => Hg b (or_intror Hb))). pose proof (Hg a (or_introl eq_refl)) as Ha.
  apply (tidy_frame _ _ _ (pa_approval_id a) (g a)) in IH; [|by apply view_None]. cbn in IH |- *.
  etransitivity; [exact IH|]. destruct (keep a); [cbn; by apply tidy_change_at|].
  destruct Ha as (s & Hs & Hgs). apply rtc_once. rewrite <- (delete_insert_id (list_to_map (map _ (List.filter keep t))) (pa_approval_id a) (g a)) at 2.
  - apply tidy_forget with (g a) s; [apply lookup_insert_eq | done | done].
  - apply (view_None (List.filter keep t) g'). intros Hin. apply Hni. apply in_map_iff in Hin as (b & <- & Hb).
    apply List.filter_In in Hb as [Hb _]. by apply in_map.
Qed.
Lemma view_map gone t (f : PendingApproval -> PendingApproval) (g g' : PendingApproval -> Request) :
  List.NoDup (map pa_approval_id t) -> (forall a, pa_approval_id (f a) = pa_approval_id a) ->
  (forall a, In a t -> rtc request_step (g a) (g' (f a))) ->
  rtc (spec_step gone) (view_of t g) (view_of (map f t) g').
Proof.
  intros Hnd Hi Hg. pose proof (view_evolves gone t (fun _ => true) g (fun a => g' (f a)) Hnd Hg) as He.
  replace (List.filter (fun _ => true) t) with t in He by (clear; induction t; cbn; congruence).
  unfold view_of at 2. rewrite map_map. erewrite map_ext; [exact He|]. intros a. cbn. by rewrite Hi.
Qed.

Lemma orderly_book gone w w' : book w' = book w -> orderly gone w w'.
Proof.
  intros E Hl. unfold ledger, view. injection E as -> -> _. split; [exact Hl | apply rtc_refl].
Qed.
Lemma keeps_orderly_book {A} gone (m : AM A) : keeps (same book) m -> keeps (orderly gone) m.
Proof. intros Hm w. apply orderly_book, Hm. Qed.

Lemma outcomes_app log l id : outcomes (log ++ l) id = outcomes log id ++ outcomes l id.
Proof. unfold outcomes. by rewrite List.filter_app, map_app. Qed.

Lemma outcomes_none log t id :
  (forall d, In d log -> In (de_approval_id d) (map pa_approval_id t)) ->
  ~ In id (map pa_approval_id t) -> outcomes log id = [].
Proof.
  intros Hr Hn. unfold outcomes. induction log as [|d log IH]; cbn; [done|].
  destruct (Z.eqb_spec (de_approval_id d) id) as [<-|]; cbn.
  - exfalso. apply Hn, Hr. by left.
  - apply IH. intros d' Hd'. apply Hr. by right.
Qed.

(** A change of rows that keeps ids, actions and statuses, and the sessions of settled ones. *)
Lemma ledger_map gone f t log :
  (forall a, pa_approval_id (f a) = pa_approval_id a) -> (forall a, pa_status (f a) = pa_status a) ->
  (forall a, pa_action (f a) = pa_action a) -> (forall a, pa_status a <> Approval.Pending -> pa_session_id (f a) = pa_session_id a) ->
  ledger_ok t log -> ledger_ok (map f t) log /\ evolves gone t log (map f t) log.
Proof.
  intros Hi Hs Ha Hsess [H1 H2 H3]. split; [constructor|].
  - rewrite map_map. by rewrite (map_ext _ _ Hi).
  - intros a Hin. apply in_map_iff in Hin as (b & <- & Hb). unfold accounted. rewrite Hi, Hs, Ha. by apply H2.
  - intros d Hd. rewrite map_map, (map_ext _ _ Hi). by apply H3.
  - apply view_map; [done | done|]. intros a Hin. unfold abstract. rewrite Hi, Hs, Ha.
    destruct (decide (pa_status a = Approval.Pending)) as [E|E]; [|rewrite (Hsess a E); apply rtc_refl].
    destruct (H2 a Hin) as [Ho | (Ho & _)]; [|congruence]. rewrite Ho, E. apply rtc_once, req_again.
Qed.

Lemma filter_id_absent (p : PendingApproval -> bool) t id :
  ~ In id (map pa_approval_id t) ->
  List.filter (fun b => pa_approval_id b =? id) (List.filter p t) = [].
Proof.
  induction t as [|b t IH]; cbn; intros Hn; [done|].
  destruct (p b); cbn; [|by apply IH; tauto].
  destruct (Z.eqb_spec (pa_approval_id b) id); [exfalso; tauto | apply IH; tauto].
Qed.
Lemma filter_id_unique (p : PendingApproval -> bool) t a :
  List.NoDup (map pa_approval_id t) -> In a t ->
  List.filter (fun b => pa_approval_id b =? pa_approval_id a) (List.filter p t) = if p a then [a] else [].
Proof.
  induction t as [|b t IH]; cbn; intros Hnd Ha; [done|]. inversion Hnd as [|? ? Hni Hnd']; subst.
  destruct Ha as [-> | Ha].
  - destruct (p a); cbn; [rewrite Z.eqb_refl; f_equal|]; by apply filter_id_absent.
  - assert (pa_approval_id b <> pa_approval_id a) as Hne.
    { intros E. apply Hni. rewrite E. by apply in_map. }
    destruct (p b); cbn; [|by apply IH].
    destruct (Z.eqb_spec (pa_approval_id b) (pa_approval_id a)); [done | by apply IH].
Qed.

Lemma filter_filter_and {A} (p q : A -> bool) l :
  List.filter q (List.filter p l) = List.filter (fun a => q a && p a) l.
Proof. induction l as [|a l IH]; cbn; [done|]. destruct (p a), (q a) eqn:E; cbn; rewrite ?E, IH; done. Qed.

(** Moving some rows on and logging one decision for each. *)
Lemma ledger_log gone (p : PendingApproval -> bool) s o t log ds :
  (forall a, In a t -> p a = true -> request_step (abstract log a)
     (mkRequest (pa_action a) (pa_session_id a) s (outcomes log (pa_approval_id a) ++ [o]))) ->
  (forall a, In a t -> p a = true -> accounted (with_status s a) (outcomes log (pa_approval_id a) ++ [o])) ->
  map (fun d => (de_approval_id d, de_outcome d)) ds
    = map (fun a => (pa_approval_id a, o)) (List.filter p t) ->
  ledger_ok t log ->
  ledger_ok (map (fun a => if p a then with_status s a else a) t) (log ++ ds)
  /\ evolves gone t log (map (fun a => if p a then with_status s a else a) t) (log ++ ds).
Proof.
  intros Hstep Hacc Hds [H1 H2 H3]. set (f := fun a => if p a then with_status s a else a).
  assert (forall a, pa_approval_id (f a) = pa_approval_id a) as Hi by (intros a; unfold f; by destruct (p a)).
  assert (forall id, outcomes ds id = map (fun _ => o)
            (List.filter (fun a => pa_approval_id a =? id) (List.filter p t))) as Ho.
  { intros id. unfold outcomes. revert Hds. generalize (List.filter p t). clear.
    induction ds as [|d ds IH]; intros [|a l]; cbn; intros E; try done.
    injection E as E1 E2 E3. rewrite E1. destruct (pa_approval_id a =? id); cbn; [f_equal; [done|]|]; by apply IH. }
  assert (forall a, In a t -> outcomes (log ++ ds) (pa_approval_id a) = outcomes log (pa_approval_id a) ++ (if p a then [o] else [])) as Hlog.
  { intros a Ha. rewrite outcomes_app, Ho, filter_id_unique by done. by destruct (p a). }
  split; [constructor|].
  - rewrite map_map. by rewrite (map_ext _ _ Hi).
  - intros a' Ha. apply in_map_iff in Ha as (a & <- & Ha). fold (f a). rewrite Hi, Hlog by done. unfold f.
    destruct (p a) eqn:Ep; [by apply Hacc | rewrite app_nil_r; by apply H2].
  - intros d Hd. rewrite map_map, (map_ext _ _ Hi). apply in_app_or in Hd as [Hd|Hd]; [by apply H3|].
    apply (in_map (fun d => (de_approval_id d, de_outcome d))) in Hd. rewrite Hds in Hd.
    apply in_map_iff in Hd as (a & E & Ha). injection E as <- _. apply List.filter_In in Ha as [Ha _].
    by apply in_map.
  - apply view_map; [done | done|]. intros a Ha. unfold abstract at 2. rewrite Hi, Hlog by done. unfold f.
    destruct (p a) eqn:Ep; [apply rtc_once; exact (Hstep a Ha Ep) | rewrite app_nil_r; apply rtc_refl].
Qed.
(** Settling some pending rows. *)
Lemma ledger_settle gone (p : PendingApproval -> bool) s o t log ds :
  (forall a, p a = true -> pa_status a = Approval.Pending) -> expected s = [o] ->
  map (fun d => (de_approval_id d, de_outcome d)) ds
    = map (fun a => (pa_approval_id a, o)) (List.filter p t) ->
  ledger_ok t log ->
  ledger_ok (map (fun a => if p a then with_status s a else a) t) (log ++ ds)
  /\ evolves gone t log (map (fun a => if p a then with_status s a else a) t) (log ++ ds).
Proof.
  intros Hp Hs Hds Hl.
  assert (forall a, In a t -> p a = true -> outcomes log (pa_approval_id a) = []) as Hnone.
  { intros a Ha Ep. by apply (pending_log t log a Hl Ha), Hp. }
  apply (ledger_log _ _ _ o); [..|done|done]; intros a Ha Ep; rewrite (Hnone a Ha Ep); [|by left].
  unfold abstract. rewrite (Hnone a Ha Ep), (Hp a Ep). by apply req_settle.
Qed.

Lemma expire_fold now l w :
  let w' := fold_left (expire_one now) l w in
  a_pending w' = a_pending w /\ effects w' = effects w
  /\ (a_wall w', a_roles w', a_sent w', a_audit w') = (a_wall w, a_roles w, a_sent w, a_audit w)
  /\ exists ds, a_decisions w' = a_decisions w ++ ds
     /\ map (fun d => (de_approval_id d, de_outcome d)) ds = map (fun a => (pa_approval_id a, Expire)) l.
Proof.
  revert w. induction l as [|a l IH]; intros w; cbn.
  - repeat split. exists []. by rewrite app_nil_r.
  - destruct (IH (expire_one now w a)) as (H1 & H2 & H3 & ds & H4 & H5).
    split; [done|]. split; [done|]. split; [done|].
    eexists. split; [rewrite H4; cbn; rewrite <- app_assoc; reflexivity|]. cbn. by rewrite H5.
Qed.

Definition lapse (now : instant) (a : PendingApproval) : PendingApproval :=
  if expiring now a then with_status Approval.Expired a else a.
Lemma sweep_run now w :
  exists ids w', sweep_expired now w = (Ok ids, w')
    /\ a_pending w' = map (lapse now) (a_pending w) /\ effects w' = effects w
    /\ (a_wall w', a_roles w', a_sent w', a_audit w') = (a_wall w, a_roles w, a_sent w, a_audit w)
    /\ (forall gone, orderly gone w w').
Proof.
  unfold sweep_expired. cbv zeta. do 2 eexists. split; [reflexivity|].
  destruct (expire_fold now (List.filter (expiring now) (a_pending w))
              (set_pending (map (fun a => if expiring now a then with_status Approval.Expired a else a)
                              (a_pending w)) w)) as (H1 & H2 & H3 & ds & H4 & H5).
  split; [exact H1|]. split; [exact H2|]. split; [exact H3|].
  intros gone Hl. unfold ledger, view. rewrite H1, H4. cbn.
  apply (ledger_settle gone (expiring now) Approval.Expired Expire); [|done|done|done].
  intros a Ha. apply andb_prop in Ha as [Ha _]. by apply bool_decide_eq_true in Ha.
Qed.
Lemma keeps_sweep gone now : keeps (orderly gone) (sweep_expired now).
Proof. intros w. destruct (sweep_run now w) as (ids & w' & -> & _ & _ & _ & Ho). exact (Ho gone). Qed.

Section Settling.
Context `{Outside} (gone : uuid -> Prop).

Lemma approval_get_Ok t id a : approval_get t id = Ok a -> In a t /\ pa_approval_id a = id.
Proof.
  unfold approval_get, sql_get. destruct (List.find _ t) eqn:E; [|done]. intros [= <-].
  apply find_some in E as [Ha Hi]. split; [done | by apply Z.eqb_eq].
Qed.

Lemma sql_update_In id (f : PendingApproval -> PendingApproval) t a :
  In a t -> pa_approval_id a = id ->
  approval_update t id f = Ok (map (fun b => if pa_has_id id b then f b else b) t).
Proof.
  intros Ha Hi. unfold approval_update, sql_update.
  assert (In a (List.filter (pa_has_id id) t)) as Hf by (apply List.filter_In; split; [done | by apply Z.eqb_eq]).
  by destruct (List.filter (pa_has_id id) t).
Qed.

Lemma find_updated id f t a :
  In a t -> pa_approval_id a = id -> List.NoDup (map pa_approval_id t) ->
  (forall b, pa_approval_id (f b) = pa_approval_id b) ->
  List.find (pa_has_id id) (map (fun b => if pa_has_id id b then f b else b) t) = Some (f a).
Proof.
  intros Ha Hi Hnd Hf. induction t as [|b t IH]; [done|]. inversion Hnd as [|? ? Hni Hnd']; subst. cbn.
  destruct (pa_has_id (pa_approval_id a) b) eqn:E.
  - assert (pa_has_id (pa_approval_id a) (f b) = true) as -> by (unfold pa_has_id in *; by rewrite Hf).
    destruct Ha as [-> | Ha]; [done|]. exfalso. apply Hni. apply Z.eqb_eq in E. rewrite E. by apply in_map.
  - rewrite E. destruct Ha as [-> | Ha]; [|by apply IH].
    unfold pa_has_id in E. by rewrite Z.eqb_refl in E.
Qed.

(** One settlement, case by case. *)
Inductive settled (id : uuid) (target : ApprovalStatus) (act : PendingApproval -> AM (option SideEffect))
  (outcome : DecisionOutcome) (decided_by : rstr) (w1 : AState) : result ErrorPayload Resolution -> AState -> Prop :=
| settled_missing e : approval_get (a_pending w1) id = Err e ->
    settled id target act outcome decided_by w1 (Err (db_err e)) w1
| settled_already row : approval_get (a_pending w1) id = Ok row -> pa_status row = target ->
    settled id target act outcome decided_by w1 (Ok (mkResolution row false None)) w1
| settled_conflict row m : approval_get (a_pending w1) id = Ok row -> pa_status row <> target ->
    pa_status row <> Approval.Pending ->
    settled id target act outcome decided_by w1 (Err (mkError "conflict" m)) w1
| settled_failed row e w2 : approval_get (a_pending w1) id = Ok row -> pa_status row = Approval.Pending ->
    act row w1 = (Err e, w2) -> settled id target act outcome decided_by w1 (Err e) w2
| settled_applied row effect w2 w3 : approval_get (a_pending w1) id = Ok row ->
    pa_status row = Approval.Pending -> act row w1 = (Ok effect, w2) -> effects w3 = effects w2 ->
    a_pending w3 = map (fun a => if pa_has_id id a then with_status target a else a) (a_pending w1) ->
    (exists d, a_decisions w3 = a_decisions w1 ++ [d] /\ de_approval_id d = id /\ de_outcome d = outcome
               /\ de_decided_by d = decided_by) ->
    (a_roles w3, a_sent w3, a_audit w3) = (a_roles w2, a_sent w2, a_audit w2) ->
    settled id target act outcome decided_by w1
      (Ok (mkResolution (with_status target row) true effect)) w3.

(** Writing the status and the decision of a row that is there cannot fail. *)
Lemma stamp_and_log id target action outcome decided_by reason row w :
  List.NoDup (map pa_approval_id (a_pending w)) -> In row (a_pending w) -> pa_approval_id row = id ->
  exists w1 w2, update_row id target w = (Ok tt, w1)
    /\ record_decision id action outcome decided_by reason w1 = (Ok tt, w2)
    /\ get_row id w2 = (Ok (with_status target row), w2) /\ effects w2 = effects w
    /\ a_pending w2 = map (fun a => if pa_has_id id a then with_status target a else a) (a_pending w)
    /\ (exists d, a_decisions w2 = a_decisions w ++ [d] /\ de_approval_id d = id /\ de_outcome d = outcome
                  /\ de_decided_by d = decided_by)
    /\ (a_roles w2, a_sent w2, a_audit w2) = (a_roles w, a_sent w, a_audit w).
Proof.
  intros Hnd HIn Hi. set (t' := map (fun a => if pa_has_id id a then with_status target a else a) (a_pending w)).
  assert (approval_get t' id = Ok (with_status target row)) as Hg.
  { unfold approval_get, sql_get, t'. by rewrite (find_updated id _ _ row HIn Hi Hnd). }
  assert (existsb (pa_has_id id) t' = true) as Hx.
  { unfold approval_get, sql_get in Hg. rewrite existsb_find. by destruct (List.find (pa_has_id id) t'). }
  exists (set_pending t' w). eexists. split; [|split; [|split]].
  - unfold update_row, gets, mbind, Approvals.db, lift. unfold update_status.
    by rewrite (sql_update_In id _ _ row HIn Hi).
  - unfold record_decision, utc_now, gets, mbind. cbn [a_pending set_wall set_pending]. by rewrite Hx.
  - unfold get_row, gets, mbind, Approvals.db, lift. cbn [a_pending push_decision set_wall set_pending]. by rewrite Hg.
  - split; [done|]. split; [done|]. split; [|done]. by eexists.
Qed.

(** The state the settlement looks at: overdue requests have lapsed. *)
Definition lapsed (w : AState) : AState :=
  snd (sweep_expired (a_wall w) (set_wall (clock_after (a_wall w)) w)).

Lemma settle_run id target verb act outcome decided_by reason w :
  target <> Approval.Pending -> (forall row, keeps (same book) (act row)) ->
  ledger w ->
  let '(r, w') := settle id target verb act outcome decided_by reason w in
  settled id target act outcome decided_by (lapsed w) r w'.
Proof.
  intros Ht Hact Hl. unfold settle, mbind at 1, utc_now. unfold mbind at 1.
  destruct (sweep_run (a_wall w) (set_wall (clock_after (a_wall w)) w)) as (ids & w1 & E & _ & _ & _ & Ho).
  unfold lapsed. rewrite E. cbn [snd]. assert (ledger w1) as Hl1 by (apply (Ho (fun _ => False)); exact Hl). clear E Ho.
  unfold mbind at 1, get_row at 1, mbind at 1, gets at 1, Approvals.db at 1, lift at 1.
  destruct (approval_get (a_pending w1) id) as [row|e] eqn:Eg; [|by apply settled_missing].
  case_bool_decide as Hs; [by apply settled_already|].
  destruct (is_pending row) eqn:Ep.
  2: { apply settled_conflict with row; [done | done|]. by apply bool_decide_eq_false in Ep. }
  apply bool_decide_eq_true in Ep. cbn [negb].
  unfold mbind at 1. pose proof (Hact row w1) as Hb.
  destruct (act row w1) as [[effect|e] w2] eqn:Ea; [|by apply settled_failed with row].
  cbn in Hb. injection Hb as Hp Hd Hn. apply approval_get_Ok in Eg as HIn. destruct HIn as [HIn Hi].
  assert (In row (a_pending w2)) as HIn2 by (by rewrite Hp).
  destruct (stamp_and_log id target (pa_action row) outcome decided_by reason row w2
              ltac:(rewrite Hp; apply Hl1) HIn2 Hi) as (w3 & w4 & Hu & Hr & Hg & He & Hpend & Hlog & Hrest).
  unfold mbind. rewrite Hu, Hr, Hg. rewrite Hp in Hpend. rewrite Hd in Hlog.
  by apply settled_applied with w2.
Qed.

Lemma lapsed_orderly w : orderly gone w (lapsed w).
Proof.
  unfold lapsed. transitivity (set_wall (clock_after (a_wall w)) w); [by apply orderly_book|].
  apply keeps_sweep.
Qed.

Lemma id_pending t row a :
  List.NoDup (map pa_approval_id t) -> In row t -> In a t -> pa_has_id (pa_approval_id row) a = true -> a = row.
Proof. intros Hnd Hr Ha E. apply Z.eqb_eq in E. by apply (NoDup_map_inj pa_approval_id t). Qed.

Lemma settled_orderly id target act outcome decided_by w1 r w' :
  expected target = [outcome] -> (forall row, keeps (same book) (act row)) -> ledger w1 ->
  settled id target act outcome decided_by w1 r w' -> orderly gone w1 w'.
Proof.
  intros He Hact Hl1 Hs. inversion Hs as [| | |row e w2 Eg Ep Ea|row eff w2 w3 Eg Ep Ea _ Hp Hlog _];
    subst; try reflexivity.
  - apply orderly_book. specialize (Hact row w1). by rewrite Ea in Hact.
  - intros _. destruct Hlog as (d & Hd & Hdi & Hdo & _).
    apply approval_get_Ok in Eg as [HIn Hi]. unfold ledger, view. rewrite Hp, Hd.
    set (p := fun a => pa_has_id id a && is_pending a).
    assert (map (fun a => if pa_has_id id a then with_status target a else a) (a_pending w1)
            = map (fun a => if p a then with_status target a else a) (a_pending w1)) as ->.
    { apply map_ext_in. intros a Ha. unfold p. destruct (pa_has_id id a) eqn:E; [|done]. cbn.
      assert (a = row) as -> by (subst id; apply (id_pending (a_pending w1)); [apply Hl1 | done..]).
      unfold is_pending. by rewrite Ep, bool_decide_true. }
    apply (ledger_settle gone p target outcome); [|done| |exact Hl1].
    + intros a Ha. apply andb_prop in Ha as [_ Ha]. by apply bool_decide_eq_true in Ha.
    + cbn. rewrite Hdi, Hdo. replace (List.filter p (a_pending w1)) with [row]; [cbn; by rewrite Hi|].
      pose proof (filter_id_unique is_pending (a_pending w1) row (lg_ids _ _ Hl1) HIn) as Hu.
      unfold is_pending at 2 in Hu. rewrite bool_decide_true, Hi in Hu by done. rewrite <- Hu.
      apply filter_filter_and.
Qed.

Lemma keeps_settle id target verb act outcome decided_by reason :
  target <> Approval.Pending -> expected target = [outcome] -> (forall row, keeps (same book) (act row)) ->
  keeps (orderly gone) (settle id target verb act outcome decided_by reason).
Proof.
  intros Ht He Hact w Hl. pose proof (settle_run id target verb act outcome decided_by reason w Ht Hact Hl) as Hs.
  destruct (settle _ _ _ _ _ _ _ w) as [r w']. cbn.
  destruct (lapsed_orderly w Hl) as [Hl1 H1].
  destruct (settled_orderly _ _ _ _ _ _ _ _ He Hact Hl1 Hs Hl1) as [Hl' H2]. split; [done|].
  assert (orderly gone w w') as Ho; [|by apply Ho].
  transitivity (lapsed w); [apply lapsed_orderly | by eapply settled_orderly].
Qed.

Lemma approve_act_book decided_by row :
  keeps (same book) (let! effect := apply_effect row decided_by in ret (Some effect)).
Proof. apply keeps_bind; [apply apply_effect_book | intros; apply keeps_ret]. Qed.
Lemma approve_orderly id decided_by : keeps (orderly gone) (resolve_approve id decided_by).
Proof. apply keeps_settle; [done | done | apply approve_act_book]. Qed.
Lemma deny_orderly id decided_by : keeps (orderly gone) (resolve_deny id decided_by).
Proof. apply keeps_settle; [done | done | intros; apply keeps_ret]. Qed.
Lemma revoke_orderly id reason : keeps (orderly gone) (revoke id reason).
Proof. apply keeps_settle; [done | done | intros; apply keeps_ret]. Qed.

(** Asking for an approval, again or for the first time. *)
Lemma upsert_ledger t refs id req now row t' log :
  approval_upsert t refs id req now = Ok (row, t') -> ledger_ok t log ->
  ledger_ok t' log /\ evolves gone t log t' log.
Proof.
  unfold approval_upsert. destruct (existsb (pa_has_id id) t || negb refs) eqn:Ex; [done|].
  apply orb_false_elim in Ex as [Ex _].
  set (exp := or_else _ _). set (t1 := if existsb _ _ then _ else _). intros Hu Hl.
  assert (t' = t1) as ->.
  { destruct (sql_get _ t1); [|done]. destruct (approval_get t1 _); [|done]. by injection Hu. }
  clear Hu. subst t1. destruct (existsb (same_request req) t).
  - apply ledger_map; [intros a; by destruct (same_request req a).. | | done].
    intros a Ha. destruct (same_request req a) eqn:E; [|done]. unfold same_request in E. apply andb_prop in E as [E _].
    apply andb_prop in E as [E _]. by apply bool_decide_eq_true in E.
  - assert (~ In id (map pa_approval_id t)) as Hn.
    { intros (a & Ha & HIn)%in_map_iff. assert (existsb (pa_has_id id) t = true) as E; [|congruence].
      apply existsb_exists. exists a. split; [done|]. by apply Z.eqb_eq. }
    destruct Hl as [H1 H2 H3]. split; [constructor|].
    + rewrite map_app. by apply NoDup_snoc.
    + intros a [Ha|[<-|[]]]%in_app_or; [by apply H2|]. left. cbn. by apply (outcomes_none log t).
    + intros d Hd. rewrite map_app. apply in_or_app. left. by apply H3.
    + apply rtc_once. replace (view_of (t ++ _) _)
        with (<[id := mkRequest (ua_action req) (ua_session_id req) Approval.Pending []]> (view_of t (abstract log))).
      { by apply spec_ask, view_None. }
      unfold view_of at 2. rewrite map_app, list_to_map_app. cbn. fold (view_of t (abstract log)).
      rewrite <- insert_union_r by (by apply view_None). rewrite map_union_empty.
      unfold abstract. cbn. by rewrite (outcomes_none log t id).
Qed.
Lemma upsert_orderly req : keeps (orderly gone) (upsert_request req).
Proof.
  intros w. unfold upsert_request, fresh_id, utc_now, gets, mbind, Approvals.db, lift, modify.
  cbn [a_pending next_fresh set_wall]. destruct (approval_upsert _ _ _ _ _) as [[row t']|e] eqn:E; cbn;
    [|by apply orderly_book]. intros Hl. by apply (upsert_ledger _ _ _ _ _ _ _ _ E).
Qed.
Lemma set_message_id_orderly id pmid : keeps (orderly gone) (set_message_id id pmid).
Proof.
  intros w. unfold set_message_id, gets, mbind, Approvals.db, lift, modify.
  destruct (set_platform_message_id _ _ _) as [t'|e] eqn:E; cbn; [|reflexivity]. intros Hl.
  unfold ledger, view. cbn. unfold set_platform_message_id, approval_update in E. cbn in E.
  destruct (_ =? 0)%nat; [done|]. injection E as <-.
  apply ledger_map; [..|exact Hl]; intros a; by destruct (pa_has_id id a).
Qed.

(** The steps of a tap that only write to the channel and the audit table. *)
Definition desk (w : AState) := (book w, effects w, a_roles w).
Lemma desk_orderly {A} (m : AM A) : keeps (same desk) m -> keeps (orderly gone) m.
Proof. intros Hm w. apply orderly_book. specialize (Hm w). unfold same, desk in Hm. congruence. Qed.
Lemma audit_desk g id o r c a : keeps (same desk) (audit g id o r c a).
Proof. done. Qed.
Lemma reply_desk tap text : keeps (same desk) (reply tap text).
Proof. done. Qed.
Lemma note_desk tap id : keeps (same desk) (note_resolved tap id).
Proof. done. Qed.
Lemma card_desk tap id verb approver : keeps (same desk) (edit_card tap id verb approver).
Proof.
  intros w. unfold edit_card, gets, mbind. destruct (approval_get _ _) as [row|]; [|done].
  by destruct (pa_platform_message_id row).
Qed.
Lemma stamp_fold swept l w : same desk w (fold_left (fun w row => stamp_expired swept row w) l w).
Proof.
  revert w. induction l as [|row l IH]; intros w; cbn; [done|]. etransitivity; [|apply IH].
  unfold stamp_expired. destruct (negb _); [done|].
  by destruct (pa_channel_type row), (pa_platform_id row), (pa_platform_message_id row).
Qed.

Lemma lapse_none now t : List.filter (expiring now) t = [] -> map (lapse now) t = t.
Proof.
  induction t as [|a t IH]; cbn; [done|]. unfold lapse at 1. destruct (expiring now a); [done|].
  intros E. by rewrite IH.
Qed.
Lemma doomed_none now t :
  List.filter (fun r => is_expired_at r now) (approval_list t None (Some Approval.Pending)) = [] ->
  List.filter (expiring now) t = [].
Proof.
  intros E. destruct (List.filter (expiring now) t) as [|a l] eqn:El; [done|]. exfalso.
  assert (In a (List.filter (expiring now) t)) as [Ha Hx]%List.filter_In by (rewrite El; by left).
  apply andb_prop in Hx as [Hp Hx]. unfold is_pending in Hp.
  eapply (in_nil (a := a)). rewrite <- E. apply List.filter_In. split; [|done].
  unfold approval_list. apply order_by_In, List.filter_In. by split.
Qed.
Lemma expire_run w :
  exists w', expire_and_edit_cards w = (Ok tt, w') /\ a_pending w' = map (lapse (a_wall w)) (a_pending w)
    /\ effects w' = effects w /\ a_roles w' = a_roles w /\ orderly gone w w'.
Proof.
  unfold expire_and_edit_cards, mbind, utc_now, gets. cbn [a_pending set_wall].
  destruct (List.filter _ (approval_list _ _ _)) as [|row doomed] eqn:Ed.
  - eexists. split; [reflexivity|]. apply doomed_none in Ed. cbn. rewrite (lapse_none _ _ Ed).
    split; [done|]. split; [done|]. split; [done|]. by apply orderly_book.
  - destruct (sweep_run (a_wall w) (set_wall (clock_after (a_wall w)) w)) as (ids & w1 & E & Hp & He & Hr & Ho).
    rewrite E. unfold modify. eexists. split; [reflexivity|].
    set (wf := fold_left _ (row :: doomed) w1). assert (same desk w1 wf) as Hs by apply stamp_fold.
    clearbody wf. apply pair_equal_spec in Hs as [[Hb Hf]%pair_equal_spec Hl].
    split; [|split; [by rewrite Hf|split]].
    + unfold book in Hb. injection Hb as -> _ _. by rewrite Hp.
    + rewrite Hl. by injection Hr.
    + transitivity (set_wall (clock_after (a_wall w)) w); [by apply orderly_book|].
      transitivity w1; [done | by apply orderly_book].
Qed.

Ltac desk_steps :=
  repeat match goal with
         | |- keeps _ (mbind _ _) => apply keeps_bind; [|intros]
         | |- keeps _ (audit _ _ _ _ _ _) => apply audit_desk
         | |- keeps _ (edit_card _ _ _ _) => apply card_desk
         | |- keeps _ (note_resolved _ _) => apply note_desk
         | |- keeps _ (reply _ _) => apply reply_desk
         | |- keeps _ (ret _) => apply keeps_ret
         end.
Lemma answer_desk tap g id verb approver r : keeps (same desk) (answer tap g id verb approver r).
Proof. unfold answer. destruct r as [x|e]; [destruct (re_applied x) | repeat case_match]; desk_steps. Qed.
Lemma tap_orderly tap : keeps (orderly gone) (handle_tap tap).
Proof.
  unfold handle_tap. destruct (parse_callback _) as [[verb s]|]; [|apply keeps_ret].
  destruct (parse_uuid _) as [id|]; [|apply keeps_ret]. cbv zeta.
  apply keeps_bind. { intros w. destruct (expire_run w) as (w' & -> & _ & _ & _ & Ho). exact Ho. } intros _.
  apply keeps_bind; [apply keeps_gets|]. intros [[u approver]|].
  2: { apply desk_orderly. desk_steps. }
  apply keeps_bind. { apply keeps_catch. destruct verb; [apply approve_orderly | apply deny_orderly]. }
  intros r. apply desk_orderly, answer_desk.
Qed.

(** Deleting a session. *)
Lemma drop_fold l w :
  let w' := fold_left (fun w a => drop_decisions (pa_approval_id a) w) l w in
  a_pending w' = a_pending w
  /\ a_decisions w' = List.filter (fun d => negb (existsb (fun a => pa_approval_id a =? de_approval_id d) l)) (a_decisions w).
Proof.
  revert w. induction l as [|a l IH]; intros w; cbn.
  - split; [done|]. by induction (a_decisions w) as [|d ds IHd]; cbn; [|f_equal].
  - destruct (IH (drop_decisions (pa_approval_id a) w)) as [-> ->]. split; [done|]. cbn. rewrite filter_filter_and.
    apply List.filter_ext. intros d. by rewrite negb_orb, andb_comm, (Z.eqb_sym (pa_approval_id a)).
Qed.
Lemma outcomes_kept log (p : ApprovalDecision -> bool) id :
  (forall d, de_approval_id d = id -> p d = true) -> outcomes (List.filter p log) id = outcomes log id.
Proof.
  intros Hp. unfold outcomes. rewrite filter_filter_and. f_equal. apply List.filter_ext. intros d.
  destruct (Z.eqb_spec (de_approval_id d) id) as [E|]; [by rewrite Hp | done].
Qed.
Lemma forget_orderly session : gone session -> keeps (orderly gone) (forget_session session).
Proof.
  intros Hg w Hl. unfold forget_session, gets, mbind, modify. cbn [snd]. set (t := a_pending w).
  destruct (drop_fold (List.filter (of_session session) t) (set_pending (List.filter (fun a => negb (of_session session a)) t) w)) as [Hp Hd].
  unfold ledger, view. rewrite Hp, Hd. cbn [a_pending a_decisions set_pending]. clear Hp Hd.
  set (p := fun d => negb (existsb (fun a => pa_approval_id a =? de_approval_id d) (List.filter (of_session session) t))).
  destruct Hl as [H1 H2 H3]. fold t in H1, H2, H3.
  assert (forall a, In a t -> of_session session a = false -> forall d, de_approval_id d = pa_approval_id a -> p d = true) as Hkept.
  { intros a Ha Hs d Hd. unfold p. rewrite negb_true_iff. apply not_true_is_false. intros (b & Hb & E%Z.eqb_eq)%existsb_exists.
    apply List.filter_In in Hb as [Hb Hbs]. assert (b = a) as ->; [|congruence].
    apply (NoDup_map_inj pa_approval_id t); [done | done | done | congruence]. }
  split; [constructor|].
  - revert H1. clear. induction t as [|a t IH]; cbn; intros Hn; [constructor|]. inversion Hn as [|? ? Hni Hn']; subst.
    destruct (of_session session a); cbn; [by apply IH|]. constructor; [|by apply IH].
    intros (b & E & Hb)%in_map_iff. apply Hni. rewrite <- E. apply List.filter_In in Hb as [Hb _]. by apply in_map.
  - intros a Ha. apply List.filter_In in Ha as [Ha Hs%negb_true_iff]. rewrite outcomes_kept by by apply Hkept. by apply H2.
  - intros d Hd. apply List.filter_In in Hd as [Hd Hpd]. pose proof (H3 d Hd) as (a & E & Ha)%in_map_iff.
    apply in_map_iff. exists a. split; [done|]. apply List.filter_In. split; [done|]. unfold p in Hpd. apply negb_true_iff in Hpd.
    destruct (of_session session a) eqn:Es; [|done]. exfalso. apply not_true_iff_false in Hpd. apply Hpd, existsb_exists. exists a.
    split; [by apply List.filter_In | by apply Z.eqb_eq].
  - apply view_evolves; [done|]. intros a Ha. destruct (of_session session a) eqn:Es; cbn [negb].
    + exists session. split; [|done]. cbn. unfold of_session in Es. destruct (pa_session_id a) as [x|]; [|done]. apply Z.eqb_eq in Es. by subst.
    + unfold abstract. rewrite outcomes_kept by by apply Hkept. apply rtc_refl.
Qed.

(** Spending the grant of a tunnel. *)
Lemma find_approval_In t rid row : find_approval t rid = Some row ->
  In row t /\ pa_request_id row = rid /\ pa_action row = TUNNEL_APPROVAL_ACTION.
Proof.
  unfold find_approval. intros (Hin & Hr)%find_some. unfold approval_list in Hin.
  apply order_by_In, List.filter_In in Hin as [Hin Ha]. apply andb_prop in Ha as [Ha _].
  apply String.eqb_eq in Hr, Ha. done.
Qed.
Lemma consume_orderly row w : ledger w -> In row (a_pending w) -> pa_action row = TUNNEL_APPROVAL_ACTION ->
  pa_status row = Approval.Approved ->
  exists w', consume_grant (pa_approval_id row) w = (Ok tt, w') /\ orderly gone w w'.
Proof.
  intros Hl Hin Hact Hst. pose proof (lg_ids _ _ Hl) as Hnd.
  destruct (stamp_and_log (pa_approval_id row) Approval.Revoked TUNNEL_APPROVAL_ACTION Revoke (lit "system:tunnel-consumed")
    (Some (lit "grant consumed by one-shot public tunnel exposure")) row w Hnd Hin eq_refl) as (w1 & w2 & Hu & Hr & _ & _ & Hp & (d & Hd & Hdi & Hdo & _) & _).
  assert (approval_get (a_pending w) (pa_approval_id row) = Ok row) as Hget.
  { pose proof (find_updated (pa_approval_id row) (fun b => b) (a_pending w) row Hin eq_refl Hnd (fun _ => eq_refl)) as Hf.
    unfold approval_get, sql_get. rewrite (map_ext _ (fun b => b)), map_id in Hf by (intros b; by destruct (pa_has_id _ b)). by rewrite Hf. }
  exists w2. split.
  - unfold consume_grant, catch, mbind at 1, get_row, mbind at 1, gets at 1, Approvals.db at 1, lift at 1. rewrite Hget.
    rewrite Hst, bool_decide_true by done. cbn [negb]. unfold mbind at 1. rewrite Hu. unfold mbind. by rewrite Hr.
  - intros _. unfold ledger, view. rewrite Hp, Hd.
    assert (forall a, In a (a_pending w) -> pa_has_id (pa_approval_id row) a = true -> a = row) as Hrow by (intros a Ha; by apply (id_pending (a_pending w))).
    assert (outcomes (a_decisions w) (pa_approval_id row) = [Approve]) as Hlog.
    { destruct (lg_log _ _ Hl row Hin) as [E | (E & _)]; [by rewrite Hst in E | congruence]. }
    apply (ledger_log gone (pa_has_id (pa_approval_id row)) Approval.Revoked Revoke); [..|exact Hl].
    + intros a Ha E. rewrite (Hrow a Ha E). unfold abstract. rewrite Hlog, Hact, Hst. apply req_spend.
    + intros a Ha E. rewrite (Hrow a Ha E), Hlog. right. split; [done|]. by split.
    + cbn. rewrite Hdi, Hdo. replace (List.filter (pa_has_id (pa_approval_id row)) (a_pending w)) with [row]; [done|].
      pose proof (filter_id_unique (fun _ => true) (a_pending w) row Hnd Hin) as Hf. cbv iota in Hf. rewrite <- Hf. clear.
      induction (a_pending w) as [|b t IH]; [done|]. cbn. change (pa_has_id (pa_approval_id row) b) with (pa_approval_id b =? pa_approval_id row).
      by rewrite IH.
Qed.
Lemma expose_orderly req : keeps (orderly gone) (expose req).
Proof.
  intros w. unfold expose, gets, utc_now. unfold mbind at 1 2. cbv zeta.
  assert (orderly gone w (set_wall (clock_after (a_wall w)) w)) as Hw by by apply orderly_book.
  assert (orderly gone w (snd ((let! _ := upsert_request req in ret ApprovalRaised) (set_wall (clock_after (a_wall w)) w)))) as Hask.
  { transitivity (set_wall (clock_after (a_wall w)) w); [done|]. apply keeps_bind; [apply upsert_orderly | intros; apply keeps_ret]. }
  destruct (find_approval _ _) as [row|] eqn:E; [|exact Hask]. apply find_approval_In in E as (Hin & _ & Hact).
  case_bool_decide as Hs; [|case_bool_decide; [exact Hw|]; destruct (is_actionable_at _ _); [exact Hw | exact Hask]].
  intros Hl. destruct (consume_orderly row (set_wall (clock_after (a_wall w)) w) Hl Hin Hact Hs) as (w' & Hc & Ho).
  unfold mbind. rewrite Hc. cbn [snd ret]. apply Ho. exact Hl.
Qed.

(** What happens to the requests, one call after another, while only the sessions of [gone]
    are deleted. *)
Inductive op_step (w w' : AState) : Prop :=
| step_ask req : w' = snd (upsert_request req w) -> op_step w w'
| step_card id pmid : w' = snd (set_message_id id pmid w) -> op_step w w'
| step_approve id by_ : w' = snd (resolve_approve id by_ w) -> op_step w w'
| step_deny id by_ : w' = snd (resolve_deny id by_ w) -> op_step w w'
| step_revoke id reason : w' = snd (revoke id reason w) -> op_step w w'
| step_tap tap : w' = snd (handle_tap tap w) -> op_step w w'
| step_sweep now : w' = snd (sweep_expired now w) -> op_step w w'
| step_expose req : w' = snd (expose req w) -> op_step w w'
| step_forget session : gone session -> w' = snd (forget_session session w) -> op_step w w'
| step_clock t : w' = set_wall t w -> op_step w w'.

Lemma op_step_orderly w w' : op_step w w' -> orderly gone w w'.
Proof.
  intros [req ->|id pmid ->|id by_ ->|id by_ ->|id reason ->|tap ->|now ->|req ->|session Hg ->|t ->].
  - apply upsert_orderly.
  - apply set_message_id_orderly.
  - apply approve_orderly.
  - apply deny_orderly.
  - apply revoke_orderly.
  - apply tap_orderly.
  - apply keeps_sweep.
  - apply expose_orderly.
  - by apply forget_orderly.
  - by apply orderly_book.
Qed.

Lemma op_steps_orderly w w' : rtc op_step w w' -> orderly gone w w'.
Proof.
  intros Hr. induction Hr as [|x y z Hxy _ IH]; [reflexivity|]. transitivity y; [by apply op_step_orderly | done].
Qed.

(** C34. However requests are asked, approved, denied, revoked, tapped, swept, spent by the
    tunnel and deleted with their sessions, one call after another, from a table whose log is
    in order: the log stays in order, which is to say that a request has exactly the one
    decision its status stands for (none while it is pending), but for the spent grant of a
    tunnel, which has the approval before.  A settled request whose session is not deleted
    keeps its status and its decisions for good, unless it is an approved external action
    that the tunnel spends, once: it then counts as revoked, and that is logged. *)
Theorem settled_once w w' :
  ledger w -> rtc op_step w w' ->
  ledger w' /\ forall a, In a (a_pending w) -> pa_status a <> Approval.Pending ->
    (forall s, pa_session_id a = Some s -> ~ gone s) ->
    exists a', In a' (a_pending w') /\ pa_approval_id a' = pa_approval_id a /\ pa_action a' = pa_action a
      /\ (pa_status a' = pa_status a /\ outcomes (a_decisions w') (pa_approval_id a) = outcomes (a_decisions w) (pa_approval_id a)
          \/ pa_action a = TUNNEL_APPROVAL_ACTION /\ pa_status a = Approval.Approved /\ pa_status a' = Approval.Revoked
             /\ outcomes (a_decisions w) (pa_approval_id a) = [Approve]
             /\ outcomes (a_decisions w') (pa_approval_id a) = [Approve; Revoke]).
Proof.
  intros Hl Hr. destruct (op_steps_orderly w w' Hr Hl) as [Hl' He]. split; [done|]. intros a Ha Hs Hg.
  destruct (spec_final gone _ _ _ _ He (view_In _ _ a (lg_ids _ _ Hl) Ha) Hs Hg) as (e & Hi & Hset).
  apply view_Some in Hi as (a' & Ha' & Hid & <-). exists a'. split; [done|]. split; [done|]. unfold abstract in Hset.
  destruct Hset as [E | (s & E & E')].
  - injection E as Hact _ Hst Hlog. rewrite Hid in Hlog. split; [done|]. by left.
  - injection E as Hact _ Hst Hlog. injection E' as Hact' _ Hst' Hlog'. rewrite Hid in Hlog'. split; [congruence|]. by right.
Qed.

(** C35. The calls refine the specification: from a table whose log is in order, every
    sequence of them is a sequence of steps in which a request appears pending, is asked
    again while it is pending, is settled with the decision of its new status, is spent once
    if it is an approved external action, or goes with its session; and nothing else happens
    to any request, its action, session, status and decisions. *)
Theorem approvals_refine_spec w w' : ledger w -> rtc op_step w w' -> rtc (spec_step gone) (view w) (view w').
Proof. intros Hl Hr. by apply (op_steps_orderly w w' Hr). Qed.

Lemma lapsed_effects w : effects (lapsed w) = effects w.
Proof.
  unfold lapsed. destruct (sweep_run (a_wall w) (set_wall (clock_after (a_wall w)) w)) as (ids & w1 & -> & _ & E & _).
  exact E.
Qed.
Lemma lapsed_pending w : a_pending (lapsed w) = map (lapse (a_wall w)) (a_pending w).
Proof.
  unfold lapsed. destruct (sweep_run (a_wall w) (set_wall (clock_after (a_wall w)) w)) as (ids & w1 & -> & E & _).
  exact E.
Qed.
(** A row still pending after the overdue ones lapsed was live. *)
Lemma lapsed_live w id row :
  approval_get (a_pending (lapsed w)) id = Ok row -> pa_status row = Approval.Pending ->
  In row (a_pending w) /\ pa_approval_id row = id /\ is_actionable_at row (a_wall w) = true.
Proof.
  intros Hg Hs. apply approval_get_Ok in Hg as [HIn Hi]. rewrite lapsed_pending in HIn.
  apply in_map_iff in HIn as (a & Ea & Ha). unfold lapse in Ea. destruct (expiring (a_wall w) a) eqn:Ex.
  { subst row. done. }
  subst row. split; [done|]. split; [done|]. unfold is_actionable_at. unfold expiring, is_pending in Ex.
  rewrite Hs, bool_decide_true in * by done. cbn in *. by rewrite Ex.
Qed.

Definition live (w : AState) (id : uuid) : Prop :=
  exists a, In a (a_pending w) /\ pa_approval_id a = id /\ is_actionable_at a (a_wall w) = true.
Lemma settled_acts id target act outcome decided_by w r w' :
  settled id target act outcome decided_by (lapsed w) r w' ->
  (effects w' = effects w /\ forall x, r = Ok x -> re_applied x = false) \/ live w id.
Proof.
  intros Hs. pose proof (lapsed_effects w) as He.
  destruct Hs as [| | |row e w2 Eg Ep _|row eff w2 w3 Eg Ep _ _ _ _ _]; [left..|right|right].
  - by split.
  - split; [done|]. by intros x [= <-].
  - by split.
  - exists row. by apply lapsed_live.
  - exists row. by apply lapsed_live.
Qed.
Lemma settled_logs id target act outcome decided_by w1 x w' :
  settled id target act outcome decided_by w1 (Ok x) w' -> re_applied x = true ->
  exists d, a_decisions w' = a_decisions w1 ++ [d] /\ de_approval_id d = id /\ de_outcome d = outcome
            /\ de_decided_by d = decided_by.
Proof. intros Hs Hx. inversion Hs; subst; done. Qed.

(** C36. Only a live request, pending and not past its deadline, has an effect when it is
    approved.  From a table whose log is in order: if the call changes any user, chat,
    setting, grant, clearance or skill, or reports that it applied the request, then the
    request was live; and an applied approval ends the log with the approval and the name of
    who decided.  What the call does to requests that are not live, it does before: overdue
    ones lapse, and that is logged. *)
Theorem only_live_requests_act id decided_by w :
  ledger w ->
  let '(r, w') := resolve_approve id decided_by w in
  (effects w' <> effects w -> live w id)
  /\ forall x, r = Ok x -> re_applied x = true ->
       live w id /\ exists d, last (a_decisions w') = Some d /\ de_approval_id d = id
                              /\ de_outcome d = Approve /\ de_decided_by d = decided_by.
Proof.
  intros Hl. pose proof (settle_run id Approval.Approved "approve" _ Approve decided_by None w
    ltac:(done) (approve_act_book decided_by) Hl) as Hs. fold (resolve_approve id decided_by w) in Hs.
  destruct (resolve_approve id decided_by w) as [r w'].
  pose proof (settled_acts _ _ _ _ _ _ _ _ Hs) as Ha. split.
  - intros Hne. by destruct Ha as [[E _]|].
  - intros x -> Hx. split; [destruct Ha as [[_ E]|]; [|done]; by rewrite (E x eq_refl) in Hx|].
    destruct (settled_logs _ _ _ _ _ _ _ _ Hs Hx) as (d & -> & Hd). exists d. split; [apply last_snoc | done].
Qed.

Lemma approver_has_role w g tap x :
  resolve_approver w g tap = Some x ->
  exists sender user role, tap_sender tap = Some sender
    /\ In user (a_users w) /\ u_id user = derive_user_id (se_channel_type sender) (se_identity sender)
    /\ In role (a_roles w) /\ ur_user_id role = u_id user
    /\ (ur_agent_group_id role = None \/ ur_agent_group_id role = Some g).
Proof.
  unfold resolve_approver. destruct (tap_sender tap) as [sender|]; [|done].
  destruct (sql_get _ _) as [user|] eqn:Eu; [|done]. apply find_some in Eu as [Hu Hi%Z.eqb_eq].
  destruct (existsb _ _) eqn:Er; [|done]. intros _. apply existsb_exists in Er as (role & Hr & Ha).
  unfold list_for_user in Hr. apply order_by_In, List.filter_In in Hr as [Hr Hid%Z.eqb_eq].
  apply andb_prop in Ha as [_ Ha]. exists sender, user, role. repeat (split; [done|]).
  destruct (ur_agent_group_id role) as [g'|]; [right|by left]. apply Z.eqb_eq in Ha. by subst.
Qed.

(** Answering a tap once its outcome is known cannot fail. *)
Lemma card_ok tap id verb approver w : exists w', edit_card tap id verb approver w = (Ok tt, w').
Proof.
  unfold edit_card, gets, mbind. destruct (approval_get _ _) as [row|]; [|by eexists].
  destruct (pa_platform_message_id row); by eexists.
Qed.
Lemma answer_ok tap g id verb approver r w :
  exists w', answer tap g id verb approver r w = (Ok Handled, w').
Proof.
  unfold answer. destruct r as [x|e].
  - destruct (re_applied x); [|by eexists]. unfold audit, mbind, utc_now, modify. cbv zeta.
    match goal with |- context [edit_card tap id verb approver ?w1] =>
      destruct (card_ok tap id verb approver w1) as (w' & ->) end. by eexists.
  - repeat case_match; by eexists.
Qed.

(** A tap on an approval card always ends normally; it is passed on to
    the agent exactly when it is no approval button; and unless its sender is
    a known user with an owner or admin role, global or for the agent group of
    the chat, it changes nothing but the overdue requests, which lapse. *)
Theorem tap_needs_role tap w :
  exists d w', handle_tap tap w = (Ok d, w')
  /\ (d = Passthrough <-> parse_callback (tap_callback_data tap) = None)
  /\ ((effects w' = effects w /\ (a_pending w' = a_pending w \/ a_pending w' = map (lapse (a_wall w)) (a_pending w)))
      \/ exists sender user role, tap_sender tap = Some sender
           /\ In user (a_users w) /\ u_id user = derive_user_id (se_channel_type sender) (se_identity sender)
           /\ In role (a_roles w) /\ ur_user_id role = u_id user
           /\ (ur_agent_group_id role = None \/ ur_agent_group_id role = Some (tap_agent_group_id tap))).
Proof.
  unfold handle_tap. destruct (parse_callback _) as [[verb s]|]; [|by do 2 eexists; repeat split; auto].
  destruct (parse_uuid _) as [id|]; [|by do 2 eexists; repeat split; auto]. cbv zeta.
  destruct (expire_run w) as (w1 & E & Hp & He & Hr & _).
  unfold mbind at 1. rewrite E. unfold mbind at 1, gets.
  destruct (resolve_approver w1 (tap_agent_group_id tap) tap) as [[u approver]|] eqn:Ea.
  - unfold mbind at 1, catch. destruct (resolve verb id approver w1) as [r w2]. cbv beta iota.
    destruct (answer_ok tap (tap_agent_group_id tap) id verb approver r w2) as (w' & Hw).
    exists Handled, w'. split; [exact Hw|]. split; [done|]. right.
    apply approver_has_role in Ea. rewrite Hr in Ea.
    assert (a_users w1 = a_users w) as Hu by (unfold effects in He; congruence). by rewrite Hu in Ea.
  - do 2 eexists. split; [reflexivity|]. split; [done|]. left. split; [exact He | right; exact Hp].
Qed.
End Settling.

(** ** Concrete runs *)

Module Witnesses.
#[export] Instance demo : Outside := {|
  derive_user_id channel identity := Z.of_nat (String.length channel + String.length identity);
  parse_uuid := parse_uint u64_max;
  show_uuid := show_z;
  parse_rfc3339 _ := Err (lit "unsupported");
  db_text _ := lit "constraint";
  clock_after t := t + 1;
  row_exists _ := true;
  task_exists _ := true;
  save_group_skill dest _ name _ := Ok (dest ++ lit "/" ++ name);
  canonicalize p := Ok p;
  clearance_write_error _ := None;
|}.
Definition preview_request : PendingApproval :=
  mkApproval 7 None "r1" "enable_preview" JNull 0 (Some 20) (Some "telegram"%string) (Some "chat"%string)
    (Some "m1"%string) (Some 100) Approval.Pending (lit "Enable preview") [].
Definition old_request : PendingApproval :=
  mkApproval 8 None "r2" "enable_preview" JNull 0 (Some 20) None None None (Some 5) Approval.Pending [] [].
(** A user with the admin role of group 10, and settings of group 20. *)
Definition start : AState :=
  mkAState [preview_request; old_request] [] 1 [mkUser 11 "telegram" None 0] [mkUserRole 11 Admin (Some 10) 0] []
    {[ 20 := default_config ]} {[ 10; 20 ]} [] ∅ [] [] [] 50 10.
Definition group_admin_tap : Tap :=
  mkTap (lit "approve:7") (Some (mkSender "telegram" "ann" None)) 10 "telegram" "chat" None.

Lemma start_ledger : ledger start.
Proof.
  constructor; cbn.
  - constructor; [by intros [|[]] | by constructor; [intros []|constructor]].
  - intros a [<-|[<-|[]]]; by left.
  - done.
Qed.

(** An exposure that is asked for, approved, and spent when it is asked for again. *)
Definition tunnel_request : UpsertPendingApproval :=
  mkUpsertApproval None "tunnel:5:8100:n" TUNNEL_APPROVAL_ACTION JNull None None None None None (lit "Expose") [].
Definition asked_tunnel : AState := snd (expose tunnel_request start).
Definition tunnel_approved : AState := snd (resolve_approve 50 (lit "host") asked_tunnel).
Definition tunnel_spent : AState := snd (expose tunnel_request tunnel_approved).
Definition no_one (_ : uuid) : Prop := False.
Lemma run_to_approved : rtc (op_step no_one) start tunnel_approved.
Proof.
  apply rtc_l with asked_tunnel; [by apply (step_expose _ _ _ tunnel_request)|].
  apply rtc_once. by apply (step_approve _ _ _ 50 (lit "host")).
Qed.
Lemma approved_ledger : ledger tunnel_approved.
Proof. apply (op_steps_orderly no_one start tunnel_approved run_to_approved start_ledger). Qed.
Lemma settled_once_witness :
  ledger tunnel_spent /\ outcomes (a_decisions tunnel_spent) 50 = [Approve; Revoke]
  /\ exists a', In a' (a_pending tunnel_spent) /\ pa_approval_id a' = 50 /\ pa_action a' = TUNNEL_APPROVAL_ACTION.
Proof.
  destruct (settled_once no_one tunnel_approved tunnel_spent approved_ledger) as [Hl Hs];
    [apply rtc_once; by apply (step_expose _ _ _ tunnel_request)|].
  split; [exact Hl|]. split; [reflexivity|].
  destruct (List.nth_error (a_pending tunnel_approved) 2) as [a|] eqn:E; [|discriminate E].
  assert (In a (a_pending tunnel_approved)) as Ha by (eapply nth_error_In; exact E).
  vm_compute in E. injection E as <-.
  destruct (Hs _ Ha) as (a' & Hin & Hid & Hact & _); [discriminate | intros s Hx; discriminate Hx|].
  exists a'. split; [exact Hin|]. split; [exact Hid | exact Hact].
Defined.
Lemma approvals_refine_spec_witness :
  rtc (spec_step no_one) (view tunnel_approved) (view tunnel_spent)
  /\ view tunnel_approved !! 50 = Some (mkRequest TUNNEL_APPROVAL_ACTION None Approval.Approved [Approve])
  /\ view tunnel_spent !! 50 = Some (mkRequest TUNNEL_APPROVAL_ACTION None Approval.Revoked [Approve; Revoke]).
Proof.
  split; [|split; reflexivity].
  apply (approvals_refine_spec no_one); [apply approved_ledger|]. apply rtc_once. by apply (step_expose _ _ _ tunnel_request).
Defined.
(** The list the tunnel searches has the oldest request first, not the newest: once a grant
    was spent, a later approval of the same exposure is never found, and every call asks
    again. *)
Example second_grant_never_found :
  let again := snd (expose tunnel_request tunnel_spent) in
  let approved := snd (resolve_approve 51 (lit "host") again) in
  view approved !! 51 = Some (mkRequest TUNNEL_APPROVAL_ACTION None Approval.Approved [Approve])
  /\ fst (expose tunnel_request approved) = Ok ApprovalRaised
  /\ view (snd (expose tunnel_request approved)) !! 51 = view approved !! 51
  /\ fst (expose tunnel_request (snd (expose tunnel_request approved))) = Ok ApprovalRaised.
Proof. vm_compute. repeat split. Qed.
Lemma only_live_requests_act_witness : live start 7.
Proof.
  pose proof (only_live_requests_act 7 (lit "host") start start_ledger) as H.
  destruct (resolve_approve 7 (lit "host") start) as [r w'] eqn:E. vm_compute in E. injection E as <- <-.
  apply H. intros Hc. by vm_compute in Hc.
Defined.
End Witnesses.
