(* ===== verification/ApprovalsRace.v ===== *)
(** Two gaps of the approval workflow: calls that overlap in time, and the
    group an approver's role is checked against.

    A call of [resolve_approve] or [resolve_deny] reads the row, applies the
    effect and writes the status in separate statements on a pooled
    connection; [advance] is one statement of such a call, and
    [advance_is_resolve] shows that a call that runs alone is the function
    itself. *)
From stdpp Require Import relations.
From S2P Require Import Prelude Gate Grants Types Central Approvals ApprovalsProps.

(** ** One call, statement by statement *)

Inductive stage : Type :=
| Begun
| Swept
| Found (row : PendingApproval)
| Acted (row : PendingApproval) (effect : option SideEffect)
| Stamped (row : PendingApproval) (effect : option SideEffect)
| Logged (effect : option SideEffect)
| Done (r : result ErrorPayload Resolution).

Section Race.
Context `{Outside}.

Definition target (v : Verb) : ApprovalStatus :=
  match v with VApprove => Approval.Approved | VDeny => Approval.Denied end.
Definition outcome (v : Verb) : DecisionOutcome := match v with VApprove => Approve | VDeny => Deny end.
Definition act (v : Verb) (row : PendingApproval) (decided_by : rstr) : AM (option SideEffect) :=
  match v with
  | VApprove => let! effect := apply_effect row decided_by in ret (Some effect)
  | VDeny => ret None
  end.
(** The next stage, or the error that ends the call. *)
Definition attempt {A} (m : AM A) (next : A -> stage) : AM stage :=
  let! r := catch m in
  ret (match r with Ok a => next a | Err e => Done (Err e) end).
Definition advance (v : Verb) (id : uuid) (decided_by : rstr) (s : stage) : AM stage :=
  match s with
  | Begun => attempt (let! now := utc_now in sweep_expired now) (fun _ => Swept)
  | Swept =>
      attempt (get_row id) (fun row =>
        if bool_decide (pa_status row = target v) then Done (Ok (mkResolution row false None))
        else if negb (is_pending row)
        then Done (Err (mkError "conflict" (lit "row is " ++ lit (Approval.as_str (pa_status row))
                          ++ lit "; refusing to " ++ verb_label v)))
        else Found row)
  | Found row => attempt (act v row decided_by) (Acted row)
  | Acted row effect => attempt (update_row id (target v)) (fun _ => Stamped row effect)
  | Stamped row effect =>
      attempt (record_decision id (pa_action row) (outcome v) decided_by None) (fun _ => Logged effect)
  | Logged effect => attempt (get_row id) (fun after => Done (Ok (mkResolution after true effect)))
  | Done r => ret (Done r)
  end.
Definition is_finished (s : stage) : bool := match s with Done _ => true | _ => false end.
Fixpoint run_alone (n : nat) (v : Verb) (id : uuid) (decided_by : rstr) (s : stage) : AM stage :=
  match n with
  | O => ret s
  | S n' => let! s' := advance v id decided_by s in run_alone n' v id decided_by s'
  end.

(** Calls in flight on one state: any of them takes its next statement. *)
Record Call : Type := mkCall { ca_verb : Verb; ca_id : uuid; ca_by : rstr; ca_stage : stage }.
Inductive race_step : list Call * AState -> list Call * AState -> Prop :=
| race_one before c after w s w' :
    is_finished (ca_stage c) = false ->
    advance (ca_verb c) (ca_id c) (ca_by c) (ca_stage c) w = (Ok s, w') ->
    race_step (before ++ c :: after, w)
      (before ++ mkCall (ca_verb c) (ca_id c) (ca_by c) s :: after, w').

Lemma run_done n v id by_ r w : run_alone n v id by_ (Done r) w = (Ok (Done r), w).
Proof. induction n as [|n IH]; [done|]. exact IH. Qed.
Lemma run_next {A} n v id by_ s (m : AM A) (next : A -> stage) w :
  advance v id by_ s = attempt m next ->
  run_alone (S n) v id by_ s w
    = match m w with
      | (Ok a, w') => run_alone n v id by_ (next a) w'
      | (Err e, w') => (Ok (Done (Err e)), w')
      end.
Proof.
  intros E. cbn [run_alone]. rewrite E. unfold attempt, mbind, catch, ret.
  destruct (m w) as [[a|e] w']; [done | apply run_done].
Qed.
Lemma settle_resolve v id by_ :
  resolve v id by_
    = settle id (target v) (match v with VApprove => "approve" | VDeny => "deny" end)
        (fun row => act v row by_) (outcome v) by_ None.
Proof. by destruct v. Qed.
(** [mbind] applied to a state. *)
Lemma bind_run {A B} (m : AM A) (k : A -> AM B) w :
  mbind m k w = match m w with (Ok a, w') => k a w' | (Err e, w') => (Err e, w') end.
Proof. unfold mbind. by destruct (m w) as [[a|e] w']. Qed.

(** A call that nobody interrupts is the function itself: its six
    statements run to the end and give the result and the state of
    [resolve]. *)
Theorem advance_is_resolve v id decided_by w :
  run_alone 6 v id decided_by Begun w
    = let '(r, w') := resolve v id decided_by w in (Ok (Done r), w').
Proof.
  rewrite settle_resolve. unfold settle. rewrite (run_next 5 v id decided_by Begun _ _ w eq_refl), !bind_run.
  destruct (utc_now w) as [[now|e] w0]; [|done]. rewrite bind_run.
  destruct (sweep_expired now w0) as [[ids|e] w1]; [|done].
  rewrite (run_next 4 v id decided_by Swept _ _ w1 eq_refl), bind_run.
  destruct (get_row id w1) as [[row|e] w2]; [|done].
  destruct (bool_decide (pa_status row = target v)); [apply run_done|].
  destruct (negb (is_pending row)); [rewrite run_done; by destruct v|].
  rewrite (run_next 3 v id decided_by (Found row) _ _ w2 eq_refl), bind_run.
  destruct (act v row decided_by w2) as [[eff|e] w3]; [|done].
  rewrite (run_next 2 v id decided_by (Acted row eff) _ _ w3 eq_refl), bind_run.
  destruct (update_row id (target v) w3) as [[[]|e] w4]; [|done].
  rewrite (run_next 1 v id decided_by (Stamped row eff) _ _ w4 eq_refl), bind_run.
  destruct (record_decision id (pa_action row) (outcome v) decided_by None w4) as [[[]|e] w5]; [|done].
  rewrite (run_next 0 v id decided_by (Logged eff) _ _ w5 eq_refl), bind_run.
  by destruct (get_row id w5) as [[after|e] w6].
Qed.

(** ** Two calls on one request *)

Definition pair (id : uuid) (by1 : rstr) (s1 : stage) (by2 : rstr) (s2 : stage) (w : AState)
  : list Call * AState := ([mkCall VApprove id by1 s1; mkCall VDeny id by2 s2], w).
Lemma first_moves id by1 s1 by2 s2 w s w' :
  is_finished s1 = false -> advance VApprove id by1 s1 w = (Ok s, w') ->
  race_step (pair id by1 s1 by2 s2 w) (pair id by1 s by2 s2 w').
Proof. intros Hf Ha. exact (race_one [] (mkCall VApprove id by1 s1) [mkCall VDeny id by2 s2] w s w' Hf Ha). Qed.
Lemma second_moves id by1 s1 by2 s2 w s w' :
  is_finished s2 = false -> advance VDeny id by2 s2 w = (Ok s, w') ->
  race_step (pair id by1 s1 by2 s2 w) (pair id by1 s1 by2 s w').
Proof. intros Hf Ha. exact (race_one [mkCall VApprove id by1 s1] (mkCall VDeny id by2 s2) [] w s w' Hf Ha). Qed.

Lemma attempt_Ok {A} (m : AM A) (next : A -> stage) w a w' :
  m w = (Ok a, w') -> attempt m next w = (Ok (next a), w').
Proof. unfold attempt, mbind, catch. by intros ->. Qed.

(** The two statements before the effect, on a request that is live. *)
Lemma begun_moves v id by_ w : advance v id by_ Begun w = (Ok Swept, lapsed w).
Proof.
  unfold lapsed. destruct (sweep_run (a_wall w) (set_wall (clock_after (a_wall w)) w)) as (ids & w1 & E & _).
  rewrite E. cbn [advance snd]. apply (attempt_Ok _ _ _ ids). unfold utc_now, mbind. exact E.
Qed.
Lemma lapse_live now a : is_actionable_at a now = true -> lapse now a = a.
Proof.
  unfold is_actionable_at. intros [_ Hx]%andb_prop. apply negb_true_iff in Hx. unfold lapse, expiring.
  by rewrite Hx, andb_false_r.
Qed.
Lemma lapsed_In w row :
  In row (a_pending w) -> is_actionable_at row (a_wall w) = true -> In row (a_pending (lapsed w)).
Proof. intros Ha Hl. rewrite lapsed_pending, <- (lapse_live _ _ Hl). by apply in_map. Qed.
Lemma approval_get_In w row :
  ledger w -> In row (a_pending w) -> approval_get (a_pending w) (pa_approval_id row) = Ok row.
Proof.
  intros Hl Ha. unfold approval_get, sql_get. destruct (List.find _ _) as [r|] eqn:E.
  - apply find_some in E as [Hr Hi]. by rewrite (id_pending _ row r (lg_ids _ _ Hl) Ha Hr Hi).
  - pose proof (find_none _ _ E row Ha) as Hn. unfold pa_has_id in Hn. by rewrite Z.eqb_refl in Hn.
Qed.
Lemma get_row_In w row :
  ledger w -> In row (a_pending w) -> get_row (pa_approval_id row) w = (Ok row, w).
Proof.
  intros Hl Ha. unfold get_row, gets, mbind, Approvals.db, lift. by rewrite (approval_get_In w row).
Qed.
Lemma swept_moves v by_ w row :
  ledger w -> In row (a_pending w) -> pa_status row = Approval.Pending ->
  advance v (pa_approval_id row) by_ Swept w = (Ok (Found row), w).
Proof.
  intros Hl Ha Hs. cbn [advance]. rewrite (attempt_Ok _ _ w row w (get_row_In w row Hl Ha)).
  rewrite bool_decide_false by (rewrite Hs; by destruct v). unfold is_pending. by rewrite bool_decide_true.
Qed.

(** From the effect to the end. *)
Lemma finish_moves v by_ row row' eff w :
  List.NoDup (map pa_approval_id (a_pending w)) -> In row' (a_pending w) ->
  pa_approval_id row' = pa_approval_id row ->
  let id := pa_approval_id row in
  exists w1 w2 after,
    advance v id by_ (Acted row eff) w = (Ok (Stamped row eff), w1)
    /\ advance v id by_ (Stamped row eff) w1 = (Ok (Logged eff), w2)
    /\ advance v id by_ (Logged eff) w2 = (Ok (Done (Ok (mkResolution after true eff))), w2)
    /\ effects w2 = effects w
    /\ a_pending w2 = map (fun a => if pa_has_id id a then with_status (target v) a else a) (a_pending w)
    /\ outcomes (a_decisions w2) id = outcomes (a_decisions w) id ++ [outcome v].
Proof.
  intros Hnd Ha Hi id. destruct (stamp_and_log id (target v) (pa_action row) (outcome v) by_ None row' w Hnd Ha Hi)
    as (w1 & w2 & Hu & Hr & Hg & He & Hp & (d & Hd & Hdi & Hdo & _) & _).
  exists w1, w2, (with_status (target v) row').
  split; [exact (attempt_Ok _ (fun _ => Stamped row eff) _ tt _ Hu)|].
  split; [exact (attempt_Ok _ (fun _ => Logged eff) _ tt _ Hr)|].
  split; [exact (attempt_Ok _ (fun after => Done (Ok (mkResolution after true eff))) _ _ _ Hg)|].
  split; [done|]. split; [done|]. rewrite Hd, outcomes_app. unfold outcomes at 2. cbn.
  by rewrite Hdi, Z.eqb_refl, <- Hdo.
Qed.

(** Two overlapping calls both settle one request.  If an approval and a
    denial of a live request both read it before either has written its
    status, both report that they were applied: the effect of the approval
    stays, the request ends denied, and its log holds both decisions. *)
Theorem denied_request_took_effect row by1 by2 effect w w1 :
  let id := pa_approval_id row in
  ledger w -> In row (a_pending w) -> pa_status row = Approval.Pending ->
  is_actionable_at row (a_wall w) = true -> is_actionable_at row (a_wall (lapsed w)) = true ->
  apply_effect row by1 (lapsed (lapsed w)) = (Ok effect, w1) ->
  exists w' after1 after2,
    rtc race_step (pair id by1 Begun by2 Begun w)
      (pair id by1 (Done (Ok (mkResolution after1 true (Some effect))))
            by2 (Done (Ok (mkResolution after2 true None))) w')
    /\ effects w' = effects w1
    /\ option_map rq_status (view w' !! id) = Some Approval.Denied
    /\ outcomes (a_decisions w') id = [Approve; Deny].
Proof.
  intros id Hl Ha Hs Hl1 Hl2 Hact.
  pose proof (lapsed_In w row Ha Hl1) as Ha1. destruct (lapsed_orderly (fun _ => False) w Hl) as [Hw1 _].
  pose proof (lapsed_In _ row Ha1 Hl2) as Ha2. destruct (lapsed_orderly (fun _ => False) _ Hw1) as [Hw2 _].
  set (w2 := lapsed (lapsed w)) in *.
  assert (book w1 = book w2) as Hb.
  { pose proof (apply_effect_book row by1 w2) as Hb. by rewrite Hact in Hb. }
  injection Hb as Hp Hd _.
  destruct (finish_moves VApprove by1 row row (Some effect) w1) as (x1 & x2 & after1 & M1 & M2 & M3 & E1 & P1 & O1);
    [rewrite Hp; apply Hw2 | by rewrite Hp | done|].
  destruct (finish_moves VDeny by2 row (with_status Approval.Approved row) None x2)
    as (y1 & y2 & after2 & N1 & N2 & N3 & E2 & P2 & O2).
  { rewrite P1, map_map, Hp. rewrite (map_ext _ pa_approval_id); [apply Hw2|]. intros a. by destruct (pa_has_id _ a). }
  { rewrite P1, Hp. apply in_map_iff. exists row. unfold pa_has_id. by rewrite Z.eqb_refl. }
  { done. }
  exists y2, after1, after2. split; [|split; [congruence|split]].
  - assert (act VApprove row by1 w2 = (Ok (Some effect), w1)) as Hact'.
    { cbn [act]. by rewrite bind_run, Hact. }
    eapply rtc_l; [by apply first_moves, begun_moves|]. eapply rtc_l; [by apply second_moves, begun_moves|].
    eapply rtc_l; [by apply first_moves; [|apply swept_moves]|].
    eapply rtc_l; [by apply second_moves; [|apply swept_moves]|].
    eapply rtc_l; [apply first_moves; [done | exact (attempt_Ok _ (Acted row) _ _ _ Hact')]|].
    do 3 (eapply rtc_l; [by apply first_moves; [|eassumption]|]).
    eapply rtc_l; [apply second_moves; [done | exact (attempt_Ok (ret None) (Acted row) _ _ _ eq_refl)]|].
    do 3 (eapply rtc_l; [by apply second_moves; [|eassumption]|]). apply rtc_refl.
  - change id with (pa_approval_id (with_status Approval.Denied (with_status Approval.Approved row))).
    unfold view. rewrite (view_In (a_pending y2) _ (with_status Approval.Denied (with_status Approval.Approved row))); [done|..].
    + rewrite P2, P1, !map_map, Hp. rewrite (map_ext _ pa_approval_id); [apply Hw2|].
      intros a. by destruct (pa_has_id _ a) eqn:E; [destruct (pa_has_id _ (with_status _ a)) | rewrite E].
    + rewrite P2, P1, Hp, map_map. apply in_map_iff. exists row. unfold pa_has_id.
      repeat (rewrite Z.eqb_refl; cbn). done.
  - unfold id. rewrite O2, O1, Hd, (pending_log _ _ row Hw2 Ha2 Hs). done.
Qed.

(** ** Whose role counts *)

Lemma expire_wall w : a_wall (snd (expire_and_edit_cards w)) = clock_after (a_wall w).
Proof.
  unfold expire_and_edit_cards, mbind, utc_now, gets. cbn [a_pending set_wall].
  destruct (List.filter _ (approval_list _ _ _)) as [|row doomed]; [done|].
  destruct (sweep_run (a_wall w) (set_wall (clock_after (a_wall w)) w)) as (ids & w1 & E & _ & _ & Hr & _).
  rewrite E. unfold modify. cbn [snd]. transitivity (a_wall w1); [|by injection Hr].
  generalize (row :: doomed). clear. intros l. revert w1. induction l as [|r l IH]; intros w; cbn; [done|].
  rewrite IH. unfold stamp_expired. destruct (negb _); [done|].
  by destruct (pa_channel_type r), (pa_platform_id r), (pa_platform_message_id r).
Qed.

Lemma tap_resolves tap w s verb id user name :
  parse_callback (tap_callback_data tap) = Some (verb, s) -> parse_uuid (trim s) = Some id ->
  resolve_approver w (tap_agent_group_id tap) tap = Some (user, name) ->
  let w1 := snd (expire_and_edit_cards w) in
  effects (snd (handle_tap tap w)) = effects (snd (resolve verb id name w1)).
Proof.
  intros Hc Hu Hr w1. unfold handle_tap. rewrite Hc, Hu. cbv zeta. rewrite bind_run.
  destruct (expire_run (fun _ => False) w) as (w1' & E & _ & He & Hroles & _). unfold w1. rewrite E. cbn [snd]. rewrite bind_run.
  unfold gets. assert (a_users w1' = a_users w) as Hus by (unfold effects in He; congruence).
  assert (resolve_approver w1' (tap_agent_group_id tap) tap = Some (user, name)) as ->.
  { rewrite <- Hr. unfold resolve_approver. by rewrite Hus, Hroles. }
  rewrite bind_run. unfold catch. destruct (resolve verb id name w1') as [r w2]. cbn [snd].
  pose proof (answer_desk tap (tap_agent_group_id tap) id verb name r w2) as Hd.
  unfold same, desk in Hd. apply pair_equal_spec in Hd as [Hd _]. apply pair_equal_spec in Hd as [_ Hd]. exact Hd.
Qed.

Lemma enable_preview_run row by_ g c w :
  pa_action row = "enable_preview"%string -> pa_agent_group_id row = Some g -> a_configs w !! g = Some c ->
  exists w', apply_effect row by_ w = (Ok (DidPreview g), w')
    /\ a_configs w' = <[g := set_preview_enabled true c]> (a_configs w).
Proof.
  intros Ha Hg Hc. unfold apply_effect. rewrite Ha. cbn [String.eqb Ascii.eqb Bool.eqb orb].
  unfold apply_enable_preview. rewrite Hg. cbn [required].
  unfold ensure_config_row, update_config, gets, modify, mbind, ret. cbn beta iota. rewrite Hc. cbn beta iota.
  rewrite Hc. eexists. by split.
Qed.

(** The approver's role is checked for the agent group of the chat the
    tap comes from, never for the group of the request: an admin of that group
    who has no role for the request's group, nor a global one, can approve the
    request, and the change is made in the other group. *)
Theorem chat_admin_approves_for_any_group tap w s row user name g c :
  ledger w -> In row (a_pending w) ->
  is_actionable_at row (a_wall w) = true -> is_actionable_at row (clock_after (a_wall w)) = true ->
  parse_callback (tap_callback_data tap) = Some (VApprove, s) ->
  parse_uuid (trim s) = Some (pa_approval_id row) ->
  resolve_approver w (tap_agent_group_id tap) tap = Some (user, name) ->
  pa_action row = "enable_preview"%string -> pa_agent_group_id row = Some g -> a_configs w !! g = Some c ->
  (forall r, In r (a_roles w) -> ur_user_id r = user ->
     ur_agent_group_id r <> None /\ ur_agent_group_id r <> Some g) ->
  option_map cc_preview_enabled (a_configs (snd (handle_tap tap w)) !! g) = Some true.
Proof.
  intros Hl Ha Hl1 Hl2 Hcb Hid Hr Hact Hg Hc _.
  pose proof (tap_resolves tap w s VApprove _ user name Hcb Hid Hr) as He. cbv zeta in He.
  destruct (expire_run (fun _ => False) w) as (w1 & E & Hp & He1 & _ & Ho). pose proof (expire_wall w) as Hw.
  rewrite E in He, Hw. cbn [snd] in He, Hw. destruct (Ho Hl) as [Hl1' _].
  assert (In row (a_pending w1)) as Ha1 by (rewrite Hp, <- (lapse_live _ _ Hl1); by apply in_map).
  pose proof (lapsed_In w1 row Ha1 ltac:(by rewrite Hw)) as Ha2. destruct (lapsed_orderly (fun _ => False) w1 Hl1') as [Hl2' _].
  assert (a_configs (lapsed w1) !! g = Some c) as Hc1.
  { rewrite <- Hc. pose proof (lapsed_effects w1) as Hf. unfold effects in *. congruence. }
  destruct (enable_preview_run row name g c (lapsed w1) Hact Hg Hc1) as (w2 & Hrun & Hcfg).
  assert (pa_status row = Approval.Pending) as Hs.
  { unfold is_actionable_at in Hl1. apply andb_prop in Hl1 as [Hs _]. by apply bool_decide_eq_true in Hs. }
  pose proof (approval_get_In _ _ Hl2' Ha2) as Hget.
  pose proof (settle_run (pa_approval_id row) Approval.Approved "approve" _ Approve name None w1
    ltac:(done) (approve_act_book name) Hl1') as Hset.
  fold (resolve_approve (pa_approval_id row) name w1) in Hset. cbn [resolve] in He.
  destruct (resolve_approve (pa_approval_id row) name w1) as [r w3]. cbn [snd] in He.
  inversion Hset as [e Eg|row' Eg Es|row' m Eg En Ep|row' e w4 Eg Ep Ea|row' eff w4 w5 Eg Ep Ea Hf _ _ _]; subst;
    rewrite Hget in Eg; try (injection Eg as <-); try congruence.
  - exfalso. rewrite bind_run, Hrun in Ea. by unfold ret in Ea.
  - rewrite bind_run, Hrun in Ea. injection Ea as _ <-.
    assert (a_configs (snd (handle_tap tap w)) = a_configs w2) as -> by (unfold effects in *; congruence).
    by rewrite Hcfg, lookup_insert, decide_True.
Qed.
End Race.

(** ** Concrete runs *)

Module RaceWitnesses.
Import Witnesses.

Lemma denied_request_took_effect_witness :
  exists w' after1 after2,
    rtc race_step (pair 7 (lit "ann") Begun (lit "bob") Begun start)
      (pair 7 (lit "ann") (Done (Ok (mkResolution after1 true (Some (DidPreview 20)))))
            (lit "bob") (Done (Ok (mkResolution after2 true None))) w')
    /\ effects w' = effects (snd (apply_effect preview_request (lit "ann") (lapsed (lapsed start))))
    /\ option_map rq_status (view w' !! 7) = Some Approval.Denied
    /\ outcomes (a_decisions w') 7 = [Approve; Deny].
Proof.
  apply (denied_request_took_effect preview_request); [apply start_ledger | by left | done..| by vm_compute].
Defined.

Lemma chat_admin_approves_for_any_group_witness :
  option_map cc_preview_enabled (a_configs (snd (handle_tap group_admin_tap start)) !! 20) = Some true.
Proof.
  apply (chat_admin_approves_for_any_group _ start (lit "7") preview_request 11 (lit "ann") 20 default_config);
    [apply start_ledger | by left | by vm_compute..|].
  by intros r [<-|[]] _.
Defined.
End RaceWitnesses.
