(* ===== verification/Schedule.v ===== *)
(** Scheduled tasks ([copperclaw-modules/src/scheduling.rs],
    [copperclaw-db/src/tables/tasks.rs],
    [copperclaw-host-sweep/src/task_store.rs]; the rows the runner writes,
    [copperclaw-runner/src/tools.rs]): the language of schedules, the next fire
    time, the table of tasks, and the handler that applies what an agent asks.

    Dates ([chrono]) and cron expressions ([croner]) are parameters; a text
    offset is taken apart here.  A panic is the error [Panics]. *)
From S2P Require Import Prelude Types.

(** ** Schedules *)

Inductive ScheduleError : Type :=
| Empty
| Unsupported (s : rstr)
| BadOffset (s : rstr)
| BadTimeOfDay (s : rstr)
| BadTimestamp (s : rstr)
| BadCron (s : rstr)
| BadRecurrence (s : rstr).
(** [Display] of the error. *)
Definition schedule_error_text (e : ScheduleError) : rstr :=
  let with_arg what s := lit what ++ lit " `" ++ s ++ lit "`" in
  match e with
  | Empty => lit "schedule string is empty"
  | Unsupported s => with_arg "unsupported schedule syntax:"%string s
  | BadOffset s => with_arg "invalid relative offset"%string s
  | BadTimeOfDay s => with_arg "invalid time-of-day"%string s
  | BadTimestamp s => with_arg "invalid timestamp"%string s
  | BadCron s => with_arg "invalid cron expression"%string s
  | BadRecurrence s => with_arg "invalid recurrence"%string s
  end.

Inductive When : Type :=
| At (t : instant)
| Cron (expr : rstr)
| DailyAt (hour minute : Z).
Definition is_recurring (w : When) : bool :=
  match w with Cron _ | DailyAt _ _ => true | At _ => false end.

(** A call that fails with [e], or panics. *)
Inductive fault (E : Type) : Type :=
| Fails (e : E)
| Panics.
Arguments Fails {E} e.
Arguments Panics {E}.

(** [chrono] and [croner]: a timestamp in RFC 3339; an instant plus a number
    of seconds, [None] where [Duration] or the addition panics; whether a cron
    expression parses; its next occurrence strictly after an instant. *)
Class Calendar : Type := {
  parse_rfc3339 : rstr -> option instant;
  add_seconds : instant -> Z -> option instant;
  cron_parses : rstr -> bool;
  cron_next : rstr -> instant -> option instant;
}.

(** [str::parse::<i64>]. *)
Definition parse_i64 (s : rstr) : option Z :=
  match strip_prefix (lit "-") s with
  | Some body =>
      match body with
      | [] => None
      | _ => match parse_digits 0 body with
             | Some n => if i64_min <=? - n then Some (- n) else None
             | None => None
             end
      end
  | None => parse_uint i64_max s
  end.
Definition is_ascii (c : rchar) : bool := len_utf8 c =? 1.

(** The byte offsets of the code are char offsets here: the result is [Some]
    only when the seventeenth char is at byte 16, so the first sixteen are
    ASCII. *)
Definition char_is (a : ascii) (o : option rchar) : bool :=
  match o with Some c => c =? chr a | None => false end.
Definition expand_short_rfc3339 (s : rstr) : option rstr :=
  let tz := char_is "Z" (s !! 16%nat) || char_is "+" (s !! 16%nat) || char_is "-" (s !! 16%nat) in
  if char_is "-" (s !! 4%nat) && char_is "-" (s !! 7%nat) && char_is "T" (s !! 10%nat)
     && char_is ":" (s !! 13%nat) && forallb is_ascii (take 16 s) && tz
  then Some (take 16 s ++ lit ":00" ++ drop 16 s)
  else None.

Definition unit_seconds (unit : rchar) : option Z :=
  if unit =? chr "s" then Some 1
  else if unit =? chr "m" then Some 60
  else if unit =? chr "h" then Some 3600
  else if unit =? chr "d" then Some 86400
  else None.

Section Parser.
Context `{Calendar}.

(** [split_at(len - 1)] panics when the last char is longer than a byte. *)
Definition parse_in_offset (now : instant) (rest : rstr) : result (fault ScheduleError) When :=
  let rest := trim rest in
  if byte_len rest <? 2 then Err (Fails (BadOffset rest))
  else
    match rev rest with
    | [] => Err (Fails (BadOffset rest))
    | unit :: num_rev =>
        if negb (is_ascii unit) then Err Panics
        else
          match parse_i64 (trim (rev num_rev)) with
          | None => Err (Fails (BadOffset rest))
          | Some value =>
              if value <=? 0 then Err (Fails (BadOffset rest))
              else
                match unit_seconds unit with
                | None => Err (Fails (BadOffset rest))
                | Some per =>
                    match add_seconds now (value * per) with
                    | Some t => Ok (At t)
                    | None => Err Panics
                    end
                end
          end
    end.
Definition parse_daily_at (rest : rstr) : result (fault ScheduleError) When :=
  let rest := trim rest in
  match split_char (chr ":") rest with
  | [h; m] =>
      match parse_uint u32_max h, parse_uint u32_max m with
      | Some hour, Some minute =>
          if (23 <? hour) || (59 <? minute) then Err (Fails (BadTimeOfDay rest))
          else Ok (DailyAt hour minute)
      | _, _ => Err (Fails (BadTimeOfDay rest))
      end
  | _ => Err (Fails (BadTimeOfDay rest))
  end.
Definition looks_like_cron (s : rstr) : bool :=
  let n := Z.of_nat (length (split_whitespace s)) in (5 <=? n) && (n <=? 6).
Definition parse_cron (s : rstr) : result (fault ScheduleError) When :=
  if cron_parses s then Ok (Cron s) else Err (Fails (BadCron s)).

Definition parse_when (now : instant) (s : rstr) : result (fault ScheduleError) When :=
  let trimmed := trim s in
  match trimmed with
  | [] => Err (Fails Empty)
  | _ =>
      match parse_rfc3339 trimmed with
      | Some t => Ok (At t)
      | None =>
          match (match expand_short_rfc3339 trimmed with
                 | Some expanded => parse_rfc3339 expanded
                 | None => None
                 end) with
          | Some t => Ok (At t)
          | None =>
              match strip_prefix (lit "in ") trimmed with
              | Some rest => parse_in_offset now rest
              | None =>
                  match strip_prefix (lit "daily at ") trimmed with
                  | Some rest => parse_daily_at rest
                  | None =>
                      if looks_like_cron trimmed then parse_cron trimmed
                      else Err (Fails (Unsupported trimmed))
                  end
              end
          end
      end
  end.

(** ** The next fire time *)

Definition day_ns : Z := 86400 * ns_per_s.
(** Midnight of the date of [now]; the day after is [day_ns] later. *)
Definition next_daily (hour minute : Z) (now : instant) : instant :=
  let today := now / day_ns * day_ns + (hour * 3600 + minute * 60) * ns_per_s in
  if now <? today then today else today + day_ns.
Definition blank (s : rstr) : bool := rstr_eqb (trim s) [].
Definition next_cron (expr : rstr) (now : instant) : option instant :=
  if cron_parses expr then cron_next expr now else None.
Definition compute_next_fire (when : When) (now : instant) (recurrence : option rstr) : option instant :=
  let by_when :=
    match when with
    | At t => if now <? t then Some t else None
    | Cron expr => next_cron expr now
    | DailyAt hour minute => Some (next_daily hour minute now)
    end in
  match recurrence with
  | Some rec => if blank rec then by_when else next_cron rec now
  | None => by_when
  end.
End Parser.

(** ** The table *)

Module Task.
Inductive TaskStatus : Type := Active | Paused | Cancelled | Completed.
#[global] Instance TaskStatus_eq_dec : EqDecision TaskStatus.
Proof. solve_decision. Defined.
Definition as_str (s : TaskStatus) : string :=
  match s with
  | Active => "active" | Paused => "paused" | Cancelled => "cancelled" | Completed => "completed"
  end%string.
Definition from_str (s : string) : option TaskStatus :=
  if String.eqb s "active" then Some Active
  else if String.eqb s "paused" then Some Paused
  else if String.eqb s "cancelled" then Some Cancelled
  else if String.eqb s "completed" then Some Completed
  else None.
End Task.
Abbreviation TaskStatus := Task.TaskStatus (only parsing).

Record TaskRow : Type := mkTask {
  t_id : rstr;
  t_agent_group_id : uuid;
  t_session_id : uuid;
  t_name : option rstr;
  t_prompt : rstr;
  t_when_spec : rstr;
  t_recurrence : option rstr;
  t_next_fire : option instant;
  t_status : TaskStatus;
  t_last_fired_at : option instant;
  t_fire_count : Z;
  t_created_at : instant;
  t_updated_at : instant;
}.
Record NewTask : Type := mkNewTask {
  nt_id : rstr;
  nt_agent_group_id : uuid;
  nt_session_id : uuid;
  nt_name : option rstr;
  nt_prompt : rstr;
  nt_when_spec : rstr;
  nt_recurrence : option rstr;
  nt_next_fire : option instant;
}.
Record UpdateFields : Type := mkUpdate {
  uf_prompt : option rstr;
  uf_when_spec : option rstr;
  uf_recurrence : option (option rstr);
  uf_next_fire : option (option instant);
}.
Abbreviation task_table := (list TaskRow) (only parsing).

Definition task_has_id (id : rstr) (t : TaskRow) : bool := rstr_eqb (t_id t) id.
Definition task_of (task : NewTask) (now : instant) : TaskRow :=
  mkTask (nt_id task) (nt_agent_group_id task) (nt_session_id task) (nt_name task) (nt_prompt task)
    (nt_when_spec task) (nt_recurrence task) (nt_next_fire task) Task.Active None 0 now now.
(** [refs]: the agent group and the session exist. *)
Definition task_insert (t : task_table) (refs : bool) (task : NewTask) (now : instant)
  : result DbError (TaskRow * task_table) :=
  if existsb (task_has_id (nt_id task)) t || negb refs then Err SqliteConstraint
  else Ok (task_of task now, t ++ [task_of task now]).
Definition task_get (t : task_table) (id : rstr) : option TaskRow := sql_get (task_has_id id) t.
Definition list_for_session (t : task_table) (session : uuid) : list TaskRow :=
  order_by t_created_at (List.filter (fun r => t_session_id r =? session) t).
Definition named (session : uuid) (name : rstr) (r : TaskRow) : bool :=
  (t_session_id r =? session) && match t_name r with Some n => rstr_eqb n name | None => false end.
Definition latest_for_session_by_name (t : task_table) (session : uuid) (name : rstr) : option TaskRow :=
  head (order_by (fun r => - t_created_at r) (rev (List.filter (named session name) t))).
Definition task_due (now : instant) (r : TaskRow) : bool :=
  bool_decide (t_status r = Task.Active)
  && match t_next_fire r with Some f => f <=? now | None => false end.
Definition list_due (t : task_table) (now : instant) : list TaskRow :=
  order_by (fun r => default 0 (t_next_fire r)) (List.filter (task_due now) t).
Definition count_active (t : task_table) : Z := sql_count (fun r => bool_decide (t_status r = Task.Active)) t.

Definition with_status (s : TaskStatus) (now : instant) (r : TaskRow) : TaskRow :=
  mkTask (t_id r) (t_agent_group_id r) (t_session_id r) (t_name r) (t_prompt r) (t_when_spec r)
    (t_recurrence r) (t_next_fire r) s (t_last_fired_at r) (t_fire_count r) (t_created_at r) now.
Definition with_next_fire (f : option instant) (now : instant) (r : TaskRow) : TaskRow :=
  mkTask (t_id r) (t_agent_group_id r) (t_session_id r) (t_name r) (t_prompt r) (t_when_spec r)
    (t_recurrence r) f (t_status r) (t_last_fired_at r) (t_fire_count r) (t_created_at r) now.
Definition with_fired (at_ now : instant) (r : TaskRow) : TaskRow :=
  mkTask (t_id r) (t_agent_group_id r) (t_session_id r) (t_name r) (t_prompt r) (t_when_spec r)
    (t_recurrence r) (t_next_fire r) (t_status r) (Some at_) (t_fire_count r + 1) (t_created_at r) now.
Definition patched (fields : UpdateFields) (now : instant) (r : TaskRow) : TaskRow :=
  let touched := match fields with
                 | mkUpdate None None None None => false
                 | _ => true
                 end in
  mkTask (t_id r) (t_agent_group_id r) (t_session_id r) (t_name r)
    (default (t_prompt r) (uf_prompt fields)) (default (t_when_spec r) (uf_when_spec fields))
    (default (t_recurrence r) (uf_recurrence fields)) (default (t_next_fire r) (uf_next_fire fields))
    (t_status r) (t_last_fired_at r) (t_fire_count r) (t_created_at r)
    (if touched then now else t_updated_at r).
(** [UPDATE tasks SET .. WHERE id = ?]. *)
Definition task_update_row (id : rstr) (f : TaskRow -> TaskRow) (t : task_table) : result DbError task_table :=
  let '(t', n) := sql_update (task_has_id id) f t in
  if (n =? 0)%nat then Err NotFound else Ok t'.
Definition set_status (t : task_table) (id : rstr) (s : TaskStatus) (now : instant) :=
  task_update_row id (with_status s now) t.
Definition set_next_fire (t : task_table) (id : rstr) (f : option instant) (now : instant) :=
  task_update_row id (with_next_fire f now) t.
Definition mark_fired (t : task_table) (id : rstr) (fired_at now : instant) :=
  task_update_row id (with_fired fired_at now) t.
Definition task_update (t : task_table) (id : rstr) (fields : UpdateFields) (now : instant)
  : result DbError (TaskRow * task_table) :=
  let t' := fst (sql_update (task_has_id id) (patched fields now) t) in
  match task_get t' id with Some r => Ok (r, t') | None => Err NotFound end.

(** ** The handler of the [schedule] action *)

(** The state of a call: the table, the next fresh id and the clock. *)
Record SchedWorld : Type := mkSched {
  sw_tasks : task_table;
  sw_fresh : uuid;
  sw_now : instant;
}.
(** The parts of [DeliveryActionInput] the handler reads. *)
Record ActionInput : Type := mkInput {
  ai_session_id : option uuid;
  ai_agent_group_id : option uuid;
  ai_payload : json;
}.
Definition HM (A : Type) : Type := stateful SchedWorld (fault rstr) A.
Definition other {A} (message : rstr) : HM A := fail (Fails message).
Definition need {A} (message : rstr) (o : option A) : HM A :=
  match o with Some a => ret a | None => other message end.

Section Handler.
Context `{Calendar}.
(** [task_<uuid>], the rows a foreign key refers to, and an error as text. *)
Context (task_id_text : uuid -> rstr) (refs_exist : uuid -> uuid -> bool) (db_text : DbError -> rstr).

Definition now_ : HM instant := gets sw_now.
Definition set_tasks (t : task_table) : HM unit := modify (fun w => mkSched t (sw_fresh w) (sw_now w)).
Definition store_result {A} (r : result DbError A) : HM A :=
  lift (match r with Ok a => Ok a | Err e => Err (Fails (db_text e)) end).
Definition parsed (what : string) (s : rstr) : HM When :=
  let! now := now_ in
  lift (match parse_when now s with
        | Ok w => Ok w
        | Err (Fails e) => Err (Fails (lit "schedule " ++ lit what ++ lit ": parse error: " ++ schedule_error_text e))
        | Err Panics => Err Panics
        end).
Definition target_session_and_group (input : ActionInput) : HM (uuid * uuid) :=
  let! session := need (lit "schedule: missing session_id") (ai_session_id input) in
  let! group := need (lit "schedule: missing agent_group_id on target") (ai_agent_group_id input) in
  ret (session, group).
Definition not_blank (o : option rstr) : option rstr :=
  match o with Some s => if blank s then None else Some s | None => None end.

Definition op_create (input : ActionInput) (payload : json) : HM (option json) :=
  let! '(session, group) := target_session_and_group input in
  let! prompt := need (lit "schedule create: missing prompt") (jget_str "prompt" payload) in
  let! when_spec := need (lit "schedule create: missing when") (jget_str "when" payload) in
  let recurrence := not_blank (jget_str "recurrence" payload) in
  let! when := parsed "create" when_spec in
  let! now := now_ in
  let! fresh := gets sw_fresh in
  let! t := gets sw_tasks in
  let! '(_, t') := store_result
    (task_insert t (refs_exist group session)
       (mkNewTask (task_id_text fresh) group session (jget_str "name" payload) prompt when_spec recurrence
          (compute_next_fire when now recurrence)) now) in
  modify (fun w => mkSched t' (sw_fresh w + 1) (sw_now w)) ;;
  ret None.

Definition opt_text (o : option rstr) : json := match o with Some s => JStr s | None => JNull end.
Definition task_summary (show_instant : instant -> rstr) (t : TaskRow) : json :=
  JObj [("id", JStr (t_id t)); ("name", opt_text (t_name t)); ("prompt", JStr (t_prompt t));
        ("when", JStr (t_when_spec t)); ("recurrence", opt_text (t_recurrence t));
        ("next_fire", opt_text (option_map show_instant (t_next_fire t)));
        ("status", JStr (lit (Task.as_str (t_status t))))]%string.
Definition op_list (show_instant : instant -> rstr) (input : ActionInput) : HM (option json) :=
  let! '(session, _) := target_session_and_group input in
  let! t := gets sw_tasks in
  ret (Some (JObj [("tasks"%string, JArr (map (task_summary show_instant) (list_for_session t session)))])).

Definition op_set_status (payload : json) (s : TaskStatus) : HM (option json) :=
  let! id := need (lit "schedule: missing id") (jget_str "id" payload) in
  let! now := now_ in
  let! t := gets sw_tasks in
  let! t' := store_result (set_status t id s now) in
  set_tasks t' ;;
  ret None.

(** The [recurrence] key of an update: absent leaves the column, anything
    but a non-blank text clears it. *)
Definition recurrence_field (payload : json) : option (option rstr) :=
  option_map (fun v => not_blank (jas_str v)) (jget "recurrence" payload).
Definition op_update (payload : json) : HM (option json) :=
  let! id := need (lit "schedule update: missing id") (jget_str "id" payload) in
  let prompt := jget_str "prompt" payload in
  let when_spec := jget_str "when" payload in
  let rec_field := recurrence_field payload in
  let! next_fire :=
    match when_spec with
    | None => ret None
    | Some w =>
        let! when := parsed "update" w in
        let! t := gets sw_tasks in
        let! now := now_ in
        let effective := match rec_field with
                         | Some r => r
                         | None => match task_get t id with Some r => t_recurrence r | None => None end
                         end in
        ret (Some (compute_next_fire when now effective))
    end in
  let! now := now_ in
  let! t := gets sw_tasks in
  let! '(_, t') := store_result (task_update t id (mkUpdate prompt when_spec rec_field next_fire) now) in
  set_tasks t' ;;
  ret None.

Definition handle (show_instant : instant -> rstr) (input : ActionInput) : HM (option json) :=
  let! op := need (lit "schedule: missing op") (jget_str "op" (ai_payload input)) in
  let inner := default (JObj []) (jget "payload" (ai_payload input)) in
  if rstr_eqb op (lit "create") then op_create input inner
  else if rstr_eqb op (lit "list") then op_list show_instant input
  else if rstr_eqb op (lit "cancel") then op_set_status inner Task.Cancelled
  else if rstr_eqb op (lit "pause") then op_set_status inner Task.Paused
  else if rstr_eqb op (lit "resume") then op_set_status inner Task.Active
  else if rstr_eqb op (lit "update") then op_update inner
  else other (lit "schedule: unknown op `" ++ op ++ lit "`").
End Handler.

(** ** The rows the runner writes *)

(** [content.schedule]; the delivery loop hands it to the handler.  A
    timestamp is printed by [show]. *)
Section Runner.
Context (show : instant -> rstr).
Definition action_payload (op : string) (inner : json) : json :=
  JObj [("op", JStr (lit op)); ("payload", inner)]%string.
Definition apply_schedule_create (name : rstr) (when : option instant) (prompt : rstr) (recurrence : option rstr)
  : json :=
  action_payload "create"
    (JObj [("name", JStr name); ("when", opt_text (option_map show when)); ("prompt", JStr prompt);
           ("recurrence", opt_text recurrence)]%string).
Definition apply_schedule_simple (op : string) (id : rstr) : json :=
  action_payload op (JObj [("id"%string, JStr id)]).
(** [Option<Option<_>>] serialises both levels of absence as [null]. *)
Definition apply_schedule_update (id : rstr) (prompt : option rstr) (when : option (option instant))
  (recurrence : option (option rstr)) : json :=
  action_payload "update"
    (JObj [("id", JStr id); ("prompt", opt_text prompt);
           ("when", opt_text (option_map show (default None when)));
           ("recurrence", opt_text (default None recurrence))]%string).
End Runner.
