(* ===== verification/ScheduleProps.v ===== *)
(** What schedules mean: the next fire time is the next occurrence, a printed
    time of day parses back, and where parsing panics; and where the rows the
    runner writes and the handler that reads them disagree. *)
From S2P Require Import Prelude Types Schedule.

Section Times.
Context `{Calendar}.

Lemma day_pos : 0 < day_ns.
Proof. done. Qed.

Lemma next_daily_later hour minute now :
  0 <= hour <= 23 -> 0 <= minute <= 59 -> now < next_daily hour minute now.
Proof.
  intros Hh Hm. unfold next_daily. set (tod := (hour * 3600 + minute * 60) * ns_per_s).
  assert (0 <= tod < day_ns) as Ht by (unfold tod, day_ns, ns_per_s; lia).
  pose proof (Z.div_mod now day_ns ltac:(done)). pose proof (Z.mod_pos_bound now day_ns day_pos).
  destruct (Z.ltb_spec now (now / day_ns * day_ns + tod)); lia.
Qed.

(** A daily schedule fires at the first instant after now whose time of
    day is the scheduled one: strictly in the future, at most a day away, at
    that hour and minute exactly, and at no earlier such instant. *)
Theorem next_daily_next hour minute now :
  0 <= hour <= 23 -> 0 <= minute <= 59 ->
  let fire := next_daily hour minute now in
  now < fire <= now + day_ns
  /\ fire mod day_ns = (hour * 3600 + minute * 60) * ns_per_s
  /\ forall t, now < t -> t mod day_ns = (hour * 3600 + minute * 60) * ns_per_s -> fire <= t.
Proof.
  intros Hh Hm fire. set (tod := (hour * 3600 + minute * 60) * ns_per_s).
  assert (0 <= tod < day_ns) as Ht by (unfold tod, day_ns, ns_per_s; lia).
  pose proof (Z.div_mod now day_ns ltac:(done)) as Hd. pose proof (Z.mod_pos_bound now day_ns day_pos) as Hb.
  assert (fire = now / day_ns * day_ns + tod /\ now < now / day_ns * day_ns + tod
          \/ fire = (now / day_ns + 1) * day_ns + tod /\ now / day_ns * day_ns + tod <= now) as Hf.
  { unfold fire, next_daily. fold tod. destruct (Z.ltb_spec now (now / day_ns * day_ns + tod)); [left|right]; lia. }
  split; [destruct Hf as [[-> ?]|[-> ?]]; lia|]. split.
  - destruct Hf as [[-> _]|[-> _]]; rewrite Z.add_comm, Z.mod_add by done; by apply Z.mod_small.
  - intros t Hlt Hmod. pose proof (Z.div_mod t day_ns ltac:(done)) as Hdt. rewrite Hmod in Hdt. fold tod in Hdt.
    assert (now / day_ns <= t / day_ns) as Hle by (apply Z.div_le_mono; [done | lia]).
    destruct Hf as [[-> ?]|[-> ?]]; [nia|].
    assert (now / day_ns <> t / day_ns) by (intros E; rewrite <- E in Hdt; lia). nia.
Qed.

(** Whatever the schedule and the recurrence, the next fire time is in the
    future, provided the cron library answers with a later instant; so a task
    that is armed again is not due at once. *)
Theorem next_fire_in_future when now recurrence fire :
  (forall expr t, cron_next expr now = Some t -> now < t) ->
  match when with DailyAt h m => 0 <= h <= 23 /\ 0 <= m <= 59 | _ => True end ->
  compute_next_fire when now recurrence = Some fire -> now < fire.
Proof.
  intros Hc Hw. assert (forall e, next_cron e now = Some fire -> now < fire) as Hn.
  { intros e. unfold next_cron. destruct (cron_parses e); [apply Hc | done]. }
  unfold compute_next_fire.
  assert (match when with
          | At t => if now <? t then Some t else None
          | Cron expr => next_cron expr now
          | DailyAt h m => Some (next_daily h m now)
          end = Some fire -> now < fire) as Hby.
  { destruct when as [t|e|h m]; [destruct (Z.ltb_spec now t); congruence | apply Hn|].
    intros [= <-]. destruct Hw. by apply next_daily_later. }
  destruct recurrence as [rec|]; [destruct (blank rec); [exact Hby | apply Hn] | exact Hby].
Qed.
End Times.

Section Syntax.
Context `{Calendar}.

(** A text that starts and ends with a char that is no white space is trimmed. *)
Lemma trim_ends c s d :
  is_whitespace c = false -> is_whitespace d = false -> trim (c :: s ++ [d]) = c :: s ++ [d].
Proof. apply trim_id. Qed.
Lemma trim_snoc_nonempty s d : is_whitespace d = false -> exists w, trim (s ++ [d]) = w ++ [d].
Proof.
  intros Hd. unfold trim, trim_start. rewrite trim_start_by_app by done.
  eexists. rewrite (trim_end_app _ d []) by done. done.
Qed.
Lemma len_utf8_wide c : is_ascii c = false -> 2 <= len_utf8 c.
Proof. unfold is_ascii, len_utf8. repeat (destruct (_ <? _)); cbn; lia || done. Qed.

(** The unit of a relative offset is cut off at the last byte, not the
    last char: when the last char of the offset is not ASCII, parsing panics
    instead of refusing the schedule. *)
Theorem offset_unit_panics now num unit :
  (forall s, parse_rfc3339 (lit "in " ++ s) = None) ->
  is_ascii unit = false -> is_whitespace unit = false ->
  parse_when now (lit "in " ++ num ++ [unit]) = Err Panics.
Proof.
  intros Hr Hu Hw. unfold parse_when.
  assert (trim (lit "in " ++ num ++ [unit]) = lit "in " ++ num ++ [unit]) as ->.
  { change (trim (105 :: (lit "n " ++ num) ++ [unit]) = 105 :: (lit "n " ++ num) ++ [unit]). by apply trim_ends. }
  rewrite Hr. set (t := lit "in " ++ num ++ [unit]).
  assert (strip_prefix (lit "in ") t = Some (num ++ [unit])) as -> by apply strip_prefix_app.
  assert (match expand_short_rfc3339 t with Some e => parse_rfc3339 e | None => None end = None) as ->.
  { unfold expand_short_rfc3339. destruct (_ && _) eqn:E; [|done].
    assert (take 16 t = lit "in " ++ take 13 (num ++ [unit])) as -> by done.
    rewrite <- app_assoc. apply Hr. }
  change (match t with [] => Err (Fails Empty) | _ :: _ => parse_in_offset now (num ++ [unit]) end = Err Panics).
  cbn [app lit t]. unfold parse_in_offset. destruct (trim_snoc_nonempty num unit Hw) as (w & ->).
  rewrite byte_len_app. cbn [byte_len]. pose proof (byte_len_nonneg w). pose proof (len_utf8_wide unit Hu).
  destruct (Z.ltb_spec (byte_len w + (len_utf8 unit + 0)) 2); [lia|].
  rewrite rev_app_distr. cbn [rev app]. by rewrite Hu.
Qed.

Lemma digits_plain s c : Forall (fun c => is_ascii_digit c = true) s -> In c s -> 48 <= c <= 57.
Proof. intros Hf Hc. rewrite List.Forall_forall in Hf. specialize (Hf c Hc). unfold is_ascii_digit in Hf. lia. Qed.
Lemma digit_not_space c : 48 <= c <= 57 -> is_whitespace c = false.
Proof. intros Hc. unfold is_whitespace. repeat (apply orb_false_intro); lia. Qed.

(** The time of day of a daily schedule as text. *)
Definition daily_text (hour minute : Z) : rstr :=
  lit "daily at " ++ show_z hour ++ lit ":" ++ show_z minute.
Lemma daily_body hour minute :
  0 <= hour <= 23 -> 0 <= minute <= 59 ->
  parse_daily_at (show_z hour ++ lit ":" ++ show_z minute) = Ok (DailyAt hour minute).
Proof.
  intros Hh Hm. unfold parse_daily_at.
  destruct (show_z_spec hour) as (Hn1 & _ & Hd1); [unfold u64_max; lia|].
  destruct (show_z_spec minute) as (Hn2 & _ & Hd2); [unfold u64_max; lia|].
  assert (forall c s, Forall (fun c => is_ascii_digit c = true) s -> In c s -> is_whitespace c = false) as Hsp.
  { intros c s Hs Hc. by apply digit_not_space, (digits_plain s). }
  assert (trim (show_z hour ++ lit ":" ++ show_z minute) = show_z hour ++ lit ":" ++ show_z minute) as ->.
  { destruct (show_z hour) as [|c h] eqn:E1; [done|]. destruct (exists_last Hn2) as (m & d & E2). rewrite E2 in *.
    change (trim (c :: h ++ lit ":" ++ m ++ [d]) = c :: h ++ lit ":" ++ m ++ [d]). rewrite !app_assoc.
    apply trim_ends; [apply (Hsp c (c :: h)); [done | by left] | apply (Hsp d (m ++ [d])); [done|]].
    apply in_or_app. right. by left. }
  unfold split_char. change (lit ":" ++ show_z minute) with (chr ":" :: show_z minute).
  assert (forall s c, Forall (fun c => is_ascii_digit c = true) s -> In c s -> (c =? chr ":") = false) as Hne.
  { intros s c Hs Hc. pose proof (digits_plain s c Hs Hc). change (chr ":") with 58. lia. }
  rewrite split_on_app by (eauto || done). rewrite split_on_none by eauto.
  rewrite !parse_uint_show by (unfold u64_max, u32_max; lia).
  destruct (Z.ltb_spec 23 hour); [lia|]. by destruct (Z.ltb_spec 59 minute); [lia|].
Qed.

(** A printed daily schedule parses back to the same schedule. *)
Theorem daily_roundtrip now hour minute :
  (forall s, parse_rfc3339 (lit "daily" ++ s) = None) ->
  0 <= hour <= 23 -> 0 <= minute <= 59 ->
  parse_when now (daily_text hour minute) = Ok (DailyAt hour minute).
Proof.
  intros Hr Hh Hm. unfold parse_when, daily_text. set (body := show_z hour ++ lit ":" ++ show_z minute).
  assert (trim (lit "daily at " ++ body) = lit "daily at " ++ body) as ->.
  { unfold body. destruct (show_z_spec minute) as (Hn2 & _ & Hd2); [unfold u64_max; lia|].
    destruct (exists_last Hn2) as (m & d & E2). rewrite E2 in *.
    change (trim (100 :: lit "aily at " ++ show_z hour ++ lit ":" ++ m ++ [d])
            = 100 :: lit "aily at " ++ show_z hour ++ lit ":" ++ m ++ [d]). rewrite !app_assoc.
    apply trim_ends; [done|]. apply digit_not_space, (digits_plain (m ++ [d])); [done|]. apply in_or_app. right. by left. }
  change (lit "daily at " ++ body) with (lit "daily" ++ lit " at " ++ body). rewrite Hr.
  change (parse_daily_at body = Ok (DailyAt hour minute)). by apply daily_body.
Qed.
End Syntax.

Section Handling.
Context `{Calendar} (task_id_text : uuid -> rstr) (refs_exist : uuid -> uuid -> bool)
  (db_text : DbError -> rstr) (show : instant -> rstr).
Abbreviation handle := (Schedule.handle task_id_text refs_exist db_text show) (only parsing).

Lemma task_has_id_eq id r : task_has_id id r = true <-> t_id r = id.
Proof. apply rstr_eqb_eq. Qed.

(** Rows keep their id, so an update of the row with an id is found there. *)
Lemma task_get_updated t id f r :
  task_get t id = Some r -> (forall r, t_id (f r) = t_id r) ->
  exists t', task_update_row id f t = Ok t' /\ task_get t' id = Some (f r)
    /\ t' = map (fun r => if task_has_id id r then f r else r) t.
Proof.
  intros Hg Hf. unfold task_update_row, sql_update. unfold task_get, sql_get in *.
  assert (List.find (task_has_id id) (map (fun r => if task_has_id id r then f r else r) t) = Some (f r)) as E.
  { induction t as [|a t IH]; [done|]. cbn in *. destruct (task_has_id id a) eqn:Ea.
    - injection Hg as ->. assert (task_has_id id (f r) = true) as -> by (unfold task_has_id in *; by rewrite Hf). done.
    - rewrite Ea. by apply IH. }
  apply find_some in Hg as [Hin Hid].
  assert (In r (List.filter (task_has_id id) t)) as Hin' by (by apply List.filter_In).
  destruct (List.filter (task_has_id id) t); [done|]. cbn. eexists. by repeat split.
Qed.

Lemma handle_update s g inner :
  handle (mkInput s g (action_payload "update" inner)) = op_update db_text inner.
Proof. reflexivity. Qed.
Lemma handle_cancel s g inner :
  handle (mkInput s g (action_payload "cancel" inner)) = op_set_status db_text inner Task.Cancelled.
Proof. reflexivity. Qed.

(** A task that is scheduled by a recurrence alone, which the tool offers
    and the runner accepts, is never created: the runner writes a [when] of
    null and the host refuses the row for having none. *)
Theorem recurrence_only_task_rejected name prompt recurrence session group w :
  handle (mkInput (Some session) (Some group) (apply_schedule_create show name None prompt (Some recurrence))) w
    = (Err (Fails (lit "schedule create: missing when")), w).
Proof. done. Qed.

(** Changing only the prompt of a recurring task makes it a one-shot: the
    row the runner writes carries a null recurrence, which the host takes as a
    request to clear the column.  The next fire time stays. *)
Theorem prompt_update_clears_recurrence id prompt session group w r :
  task_get (sw_tasks w) id = Some r ->
  exists w', handle (mkInput session group (apply_schedule_update show id (Some prompt) None None)) w = (Ok None, w')
    /\ exists r', task_get (sw_tasks w') id = Some r' /\ t_prompt r' = prompt
       /\ t_recurrence r' = None /\ t_next_fire r' = t_next_fire r /\ t_status r' = t_status r.
Proof.
  intros Hg. pose (f := patched (mkUpdate (Some prompt) None (Some None) None) (sw_now w)).
  destruct (task_get_updated (sw_tasks w) id f r Hg ltac:(done)) as (t' & _ & Hg' & ->).
  unfold apply_schedule_update. rewrite handle_update. unfold op_update, recurrence_field.
  change (jget_str "id" _) with (Some id). change (jget_str "prompt" _) with (Some prompt).
  change (jget_str "when" _) with (@None rstr). change (option_map _ _) with (Some (@None rstr)).
  unfold need, store_result, set_tasks, now_, gets, mbind, ret, lift, modify. cbv beta iota.
  unfold task_update, sql_update. cbn [fst]. fold f. rewrite Hg'. eexists. split; [reflexivity|].
  exists (f r). by repeat split.
Qed.

(** The handler never compares a task with the session that asks: a
    cancel, pause, resume or update from any session of any group is applied
    to the task of that id, whoever owns it. *)
Theorem any_session_controls_task op inner s g s' g' w :
  In op ["cancel"; "pause"; "resume"; "update"]%string ->
  handle (mkInput s g (action_payload op inner)) w = handle (mkInput s' g' (action_payload op inner)) w
  /\ (forall id r, op = "cancel"%string -> jget_str "id" inner = Some id -> task_get (sw_tasks w) id = Some r ->
        exists w' r', handle (mkInput s g (action_payload op inner)) w = (Ok None, w')
          /\ task_get (sw_tasks w') id = Some r' /\ t_status r' = Task.Cancelled).
Proof.
  intros Hop. split.
  - by destruct Hop as [<-|[<-|[<-|[<-|[]]]]].
  - intros id r -> Hid Hg.
    destruct (task_get_updated (sw_tasks w) id (with_status Task.Cancelled (sw_now w)) r Hg ltac:(done)) as (t' & Hu & Hg' & _).
    rewrite handle_cancel. unfold op_set_status. rewrite Hid.
    unfold need, store_result, set_tasks, now_, gets, mbind, ret, lift, modify, set_status. rewrite Hu. do 2 eexists. split; [reflexivity|]. by split.
Qed.
End Handling.

(** ** Concrete runs *)

Module ScheduleWitnesses.
#[export] Instance demo_calendar : Calendar := {|
  parse_rfc3339 _ := None;
  add_seconds t s := Some (t + s * ns_per_s);
  cron_parses _ := true;
  cron_next _ t := Some (t + day_ns);
|}.
Definition recurring_task : TaskRow :=
  mkTask (lit "task_1") 10 20 (Some (lit "news")) (lit "fetch") (lit "0 9 * * *") (Some (lit "0 9 * * *"))
    (Some 100) Task.Active None 0 0 0.
Definition world : SchedWorld := mkSched [recurring_task] 2 50.
Definition no_text (_ : DbError) : rstr := [].

Lemma next_daily_next_witness : 5 < next_daily 9 30 5 <= 5 + day_ns.
Proof. apply (next_daily_next 9 30 5); lia. Defined.
Lemma next_fire_in_future_witness : 5 < 5 + day_ns.
Proof.
  apply (next_fire_in_future (Cron (lit "0 9 * * *")) 5 None); [|exact I | reflexivity].
  intros e t [= <-]. unfold day_ns, ns_per_s. lia.
Defined.
Lemma offset_unit_panics_witness : parse_when 0 (lit "in " ++ lit "5" ++ [26085]) = Err Panics.
Proof. apply (offset_unit_panics 0 (lit "5") 26085); reflexivity. Defined.
Lemma daily_roundtrip_witness : parse_when 0 (lit "daily at 9:5") = Ok (DailyAt 9 5).
Proof. apply (daily_roundtrip 0 9 5); [reflexivity | lia | lia]. Defined.
Lemma prompt_update_clears_recurrence_witness :
  exists w', handle show_z (fun _ _ => true) no_text show_z
               (mkInput None None (apply_schedule_update show_z (lit "task_1") (Some (lit "hi")) None None)) world
             = (Ok None, w')
    /\ exists r', task_get (sw_tasks w') (lit "task_1") = Some r' /\ t_prompt r' = lit "hi"
       /\ t_recurrence r' = None /\ t_next_fire r' = Some 100 /\ t_status r' = Task.Active.
Proof.
  by apply (prompt_update_clears_recurrence show_z (fun _ _ => true) no_text show_z (lit "task_1") (lit "hi")
              None None world recurring_task).
Defined.
Lemma any_session_controls_task_witness :
  handle show_z (fun _ _ => true) no_text show_z
    (mkInput (Some 99) (Some 98) (action_payload "cancel" (JObj [("id"%string, JStr (lit "task_1"))]))) world
  = handle show_z (fun _ _ => true) no_text show_z
      (mkInput (Some 20) (Some 10) (action_payload "cancel" (JObj [("id"%string, JStr (lit "task_1"))]))) world.
Proof.
  apply (any_session_controls_task show_z (fun _ _ => true) no_text show_z "cancel"
           (JObj [("id"%string, JStr (lit "task_1"))]) (Some 99) (Some 98) (Some 20) (Some 10) world).
  by left.
Defined.
End ScheduleWitnesses.
