(* ===== verification/Goals.v ===== *)
(** Long-running goals ([copperclaw-db/src/tables/goals.rs]): their
    lifecycle, progress log and budget, and the row of the delivery loop that
    changes them ([apply_goal], [copperclaw-host-delivery/src/service.rs]).

    A sum that leaves the range of an [i64] becomes a REAL in SQLite and no
    longer reads back as an integer: [row_to_goal] fails on it, and with it the
    whole query. *)
From S2P Require Import Prelude Types Grants Schedule.

Module Goal.
Inductive GoalStatus : Type := Active | Paused | Completed | Abandoned.
#[global] Instance GoalStatus_eq_dec : EqDecision GoalStatus.
Proof. solve_decision. Defined.
Definition as_str (s : GoalStatus) : string :=
  match s with
  | Active => "active" | Paused => "paused" | Completed => "completed" | Abandoned => "abandoned"
  end%string.
Definition is_terminal (s : GoalStatus) : bool :=
  match s with Completed | Abandoned => true | Active | Paused => false end.
Definition from_str (s : rstr) : result string GoalStatus :=
  if rstr_eqb s (lit "active") then Ok Active
  else if rstr_eqb s (lit "paused") then Ok Paused
  else if rstr_eqb s (lit "completed") then Ok Completed
  else if rstr_eqb s (lit "abandoned") then Ok Abandoned
  else Err (to_string (lit "unknown goal status `" ++ s ++ lit "`")).
Definition transition (from to : GoalStatus) : bool :=
  if bool_decide (from = to) then negb (is_terminal from)
  else
    match from, to with
    | Active, Paused => true
    | Paused, Active => true
    | (Active | Paused), (Completed | Abandoned) => true
    | _, _ => false
    end.
End Goal.
Abbreviation GoalStatus := Goal.GoalStatus (only parsing).

Record GoalRow : Type := mkGoal {
  g_id : rstr;
  g_agent_group_id : uuid;
  g_session_id : uuid;
  g_objective : rstr;
  g_status : GoalStatus;
  g_task_id : option rstr;
  g_grant_id : option rstr;
  g_token_budget : option Z;
  g_tokens_consumed : Z;
  g_checkin_recurrence : option rstr;
  g_checkin_prompt : option rstr;
  g_next_checkin : option instant;
  g_last_checkin_at : option instant;
  g_checkin_count : Z;
  g_created_at : instant;
  g_updated_at : instant;
}.
Record NewGoal : Type := mkNewGoal {
  nl_id : rstr;
  nl_agent_group_id : uuid;
  nl_session_id : uuid;
  nl_objective : rstr;
  nl_task_id : option rstr;
  nl_grant_id : option rstr;
  nl_token_budget : option Z;
  nl_checkin_recurrence : option rstr;
  nl_checkin_prompt : option rstr;
  nl_next_checkin : option instant;
}.
Record GoalProgress : Type := mkProgress {
  gp_id : rstr;
  gp_goal_id : rstr;
  gp_note : rstr;
  gp_tokens : option Z;
  gp_created_at : instant;
}.
Record GoalUpdate : Type := mkGoalUpdate {
  gu_objective : option rstr;
  gu_checkin_prompt : option (option rstr);
  gu_checkin_recurrence : option (option rstr);
}.
Abbreviation goal_table := (list GoalRow) (only parsing).
Abbreviation progress_table := (list GoalProgress) (only parsing).

(** ** Reading *)

Definition goal_has_id (id : rstr) (g : GoalRow) : bool := rstr_eqb (g_id g) id.
Definition row_to_goal (g : GoalRow) : result DbError GoalRow :=
  if is_i64 (g_tokens_consumed g) then Ok g else Err SqliteConversion.
(** [collect::<Result<Vec<_>>>()]: the first unreadable row fails the query. *)
Fixpoint read_goals (l : goal_table) : result DbError goal_table :=
  match l with
  | [] => Ok []
  | g :: l' => let? g := row_to_goal g in let? gs := read_goals l' in Ok (g :: gs)
  end.

Definition goal_get (t : goal_table) (id : rstr) : result DbError (option GoalRow) :=
  match sql_get (goal_has_id id) t with
  | Some g => let? g := row_to_goal g in Ok (Some g)
  | None => Ok None
  end.
Definition goal_found (t : goal_table) (id : rstr) : result DbError GoalRow :=
  let? o := goal_get t id in match o with Some g => Ok g | None => Err NotFound end.
Definition goals_for_session (t : goal_table) (session : uuid) : result DbError goal_table :=
  read_goals (order_by (fun g => - g_created_at g) (List.filter (fun g => g_session_id g =? session) t)).
Definition goals_for_group (t : goal_table) (group : uuid) : result DbError goal_table :=
  read_goals (order_by (fun g => - g_created_at g) (List.filter (fun g => g_agent_group_id g =? group) t)).
Definition checkin_due (now : instant) (g : GoalRow) : bool :=
  bool_decide (g_status g = Goal.Active)
  && match g_next_checkin g with Some n => n <=? now | None => false end.
Definition list_due_checkin (t : goal_table) (now : instant) : result DbError goal_table :=
  read_goals (order_by (fun g => default 0 (g_next_checkin g)) (List.filter (checkin_due now) t)).
Definition goals_count_active (t : goal_table) : Z :=
  sql_count (fun g => bool_decide (g_status g = Goal.Active)) t.

(** ** Writing *)

Definition goal_of (goal : NewGoal) (now : instant) : GoalRow :=
  mkGoal (nl_id goal) (nl_agent_group_id goal) (nl_session_id goal) (nl_objective goal) Goal.Active
    (nl_task_id goal) (nl_grant_id goal) (nl_token_budget goal) 0 (nl_checkin_recurrence goal)
    (nl_checkin_prompt goal) (nl_next_checkin goal) None 0 now now.
(** [refs]: the rows the foreign keys name exist. *)
Definition goal_insert (t : goal_table) (refs : bool) (goal : NewGoal) (now : instant)
  : result DbError (GoalRow * goal_table) :=
  if blank (nl_objective goal) then Err (Invariant "goal objective must be non-empty")
  else if existsb (goal_has_id (nl_id goal)) t || negb refs then Err SqliteConstraint
  else Ok (goal_of goal now, t ++ [goal_of goal now]).

Definition goal_with_status (s : GoalStatus) (now : instant) (g : GoalRow) : GoalRow :=
  mkGoal (g_id g) (g_agent_group_id g) (g_session_id g) (g_objective g) s (g_task_id g) (g_grant_id g)
    (g_token_budget g) (g_tokens_consumed g) (g_checkin_recurrence g) (g_checkin_prompt g)
    (if Goal.is_terminal s then None else g_next_checkin g) (g_last_checkin_at g) (g_checkin_count g)
    (g_created_at g) now.
Definition goal_with_next (n : option instant) (now : instant) (g : GoalRow) : GoalRow :=
  mkGoal (g_id g) (g_agent_group_id g) (g_session_id g) (g_objective g) (g_status g) (g_task_id g)
    (g_grant_id g) (g_token_budget g) (g_tokens_consumed g) (g_checkin_recurrence g) (g_checkin_prompt g)
    n (g_last_checkin_at g) (g_checkin_count g) (g_created_at g) now.
Definition goal_with_checkin (fired_at now : instant) (g : GoalRow) : GoalRow :=
  mkGoal (g_id g) (g_agent_group_id g) (g_session_id g) (g_objective g) (g_status g) (g_task_id g)
    (g_grant_id g) (g_token_budget g) (g_tokens_consumed g) (g_checkin_recurrence g) (g_checkin_prompt g)
    (g_next_checkin g) (Some fired_at) (g_checkin_count g + 1) (g_created_at g) now.
Definition goal_with_tokens (n : Z) (now : instant) (g : GoalRow) : GoalRow :=
  mkGoal (g_id g) (g_agent_group_id g) (g_session_id g) (g_objective g) (g_status g) (g_task_id g)
    (g_grant_id g) (g_token_budget g) (g_tokens_consumed g + n) (g_checkin_recurrence g)
    (g_checkin_prompt g) (g_next_checkin g) (g_last_checkin_at g) (g_checkin_count g) (g_created_at g) now.
Definition goal_with_fields (fields : GoalUpdate) (now : instant) (g : GoalRow) : GoalRow :=
  mkGoal (g_id g) (g_agent_group_id g) (g_session_id g) (default (g_objective g) (gu_objective fields))
    (g_status g) (g_task_id g) (g_grant_id g) (g_token_budget g) (g_tokens_consumed g)
    (default (g_checkin_recurrence g) (gu_checkin_recurrence fields))
    (default (g_checkin_prompt g) (gu_checkin_prompt fields))
    (g_next_checkin g) (g_last_checkin_at g) (g_checkin_count g) (g_created_at g)
    (match fields with mkGoalUpdate None None None => g_updated_at g | _ => now end).

Definition goal_write (id : rstr) (f : GoalRow -> GoalRow) (t : goal_table) : goal_table :=
  fst (sql_update (goal_has_id id) f t).
Definition goal_write_found (id : rstr) (f : GoalRow -> GoalRow) (t : goal_table)
  : result DbError goal_table :=
  let '(t', n) := sql_update (goal_has_id id) f t in
  if (n =? 0)%nat then Err NotFound else Ok t'.

Definition goal_set_status (t : goal_table) (id : rstr) (status : GoalStatus) (now : instant)
  : result DbError (GoalRow * goal_table) :=
  let? current := goal_found t id in
  if negb (Goal.transition (g_status current) status) then
    Err (Invariant ("illegal goal transition " ++ Goal.as_str (g_status current) ++ " → "
                    ++ Goal.as_str status))
  else
    let t' := goal_write id (goal_with_status status now) t in
    let? g := goal_found t' id in Ok (g, t').
Definition mark_checkin (t : goal_table) (id : rstr) (fired_at now : instant) :=
  goal_write_found id (goal_with_checkin fired_at now) t.
Definition set_next_checkin (t : goal_table) (id : rstr) (next : option instant) (now : instant) :=
  goal_write_found id (goal_with_next next now) t.

(** ** The budget *)

(** [i64] subtraction of the release build. *)
Definition wrap_i64 (n : Z) : Z := (n - i64_min) mod (2 ^ 64) + i64_min.
Definition budget_remaining (t : goal_table) (grants : grant_table) (goal_id : rstr) (now : instant)
  : result DbError (option Z) :=
  let? goal := goal_found t goal_id in
  match g_grant_id goal with
  | Some grant_id =>
      match grant_get grants grant_id with
      | None => Ok (Some 0)
      | Some grant =>
          Ok (Some (default 0
            (match effective_grant grants (tg_task_id grant) now with
             | Some eff => if rstr_eqb (eg_id eff) grant_id then tokens_remaining eff else None
             | None => None
             end)))
      end
  | None => Ok (option_map (fun b => Z.max (wrap_i64 (b - g_tokens_consumed goal)) 0) (g_token_budget goal))
  end.

(** ** The goals of the central database *)

(** With the next fresh id and the clock. *)
Record GoalsDb : Type := mkGoals {
  gd_goals : goal_table;
  gd_progress : progress_table;
  gd_fresh : uuid;
  gd_now : instant;
}.
Definition GM (A : Type) : Type := stateful GoalsDb DbError A.
Definition set_goals (t : goal_table) : GM unit :=
  modify (fun w => mkGoals t (gd_progress w) (gd_fresh w) (gd_now w)).
Definition set_progress (p : progress_table) : GM unit :=
  modify (fun w => mkGoals (gd_goals w) p (gd_fresh w) (gd_now w)).

(** The columns are written one statement after another; nothing can fail
    between them, and a blank objective is refused before the first. *)
Definition goal_update (id : rstr) (fields : GoalUpdate) : GM GoalRow :=
  let! now := gets gd_now in
  let! t := gets gd_goals in
  match gu_objective fields with
  | Some obj =>
      if blank obj then fail (Invariant "goal objective must be non-empty")
      else set_goals (goal_write id (goal_with_fields fields now) t) ;;
           let! t := gets gd_goals in lift (goal_found t id)
  | None =>
      set_goals (goal_write id (goal_with_fields fields now) t) ;;
      let! t := gets gd_goals in lift (goal_found t id)
  end.

Definition record_progress (entry_id goal_id note : rstr) (tokens : option Z) : GM GoalProgress :=
  if blank note then fail (Invariant "goal progress note must be non-empty")
  else if match tokens with Some t => t <? 0 | None => false end then
    fail (Invariant "record_progress: `tokens` must be non-negative")
  else
    let! t := gets gd_goals in
    let! _ := lift (goal_found t goal_id) in
    let! now := gets gd_now in
    let! log := gets gd_progress in
    let entry := mkProgress entry_id goal_id note tokens now in
    if existsb (fun p => rstr_eqb (gp_id p) entry_id) log then fail SqliteConstraint
    else
      set_progress (log ++ [entry]) ;;
      match tokens with
      | Some n => set_goals (goal_write goal_id (goal_with_tokens n now) t) ;; ret entry
      | None => ret entry
      end.
Definition list_progress (log : progress_table) (goal_id : rstr) : progress_table :=
  order_by gp_created_at (List.filter (fun p => rstr_eqb (gp_goal_id p) goal_id) log).

(** ** The [goal] row of the delivery loop *)

(** [o == Some(s)] of an optional text. *)
Definition opt_is (o : option rstr) (s : rstr) : bool :=
  match o with Some t => rstr_eqb t s | None => false end.

Section Apply.
Context `{Calendar}.
(** Fresh ids as text, the rows foreign keys name, and [{other:?}]. *)
Context (uuid_text : uuid -> rstr) (refs_exist : uuid -> uuid -> bool) (debug : option rstr -> string).

(** [str_field] and [i64_field] of the body; a blank text is absent. *)
Definition str_field (key : string) (body : json) : option rstr :=
  not_blank (jget_str key body).
Definition ts_field (key : string) (body : json) : option instant :=
  match jget_str key body with Some s => parse_rfc3339 s | None => None end.
Definition fresh_text : GM rstr :=
  let! n := gets gd_fresh in
  modify (fun w => mkGoals (gd_goals w) (gd_progress w) (n + 1) (gd_now w)) ;;
  ret (uuid_text n).
Definition required (message : string) (o : option rstr) : GM rstr :=
  match o with Some s => ret s | None => fail (Invariant message) end.

Definition goal_create (group session : uuid) (body : json) : GM unit :=
  let! objective := required "goal create: missing objective" (str_field "objective" body) in
  let recurrence := str_field "checkin_recurrence" body in
  let! now := gets gd_now in
  let next := or_else (ts_field "first_checkin" body)
                (match recurrence with
                 | Some rec => compute_next_fire (At now) now (Some rec)
                 | None => None
                 end) in
  let! id := fresh_text in
  let! t := gets gd_goals in
  let! '(_, t') := lift (goal_insert t (refs_exist group session)
                           (mkNewGoal id group session objective None None (jget_i64 "token_budget" body)
                              recurrence (str_field "checkin_prompt" body) next) now) in
  set_goals t'.

Definition goal_change (body : json) : GM unit :=
  let! id := required "goal update: missing id" (str_field "id" body) in
  match str_field "objective" body with
  | Some objective => let! _ := goal_update id (mkGoalUpdate (Some objective) None None) in ret tt
  | None => ret tt
  end ;;
  match str_field "status" body with
  | Some status_str =>
      let! status := lift (match Goal.from_str status_str with
                           | Ok s => Ok s
                           | Err e => Err (Invariant e)
                           end) in
      let! now := gets gd_now in
      let! t := gets gd_goals in
      let! '(_, t') := lift (goal_set_status t id status now) in
      set_goals t'
  | None => ret tt
  end ;;
  match str_field "progress" body with
  | Some note =>
      let! entry := fresh_text in
      let! _ := record_progress entry id note (jget_i64 "progress_tokens" body) in
      ret tt
  | None => ret tt
  end.

Definition apply_goal (sess : Session) (payload : json) : GM unit :=
  let op := jget_str "op" payload in
  let body := default JNull (jget "payload" payload) in
  if opt_is op (lit "create") then goal_create (s_agent_group_id sess) (s_id sess) body
  else if opt_is op (lit "update") then goal_change body
  else fail (Invariant (String.append "goal: unknown op " (debug op))).
End Apply.
