(* ===== verification/Conditions.v ===== *)
(** Condition check-ins: the stored conditions and flag latches
    ([copperclaw-db/src/tables/conditions.rs]), the in-memory store with its
    edge latch ([copperclaw-host-sweep/src/checks/condition_checkin.rs]), and
    the row of the delivery loop that changes them ([apply_condition],
    [copperclaw-host-delivery/src/service.rs]). *)
From S2P Require Import Prelude Types Grants Schedule Goals.

(** ** The tables *)

Record StoredCondition : Type := mkStored {
  sc_id : rstr;
  sc_agent_group_id : uuid;
  sc_session_id : uuid;
  sc_kind : rstr;
  sc_threshold : option Z;
  sc_flag : option rstr;
  sc_prompt : rstr;
  sc_grant_id : option rstr;
  sc_created_at : instant;
  sc_removed_at : option instant;
}.
Record NewCondition : Type := mkNewCondition {
  nc_id : rstr;
  nc_agent_group_id : uuid;
  nc_session_id : uuid;
  nc_kind : rstr;
  nc_threshold : option Z;
  nc_flag : option rstr;
  nc_prompt : rstr;
  nc_grant_id : option rstr;
}.
Record ConditionFlag : Type := mkFlag {
  cf_agent_group_id : uuid;
  cf_session_id : uuid;
  cf_flag : rstr;
  cf_set_at : instant;
}.
Abbreviation condition_table := (list StoredCondition) (only parsing).
Abbreviation flag_table := (list ConditionFlag) (only parsing).

Definition sc_has_id (id : rstr) (c : StoredCondition) : bool := rstr_eqb (sc_id c) id.
Definition sc_active (c : StoredCondition) : bool :=
  match sc_removed_at c with None => true | Some _ => false end.
Definition stored_of (spec : NewCondition) (created : instant) : StoredCondition :=
  mkStored (nc_id spec) (nc_agent_group_id spec) (nc_session_id spec) (nc_kind spec) (nc_threshold spec)
    (nc_flag spec) (nc_prompt spec) (nc_grant_id spec) created None.
(** The row returned to the caller carries the time of this call, the stored
    one keeps the time of its first registration.  [refs]: the group and the
    grant the foreign keys name exist. *)
Definition condition_upsert (t : condition_table) (refs : bool) (spec : NewCondition) (now : instant)
  : result DbError (StoredCondition * condition_table) :=
  if blank (nc_id spec) then Err (Invariant "condition id must be non-empty")
  else if blank (nc_prompt spec) then Err (Invariant "condition prompt must be non-empty")
  else if negb refs then Err SqliteConstraint
  else
    Ok (stored_of spec now,
        if existsb (sc_has_id (nc_id spec)) t
        then fst (sql_update (sc_has_id (nc_id spec)) (fun c => stored_of spec (sc_created_at c)) t)
        else t ++ [stored_of spec now]).
(** [ORDER BY id]: text compares byte by byte, which is scalar value by scalar
    value. *)
Fixpoint text_leb (a b : rstr) : bool :=
  match a, b with
  | [], _ => true
  | _ :: _, [] => false
  | x :: a', y :: b' => (x <? y) || ((x =? y) && text_leb a' b')
  end.
Fixpoint insert_text {A} (k : A -> rstr) (x : A) (l : list A) : list A :=
  match l with
  | [] => [x]
  | y :: l' => if text_leb (k x) (k y) then x :: l else y :: insert_text k x l'
  end.
Definition order_text {A} (k : A -> rstr) (l : list A) : list A := fold_right (insert_text k) [] l.

Definition conditions_active (t : condition_table) : condition_table :=
  order_text sc_id (List.filter sc_active t).
Definition condition_get (t : condition_table) (id : rstr) : option StoredCondition := sql_get (sc_has_id id) t.
Definition soft_remove (t : condition_table) (id : rstr) (now : instant) : bool * condition_table :=
  let '(t', n) :=
    sql_update (fun c => sc_has_id id c && sc_active c)
      (fun c => mkStored (sc_id c) (sc_agent_group_id c) (sc_session_id c) (sc_kind c) (sc_threshold c)
                  (sc_flag c) (sc_prompt c) (sc_grant_id c) (sc_created_at c) (Some now)) t in
  ((0 <? n)%nat, t').

Definition flag_key (session : uuid) (flag : rstr) (f : ConditionFlag) : bool :=
  (cf_session_id f =? session) && rstr_eqb (cf_flag f) flag.
Definition set_flag (t : flag_table) (refs : bool) (group session : uuid) (flag : rstr) (now : instant)
  : result DbError flag_table :=
  if blank flag then Err (Invariant "condition flag name must be non-empty")
  else if negb refs then Err SqliteConstraint
  else
    Ok (if existsb (flag_key session flag) t
        then fst (sql_update (flag_key session flag)
                    (fun f => mkFlag (cf_agent_group_id f) (cf_session_id f) (cf_flag f) now) t)
        else t ++ [mkFlag group session flag now]).
Definition clear_flag (t : flag_table) (session : uuid) (flag : rstr) : bool * flag_table :=
  let '(t', n) := sql_delete (flag_key session flag) t in ((0 <? n)%nat, t').
Definition list_flags_for_session (t : flag_table) (session : uuid) : list rstr :=
  order_text id (map cf_flag (List.filter (fun f => cf_session_id f =? session) t)).

(** ** Conditions *)

Inductive ConditionKind : Type :=
| PendingInboundAtLeast (min : Z)
| IdleForAtLeastSecs (idle_secs : Z)
| FlagSet (flag : rstr).
Record Condition : Type := mkCondition {
  co_id : rstr;
  co_agent_group_id : uuid;
  co_session_id : uuid;
  co_kind : ConditionKind;
  co_prompt : rstr;
}.
Record ConditionContext : Type := mkContext {
  cx_pending_inbound : Z;
  cx_idle_secs : option Z;
  cx_flags_set : list rstr;
}.
#[export] Instance ConditionKind_eq_dec : EqDecision ConditionKind.
Proof. solve_decision. Defined.
#[export] Instance Condition_eq_dec : EqDecision Condition.
Proof. solve_decision. Defined.

Definition quiet : ConditionContext := mkContext 0 None [].
Definition try_unsigned (max : Z) (n : Z) : option Z :=
  if (0 <=? n) && (n <=? max) then Some n else None.
Definition from_stored (stored : StoredCondition) : option Condition :=
  let kind :=
    if rstr_eqb (sc_kind stored) (lit "pending_inbound") then
      option_map PendingInboundAtLeast (sc_threshold stored ≫= try_unsigned u32_max)
    else if rstr_eqb (sc_kind stored) (lit "idle") then
      option_map IdleForAtLeastSecs (sc_threshold stored ≫= try_unsigned u64_max)
    else if rstr_eqb (sc_kind stored) (lit "flag") then option_map FlagSet (sc_flag stored)
    else None in
  option_map (fun k => mkCondition (sc_id stored) (sc_agent_group_id stored) (sc_session_id stored) k
                         (sc_prompt stored)) kind.
Definition holds (c : Condition) (ctx : ConditionContext) : bool :=
  match co_kind c with
  | PendingInboundAtLeast min => min <=? cx_pending_inbound ctx
  | IdleForAtLeastSecs idle => match cx_idle_secs ctx with Some s => idle <=? s | None => false end
  | FlagSet flag => existsb (fun f => rstr_eqb f flag) (cx_flags_set ctx)
  end.

(** ** The store *)

(** Two hash maps; the latch holds the last value observed. *)
Record ConditionStore : Type := mkStore {
  st_conditions : gmap rstr Condition;
  st_last_held : gmap rstr bool;
}.
(** The order in which a hash map hands out its values. *)
Class HashOrder : Type := {
  hash_values : gmap rstr Condition -> list Condition;
  hash_values_perm : forall m, hash_values m ≡ₚ (map_to_list m).*2;
}.

Definition store_register (store : ConditionStore) (c : Condition) : ConditionStore :=
  mkStore (<[co_id c := c]> (st_conditions store)) (delete (co_id c) (st_last_held store)).
Definition store_remove (store : ConditionStore) (id : rstr) : bool * ConditionStore :=
  (bool_decide (is_Some (st_conditions store !! id)),
   mkStore (delete id (st_conditions store)) (delete id (st_last_held store))).
Definition desired_id (desired : list Condition) (id : rstr) : bool :=
  existsb (fun c => rstr_eqb (co_id c) id) desired.
Definition drop_stale (desired : list Condition) (store : ConditionStore) : ConditionStore :=
  foldr (fun id s => snd (store_remove s id)) store
    (List.filter (fun id => negb (desired_id desired id)) (map_to_list (st_conditions store)).*1).
Definition admit_desired (store : ConditionStore) (c : Condition) : ConditionStore :=
  if bool_decide (st_conditions store !! co_id c = Some c) then store else store_register store c.
Definition reconcile (store : ConditionStore) (desired : list Condition) : ConditionStore :=
  fold_left admit_desired desired (drop_stale desired store).
Definition store_all `{HashOrder} (store : ConditionStore) : list Condition := hash_values (st_conditions store).
Definition for_session `{HashOrder} (store : ConditionStore) (session : uuid) : list Condition :=
  List.filter (fun c => co_session_id c =? session) (store_all store).
Definition observe_edge (store : ConditionStore) (id : rstr) (now_holds : bool) : bool * ConditionStore :=
  let was := default false (st_last_held store !! id) in
  (now_holds && negb was, mkStore (st_conditions store) (<[id := now_holds]> (st_last_held store))).

(** ** The [condition] row of the delivery loop *)

Record ConditionsDb : Type := mkConditions {
  cd_conditions : condition_table;
  cd_flags : flag_table;
  cd_now : instant;
}.
Definition CM (A : Type) : Type := stateful ConditionsDb DbError A.
Definition set_conditions (t : condition_table) : CM unit :=
  modify (fun w => mkConditions t (cd_flags w) (cd_now w)).
Definition set_flags (t : flag_table) : CM unit :=
  modify (fun w => mkConditions (cd_conditions w) t (cd_now w)).
Definition must (message : string) (o : option rstr) : CM rstr :=
  match o with Some s => ret s | None => fail (Invariant message) end.
Definition jget_bool (k : string) (j : json) : option bool :=
  match jget k j with Some (JBool b) => Some b | _ => None end.

Section Apply.
(** The rows foreign keys name, and [{other:?}]. *)
Context (refs_exist : uuid -> option rstr -> bool) (debug : option rstr -> string).

Definition condition_register (group session : uuid) (body : json) : CM unit :=
  let! id := must "condition register: missing id" (str_field "id" body) in
  let! kind := must "condition register: missing kind" (str_field "kind" body) in
  let! prompt := must "condition register: missing prompt" (str_field "prompt" body) in
  let! now := gets cd_now in
  let! t := gets cd_conditions in
  let! '(_, t') := lift (condition_upsert t (refs_exist group (str_field "grant_id" body))
                           (mkNewCondition id group session kind (jget_i64 "threshold" body)
                              (str_field "flag" body) prompt (str_field "grant_id" body)) now) in
  set_conditions t'.
Definition condition_deregister (body : json) : CM unit :=
  let! id := must "condition remove: missing id" (str_field "id" body) in
  let! now := gets cd_now in
  let! t := gets cd_conditions in
  set_conditions (snd (soft_remove t id now)).
Definition condition_flag (group session : uuid) (body : json) : CM unit :=
  let! flag := must "condition set_flag: missing flag" (str_field "flag" body) in
  let! now := gets cd_now in
  let! t := gets cd_flags in
  if default false (jget_bool "value" body) then
    let! t' := lift (set_flag t (refs_exist group None) group session flag now) in set_flags t'
  else set_flags (snd (clear_flag t session flag)).

Definition apply_condition (sess : Session) (payload : json) : CM unit :=
  let op := jget_str "op" payload in
  let body := default JNull (jget "payload" payload) in
  if opt_is op (lit "register") then condition_register (s_agent_group_id sess) (s_id sess) body
  else if opt_is op (lit "remove") then condition_deregister body
  else if opt_is op (lit "set_flag") then condition_flag (s_agent_group_id sess) (s_id sess) body
  else fail (Invariant (String.append "condition: unknown op " (debug op))).
End Apply.

(** An order of the values, for concrete instances. *)
Module HashDemo.
#[export] Instance demo_order : HashOrder := {|
  hash_values m := (map_to_list m).*2;
  hash_values_perm _ := reflexivity _;
|}.
End HashDemo.
