(* ===== verification/Interactive.v ===== *)
(** Questions, cards, edits and reactions
    ([copperclaw-modules/src/interactive.rs]): the pending questions shared by
    the delivery loop, which registers them, and the sweep, which lets them
    expire; and the delivery actions that turn a row into a message. *)
From S2P Require Import Prelude Types Schedule Goals Conditions Dispatch.

(** ** Actions ([copperclaw-modules/src/context.rs]) *)

Record DeliveryActionInput : Type := mkActionInput {
  in_payload : json;
  in_target : DispatchTarget;
  in_session_id : option uuid;
  in_row_id : option uuid;
}.
Record DeliveryActionOutput : Type := mkActionOutput {
  out_dispatch : option DispatchTarget;
  out_message : option OutboundMessage;
}.

(** ** Pending questions *)

Record QuestionOrigin : Type := mkOrigin {
  qo_session_id : option uuid;
  qo_agent_group_id : option uuid;
  qo_message_out_id : option uuid;
  qo_channel_type : option string;
  qo_platform_id : option string;
  qo_thread_id : option string;
}.
Record PendingQuestion : Type := mkQuestion {
  pq_id : rstr;
  pq_title : rstr;
  pq_options : list rstr;
  pq_asked_at : instant;
  pq_timeout_at : instant;
  pq_answered : option rstr;
  pq_origin : QuestionOrigin;
}.
Abbreviation questions := (gmap rstr PendingQuestion) (only parsing).

Definition default_timeout : Z := 24 * 60 * 60 * ns_per_s.
Definition question_expired (now : instant) (q : PendingQuestion) : bool :=
  match pq_answered q with None => pq_timeout_at q <=? now | Some _ => false end.
Definition ask (t : questions) (id title : rstr) (options : list rstr) (origin : QuestionOrigin) (now : instant)
  : PendingQuestion * questions :=
  let q := mkQuestion id title options now (now + default_timeout) None origin in (q, <[id := q]> t).
Definition answer (t : questions) (id reply : rstr) : bool * questions :=
  match t !! id with
  | Some q =>
      match pq_answered q with
      | None => (true, <[id := mkQuestion (pq_id q) (pq_title q) (pq_options q) (pq_asked_at q)
                                 (pq_timeout_at q) (Some reply) (pq_origin q)]> t)
      | Some _ => (false, t)
      end
  | None => (false, t)
  end.
(** Removed and returned in the order of the ask, then of the id. *)
Definition lapsed (t : questions) (now : instant) : list (rstr * PendingQuestion) :=
  List.filter (fun p => question_expired now (snd p)) (map_to_list t).
Definition sweep_expired (t : questions) (now : instant) : list PendingQuestion * questions :=
  (order_by pq_asked_at (order_text pq_id (map snd (lapsed t now))),
   foldr (fun p => delete (fst p)) t (lapsed t now)).

(** ** The actions *)

Definition module_error (reason : string) : rstr := lit reason.
Definition target_of (channel_type platform_id : rstr) (thread : option rstr) : DispatchTarget :=
  mkTarget (Some (to_string channel_type)) (Some (to_string platform_id)) (option_map to_string thread) None.
Definition dispatch_from_payload (payload : json) : option DispatchTarget :=
  match jget "to" payload with
  | None => None
  | Some to_ =>
      match jget_str "channel_type" to_, jget_str "platform_id" to_ with
      | Some ct, Some pid => Some (target_of ct pid (jget_str "thread_id" to_))
      | _, _ => None
      end
  end.
Definition strings_of (j : json) : list rstr :=
  match j with JArr l => omap jas_str l | _ => [] end.
Definition chat_message (content : json) : OutboundMessage := mkOutbound Chat content [].

(** The id under [id], or under [question_id] when that key is absent. *)
Definition question_id (payload : json) : option rstr :=
  match or_else (jget "id" payload) (jget "question_id" payload) with
  | Some v => jas_str v
  | None => None
  end.
Definition question_card (id title : rstr) (options : list rstr) : json :=
  JObj [("card", JObj [("type", JStr (lit "question")); ("question_id", JStr id); ("title", JStr title);
                       ("options", JArr (map JStr options))])]%string.
Definition handle_ask (now : instant) (t : questions) (input : DeliveryActionInput)
  : result rstr DeliveryActionOutput * questions :=
  let payload := in_payload input in
  match question_id payload, jget_str "title" payload with
  | None, _ => (Err (module_error "missing question id (`id`)"), t)
  | Some _, None => (Err (module_error "missing title"), t)
  | Some id, Some title =>
      match strings_of (default JNull (jget "options" payload)) with
      | [] => (Err (module_error "ask_user_question requires at least one option"), t)
      | options =>
          let dispatch := dispatch_from_payload payload in
          let routed := default (in_target input) dispatch in
          let origin := mkOrigin (in_session_id input) (dt_agent_group_id (in_target input)) (in_row_id input)
                          (dt_channel_type routed) (dt_platform_id routed) (dt_thread_id routed) in
          (Ok (mkActionOutput dispatch (Some (chat_message (question_card id title options)))),
           snd (ask t id title options origin now))
      end
  end.

Definition handle_edit (input : DeliveryActionInput) : result rstr DeliveryActionOutput :=
  match jget_str "text" (in_payload input) with
  | None => Err (module_error "edit payload missing text")
  | Some text =>
      Ok (mkActionOutput (or_else (dispatch_from_payload (in_payload input)) (Some (in_target input)))
            (Some (chat_message (JObj [("text"%string, JStr (lit "(edit) " ++ text))]))))
  end.
Definition handle_reaction (input : DeliveryActionInput) : result rstr DeliveryActionOutput :=
  match jget_str "emoji" (in_payload input) with
  | None => Err (module_error "reaction payload missing emoji")
  | Some emoji =>
      Ok (mkActionOutput (or_else (dispatch_from_payload (in_payload input)) (Some (in_target input)))
            (Some (chat_message (JObj [("text"%string, JStr (lit "(reaction: " ++ emoji ++ lit ")"))]))))
  end.
Definition handle_card (input : DeliveryActionInput) : result rstr DeliveryActionOutput :=
  match jget "card" (in_payload input) with
  | None => Err (module_error "missing card payload")
  | Some card =>
      Ok (mkActionOutput (dispatch_from_payload (in_payload input))
            (Some (chat_message (JObj [("card"%string, card)]))))
  end.
