(* ===== verification/Sweep.v ===== *)
(** The maintenance sweep ([copperclaw-host-sweep]): the checks of
    [src/checks/*.rs] and the pass that runs them ([run_once] of
    [src/service.rs]).

    The state holds the central tables, what the sweep keeps in memory, and
    the directory of every session.  A check is a computation on it; [now] is
    the instant the pass started at, [sv_now] the clock the tables read.  A
    panic inside a check ends the pass. *)
From S2P Require Import Prelude Types MessagesIn Outbox Grants Central Schedule Goals Conditions Interactive.

(** ** Constants ([src/lib.rs], [src/spawn_tracker.rs]) *)

Definition APOLOGY_AFTER_SECS : Z := 300.
Definition CLAIM_STUCK_MS : Z := 60000.
Definition ABSOLUTE_CEILING_MS : Z := 1800000.
Definition HEARTBEAT_STALE_MS : Z := 90000.
Definition SPAWN_FAIL_THRESHOLD : Z := 3.
Definition APOLOGY_TRIES_MARKER : Z := 99.
Definition APOLOGY_SCAN_LIMIT : Z := 50.
Definition INTEGRITY_ROTATION_SLOTS : Z := 60.
Definition EM_DASH : rstr := [8212].

(** ** The state *)

Inductive SweepError : Type :=
| SDb (e : DbError)
| SOpen
| SScheduleParse (message : rstr)
| SIo.

(** The file [.heartbeat], and what [quick_check] says of a database. *)
Inductive Heartbeat : Type := NoHeartbeat | Beat (mtime : instant) | BeatUnreadable.
Inductive QuickCheckOutcome : Type := Healthy | Missing | Corrupt (detail : rstr).

(** The tables of [outbound.db] the sweep uses. *)
Record OutboundDb : Type := mkOutboundDb {
  ob_messages : list out_row;
  ob_acks : list ProcessingClaim;
  ob_state : option ContainerState;
}.
(** A session directory.  A database that is [None] cannot be opened. *)
Record SessionDir : Type := mkDir {
  sd_inbound : option (list in_row);
  sd_outbound : option OutboundDb;
  sd_heartbeat : Heartbeat;
  sd_outbound_check : QuickCheckOutcome;
  sd_inbound_check : QuickCheckOutcome;
  sd_quarantined : bool;
  sd_sidecar_writable : bool;
}.
(** Opening creates what is missing. *)
Definition fresh_dir : SessionDir :=
  mkDir (Some []) (Some (mkOutboundDb [] [] None)) NoHeartbeat Missing Missing false true.
Abbreviation session_key := (uuid * uuid)%type (only parsing).

Record AuditRow : Type := mkAuditRow {
  ar_ts : instant;
  ar_caller_session : rstr;
  ar_caller_agent_group : rstr;
  ar_command : rstr;
  ar_args : json;
}.

Record SweepWorld : Type := mkSweep {
  sv_sessions : list Session;
  sv_tasks : list TaskRow;
  sv_goals : list GoalRow;
  sv_grants : list TaskGrant;
  sv_conditions : list StoredCondition;
  sv_flags : list ConditionFlag;
  sv_audit : list AuditRow;
  sv_store : ConditionStore;
  sv_questions : option (gmap rstr PendingQuestion);
  sv_spawn : gmap uuid Z;
  sv_dirs : gmap session_key SessionDir;
  sv_pass : Z;
  sv_central_last : option instant;
  sv_central_check : option QuickCheckOutcome;
  sv_fresh : uuid;
  sv_now : instant;
}.
Definition SM (A : Type) : Type := stateful SweepWorld (fault SweepError) A.

Definition set_sessions (x : list Session) (w : SweepWorld) : SweepWorld :=
  mkSweep x (sv_tasks w) (sv_goals w) (sv_grants w) (sv_conditions w) (sv_flags w) (sv_audit w) (sv_store w)
    (sv_questions w) (sv_spawn w) (sv_dirs w) (sv_pass w) (sv_central_last w) (sv_central_check w)
    (sv_fresh w) (sv_now w).
Definition set_sv_tasks (x : list TaskRow) (w : SweepWorld) : SweepWorld :=
  mkSweep (sv_sessions w) x (sv_goals w) (sv_grants w) (sv_conditions w) (sv_flags w) (sv_audit w) (sv_store w)
    (sv_questions w) (sv_spawn w) (sv_dirs w) (sv_pass w) (sv_central_last w) (sv_central_check w)
    (sv_fresh w) (sv_now w).
Definition set_sv_goals (x : list GoalRow) (w : SweepWorld) : SweepWorld :=
  mkSweep (sv_sessions w) (sv_tasks w) x (sv_grants w) (sv_conditions w) (sv_flags w) (sv_audit w) (sv_store w)
    (sv_questions w) (sv_spawn w) (sv_dirs w) (sv_pass w) (sv_central_last w) (sv_central_check w)
    (sv_fresh w) (sv_now w).
Definition set_audit (x : list AuditRow) (w : SweepWorld) : SweepWorld :=
  mkSweep (sv_sessions w) (sv_tasks w) (sv_goals w) (sv_grants w) (sv_conditions w) (sv_flags w) x (sv_store w)
    (sv_questions w) (sv_spawn w) (sv_dirs w) (sv_pass w) (sv_central_last w) (sv_central_check w)
    (sv_fresh w) (sv_now w).
Definition set_store (x : ConditionStore) (w : SweepWorld) : SweepWorld :=
  mkSweep (sv_sessions w) (sv_tasks w) (sv_goals w) (sv_grants w) (sv_conditions w) (sv_flags w) (sv_audit w) x
    (sv_questions w) (sv_spawn w) (sv_dirs w) (sv_pass w) (sv_central_last w) (sv_central_check w)
    (sv_fresh w) (sv_now w).
Definition set_questions (x : option (gmap rstr PendingQuestion)) (w : SweepWorld) : SweepWorld :=
  mkSweep (sv_sessions w) (sv_tasks w) (sv_goals w) (sv_grants w) (sv_conditions w) (sv_flags w) (sv_audit w)
    (sv_store w) x (sv_spawn w) (sv_dirs w) (sv_pass w) (sv_central_last w) (sv_central_check w)
    (sv_fresh w) (sv_now w).
Definition set_spawn (x : gmap uuid Z) (w : SweepWorld) : SweepWorld :=
  mkSweep (sv_sessions w) (sv_tasks w) (sv_goals w) (sv_grants w) (sv_conditions w) (sv_flags w) (sv_audit w)
    (sv_store w) (sv_questions w) x (sv_dirs w) (sv_pass w) (sv_central_last w) (sv_central_check w)
    (sv_fresh w) (sv_now w).
Definition set_dirs (x : gmap session_key SessionDir) (w : SweepWorld) : SweepWorld :=
  mkSweep (sv_sessions w) (sv_tasks w) (sv_goals w) (sv_grants w) (sv_conditions w) (sv_flags w) (sv_audit w)
    (sv_store w) (sv_questions w) (sv_spawn w) x (sv_pass w) (sv_central_last w) (sv_central_check w)
    (sv_fresh w) (sv_now w).
Definition set_pass (x : Z) (w : SweepWorld) : SweepWorld :=
  mkSweep (sv_sessions w) (sv_tasks w) (sv_goals w) (sv_grants w) (sv_conditions w) (sv_flags w) (sv_audit w)
    (sv_store w) (sv_questions w) (sv_spawn w) (sv_dirs w) x (sv_central_last w) (sv_central_check w)
    (sv_fresh w) (sv_now w).
Definition set_central_last (x : option instant) (w : SweepWorld) : SweepWorld :=
  mkSweep (sv_sessions w) (sv_tasks w) (sv_goals w) (sv_grants w) (sv_conditions w) (sv_flags w) (sv_audit w)
    (sv_store w) (sv_questions w) (sv_spawn w) (sv_dirs w) (sv_pass w) x (sv_central_check w)
    (sv_fresh w) (sv_now w).
Definition set_fresh (x : uuid) (w : SweepWorld) : SweepWorld :=
  mkSweep (sv_sessions w) (sv_tasks w) (sv_goals w) (sv_grants w) (sv_conditions w) (sv_flags w) (sv_audit w)
    (sv_store w) (sv_questions w) (sv_spawn w) (sv_dirs w) (sv_pass w) (sv_central_last w) (sv_central_check w)
    x (sv_now w).

(** ** Steps *)

Definition sql {A} (r : result DbError A) : SM A :=
  lift (match r with Ok a => Ok a | Err e => Err (Fails (SDb e)) end).
Definition new_id : SM uuid := fun w => (Ok (sv_fresh w), set_fresh (sv_fresh w + 1) w).
(** The error of a check is logged; a panic is not caught. *)
Definition logged {A} (fallback : A) (m : SM A) : SM A :=
  fun w => match m w with
           | (Err (Fails _), w') => (Ok fallback, w')
           | r => r
           end.

Definition dir_at (k : session_key) (w : SweepWorld) : SessionDir := default fresh_dir (sv_dirs w !! k).
Definition put_dir (k : session_key) (d : SessionDir) (w : SweepWorld) : SweepWorld :=
  set_dirs (<[k := d]> (sv_dirs w)) w.
Definition with_inbound (t : list in_row) (d : SessionDir) : SessionDir :=
  mkDir (Some t) (sd_outbound d) (sd_heartbeat d) (sd_outbound_check d) (sd_inbound_check d)
    (sd_quarantined d) (sd_sidecar_writable d).
Definition with_outbound (o : OutboundDb) (d : SessionDir) : SessionDir :=
  mkDir (sd_inbound d) (Some o) (sd_heartbeat d) (sd_outbound_check d) (sd_inbound_check d)
    (sd_quarantined d) (sd_sidecar_writable d).
Definition with_quarantine (d : SessionDir) : SessionDir :=
  mkDir (sd_inbound d) (sd_outbound d) (sd_heartbeat d) (sd_outbound_check d) (sd_inbound_check d)
    true (sd_sidecar_writable d).

(** [inbound_pool], [outbound_pool]: the database as it is when read. *)
Definition opened {A} (o : option A) : SM A :=
  match o with Some a => ret a | None => fail (Fails SOpen) end.
Definition inbound_pool (k : session_key) : SM (list in_row) :=
  let! d := gets (dir_at k) in opened (sd_inbound d).
Definition outbound_pool (k : session_key) : SM OutboundDb :=
  let! d := gets (dir_at k) in opened (sd_outbound d).
Definition set_inbound (k : session_key) (t : list in_row) : SM unit :=
  modify (fun w => put_dir k (with_inbound t (dir_at k w)) w).
Definition set_outbound (k : session_key) (o : OutboundDb) : SM unit :=
  modify (fun w => put_dir k (with_outbound o (dir_at k w)) w).
Definition session_key_of (s : Session) : session_key := (s_agent_group_id s, s_id s).

(** [insert_in] and [insert_out] on an open database. *)
Definition insert_in (k : session_key) (write : WriteInbound) : SM unit :=
  let! t := inbound_pool k in
  let! '(_, t') := sql (insert t write) in
  set_inbound k t'.
Definition insert_out (k : session_key) (write : WriteOutbound) : SM unit :=
  let! o := outbound_pool k in
  let! '(_, t') := sql (out_insert (ob_messages o) write) in
  set_outbound k (mkOutboundDb t' (ob_acks o) (ob_state o)).

(** ** Reports *)

Record SeriesFanout : Type := mkFanout {
  sf_series_id : rstr;
  sf_new_message_id : uuid;
  sf_next_fire : instant;
}.
Record MessageReset : Type := mkReset {
  mr_session_id : uuid;
  mr_message_id : uuid;
  mr_new_tries : Z;
}.

(** The wake row a check writes into a session. *)
Definition wake_row (id : uuid) (now : instant) (content : json) (series : rstr) : WriteInbound :=
  mkWriteInbound id Task now content true true None None (Some series) None None None None None None.

(** ** Scheduled tasks ([checks/scheduling.rs]) *)

Section Checks.
Context `{Calendar} `{HashOrder}.
(** UUIDs and JSON as text, the rows a foreign key names, whether operator
    alerts are wired, and the stuck actuator. *)
Context (uuid_text : uuid -> rstr) (json_text : json -> rstr) (refs_exist : uuid -> uuid -> bool)
  (operator_alerts_enabled : bool).
(** Why the central database does not give the list of sessions, if it does not. *)
Context (central_error : SweepWorld -> option DbError).

(** [parse_when(..).ok()]. *)
Definition parse_ok (s : rstr) : SM (option When) :=
  let! clock := gets sv_now in
  match parse_when clock s with
  | Ok w => ret (Some w)
  | Err (Fails _) => ret None
  | Err Panics => fail Panics
  end.
Definition next_fire_for (when_spec : rstr) (recurrence : option rstr) (now : instant) : SM (option instant) :=
  let! parsed := parse_ok when_spec in
  match (match parsed with Some w => compute_next_fire w now recurrence | None => None end) with
  | Some next => ret (Some next)
  | None =>
      match recurrence with
      | Some rec => if blank rec then ret None else ret (compute_next_fire (At now) now (Some rec))
      | None => ret None
      end
  end.

Definition task_content (t : TaskRow) : json :=
  JObj [("text", JStr (t_prompt t)); ("task_id", JStr (t_id t)); ("task_name", opt_text (t_name t))]%string.
Definition write_tasks (r : list TaskRow -> instant -> result DbError (list TaskRow)) : SM unit :=
  let! clock := gets sv_now in
  let! t := gets sv_tasks in
  let! t' := sql (r t clock) in
  modify (set_sv_tasks t').
Definition rearm_task (now : instant) (task : TaskRow) : SM unit :=
  let! next_fire := match t_recurrence task with
                    | Some rec => next_fire_for (t_when_spec task) (Some rec) now
                    | None => ret None
                    end in
  match next_fire with
  | Some next => write_tasks (fun t => set_next_fire t (t_id task) (Some next))
  | None =>
      write_tasks (fun t => Schedule.set_status t (t_id task) Task.Completed) ;;
      write_tasks (fun t => set_next_fire t (t_id task) None)
  end.
Definition fire_task (now : instant) (task : TaskRow) : SM SeriesFanout :=
  let! msg_id := new_id in
  insert_in (t_agent_group_id task, t_session_id task)
    (wake_row msg_id now (task_content task) (t_id task)) ;;
  write_tasks (fun t => mark_fired t (t_id task) now) ;;
  rearm_task now task ;;
  ret (mkFanout (t_id task) msg_id now).
(** [for x in l { .. ? .. }]: the first error ends the loop. *)
Fixpoint each {A B} (f : A -> SM (option B)) (l : list A) : SM (list B) :=
  match l with
  | [] => ret []
  | x :: l' =>
      let! o := f x in
      let! out := each f l' in
      ret (match o with Some b => b :: out | None => out end)
  end.
Definition fired {A} (m : SM A) : SM (option A) := let! a := m in ret (Some a).
Definition scheduling_check (now : instant) : SM (list SeriesFanout) :=
  let! t := gets sv_tasks in
  each (fun task => fired (fire_task now task)) (list_due t now).

(** ** Goals ([checks/goals.rs]) *)

Inductive goal_outcome : Type :=
| GoalFired (f : SeriesFanout)
| GoalPaused (id : rstr).
Definition goal_prompt (g : GoalRow) : rstr :=
  default (lit "Goal check-in " ++ EM_DASH ++ lit " report progress on your objective and call `update_goal` "
           ++ lit "to record it (or mark it completed/abandoned): " ++ g_objective g) (g_checkin_prompt g).
Definition goal_content (g : GoalRow) : json :=
  JObj [("text", JStr (goal_prompt g)); ("goal_id", JStr (g_id g)); ("goal_objective", JStr (g_objective g));
        ("task_id", opt_text (g_task_id g))]%string.
Definition write_goals (r : list GoalRow -> instant -> result DbError (list GoalRow)) : SM unit :=
  let! clock := gets sv_now in
  let! t := gets sv_goals in
  let! t' := sql (r t clock) in
  modify (set_sv_goals t').
Definition next_checkin_of (now : instant) (g : GoalRow) : option instant :=
  match g_checkin_recurrence g with
  | Some rec => if blank rec then None else compute_next_fire (At now) now (Some rec)
  | None => None
  end.
Definition fire_goal (now : instant) (g : GoalRow) : SM SeriesFanout :=
  let! msg_id := new_id in
  insert_in (g_agent_group_id g, g_session_id g) (wake_row msg_id now (goal_content g) (g_id g)) ;;
  write_goals (fun t => mark_checkin t (g_id g) now) ;;
  write_goals (fun t => set_next_checkin t (g_id g) (next_checkin_of now g)) ;;
  ret (mkFanout (g_id g) msg_id now).
Definition drive_goal (now : instant) (g : GoalRow) : SM goal_outcome :=
  let! t := gets sv_goals in
  let! grants := gets sv_grants in
  let! remaining := sql (budget_remaining t grants (g_id g) now) in
  if bool_decide (remaining = Some 0) then
    write_goals (fun t clock => let? '(_, t') := goal_set_status t (g_id g) Goal.Paused clock in Ok t') ;;
    ret (GoalPaused (g_id g))
  else let! f := fire_goal now g in ret (GoalFired f).
Definition goals_check (now : instant) : SM (list goal_outcome) :=
  let! t := gets sv_goals in
  let! due := sql (list_due_checkin t now) in
  each (fun g => fired (drive_goal now g)) due.

(** ** Conditions ([checks/condition_checkin.rs]) *)

Definition CHECKIN_AUDIT_COMMAND : rstr := lit "sweep.condition_checkin".
(** Signals that cannot be read stay quiet. *)
Definition pending_signal (k : session_key) (w : SweepWorld) : Z :=
  match sd_inbound (dir_at k w) with
  | Some t => default 0 (try_unsigned u32_max (count_pending_for_typing t (sv_now w)))
  | None => 0
  end.
Definition idle_signal (session : uuid) (now : instant) (w : SweepWorld) : option Z :=
  match session_get (sv_sessions w) session with
  | Ok s => Some (Z.max (num_seconds (now - s_last_active s)) 0)
  | Err _ => None
  end.
Definition sample_condition_context (session : uuid) (now : instant) (w : SweepWorld) : ConditionContext :=
  match for_session (sv_store w) session with
  | [] => quiet
  | c :: _ =>
      mkContext (pending_signal (co_agent_group_id c, session) w) (idle_signal session now w)
        (list_flags_for_session (sv_flags w) session)
  end.
Definition condition_content (c : Condition) : json :=
  JObj [("text", JStr (co_prompt c)); ("condition_id", JStr (co_id c)); ("checkin", JBool true)]%string.
Definition audit_fire (now : instant) (c : Condition) (msg_id : uuid) : AuditRow :=
  mkAuditRow now (uuid_text (co_session_id c)) (uuid_text (co_agent_group_id c)) CHECKIN_AUDIT_COMMAND
    (JObj [("condition_id", JStr (co_id c)); ("message_id", JStr (uuid_text msg_id))]%string).
Definition fire_condition (now : instant) (c : Condition) : SM SeriesFanout :=
  let! msg_id := new_id in
  insert_in (co_agent_group_id c, co_session_id c) (wake_row msg_id now (condition_content c) (co_id c)) ;;
  modify (fun w => set_audit (sv_audit w ++ [audit_fire now c msg_id]) w) ;;
  ret (mkFanout (co_id c) msg_id now).
Definition observe (now : instant) (c : Condition) : SM bool :=
  fun w =>
    let '(rising, store) :=
      observe_edge (sv_store w) (co_id c) (holds c (sample_condition_context (co_session_id c) now w)) in
    (Ok rising, set_store store w).
Definition check_condition (now : instant) (c : Condition) : SM (option SeriesFanout) :=
  let! rising := observe now c in
  if rising then fired (fire_condition now c) else ret None.
Definition conditions_check (now : instant) : SM (list SeriesFanout) :=
  let! store := gets sv_store in
  each (check_condition now) (store_all store).
Definition reload_conditions : SM unit :=
  modify (fun w => set_store (reconcile (sv_store w) (omap from_stored (conditions_active (sv_conditions w)))) w).

(** ** Expired questions ([checks/questions.rs]) *)

Definition EXPIRED_QUESTION_TEXT : rstr :=
  lit "This question expired before anyone answered " ++ EM_DASH ++ lit " just reply and I'll pick it up from there.".
Record QuestionExpiryEmit : Type := mkExpiry {
  qe_question_id : rstr;
  qe_session_id : option uuid;
  qe_note_emitted : bool;
  qe_resolved_by_reply : bool;
}.
(** The newest chat row by sequence number. *)
Definition chat_inbound_arrived_after (t : list in_row) (asked_at : instant) : bool :=
  match order_by (fun r => - ir_seq r)
          (List.filter (fun r => bool_decide (mi_kind (ir_row r) = Chat)) t) with
  | r :: _ => asked_at <? mi_timestamp (ir_row r)
  | [] => false
  end.
Definition seq_for_message_id (t : list out_row) (id : uuid) : option Z :=
  option_map or_seq (sql_get (out_has_id id) t).
Definition expired_note (id : uuid) (now : instant) (origin : QuestionOrigin) (ask_seq : option Z) : WriteOutbound :=
  mkWriteOutbound id None now None None System (qo_platform_id origin) (qo_channel_type origin)
    (qo_thread_id origin)
    (JObj [("edit", JObj (match ask_seq with Some n => [("seq", JNum n)] | None => [] end
                          ++ [("text", JStr EXPIRED_QUESTION_TEXT)]))]%string).
Definition expired_result (id : uuid) (now : instant) (q : PendingQuestion) : WriteInbound :=
  mkWriteInbound id System now
    (JObj [("ask_user_question_result",
            JObj [("id", JStr (pq_id q)); ("status", JStr (lit "expired")); ("title", JStr (pq_title q));
                  ("detail", JStr (lit "No answer arrived before this question expired; the card was closed. "
                                   ++ lit "If the user replies later, treat that reply as the answer."))])]%string)
    false false None None None None None None None None None.
Definition routed (origin : QuestionOrigin) : bool :=
  match qo_channel_type origin, qo_platform_id origin with Some _, Some _ => true | _, _ => false end.
Definition surface_one (now : instant) (q : PendingQuestion) : SM QuestionExpiryEmit :=
  match qo_agent_group_id (pq_origin q), qo_session_id (pq_origin q) with
  | Some group, Some session =>
      let k := (group, session) in
      let! t := inbound_pool k in
      if chat_inbound_arrived_after t (pq_asked_at q) then
        ret (mkExpiry (pq_id q) (Some session) false true)
      else
        let! o := outbound_pool k in
        let ask_seq := match qo_message_out_id (pq_origin q) with
                       | Some id => seq_for_message_id (ob_messages o) id
                       | None => None
                       end in
        (if routed (pq_origin q) then
           let! id := new_id in insert_out k (expired_note id now (pq_origin q) ask_seq)
         else ret tt) ;;
        let! id := new_id in
        insert_in k (expired_result id now q) ;;
        ret (mkExpiry (pq_id q) (Some session) (routed (pq_origin q)) false)
  | _, _ => ret (mkExpiry (pq_id q) None false false)
  end.
Definition surface_logged (now : instant) (q : PendingQuestion) : SM (option QuestionExpiryEmit) :=
  fired (logged (mkExpiry (pq_id q) (qo_session_id (pq_origin q)) false false) (surface_one now q)).
Definition questions_check (now : instant) : SM (list QuestionExpiryEmit) :=
  let! store := gets sv_questions in
  match store with
  | None => ret []
  | Some t =>
      let '(expired, t') := sweep_expired t now in
      modify (set_questions (Some t')) ;;
      each (surface_logged now) expired
  end.

(** ** Integrity ([checks/integrity.rs], [check_central_integrity]) *)

Record IntegrityFinding : Type := mkFinding {
  if_session_id : uuid;
  if_db : string;
  if_detail : rstr;
}.
Definition rotation_slot (session : uuid) (slots : Z) : Z := session mod Z.max slots 1.
Definition check_and_quarantine (k : session_key) : SM (option IntegrityFinding) :=
  let! d := gets (dir_at k) in
  let quarantine db detail :=
    if sd_sidecar_writable d then
      modify (fun w => put_dir k (with_quarantine (dir_at k w)) w) ;;
      ret (Some (mkFinding (snd k) db detail))
    else fail (Fails SIo) in
  match sd_outbound_check d, sd_inbound_check d with
  | Corrupt detail, _ => quarantine "outbound.db"%string detail
  | _, Corrupt detail => quarantine "inbound.db"%string detail
  | _, _ => ret None
  end.
(** [sv_central_check] is [None] when no connection can be borrowed. *)
Definition check_central_integrity (now : instant) : SM (bool * bool) :=
  let! last := gets sv_central_last in
  if match last with Some prev => now - prev <? 86400 * ns_per_s | None => false end then ret (false, false)
  else
    modify (set_central_last (Some now)) ;;
    let! outcome := gets sv_central_check in
    ret (match outcome with
         | None => (false, false)
         | Some (Corrupt _) => (true, true)
         | Some _ => (true, false)
         end).

(** ** Heartbeat, stuck tools, wake *)

Definition heartbeat_check (k : session_key) (now : instant) : SM bool :=
  let! d := gets (dir_at k) in
  match sd_heartbeat d with
  | NoHeartbeat => ret true
  | BeatUnreadable => fail (Fails SIo)
  | Beat mtime => ret (mtime <? now - HEARTBEAT_STALE_MS * ns_per_ms)
  end.

Inductive StuckSeverity : Type := ClaimThreshold | AbsoluteCeiling.
Definition stuck_severity (state : option ContainerState) (now : instant) : option StuckSeverity :=
  match state with
  | Some s =>
      match cs_current_tool s, cs_tool_started_at s with
      | Some _, Some started =>
          let elapsed := num_milliseconds (now - started) in
          if elapsed <? 0 then None
          else if ABSOLUTE_CEILING_MS <=? elapsed then Some AbsoluteCeiling
          else
            let declared := default 0 (cs_tool_declared_timeout_ms s ≫= try_unsigned u64_max) in
            if Z.max declared CLAIM_STUCK_MS <=? elapsed then Some ClaimThreshold else None
      | _, _ => None
      end
  | None => None
  end.
Definition stuck_check (k : session_key) (now : instant) : SM (option StuckSeverity) :=
  let! o := outbound_pool k in ret (stuck_severity (state_get (ob_state o)) now).

Definition wake_check (session : Session) (now : instant) : SM bool :=
  if bool_decide (s_container_status session = Running) then ret false
  else
    let! t := inbound_pool (session_key_of session) in
    if sql_count (fun r => is_pending r && is_due now r) t =? 0 then ret false
    else
      let! clock := gets sv_now in
      let! ss := gets sv_sessions in
      let! ss' := sql (set_container_status ss (s_id session) Running clock) in
      modify (set_sessions ss') ;;
      ret true.

(** ** Abandoned claims ([checks/processing.rs]) *)

Definition has_reply_in_outbound (t : list out_row) (id : uuid) : bool :=
  existsb (fun r => match mo_in_reply_to (or_row r) with Some m => m =? id | None => false end) t.
Definition claim_stale (now : instant) (c : ProcessingClaim) : bool :=
  bool_decide (pc_status c = Processing)
  && negb (num_milliseconds (now - pc_status_changed c) <? CLAIM_STUCK_MS).
(** One transaction on [outbound.db]. *)
Definition atomic_reclaim_claim (k : session_key) (id : uuid) (now : instant) : SM bool :=
  let! o := outbound_pool k in
  match ack_get (ob_acks o) id with
  | Some c =>
      if negb (claim_stale now c) || has_reply_in_outbound (ob_messages o) id then ret false
      else
        set_outbound k (mkOutboundDb (ob_messages o) (fst (sql_delete (claim_of id) (ob_acks o))) (ob_state o)) ;;
        ret true
  | None => ret false
  end.
Definition retried (r : in_row) : in_row :=
  set_mi_status "pending" (set_mi_tries (mi_tries (ir_row r) + 1) r).
Definition reset_message_in (k : session_key) (id : uuid) : SM Z :=
  let! t := inbound_pool k in
  let '(t', n) := sql_update (MessagesIn.has_id id) retried t in
  if (n =? 0)%nat then ret 0
  else
    set_inbound k t' ;;
    ret (match sql_get (MessagesIn.has_id id) t' with Some r => mi_tries (ir_row r) | None => 0 end).
(** [before_reset] runs between the scan and the reset of each row: whatever
    happened in the meantime. *)
Definition reset_claim (before_reset : uuid -> SM unit) (k : session_key) (now : instant) (id : uuid)
  : SM (option MessageReset) :=
  before_reset id ;;
  let! deleted := atomic_reclaim_claim k id now in
  if deleted then let! tries := reset_message_in k id in ret (Some (mkReset (snd k) id tries))
  else ret None.
Definition abandoned (now : instant) (o : OutboundDb) : list uuid :=
  map pc_message_id
    (List.filter (fun c => claim_stale now c && negb (has_reply_in_outbound (ob_messages o) (pc_message_id c)))
       (ack_get_all (ob_acks o))).
Definition processing_check_with_hook (before_reset : uuid -> SM unit) (k : session_key) (now : instant)
  : SM (list MessageReset) :=
  let! o := outbound_pool k in
  match abandoned now o with
  | [] => ret []
  | to_reset =>
      let! _ := inbound_pool k in
      each (reset_claim before_reset k now) to_reset
  end.
Definition processing_check := processing_check_with_hook (fun _ => ret tt).

(** ** Recurring rows ([checks/recurrence.rs]) *)

Definition series_key (r : in_row) : rstr := default (uuid_text (ir_id r)) (mi_series_id (ir_row r)).
Definition has_recurrence (r : in_row) : bool :=
  match mi_recurrence (ir_row r) with Some rec => existsb (fun c => negb (c =? 32)) rec | None => false end.
(** The first row of every key. *)
Fixpoint first_per_key (seen : list rstr) (l : list in_row) : list in_row :=
  match l with
  | [] => []
  | r :: l' =>
      if existsb (rstr_eqb (series_key r)) seen then first_per_key seen l'
      else r :: first_per_key (series_key r :: seen) l'
  end.
Definition newest_per_series (t : list in_row) (now : instant) : list in_row :=
  List.filter (fun r => is_due now r)
    (first_per_key [] (order_text series_key (order_by (fun r => - ir_seq r) (List.filter has_recurrence t)))).
Definition migrated_task_id (session : uuid) (series : rstr) : rstr :=
  lit "recurring:" ++ uuid_text session ++ lit ":" ++ series.
Definition prompt_text (content : json) : rstr := default (json_text content) (jget_str "text" content).
Definition without_recurrence (r : in_row) : in_row :=
  let m := ir_row r in
  {| ir_row :=
       {| mi_id := mi_id m; mi_seq := mi_seq m; mi_kind := mi_kind m; mi_timestamp := mi_timestamp m;
          mi_status := mi_status m; mi_process_after := mi_process_after m; mi_recurrence := None;
          mi_series_id := mi_series_id m; mi_tries := mi_tries m; mi_trigger := mi_trigger m;
          mi_platform_id := mi_platform_id m; mi_channel_type := mi_channel_type m;
          mi_thread_id := mi_thread_id m; mi_content := mi_content m;
          mi_source_session_id := mi_source_session_id m; mi_on_wake := mi_on_wake m;
          mi_reply_to := mi_reply_to m; mi_is_group := mi_is_group m |};
     ir_crash_attempts := ir_crash_attempts r |}.
Definition clear_series_recurrence (k : session_key) (key : rstr) : SM unit :=
  let! t := inbound_pool k in
  set_inbound k (fst (sql_update (fun r => rstr_eqb (series_key r) key
                                           && match mi_recurrence (ir_row r) with Some _ => true | None => false end)
                        without_recurrence t)).
Definition compute_next (recurrence : rstr) (now : instant) : SM (option instant) :=
  let! when := parse_ok recurrence in
  ret (match when with Some w => compute_next_fire w now (Some recurrence) | None => None end).
Definition migrated_task (k : session_key) (parent : in_row) (recurrence : rstr) (next : instant) : NewTask :=
  mkNewTask (migrated_task_id (snd k) (series_key parent)) (fst k) (snd k)
    (Some (lit "recurring-" ++ series_key parent)) (prompt_text (mi_content (ir_row parent)))
    recurrence (Some recurrence) (Some next).
Definition consolidate (k : session_key) (now : instant) (parent : in_row) : SM (option SeriesFanout) :=
  let recurrence := default [] (mi_recurrence (ir_row parent)) in
  let! next := compute_next recurrence now in
  match next with
  | None => ret None
  | Some next =>
      let! t := gets sv_tasks in
      match task_get t (migrated_task_id (snd k) (series_key parent)) with
      | Some _ => ret tt
      | None =>
          write_tasks (fun t clock =>
            let? '(_, t') := task_insert t (refs_exist (fst k) (snd k)) (migrated_task k parent recurrence next)
                               clock in Ok t')
      end ;;
      clear_series_recurrence k (series_key parent) ;;
      ret (Some (mkFanout (series_key parent) (ir_id parent) next))
  end.
Definition recurrence_check (k : session_key) (now : instant) : SM (list SeriesFanout) :=
  let! t := inbound_pool k in
  each (consolidate k now) (newest_per_series t now).

(** ** Apologies ([checks/apology.rs]) *)

Definition APOLOGY_TEXT : rstr :=
  lit "I'm having trouble processing your message right now (the agent's container isn't responding). "
  ++ lit "Please try again in a few minutes. If this keeps happening, tell your operator " ++ EM_DASH
  ++ lit " running `cclaw doctor` on the host will show what's wrong.".
Definition APOLOGY_NOTIFIED_TEXT : rstr :=
  lit "I'm having trouble processing your message right now (the agent's container isn't responding). "
  ++ lit "Please try again in a few minutes " ++ EM_DASH ++ lit " the operator has been notified.".
Definition apology_text : rstr := if operator_alerts_enabled then APOLOGY_NOTIFIED_TEXT else APOLOGY_TEXT.

Inductive ApologyReason : Type := PendingTooLong | ContainerSpawnFailed.
Record ApologyEmit : Type := mkApology {
  ae_message_id : uuid;
  ae_reason : ApologyReason;
}.
Definition failure_count (w : SweepWorld) (session : uuid) : Z := default 0 (sv_spawn w !! session).
Definition is_exhausted (w : SweepWorld) (session : uuid) : bool :=
  SPAWN_FAIL_THRESHOLD <=? failure_count w session.
Definition record_spawn_failure (session : uuid) (w : SweepWorld) : SweepWorld :=
  set_spawn (<[session := sat_add u32_max (failure_count w session) 1]> (sv_spawn w)) w.
Definition record_spawn_success (session : uuid) (w : SweepWorld) : SweepWorld :=
  set_spawn (delete session (sv_spawn w)) w.

Definition apology_candidate (r : in_row) : bool :=
  is_pending r && bool_decide (mi_kind (ir_row r) = Chat) && (mi_tries (ir_row r) <? APOLOGY_TRIES_MARKER).
Definition scan_stuck_inbounds (t : list in_row) : list in_row :=
  sql_limit APOLOGY_SCAN_LIMIT (order_by (fun r => mi_timestamp (ir_row r)) (List.filter apology_candidate t)).
Definition inbound_is_being_processed (o : OutboundDb) (id : uuid) : bool :=
  match ack_get (ob_acks o) id with
  | Some c => bool_decide (pc_status c = Processing)
  | None => false
  end.
Definition apology_reason (spawn_failed : bool) (now : instant) (r : in_row) : option ApologyReason :=
  if spawn_failed then Some ContainerSpawnFailed
  else if APOLOGY_AFTER_SECS <=? num_seconds (now - mi_timestamp (ir_row r)) then Some PendingTooLong
  else None.
Definition apology_card : json :=
  JObj [("error",
         JObj [("title", JStr (lit "I couldn't process your message")); ("summary", JStr apology_text);
               ("kind", JStr (lit "internal"));
               ("details", JStr (lit "agent container unresponsive (heartbeat stale or never spawned); "
                                 ++ lit "diagnose with `cclaw doctor` on the host"));
               ("retryable", JBool true)])]%string.
Definition apology_row (id : uuid) (now : instant) (r : in_row) : option WriteOutbound :=
  let m := ir_row r in
  match mi_channel_type m, mi_platform_id m with
  | Some ct, Some pid =>
      Some (mkWriteOutbound id (Some (mi_id m)) now None None Error (Some pid) (Some ct) (mi_thread_id m)
              apology_card)
  | _, _ =>
      match mi_source_session_id m with
      | Some source =>
          Some (mkWriteOutbound id None now None None Agent None None None
                  (JObj [("text", JStr apology_text);
                         ("to", JObj [("kind", JStr (lit "agent")); ("session_id", JStr source)])]%string))
      | None => None
      end
  end.
Definition mark_tries_apology_sent (k : session_key) (id : uuid) : SM unit :=
  let! t := inbound_pool k in
  set_inbound k (fst (sql_update (MessagesIn.has_id id) (set_mi_tries APOLOGY_TRIES_MARKER) t)).
(** [insert_out] whose failure is logged: the row is tried again next pass. *)
Definition try_insert_out (k : session_key) (write : WriteOutbound) : SM bool :=
  logged false (insert_out k write ;; ret true).
Definition apologise (session : Session) (spawn_failed : bool) (now : instant) (r : in_row)
  : SM (option ApologyEmit) :=
  let k := session_key_of session in
  match apology_reason spawn_failed now r with
  | None => ret None
  | Some reason =>
      let! o := outbound_pool k in
      if (match reason with PendingTooLong => true | ContainerSpawnFailed => false end)
         && bool_decide (s_container_status session = Running)
         && inbound_is_being_processed o (ir_id r)
      then ret None
      else
        let! id := new_id in
        match apology_row id now r with
        | None => mark_tries_apology_sent k (ir_id r) ;; ret None
        | Some write =>
            let! written := try_insert_out k write in
            if written then
              mark_tries_apology_sent k (ir_id r) ;;
              ret (Some (mkApology (ir_id r) reason))
            else ret None
        end
  end.
Definition apology_check (session : Session) (now : instant) : SM (list ApologyEmit) :=
  let k := session_key_of session in
  let! exhausted := gets (fun w => is_exhausted w (s_id session)) in
  let spawn_failed := bool_decide (s_container_status session = Stopped) && exhausted in
  let! t := inbound_pool k in
  match scan_stuck_inbounds t with
  | [] => ret []
  | rows =>
      let! _ := outbound_pool k in
      each (apologise session spawn_failed now) rows
  end.

(** ** The pass ([src/service.rs]) *)

Record SweepReport : Type := mkReport {
  stuck_sessions : list uuid;
  stuck_past_ceiling : list uuid;
  recurrences_fired : list SeriesFanout;
  processing_acks_reset : list MessageReset;
  woken_sessions : list uuid;
  heartbeat_stale : list uuid;
  condition_checkins_fired : list SeriesFanout;
  apologies_emitted : list ApologyEmit;
  questions_expired : list QuestionExpiryEmit;
  integrity_quarantined : list IntegrityFinding;
  integrity_checked : list uuid;
  integrity_excluded : list uuid;
  goal_checkins_fired : list SeriesFanout;
  goals_budget_paused : list rstr;
  central_integrity_checked : bool;
  central_integrity_corrupt : bool;
}.
Definition empty_report : SweepReport := mkReport [] [] [] [] [] [] [] [] [] [] [] [] [] [] false false.
(** The pass appends to one report: the entries of [b] after those of [a]. *)
Definition report_app (a b : SweepReport) : SweepReport :=
  mkReport (stuck_sessions a ++ stuck_sessions b) (stuck_past_ceiling a ++ stuck_past_ceiling b)
    (recurrences_fired a ++ recurrences_fired b) (processing_acks_reset a ++ processing_acks_reset b)
    (woken_sessions a ++ woken_sessions b) (heartbeat_stale a ++ heartbeat_stale b)
    (condition_checkins_fired a ++ condition_checkins_fired b) (apologies_emitted a ++ apologies_emitted b)
    (questions_expired a ++ questions_expired b) (integrity_quarantined a ++ integrity_quarantined b)
    (integrity_checked a ++ integrity_checked b) (integrity_excluded a ++ integrity_excluded b)
    (goal_checkins_fired a ++ goal_checkins_fired b) (goals_budget_paused a ++ goals_budget_paused b)
    (central_integrity_checked a || central_integrity_checked b)
    (central_integrity_corrupt a || central_integrity_corrupt b).
Definition len {A} (l : list A) : Z := Z.of_nat (length l).
Definition report_total (r : SweepReport) : Z :=
  len (stuck_sessions r) + len (recurrences_fired r) + len (processing_acks_reset r)
  + len (woken_sessions r) + len (heartbeat_stale r) + len (apologies_emitted r)
  + len (condition_checkins_fired r) + len (questions_expired r) + len (integrity_quarantined r)
  + len (goal_checkins_fired r) + len (goals_budget_paused r).
Definition report_is_empty (r : SweepReport) : bool :=
  match stuck_sessions r, recurrences_fired r, processing_acks_reset r, woken_sessions r, heartbeat_stale r,
        apologies_emitted r, condition_checkins_fired r, questions_expired r, integrity_quarantined r,
        goal_checkins_fired r, goals_budget_paused r, central_integrity_corrupt r with
  | [], [], [], [], [], [], [], [], [], [], [], false => true
  | _, _, _, _, _, _, _, _, _, _, _, _ => false
  end.

Definition only_when (b : bool) (id : uuid) : list uuid := if b then [id] else [].
(** The checks of one session that is neither quarantined before nor now. *)
Definition session_checks (session : Session) (now : instant) : SM SweepReport :=
  let k := session_key_of session in
  let id := s_id session in
  let! stale := logged false (heartbeat_check k now) in
  let! severity := logged None (stuck_check k now) in
  let! resets := logged [] (processing_check k now) in
  let! fan := logged [] (recurrence_check k now) in
  let! woken := logged false (wake_check session now) in
  let! emits := logged [] (apology_check session now) in
  ret (mkReport (match severity with Some _ => [id] | None => [] end)
         (match severity with Some AbsoluteCeiling => [id] | _ => [] end)
         fan resets (only_when woken id) (only_when stale id) [] emits [] [] [] [] [] [] false false).
Definition sweep_session (slot : Z) (now : instant) (session : Session) : SM SweepReport :=
  let k := session_key_of session in
  let id := s_id session in
  let! d := gets (dir_at k) in
  if sd_quarantined d then
    ret (mkReport [] [] [] [] [] [] [] [] [] [] [] [id] [] [] false false)
  else if rotation_slot id INTEGRITY_ROTATION_SLOTS =? slot then
    let! checked := logged None (let! f := check_and_quarantine k in ret (Some f)) in
    match checked with
    | Some (Some finding) => ret (mkReport [] [] [] [] [] [] [] [] [] [finding] [] [] [] [] false false)
    | Some None =>
        let! r := session_checks session now in
        ret (report_app (mkReport [] [] [] [] [] [] [] [] [] [] [id] [] [] [] false false) r)
    | None => session_checks session now
    end
  else session_checks session now.

Fixpoint sweep_sessions (slot : Z) (now : instant) (l : list Session) : SM SweepReport :=
  match l with
  | [] => ret empty_report
  | s :: l' =>
      let! r := sweep_session slot now s in
      let! rs := sweep_sessions slot now l' in
      ret (report_app r rs)
  end.
Definition goal_fires (l : list goal_outcome) : list SeriesFanout :=
  omap (fun o => match o with GoalFired f => Some f | GoalPaused _ => None end) l.
Definition goal_pauses (l : list goal_outcome) : list rstr :=
  omap (fun o => match o with GoalPaused id => Some id | GoalFired _ => None end) l.
(** The pass over the sessions it has read. *)
Definition pass_over (now : instant) (sessions : list Session) : SM SweepReport :=
  let! pass := gets sv_pass in
  modify (set_pass (pass + 1)) ;;
  let! '(checked, corrupt) := check_central_integrity now in
  let! tasks := logged [] (scheduling_check now) in
  let! goals := logged [] (goals_check now) in
  reload_conditions ;;
  let! conditions := logged [] (conditions_check now) in
  let! expired := questions_check now in
  let! rs := sweep_sessions (pass mod INTEGRITY_ROTATION_SLOTS) now sessions in
  ret (report_app
         (mkReport [] [] tasks [] [] [] conditions [] expired [] [] [] (goal_fires goals) (goal_pauses goals)
            checked corrupt) rs).
(** [sessions::list_active(..)?]: the one failure that ends a pass. *)
Definition list_sessions : SM (list Session) :=
  let! unreadable := gets central_error in
  match unreadable with
  | Some e => fail (Fails (SDb e))
  | None => gets (fun w => Central.list_active (sv_sessions w))
  end.
Definition run_once : SM SweepReport :=
  let! now := gets sv_now in
  let! sessions := list_sessions in
  pass_over now sessions.

(** The restarts requested of the actuator: those past the ceiling. *)
Definition actuate_stuck (actuator : option (uuid -> bool)) (report : SweepReport) : Z :=
  match actuator with
  | Some restart => sql_count restart (stuck_past_ceiling report)
  | None => 0
  end.
End Checks.
