(* ===== verification/SweepTasks.v ===== *)
(** What a sweep does with scheduled tasks: every due task gets one row and
    is due no more, and one session whose inbox cannot be opened keeps every
    later task from firing. *)
From S2P Require Import Prelude Types MessagesIn Outbox Grants Central Schedule ScheduleProps Goals Conditions Interactive Sweep.

(** ** Session databases *)

Definition stored (w : SweepWorld) (k : uuid * uuid) : option (list in_row) := sd_inbound (dir_at k w).
(** Every inbox is well formed and below the next fresh id. *)
Definition inboxes_ok (w : SweepWorld) : Prop :=
  forall k t, stored w k = Some t -> MessagesIn.wf t /\ forall r, In r t -> ir_id r < sv_fresh w.

Lemma dir_at_put k k' d w : dir_at k' (put_dir k d w) = if bool_decide (k' = k) then d else dir_at k' w.
Proof.
  unfold dir_at, put_dir. cbn. case_bool_decide as E; [subst; by rewrite lookup_insert_eq|].
  by rewrite lookup_insert_ne.
Qed.

Lemma stored_put k k' t w :
  stored (put_dir k (with_inbound t (dir_at k w)) w) k' = if bool_decide (k' = k) then Some t else stored w k'.
Proof. unfold stored. rewrite dir_at_put. by case_bool_decide. Qed.

Lemma inbound_pool_run k w :
  inbound_pool k w = (match stored w k with Some t => Ok t | None => Err (Fails SOpen) end, w).
Proof. unfold inbound_pool, mbind, gets, stored. cbn. by destruct (sd_inbound (dir_at k w)). Qed.
Lemma inbound_pool_some k w t : stored w k = Some t -> inbound_pool k w = (Ok t, w).
Proof. intros E. by rewrite inbound_pool_run, E. Qed.
Lemma inbound_pool_none k w : stored w k = None -> inbound_pool k w = (Err (Fails SOpen), w).
Proof. intros E. by rewrite inbound_pool_run, E. Qed.
Lemma outbound_pool_some k w o : sd_outbound (dir_at k w) = Some o -> outbound_pool k w = (Ok o, w).
Proof. intros E. unfold outbound_pool, mbind, gets. cbn. by rewrite E. Qed.

Lemma fresh_absent t id : (forall r, In r t -> ir_id r < id) -> existsb (MessagesIn.has_id id) t = false.
Proof.
  intros Hid. apply not_true_is_false. intros Hx. apply existsb_exists in Hx as (r & Hr & E).
  apply Z.eqb_eq in E. specialize (Hid r Hr). lia.
Qed.

Lemma fresh_insert t write :
  MessagesIn.wf t -> (forall r, In r t -> ir_id r < wi_id write) ->
  insert t write = Ok (next_even_seq t, t ++ [pending_row write (next_even_seq t)])
  /\ MessagesIn.wf (t ++ [pending_row write (next_even_seq t)]).
Proof.
  intros Hwf Hid. apply fresh_absent in Hid.
  split; [|by apply wf_snoc].
  destruct (insert_impl_cases t write false _ Hwf eq_refl) as [[E _]|[_ E]]; [by rewrite Hid in E | exact E].
Qed.

Lemma insert_in_run k write w t :
  stored w k = Some t -> MessagesIn.wf t -> (forall r, In r t -> ir_id r < wi_id write) ->
  insert_in k write w
  = (Ok tt, put_dir k (with_inbound (t ++ [pending_row write (next_even_seq t)]) (dir_at k w)) w).
Proof.
  intros Ht Hwf Hid. destruct (fresh_insert t write Hwf Hid) as [E _].
  unfold insert_in. rewrite (mbind_run _ _ _ _ _ (inbound_pool_some _ _ _ Ht)).
  unfold mbind at 1, sql, lift. cbn. by rewrite E.
Qed.

(** A new row under a fresh id keeps the inboxes in order. *)
Lemma inboxes_ok_insert k t write w :
  inboxes_ok w -> stored w k = Some t -> wi_id write = sv_fresh w ->
  inboxes_ok (put_dir k (with_inbound (t ++ [pending_row write (next_even_seq t)]) (dir_at k w))
                (set_fresh (sv_fresh w + 1) w)).
Proof.
  intros Hok Ht Hid. destruct (Hok k t Ht) as [Hwf Hlt].
  intros k' t' H. cbn [sv_fresh put_dir set_dirs set_fresh]. change (dir_at k w) with (dir_at k (set_fresh (sv_fresh w + 1) w)) in H.
  rewrite stored_put in H. case_bool_decide as E.
  - simplify_eq. split; [apply fresh_insert; [done | by rewrite Hid]|].
    intros r [Hr|[<-|[]]]%in_app_iff; [specialize (Hlt r Hr); lia|].
    unfold ir_id, pending_row. cbn. lia.
  - change (stored w k' = Some t') in H. destruct (Hok k' t' H) as [Hw' Hl']. split; [done|].
    intros r Hr. specialize (Hl' r Hr). lia.
Qed.

(** ** One task *)

Section Firing.
Context `{Calendar}.

Definition task_key (t : TaskRow) : uuid * uuid := (t_agent_group_id t, t_session_id t).
(** When the task fires next, [None] when it is finished. *)
Definition rearm_time (clock now : instant) (task : TaskRow) : option instant :=
  match t_recurrence task with
  | None => None
  | Some rec =>
      match (match parse_when clock (t_when_spec task) with
             | Ok w => compute_next_fire w now (Some rec)
             | Err _ => None
             end) with
      | Some next => Some next
      | None => if blank rec then None else compute_next_fire (At now) now (Some rec)
      end
  end.
(** The row of a task after it fired. *)
Definition fired_row (clock now : instant) (task r : TaskRow) : TaskRow :=
  let r := with_fired now clock r in
  match rearm_time clock now task with
  | Some next => with_next_fire (Some next) clock r
  | None => with_next_fire None clock (Schedule.with_status Task.Completed clock r)
  end.
Definition update_task (id : rstr) (f : TaskRow -> TaskRow) (t : list TaskRow) : list TaskRow :=
  map (fun r => if task_has_id id r then f r else r) t.
Definition wake_of (now : instant) (id : uuid) (task : TaskRow) : WriteInbound :=
  wake_row id now (task_content task) (t_id task).
Definition after_fire (now : instant) (w : SweepWorld) (task : TaskRow) : SweepWorld :=
  let k := task_key task in
  let t := default [] (stored w k) in
  set_sv_tasks (update_task (t_id task) (fired_row (sv_now w) now task) (sv_tasks w))
    (put_dir k (with_inbound (t ++ [pending_row (wake_of now (sv_fresh w) task) (next_even_seq t)]) (dir_at k w))
       (set_fresh (sv_fresh w + 1) w)).

Lemma task_update_row_ok id f t :
  existsb (task_has_id id) t = true -> task_update_row id f t = Ok (update_task id f t).
Proof.
  intros E. unfold task_update_row, sql_update, update_task.
  destruct (length (List.filter (task_has_id id) t)) eqn:El; [|done]. exfalso.
  apply existsb_exists in E as (r & Hr & Hid).
  assert (In r (List.filter (task_has_id id) t)) as Hin by by apply filter_In.
  destruct (List.filter (task_has_id id) t); [destruct Hin | done].
Qed.

Lemma update_task_present id id' f t :
  (forall r, t_id (f r) = t_id r) ->
  existsb (task_has_id id) (update_task id' f t) = existsb (task_has_id id) t.
Proof.
  intros Hf. unfold update_task. induction t as [|r t IH]; cbn; [done|]. rewrite IH. f_equal.
  unfold task_has_id at 1 3. destruct (task_has_id id' r); by rewrite ?Hf.
Qed.

Lemma update_task_twice id f g t :
  (forall r, t_id (f r) = t_id r) -> update_task id g (update_task id f t) = update_task id (fun r => g (f r)) t.
Proof.
  intros Hf. unfold update_task. rewrite map_map. apply map_ext. intros r.
  destruct (task_has_id id r) eqn:E; [|by rewrite E].
  unfold task_has_id in *. by rewrite Hf, E.
Qed.

Lemma write_tasks_run id f w :
  existsb (task_has_id id) (sv_tasks w) = true ->
  write_tasks (fun t clock => task_update_row id (f clock) t) w
  = (Ok tt, set_sv_tasks (update_task id (f (sv_now w)) (sv_tasks w)) w).
Proof.
  intros E. unfold write_tasks, mbind, gets, sql, lift. cbv beta iota. by rewrite task_update_row_ok.
Qed.

Lemma next_fire_for_run task rec now w :
  t_recurrence task = Some rec -> parse_when (sv_now w) (t_when_spec task) <> Err Panics ->
  next_fire_for (t_when_spec task) (Some rec) now w = (Ok (rearm_time (sv_now w) now task), w).
Proof.
  intros Hr Hp. unfold next_fire_for, parse_ok, rearm_time, mbind, gets. cbn. rewrite Hr.
  destruct (parse_when (sv_now w) (t_when_spec task)) as [p|[e|]]; cbn; [| |done]; repeat case_goal; simplify_eq; done.
Qed.

Lemma rearm_task_run now task w :
  existsb (task_has_id (t_id task)) (sv_tasks w) = true ->
  parse_when (sv_now w) (t_when_spec task) <> Err Panics ->
  rearm_task now task w
  = (Ok tt, set_sv_tasks
              (update_task (t_id task)
                 (match rearm_time (sv_now w) now task with
                  | Some next => with_next_fire (Some next) (sv_now w)
                  | None => fun r => with_next_fire None (sv_now w) (Schedule.with_status Task.Completed (sv_now w) r)
                  end) (sv_tasks w)) w).
Proof.
  intros Hin Hp. unfold rearm_task.
  assert ((match t_recurrence task with
           | Some rec => next_fire_for (t_when_spec task) (Some rec) now
           | None => ret None
           end) w = (Ok (rearm_time (sv_now w) now task), w)) as E.
  { destruct (t_recurrence task) as [rec|] eqn:Er; [by apply next_fire_for_run|].
    unfold rearm_time. by rewrite Er. }
  rewrite (mbind_run _ _ _ _ _ E). destruct (rearm_time (sv_now w) now task) as [next|].
  - by apply (write_tasks_run (t_id task) (with_next_fire (Some next))).
  - unfold Schedule.set_status, set_next_fire.
    erewrite mbind_run by by apply (write_tasks_run (t_id task) (Schedule.with_status Task.Completed)).
    rewrite (write_tasks_run (t_id task) (with_next_fire None)).
    + cbn [sv_tasks sv_now set_sv_tasks]. by rewrite update_task_twice.
    + cbn [sv_tasks set_sv_tasks]. by rewrite update_task_present.
Qed.

(** What firing needs of the state: the inbox can be opened, the row is
    there, and its schedule does not make the parser panic. *)
Definition can_fire (w : SweepWorld) (task : TaskRow) : Prop :=
  (exists t, stored w (task_key task) = Some t)
  /\ existsb (task_has_id (t_id task)) (sv_tasks w) = true
  /\ parse_when (sv_now w) (t_when_spec task) <> Err Panics.

Lemma fire_task_run now task w :
  inboxes_ok w -> can_fire w task ->
  fire_task now task w = (Ok (mkFanout (t_id task) (sv_fresh w) now), after_fire now w task).
Proof.
  intros Hok ((t & Ht) & Hin & Hp). destruct (Hok _ _ Ht) as [Hwf Hlt].
  set (w1 := set_fresh (sv_fresh w + 1) w). set (write := wake_of now (sv_fresh w) task).
  assert (insert_in (task_key task) write w1
          = (Ok tt, put_dir (task_key task)
                      (with_inbound (t ++ [pending_row write (next_even_seq t)]) (dir_at (task_key task) w)) w1)) as Ei
    by (by apply (insert_in_run (task_key task) write w1 t)).
  unfold fire_task, mark_fired. erewrite mbind_run by reflexivity.
  change ((t_agent_group_id task, t_session_id task)) with (task_key task).
  change (wake_row (sv_fresh w) now (task_content task) (t_id task)) with write. fold w1.
  rewrite (mbind_run _ _ _ _ _ Ei).
  erewrite mbind_run by (apply (write_tasks_run (t_id task) (with_fired now)); exact Hin).
  erewrite mbind_run.
  2: { apply rearm_task_run; [|exact Hp]. cbn [sv_tasks set_sv_tasks]. by rewrite update_task_present. }
  cbn [sv_tasks sv_now set_sv_tasks put_dir set_dirs]. rewrite update_task_twice by done.
  unfold ret, after_fire. rewrite Ht. cbn [default sv_now].
  change (sv_now w1) with (sv_now w). unfold fired_row. by destruct (rearm_time (sv_now w) now task).
Qed.

Lemma fired_row_id clock now task r : t_id (fired_row clock now task r) = t_id r.
Proof. unfold fired_row. by destruct (rearm_time clock now task). Qed.

Lemma after_fire_stored now w task k :
  stored (after_fire now w task) k
  = if bool_decide (k = task_key task)
    then Some (default [] (stored w k) ++ [pending_row (wake_of now (sv_fresh w) task)
                                             (next_even_seq (default [] (stored w k)))])
    else stored w k.
Proof.
  unfold after_fire. change (stored (set_sv_tasks ?x ?u) k) with (stored u k).
  change (dir_at (task_key task) w) with (dir_at (task_key task) (set_fresh (sv_fresh w + 1) w)).
  rewrite stored_put. case_bool_decide as E; [by rewrite E | done].
Qed.

Lemma after_fire_ok now w task t :
  inboxes_ok w -> stored w (task_key task) = Some t -> inboxes_ok (after_fire now w task).
Proof.
  intros Hok Ht k t' Hk. pose proof (inboxes_ok_insert _ t (wake_of now (sv_fresh w) task) w Hok Ht eq_refl) as H'.
  specialize (H' k t'). unfold after_fire in Hk. rewrite Ht in Hk. apply H'. exact Hk.
Qed.

Lemma after_fire_can now w task task' :
  can_fire w task -> can_fire w task' -> can_fire (after_fire now w task) task'.
Proof.
  intros _ ((t & Ht) & Hin & Hp). split; [|split; [|exact Hp]].
  - rewrite after_fire_stored. case_bool_decide; eauto.
  - change (existsb (task_has_id (t_id task'))
              (update_task (t_id task) (fired_row (sv_now w) now task) (sv_tasks w)) = true).
    by rewrite update_task_present by apply fired_row_id.
Qed.
End Firing.

(** ** All due tasks *)

Section Pass.
Context `{Calendar}.

Lemma fire_all_run now l w :
  inboxes_ok w -> (forall t, In t l -> can_fire w t) ->
  exists out, each (fun task => fired (fire_task now task)) l w = (Ok out, fold_left (after_fire now) l w)
              /\ map sf_series_id out = map t_id l.
Proof.
  revert w. induction l as [|task l IH]; intros w Hok Hcan; [by exists []|]. cbn [each fold_left].
  assert (can_fire w task) as Ht by (apply Hcan; by left).
  destruct (IH (after_fire now w task)) as (out & E & Hs).
  - destruct Ht as ((t & Ht) & _). by eapply after_fire_ok.
  - intros task' Hin. apply after_fire_can; [done | apply Hcan; by right].
  - exists (mkFanout (t_id task) (sv_fresh w) now :: out). split; [|cbn; by rewrite Hs].
    erewrite mbind_run by (unfold fired; erewrite mbind_run by (by apply fire_task_run); reflexivity).
    by erewrite mbind_run by exact E.
Qed.

Lemma fold_clock now l w : sv_now (fold_left (after_fire now) l w) = sv_now w.
Proof. revert w. induction l as [|t l IH]; intros w; cbn; [done|]. by rewrite IH. Qed.

Definition fire_row_if (clock now : instant) (r task : TaskRow) : TaskRow :=
  if task_has_id (t_id task) r then fired_row clock now task r else r.
Lemma fold_tasks now l w :
  sv_tasks (fold_left (after_fire now) l w)
  = map (fun r => fold_left (fire_row_if (sv_now w) now) l r) (sv_tasks w).
Proof.
  revert w. induction l as [|t l IH]; intros w; cbn [fold_left]; [by rewrite map_id|].
  rewrite IH. change (sv_now (after_fire now w t)) with (sv_now w).
  change (sv_tasks (after_fire now w t)) with (update_task (t_id t) (fired_row (sv_now w) now t) (sv_tasks w)).
  unfold update_task. by rewrite map_map.
Qed.

Lemma fold_row_absent clock now l r :
  (forall t, In t l -> t_id t <> t_id r) -> fold_left (fire_row_if clock now) l r = r.
Proof.
  induction l as [|t l IH]; intros Hn; cbn; [done|]. unfold fire_row_if at 2, task_has_id.
  rewrite rstr_eqb_neq by (intros E; by apply (Hn t); [left|]). apply IH. intros t' Ht'. apply Hn. by right.
Qed.
Lemma fold_row_present clock now l r :
  List.NoDup (map t_id l) -> (forall t, In t l -> t_id t = t_id r -> t = r) -> In r l ->
  fold_left (fire_row_if clock now) l r = fired_row clock now r r.
Proof.
  induction l as [|t l IH]; intros Hnd Huniq Hin; [destruct Hin|]. cbn [map] in Hnd.
  inversion Hnd as [|? ? Hn Hnd']; subst. cbn [fold_left].
  destruct (decide (t_id t = t_id r)) as [E|Hne].
  - rewrite <- (Huniq t (or_introl eq_refl) E) in *. clear E.
    unfold fire_row_if at 2, task_has_id. rewrite rstr_eqb_refl.
    apply fold_row_absent. intros t' Ht' E. rewrite fired_row_id in E. apply Hn. rewrite <- E. by apply in_map.
  - unfold fire_row_if at 2, task_has_id. rewrite rstr_eqb_neq by auto.
    destruct Hin as [->|Hin]; [done|]. apply IH; [done | | done]. intros t' Ht'. apply Huniq. by right.
Qed.

Lemma filter_ids_NoDup (p : TaskRow -> bool) l : List.NoDup (map t_id l) -> List.NoDup (map t_id (List.filter p l)).
Proof.
  induction l as [|t l IH]; intros Hnd; cbn; [done|]. inversion Hnd as [|? ? Hn Hnd']; subst.
  destruct (p t); cbn; [|auto]. constructor; [|auto]. intros Hin. apply Hn.
  apply in_map_iff in Hin as (t' & E & Ht'). rewrite <- E. apply in_map. by apply filter_In in Ht' as [? _].
Qed.

Lemma tasks_due_In t now r : In r (list_due t now) <-> In r t /\ task_due now r = true.
Proof. unfold list_due. by rewrite order_by_In, filter_In. Qed.
Lemma list_due_NoDup t now : List.NoDup (map t_id t) -> List.NoDup (map t_id (list_due t now)).
Proof.
  intros Hnd. apply (Permutation_NoDup (l := map t_id (List.filter (task_due now) t))).
  - apply Permutation_map. symmetry. apply order_by_perm.
  - by apply filter_ids_NoDup.
Qed.

(** The table after all due tasks fired. *)
Lemma pass_tasks now w :
  List.NoDup (map t_id (sv_tasks w)) ->
  sv_tasks (fold_left (after_fire now) (list_due (sv_tasks w) now) w)
  = map (fun r => if task_due now r then fired_row (sv_now w) now r r else r) (sv_tasks w).
Proof.
  intros Hnd. rewrite fold_tasks. apply map_ext_in. intros r Hr.
  assert (forall t, In t (list_due (sv_tasks w) now) -> t_id t = t_id r -> t = r) as Huniq.
  { intros t Ht. apply tasks_due_In in Ht as [Ht _]. by apply (NoDup_map_inj t_id (sv_tasks w)). }
  destruct (task_due now r) eqn:Ed.
  - apply fold_row_present; [by apply list_due_NoDup | exact Huniq | by apply tasks_due_In].
  - apply fold_row_absent. intros t Ht E. pose proof (Huniq t Ht E) as ->.
    apply tasks_due_In in Ht as [_ Ht]. congruence.
Qed.

Lemma parse_daily_range rest h m : parse_daily_at rest = Ok (DailyAt h m) -> 0 <= h <= 23 /\ 0 <= m <= 59.
Proof.
  unfold parse_daily_at. destruct (split_char (chr ":") (trim rest)) as [|a [|b [|? ?]]]; try done.
  destruct (parse_uint u32_max a) as [x|] eqn:Ea; [|done]. destruct (parse_uint u32_max b) as [y|] eqn:Eb; [|done].
  destruct (Z.ltb_spec 23 x); [done|]. destruct (Z.ltb_spec 59 y); [done|]. cbn.
  intros [= <- <-]. apply parse_uint_nonneg in Ea, Eb. lia.
Qed.
Lemma parse_when_range clock s h m : parse_when clock s = Ok (DailyAt h m) -> 0 <= h <= 23 /\ 0 <= m <= 59.
Proof.
  unfold parse_when. destruct (trim s) as [|c l] eqn:Et; [done|]. rewrite <- Et. clear Et.
  destruct (parse_rfc3339 (trim s)); [done|].
  destruct (match expand_short_rfc3339 (trim s) with Some e => parse_rfc3339 e | None => None end); [done|].
  destruct (strip_prefix (lit "in ") (trim s)) as [r|].
  { unfold parse_in_offset, parse_cron. repeat case_goal; done. }
  destruct (strip_prefix (lit "daily at ") (trim s)) as [r|]; [apply parse_daily_range|].
  destruct (looks_like_cron (trim s)); [|done]. unfold parse_cron. by destruct (cron_parses (trim s)).
Qed.

Lemma rearm_later clock now task next :
  (forall expr t t', cron_next expr t = Some t' -> t < t') ->
  rearm_time clock now task = Some next -> now < next.
Proof.
  intros Hc. unfold rearm_time. destruct (t_recurrence task) as [rec|]; [|done].
  destruct (match parse_when clock (t_when_spec task) with
            | Ok w => compute_next_fire w now (Some rec) | Err _ => None end) as [n|] eqn:E.
  - intros [= <-]. destruct (parse_when clock (t_when_spec task)) as [p|] eqn:Ep; [|done].
    eapply next_fire_in_future; [intros e t; apply Hc | | exact E]. destruct p as [| |h m]; [done | done|].
    by eapply parse_when_range.
  - destruct (blank rec); [done|]. by apply next_fire_in_future; [intros e t; apply Hc|].
Qed.

Lemma fired_not_due clock now task r :
  (forall expr t t', cron_next expr t = Some t' -> t < t') -> task_due now (fired_row clock now task r) = false.
Proof.
  intros Hc. unfold fired_row. destruct (rearm_time clock now task) as [next|] eqn:E; [|done].
  apply rearm_later in E; [|exact Hc]. unfold task_due. cbn.
  destruct (Z.leb_spec next now); [lia|]. apply andb_false_r.
Qed.

(** A row that wakes the session of a task, as the task says. *)
Definition wakes (now : instant) (r : in_row) (task : TaskRow) : Prop :=
  exists id seq, r = pending_row (wake_of now id task) seq.
Definition of_session (k : uuid * uuid) (task : TaskRow) : bool := bool_decide (task_key task = k).
Lemma fold_stored now l w k t :
  stored w k = Some t -> (forall task, In task l -> exists t, stored w (task_key task) = Some t) ->
  exists news, stored (fold_left (after_fire now) l w) k = Some (t ++ news)
               /\ Forall2 (wakes now) news (List.filter (of_session k) l).
Proof.
  revert w t. induction l as [|task l IH]; intros w t Ht Hopen; cbn [fold_left List.filter].
  { exists []. by rewrite app_nil_r. }
  assert (forall task', In task' l -> exists t, stored (after_fire now w task) (task_key task') = Some t) as Hopen'.
  { intros task' Hin. rewrite after_fire_stored. destruct (Hopen task' (or_intror Hin)). case_bool_decide; eauto. }
  pose proof (after_fire_stored now w task k) as Ek. unfold of_session at 1.
  destruct (decide (task_key task = k)) as [E|Hne].
  - rewrite bool_decide_eq_true_2 in Ek by done. rewrite Ht in Ek. cbn in Ek.
    destruct (IH _ _ Ek Hopen') as (news & E' & Hall). rewrite bool_decide_eq_true_2 by done.
    eexists (_ :: news). split; [rewrite E', <- app_assoc; reflexivity|]. constructor; [by eexists _, _ | exact Hall].
  - rewrite bool_decide_eq_false_2 in Ek by (intros ->; done). rewrite Ht in Ek.
    destruct (IH _ _ Ek Hopen') as (news & E' & Hall). rewrite bool_decide_eq_false_2 by done. eauto.
Qed.
End Pass.

Section Theorems.
Context `{Calendar}.

Lemma can_fire_due now w :
  (forall task, In task (list_due (sv_tasks w) now) ->
     (exists t, stored w (task_key task) = Some t) /\ parse_when (sv_now w) (t_when_spec task) <> Err Panics) ->
  forall task, In task (list_due (sv_tasks w) now) -> can_fire w task.
Proof.
  intros Hd task Ht. destruct (Hd task Ht) as [Ho Hp]. split; [done|]. split; [|done].
  apply tasks_due_In in Ht as [Ht _]. apply existsb_exists. exists task. split; [done|]. apply rstr_eqb_refl.
Qed.

(** C30. When the inbox of every due task can be opened, one pass fires each due
    task exactly once: it is reported once, in the order of the fire times; its
    session gets exactly one new row with its prompt, after all rows that were
    there; its fire count grows by one and it is armed again or completed, the
    other tasks are unchanged, and afterwards no task is due. *)
Theorem due_tasks_fire_once now w :
  (forall expr t t', cron_next expr t = Some t' -> t < t') ->
  List.NoDup (map t_id (sv_tasks w)) -> inboxes_ok w ->
  (forall task, In task (list_due (sv_tasks w) now) ->
     (exists t, stored w (task_key task) = Some t) /\ parse_when (sv_now w) (t_when_spec task) <> Err Panics) ->
  exists out w',
    scheduling_check now w = (Ok out, w')
    /\ map sf_series_id out = map t_id (list_due (sv_tasks w) now)
    /\ list_due (sv_tasks w') now = []
    /\ sv_tasks w' = map (fun r => if task_due now r then fired_row (sv_now w) now r r else r) (sv_tasks w)
    /\ forall k t, stored w k = Some t ->
         exists news, stored w' k = Some (t ++ news)
                      /\ Forall2 (wakes now) news (List.filter (of_session k) (list_due (sv_tasks w) now)).
Proof.
  intros Hc Hnd Hok Hd. pose proof (can_fire_due now w Hd) as Hcan.
  destruct (fire_all_run now (list_due (sv_tasks w) now) w Hok Hcan) as (out & E & Hs).
  exists out, (fold_left (after_fire now) (list_due (sv_tasks w) now) w).
  split; [exact E|]. split; [exact Hs|]. rewrite pass_tasks by done. split; [|split; [done|]].
  - unfold list_due. enough (List.filter (task_due now)
      (map (fun r => if task_due now r then fired_row (sv_now w) now r r else r) (sv_tasks w)) = []) as -> by done.
    clear -Hc. induction (sv_tasks w) as [|r l IH]; [done|]. cbn [map List.filter].
    destruct (task_due now r) eqn:Er; [by rewrite fired_not_due | by rewrite Er].
  - intros k t Ht. apply fold_stored; [done|]. intros task Hin. by destruct (Hd task Hin).
Qed.

(** An inbox that cannot be opened stops the fan-out at its task: the check
    fails, no task is touched and no row is written; the task stays the first
    one due, so the tasks behind it do not fire as long as the inbox is
    broken. *)
Theorem broken_inbox_blocks_tasks now task rest w :
  list_due (sv_tasks w) now = task :: rest -> stored w (task_key task) = None ->
  scheduling_check now w = (Err (Fails SOpen), set_fresh (sv_fresh w + 1) w).
Proof.
  intros El Hs. unfold scheduling_check. erewrite mbind_run by reflexivity. rewrite El. cbn [each].
  apply mbind_stop. unfold fired. apply mbind_stop. unfold fire_task. erewrite mbind_run by reflexivity.
  apply mbind_stop. unfold insert_in. apply mbind_stop. by apply inbound_pool_none.
Qed.
End Theorems.

(** ** Instances *)

Module TaskWitnesses.
Import ScheduleWitnesses.
#[local] Existing Instance demo_calendar.

Definition task (n : Z) (id : string) (fire : instant) : TaskRow :=
  mkTask (lit id) 1 n None (lit "report") (lit "0 9 * * *") (Some (lit "0 9 * * *")) (Some fire) Task.Active None 0 0 0.
Definition world (dirs : gmap (uuid * uuid) SessionDir) : SweepWorld :=
  mkSweep [] [task 1 "a" 5; task 2 "b" 3] [] [] [] [] [] (mkStore ∅ ∅) None ∅ dirs 0 None None 10 7.

Lemma inboxes_ok_world : inboxes_ok (world ∅).
Proof. intros k t [= <-]. split; [apply MessagesIn.wf_nil | done]. Qed.

Lemma due_tasks_fire_once_witness :
  exists out w', scheduling_check 7 (world ∅) = (Ok out, w') /\ map sf_series_id out = [lit "b"; lit "a"]
                 /\ list_due (sv_tasks w') 7 = [].
Proof.
  destruct (due_tasks_fire_once 7 (world ∅)) as (out & w' & E & Hs & Hd & _ & _).
  - intros e t t' [= <-]. unfold day_ns, ns_per_s. lia.
  - constructor; [intros [E|[]]; discriminate|]. constructor; [intros []|constructor].
  - apply inboxes_ok_world.
  - intros t [<-|[<-|[]]]; (split; [exists []; reflexivity | vm_compute; discriminate]).
  - exists out, w'. split; [exact E|]. split; [exact Hs | exact Hd].
Defined.

Definition broken : SessionDir := mkDir None None NoHeartbeat (Corrupt (lit "malformed")) Missing true true.
Lemma broken_inbox_blocks_tasks_witness :
  scheduling_check 7 (world {[(1, 2) := broken]})
  = (Err (Fails SOpen), set_fresh 11 (world {[(1, 2) := broken]})).
Proof. apply (broken_inbox_blocks_tasks 7 (task 2 "b" 3) [task 1 "a" 5]); reflexivity. Defined.
End TaskWitnesses.
