(* ===== verification/SweepTurns.v ===== *)
(** What a sweep does with the messages of a session: which claims it takes
    back, and which messages get an apology. *)
From S2P Require Import Prelude Types MessagesIn Outbox Grants Central Schedule Goals Conditions Interactive Sweep SweepTasks.

(** ** Claims *)

Section Claims.
Implicit Types (k : uuid * uuid) (w : SweepWorld) (id : uuid) (now : instant).

(** The claim of the message is held, old, and without any reply. *)
Definition reclaimable now id (o : OutboundDb) : Prop :=
  (exists c, ack_get (ob_acks o) id = Some c /\ pc_status c = Processing
             /\ CLAIM_STUCK_MS <= num_milliseconds (now - pc_status_changed c))
  /\ forall r, In r (ob_messages o) -> mo_in_reply_to (or_row r) <> Some id.

Lemma claim_stale_iff now c :
  claim_stale now c = true
  <-> pc_status c = Processing /\ CLAIM_STUCK_MS <= num_milliseconds (now - pc_status_changed c).
Proof.
  unfold claim_stale. rewrite andb_true_iff, bool_decide_eq_true, negb_true_iff, Z.ltb_ge. tauto.
Qed.
Lemma has_reply_false t id :
  has_reply_in_outbound t id = false <-> forall r, In r t -> mo_in_reply_to (or_row r) <> Some id.
Proof.
  unfold has_reply_in_outbound. rewrite <- not_true_iff_false, existsb_exists. split.
  - intros Hn r Hr E. apply Hn. exists r. split; [done|]. rewrite E. apply Z.eqb_refl.
  - intros Hn (r & Hr & E). apply (Hn r Hr). destruct (mo_in_reply_to (or_row r)) as [m|]; [|done].
    by apply Z.eqb_eq in E as ->.
Qed.

Definition without_claim id (o : OutboundDb) : OutboundDb :=
  mkOutboundDb (ob_messages o) (List.filter (fun c => negb (claim_of id c)) (ob_acks o)) (ob_state o).
Lemma reclaim_run k id now w o :
  sd_outbound (dir_at k w) = Some o ->
  atomic_reclaim_claim k id now w
  = if (match ack_get (ob_acks o) id with Some c => claim_stale now c | None => false end)
       && negb (has_reply_in_outbound (ob_messages o) id)
    then (Ok true, put_dir k (with_outbound (without_claim id o) (dir_at k w)) w)
    else (Ok false, w).
Proof.
  intros Ho. unfold atomic_reclaim_claim. rewrite (mbind_run _ _ _ _ _ (outbound_pool_some _ _ _ Ho)).
  destruct (ack_get (ob_acks o) id) as [c|]; [|done].
  destruct (claim_stale now c); cbn [negb orb andb]; [|done].
  by destruct (has_reply_in_outbound (ob_messages o) id).
Qed.
Lemma reclaimable_iff now id o :
  reclaimable now id o
  <-> (match ack_get (ob_acks o) id with Some c => claim_stale now c | None => false end)
      && negb (has_reply_in_outbound (ob_messages o) id) = true.
Proof.
  unfold reclaimable. rewrite andb_true_iff, negb_true_iff, has_reply_false.
  split; intros [Hc Hr]; (split; [|exact Hr]).
  - destruct Hc as (c & -> & Hc). by apply claim_stale_iff.
  - destruct (ack_get (ob_acks o) id) as [c|]; [|done]. exists c. split; [done|]. by apply claim_stale_iff.
Qed.

(** The inbox after a message was put back. *)
Definition put_back id (t : list in_row) : list in_row :=
  map (fun r => if MessagesIn.has_id id r then retried r else r) t.
Lemma reset_run k id w t :
  stored w k = Some t ->
  exists tries, reset_message_in k id w
                = (Ok tries, if existsb (MessagesIn.has_id id) t
                             then put_dir k (with_inbound (put_back id t) (dir_at k w)) w else w).
Proof.
  intros Ht. unfold reset_message_in. rewrite (mbind_run _ _ _ _ _ (inbound_pool_some _ _ _ Ht)).
  unfold sql_update. destruct (Nat.eqb_spec (length (List.filter (MessagesIn.has_id id) t)) 0) as [E|E].
  - exists 0. apply length_zero_iff_nil in E. destruct (existsb (MessagesIn.has_id id) t) eqn:Ex; [|done].
    apply existsb_exists in Ex as (r & Hr & Hid). exfalso.
    assert (In r (List.filter (MessagesIn.has_id id) t)) as Hin by by apply filter_In. by rewrite E in Hin.
  - eexists. assert (existsb (MessagesIn.has_id id) t = true) as ->; [|reflexivity].
    destruct (List.filter (MessagesIn.has_id id) t) as [|r l] eqn:El; [done|].
    assert (In r (r :: l)) as Hin by by left. rewrite <- El in Hin. apply filter_In in Hin.
    apply existsb_exists. by exists r.
Qed.

Definition is_reclaimable now id (o : OutboundDb) : bool :=
  (match ack_get (ob_acks o) id with Some c => claim_stale now c | None => false end)
  && negb (has_reply_in_outbound (ob_messages o) id).
Definition reclaimed k id (o : OutboundDb) t w : SweepWorld :=
  put_dir k (with_inbound (put_back id t) (with_outbound (without_claim id o) (dir_at k w))) w.
Lemma reset_claim_run (before_reset : uuid -> SM unit) k now w id w1 o t :
  before_reset id w = (Ok tt, w1) ->
  sd_outbound (dir_at k w1) = Some o -> stored w1 k = Some t -> existsb (MessagesIn.has_id id) t = true ->
  exists tries, reset_claim before_reset k now id w
                = if is_reclaimable now id o
                  then (Ok (Some (mkReset (snd k) id tries)), reclaimed k id o t w1) else (Ok None, w1).
Proof.
  intros Hb Ho Ht Hin. unfold reset_claim. rewrite (mbind_run _ _ _ _ _ Hb).
  pose proof (reclaim_run k id now w1 o Ho) as Er. fold (is_reclaimable now id o) in Er.
  destruct (is_reclaimable now id o).
  - rewrite (mbind_run _ _ _ _ _ Er).
    set (w2 := put_dir k (with_outbound (without_claim id o) (dir_at k w1)) w1).
    assert (dir_at k w2 = with_outbound (without_claim id o) (dir_at k w1)) as Ed
      by (unfold w2; rewrite dir_at_put; by rewrite bool_decide_eq_true_2).
    destruct (reset_run k id w2 t) as (tries & Et); [unfold stored; by rewrite Ed|].
    exists tries. rewrite (mbind_run _ _ _ _ _ Et), Hin, Ed. unfold ret, w2. f_equal.
    unfold reclaimed, put_dir, set_dirs. cbn. by rewrite insert_insert_eq.
  - exists 0. by rewrite (mbind_run _ _ _ _ _ Er).
Qed.

(** Whatever happens between the scan and the reset of a message, it is put
    back exactly when at that moment its claim is still held, still old, and
    still without a reply; then the claim is gone and the row of the message is
    pending with one more try, and nothing else changes.  If the runner has
    finished the turn in the meantime, nothing changes at all. *)
Theorem reset_only_abandoned (before_reset : uuid -> SM unit) k now w id w1 o t :
  before_reset id w = (Ok tt, w1) ->
  sd_outbound (dir_at k w1) = Some o -> stored w1 k = Some t -> existsb (MessagesIn.has_id id) t = true ->
  (reclaimable now id o
   /\ exists tries, reset_claim before_reset k now id w
                    = (Ok (Some (mkReset (snd k) id tries)),
                       put_dir k (with_inbound (put_back id t) (with_outbound (without_claim id o) (dir_at k w1))) w1))
  \/ (~ reclaimable now id o /\ reset_claim before_reset k now id w = (Ok None, w1)).
Proof.
  intros Hb Ho Ht Hin. destruct (reset_claim_run before_reset k now w id w1 o t Hb Ho Ht Hin) as (tries & E).
  pose proof (reclaimable_iff now id o) as Hi. fold (is_reclaimable now id o) in Hi.
  destruct (is_reclaimable now id o); [left | right].
  - split; [by apply Hi | by exists tries].
  - split; [by rewrite Hi | done].
Qed.
End Claims.

(** ** Apologies *)

Section Apologies.
Context `{Calendar} `{HashOrder}.
Context (uuid_text : uuid -> rstr) (json_text : json -> rstr) (refs_exist : uuid -> uuid -> bool)
  (operator_alerts_enabled : bool).
Implicit Types (k : uuid * uuid) (w : SweepWorld) (t : list in_row).

(** Rows stay, ids stay unique, and the try counter of no row is lowered. *)
Definition raised t t' : Prop :=
  forall r, In r t -> exists r', In r' t' /\ ir_id r' = ir_id r /\ mi_tries (ir_row r) <= mi_tries (ir_row r').
Definition kept k w w' : Prop :=
  forall t, stored w k = Some t -> List.NoDup (map ir_id t) ->
  exists t', stored w' k = Some t' /\ List.NoDup (map ir_id t') /\ raised t t'.

Lemma raised_refl t : raised t t.
Proof. intros r Hr. exists r. split; [done|]. split; [done | lia]. Qed.
Lemma raised_trans t1 t2 t3 : raised t1 t2 -> raised t2 t3 -> raised t1 t3.
Proof.
  intros H12 H23 r Hr. destruct (H12 r Hr) as (r2 & Hr2 & E2 & L2). destruct (H23 r2 Hr2) as (r3 & Hr3 & E3 & L3).
  exists r3. split; [done|]. split; [congruence | lia].
Qed.
#[local] Instance kept_preorder k : PreOrder (kept k).
Proof.
  split.
  - intros w t Ht Hnd. exists t. split; [done|]. split; [done | apply raised_refl].
  - intros w1 w2 w3 H12 H23 t Ht Hnd. destruct (H12 t Ht Hnd) as (t2 & E2 & N2 & R2).
    destruct (H23 t2 E2 N2) as (t3 & E3 & N3 & R3). exists t3. split; [done|]. split; [done|]. by eapply raised_trans.
Qed.

Lemma ids_map (f : in_row -> in_row) t : (forall r, ir_id (f r) = ir_id r) -> map ir_id (map f t) = map ir_id t.
Proof. intros Hf. rewrite map_map. by apply map_ext. Qed.
Lemma raised_map (f : in_row -> in_row) t :
  (forall r, In r t -> ir_id (f r) = ir_id r /\ mi_tries (ir_row r) <= mi_tries (ir_row (f r))) -> raised t (map f t).
Proof.
  intros Hf r Hr. exists (f r). split; [by apply in_map|]. by apply Hf.
Qed.
Lemma kept_same k w w' : stored w' k = stored w k -> kept k w w'.
Proof. intros E t Ht Hnd. exists t. rewrite E. split; [done|]. split; [done | apply raised_refl]. Qed.
Lemma keeps_same {A} k (m : SM A) : (forall w, stored (snd (m w)) k = stored w k) -> keeps (kept k) m.
Proof. intros Hm w. by apply kept_same. Qed.
Lemma keeps_logged {A} k (d : A) (m : SM A) : keeps (kept k) m -> keeps (kept k) (logged d m).
Proof. intros Hm w. specialize (Hm w). unfold logged. by destruct (m w) as [[a|[e|]] w']. Qed.
Lemma each_keeps {A B} k (f : A -> SM (option B)) l :
  (forall a, keeps (kept k) (f a)) -> keeps (kept k) (each f l).
Proof.
  intros Hf. induction l as [|a l IH]; [apply keeps_ret|]. cbn [each].
  apply keeps_bind; [apply Hf | intros o]. apply keeps_bind; [exact IH | intros out]. apply keeps_ret.
Qed.

(** Writing a table over one that was read. *)
Lemma kept_map k k' t (f : in_row -> in_row) w :
  stored w k' = Some t -> (forall r, ir_id (f r) = ir_id r) ->
  (forall r, In r t -> mi_tries (ir_row r) <= mi_tries (ir_row (f r))) ->
  kept k w (put_dir k' (with_inbound (map f t) (dir_at k' w)) w).
Proof.
  intros Ht Hid Htr t0 Hs Hnd. rewrite stored_put. case_bool_decide as E.
  - subst k'. rewrite Ht in Hs. simplify_eq. eexists. split; [done|]. rewrite ids_map by done. split; [done|].
    apply raised_map. auto.
  - exists t0. split; [done|]. split; [done | apply raised_refl].
Qed.

Lemma stored_other_field k w w' : sv_dirs w' = sv_dirs w -> stored w' k = stored w k.
Proof. intros E. unfold stored, dir_at. by rewrite E. Qed.
Lemma stored_outbound k k' o w : stored (put_dir k' (with_outbound o (dir_at k' w)) w) k = stored w k.
Proof. unfold stored. rewrite dir_at_put. case_bool_decide as E; [by subst | done]. Qed.

Lemma keeps_inbound k k' : keeps (kept k) (inbound_pool k').
Proof. apply keeps_same. intros w. unfold inbound_pool, mbind, gets. cbn. by destruct (sd_inbound (dir_at k' w)). Qed.
Lemma keeps_outbound k k' : keeps (kept k) (outbound_pool k').
Proof. apply keeps_same. intros w. unfold outbound_pool, mbind, gets. cbn. by destruct (sd_outbound (dir_at k' w)). Qed.
Lemma keeps_set_outbound k k' o : keeps (kept k) (set_outbound k' o).
Proof. apply keeps_same. intros w. apply stored_outbound. Qed.
Lemma keeps_field {A} k (m : SM A) : (forall w, sv_dirs (snd (m w)) = sv_dirs w) -> keeps (kept k) m.
Proof. intros Hm. apply keeps_same. intros w. by apply stored_other_field. Qed.
Lemma keeps_insert_out k k' write : keeps (kept k) (insert_out k' write).
Proof.
  apply keeps_bind; [apply keeps_outbound | intros o]. apply keeps_bind; [apply keeps_lift | intros [seq t]].
  apply keeps_set_outbound.
Qed.

Lemma keeps_reset k k' id : keeps (kept k) (reset_message_in k' id).
Proof.
  intros w. destruct (stored w k') as [t|] eqn:Et.
  - destruct (reset_run k' id w t Et) as (tries & ->). cbn [snd].
    destruct (existsb _ t); [|reflexivity]. apply (kept_map k k' t); [done | |].
    + intros r. by destruct (MessagesIn.has_id id r).
    + intros r _. destruct (MessagesIn.has_id id r); cbn; lia.
  - unfold reset_message_in. by rewrite (mbind_stop _ _ _ _ _ (inbound_pool_none _ _ Et)).
Qed.
Lemma keeps_clear k k' key : keeps (kept k) (clear_series_recurrence uuid_text k' key).
Proof.
  intros w. unfold clear_series_recurrence. destruct (stored w k') as [t|] eqn:Et.
  - rewrite (mbind_run _ _ _ _ _ (inbound_pool_some _ _ _ Et)). unfold set_inbound, modify. cbn [snd]. apply (kept_map k k' t); [done | |].
    + intros r. by case_goal.
    + intros r _. case_goal; cbn; lia.
  - by rewrite (mbind_stop _ _ _ _ _ (inbound_pool_none _ _ Et)).
Qed.

(** One message: at most an apology, and then its row is marked. *)
Definition marked (id : uuid) t : list in_row :=
  map (fun r => if MessagesIn.has_id id r then set_mi_tries APOLOGY_TRIES_MARKER r else r) t.
Definition open_out k w : Prop := exists o, sd_outbound (dir_at k w) = Some o.

Lemma mark_run k id w t :
  stored w k = Some t ->
  mark_tries_apology_sent k id w = (Ok tt, put_dir k (with_inbound (marked id t) (dir_at k w)) w).
Proof.
  intros Ht. unfold mark_tries_apology_sent. by rewrite (mbind_run _ _ _ _ _ (inbound_pool_some _ _ _ Ht)).
Qed.
Lemma try_insert_run k write w t :
  stored w k = Some t -> open_out k w ->
  exists b w', try_insert_out k write w = (Ok b, w') /\ stored w' k = Some t /\ open_out k w'.
Proof.
  intros Ht (o & Ho). unfold try_insert_out, logged, insert_out.
  assert ((let! o := outbound_pool k in
           let! '(_, t') := sql (out_insert (ob_messages o) write) in
           set_outbound k (mkOutboundDb t' (ob_acks o) (ob_state o))) w
          = match out_insert (ob_messages o) write with
            | Ok (_, t') => (Ok tt, put_dir k (with_outbound (mkOutboundDb t' (ob_acks o) (ob_state o)) (dir_at k w)) w)
            | Err e => (Err (Fails (SDb e)), w)
            end) as E.
  { rewrite (mbind_run _ _ _ _ _ (outbound_pool_some _ _ _ Ho)). unfold mbind, sql, lift.
    by destruct (out_insert (ob_messages o) write) as [[seq t']|e]. }
  destruct (out_insert (ob_messages o) write) as [[seq t']|e].
  - rewrite (mbind_run _ _ _ _ _ E). eexists true, _. split; [reflexivity|].
    rewrite stored_outbound. split; [done|]. unfold open_out. rewrite dir_at_put, bool_decide_eq_true_2 by done. by eexists.
  - rewrite (mbind_stop _ _ _ _ _ E). eexists false, w. split; [reflexivity|]. split; [done | by exists o].
Qed.

Lemma apologise_run s spawn_failed now r w t :
  let k := session_key_of s in
  stored w k = Some t -> open_out k w ->
  exists res t' w',
    apologise operator_alerts_enabled s spawn_failed now r w = (Ok res, w')
    /\ stored w' k = Some t' /\ open_out k w'
    /\ (t' = t /\ res = None \/ t' = marked (ir_id r) t /\ forall e, res = Some e -> ae_message_id e = ir_id r).
Proof.
  intros k Ht Ho. unfold apologise. fold k. destruct (apology_reason spawn_failed now r) as [reason|].
  2: { exists None, t, w. split; [done|]. split; [done|]. split; [done|]. by left. }
  destruct Ho as (o & Ho). rewrite (mbind_run _ _ _ _ _ (outbound_pool_some _ _ _ Ho)).
  destruct (_ && _ && _).
  { exists None, t, w. split; [done|]. split; [done|]. split; [by exists o|]. by left. }
  erewrite mbind_run by reflexivity. set (w1 := set_fresh (sv_fresh w + 1) w).
  assert (stored w1 k = Some t) as H1 by done. assert (open_out k w1) as O1 by by exists o.
  assert (forall w, stored w k = Some t -> open_out k w ->
            stored (put_dir k (with_inbound (marked (ir_id r) t) (dir_at k w)) w) k = Some (marked (ir_id r) t)
            /\ open_out k (put_dir k (with_inbound (marked (ir_id r) t) (dir_at k w)) w)) as Hm.
  { intros w0 _ (o0 & Ho0). rewrite stored_put, bool_decide_eq_true_2 by done. split; [done|].
    unfold open_out. rewrite dir_at_put, bool_decide_eq_true_2 by done. by exists o0. }
  destruct (apology_row _ (sv_fresh w) now r) as [write|].
  - destruct (try_insert_run k write w1 t H1 O1) as (b & w2 & E2 & H2 & O2).
    rewrite (mbind_run _ _ _ _ _ E2). destruct b.
    + rewrite (mbind_run _ _ _ _ _ (mark_run k (ir_id r) w2 t H2)).
      eexists _, _, _. split; [reflexivity|]. destruct (Hm w2 H2 O2) as [E O]. split; [exact E|]. split; [exact O|].
      right. split; [done|]. by intros e [= <-].
    + exists None, t, w2. split; [done|]. split; [done|]. split; [done|]. by left.
  - rewrite (mbind_run _ _ _ _ _ (mark_run k (ir_id r) w1 t H1)).
    eexists _, _, _. split; [reflexivity|]. destruct (Hm w1 H1 O1) as [E O]. split; [exact E|]. split; [exact O|].
    right. split; [done|]. done.
Qed.

(** All candidates: the apologised ones are marked at the end, and nobody else
    changed. *)
Lemma marked_ids id t : map ir_id (marked id t) = map ir_id t.
Proof. apply ids_map. intros r. by destruct (MessagesIn.has_id id r). Qed.
Lemma marked_In id t r : In r t -> ir_id r <> id -> In r (marked id t).
Proof.
  intros Hr Hne. apply in_map_iff. exists r. split; [|done]. unfold MessagesIn.has_id.
  destruct (Z.eqb_spec (ir_id r) id); done.
Qed.
Lemma marked_raised id t :
  (forall r, In r t -> ir_id r = id -> mi_tries (ir_row r) < APOLOGY_TRIES_MARKER) -> raised t (marked id t).
Proof.
  intros Hlow. apply raised_map. intros r Hr. unfold MessagesIn.has_id. destruct (Z.eqb_spec (ir_id r) id) as [E|]; [|split; [done | lia]].
  split; [done|]. specialize (Hlow r Hr E). cbn. lia.
Qed.
Definition spoken id t : Prop :=
  exists r, In r t /\ ir_id r = id /\ APOLOGY_TRIES_MARKER <= mi_tries (ir_row r).
Lemma spoken_raised id t t' : raised t t' -> spoken id t -> spoken id t'.
Proof.
  intros Hr (r & Hin & E & L). destruct (Hr r Hin) as (r' & Hin' & E' & L'). exists r'.
  split; [done|]. split; [congruence | lia].
Qed.
Lemma marked_spoken id t r : In r t -> ir_id r = id -> spoken id (marked id t).
Proof.
  intros Hr E. exists (set_mi_tries APOLOGY_TRIES_MARKER r). split; [|split; [done | cbn; lia]].
  apply in_map_iff. exists r. split; [|done]. unfold MessagesIn.has_id. by rewrite E, Z.eqb_refl.
Qed.

Lemma apologies_run s spawn_failed now rows w t :
  let k := session_key_of s in
  stored w k = Some t -> open_out k w -> List.NoDup (map ir_id t) -> List.NoDup (map ir_id rows) ->
  (forall r, In r rows -> In r t /\ mi_tries (ir_row r) < APOLOGY_TRIES_MARKER) ->
  exists emits t' w',
    each (apologise operator_alerts_enabled s spawn_failed now) rows w = (Ok emits, w')
    /\ stored w' k = Some t' /\ List.NoDup (map ir_id t') /\ raised t t'
    /\ List.NoDup (map ae_message_id emits)
    /\ forall e, In e emits -> In (ae_message_id e) (map ir_id rows) /\ spoken (ae_message_id e) t'.
Proof.
  intros k. revert w t. induction rows as [|r rows IH]; intros w t Ht Ho Hnd Hrows Hin.
  { exists [], t, w. split; [done|]. split; [done|]. split; [done|]. split; [apply raised_refl|].
    split; [constructor | done]. }
  cbn [map] in Hrows. inversion Hrows as [|? ? Hn Hrows']; subst.
  destruct (apologise_run s spawn_failed now r w t Ht Ho) as (res & t1 & w1 & E1 & Ht1 & Ho1 & Hres).
  destruct (Hin r (or_introl eq_refl)) as [Hr Hlow].
  assert (forall r', In r' t -> ir_id r' = ir_id r -> r' = r) as Huniq.
  { intros r' Hr' E. by apply (NoDup_map_inj ir_id t). }
  assert (List.NoDup (map ir_id t1) /\ raised t t1) as [Hnd1 Hr1].
  { destruct Hres as [[-> _]|[-> _]]; [split; [done | apply raised_refl]|]. rewrite marked_ids. split; [done|].
    apply marked_raised. intros r' Hr' E. by rewrite (Huniq r' Hr' E). }
  destruct (IH w1 t1 Ht1 Ho1 Hnd1 Hrows') as (emits & t2 & w2 & E2 & Ht2 & Hnd2 & Hr2 & Hem & Hall).
  { intros r' Hr'. destruct (Hin r' (or_intror Hr')) as [Ht' Hl']. split; [|done].
    destruct Hres as [[-> _]|[-> _]]; [done|]. apply marked_In; [done|]. intros E. apply Hn. rewrite <- E. by apply in_map. }
  eexists _, t2, w2. split; [cbn [each]; rewrite (mbind_run _ _ _ _ _ E1), (mbind_run _ _ _ _ _ E2); reflexivity|].
  split; [done|]. split; [done|]. split; [by eapply raised_trans|].
  destruct res as [e|]; [|split; [done|]; intros e He; destruct (Hall e He); split; [by right | done]].
  destruct Hres as [[_ ?]|[-> He]]; [done|]. specialize (He e eq_refl). split.
  - cbn. constructor; [|done]. intros Hx. apply in_map_iff in Hx as (e' & Ee & He').
    destruct (Hall e' He') as [Hm _]. apply Hn. by rewrite <- He, <- Ee.
  - intros e' [<-|He']; [|destruct (Hall e' He'); split; [by right | done]].
    rewrite He. split; [by left|]. eapply spoken_raised; [exact Hr2|]. by eapply marked_spoken.
Qed.

Lemma NoDup_prefix {A} (f : A -> Z) (a b : list A) : List.NoDup (map f (a ++ b)) -> List.NoDup (map f a).
Proof. rewrite map_app. intros Hnd. apply NoDup_app_remove_r in Hnd. exact Hnd. Qed.
Lemma scan_In t r : In r (scan_stuck_inbounds t) -> In r t /\ apology_candidate r = true.
Proof. intros Hr. apply sql_limit_In, order_by_In, filter_In in Hr. exact Hr. Qed.
Lemma scan_NoDup t : List.NoDup (map ir_id t) -> List.NoDup (map ir_id (scan_stuck_inbounds t)).
Proof.
  intros Hnd. unfold scan_stuck_inbounds. rewrite sql_limit_take by done.
  eapply (NoDup_prefix ir_id _ (drop (Z.to_nat APOLOGY_SCAN_LIMIT) _)). rewrite take_drop.
  apply (Permutation_NoDup (l := map ir_id (List.filter apology_candidate t))).
  - apply Permutation_map. symmetry. apply order_by_perm.
  - clear -Hnd. induction t as [|r t IH]; cbn; [done|]. inversion Hnd as [|? ? Hn Hnd']; subst.
    destruct (apology_candidate r); cbn; [|auto]. constructor; [|auto]. intros Hin. apply Hn.
    apply in_map_iff in Hin as (r' & E & Hr'). rewrite <- E. apply in_map. by apply filter_In in Hr' as [? _].
Qed.

(** What an apology check reports: new apologies only, all of them marked. *)
Definition reports_new t t' (ids : list uuid) : Prop :=
  List.NoDup (map ir_id t') /\ raised t t' /\ List.NoDup ids
  /\ forall id, In id ids -> ~ spoken id t /\ spoken id t'.
Lemma reports_none t : List.NoDup (map ir_id t) -> reports_new t t [].
Proof. intros Hnd. split; [done|]. split; [apply raised_refl|]. split; [constructor | done]. Qed.

Lemma apology_check_run s now w t :
  let k := session_key_of s in
  stored w k = Some t -> List.NoDup (map ir_id t) ->
  exists emits t' w',
    logged [] (apology_check operator_alerts_enabled s now) w = (Ok emits, w')
    /\ stored w' k = Some t' /\ reports_new t t' (map ae_message_id emits).
Proof.
  intros k Ht Hnd. unfold logged, apology_check. fold k. erewrite mbind_run by reflexivity.
  rewrite (mbind_run _ _ _ _ _ (inbound_pool_some _ _ _ Ht)).
  destruct (scan_stuck_inbounds t) as [|r rows] eqn:Er.
  { exists [], t, w. split; [done|]. split; [done|]. by apply reports_none. }
  destruct (sd_outbound (dir_at k w)) as [o|] eqn:Ho.
  2: { assert (outbound_pool k w = (Err (Fails SOpen), w)) as E.
       { unfold outbound_pool, mbind, gets. cbn. by rewrite Ho. }
       rewrite (mbind_stop _ _ _ _ _ E). exists [], t, w. split; [done|]. split; [done|]. by apply reports_none. }
  rewrite (mbind_run _ _ _ _ _ (outbound_pool_some _ _ _ Ho)). rewrite <- Er.
  match goal with |- context [each (apologise _ s ?b now)] => set (spawn_failed := b) end.
  assert (forall r, In r (scan_stuck_inbounds t) -> In r t /\ mi_tries (ir_row r) < APOLOGY_TRIES_MARKER) as Hrows.
  { intros r' Hr'. apply scan_In in Hr' as [Hr' Hc]. split; [done|]. unfold apology_candidate in Hc.
    apply andb_prop in Hc as [_ Hc]. by apply Z.ltb_lt in Hc. }
  destruct (apologies_run s spawn_failed now (scan_stuck_inbounds t) w t Ht) as
    (emits & t' & w' & E & Ht' & Hnd' & Hr & He & Hall); [by exists o | done | by apply scan_NoDup | exact Hrows |].
  rewrite E. exists emits, t', w'. split; [done|]. split; [done|]. split; [done|]. split; [done|]. split; [done|].
  intros id Hid. apply in_map_iff in Hid as (e & <- & He'). destruct (Hall e He') as [Hin Hsp]. split; [|done].
  apply in_map_iff in Hin as (r0 & E0 & Hr0). apply Hrows in Hr0 as [Hr0 Hlow].
  intros (r1 & Hr1 & E1 & L1). assert (r1 = r0) as -> by (apply (NoDup_map_inj ir_id t); congruence || done). lia.
Qed.

Lemma keeps_processing k k' now : keeps (kept k) (processing_check k' now).
Proof.
  apply keeps_bind; [apply keeps_outbound | intros o]. destruct (abandoned now o) as [|id ids]; [apply keeps_ret|].
  apply keeps_bind; [apply keeps_inbound | intros t]. apply each_keeps. intros id'.
  apply keeps_bind; [apply keeps_ret | intros _]. apply keeps_bind; [|intros [|]].
  - apply keeps_bind; [apply keeps_outbound | intros o']. destruct (ack_get _ _); [|apply keeps_ret].
    case_goal; [apply keeps_ret|]. apply keeps_bind; [apply keeps_set_outbound | intros _; apply keeps_ret].
  - apply keeps_bind; [apply keeps_reset | intros; apply keeps_ret].
  - apply keeps_ret.
Qed.
Lemma keeps_parse_ok k x : keeps (kept k) (parse_ok x).
Proof. apply keeps_bind; [apply keeps_gets | intros clock]. destruct (parse_when clock x) as [?|[?|]];
  [apply keeps_ret | apply keeps_ret | apply keeps_fail]. Qed.
Lemma keeps_write_tasks k f : keeps (kept k) (write_tasks f).
Proof.
  apply keeps_bind; [apply keeps_gets | intros clock]. apply keeps_bind; [apply keeps_gets | intros t].
  apply keeps_bind; [apply keeps_lift | intros t']. by apply keeps_field.
Qed.
Lemma keeps_recurrence k k' now : keeps (kept k) (recurrence_check uuid_text json_text refs_exist k' now).
Proof.
  apply keeps_bind; [apply keeps_inbound | intros t]. apply each_keeps. intros parent.
  apply keeps_bind; [apply keeps_bind; [apply keeps_parse_ok | intros; apply keeps_ret] | intros [next|]; [|apply keeps_ret]].
  apply keeps_bind; [apply keeps_gets | intros ts]. apply keeps_bind.
  - destruct (task_get _ _); [apply keeps_ret | apply keeps_write_tasks].
  - intros _. apply keeps_bind; [apply keeps_clear | intros; apply keeps_ret].
Qed.
Lemma keeps_wake k s now : keeps (kept k) (wake_check s now).
Proof.
  unfold wake_check. case_goal; [apply keeps_ret|]. apply keeps_bind; [apply keeps_inbound | intros t].
  case_goal; [apply keeps_ret|]. apply keeps_bind; [apply keeps_gets | intros clock].
  apply keeps_bind; [apply keeps_gets | intros ss]. apply keeps_bind; [apply keeps_lift | intros ss'].
  apply keeps_bind; [by apply keeps_field | intros; apply keeps_ret].
Qed.
Lemma keeps_heartbeat k k' now : keeps (kept k) (heartbeat_check k' now).
Proof.
  apply keeps_bind; [apply keeps_gets | intros d]. destruct (sd_heartbeat d); [apply keeps_ret | apply keeps_ret | apply keeps_fail].
Qed.
Lemma keeps_stuck k k' now : keeps (kept k) (stuck_check k' now).
Proof. apply keeps_bind; [apply keeps_outbound | intros; apply keeps_ret]. Qed.

Definition checks := session_checks uuid_text json_text refs_exist operator_alerts_enabled.
Lemma checks_report s now w t rep w' :
  stored w (session_key_of s) = Some t -> List.NoDup (map ir_id t) -> checks s now w = (Ok rep, w') ->
  exists t', stored w' (session_key_of s) = Some t' /\ reports_new t t' (map ae_message_id (apologies_emitted rep)).
Proof.
  intros Ht Hnd. unfold checks, session_checks. set (k := session_key_of s) in *.
  intros (stale & w1 & E1 & (sev & w2 & E2 & (rs & w3 & E3 & (fan & w4 & E4 & (wk & w5 & E5 & (em & w6 & E6 & E)
    %mbind_inv)%mbind_inv)%mbind_inv)%mbind_inv)%mbind_inv)%mbind_inv. injection E as <- <-. cbn [apologies_emitted].
  assert (kept k w w5) as Hk.
  { pose proof (keeps_logged k false _ (keeps_heartbeat k k now) w) as K1. rewrite E1 in K1.
    pose proof (keeps_logged k None _ (keeps_stuck k k now) w1) as K2. rewrite E2 in K2.
    pose proof (keeps_logged k [] _ (keeps_processing k k now) w2) as K3. rewrite E3 in K3.
    pose proof (keeps_logged k [] _ (keeps_recurrence k k now) w3) as K4. rewrite E4 in K4.
    pose proof (keeps_logged k false _ (keeps_wake k s now) w4) as K5. rewrite E5 in K5.
    cbn [snd] in *. by rewrite K1, K2, K3, K4. }
  destruct (Hk t Ht Hnd) as (t5 & Ht5 & Hnd5 & Hr5).
  destruct (apology_check_run s now w5 t5 Ht5 Hnd5) as (em' & t6 & w6' & E6' & Ht6 & Hn6 & Hr6 & Hd6 & Hall).
  rewrite E6 in E6'. injection E6' as <- <-. exists t6. split; [done|]. split; [done|]. split; [by eapply raised_trans|].
  split; [done|]. intros id Hid. destruct (Hall id Hid) as [Hno Hyes]. split; [|done].
  intros Hsp. apply Hno. by eapply spoken_raised.
Qed.

(** What happens to the inbox between two passes: its rows keep their ids apart,
    and a message whose counter has reached the marker stays there at the marker
    or above. *)
Definition markers_kept k w w' : Prop :=
  forall t, stored w k = Some t -> List.NoDup (map ir_id t) ->
  exists t', stored w' k = Some t' /\ List.NoDup (map ir_id t') /\ forall id, spoken id t -> spoken id t'.
(** A stamp, like the manager's at a restart: the counter of a message is set to the
    marker, whatever it was. *)
Lemma stamp_keeps_markers k id w : markers_kept k w (put_dir k (with_inbound (marked id (default [] (stored w k))) (dir_at k w)) w).
Proof.
  intros t Ht Hnd. rewrite Ht. cbn [default]. exists (marked id t). split; [by rewrite stored_put, bool_decide_eq_true_2|]. split.
  - unfold marked. rewrite ids_map; [done|]. intros r. by destruct (MessagesIn.has_id id r).
  - intros id' (r & Hin & E & L). unfold marked. destruct (MessagesIn.has_id id r) eqn:Hid.
    + exists (set_mi_tries APOLOGY_TRIES_MARKER r). split; [|split; [done | cbn; lia]].
      apply in_map_iff. exists r. by rewrite Hid.
    + exists r. split; [|done]. apply in_map_iff. exists r. by rewrite Hid.
Qed.
(** Passes over a session, and between them whatever keeps the markers. *)
Inductive history (s : Session) (w : SweepWorld) : list uuid -> SweepWorld -> Prop :=
| history_start : history s w [] w
| history_pass ids w1 now rep w2 :
    history s w ids w1 -> checks s now w1 = (Ok rep, w2) ->
    history s w (ids ++ map ae_message_id (apologies_emitted rep)) w2
| history_other ids w1 w2 :
    history s w ids w1 -> markers_kept (session_key_of s) w1 w2 -> history s w ids w2.

(** C32. In the reports of any number of passes over a session no message is
    apologised to twice, provided that between the passes a message whose retry
    counter has reached the marker stays in the inbox at the marker or above.  The
    apologies the container manager writes at a restart are not counted: it sets
    the counter to the marker, which is such a step ([stamp_keeps_markers]). *)
Theorem apologised_at_most_once s w t ids w' :
  stored w (session_key_of s) = Some t -> List.NoDup (map ir_id t) -> history s w ids w' -> List.NoDup ids.
Proof.
  intros Ht Hnd Hh.
  enough (exists t', stored w' (session_key_of s) = Some t' /\ List.NoDup (map ir_id t') /\ List.NoDup ids
                     /\ forall id, In id ids -> spoken id t') as (? & _ & _ & Hids & _) by exact Hids.
  induction Hh as [|ids w1 now rep w2 _ IH E|ids w1 w2 _ IH Hk].
  - exists t. split; [done|]. split; [done|]. split; [constructor | done].
  - destruct IH as (t1 & Ht1 & Hnd1 & Hids & Hsp).
    destruct (checks_report s now w1 t1 rep w2 Ht1 Hnd1 E) as (t2 & Ht2 & Hnd2 & Hr & Hn & Hall).
    exists t2. split; [done|]. split; [done|]. split.
    + apply List.NoDup_app; [done | done|]. intros id Hid Hid'. by apply (proj1 (Hall id Hid')), Hsp.
    + intros id [Hid|Hid]%in_app_iff; [by eapply spoken_raised, Hsp | by apply Hall].
  - destruct IH as (t1 & Ht1 & Hnd1 & Hids & Hsp). destruct (Hk t1 Ht1 Hnd1) as (t2 & Ht2 & Hnd2 & Hr).
    exists t2. split; [done|]. split; [done|]. split; [done|]. intros id Hid. by apply Hr, Hsp.
Qed.
End Apologies.

(** ** A turn that takes long *)

Section LongTurn.
Context `{Calendar} `{HashOrder}.
Context (uuid_text : uuid -> rstr) (json_text : json -> rstr) (refs_exist : uuid -> uuid -> bool)
  (operator_alerts_enabled : bool).
Abbreviation checks := (checks uuid_text json_text refs_exist operator_alerts_enabled) (only parsing).

Lemma heartbeat_reads k now w : exists b, logged false (heartbeat_check k now) w = (Ok b, w).
Proof.
  unfold logged, heartbeat_check. erewrite mbind_run by reflexivity.
  destruct (sd_heartbeat (dir_at k w)); cbn; eauto.
Qed.
Lemma stuck_reads k now w o :
  sd_outbound (dir_at k w) = Some o -> exists s, logged None (stuck_check k now) w = (Ok s, w).
Proof.
  intros Ho. unfold logged, stuck_check. rewrite (mbind_run _ _ _ _ _ (outbound_pool_some _ _ _ Ho)). cbn. eauto.
Qed.

(** One chat message the runner has been working on: claimed, not answered,
    and old enough for both thresholds. *)
Record long_turn (s : Session) (now : instant) (w : SweepWorld) (r : in_row) (c : ProcessingClaim)
  (ms : list out_row) (st : option ContainerState) (ct pid : string) : Prop := {
  lt_running : s_container_status s = Running;
  lt_inbound : stored w (session_key_of s) = Some [r];
  lt_outbound : sd_outbound (dir_at (session_key_of s) w) = Some (mkOutboundDb ms [c] st);
  lt_numbers : out_wf ms;
  lt_fresh : forall m, In m ms -> or_id m < sv_fresh w;
  lt_row : is_pending r = true /\ mi_kind (ir_row r) = Chat /\ 0 <= mi_tries (ir_row r) < 98
           /\ mi_recurrence (ir_row r) = None;
  lt_route : mi_channel_type (ir_row r) = Some ct /\ mi_platform_id (ir_row r) = Some pid;
  lt_claim : pc_message_id c = ir_id r /\ pc_status c = Processing;
  lt_claimed : CLAIM_STUCK_MS <= num_milliseconds (now - pc_status_changed c);
  lt_arrived : APOLOGY_AFTER_SECS <= num_seconds (now - mi_timestamp (ir_row r));
  lt_unanswered : forall m, In m ms -> mo_in_reply_to (or_row m) <> Some (ir_id r);
}.

Lemma long_turn_reset s now w r c ms st ct pid :
  long_turn s now w r c ms st ct pid ->
  exists resets, logged [] (processing_check (session_key_of s) now) w
                 = (Ok resets, reclaimed (session_key_of s) (ir_id r) (mkOutboundDb ms [c] st) [r] w).
Proof.
  intros L. set (k := session_key_of s). set (o := mkOutboundDb ms [c] st).
  pose proof (lt_inbound _ _ _ _ _ _ _ _ _ L) as Hi. pose proof (lt_outbound _ _ _ _ _ _ _ _ _ L) as Ho. fold k o in Hi, Ho.
  destruct (lt_claim _ _ _ _ _ _ _ _ _ L) as [Eid Es].
  assert (claim_stale now c = true) as Hst by (apply claim_stale_iff; split; [done | apply L]).
  assert (has_reply_in_outbound ms (ir_id r) = false) as Hre by (apply has_reply_false; apply L).
  assert (abandoned now o = [ir_id r]) as Ea.
  { unfold abandoned, o, ack_get_all. cbn [ob_messages ob_acks order_by insert_by List.filter].
    rewrite Hst, Eid, Hre. cbn. by rewrite Eid. }
  assert (is_reclaimable now (ir_id r) o = true) as Hr.
  { unfold is_reclaimable, o. cbn [ob_messages ob_acks]. rewrite Hre. unfold ack_get, sql_get, claim_of. cbn [List.find].
    by rewrite Eid, Z.eqb_refl, Hst. }
  destruct (reset_claim_run (fun _ => ret tt) k now w (ir_id r) w o [r]) as (tries & E);
    [done | done | done | cbn; unfold MessagesIn.has_id; by rewrite Z.eqb_refl |]. rewrite Hr in E.
  exists [mkReset (snd k) (ir_id r) tries]. unfold logged, processing_check, processing_check_with_hook.
  rewrite (mbind_run _ _ _ _ _ (outbound_pool_some _ _ _ Ho)), Ea.
  rewrite (mbind_run _ _ _ _ _ (inbound_pool_some _ _ _ Hi)). cbn [each].
  by rewrite (mbind_run _ _ _ _ _ E).
Qed.

Lemma apology_written s now w r o ct pid :
  let k := session_key_of s in
  stored w k = Some [r] -> sd_outbound (dir_at k w) = Some o -> ob_acks o = [] ->
  out_wf (ob_messages o) -> (forall m, In m (ob_messages o) -> or_id m < sv_fresh w) ->
  s_container_status s = Running ->
  apology_candidate r = true -> APOLOGY_AFTER_SECS <= num_seconds (now - mi_timestamp (ir_row r)) ->
  mi_channel_type (ir_row r) = Some ct -> mi_platform_id (ir_row r) = Some pid ->
  exists w', logged [] (apology_check operator_alerts_enabled s now) w
             = (Ok [mkApology (ir_id r) PendingTooLong], w').
Proof.
  intros k Hi Ho Hack Hwf Hlt Hrun Hc Hage Hct Hpid. unfold logged, apology_check. fold k.
  erewrite mbind_run by reflexivity. rewrite (mbind_run _ _ _ _ _ (inbound_pool_some _ _ _ Hi)).
  assert (scan_stuck_inbounds [r] = [r]) as -> by (unfold scan_stuck_inbounds; cbn; by rewrite Hc).
  rewrite (mbind_run _ _ _ _ _ (outbound_pool_some _ _ _ Ho)). cbn [each].
  rewrite Hrun, bool_decide_eq_false_2 by done. cbn [andb].
  set (write := mkWriteOutbound (sv_fresh w) (Some (mi_id (ir_row r))) now None None Error (Some pid) (Some ct)
                  (mi_thread_id (ir_row r)) (apology_card operator_alerts_enabled)).
  set (w1 := set_fresh (sv_fresh w + 1) w).
  assert (exists w2, try_insert_out k write w1 = (Ok true, w2) /\ stored w2 k = Some [r]) as (w2 & E2 & H2).
  { destruct (out_insert_cases (ob_messages o) write _ Hwf eq_refl) as [[Hx _]|[_ Eo]].
    { apply existsb_exists in Hx as (m & Hm & Hid). apply Z.eqb_eq in Hid. specialize (Hlt m Hm). cbn in Hid. lia. }
    assert (exists o', insert_out k write w1 = (Ok tt, put_dir k (with_outbound o' (dir_at k w1)) w1)) as (o' & E).
    { eexists. unfold insert_out. rewrite (mbind_run _ _ _ _ _ (outbound_pool_some k w1 o Ho)).
      unfold mbind, sql, lift. rewrite Eo. reflexivity. }
    eexists. split; [unfold try_insert_out, logged; rewrite (mbind_run _ _ _ _ _ E); reflexivity|].
    by rewrite stored_outbound. }
  exists (put_dir k (with_inbound (marked (ir_id r) [r]) (dir_at k w2)) w2).
  unfold apologise. fold k. unfold apology_reason. destruct (Z.leb_spec APOLOGY_AFTER_SECS (num_seconds (now - mi_timestamp (ir_row r)))); [|lia].
  erewrite mbind_run.
  2: { rewrite (mbind_run _ _ _ _ _ (outbound_pool_some _ _ _ Ho)). rewrite Hrun, bool_decide_eq_true_2 by done.
       unfold inbound_is_being_processed, ack_get. rewrite Hack. cbn [sql_get List.find andb].
       erewrite mbind_run by reflexivity. unfold apology_row. rewrite Hct, Hpid. fold write w1.
       rewrite (mbind_run _ _ _ _ _ E2). rewrite (mbind_run _ _ _ _ _ (mark_run k (ir_id r) w2 [r] H2)). reflexivity. }
  reflexivity.
Qed.

Lemma long_turn_alone s now w r c ms st ct pid :
  long_turn s now w r c ms st ct pid -> logged [] (apology_check operator_alerts_enabled s now) w = (Ok [], w).
Proof.
  intros L. pose proof (lt_inbound _ _ _ _ _ _ _ _ _ L) as Hi. pose proof (lt_outbound _ _ _ _ _ _ _ _ _ L) as Ho.
  destruct (lt_row _ _ _ _ _ _ _ _ _ L) as (Hp & Hk & Ht & _). destruct (lt_claim _ _ _ _ _ _ _ _ _ L) as [Eid Es].
  unfold logged, apology_check. erewrite mbind_run by reflexivity.
  rewrite (mbind_run _ _ _ _ _ (inbound_pool_some _ _ _ Hi)).
  assert (apology_candidate r = true) as Hc.
  { unfold apology_candidate. rewrite Hp, bool_decide_eq_true_2 by done. cbn [andb]. apply Z.ltb_lt.
    unfold APOLOGY_TRIES_MARKER. lia. }
  assert (scan_stuck_inbounds [r] = [r]) as -> by (unfold scan_stuck_inbounds; cbn; by rewrite Hc).
  rewrite (mbind_run _ _ _ _ _ (outbound_pool_some _ _ _ Ho)). cbn [each].
  rewrite (lt_running _ _ _ _ _ _ _ _ _ L), bool_decide_eq_false_2 by done. cbn [andb].
  unfold apologise, apology_reason.
  destruct (Z.leb_spec APOLOGY_AFTER_SECS (num_seconds (now - mi_timestamp (ir_row r)))) as [_|Hlt];
    [|pose proof (lt_arrived _ _ _ _ _ _ _ _ _ L); lia].
  erewrite mbind_run.
  2: { rewrite (mbind_run _ _ _ _ _ (outbound_pool_some _ _ _ Ho)).
       rewrite (lt_running _ _ _ _ _ _ _ _ _ L), bool_decide_eq_true_2 by done.
       unfold inbound_is_being_processed, ack_get, sql_get, claim_of. cbn [ob_acks List.find].
       rewrite Eid, Z.eqb_refl, Es. reflexivity. }
  reflexivity.
Qed.

(** A message the runner is still working on is not apologised for by the
    apology check alone, as its comment says; but the same pass has just
    deleted the claim of every turn that took more than a minute without a
    reply, so once the message is five minutes old the user is told that the
    container does not respond. *)
Theorem long_turn_gets_apology s now w r c ms st ct pid :
  long_turn s now w r c ms st ct pid ->
  logged [] (apology_check operator_alerts_enabled s now) w = (Ok [], w)
  /\ exists rep w', checks s now w = (Ok rep, w')
                    /\ apologies_emitted rep = [mkApology (ir_id r) PendingTooLong].
Proof.
  intros L. split; [by eapply long_turn_alone|]. set (k := session_key_of s).
  pose proof (lt_inbound _ _ _ _ _ _ _ _ _ L) as Hi. pose proof (lt_outbound _ _ _ _ _ _ _ _ _ L) as Ho. fold k in Hi, Ho.
  destruct (lt_row _ _ _ _ _ _ _ _ _ L) as (Hp & Hk & Ht & Hrec). destruct (lt_claim _ _ _ _ _ _ _ _ _ L) as [Eid Es].
  destruct (heartbeat_reads k now w) as (stale & E1). destruct (stuck_reads k now w _ Ho) as (sev & E2).
  destruct (long_turn_reset s now w r c ms st ct pid L) as (resets & E3). fold k in E3.
  set (o := mkOutboundDb ms [c] st) in *. set (w1 := reclaimed k (ir_id r) o [r] w) in *.
  assert (dir_at k w1 = with_inbound [retried r] (with_outbound (mkOutboundDb ms [] st) (dir_at k w))) as Ed.
  { unfold w1, reclaimed. rewrite dir_at_put, bool_decide_eq_true_2 by done.
    unfold put_back, without_claim, o, MessagesIn.has_id, claim_of. cbn. by rewrite Eid, !Z.eqb_refl. }
  assert (stored w1 k = Some [retried r]) as Hi1 by (unfold stored; by rewrite Ed).
  assert (sd_outbound (dir_at k w1) = Some (mkOutboundDb ms [] st)) as Ho1 by (by rewrite Ed).
  assert (logged [] (recurrence_check uuid_text json_text refs_exist k now) w1 = (Ok [], w1)) as E4.
  { unfold logged, recurrence_check. rewrite (mbind_run _ _ _ _ _ (inbound_pool_some _ _ _ Hi1)).
    unfold newest_per_series. cbn [List.filter]. unfold has_recurrence, retried. cbn. by rewrite Hrec. }
  assert (logged false (wake_check s now) w1 = (Ok false, w1)) as E5.
  { unfold logged, wake_check. rewrite (lt_running _ _ _ _ _ _ _ _ _ L). by rewrite bool_decide_eq_true_2. }
  destruct (apology_written s now w1 (retried r) _ ct pid Hi1 Ho1) as (w2 & E6); try (done || apply L).
  { unfold apology_candidate, is_pending, retried. cbn. rewrite Hk. rewrite bool_decide_eq_true_2 by done.
    apply Z.ltb_lt. unfold APOLOGY_TRIES_MARKER. lia. }
  eexists _, w2. unfold SweepTurns.checks, session_checks. fold k.
  rewrite (mbind_run _ _ _ _ _ E1), (mbind_run _ _ _ _ _ E2), (mbind_run _ _ _ _ _ E3), (mbind_run _ _ _ _ _ E4),
    (mbind_run _ _ _ _ _ E5), (mbind_run _ _ _ _ _ E6). split; reflexivity.
Qed.
End LongTurn.

(** ** Instances *)

Module TurnWitnesses.
Import ScheduleProps.ScheduleWitnesses HashDemo.
#[local] Existing Instance demo_calendar.

Definition minutes (n : Z) : instant := n * 60 * ns_per_s.
Definition message : in_row :=
  pending_row (mkWriteInbound 5 Chat 0 JNull true true None None None (Some "42") (Some "telegram") None None None None) 2.
Definition claim : ProcessingClaim := mkClaim 5 Processing 0.
Definition session : Session :=
  mkSession 2 1 None None None SessionStatus.Active Running 0 0 None.
Definition dir : SessionDir :=
  mkDir (Some [message]) (Some (mkOutboundDb [] [claim] None)) (Beat (minutes 6)) Healthy Healthy false true.
Definition world : SweepWorld :=
  mkSweep [session] [] [] [] [] [] [] (mkStore ∅ ∅) None ∅ {[(1, 2) := dir]} 0 None None 10 (minutes 6).
Definition demo_checks := checks show_z (fun _ => []) (fun _ _ => true) false.

Lemma world_long : long_turn session (minutes 6) world message claim [] None "telegram" "42".
Proof. split; try reflexivity; try (vm_compute; congruence); try done. apply numbered_nil. Qed.

Lemma long_turn_gets_apology_witness :
  exists rep w', demo_checks session (minutes 6) world = (Ok rep, w')
                 /\ apologies_emitted rep = [mkApology 5 PendingTooLong].
Proof.
  apply (long_turn_gets_apology show_z (fun _ => []) (fun _ _ => true) false session (minutes 6) world message claim []
           None "telegram" "42"). apply world_long.
Defined.

Lemma reset_only_abandoned_witness :
  exists tries, reset_claim (fun _ => ret tt) (1, 2) (minutes 6) 5 world
                = (Ok (Some (mkReset 2 5 tries)), reclaimed (1, 2) 5 (mkOutboundDb [] [claim] None) [message] world).
Proof.
  destruct (reset_only_abandoned (fun _ => ret tt) (1, 2) (minutes 6) world 5 world (mkOutboundDb [] [claim] None)
              [message]) as [[_ (tries & E)]|[Hn _]]; [reflexivity | reflexivity | reflexivity | reflexivity | |].
  - exists tries. exact E.
  - exfalso. apply Hn. apply reclaimable_iff. reflexivity.
Defined.

Lemma apologised_at_most_once_witness :
  exists ids w', history show_z (fun _ => []) (fun _ _ => true) false session world ids w' /\ ids = [5] /\ List.NoDup ids.
Proof.
  destruct (demo_checks session (minutes 6) world) as [r w1] eqn:E.
  pose proof E as E'. vm_compute in E'. destruct r as [rep|e]; [|discriminate].
  assert (apologies_emitted rep = [mkApology 5 PendingTooLong]) as Er by (injection E' as <- _; reflexivity). clear E'.
  assert (history show_z (fun _ => []) (fun _ _ => true) false session world [5] w1) as Hh.
  { change [5] with ([] ++ map ae_message_id [mkApology 5 PendingTooLong]). rewrite <- Er.
    apply (history_pass _ _ _ _ _ _ [] world (minutes 6) rep w1); [constructor | exact E]. }
  exists [5], w1. split; [exact Hh|]. split; [reflexivity|].
  apply (apologised_at_most_once show_z (fun _ => []) (fun _ _ => true) false session world [message] [5] w1);
    [reflexivity | constructor; [intros [] | constructor] | exact Hh].
Defined.
End TurnWitnesses.
