(* ===== verification/SweepGoals.v ===== *)
(** What happens to goals: a finished goal stays finished and quiet whatever
    the agents and the sweep do, and a goal whose token count has left the
    range of the column stops all check-ins for good. *)
From stdpp Require Import relations.
From S2P Require Import Prelude Types MessagesIn Outbox Grants Central Schedule Goals Conditions Interactive Sweep SweepTasks.

(** ** Every way the table of goals changes *)

Section Steps.
Context `{Calendar}.
Context (uuid_text : uuid -> rstr) (refs_exist : uuid -> uuid -> bool) (debug : option rstr -> string).

(** A row of the delivery loop, from any session and with any content, or a
    pass of the sweep; errors included. *)
Inductive goal_step : list GoalRow -> list GoalRow -> Prop :=
| step_row sess payload w :
    goal_step (gd_goals w) (gd_goals (snd (apply_goal uuid_text refs_exist debug sess payload w)))
| step_pass now w : goal_step (sv_goals w) (sv_goals (snd (goals_check now w))).

(** A property of the table that every single write keeps is kept by every
    row. *)
Section Kept.
Context (P : list GoalRow -> Prop).
Hypothesis insert_kept : forall t refs goal now g t', P t -> goal_insert t refs goal now = Ok (g, t') -> P t'.
Hypothesis fields_kept : forall t id fields now, P t -> P (goal_write id (goal_with_fields fields now) t).
Hypothesis tokens_kept : forall t id g n now,
  P t -> goal_found t id = Ok g -> 0 <= n -> P (goal_write id (goal_with_tokens n now) t).
Hypothesis status_kept : forall t id s now g t', P t -> goal_set_status t id s now = Ok (g, t') -> P t'.

Definition kept_goals (w w' : GoalsDb) : Prop := P (gd_goals w) -> P (gd_goals w').
#[local] Instance kept_goals_preorder : PreOrder kept_goals.
Proof. split; [intros w Hw; exact Hw | intros w1 w2 w3 H12 H23 Hw; apply H23, H12, Hw]. Qed.

Lemma kept_goals_update id fields : keeps kept_goals (goal_update id fields).
Proof.
  unfold goal_update. intros w Hw. unfold mbind, gets. cbn.
  destruct (gu_objective fields) as [obj|]; [destruct (blank obj); [exact Hw|]|]; cbn; by apply fields_kept.
Qed.
Lemma kept_goals_progress entry id note tokens : keeps kept_goals (record_progress entry id note tokens).
Proof.
  unfold record_progress. destruct (blank note); [apply keeps_fail|].
  destruct (match tokens with Some t => t <? 0 | None => false end) eqn:Et; [apply keeps_fail|].
  intros w Hw. unfold mbind, gets, lift. cbn. destruct (goal_found (gd_goals w) id) as [g|e] eqn:Eg; [|exact Hw]. cbn.
  destruct (existsb _ (gd_progress w)); [exact Hw|]. destruct tokens as [n|]; [|exact Hw]. cbn.
  eapply tokens_kept; [exact Hw | exact Eg|]. by apply Z.ltb_ge in Et.
Qed.
Lemma kept_goals_fresh : keeps kept_goals (fresh_text uuid_text).
Proof. intros w Hw. exact Hw. Qed.
Lemma kept_goals_required m o : keeps kept_goals (required m o).
Proof. destruct o; [apply keeps_ret | apply keeps_fail]. Qed.

Lemma apply_goal_kept sess payload : keeps kept_goals (apply_goal uuid_text refs_exist debug sess payload).
Proof.
  unfold apply_goal. destruct (opt_is _ _); [|destruct (opt_is _ _); [|apply keeps_fail]].
  - unfold goal_create. apply keeps_bind; [apply kept_goals_required | intros objective].
    apply keeps_bind; [apply keeps_gets | intros now]. apply keeps_bind; [apply kept_goals_fresh | intros id].
    intros w Hw. unfold mbind, gets, lift. cbn. destruct (goal_insert _ _ _ _) as [[g t']|e] eqn:E; [|exact Hw].
    by eapply insert_kept.
  - unfold goal_change. apply keeps_bind; [apply kept_goals_required | intros id]. apply keeps_bind; [|intros _; apply keeps_bind].
    + destruct (str_field "objective" _); [|apply keeps_ret].
      apply keeps_bind; [apply kept_goals_update | intros; apply keeps_ret].
    + destruct (str_field "status" _) as [x|]; [|apply keeps_ret]. apply keeps_bind; [apply keeps_lift | intros status].
      intros w Hw. unfold mbind, gets, lift. cbn. destruct (goal_set_status _ _ _ _) as [[g t']|e] eqn:E; [|exact Hw].
      by eapply status_kept.
    + intros _. destruct (str_field "progress" _); [|apply keeps_ret].
      apply keeps_bind; [apply kept_goals_fresh | intros entry].
      apply keeps_bind; [apply kept_goals_progress | intros; apply keeps_ret].
Qed.

Lemma goal_steps_kept t t' :
  (forall now w, P (sv_goals w) -> P (sv_goals (snd (goals_check now w)))) -> rtc goal_step t t' -> P t -> P t'.
Proof.
  intros Hpass. induction 1 as [|t t1 t' Hs _ IH]; [done|]. intros Ht. apply IH.
  destruct Hs as [sess payload w | now w]; [by apply apply_goal_kept | by apply Hpass].
Qed.
End Kept.
End Steps.

(** ** The table *)

Lemma goal_write_In id f t g :
  In g (goal_write id f t) -> exists g0, In g0 t /\ g = if goal_has_id id g0 then f g0 else g0.
Proof. intros Hg. apply in_map_iff in Hg as (g0 & <- & H0). by exists g0. Qed.
Lemma goal_has_id_eq id g : goal_has_id id g = true <-> g_id g = id.
Proof. apply rstr_eqb_eq. Qed.
Lemma goal_found_In t id g : goal_found t id = Ok g -> In g t /\ g_id g = id /\ is_i64 (g_tokens_consumed g) = true.
Proof.
  unfold goal_found, goal_get. destruct (sql_get (goal_has_id id) t) as [g0|] eqn:E; [|done]. cbn.
  unfold row_to_goal. destruct (is_i64 (g_tokens_consumed g0)) eqn:Ei; [|done]. cbn. intros [= <-].
  apply find_some in E as [Hin Hid]. apply goal_has_id_eq in Hid. done.
Qed.
Lemma set_status_Ok t id s now g t' :
  goal_set_status t id s now = Ok (g, t') ->
  t' = goal_write id (goal_with_status s now) t
  /\ exists cur, goal_found t id = Ok cur /\ Goal.transition (g_status cur) s = true.
Proof.
  unfold goal_set_status. destruct (goal_found t id) as [cur|] eqn:E; [|done]. cbn [rbind].
  destruct (Goal.transition (g_status cur) s) eqn:Et; [|done]. cbn [negb].
  intros (g' & _ & [= _ <-])%rbind_Ok. split; [done|]. by exists cur.
Qed.
Lemma goal_insert_Ok t refs goal now g t' :
  goal_insert t refs goal now = Ok (g, t') ->
  t' = t ++ [goal_of goal now] /\ existsb (goal_has_id (nl_id goal)) t = false.
Proof.
  unfold goal_insert. destruct (blank _); [done|]. destruct (existsb _ t); [done|]. cbn.
  destruct refs; [|done]. cbn. by intros [= _ <-].
Qed.
Lemma transition_terminal s s' : Goal.is_terminal s = true -> Goal.transition s s' = false.
Proof. by destruct s, s'. Qed.

(** ** Finished goals *)

(** The goal is there, with a final status, and without a check-in. *)
Definition ended (id : rstr) (s : Goal.GoalStatus) (t : list GoalRow) : Prop :=
  Goal.is_terminal s = true /\ existsb (goal_has_id id) t = true
  /\ forall g, In g t -> g_id g = id -> g_status g = s /\ g_next_checkin g = None.

Lemma ended_write id s id' f t :
  (forall g, g_id (f g) = g_id g) ->
  (id' = id -> forall g, g_status (f g) = g_status g /\ g_next_checkin (f g) = g_next_checkin g) ->
  ended id s t -> ended id s (goal_write id' f t).
Proof.
  intros Hid Hf (Ht & Hex & Hall). split; [done|]. split.
  - apply existsb_exists in Hex as (g & Hg & E). apply existsb_exists.
    exists (if goal_has_id id' g then f g else g). split.
    + apply in_map_iff. by exists g.
    + apply goal_has_id_eq in E. apply goal_has_id_eq. destruct (goal_has_id id' g); by rewrite ?Hid.
  - intros g Hg E. apply goal_write_In in Hg as (g0 & H0 & ->).
    destruct (goal_has_id id' g0) eqn:E0; [|by apply Hall]. rewrite Hid in E. apply goal_has_id_eq in E0.
    assert (id' = id) as Ei by congruence. destruct (Hf Ei g0) as [-> ->]. by apply Hall.
Qed.
Lemma ended_no_transition id s t cur s' :
  ended id s t -> goal_found t id = Ok cur -> Goal.transition (g_status cur) s' = true -> False.
Proof.
  intros (Ht & _ & Hall) Hf Htr. apply goal_found_In in Hf as (Hin & Hid & _).
  destruct (Hall cur Hin Hid) as [E _]. by rewrite E, transition_terminal in Htr.
Qed.

(** ** A pass writes due goals only *)

Lemma list_due_checkin_In t now l g :
  list_due_checkin t now = Ok l -> In g l ->
  In g t /\ checkin_due now g = true /\ is_i64 (g_tokens_consumed g) = true.
Proof.
  unfold list_due_checkin. intros E Hg.
  assert (forall l0 l, read_goals l0 = Ok l -> l = l0 /\ forall g, In g l -> is_i64 (g_tokens_consumed g) = true) as Hr.
  { induction l0 as [|x l0 IH]; intros l1; cbn; [by intros [= <-]|]. unfold row_to_goal.
    destruct (is_i64 _) eqn:Ei; [|done]. cbn. intros (gs & E1 & [= <-])%rbind_Ok.
    destruct (IH gs E1) as [-> Hall]. split; [done|]. intros g' [<-|Hg']; [done | auto]. }
  destruct (Hr _ _ E) as [-> Hall]. split; [|split; [|auto]]; apply order_by_In, filter_In in Hg; apply Hg.
Qed.

Section Others.
Context `{Calendar}.
Context (P : list GoalRow -> Prop) (id : rstr).
Hypothesis others_kept : forall id' f t,
  id' <> id -> (forall g, g_id (f g) = g_id g) -> P t -> P (goal_write id' f t).

Definition kept_world (w w' : SweepWorld) : Prop := P (sv_goals w) -> P (sv_goals w').
#[local] Instance kept_world_preorder : PreOrder kept_world.
Proof. split; [intros w Hw; exact Hw | intros w1 w2 w3 H12 H23 Hw; apply H23, H12, Hw]. Qed.

Lemma kept_write_goals f :
  (forall t c t', P t -> f t c = Ok t' -> P t') -> keeps kept_world (write_goals f).
Proof.
  intros Hf w Hw. unfold write_goals, mbind, gets, sql, lift. cbn.
  destruct (f (sv_goals w) (sv_now w)) as [t'|e] eqn:E; [|exact Hw]. cbn. by eapply Hf.
Qed.
Lemma kept_found id' f t t' :
  id' <> id -> (forall g, g_id (f g) = g_id g) -> P t -> goal_write_found id' f t = Ok t' -> P t'.
Proof.
  intros Hne Hf Ht. unfold goal_write_found, sql_update. case_goal; [done|]. intros [= <-].
  by apply (others_kept id' f t).
Qed.
Lemma kept_wake k write : keeps kept_world (insert_in k write).
Proof.
  intros w Hw. unfold insert_in, mbind, inbound_pool, gets, sql, lift. cbn.
  destruct (sd_inbound _) as [t|]; [|exact Hw]. cbn. by destruct (insert t write) as [[seq t']|e].
Qed.
Lemma kept_drive now g : g_id g <> id -> keeps kept_world (drive_goal now g).
Proof.
  intros Hne. unfold drive_goal. apply keeps_bind; [apply keeps_gets | intros t].
  apply keeps_bind; [apply keeps_gets | intros grants]. apply keeps_bind; [apply keeps_lift | intros remaining].
  case_bool_decide.
  - apply keeps_bind; [|intros; apply keeps_ret]. apply kept_write_goals. intros t0 c t' Ht E.
    apply rbind_Ok in E as ([g' t2] & E & [= <-]). apply set_status_Ok in E as [-> _]. by apply others_kept.
  - apply keeps_bind; [|intros; apply keeps_ret]. unfold fire_goal.
    apply keeps_bind; [intros w Hw; exact Hw | intros msg]. apply keeps_bind; [apply kept_wake | intros _].
    apply keeps_bind; [|intros _; apply keeps_bind; [|intros; apply keeps_ret]];
      apply kept_write_goals; intros t0 c t' Ht E.
    + by apply (kept_found (g_id g) (goal_with_checkin now c) t0).
    + by apply (kept_found (g_id g) (goal_with_next (next_checkin_of now g) c) t0).
Qed.

Lemma kept_pass now w :
  (forall due g, list_due_checkin (sv_goals w) now = Ok due -> In g due -> g_id g <> id) ->
  P (sv_goals w) -> P (sv_goals (snd (goals_check now w))).
Proof.
  intros Hne Hw. unfold goals_check. rewrite (mbind_run _ _ _ _ _ (eq_refl : gets sv_goals w = (Ok (sv_goals w), w))).
  destruct (list_due_checkin (sv_goals w) now) as [due|e] eqn:Ed.
  2: { by rewrite (mbind_stop _ _ w (Fails (SDb e)) w). }
  rewrite (mbind_run _ _ w due w) by done. specialize (fun g => Hne due g eq_refl). clear Ed.
  revert Hw. change (kept_world w (snd (each (fun g => fired (drive_goal now g)) due w))).
  enough (keeps kept_world (each (fun g => fired (drive_goal now g)) due)) as K by apply K.
  induction due as [|g due IH]; [apply keeps_ret|]. cbn [each].
  apply keeps_bind; [|intros o; apply keeps_bind; [|intros; apply keeps_ret]].
  - apply keeps_bind; [|intros; apply keeps_ret]. apply kept_drive, Hne. by left.
  - apply IH. intros g' Hg'. apply Hne. by right.
Qed.
End Others.

Definition outcome_id (o : goal_outcome) : rstr :=
  match o with GoalFired f => sf_series_id f | GoalPaused id => id end.
Lemma drive_reports `{Calendar} now g w o w' : drive_goal now g w = (Ok o, w') -> outcome_id o = g_id g.
Proof.
  unfold drive_goal. intros (? & ? & _ & (? & ? & _ & (? & ? & _ & E)%mbind_inv)%mbind_inv)%mbind_inv.
  case_bool_decide.
  - apply mbind_inv in E as (? & ? & _ & E). by injection E as <- _.
  - apply mbind_inv in E as (f & ? & Ef & E). injection E as <- _. unfold fire_goal in Ef.
    do 4 (apply mbind_inv in Ef as (? & ? & _ & Ef)). by injection Ef as <- _.
Qed.
Lemma each_reports `{Calendar} now due w out w' o :
  each (fun g => fired (drive_goal now g)) due w = (Ok out, w') -> In o out ->
  exists g, In g due /\ outcome_id o = g_id g.
Proof.
  revert w out. induction due as [|g due IH]; intros w out E Ho; [injection E as <- _; destruct Ho|].
  cbn [each] in E. apply mbind_inv in E as (r & w2 & E1 & E). apply mbind_inv in E as (rest & w3 & E2 & E).
  injection E as E Ew. subst out w3. apply mbind_inv in E1 as (g1 & w4 & E1 & E3). injection E3 as <- _.
  destruct Ho as [<-|Ho]; [exists g; split; [by left | by eapply drive_reports]|].
  destruct (IH _ _ E2 Ho) as (g' & Hg' & E'). exists g'. split; [by right | done].
Qed.
Lemma pass_reports `{Calendar} now w out w' o :
  goals_check now w = (Ok out, w') -> In o out ->
  exists due g, list_due_checkin (sv_goals w) now = Ok due /\ In g due /\ outcome_id o = g_id g.
Proof.
  unfold goals_check. intros (t & w1 & [= <- <-] & E)%mbind_inv Ho. apply mbind_inv in E as (due & w1 & Ed & E).
  unfold sql, lift in Ed. destruct (list_due_checkin (sv_goals w) now) as [due'|]; [|done]. injection Ed as <- <-.
  exists due'. destruct (each_reports _ _ _ _ _ _ E Ho) as (g & ? & ?). eauto.
Qed.

(** ** A finished goal *)

Section Theorems.
Context `{Calendar}.
Context (uuid_text : uuid -> rstr) (refs_exist : uuid -> uuid -> bool) (debug : option rstr -> string).
Abbreviation goal_step := (goal_step uuid_text refs_exist debug) (only parsing).

Lemma ended_not_due id s t now due g :
  ended id s t -> list_due_checkin t now = Ok due -> In g due -> g_id g <> id.
Proof.
  intros (_ & _ & Hall) Ed Hg E. destruct (list_due_checkin_In _ _ _ _ Ed Hg) as (Hin & Hd & _).
  destruct (Hall g Hin E) as [_ Hn]. unfold checkin_due in Hd. by rewrite Hn, andb_false_r in Hd.
Qed.

(** A completed or abandoned goal stays as it is: no sequence of goal rows,
    from any session and with any content, and of sweep passes changes its
    status or gives it a check-in, and no pass reports it. *)
Theorem finished_goal_stays id s t t' :
  ended id s t -> rtc goal_step t t' ->
  ended id s t'
  /\ forall now w out w' o, sv_goals w = t' -> goals_check now w = (Ok out, w') -> In o out -> outcome_id o <> id.
Proof.
  intros Hend Hsteps. assert (ended id s t') as He.
  { revert Hend. apply (goal_steps_kept uuid_text refs_exist debug (ended id s)); [| | | | |exact Hsteps].
    - intros t0 refs goal now g t1 (Ht & Hex & Hall) E. apply goal_insert_Ok in E as [-> Hnew].
      split; [done|]. split; [by rewrite existsb_app, Hex|].
      intros g0 [Hg|[<-|[]]]%in_app_iff Eid; [by apply Hall|]. cbn in Eid. rewrite Eid in Hnew. congruence.
    - intros t0 id' fields now H0. by apply ended_write.
    - intros t0 id' g n now H0 _ _. by apply ended_write.
    - intros t0 id' s' now g t1 H0 E. apply set_status_Ok in E as (-> & cur & Ef & Etr).
      apply ended_write; [done | | done]. intros ->. by destruct (ended_no_transition id s t0 cur s').
    - intros now w Hw. apply (kept_pass (ended id s) id); [| |done].
      + intros id' f t0 Hne Hf H0. apply ended_write; [done | done | done].
      + intros due g Ed. by eapply ended_not_due. }
  split; [exact He|]. intros now w out w' o <- E Ho Eid.
  destruct (pass_reports now w out w' o E Ho) as (due & g & Ed & Hg & Eg).
  apply (ended_not_due id s (sv_goals w) now due g He Ed Hg). congruence.
Qed.

(** ** An overflowed goal *)

(** Goal ids are the primary key; the goal is due at [now] and its token
    count is above the range of the column. *)
Definition poisoned (id : rstr) (now : instant) (t : list GoalRow) : Prop :=
  List.NoDup (map g_id t)
  /\ exists g, In g t /\ g_id g = id /\ checkin_due now g = true /\ i64_max < g_tokens_consumed g.

Lemma poisoned_write id now id' f t :
  (forall g, g_id (f g) = g_id g) ->
  (id' = id -> forall g, g_status (f g) = g_status g /\ g_next_checkin (f g) = g_next_checkin g
                         /\ g_tokens_consumed g <= g_tokens_consumed (f g)) ->
  poisoned id now t -> poisoned id now (goal_write id' f t).
Proof.
  intros Hid Hf (Hnd & g & Hg & E & Hd & Hb). split.
  - unfold goal_write, sql_update. cbn. rewrite map_map.
    rewrite (map_ext _ g_id); [done|]. intros g'. destruct (goal_has_id id' g'); by rewrite ?Hid.
  - exists (if goal_has_id id' g then f g else g). split; [by apply (in_map (fun r => if goal_has_id id' r then f r else r))|].
    destruct (goal_has_id id' g) eqn:Eh; [|done]. apply goal_has_id_eq in Eh. assert (id' = id) as Ei by congruence.
    destruct (Hf Ei g) as (Hs & Hn & Ht). rewrite Hid. split; [done|]. split; [|lia].
    unfold checkin_due in *. by rewrite Hs, Hn.
Qed.
Lemma poisoned_unreadable id now t g : poisoned id now t -> goal_found t id = Ok g -> False.
Proof.
  intros (Hnd & g0 & Hg0 & E0 & _ & Hb) Hf. apply goal_found_In in Hf as (Hg & E & Hi).
  assert (g = g0) as -> by (apply (NoDup_map_inj g_id t); congruence || done).
  unfold is_i64 in Hi. apply andb_prop in Hi as [_ Hi]. apply Z.leb_le in Hi. lia.
Qed.
Lemma poisoned_read id now t : poisoned id now t -> list_due_checkin t now = Err SqliteConversion.
Proof.
  intros (_ & g & Hg & _ & Hd & Hb). unfold list_due_checkin.
  assert (In g (order_by (fun g => default 0 (g_next_checkin g)) (List.filter (checkin_due now) t))) as Hin
    by (apply order_by_In, filter_In; done).
  induction (order_by _ _) as [|g' l IH]; [destruct Hin|]. cbn [read_goals]. unfold row_to_goal at 1.
  destruct (is_i64 (g_tokens_consumed g')) eqn:Ei; [|done]. cbn [rbind].
  destruct Hin as [->|Hin]; [|by rewrite IH]. unfold is_i64 in Ei. apply andb_prop in Ei as [_ Ei].
  apply Z.leb_le in Ei. lia.
Qed.
Lemma poisoned_later id now now' t : now <= now' -> poisoned id now t -> poisoned id now' t.
Proof.
  intros Hle (Hnd & g & Hg & E & Hd & Hb). split; [done|]. exists g. split; [done|]. split; [done|]. split; [|done].
  unfold checkin_due in *. destruct (bool_decide _); [|done]. destruct (g_next_checkin g) as [n|]; [|done].
  cbn in *. apply Z.leb_le in Hd. apply Z.leb_le. lia.
Qed.

(** An agent that reports more tokens than an [i64] holds makes its goal
    unreadable; once such a goal is due, every later check-in pass fails before
    it drives any goal, of any session, whatever rows agents send and however
    often the sweep runs. *)
Theorem overflow_stops_checkins id now t t' :
  poisoned id now t -> rtc goal_step t t' ->
  forall now' w, now <= now' -> sv_goals w = t' ->
  goals_check now' w = (Err (Fails (SDb SqliteConversion)), w).
Proof.
  intros Hp Hsteps. assert (poisoned id now t') as Hp'.
  { revert Hp. apply (goal_steps_kept uuid_text refs_exist debug (poisoned id now)); [| | | | |exact Hsteps].
    - intros t0 refs goal now0 g t1 (Hnd & g0 & H0 & E0) E. apply goal_insert_Ok in E as [-> Hnew]. split.
      + rewrite map_app. cbn. apply NoDup_snoc; [done|]. intros Hin. apply in_map_iff in Hin as (g1 & E1 & H1).
        apply not_true_iff_false in Hnew. apply Hnew, existsb_exists. exists g1. split; [done|]. by apply goal_has_id_eq.
      + exists g0. split; [apply in_or_app; by left | done].
    - intros t0 id' fields now0 H0. apply poisoned_write; [done | | done]. intros _ g. cbn. split; [done|]. split; [done | lia].
    - intros t0 id' g n now0 H0 _ Hn. apply poisoned_write; [done | | done]. intros _ g'. cbn. split; [done|]. split; [done | lia].
    - intros t0 id' s now0 g t1 H0 E. apply set_status_Ok in E as (-> & cur & Ef & _).
      apply poisoned_write; [done | | done]. intros ->. by destruct (poisoned_unreadable id now t0 cur).
    - intros now0 w Hw. apply (kept_pass (poisoned id now) id); [| |done].
      + intros id' f t0 Hne Hf H0. by apply poisoned_write.
      + intros due g Ed Hg E. destruct (list_due_checkin_In _ _ _ _ Ed Hg) as (Hin & _ & Hi).
        destruct Hw as (Hnd & g0 & H0 & E0 & _ & Hb). assert (g = g0) as -> by (apply (NoDup_map_inj g_id (sv_goals w)); congruence || done).
        unfold is_i64 in Hi. apply andb_prop in Hi as [_ Hi]. apply Z.leb_le in Hi. lia. }
  intros now' w Hle E. subst t'. unfold goals_check. erewrite mbind_run by reflexivity.
  apply mbind_stop. unfold sql, lift. by rewrite (poisoned_read id now') by by eapply poisoned_later.
Qed.
End Theorems.

(** ** Instances *)

Module GoalWitnesses.
Import ScheduleProps.ScheduleWitnesses.
#[local] Existing Instance demo_calendar.

Definition no_debug (_ : option rstr) : string := EmptyString.
Definition demo_apply (payload : json) (w : GoalsDb) : GoalsDb :=
  snd (apply_goal show_z (fun _ _ => true) no_debug
         (mkSession 2 1 None None None SessionStatus.Active Idle 0 0 None) payload w).
Definition row (op : string) (fields : list (string * json)) : json :=
  JObj [("op", JStr (lit op)); ("payload", JObj fields)]%string.
Definition create : json :=
  row "create" [("objective", JStr (lit "learn")); ("checkin_recurrence", JStr (lit "0 9 * * *"))]%string.
Definition report (tokens : Z) : json :=
  row "update" [("id", JStr (show_z 7)); ("progress", JStr (lit "done")); ("progress_tokens", JNum tokens)]%string.
Definition finish (status : string) : json :=
  row "update" [("id", JStr (show_z 7)); ("status", JStr (lit status))]%string.
Definition start : GoalsDb := mkGoals [] [] 7 0.
Definition overflowed : GoalsDb := demo_apply (report i64_max) (demo_apply (report i64_max) (demo_apply create start)).
Definition completed : GoalsDb := demo_apply (finish "completed") (demo_apply create start).
Definition world (goals : list GoalRow) : SweepWorld :=
  mkSweep [] [] goals [] [] [] [] (mkStore ∅ ∅) None ∅ ∅ 0 None None 10 day_ns.

Lemma overflow_stops_checkins_witness :
  goals_check day_ns (world (gd_goals overflowed)) = (Err (Fails (SDb SqliteConversion)), world (gd_goals overflowed)).
Proof.
  apply (overflow_stops_checkins show_z (fun _ _ => true) no_debug (show_z 7) day_ns (gd_goals overflowed)
           (gd_goals overflowed)); [|reflexivity | lia | reflexivity].
  split; [vm_compute; constructor; [intros [] | constructor]|].
  eexists. split; [vm_compute; left; reflexivity|]. vm_compute. auto.
Defined.

Lemma finished_goal_stays_witness :
  ended (show_z 7) Goal.Completed (gd_goals (demo_apply (finish "active") completed)).
Proof.
  apply (finished_goal_stays show_z (fun _ _ => true) no_debug (show_z 7) Goal.Completed (gd_goals completed)).
  - split; [reflexivity|]. split; [vm_compute; reflexivity|].
    intros g Hg _. vm_compute in Hg. destruct Hg as [<-|[]]. split; reflexivity.
  - apply rtc_once. apply step_row.
Defined.
End GoalWitnesses.
