(* ===== verification/SweepConditions.v ===== *)
(** What reloading the conditions does to the store and its latches, and how
    the edge of a condition is lost. *)
From S2P Require Import Prelude Types MessagesIn Outbox Grants Central Schedule Goals Conditions Interactive Sweep SweepTasks.

(** ** Reloading *)

(** Only conditions of the store have a latch. *)
Definition store_ok (s : ConditionStore) : Prop :=
  forall id, is_Some (st_last_held s !! id) -> is_Some (st_conditions s !! id).
Definition wanted (d : list Condition) (id : rstr) : option Condition :=
  sql_get (fun c => rstr_eqb (co_id c) id) d.

Lemma store_ok_register s c : store_ok s -> store_ok (store_register s c).
Proof.
  intros Hs id. cbn. destruct (decide (co_id c = id)) as [<-|Hne]; [rewrite lookup_insert_eq; eauto|].
  rewrite lookup_delete_ne, lookup_insert_ne by done. apply Hs.
Qed.
Lemma store_ok_remove s id : store_ok s -> store_ok (snd (store_remove s id)).
Proof.
  intros Hs id'. cbn. destruct (decide (id = id')) as [<-|Hne]; [rewrite lookup_delete_eq; intros [? ?]; done|].
  rewrite !lookup_delete_ne by done. apply Hs.
Qed.
Lemma store_ok_observe s id b : store_ok s -> is_Some (st_conditions s !! id) -> store_ok (snd (observe_edge s id b)).
Proof.
  intros Hs Hid id'. cbn. destruct (decide (id = id')) as [<-|Hne]; [done|]. rewrite lookup_insert_ne by done. apply Hs.
Qed.

Lemma wanted_Some d id c : wanted d id = Some c -> In c d /\ co_id c = id.
Proof. intros E. apply find_some in E as [Hin E]. by apply rstr_eqb_eq in E. Qed.
Lemma wanted_None d id : wanted d id = None <-> desired_id d id = false.
Proof. unfold wanted, desired_id, sql_get. rewrite existsb_find. by destruct (find _ d). Qed.

(** Dropping leaves exactly the entries of desired ids. *)
Lemma drop_lookup d s id :
  store_ok s ->
  st_conditions (drop_stale d s) !! id = (if desired_id d id then st_conditions s !! id else None)
  /\ st_last_held (drop_stale d s) !! id = (if desired_id d id then st_last_held s !! id else None).
Proof.
  intros Hs. unfold drop_stale. set (ids := List.filter _ _).
  assert (forall id, In id ids <-> is_Some (st_conditions s !! id) /\ desired_id d id = false) as Hids.
  { intros id'. unfold ids. rewrite filter_In, negb_true_iff, <- list_elem_of_In, list_elem_of_fmap.
    split; intros [H1 H2]; (split; [|done]).
    - destruct H1 as ([k c] & -> & H1). apply elem_of_map_to_list in H1. cbn. by eexists.
    - destruct H1 as [c H1]. exists (id', c). split; [done|]. by apply elem_of_map_to_list. }
  assert (forall l, st_conditions (foldr (fun id s => snd (store_remove s id)) s l) !! id
                    = (if existsb (rstr_eqb id) l then None else st_conditions s !! id)
                    /\ st_last_held (foldr (fun id s => snd (store_remove s id)) s l) !! id
                       = (if existsb (rstr_eqb id) l then None else st_last_held s !! id)) as Hf.
  { induction l as [|x l [IH1 IH2]]; cbn; [done|]. destruct (rstr_eqb id x) eqn:E.
    - apply rstr_eqb_eq in E as ->. by rewrite !lookup_delete_eq.
    - assert (x <> id) by (intros ->; by rewrite rstr_eqb_refl in E). by rewrite !lookup_delete_ne. }
  destruct (Hf ids) as [-> ->]. destruct (existsb (rstr_eqb id) ids) eqn:Ex.
  - apply existsb_exists in Ex as (x & Hx & E). apply rstr_eqb_eq in E as <-. apply Hids in Hx as [_ ->]. done.
  - destruct (desired_id d id) eqn:Ed; [done|].
    destruct (st_conditions s !! id) as [c|] eqn:Ec.
    + exfalso. apply not_true_iff_false in Ex. apply Ex, existsb_exists. exists id. split; [|apply rstr_eqb_refl].
      apply Hids. by rewrite Ec.
    + split; [done|]. destruct (st_last_held s !! id) eqn:El; [|done]. destruct (Hs id) as [c E]; [by rewrite El | congruence].
Qed.

Lemma admit_other s c id :
  co_id c <> id ->
  st_conditions (admit_desired s c) !! id = st_conditions s !! id
  /\ st_last_held (admit_desired s c) !! id = st_last_held s !! id.
Proof.
  intros Hne. unfold admit_desired. case_bool_decide; [done|]. cbn.
  by rewrite lookup_insert_ne, lookup_delete_ne.
Qed.
Lemma admit_all_other d s id :
  desired_id d id = false ->
  st_conditions (fold_left admit_desired d s) !! id = st_conditions s !! id
  /\ st_last_held (fold_left admit_desired d s) !! id = st_last_held s !! id.
Proof.
  revert s. induction d as [|c d IH]; intros s Hd; cbn; [done|]. cbn in Hd. apply orb_false_elim in Hd as [Hc Hd].
  destruct (IH (admit_desired s c) Hd) as [-> ->]. apply admit_other. intros E. by rewrite E, rstr_eqb_refl in Hc.
Qed.
Lemma admit_all_lookup d s id c :
  List.NoDup (map co_id d) -> wanted d id = Some c ->
  st_conditions (fold_left admit_desired d s) !! id = Some c
  /\ st_last_held (fold_left admit_desired d s) !! id
     = (if bool_decide (st_conditions s !! id = Some c) then st_last_held s !! id else None).
Proof.
  revert s. induction d as [|c0 d IH]; intros s Hnd Hw; [done|]. cbn [map] in Hnd.
  inversion Hnd as [|? ? Hn Hnd']; subst. cbn [fold_left]. unfold wanted, sql_get in Hw. cbn in Hw.
  destruct (rstr_eqb (co_id c0) id) eqn:E.
  - assert (c0 = c) by congruence. subst c0. apply rstr_eqb_eq in E. subst id.
    assert (desired_id d (co_id c) = false) as Hd.
    { apply not_true_is_false. intros Hx. apply existsb_exists in Hx as (c' & Hc & E). apply rstr_eqb_eq in E.
      apply Hn. rewrite <- E. by apply in_map. }
    destruct (admit_all_other d (admit_desired s c) (co_id c) Hd) as [-> ->].
    unfold admit_desired. case_bool_decide; [done|]. cbn. by rewrite lookup_insert_eq, lookup_delete_eq.
  - assert (co_id c0 <> id) as Hne by (intros E'; by rewrite E', rstr_eqb_refl in E).
    destruct (admit_other s c0 id Hne) as [H1 H2]. rewrite <- H1, <- H2. by apply IH.
Qed.

(** Reloading makes the store hold exactly the active rows, keeps the latch
    of a condition whose definition did not change, and drops the latch of
    every new, changed or removed one. *)
Theorem reconcile_spec s d id :
  store_ok s -> List.NoDup (map co_id d) ->
  st_conditions (reconcile s d) !! id = wanted d id
  /\ st_last_held (reconcile s d) !! id
     = (if bool_decide (is_Some (wanted d id) /\ st_conditions s !! id = wanted d id)
        then st_last_held s !! id else None).
Proof.
  intros Hs Hnd. unfold reconcile. destruct (drop_lookup d s id Hs) as [Hc Hl].
  destruct (wanted d id) as [c|] eqn:Ew.
  - assert (desired_id d id = true) as Hd by (apply not_false_iff_true; rewrite <- wanted_None; congruence).
    rewrite Hd in Hc, Hl. destruct (admit_all_lookup d (drop_stale d s) id c Hnd Ew) as [-> ->].
    rewrite Hc, Hl. split; [done|].
    rewrite (bool_decide_ext (is_Some (Some c) /\ st_conditions s !! id = Some c) (st_conditions s !! id = Some c)); [done|].
    split; [by intros [_ ?] | eauto].
  - apply wanted_None in Ew. destruct (admit_all_other d (drop_stale d s) id Ew) as [-> ->].
    rewrite Hc, Hl, Ew. split; [done|]. rewrite bool_decide_eq_false_2; [done|]. intros [[? ?] _]. done.
Qed.

(** ** The lost edge *)

Section Edges.
Context `{HashOrder}.
Context (uuid_text : uuid -> rstr).

(** The condition part of a pass. *)
Definition desired_conditions (w : SweepWorld) : list Condition := omap from_stored (conditions_active (sv_conditions w)).
Definition conditions_pass (now : instant) : SM (list SeriesFanout) :=
  reload_conditions ;; logged [] (conditions_check uuid_text now).
Definition currently_holds (now : instant) (c : Condition) (w : SweepWorld) : bool :=
  holds c (sample_condition_context (co_session_id c) now w).

Lemma values_one c : hash_values {[co_id c := c]} = [c].
Proof. apply Permutation_singleton_r. etrans; [apply hash_values_perm|]. by rewrite map_to_list_singleton. Qed.
Lemma reload_same c latch w :
  sv_store w = mkStore {[co_id c := c]} latch -> desired_conditions w = [c] -> reload_conditions w = (Ok tt, w).
Proof.
  intros Es Ed. unfold reload_conditions, modify. fold (desired_conditions w). rewrite Ed, Es.
  assert (reconcile (mkStore {[co_id c := c]} latch) [c] = mkStore {[co_id c := c]} latch) as ->.
  { unfold reconcile, drop_stale. cbn [st_conditions]. rewrite map_to_list_singleton. cbn.
    rewrite rstr_eqb_refl. cbn. unfold admit_desired. cbn. by rewrite lookup_singleton_eq, bool_decide_eq_true_2. }
  do 2 f_equal. rewrite <- Es. by destruct w.
Qed.

(** The latch of a condition is set before its wake is written.  If the
    inbox cannot be opened at the moment the condition becomes true, that pass
    reports nothing, and no later pass fires the condition as long as it keeps
    holding, although the inbox can be written again. *)
Theorem edge_is_lost now c w :
  sv_store w = mkStore {[co_id c := c]} ∅ -> desired_conditions w = [c] ->
  stored w (co_agent_group_id c, co_session_id c) = None -> currently_holds now c w = true ->
  exists w1, conditions_pass now w = (Ok [], w1)
             /\ forall now' w2, sv_store w2 = sv_store w1 -> desired_conditions w2 = [c] ->
                  currently_holds now' c w2 = true ->
                  exists w3, conditions_pass now' w2 = (Ok [], w3) /\ sv_store w3 = sv_store w1
                             /\ sv_dirs w3 = sv_dirs w2.
Proof.
  intros Es Ed Hst Hh. set (s1 := mkStore {[co_id c := c]} {[co_id c := true]}).
  exists (set_fresh (sv_fresh w + 1) (set_store s1 w)). split.
  - assert (check_condition uuid_text now c w = (Err (Fails SOpen), set_fresh (sv_fresh w + 1) (set_store s1 w))) as E.
    { unfold check_condition. rewrite (mbind_run _ _ w true (set_store s1 w)).
      2: { unfold observe. fold (currently_holds now c w). by rewrite Hh, Es. }
      unfold fired, fire_condition. apply mbind_stop. erewrite mbind_run by reflexivity. apply mbind_stop.
      unfold insert_in. apply mbind_stop. by apply inbound_pool_none. }
    unfold conditions_pass. rewrite (mbind_run _ _ _ _ _ (reload_same c ∅ w Es Ed)).
    unfold logged, conditions_check. erewrite mbind_run by reflexivity. unfold store_all. rewrite Es. cbn [st_conditions].
    rewrite values_one. cbn [each]. by rewrite (mbind_stop _ _ _ _ _ E).
  - intros now' w2 Es2 Ed2 Hh2. change (sv_store w2 = s1) in Es2. exists (set_store s1 w2). split; [|done].
    unfold conditions_pass. rewrite (mbind_run _ _ _ _ _ (reload_same c _ w2 Es2 Ed2)).
    unfold logged, conditions_check. erewrite mbind_run by reflexivity. unfold store_all. rewrite Es2. cbn [st_conditions s1].
    rewrite values_one. cbn [each]. rewrite (mbind_run _ _ w2 None (set_store s1 w2)); [done|].
    unfold check_condition. rewrite (mbind_run _ _ w2 false (set_store s1 w2)); [done|].
    unfold observe. fold (currently_holds now' c w2). rewrite Hh2, Es2. unfold observe_edge. cbn.
    by rewrite lookup_singleton_eq, insert_singleton_eq.
Qed.
End Edges.

(** ** Instances *)

Module ConditionWitnesses.
Import HashDemo.

Definition alarm : Condition := mkCondition (lit "alarm") 1 2 (FlagSet (lit "hot")) (lit "look").
Definition store (latch : gmap rstr bool) : ConditionStore := mkStore {[lit "alarm" := alarm]} latch.
Definition stored_alarm : StoredCondition :=
  mkStored (lit "alarm") 1 2 (lit "flag") None (Some (lit "hot")) (lit "look") None 0 None.
Definition broken : SessionDir := mkDir None None NoHeartbeat Healthy Healthy false true.
Definition world (dirs : gmap (uuid * uuid) SessionDir) : SweepWorld :=
  mkSweep [] [] [] [] [stored_alarm] [mkFlag 1 2 (lit "hot") 0] [] (store ∅) None ∅ dirs 0 None None 10 7.

Lemma reconcile_spec_witness :
  st_last_held (reconcile (store {[lit "alarm" := true]}) [alarm]) !! lit "alarm" = Some true.
Proof.
  destruct (reconcile_spec (store {[lit "alarm" := true]}) [alarm] (lit "alarm")) as [_ E].
  - intros id [b E]. cbn [st_last_held store] in E. apply lookup_singleton_Some in E as [<- _].
    exists alarm. reflexivity.
  - constructor; [intros [] | constructor].
  - rewrite E. reflexivity.
Defined.

Lemma edge_is_lost_witness :
  exists w1, conditions_pass show_z 7 (world {[(1, 2) := broken]}) = (Ok [], w1).
Proof.
  destruct (edge_is_lost show_z 7 alarm (world {[(1, 2) := broken]})) as (w1 & E & _);
    [reflexivity | reflexivity | reflexivity | vm_compute; reflexivity | exists w1; exact E].
Defined.
End ConditionWitnesses.
