(* ===== verification/SweepPass.v ===== *)
(** A pass of the sweep as a whole: once it has the list of sessions it ends with a
    report. *)
From S2P Require Import Prelude Types MessagesIn Outbox Grants Central Schedule ScheduleProps Goals Conditions Interactive Sweep SweepTasks.

Section Ends.
Context `{Calendar} `{HashOrder}.
Context (uuid_text : uuid -> rstr) (json_text : json -> rstr) (refs_exist : uuid -> uuid -> bool)
  (operator_alerts_enabled : bool) (central_error : SweepWorld -> option DbError).

(** ** Texts that do not make the schedule parser panic *)

Definition plain (s : rstr) : Prop := forall clock, parse_when clock s <> Err Panics.
Definition rows_plain (t : list in_row) : Prop :=
  forall r rec, In r t -> mi_recurrence (ir_row r) = Some rec -> plain rec.
Definition tasks_plain (t : list TaskRow) : Prop := forall task, In task t -> plain (t_when_spec task).
(** All texts the sweep parses are of that kind. *)
Definition safe (w : SweepWorld) : Prop :=
  tasks_plain (sv_tasks w) /\ forall k t, stored w k = Some t -> rows_plain t.

(** From a safe state: no panic, a safe state, and a value that satisfies [Q]. *)
Definition calm {A} (m : SM A) (Q : A -> Prop) : Prop :=
  forall w, safe w ->
    safe (snd (m w)) /\ match fst (m w) with Ok a => Q a | Err (Fails _) => True | Err Panics => False end.
(** The same, and the computation succeeds. *)
Definition ends {A} (m : SM A) : Prop :=
  forall w, safe w -> safe (snd (m w)) /\ exists a, fst (m w) = Ok a.

Lemma calm_bind {A B} (m : SM A) (k : A -> SM B) Q R :
  calm m Q -> (forall a, Q a -> calm (k a) R) -> calm (mbind m k) R.
Proof.
  intros Hm Hk w Hw. unfold mbind. destruct (Hm w Hw) as [Hs Hq].
  destruct (m w) as [[a|[e|]] w1]; cbn in *; [by apply Hk | done | done].
Qed.
Lemma calm_ret {A} (a : A) (Q : A -> Prop) : Q a -> calm (ret a) Q.
Proof. intros Hq w Hw. done. Qed.
Lemma calm_fail {A} e (Q : A -> Prop) : calm (fail (Fails e)) Q.
Proof. intros w Hw. done. Qed.
Lemma calm_gets {A} (f : SweepWorld -> A) (Q : A -> Prop) : (forall w, safe w -> Q (f w)) -> calm (gets f) Q.
Proof. intros Hq w Hw. split; [done | by apply Hq]. Qed.
Lemma calm_any {A} (f : SweepWorld -> A) : calm (gets f) (fun _ => True).
Proof. by apply calm_gets. Qed.
Lemma calm_sql {A} (r : result DbError A) (Q : A -> Prop) : (forall a, r = Ok a -> Q a) -> calm (sql r) Q.
Proof. intros Hq w Hw. unfold sql, lift. cbn. destruct r; cbn; auto. Qed.
Lemma calm_weaken {A} (m : SM A) (Q R : A -> Prop) : (forall a, Q a -> R a) -> calm m Q -> calm m R.
Proof. intros Hqr Hm w Hw. destruct (Hm w Hw) as [Hs Hq]. split; [done|]. destruct (fst (m w)) as [a|[|]]; auto. Qed.
Lemma calm_seq {A B} (m : SM A) (k : A -> SM B) R :
  calm m (fun _ => True) -> (forall a, calm (k a) R) -> calm (mbind m k) R.
Proof. intros Hm Hk. eapply calm_bind; [exact Hm | auto]. Qed.
Lemma calm_same {A} (m : SM A) :
  (forall w, sv_dirs (snd (m w)) = sv_dirs w /\ sv_tasks (snd (m w)) = sv_tasks w /\ exists a, fst (m w) = Ok a) ->
  calm m (fun _ => True).
Proof.
  intros Hm w [Ht Hd]. destruct (Hm w) as (E1 & E2 & a & E). split; [|by rewrite E]. split; [by rewrite E2|].
  intros k t Hk. apply (Hd k). unfold stored, dir_at in *. by rewrite <- E1.
Qed.
Lemma calm_each {A B} (f : A -> SM (option B)) l :
  (forall a, In a l -> calm (f a) (fun _ => True)) -> calm (each f l) (fun _ => True).
Proof.
  induction l as [|a l IH]; intros Hf; [by apply calm_ret|]. cbn [each].
  apply calm_seq; [apply Hf; by left | intros o]. apply calm_seq; [apply IH; auto with datatypes | intros out].
  by apply calm_ret.
Qed.
Lemma calm_fired {A} (m : SM A) : calm m (fun _ => True) -> calm (fired m) (fun _ => True).
Proof. intros Hm. apply calm_seq; [done | intros; by apply calm_ret]. Qed.

Lemma ends_logged {A} (d : A) m : calm m (fun _ => True) -> ends (logged d m).
Proof.
  intros Hm w Hw. destruct (Hm w Hw) as [Hs Hq]. unfold logged.
  destruct (m w) as [[a|[e|]] w1]; cbn in *; eauto. done.
Qed.
Lemma ends_bind {A B} (m : SM A) (k : A -> SM B) : ends m -> (forall a, ends (k a)) -> ends (mbind m k).
Proof.
  intros Hm Hk w Hw. destruct (Hm w Hw) as (Hs & a & E). unfold mbind.
  destruct (m w) as [r w1]. cbn in *. subst r. by apply Hk.
Qed.
Lemma ends_ret {A} (a : A) : ends (ret a).
Proof. intros w Hw. cbn. eauto. Qed.
Lemma ends_gets {A} (f : SweepWorld -> A) : ends (gets f).
Proof. intros w Hw. cbn. eauto. Qed.
Lemma calm_ends {A} (m : SM A) : ends m -> calm m (fun _ => True).
Proof. intros Hm w Hw. destruct (Hm w Hw) as (Hs & a & ->). done. Qed.

(** ** The databases *)

Lemma calm_inbound k : calm (inbound_pool k) rows_plain.
Proof.
  intros w Hw. rewrite inbound_pool_run. cbn. split; [done|]. destruct Hw as [_ Hd].
  destruct (stored w k) as [t|] eqn:E; cbn; [by apply (Hd k) | done].
Qed.
Lemma calm_outbound k : calm (outbound_pool k) (fun _ => True).
Proof.
  intros w Hw. unfold outbound_pool, mbind, gets. cbn. by destruct (sd_outbound (dir_at k w)).
Qed.
Lemma calm_set_inbound k t : rows_plain t -> calm (set_inbound k t) (fun _ => True).
Proof.
  intros Ht w [Hts Hd]. split; [|done]. split; [done|]. intros k' t'. cbn. rewrite stored_put.
  case_bool_decide; [by intros [= <-] | apply Hd].
Qed.
Lemma calm_set_outbound k o : calm (set_outbound k o) (fun _ => True).
Proof.
  intros w [Hts Hd]. split; [|done]. split; [done|]. intros k' t'. cbn. unfold stored. rewrite dir_at_put.
  case_bool_decide as E; [subst; apply Hd | apply Hd].
Qed.
Lemma rows_plain_map (f : in_row -> in_row) t :
  (forall r, mi_recurrence (ir_row (f r)) = mi_recurrence (ir_row r) \/ mi_recurrence (ir_row (f r)) = None) ->
  rows_plain t -> rows_plain (map f t).
Proof.
  intros Hf Ht r rec Hr E. apply in_map_iff in Hr as (r0 & <- & Hin0). destruct (Hf r0) as [E'|E']; [|congruence].
  rewrite E' in E. by apply (Ht r0).
Qed.
Lemma calm_insert_in k write : wi_recurrence write = None -> calm (insert_in k write) (fun _ => True).
Proof.
  intros Hr. eapply calm_bind; [apply calm_inbound | intros t Ht].
  apply (calm_bind _ _ (fun p => rows_plain (snd p))); [|intros [seq t'] Ht'; by apply calm_set_inbound].
  apply calm_sql. intros [seq t'] E. unfold insert, insert_impl in E.
  destruct (existsb _ t); [done|]. injection E as <- <-. cbn.
  intros r rec [Hin|[<-|[]]]%in_app_iff; [by apply Ht|]. cbn. by rewrite Hr.
Qed.
Lemma calm_insert_out k write : calm (insert_out k write) (fun _ => True).
Proof.
  apply calm_seq; [apply calm_outbound | intros o]. apply calm_seq; [by apply calm_sql | intros [seq t]].
  apply calm_set_outbound.
Qed.
Lemma calm_write_tasks f :
  (forall t c t', tasks_plain t -> f t c = Ok t' -> tasks_plain t') -> calm (write_tasks f) (fun _ => True).
Proof.
  intros Hf. apply calm_seq; [apply calm_any | intros clock].
  eapply calm_bind; [apply (calm_gets sv_tasks tasks_plain); by intros w [? ?] | intros t Ht].
  eapply calm_bind; [apply (calm_sql _ tasks_plain); eauto | intros t' Ht'].
  intros w [_ Hd]. done.
Qed.
Lemma calm_write_goals f : calm (write_goals f) (fun _ => True).
Proof.
  apply calm_seq; [apply calm_any | intros clock]. apply calm_seq; [apply calm_any | intros t].
  apply calm_seq; [by apply calm_sql | intros t']. apply calm_same. intros w. by repeat eexists.
Qed.
Lemma calm_new_id : calm new_id (fun _ => True).
Proof. apply calm_same. intros w. by repeat eexists. Qed.
Lemma calm_parse_ok s : plain s -> calm (parse_ok s) (fun _ => True).
Proof.
  intros Hs. apply calm_seq; [apply calm_any | intros clock]. specialize (Hs clock).
  destruct (parse_when clock s) as [x|[e|]]; [by apply calm_ret | by apply calm_ret | done].
Qed.

(** ** The checks *)

Lemma tasks_plain_update id f t :
  (forall r, t_when_spec (f r) = t_when_spec r) -> tasks_plain t -> forall t', task_update_row id f t = Ok t' -> tasks_plain t'.
Proof.
  intros Hf Ht t'. unfold task_update_row, sql_update. case_goal; [done|]. intros [= <-] r Hr.
  apply in_map_iff in Hr as (r0 & <- & Hin0). destruct (task_has_id id r0); rewrite ?Hf; by apply Ht.
Qed.
Lemma calm_fire_task now task : plain (t_when_spec task) -> calm (fire_task now task) (fun _ => True).
Proof.
  intros Hp. apply calm_seq; [apply calm_new_id | intros msg]. apply calm_seq; [by apply calm_insert_in | intros _].
  apply calm_seq; [|intros _; apply calm_seq; [|intros _; by apply calm_ret]].
  - apply calm_write_tasks. intros t c t' Ht E. by apply (tasks_plain_update (t_id task) (with_fired now c) t).
  - apply calm_seq.
    + destruct (t_recurrence task) as [rec|]; [|by apply calm_ret].
      apply calm_seq; [by apply calm_parse_ok | intros p]. repeat case_goal; by apply calm_ret.
    + intros [next|].
      * apply calm_write_tasks. intros t c t' Ht E. by apply (tasks_plain_update (t_id task) (with_next_fire (Some next) c) t).
      * apply calm_seq; [|intros _]; apply calm_write_tasks; intros t c t' Ht E.
        -- by apply (tasks_plain_update (t_id task) (Schedule.with_status Task.Completed c) t).
        -- by apply (tasks_plain_update (t_id task) (with_next_fire None c) t).
Qed.
Lemma calm_scheduling now : calm (scheduling_check now) (fun _ => True).
Proof.
  eapply calm_bind; [apply (calm_gets sv_tasks tasks_plain); by intros w [? ?] | intros t Ht].
  apply calm_each. intros task Hin. apply tasks_due_In in Hin as [Hin _]. by apply calm_fired, calm_fire_task, Ht.
Qed.
Lemma calm_goals now : calm (goals_check now) (fun _ => True).
Proof.
  apply calm_seq; [apply calm_any | intros t]. apply calm_seq; [by apply calm_sql | intros due].
  apply calm_each. intros g _. apply calm_fired. unfold drive_goal.
  apply calm_seq; [apply calm_any | intros t0]. apply calm_seq; [apply calm_any | intros grants].
  apply calm_seq; [by apply calm_sql | intros remaining]. case_bool_decide.
  - apply calm_seq; [apply calm_write_goals | intros; by apply calm_ret].
  - apply calm_seq; [|intros; by apply calm_ret]. apply calm_seq; [apply calm_new_id | intros msg].
    apply calm_seq; [by apply calm_insert_in | intros _]. apply calm_seq; [apply calm_write_goals | intros _].
    apply calm_seq; [apply calm_write_goals | intros _]. by apply calm_ret.
Qed.
Lemma calm_conditions now : calm (conditions_check uuid_text now) (fun _ => True).
Proof.
  apply calm_seq; [apply calm_any | intros store]. apply calm_each. intros c _.
  apply calm_seq; [apply calm_same; intros w; by repeat eexists | intros [|]; [|by apply calm_ret]].
  apply calm_fired. apply calm_seq; [apply calm_new_id | intros msg].
  apply calm_seq; [by apply calm_insert_in | intros _].
  apply calm_seq; [apply calm_same; intros w; by repeat eexists | intros _; by apply calm_ret].
Qed.
Lemma calm_surface now q : calm (surface_one now q) (fun _ => True).
Proof.
  unfold surface_one. destruct (qo_agent_group_id _) as [group|]; [|by apply calm_ret].
  destruct (qo_session_id _) as [session|]; [|by apply calm_ret].
  eapply calm_bind; [apply calm_inbound | intros t _]. case_goal; [by apply calm_ret|].
  apply calm_seq; [apply calm_outbound | intros o]. apply calm_seq.
  - case_goal; [|by apply calm_ret]. apply calm_seq; [apply calm_new_id | intros id; apply calm_insert_out].
  - intros _. apply calm_seq; [apply calm_new_id | intros id].
    apply calm_seq; [by apply calm_insert_in | intros _; by apply calm_ret].
Qed.
Lemma ends_questions now : ends (questions_check now).
Proof.
  apply ends_bind; [apply ends_gets | intros [t|]; [|apply ends_ret]].
  destruct (sweep_expired t now) as [expired t'].
  apply ends_bind; [intros w Hw; cbn; split; [exact Hw | by eexists] | intros _].
  induction expired as [|q l IH]; [apply ends_ret|]. cbn [each].
  apply ends_bind; [|intros o; apply ends_bind; [exact IH | intros; apply ends_ret]].
  apply ends_bind; [apply ends_logged, calm_surface | intros; apply ends_ret].
Qed.

Lemma calm_heartbeat k now : calm (heartbeat_check k now) (fun _ => True).
Proof.
  apply calm_seq; [apply calm_any | intros d]. destruct (sd_heartbeat d); [by apply calm_ret | by apply calm_ret | apply calm_fail].
Qed.
Lemma calm_stuck k now : calm (stuck_check k now) (fun _ => True).
Proof. apply calm_seq; [apply calm_outbound | intros; by apply calm_ret]. Qed.
Lemma calm_reset k id : calm (reset_message_in k id) (fun _ => True).
Proof.
  eapply calm_bind; [apply calm_inbound | intros t Ht]. unfold sql_update. case_goal; [by apply calm_ret|].
  apply calm_seq; [|intros; by apply calm_ret]. apply calm_set_inbound, rows_plain_map; [|done].
  intros r. left. by case_goal.
Qed.
Lemma calm_processing k now : calm (processing_check k now) (fun _ => True).
Proof.
  apply calm_seq; [apply calm_outbound | intros o]. destruct (abandoned now o) as [|id l]; [by apply calm_ret|].
  eapply calm_bind; [apply calm_inbound | intros t _]. apply calm_each. intros id' _.
  apply calm_seq; [by apply calm_ret | intros _]. apply calm_seq.
  - apply calm_seq; [apply calm_outbound | intros o']. destruct (ack_get _ _); [|by apply calm_ret].
    case_goal; [by apply calm_ret|]. apply calm_seq; [apply calm_set_outbound | intros; by apply calm_ret].
  - intros [|]; [|by apply calm_ret]. apply calm_seq; [apply calm_reset | intros; by apply calm_ret].
Qed.
Lemma first_per_key_In seen l r : In r (first_per_key uuid_text seen l) -> In r l.
Proof.
  revert seen. induction l as [|x l IH]; intros seen; cbn; [done|]. case_goal; [intros; right; by eapply IH|].
  intros [->|Hr]; [by left | right; by eapply IH].
Qed.
Lemma insert_text_In {A} (key : A -> rstr) x l y : In y (insert_text key x l) -> y = x \/ In y l.
Proof.
  induction l as [|z l IH]; cbn; [intros [->|[]]; by left|]. case_goal.
  - intros [->|Hy]; [by left | by right].
  - intros [->|Hy]; [right; by left|]. destruct (IH Hy) as [->|?]; [by left | right; by right].
Qed.
Lemma order_text_In {A} (key : A -> rstr) l y : In y (order_text key l) -> In y l.
Proof.
  induction l as [|x l IH]; cbn; [done|]. intros Hy. apply insert_text_In in Hy as [->|Hy]; [by left | right; auto].
Qed.
Lemma newest_In t now r :
  In r (newest_per_series uuid_text t now) -> In r t /\ exists rec, mi_recurrence (ir_row r) = Some rec.
Proof.
  intros Hr. apply filter_In in Hr as [Hr _]. apply first_per_key_In, order_text_In, order_by_In, filter_In in Hr as [Hin Hh].
  split; [done|]. unfold has_recurrence in Hh. destruct (mi_recurrence (ir_row r)); [eauto | done].
Qed.
Lemma calm_recurrence k now : calm (recurrence_check uuid_text json_text refs_exist k now) (fun _ => True).
Proof.
  eapply calm_bind; [apply calm_inbound | intros t Ht]. apply calm_each. intros parent Hp.
  apply newest_In in Hp as [Hp (rec & Er)]. pose proof (Ht parent rec Hp Er) as Hplain.
  unfold consolidate. rewrite Er. cbn [default]. apply calm_seq.
  - apply calm_seq; [by apply calm_parse_ok | intros; by apply calm_ret].
  - intros [next|]; [|by apply calm_ret]. apply calm_seq; [apply calm_any | intros ts]. apply calm_seq.
    + destruct (task_get _ _); [by apply calm_ret|]. apply calm_write_tasks. intros ts0 c ts' Hts E.
      apply rbind_Ok in E as ([row ts1] & E & [= <-]). unfold task_insert in E. destruct (_ || _); [done|].
      injection E as <- <-. intros task [Hin|[<-|[]]]%in_app_iff; [by apply Hts | exact Hplain].
    + intros _. apply calm_seq; [|intros; by apply calm_ret].
      eapply calm_bind; [apply calm_inbound | intros t0 Ht0]. apply calm_set_inbound, rows_plain_map; [|done].
      intros r. case_goal; [by right | by left].
Qed.
Lemma calm_wake s now : calm (wake_check s now) (fun _ => True).
Proof.
  unfold wake_check. case_goal; [by apply calm_ret|]. eapply calm_bind; [apply calm_inbound | intros t _].
  case_goal; [by apply calm_ret|]. apply calm_seq; [apply calm_any | intros clock].
  apply calm_seq; [apply calm_any | intros ss]. apply calm_seq; [by apply calm_sql | intros ss'].
  apply calm_seq; [apply calm_same; intros w; by repeat eexists | intros; by apply calm_ret].
Qed.
Lemma calm_mark k id : calm (mark_tries_apology_sent k id) (fun _ => True).
Proof.
  eapply calm_bind; [apply calm_inbound | intros t Ht]. apply calm_set_inbound, rows_plain_map; [|done].
  intros r. left. by case_goal.
Qed.
Lemma calm_apology s now : calm (apology_check operator_alerts_enabled s now) (fun _ => True).
Proof.
  apply calm_seq; [apply calm_any | intros exhausted]. eapply calm_bind; [apply calm_inbound | intros t _].
  destruct (scan_stuck_inbounds t) as [|r l]; [by apply calm_ret|]. apply calm_seq; [apply calm_outbound | intros _].
  apply calm_each. intros r' _. unfold apologise. destruct (apology_reason _ _ _); [|by apply calm_ret].
  apply calm_seq; [apply calm_outbound | intros o]. destruct (_ && _ && _); [by apply calm_ret|].
  apply calm_seq; [apply calm_new_id | intros id]. destruct (apology_row _ _ _ _) as [write|].
  - apply calm_seq.
    + apply calm_ends, ends_logged. apply calm_seq; [apply calm_insert_out | intros; by apply calm_ret].
    + intros [|]; [|by apply calm_ret]. apply calm_seq; [apply calm_mark | intros; by apply calm_ret].
  - apply calm_seq; [apply calm_mark | intros; by apply calm_ret].
Qed.

Lemma ends_checks s now : ends (session_checks uuid_text json_text refs_exist operator_alerts_enabled s now).
Proof.
  unfold session_checks. apply ends_bind; [apply ends_logged, calm_heartbeat | intros stale].
  apply ends_bind; [apply ends_logged, calm_stuck | intros severity].
  apply ends_bind; [apply ends_logged, calm_processing | intros resets].
  apply ends_bind; [apply ends_logged, calm_recurrence | intros fan].
  apply ends_bind; [apply ends_logged, calm_wake | intros woken].
  apply ends_bind; [apply ends_logged, calm_apology | intros emits]. apply ends_ret.
Qed.
Lemma calm_quarantine k : calm (check_and_quarantine k) (fun _ => True).
Proof.
  apply calm_seq; [apply calm_any | intros d].
  assert (forall db detail, calm (if sd_sidecar_writable d
             then modify (fun w => put_dir k (with_quarantine (dir_at k w)) w) ;; ret (Some (mkFinding (snd k) db detail))
             else fail (Fails SIo)) (fun _ => True)) as Hq.
  { intros db detail. destruct (sd_sidecar_writable d); [|apply calm_fail].
    apply calm_seq; [|intros; by apply calm_ret]. intros w [Hts Hd]. split; [|done]. split; [done|].
    intros k' t'. cbn. unfold stored. rewrite dir_at_put. case_bool_decide as E; [subst; apply Hd | apply Hd]. }
  destruct (sd_outbound_check d), (sd_inbound_check d); first [apply Hq | by apply calm_ret].
Qed.
Lemma ends_session slot now s :
  ends (sweep_session uuid_text json_text refs_exist operator_alerts_enabled slot now s).
Proof.
  unfold sweep_session. apply ends_bind; [apply ends_gets | intros d]. destruct (sd_quarantined d); [apply ends_ret|].
  case_goal; [|apply ends_checks]. apply ends_bind.
  - apply ends_logged. apply calm_seq; [apply calm_quarantine | intros; by apply calm_ret].
  - intros [[finding|]|]; [apply ends_ret | | apply ends_checks].
    apply ends_bind; [apply ends_checks | intros; apply ends_ret].
Qed.
Lemma ends_sessions slot now l :
  ends (sweep_sessions uuid_text json_text refs_exist operator_alerts_enabled slot now l).
Proof.
  induction l as [|s l IH]; [apply ends_ret|]. cbn [sweep_sessions].
  apply ends_bind; [apply ends_session | intros r]. apply ends_bind; [exact IH | intros; apply ends_ret].
Qed.
Lemma ends_central now : ends (check_central_integrity now).
Proof.
  apply ends_bind; [apply ends_gets | intros last]. destruct (match last with Some prev => _ | None => _ end); [apply ends_ret|].
  apply ends_bind; [intros w Hw; cbn; split; [exact Hw | by eexists] | intros _].
  apply ends_bind; [apply ends_gets | intros; apply ends_ret].
Qed.

Lemma ends_pass now sessions : ends (pass_over uuid_text json_text refs_exist operator_alerts_enabled now sessions).
Proof.
  apply ends_bind; [apply ends_gets | intros pass].
  apply ends_bind; [intros w0 Hin0; cbn; split; [exact Hin0 | by eexists] | intros _].
  apply ends_bind; [apply ends_central | intros [checked corrupt]].
  apply ends_bind; [apply ends_logged, calm_scheduling | intros tasks].
  apply ends_bind; [apply ends_logged, calm_goals | intros goals].
  apply ends_bind; [intros w0 Hin0; cbn; split; [exact Hin0 | by eexists] | intros _].
  apply ends_bind; [apply ends_logged, calm_conditions | intros conditions].
  apply ends_bind; [apply ends_questions | intros expired].
  apply ends_bind; [apply ends_sessions | intros rs]. apply ends_ret.
Qed.

Abbreviation pass := (run_once uuid_text json_text refs_exist operator_alerts_enabled central_error) (only parsing).
(** C31. How a pass ends, provided no stored schedule text makes the parser panic.
    When the central database does not give the list of sessions, with that
    error and nothing changed.  Otherwise with a report, whatever fails inside a
    check of a session or of the tables; and the texts it leaves behind are again
    of that kind, so that every later pass ends too. *)
Theorem pass_always_ends w :
  safe w ->
  match central_error w with
  | Some e => pass w = (Err (Fails (SDb e)), w)
  | None => exists report w', pass w = (Ok report, w') /\ safe w'
  end.
Proof.
  intros Hw. destruct (central_error w) as [e|] eqn:Ec.
  - unfold run_once, list_sessions, mbind, gets. by rewrite Ec.
  - destruct (ends_pass (sv_now w) (Central.list_active (sv_sessions w)) w Hw) as (Hs & report & E).
    eexists report, _. split; [|exact Hs]. unfold run_once, list_sessions, mbind, gets. rewrite Ec.
    by rewrite <- E, <- surjective_pairing.
Qed.
End Ends.

(** ** Instances *)

Module PassWitnesses.
Import ScheduleProps.ScheduleWitnesses HashDemo TaskWitnesses.
#[local] Existing Instance demo_calendar.

Lemma pass_always_ends_witness :
  exists report w',
    run_once show_z (fun _ => []) (fun _ _ => true) false (fun _ => None) (TaskWitnesses.world {[(1, 2) := broken]}) = (Ok report, w').
Proof.
  destruct (pass_always_ends show_z (fun _ => []) (fun _ _ => true) false (fun _ => None) (TaskWitnesses.world {[(1, 2) := broken]}))
    as (report & w' & E & _); [|exists report, w'; exact E]. split.
  - intros task [<-|[<-|[]]] clock; vm_compute; discriminate.
  - intros k t E r rec Hr. unfold stored, dir_at in E. cbn [sv_dirs TaskWitnesses.world] in E.
    destruct (decide (k = (1, 2))) as [->|Hne].
    + rewrite lookup_singleton_eq in E. discriminate.
    + rewrite lookup_singleton_ne in E by congruence. injection E as <-. destruct Hr.
Defined.
End PassWitnesses.
