(* ===== verification/Budgets.v ===== *)
(** Usage and budgets: the turns a group has used
    ([copperclaw-db/src/tables/agent_turns.rs], [group_budgets.rs], the
    [usage_report] row of the delivery loop), their price
    ([copperclaw-types/src/pricing.rs],
    [copperclaw-host/src/handlers/usage.rs]) and the caps that stop a spawn
    ([copperclaw-host/src/container_manager/budgets.rs]). *)
From S2P Require Import Prelude Types Grants Schedule.

(** ** The tables *)

Record GroupBudget : Type := mkBudget {
  gb_agent_group_id : uuid;
  gb_daily_token_cap : option Z;
  (** [daily_cost_cap] as [cost_cap_micros] reads it. *)
  gb_daily_cost_micros : option Z;
  gb_turns_per_minute_cap : option Z;
  gb_turns_per_hour_cap : option Z;
  gb_updated_at : instant;
}.
Record AgentTurn : Type := mkAgentTurn {
  at_session_id : rstr;
  at_agent_group_id : rstr;
  at_seq : Z;
  at_model : rstr;
  at_provider : rstr;
  at_input_tokens : Z;
  at_output_tokens : Z;
  at_started_at : instant;
  at_ended_at : instant;
  at_status : rstr;
  at_error : option rstr;
}.
Abbreviation budget_table := (list GroupBudget) (only parsing).
Abbreviation turn_table := (list AgentTurn) (only parsing).

Definition budget_get (t : budget_table) (group : uuid) : option GroupBudget :=
  sql_get (fun b => gb_agent_group_id b =? group) t.
(** [INSERT .. ON CONFLICT DO UPDATE]: the row of the group keeps its place. *)
Definition budget_upsert (t : budget_table) (req : GroupBudget) (now : instant) : budget_table :=
  let row := mkBudget (gb_agent_group_id req) (gb_daily_token_cap req) (gb_daily_cost_micros req)
               (gb_turns_per_minute_cap req) (gb_turns_per_hour_cap req) now in
  match sql_update (fun b => gb_agent_group_id b =? gb_agent_group_id req) (fun _ => row) t with
  | (t', O) => t ++ [row]
  | (t', _) => t'
  end.

Definition turn_insert (t : turn_table) (turn : AgentTurn) : turn_table := t ++ [turn].
Definition in_window (group : rstr) (since : instant) (t : AgentTurn) : bool :=
  rstr_eqb (at_agent_group_id t) group && (since <=? at_ended_at t).
Definition turns_since (t : turn_table) (group : rstr) (since : instant) : Z := sql_count (in_window group since) t.

(** SQLite's [SUM] over integers: an error once the running sum leaves [i64]. *)
Fixpoint sql_sum (acc : Z) (l : list Z) : result DbError Z :=
  match l with
  | [] => Ok acc
  | n :: l' => if is_i64 (acc + n) then sql_sum (acc + n) l' else Err SqliteConversion
  end.
(** [input_tokens + output_tokens] past [i64] is a real number, which the
    column does not read back as. *)
Definition tokens_since (t : turn_table) (group : rstr) (since : instant) : result DbError Z :=
  let used := map (fun r => at_input_tokens r + at_output_tokens r) (List.filter (in_window group since) t) in
  if forallb is_i64 used then sql_sum 0 used else Err SqliteConversion.

Record ModelUsage : Type := mkUsage {
  mu_model : rstr;
  mu_provider : rstr;
  mu_turns : Z;
  mu_input_tokens : Z;
  mu_output_tokens : Z;
}.
Definition same_model (model provider : rstr) (r : AgentTurn) : bool :=
  rstr_eqb (at_model r) model && rstr_eqb (at_provider r) provider.
(** The groups of [GROUP BY model, provider], each at its first row. *)
Fixpoint model_keys (seen : list (rstr * rstr)) (l : turn_table) : list (rstr * rstr) :=
  match l with
  | [] => []
  | r :: l' =>
      if existsb (fun k => same_model (fst k) (snd k) r) seen then model_keys seen l'
      else (at_model r, at_provider r) :: model_keys ((at_model r, at_provider r) :: seen) l'
  end.
Definition usage_of (rows : turn_table) (key : rstr * rstr) : result DbError ModelUsage :=
  let mine := List.filter (same_model (fst key) (snd key)) rows in
  let? input := sql_sum 0 (map at_input_tokens mine) in
  let? output := sql_sum 0 (map at_output_tokens mine) in
  Ok (mkUsage (fst key) (snd key) (Z.of_nat (length mine)) input output).
Fixpoint usages_of (rows : turn_table) (keys : list (rstr * rstr)) : result DbError (list ModelUsage) :=
  match keys with
  | [] => Ok []
  | k :: ks => let? u := usage_of rows k in let? us := usages_of rows ks in Ok (u :: us)
  end.
(** The rows of one group in [rollup_by_model_since], the heaviest first.  The
    query sums every group, so an overflow in another group fails it too. *)
Definition group_keys (t : turn_table) (since : instant) : list rstr :=
  map at_agent_group_id (List.filter (fun r => since <=? at_ended_at r) t).
Definition group_usage (t : turn_table) (since : instant) (group : rstr) : result DbError (list ModelUsage) :=
  let rows := List.filter (in_window group since) t in
  let? us := usages_of rows (model_keys [] rows) in
  Ok (order_by (fun u => - mu_output_tokens u) us).
Fixpoint all_usable (t : turn_table) (since : instant) (groups : list rstr) : result DbError unit :=
  match groups with
  | [] => Ok tt
  | g :: gs => let? _ := group_usage t since g in all_usable t since gs
  end.
Definition rollup_by_model_since (t : turn_table) (since : instant) (group : rstr)
  : result DbError (list ModelUsage) :=
  let? _ := all_usable t since (group_keys t since) in group_usage t since group.

(** ** Prices *)

Record ModelPrice : Type := mkPrice {
  input_per_mtok_micros : Z;
  output_per_mtok_micros : Z;
}.
Definition FABLE_5 : ModelPrice := mkPrice 10000000 50000000.
Definition OPUS_CURRENT : ModelPrice := mkPrice 5000000 25000000.
Definition OPUS_LEGACY : ModelPrice := mkPrice 15000000 75000000.
Definition SONNET : ModelPrice := mkPrice 3000000 15000000.
Definition HAIKU_4_5 : ModelPrice := mkPrice 1000000 5000000.
Definition HAIKU_3_5 : ModelPrice := mkPrice 800000 4000000.
Definition HAIKU_3 : ModelPrice := mkPrice 250000 1250000.

Definition ANTHROPIC_EXACT : list (string * ModelPrice) :=
  [("claude-fable-5", FABLE_5); ("claude-mythos-5", FABLE_5); ("claude-opus-4-8", OPUS_CURRENT);
   ("claude-opus-4-7", OPUS_CURRENT); ("claude-opus-4-6", OPUS_CURRENT); ("claude-opus-4-5", OPUS_CURRENT);
   ("claude-opus-4-1", OPUS_LEGACY); ("claude-opus-4-0", OPUS_LEGACY); ("claude-sonnet-5", SONNET);
   ("claude-sonnet-4-6", SONNET); ("claude-sonnet-4-5", SONNET); ("claude-sonnet-4-0", SONNET);
   ("claude-haiku-4-5", HAIKU_4_5)]%string.
Definition ANTHROPIC_PREFIX : list (string * ModelPrice) :=
  [("claude-fable-5", FABLE_5); ("claude-mythos-5", FABLE_5); ("claude-opus-4-8", OPUS_CURRENT);
   ("claude-opus-4-7", OPUS_CURRENT); ("claude-opus-4-6", OPUS_CURRENT); ("claude-opus-4-5", OPUS_CURRENT);
   ("claude-opus-4-1", OPUS_LEGACY); ("claude-opus-4-0", OPUS_LEGACY); ("claude-opus-4-2025", OPUS_LEGACY);
   ("claude-sonnet-5", SONNET); ("claude-sonnet-4", SONNET); ("claude-haiku-4-5", HAIKU_4_5);
   ("claude-3-7-sonnet", SONNET); ("claude-3-5-sonnet", SONNET); ("claude-3-5-haiku", HAIKU_3_5);
   ("claude-3-haiku", HAIKU_3); ("claude-3-opus", OPUS_LEGACY)]%string.

Definition ascii_lowercase (s : rstr) : rstr := map to_ascii_lowercase s.
Definition anthropic_price (model : rstr) : option ModelPrice :=
  match ascii_lowercase (trim model) with
  | [] => None
  | m =>
      let leaf := map (fun c => if c =? chr "." then chr "-" else c) (List.last (split_char (chr "/") m) m) in
      match find (fun p => rstr_eqb (lit (fst p)) leaf) ANTHROPIC_EXACT with
      | Some p => Some (snd p)
      | None => option_map snd (find (fun p => starts_with (lit (fst p)) leaf) ANTHROPIC_PREFIX)
      end
  end.
Definition price_for (provider model : rstr) : option ModelPrice :=
  let p := ascii_lowercase (trim provider) in
  if rstr_eqb p (lit "ollama") then Some (mkPrice 0 0)
  else if rstr_eqb p (lit "anthropic") then anthropic_price model
  else None.

Definition cost_micros (price : ModelPrice) (input_tokens output_tokens : Z) : Z :=
  Z.min u64_max
    ((Z.max 0 input_tokens * input_per_mtok_micros price + Z.max 0 output_tokens * output_per_mtok_micros price)
     / 1000000).

Record PricedSpend : Type := mkSpend { ps_micros : Z; ps_unpriced_turns : Z }.
Definition add_usage (s : PricedSpend) (m : ModelUsage) : PricedSpend :=
  match price_for (mu_provider m) (mu_model m) with
  | Some p =>
      mkSpend (sat_add u64_max (ps_micros s) (cost_micros p (mu_input_tokens m) (mu_output_tokens m)))
        (ps_unpriced_turns s)
  | None => mkSpend (ps_micros s) (ps_unpriced_turns s + mu_turns m)
  end.
Definition priced_spend_since (t : turn_table) (group : rstr) (since : instant) : result DbError PricedSpend :=
  let? us := rollup_by_model_since t since group in
  Ok (fold_left add_usage us (mkSpend 0 0)).

(** ** The caps *)

Definition utc_midnight (now : instant) : instant := now - now mod day_ns.

Inductive DailyGateBreach : Type :=
| Tokens
| Cost (spent_micros cap_micros : Z).
Inductive CapGate : Type := GateDailyTokens | GateDailyCost | GateTurnsPerMinute | GateTurnsPerHour.

(** Signed integers and dollars as the notices print them. *)
Definition show_int (n : Z) : rstr := if n <? 0 then lit "-" ++ show_z (- n) else show_z n.
Definition format_cost_dollars (micros : Z) : rstr :=
  let cents := sat_add u64_max micros 5000 / 10000 in
  lit "$" ++ show_z (cents / 100) ++ lit "."
    ++ (if cents mod 100 <? 10 then lit "0" else []) ++ show_z (cents mod 100).

Section Gates.
(** UUIDs as text, and [%Y-%m-%d %H:%M]. *)
Context (uuid_text : uuid -> rstr) (format_minute : instant -> rstr).

Definition daily_gate_breach (budgets : budget_table) (turns : turn_table) (group : uuid) (now : instant)
  : result DbError (option DailyGateBreach) :=
  match budget_get budgets group with
  | None => Ok None
  | Some budget =>
      let? over := match gb_daily_token_cap budget with
                   | Some cap =>
                       let? used := tokens_since turns (uuid_text group) (utc_midnight now) in Ok (cap <=? used)
                   | None => Ok false
                   end in
      if over then Ok (Some Tokens)
      else
        match gb_daily_cost_micros budget with
        | Some cap =>
            let? spend := priced_spend_since turns (uuid_text group) (utc_midnight now) in
            Ok (if cap <=? ps_micros spend then Some (Cost (ps_micros spend) cap) else None)
        | None => Ok None
        end
  end.
(** What the credential broker asks at request time. *)
Definition broker_over_budget (budgets : budget_table) (turns : turn_table) (group : uuid) (now : instant)
  : result DbError bool :=
  let? breach := daily_gate_breach budgets turns group now in
  Ok (match breach with Some _ => true | None => false end).
Definition breach_text (breach : DailyGateBreach) (now : instant) : rstr :=
  let next_reset := format_minute (utc_midnight now + day_ns) in
  match breach with
  | Tokens =>
      lit "I have reached this agent's daily token budget. New requests will resume after " ++ next_reset
      ++ lit " UTC. Operators can raise the cap with `cclaw groups budget set --agent-group-id <id> --daily-tokens N`."
  | Cost spent cap =>
      lit "I have reached this agent's daily cost budget (" ++ format_cost_dollars spent ++ lit " of the "
      ++ format_cost_dollars cap ++ lit " daily cap spent today). New requests will resume after " ++ next_reset
      ++ lit " UTC. Operators can raise the cap with `cclaw budgets set --agent-group-id <id> --daily-cost N`."
  end.
Definition daily_budget_message (budgets : budget_table) (turns : turn_table) (group : uuid) (now : instant)
  : result DbError (option (rstr * CapGate)) :=
  let? breach := daily_gate_breach budgets turns group now in
  Ok (option_map (fun b => (breach_text b now, match b with Tokens => GateDailyTokens | Cost _ _ => GateDailyCost end))
        breach).

(** The count when a window holds at least as many turns as its cap. *)
Definition window_full (turns : turn_table) (group : uuid) (now : instant) (secs : Z) (cap : option Z)
  : option (Z * Z) :=
  match cap with
  | Some cap =>
      let count := turns_since turns (uuid_text group) (now - secs * ns_per_s) in
      if cap <=? count then Some (count, cap) else None
  | None => None
  end.
Definition rate_text (window resume flag : string) (p : Z * Z) : rstr :=
  lit "Per-" ++ lit window ++ lit " LLM rate limit reached for this agent (" ++ show_int (fst p)
  ++ lit " calls in the last " ++ lit window ++ lit ", cap is " ++ show_int (snd p) ++ lit "). New requests resume within "
  ++ lit resume ++ lit ". Operators can raise the cap with `cclaw groups budget set --agent-group-id <id> --turns-per-"
  ++ lit flag ++ lit " N`.".
Definition rate_limit_message (budgets : budget_table) (turns : turn_table) (group : uuid) (now : instant)
  : option (rstr * CapGate) :=
  match budget_get budgets group with
  | None => None
  | Some budget =>
      match window_full turns group now 60 (gb_turns_per_minute_cap budget) with
      | Some p => Some (rate_text "minute" "a minute" "minute" p, GateTurnsPerMinute)
      | None =>
          match window_full turns group now 3600 (gb_turns_per_hour_cap budget) with
          | Some p => Some (rate_text "hour" "the hour" "hour" p, GateTurnsPerHour)
          | None => None
          end
      end
  end.
End Gates.
Definition BUDGET_NOTICE_WINDOW_SECS : Z := 3600.
Definition RATE_LIMIT_NOTICE_WINDOW_SECS : Z := 60.

(** ** The [usage_report] row *)

Section Report.
Context `{Calendar}.

Definition pick_ts (k : string) (payload : json) : option instant := jget_str k payload ≫= parse_rfc3339.
Definition record_usage_report (payload : json) (now : instant) (t : turn_table) : turn_table :=
  match jget_str "session_id" payload, jget_str "agent_group_id" payload with
  | Some session, Some group =>
      turn_insert t
        (mkAgentTurn session group (default 0 (jget_i64 "seq" payload))
           (default (lit "unknown") (jget_str "model" payload))
           (default (lit "unknown") (jget_str "provider" payload))
           (default 0 (jget_i64 "input_tokens" payload)) (default 0 (jget_i64 "output_tokens" payload))
           (default now (pick_ts "started_at" payload)) (default now (pick_ts "ended_at" payload))
           (default (lit "ok") (jget_str "status" payload)) (jget_str "error" payload))
  | _, _ => t
  end.
End Report.
