(* ===== verification/BudgetsProps.v ===== *)
(** The daily caps: once closed, the gate stays closed until midnight and opens
    then, as long as the reports are honest; and a single dishonest report opens
    or closes the gate of any group. *)
From S2P Require Import Prelude Types Grants Schedule ScheduleProps Budgets.

(** ** Sums *)

Section Sums.
Implicit Types (l : list Z) (t : list AgentTurn).

Lemma is_i64_true n : i64_min <= n <= i64_max -> is_i64 n = true.
Proof. intros [Hlo Hhi]. apply andb_true_intro. split; by apply Z.leb_le. Qed.
Lemma sql_sum_app acc l1 l2 : sql_sum acc (l1 ++ l2) = rbind (sql_sum acc l1) (fun a => sql_sum a l2).
Proof. revert acc. induction l1 as [|n l1 IH]; intros acc; cbn; [done|]. by destruct (is_i64 _). Qed.
Lemma sql_sum_grows acc l v : Forall (fun n => 0 <= n) l -> sql_sum acc l = Ok v -> acc <= v.
Proof.
  intros Hl. revert acc. induction Hl as [|n l Hn _ IH]; intros acc; cbn; [intros [= ->]; lia|].
  destruct (is_i64 _); [|done]. intros E%IH. lia.
Qed.
Lemma sql_sum_i64 acc l v : is_i64 acc = true -> sql_sum acc l = Ok v -> is_i64 v = true.
Proof.
  revert acc. induction l as [|n l IH]; intros acc Ha; cbn; [by intros [= <-]|].
  destruct (is_i64 (acc + n)) eqn:E; [|done]. by apply IH.
Qed.
Definition tokens (r : AgentTurn) : Z := at_input_tokens r + at_output_tokens r.
Lemma tokens_since_Ok t group since v :
  tokens_since t group since = Ok v ->
  forallb is_i64 (map tokens (List.filter (in_window group since) t)) = true
  /\ sql_sum 0 (map tokens (List.filter (in_window group since) t)) = Ok v.
Proof. unfold tokens_since, tokens. destruct (forallb _ _) eqn:E; [done | discriminate]. Qed.
Lemma tokens_since_app t t' group since v :
  tokens_since t group since = Ok v ->
  tokens_since (t ++ t') group since
  = (let more := map tokens (List.filter (in_window group since) t') in
     if forallb is_i64 more then sql_sum v more else Err SqliteConversion).
Proof.
  intros (Eall & E)%tokens_since_Ok. unfold tokens_since. fold tokens. cbv zeta.
  rewrite List.filter_app, map_app, forallb_app. fold tokens in *.
  change (fun r => at_input_tokens r + at_output_tokens r) with tokens. rewrite Eall. cbn [andb].
  destruct (forallb _ _); [|done]. by rewrite sql_sum_app, E.
Qed.
End Sums.

(** ** The gate over a day *)

Section Day.
Context (uuid_text : uuid -> rstr).
Implicit Types (budgets : list GroupBudget) (turns more : list AgentTurn) (group : uuid) (now : instant).
Abbreviation breach := (daily_gate_breach uuid_text) (only parsing).

Lemma token_gate budgets turns group now b cap used :
  budget_get budgets group = Some b -> gb_daily_token_cap b = Some cap ->
  tokens_since turns (uuid_text group) (utc_midnight now) = Ok used ->
  breach budgets turns group now
  = if cap <=? used then Ok (Some Tokens)
    else match gb_daily_cost_micros b with
         | Some cost => let? spend := priced_spend_since turns (uuid_text group) (utc_midnight now) in
                        Ok (if cost <=? ps_micros spend then Some (Cost (ps_micros spend) cost) else None)
         | None => Ok None
         end.
Proof. intros Hb Hc Hu. unfold daily_gate_breach. rewrite Hb, Hc, Hu. cbn [rbind]. by destruct (cap <=? used). Qed.
Lemma token_gate_inv budgets turns group now b cap :
  budget_get budgets group = Some b -> gb_daily_token_cap b = Some cap ->
  breach budgets turns group now = Ok (Some Tokens) ->
  exists used, tokens_since turns (uuid_text group) (utc_midnight now) = Ok used /\ cap <= used.
Proof.
  intros Hb Hc Hbr. destruct (tokens_since turns (uuid_text group) (utc_midnight now)) as [used|e] eqn:Hu.
  - rewrite (token_gate _ _ _ _ b cap used) in Hbr by done. exists used. split; [done|].
    destruct (Z.leb_spec cap used); [done|]. destruct (gb_daily_cost_micros b) as [cost|]; [|done].
    destruct (priced_spend_since _ _ _); [|done]. cbn [rbind] in Hbr. by destruct (cost <=? _).
  - unfold daily_gate_breach in Hbr. by rewrite Hb, Hc, Hu in Hbr.
Qed.
Lemma no_turns_today turns since (g : rstr) :
  (forall r, In r turns -> at_ended_at r < since) -> List.filter (in_window g since) turns = []
  /\ group_keys turns since = [].
Proof.
  intros Hold.
  assert (forall p : AgentTurn -> bool, (forall r, In r turns -> p r = false) -> List.filter p turns = []) as Hf.
  { intros p Hp. clear Hold. induction turns as [|r l IH]; [done|]. cbn [List.filter]. rewrite (Hp r) by by left.
    apply IH. intros x Hx. apply Hp. by right. }
  split; [|unfold group_keys; rewrite Hf; [done|]].
  - apply Hf. intros r Hr. unfold in_window. destruct (Z.leb_spec since (at_ended_at r)); [|apply andb_false_r].
    specialize (Hold r Hr). lia.
  - intros r Hr. apply Z.leb_gt. by apply Hold.
Qed.

(** Once a group has used its daily tokens, the gate stays closed until
    midnight whatever turns are recorded, and no error opens it, as long as no
    turn reports a negative number; after midnight, before the first turn of the
    day, a group with positive caps is let through again. *)
Theorem gate_closed_until_midnight budgets turns group now b cap :
  budget_get budgets group = Some b -> gb_daily_token_cap b = Some cap ->
  breach budgets turns group now = Ok (Some Tokens) ->
  (forall more now' r, utc_midnight now' = utc_midnight now -> Forall (fun r => 0 <= tokens r) more ->
     breach budgets (turns ++ more) group now' = Ok r -> r = Some Tokens)
  /\ (forall now', 0 < cap -> (forall cost, gb_daily_cost_micros b = Some cost -> 0 < cost) ->
        (forall r, In r turns -> at_ended_at r < utc_midnight now') -> breach budgets turns group now' = Ok None).
Proof.
  intros Hb Hc Hbr. split.
  - intros more now' r Hday Hpos Hr. destruct (token_gate_inv _ _ _ _ b cap Hb Hc Hbr) as (used & Hu & Hle).
    pose proof (tokens_since_app turns more (uuid_text group) (utc_midnight now) used Hu) as Ha. cbv zeta in Ha.
    rewrite <- Hday in *.
    destruct (tokens_since (turns ++ more) (uuid_text group) (utc_midnight now')) as [used'|e] eqn:Hu'.
    + rewrite (token_gate _ _ _ _ b cap used') in Hr by done.
      destruct (forallb _ _); [|done]. symmetry in Ha. apply sql_sum_grows in Ha.
      * destruct (Z.leb_spec cap used'); [by injection Hr as <- | lia].
      * apply List.Forall_map. apply List.Forall_forall. intros x Hx. apply filter_In in Hx as [Hx _].
        rewrite List.Forall_forall in Hpos. by apply Hpos.
    + unfold daily_gate_breach in Hr. by rewrite Hb, Hc, Hu' in Hr.
  - intros now' Hcap Hcost Hold. destruct (no_turns_today turns (utc_midnight now') (uuid_text group) Hold) as [Ef Ek].
    rewrite (token_gate _ _ _ _ b cap 0); [|done..|by unfold tokens_since; rewrite Ef].
    destruct (Z.leb_spec cap 0); [lia|]. destruct (gb_daily_cost_micros b) as [cost|]; [|done].
    unfold priced_spend_since, rollup_by_model_since. rewrite Ek. unfold group_usage. rewrite Ef. cbn [all_usable rbind model_keys usages_of order_by fold_left ps_micros].
    specialize (Hcost cost eq_refl). destruct (Z.leb_spec cost 0); [lia | done].
Qed.
End Day.

(** ** Forged reports *)

Section Forged.
Context `{Calendar} (uuid_text : uuid -> rstr).

(** A report that names the group, whoever sends it. *)
Definition forged_report (sender : rstr) (group : rstr) (n : Z) : json :=
  JObj [("session_id", JStr sender); ("agent_group_id", JStr group); ("output_tokens", JNum n)]%string.
Lemma forged_recorded sender group n now turns :
  is_i64 n = true ->
  record_usage_report (forged_report sender group n) now turns
  = turns ++ [mkAgentTurn sender group 0 (lit "unknown") (lit "unknown") 0 n now now (lit "ok") None].
Proof.
  intros Hn. unfold record_usage_report, forged_report, pick_ts, jget_i64, jget_str, jget. cbn.
  unfold is_i64 in Hn. by rewrite Hn.
Qed.

(** The host does not check who reports usage, nor for which group, nor that
    the numbers are positive.  So any container can open the token gate of any
    group, its own included, whose cap is used up; and close the gate of any
    group that has a cap, with one row of its outbox. *)
Theorem usage_report_forged sender budgets turns group now b cap used :
  budget_get budgets group = Some b -> gb_daily_token_cap b = Some cap -> 0 <= cap <= i64_max ->
  gb_daily_cost_micros b = None -> tokens_since turns (uuid_text group) (utc_midnight now) = Ok used ->
  (cap <= used ->
     daily_gate_breach uuid_text budgets turns group now = Ok (Some Tokens)
     /\ exists n, daily_gate_breach uuid_text budgets
                    (record_usage_report (forged_report sender (uuid_text group) n) now turns) group now = Ok None)
  /\ (used < cap ->
     daily_gate_breach uuid_text budgets turns group now = Ok None
     /\ (0 <= used -> exists n, daily_gate_breach uuid_text budgets
                    (record_usage_report (forged_report sender (uuid_text group) n) now turns) group now = Ok (Some Tokens))).
Proof.
  intros Hb Hc Hcap Hcost Hu.
  assert (is_i64 used = true) as Hi by (apply tokens_since_Ok in Hu as [_ Hu]; by eapply sql_sum_i64, Hu).
  unfold is_i64, i64_min, i64_max in *. apply andb_prop in Hi as [Hlo%Z.leb_le Hhi%Z.leb_le].
  assert (forall n, -9223372036854775808 <= n <= 9223372036854775807 -> -9223372036854775808 <= used + n <= 9223372036854775807 ->
            tokens_since (record_usage_report (forged_report sender (uuid_text group) n) now turns) (uuid_text group)
              (utc_midnight now) = Ok (used + n)) as Hn.
  { intros n Hn Hs. rewrite forged_recorded by by apply is_i64_true.
    rewrite (tokens_since_app _ _ _ _ used Hu). unfold in_window. cbn [List.filter at_agent_group_id at_ended_at].
    rewrite rstr_eqb_refl.
    assert ((utc_midnight now <=? now) = true) as ->.
    { apply Z.leb_le. unfold utc_midnight. assert (0 < day_ns) as Hd by done. pose proof (Z.mod_pos_bound now day_ns Hd). lia. }
    cbn [map andb forallb tokens at_input_tokens at_output_tokens]. unfold tokens. cbn [at_input_tokens at_output_tokens].
    assert (is_i64 (0 + n) = true) as -> by (apply is_i64_true; unfold i64_min, i64_max; lia).
    cbn [andb sql_sum].
    assert (is_i64 (used + (0 + n)) = true) as -> by (apply is_i64_true; unfold i64_min, i64_max; lia).
    done. }
  split; intros Hle; (split; [rewrite (token_gate _ _ _ _ _ b cap used) by done|]).
  - by destruct (Z.leb_spec cap used); [|lia].
  - exists (cap - 1 - used). rewrite (token_gate _ _ _ _ _ b cap (cap - 1)) by (done || (rewrite Hn; [f_equal; lia | lia | lia])).
    destruct (Z.leb_spec cap (cap - 1)); [lia | by rewrite Hcost].
  - destruct (Z.leb_spec cap used); [lia | by rewrite Hcost].
  - intros Hpos. exists (cap - used). rewrite (token_gate _ _ _ _ _ b cap cap) by (done || (rewrite Hn; [f_equal; lia | lia | lia])).
    by destruct (Z.leb_spec cap cap); [|lia].
Qed.
End Forged.

(** ** Instances *)

Module BudgetWitnesses.
Import ScheduleProps.ScheduleWitnesses.
#[local] Existing Instance demo_calendar.

Definition budgets : list GroupBudget := [mkBudget 1 (Some 1000) None None None 0].
Definition noon : instant := 43200 * ns_per_s.
Definition used_up : list AgentTurn :=
  [mkAgentTurn (lit "s") (show_z 1) 0 (lit "m") (lit "p") 700 400 0 0 (lit "ok") None].
Lemma gate_closed_until_midnight_witness :
  daily_gate_breach show_z budgets used_up 1 noon = Ok (Some Tokens)
  /\ daily_gate_breach show_z budgets used_up 1 (noon + day_ns) = Ok None.
Proof.
  split; [vm_compute; reflexivity|].
  destruct (gate_closed_until_midnight show_z budgets used_up 1 noon (mkBudget 1 (Some 1000) None None None 0) 1000)
    as [_ Hopen]; [reflexivity | reflexivity | vm_compute; reflexivity|].
  apply Hopen; [lia | intros cost Hx; discriminate Hx |]. intros r [<-|[]]. vm_compute. reflexivity.
Defined.
Lemma usage_report_forged_witness :
  exists n, daily_gate_breach show_z budgets
              (record_usage_report (forged_report (lit "other") (show_z 1) n) noon used_up) 1 noon = Ok None.
Proof.
  destruct (usage_report_forged show_z (lit "other") budgets used_up 1 noon (mkBudget 1 (Some 1000) None None None 0) 1000 1100)
    as [Hopen _]; [reflexivity | reflexivity | unfold i64_max; lia | reflexivity | vm_compute; reflexivity|].
  apply Hopen. lia.
Defined.
End BudgetWitnesses.
