(* ===== verification/Broker.v ===== *)
(** The credential broker of the host
    ([copperclaw-host/src/container_manager/broker.rs], [broker_server.rs]): the tokens a
    container gets in place of the provider's key, their check, and the request that goes
    upstream with the key.

    Seconds since the epoch are the numbers of the code.  A header's value is [None] when
    it is not text.  The lock around the revocations recovers from poisoning, so that the
    state is what the last writer left. *)
From S2P Require Import Prelude Types Grants Schedule Budgets.

(** SHA-256, the [hex] crate and the text of ids. *)
Class Codec : Type := {
  sha256 : list Z -> list Z;
  hex_encode : list Z -> rstr;
  hex_decode : rstr -> option (list Z);
  id_text : uuid -> rstr;
  parse_id : rstr -> option uuid;
}.
Definition bytes (l : list Z) : Prop := Forall (fun b => 0 <= b < 256) l.
(** What they promise: a digest is made of bytes, hex reads back what it wrote and writes
    no separator, the same holds of ids, and both write ASCII. *)
Class CodecLaws `{Codec} : Prop := {
  sha256_bytes : forall m, bytes (sha256 m);
  hex_roundtrip : forall b, bytes b -> hex_decode (hex_encode b) = Some b;
  hex_ascii : forall b c, bytes b -> In c (hex_encode b) -> 0 <= c < 128 /\ c <> chr ".";
  id_roundtrip : forall u, parse_id (id_text u) = Some u;
  id_ascii : forall u c, In c (id_text u) -> 0 <= c < 128 /\ c <> chr ":";
}.

Definition SIGNING_KEY_LEN : nat := 32.
Definition TOKEN_PREFIX : rstr := lit "cct1".
Definition DEFAULT_TOKEN_TTL_SECS : Z := 3600.
Definition DEFAULT_ANTHROPIC_BASE_URL : rstr := lit "https://api.anthropic.com".

Record TokenClaims : Type := mkClaims {
  tc_session_id : uuid;
  tc_agent_group_id : uuid;
  tc_issued_at : Z;
  tc_expires_at : Z;
}.
Inductive TokenError : Type := Malformed | BadSignature | Expired | Revoked.

(** ** Revocation *)

Record Revocations : Type := mkRevocations {
  rv_sessions : gset uuid;
  rv_group_min_issued_at : gmap uuid Z;
}.
Definition no_revocations : Revocations := mkRevocations ∅ ∅.
Definition revoke_session (s : uuid) (r : Revocations) : Revocations :=
  mkRevocations ({[s]} ∪ rv_sessions r) (rv_group_min_issued_at r).
Definition revoke_group_before (g : uuid) (as_of : Z) (r : Revocations) : Revocations :=
  let slot := default 0 (rv_group_min_issued_at r !! g) in
  mkRevocations (rv_sessions r) (<[g := Z.max slot as_of]> (rv_group_min_issued_at r)).
Definition is_revoked (r : Revocations) (c : TokenClaims) : bool :=
  if bool_decide (tc_session_id c ∈ rv_sessions r) then true
  else match rv_group_min_issued_at r !! tc_agent_group_id c with
       | Some watermark => tc_issued_at c <? watermark
       | None => false
       end.

(** ** Tokens *)

Section Tokens.
Context `{Codec}.

(** The key padded to a block of SHA-256 and masked. *)
Definition masked (key : list Z) (mask : Z) : list Z :=
  map (fun k => Z.lxor mask k) (key ++ replicate (64 - length key) 0).
Definition sign (key msg : list Z) : list Z :=
  sha256 (masked key 92 ++ sha256 (masked key 54 ++ msg)).

Definition raw_payload (c : TokenClaims) : rstr :=
  id_text (tc_session_id c) ++ lit ":" ++ id_text (tc_agent_group_id c) ++ lit ":"
  ++ show_z (tc_issued_at c) ++ lit ":" ++ show_z (tc_expires_at c).
Definition encode_payload (c : TokenClaims) : rstr := hex_encode (utf8 (raw_payload c)).
Definition decode_payload (payload : rstr) : option TokenClaims :=
  match hex_decode payload ≫= from_utf8 with
  | Some s =>
      match split_char (chr ":") s with
      | [session; group; issued; expires] =>
          match parse_id session, parse_id group, parse_uint u64_max issued, parse_uint u64_max expires with
          | Some s, Some g, Some i, Some e => Some (mkClaims s g i e)
          | _, _, _, _ => None
          end
      | _ => None
      end
  | None => None
  end.

(** All bytes are looked at, whatever the first differs. *)
Fixpoint differences (diff : Z) (a b : list Z) : Z :=
  match a, b with
  | x :: a', y :: b' => differences (Z.lor diff (Z.lxor x y)) a' b'
  | _, _ => diff
  end.
Definition constant_time_eq (a b : list Z) : bool :=
  if (length a =? length b)%nat then differences 0 a b =? 0 else false.

Definition token_of (payload sig : rstr) : rstr := TOKEN_PREFIX ++ lit "." ++ payload ++ lit "." ++ sig.
Definition mint (key : list Z) (session group : uuid) (issued_at ttl : Z) : rstr :=
  let payload := encode_payload (mkClaims session group issued_at (sat_add u64_max issued_at ttl)) in
  token_of payload (hex_encode (sign key (utf8 payload))).
Definition validate (key : list Z) (token : rstr) (now : Z) (r : Revocations) : result TokenError TokenClaims :=
  match split_char (chr ".") token with
  | [prefix; payload; sig_hex] =>
      if negb (rstr_eqb prefix TOKEN_PREFIX) then Err Malformed
      else
        match hex_decode sig_hex with
        | None => Err Malformed
        | Some provided =>
            if negb (constant_time_eq provided (sign key (utf8 payload))) then Err BadSignature
            else
              match decode_payload payload with
              | None => Err Malformed
              | Some claims =>
                  if tc_expires_at claims <=? now then Err Expired
                  else if is_revoked r claims then Err Revoked
                  else Ok claims
              end
        end
  | _ => Err Malformed
  end.

Inductive BudgetVerdict : Type := WithinBudget | OverBudget.
Inductive AuthzDecision : Type :=
  | Forward (c : TokenClaims)
  | Unauthorized (e : TokenError)
  | RefusedOverBudget (c : TokenClaims).
Definition authorize (key : list Z) (token : rstr) (now : Z) (r : Revocations)
    (budget_check : TokenClaims -> BudgetVerdict) : AuthzDecision :=
  match validate key token now r with
  | Err e => Unauthorized e
  | Ok claims => match budget_check claims with
                 | WithinBudget => Forward claims
                 | OverBudget => RefusedOverBudget claims
                 end
  end.
End Tokens.

(** ** What goes upstream *)

Inductive AuthScheme : Type := XApiKey | AuthorizationBearer.
Definition UpstreamRequest : Type := list (rstr * rstr).
Definition from_headers (headers : list (rstr * rstr)) : UpstreamRequest :=
  map (fun '(k, v) => (map to_ascii_lowercase k, v)) headers.
Definition x_api_key : rstr := lit "x-api-key".
Definition authorization : rstr := lit "authorization".
Definition is_auth (k : rstr) : bool := rstr_eqb k x_api_key || rstr_eqb k authorization.
Definition injected (scheme : AuthScheme) (real_key : rstr) : rstr * rstr :=
  match scheme with
  | XApiKey => (x_api_key, real_key)
  | AuthorizationBearer => (authorization, lit "Bearer " ++ real_key)
  end.
Definition with_injected_auth (r : UpstreamRequest) (scheme : AuthScheme) (real_key : rstr) : list (rstr * rstr) :=
  List.filter (fun p => negb (is_auth (fst p))) r ++ [injected scheme real_key].
Definition auth_scheme_for_provider (provider : option string) : AuthScheme :=
  match provider with
  | Some p => if String.eqb p "openrouter" then AuthorizationBearer else XApiKey
  | None => XApiKey
  end.

Record BrokerConfig : Type := mkBrokerConfig {
  bc_upstream_key : rstr;
  bc_upstream_base_url : rstr;
  bc_token_ttl : Z;
}.
Definition non_empty (s : rstr) : bool := match s with [] => false | _ => true end.
Definition keep {A} (p : A -> bool) (o : option A) : option A :=
  match o with Some a => if p a then Some a else None | None => None end.
Definition resolve (enabled : bool) (upstream_key upstream_base_url : option rstr) (ttl_override_secs : option Z)
  : option BrokerConfig :=
  if negb enabled then None
  else
    match keep non_empty upstream_key with
    | None => None
    | Some key =>
        Some (mkBrokerConfig key
                (default DEFAULT_ANTHROPIC_BASE_URL (keep non_empty upstream_base_url))
                (default DEFAULT_TOKEN_TTL_SECS (keep (fun s => 0 <? s) ttl_override_secs)))
    end.
Definition one_of (words : list string) (s : rstr) : bool := existsb (fun w => rstr_eqb (lit w) s) words.
Definition parse_enabled (raw : option rstr) : bool :=
  match option_map (fun s => map to_ascii_lowercase (trim s)) raw with
  | Some s => one_of ["1"; "true"; "yes"; "on"; "enable"; "enabled"]%string s
  | None => false
  end.

Record BrokerState : Type := mkBroker {
  bs_config : BrokerConfig;
  bs_keyring : list Z;
  bs_revocations : Revocations;
}.
Definition mint_for `{Codec} (b : BrokerState) (session group : uuid) (now : Z) : rstr :=
  mint (bs_keyring b) session group now (bc_token_ttl (bs_config b)).
Definition broker_revoke_session (session : uuid) (b : BrokerState) : BrokerState :=
  mkBroker (bs_config b) (bs_keyring b) (revoke_session session (bs_revocations b)).

(** ** The listener *)

Record Request : Type := mkRequest {
  rq_method : string;
  rq_path_and_query : rstr;
  rq_headers : list (rstr * option rstr);
  (** [None]: reading the body failed. *)
  rq_body : option (list Z);
}.
Record UpstreamCall : Type := mkCall {
  uc_method : string;
  uc_url : rstr;
  uc_headers : list (rstr * rstr);
  uc_body : list Z;
}.
Record Response : Type := mkResponse {
  rs_status : Z;
  rs_headers : list (rstr * rstr);
  rs_body : list Z;
}.
(** The headers of a request that authenticate it. *)
Definition auth_headers (call : UpstreamCall) : list (rstr * rstr) := List.filter (fun p => is_auth (fst p)) (uc_headers call).
Definition Answer : Type := (Z * list (rstr * option rstr) * option (list Z))%type.
(** What the client does about an answer: hand it over, send another request because the
    answer is a redirect, or give up on a redirect it cannot follow. *)
Inductive Redirect : Type := HandOver | Follow (next : UpstreamCall) | GiveUp.
(** The servers on the other side and the HTTP client's own part: one exchange on the wire
    ([None] when the request did not get through; headers that are not text included), the
    client's default policy for redirects, and the host and port a URL names. *)
Class Upstream : Type := {
  exchange : UpstreamCall -> option Answer;
  redirect : UpstreamCall -> Answer -> Redirect;
  origin : rstr -> rstr;
}.
(** What the client's documentation says of the request a redirect leads to: the body goes
    again or not at all, the headers that authenticate stay while the host and port do, and
    elsewhere [authorization] is dropped as sensitive; [x-api-key] is no header it knows. *)
Class RedirectLaws `{Upstream} : Prop := {
  follow_body : forall call answer next, redirect call answer = Follow next ->
    uc_body next = uc_body call \/ uc_body next = [];
  follow_auth : forall call answer next, redirect call answer = Follow next ->
    auth_headers next =
      if rstr_eqb (origin (uc_url next)) (origin (uc_url call)) then auth_headers call
      else List.filter (fun p => negb (rstr_eqb (fst p) authorization)) (auth_headers call);
}.
(** The longest chain of redirects of [reqwest]'s default policy. *)
Definition MAX_HOPS : nat := 10.
(** [send] of the client, which is built without a policy of its own: what the caller gets
    and the requests that went out for it. *)
Fixpoint send `{Upstream} (hops : nat) (call : UpstreamCall) : option Answer * list UpstreamCall :=
  match exchange call with
  | None => (None, [call])
  | Some answer =>
      match redirect call answer with
      | HandOver => (Some answer, [call])
      | GiveUp => (None, [call])
      | Follow next =>
          match hops with
          | O => (None, [call])
          | S hops' => let '(result, calls) := send hops' next in (result, call :: calls)
          end
      end
  end.

Definition header (name : rstr) (headers : list (rstr * option rstr)) : option rstr :=
  match List.find (fun p => rstr_eqb (fst p) name) headers with Some (_, v) => v | None => None end.
Definition extract_token (headers : list (rstr * option rstr)) : option rstr :=
  match header x_api_key headers with
  | Some v => Some v
  | None => header authorization headers ≫= strip_prefix (lit "Bearer ")
  end.
Definition text_headers (headers : list (rstr * option rstr)) : list (rstr * rstr) :=
  flat_map (fun '(k, v) => match v with Some v => [(k, v)] | None => [] end) headers.
Definition trim_end_slashes (s : rstr) : rstr := rev (trim_start_by (fun c => c =? chr "/") (rev s)).
Definition is_connection_header (k : rstr) : bool := one_of ["host"; "content-length"]%string k.
Definition plain_response (status : Z) (text : string) : Response := mkResponse status [] (lit text).

(** The reply and the requests sent upstream for it. *)
Definition handle `{Codec} `{Upstream} (b : BrokerState) (scheme : AuthScheme) (budget_check : uuid -> BudgetVerdict)
    (now : Z) (rq : Request) : Response * list UpstreamCall :=
  match rq_body rq with
  | None => (mkResponse 400 [] [], [])
  | Some body =>
      let token := default [] (extract_token (rq_headers rq)) in
      match authorize (bs_keyring b) token now (bs_revocations b) (fun c => budget_check (tc_agent_group_id c)) with
      | Unauthorized _ => (plain_response 401 "invalid broker token", [])
      | RefusedOverBudget _ => (plain_response 429 "agent group over budget", [])
      | Forward _ =>
          let base := trim_end_slashes (bc_upstream_base_url (bs_config b)) in
          let sent := with_injected_auth (from_headers (text_headers (rq_headers rq))) scheme
                        (bc_upstream_key (bs_config b)) in
          let call := mkCall (rq_method rq) (base ++ rq_path_and_query rq)
                        (List.filter (fun p => negb (is_connection_header (fst p))) sent) body in
          let '(result, calls) := send MAX_HOPS call in
          match result with
          | Some (status, headers, answer) => (mkResponse status (text_headers headers) (default [] answer), calls)
          | None => (plain_response 502 "upstream request failed", calls)
          end
      end
  end.
(** The verdict of [production_state]: a budget that cannot be read lets the call pass. *)
Definition production_verdict (group_text : uuid -> rstr) (budgets : budget_table) (turns : turn_table)
    (now : instant) (group : uuid) : BudgetVerdict :=
  match broker_over_budget group_text budgets turns group now with
  | Ok over => if over then OverBudget else WithinBudget
  | Err _ => WithinBudget
  end.
