(* ===== verification/BrokerProps.v ===== *)
(** What the credential broker guarantees: a token stands for its session until it expires
    or is revoked, a revocation is final, and the provider's key goes out only for a token
    that is signed, live and within its group's budget. *)
From S2P Require Import Prelude Types Grants Schedule Budgets Broker.

(** ** Comparison *)

Lemma differences_zero d a b : length a = length b -> differences d a b = 0 <-> d = 0 /\ a = b.
Proof.
  revert d b. induction a as [|x a IH]; intros d [|y b] Hl; try done; cbn [differences].
  - by split; [|intros [-> _]].
  - rewrite (IH _ b) by (injection Hl; done). rewrite Z.lor_eq_0_iff, Z.lxor_eq_0_iff.
    split; [by intros [[-> ->] ->] | by intros [-> [= -> ->]]].
Qed.
Lemma constant_time_eq_spec a b : constant_time_eq a b = true <-> a = b.
Proof.
  unfold constant_time_eq. destruct (Nat.eqb_spec (length a) (length b)) as [E|E].
  - rewrite Z.eqb_eq, (differences_zero 0 a b E). by split; [intros [_ ?] | intros ->].
  - split; [done | by intros ->].
Qed.

(** ** Three fields and a separator *)

Lemma split_char_absent d s : ~ In d s -> split_char d s = [s].
Proof. intros H. apply split_on_none. intros c Hc. apply Z.eqb_neq. by intros ->. Qed.
Lemma split_char_app d a s : ~ In d a -> split_char d (a ++ d :: s) = a :: split_char d s.
Proof.
  intros H. apply split_on_app; [|apply Z.eqb_refl]. intros c Hc. apply Z.eqb_neq. by intros ->.
Qed.
Lemma split_char_inv d s : match split_char d s with
                           | [] => False
                           | l :: ls => s = join d (l :: ls) /\ Forall (fun x => ~ In d x) (l :: ls)
                           end.
Proof.
  unfold split_char. induction s as [|c s IH]; cbn [split_on].
  - split; [done|]. apply Forall_singleton. by intros [].   
  - destruct (Z.eqb_spec c d) as [->|Hc].
    + destruct (split_on _ s) as [|l ls]; [done|]. destruct IH as [-> Hf].
      split; [done|]. constructor; [by intros [] | exact Hf].
    + destruct (split_on _ s) as [|l ls]; [done|]. destruct IH as [-> Hf].
      apply Forall_cons in Hf as [Hl Hf]. split; [by destruct ls|].
      constructor; [|done]. intros [->|Hin]; done.
Qed.

Section Tokens.
Context `{Codec}.

Lemma split_token payload sig : ~ In (chr ".") payload -> ~ In (chr ".") sig ->
  split_char (chr ".") (token_of payload sig) = [TOKEN_PREFIX; payload; sig].
Proof.
  intros Hp Hs. unfold token_of. change (lit ".") with [chr "."]. cbn [app].
  rewrite split_char_app by (vm_compute; intuition discriminate).
  by rewrite (split_char_app _ payload sig Hp), split_char_absent.
Qed.

(** Every token that passes has this shape. *)
Lemma validate_ok key token now r c :
  validate key token now r = Ok c <->
  exists payload sig, token = token_of payload sig /\ ~ In (chr ".") payload /\ ~ In (chr ".") sig
    /\ hex_decode sig = Some (sign key (utf8 payload)) /\ decode_payload payload = Some c
    /\ now < tc_expires_at c /\ is_revoked r c = false.
Proof.
  split.
  - unfold validate. pose proof (split_char_inv (chr ".") token) as Hs.
    destruct (split_char (chr ".") token) as [|p [|payload [|sig [|]]]]; try done.
    destruct Hs as [Ht Hf]. apply Forall_cons in Hf as [_ Hf]. apply Forall_cons in Hf as [Hp Hf].
    apply Forall_cons in Hf as [Hs _]. destruct (rstr_eqb p TOKEN_PREFIX) eqn:E; [|done]. apply rstr_eqb_eq in E as ->.
    destruct (hex_decode sig) as [provided|] eqn:Eh; [|done]. cbn [negb].
    destruct (constant_time_eq provided _) eqn:Ec; [|done]. apply constant_time_eq_spec in Ec as ->.
    cbn [negb]. destruct (decode_payload payload) as [c'|] eqn:Ed; [|done].
    destruct (Z.leb_spec (tc_expires_at c') now); [done|]. destruct (is_revoked r c') eqn:Er; [done|].
    intros [= <-]. by exists payload, sig.
  - intros (payload & sig & -> & Hp & Hs & Hh & Hd & Hn & Hr). unfold validate. rewrite split_token by done.
    rewrite rstr_eqb_refl, Hh. cbn [negb]. rewrite (proj2 (constant_time_eq_spec _ _) eq_refl). cbn [negb].
    by rewrite Hd, (proj2 (Z.leb_gt _ _) Hn), Hr.
Qed.

Lemma show_z_ascii n c : 0 <= n <= u64_max -> In c (show_z n) -> 0 <= c < 128 /\ c <> chr ":".
Proof.
  intros Hn Hc. destruct (show_z_spec n Hn) as (_ & _ & Hd). rewrite List.Forall_forall in Hd.
  specialize (Hd c Hc). unfold is_ascii_digit in Hd. apply andb_prop in Hd as [H1 H2].
  apply Z.leb_le in H1, H2. split; [lia | intros ->]. by vm_compute in H2.
Qed.
Lemma raw_payload_ascii `{!CodecLaws} c ch :
  0 <= tc_issued_at c <= u64_max -> 0 <= tc_expires_at c <= u64_max -> In ch (raw_payload c) -> 0 <= ch < 128.
Proof.
  intros Hi He. unfold raw_payload. rewrite !in_app_iff. change (lit ":") with [58]. cbn [In].
  intros [Hc | [[<-|[]] | [Hc | [[<-|[]] | [Hc | [[<-|[]] | Hc]]]]]]; try lia;
    [by eapply id_ascii | by eapply id_ascii | by eapply (show_z_ascii _ _ Hi) | by eapply (show_z_ascii _ _ He)].
Qed.
Lemma ascii_bytes s : (forall c, In c s -> 0 <= c < 128) -> bytes (utf8 s).
Proof.
  intros Ha. rewrite (proj1 (utf8_ascii _ Ha)). apply List.Forall_forall. intros c Hc. specialize (Ha c Hc). lia.
Qed.
Lemma payload_read `{!CodecLaws} c :
  0 <= tc_issued_at c <= u64_max -> 0 <= tc_expires_at c <= u64_max -> decode_payload (encode_payload c) = Some c.
Proof.
  intros Hi He. assert (forall ch, In ch (raw_payload c) -> 0 <= ch < 128) as Ha by eauto using raw_payload_ascii.
  unfold decode_payload, encode_payload. rewrite hex_roundtrip by by apply ascii_bytes. cbn [base.mbind option_bind].
  rewrite (proj1 (utf8_ascii _ Ha)), (from_utf8_ascii _ Ha). unfold raw_payload. change (lit ":") with [chr ":"].
  destruct c as [s g i e]. cbn [app tc_session_id tc_agent_group_id tc_issued_at tc_expires_at] in *.
  assert (forall u, ~ In (chr ":") (id_text u)) as Hid by (intros u Hin; by apply (id_ascii u) in Hin as [_ ?]).
  assert (forall n, 0 <= n <= u64_max -> ~ In (chr ":") (show_z n)) as Hz by (intros n Hn Hin; by apply (show_z_ascii n) in Hin as [_ ?]).
  rewrite (split_char_app _ _ _ (Hid s)), (split_char_app _ _ _ (Hid g)), (split_char_app _ _ _ (Hz i Hi)), (split_char_absent _ _ (Hz e He)).
  by rewrite !id_roundtrip, !parse_uint_show by lia.
Qed.

(** C16. A minted token is what its container says it is: until its lifetime is over and
    unless it was revoked it is accepted with its session and group, and then it is
    refused for that reason. *)
Theorem minted_token_validates `{!CodecLaws} key session group issued ttl now r :
  0 <= issued <= u64_max -> 0 <= ttl ->
  let c := mkClaims session group issued (sat_add u64_max issued ttl) in
  validate key (mint key session group issued ttl) now r =
    if tc_expires_at c <=? now then Err Expired else if is_revoked r c then Err Revoked else Ok c.
Proof.
  intros Hi Ht c. unfold mint. fold c.
  assert (0 <= tc_expires_at c <= u64_max) as He by (subst c; cbn [tc_expires_at]; unfold sat_add, u64_max in *; lia).
  assert (bytes (utf8 (raw_payload c))) as Hb by (apply ascii_bytes; intros ch; by apply raw_payload_ascii).
  unfold validate. rewrite split_token.
  - rewrite rstr_eqb_refl, hex_roundtrip by apply sha256_bytes. cbn [negb].
    rewrite (proj2 (constant_time_eq_spec _ _) eq_refl). cbn [negb]. by rewrite payload_read.
  - intros Hin. by apply hex_ascii in Hin as [_ ?].
  - intros Hin. by apply hex_ascii in Hin as [_ ?]; [|apply sha256_bytes].
Qed.

(** ** Revocation *)

Inductive revocation : Type := One (s : uuid) | GroupBefore (g : uuid) (as_of : Z).
Definition revoke (r : Revocations) (e : revocation) : Revocations :=
  match e with One s => revoke_session s r | GroupBefore g t => revoke_group_before g t r end.

Lemma revoke_mono r e c : is_revoked r c = true -> is_revoked (revoke r e) c = true.
Proof.
  unfold is_revoked. destruct e as [s|g t]; cbn [revoke rv_sessions rv_group_min_issued_at revoke_session revoke_group_before].
  - case_bool_decide as H1; [intros _; rewrite bool_decide_eq_true_2; [done | set_solver]|].
    intros Hr. case_bool_decide; done.
  - case_bool_decide; [done|]. destruct (decide (tc_agent_group_id c = g)) as [->|Hne].
    + rewrite lookup_insert_eq. destruct (rv_group_min_issued_at r !! g) as [m|]; [|done]. cbn [default].
      rewrite !Z.ltb_lt. unfold id. lia.
    + by rewrite lookup_insert_ne.
Qed.
Lemma revokes_mono es r c : is_revoked r c = true -> is_revoked (fold_left revoke es r) c = true.
Proof. revert r. induction es as [|e es IH]; intros r Hr; [done|]. apply IH, revoke_mono, Hr. Qed.

(** A revocation is final: a token that was refused as revoked is never accepted again,
    whatever is revoked later and whenever it is shown. *)
Theorem revoked_for_good key token now r es now' :
  validate key token now r = Err Revoked ->
  exists e, validate key token now' (fold_left revoke es r) = Err e /\ (e = Revoked \/ e = Expired).
Proof.
  unfold validate. destruct (split_char _ token) as [|p [|payload [|sig [|]]]]; try done.
  destruct (negb (rstr_eqb p _)); [done|]. destruct (hex_decode sig) as [provided|]; [|done].
  destruct (negb (constant_time_eq _ _)); [done|]. destruct (decode_payload payload) as [c|]; [|done].
  destruct (tc_expires_at c <=? now); [done|]. destruct (is_revoked r c) eqn:Hr; [|done]. intros _.
  rewrite (revokes_mono es r c Hr). destruct (tc_expires_at c <=? now'); eauto.
Qed.
End Tokens.

(** ** Requests *)

(** A header of the client after its name was made lower case. *)
Definition lowered (p : rstr * rstr) : rstr * rstr := (map to_ascii_lowercase (fst p), snd p).
Definition client_header (p : rstr * rstr) : bool := negb (is_auth (fst p)) && negb (is_connection_header (fst p)).

Lemma injected_is_auth scheme k : is_auth (fst (injected scheme k)) = true.
Proof. by destruct scheme. Qed.
Lemma injected_is_sent scheme k : is_connection_header (fst (injected scheme k)) = false.
Proof. by destruct scheme. Qed.
Lemma filter_none {A} (p : A -> bool) l : (forall x, In x l -> p x = false) -> List.filter p l = [].
Proof.
  induction l as [|x l IH]; intros Hl; [done|]. cbn. rewrite (Hl x) by by left. apply IH. intros y Hy. apply Hl. by right.
Qed.
Lemma filter_twice {A} (p q : A -> bool) l : List.filter q (List.filter p l) = List.filter (fun x => p x && q x) l.
Proof. induction l as [|x l IH]; cbn; [done|]. destruct (p x); cbn; [destruct (q x)|]; by rewrite IH. Qed.
Lemma from_headers_lowered hs : from_headers hs = map lowered hs.
Proof. unfold from_headers. apply map_ext. by intros [k v]. Qed.
(** What of the headers goes upstream: the client's own, and one that authenticates. *)
Lemma sent_headers hs scheme k :
  let sent := List.filter (fun p => negb (is_connection_header (fst p))) (with_injected_auth (from_headers hs) scheme k) in
  sent = List.filter client_header (map lowered hs) ++ [injected scheme k]
  /\ List.filter (fun p => is_auth (fst p)) sent = [injected scheme k].
Proof.
  cbv zeta. unfold with_injected_auth. rewrite from_headers_lowered, List.filter_app, filter_twice.
  cbn [List.filter]. rewrite injected_is_sent. cbn [negb].
  change (fun x => negb (is_auth (fst x)) && negb (is_connection_header (fst x))) with client_header.
  split; [done|]. rewrite List.filter_app. cbn [List.filter]. rewrite injected_is_auth.
  rewrite filter_none; [done|]. intros p Hp. apply filter_In in Hp as [_ Hp]. unfold client_header in Hp.
  apply andb_prop in Hp as [Hp _]. by apply negb_true_iff in Hp.
Qed.

(** The requests of one [send]: each but the first is what the client made of the answer to
    the one before it. *)
Fixpoint follows `{Upstream} (calls : list UpstreamCall) : Prop :=
  match calls with
  | call :: (next :: _) as rest =>
      (exists answer, exchange call = Some answer /\ redirect call answer = Follow next) /\ follows rest
  | _ => True
  end.
Lemma send_chain `{Upstream} hops call :
  exists rest, snd (send hops call) = call :: rest /\ (length rest <= hops)%nat /\ follows (call :: rest).
Proof.
  revert call. induction hops as [|hops IH]; intros call; cbn [send];
    destruct (exchange call) as [answer|] eqn:Ex; try (by exists []; repeat split; cbn; lia);
    destruct (redirect call answer) as [|next|] eqn:Er; try (by exists []; repeat split; cbn; lia).
  destruct (IH next) as (rest & Hs & Hl & Hf). destruct (send hops next) as [result calls]. cbn [snd] in *. subst calls.
  exists (next :: rest). cbn [length]. repeat split; [lia | by exists answer | done].
Qed.

Lemma rstr_neqb a b : a <> b -> rstr_eqb a b = false.
Proof. intros Hne. destruct (rstr_eqb a b) eqn:E; [by apply rstr_eqb_eq in E | done]. Qed.
(** What the client's rules leave of the one header that authenticates: [x-api-key] wherever
    the redirects lead, a bearer key only on the host the first request went to. *)
Definition carries_only `{Upstream} (scheme : AuthScheme) (key : rstr) (first call : UpstreamCall) : Prop :=
  match scheme with
  | XApiKey => auth_headers call = [injected scheme key]
  | AuthorizationBearer =>
      auth_headers call = []
      \/ auth_headers call = [injected scheme key] /\ origin (uc_url call) = origin (uc_url first)
  end.
Lemma follow_carries `{RedirectLaws} scheme key first call answer next :
  redirect call answer = Follow next -> carries_only scheme key first call -> carries_only scheme key first next.
Proof.
  intros Hr. pose proof (follow_auth _ _ _ Hr) as Ha. destruct (rstr_eqb _ _) eqn:Eo.
  - apply rstr_eqb_eq in Eo. unfold carries_only. by rewrite Ha, Eo.
  - unfold carries_only. destruct scheme; cbn [injected].
    + intros E. rewrite Ha, E. by vm_compute.
    + intros [E | [E _]]; left; by rewrite Ha, E.
Qed.
Lemma chain_carries `{RedirectLaws} scheme key first call rest :
  follows (call :: rest) -> carries_only scheme key first call -> uc_body call = uc_body first \/ uc_body call = [] ->
  Forall (fun c => carries_only scheme key first c /\ (uc_body c = uc_body first \/ uc_body c = [])) (call :: rest).
Proof.
  revert call. induction rest as [|next rest IH]; intros call Hf Hc Hb; constructor; try done.
  destruct Hf as [(answer & _ & Hr) Hf]. apply IH; [done | by eapply follow_carries|].
  destruct (follow_body _ _ _ Hr) as [-> | ->]; [done | by right].
Qed.

(** C15. The provider's key leaves the host only for a token that is signed, live, not
    revoked and of a group within its budget; any other request is answered here, and
    nothing is sent.  The first request goes to the configured provider's URL followed by
    the path asked for, with the client's method and body, its headers that do not
    authenticate, and the key in the one header that does.  At most ten more follow, each
    the HTTP client's own answer to a redirect of the server before it: they authenticate
    with that header or not at all, and carry the client's body or none.  A bearer key
    leaves no host but the first's; a key in [x-api-key] goes wherever the redirects lead. *)
Theorem key_only_for_token `{Codec} `{RedirectLaws} b scheme check now rq :
  let key := bc_upstream_key (bs_config b) in
  let '(resp, calls) := handle b scheme check now rq in
  (calls = [] /\ In (rs_status resp) [400; 401; 429])
  \/ exists payload sig c body call more,
       extract_token (rq_headers rq) = Some (token_of payload sig)
       /\ hex_decode sig = Some (sign (bs_keyring b) (utf8 payload)) /\ decode_payload payload = Some c
       /\ now < tc_expires_at c /\ is_revoked (bs_revocations b) c = false
       /\ check (tc_agent_group_id c) = WithinBudget
       /\ rq_body rq = Some body /\ calls = call :: more /\ (length more <= 10)%nat /\ follows calls
       /\ call = mkCall (rq_method rq) (trim_end_slashes (bc_upstream_base_url (bs_config b)) ++ rq_path_and_query rq)
                   (List.filter client_header (map lowered (text_headers (rq_headers rq))) ++ [injected scheme key]) body
       /\ auth_headers call = [injected scheme key]
       /\ Forall (fun c => carries_only scheme key call c /\ (uc_body c = body \/ uc_body c = [])) calls.
Proof.
  intros key. unfold handle. destruct (rq_body rq) as [body|]; [|left; cbn; auto].
  unfold authorize. destruct (validate _ _ _ _) as [c|e] eqn:Ev; [|left; cbn; auto].
  destruct (check _) eqn:Eb; [|left; cbn; auto 10].
  apply validate_ok in Ev as (payload & sig & Et & _ & _ & Hh & Hd & Hn & Hr).
  destruct (sent_headers (text_headers (rq_headers rq)) scheme key) as [Hs Ha]. fold key.
  assert (extract_token (rq_headers rq) = Some (token_of payload sig)) as Ex.
  { destruct (extract_token _) as [t|]; [cbn in Et; by rewrite Et | done]. }
  cbv zeta in Hs, Ha |- *. rewrite Hs in *. set (call := mkCall _ _ _ _).
  assert (carries_only scheme key call call) as Hc by (unfold carries_only, auth_headers; cbn [uc_headers call]; rewrite Ha; destruct scheme; auto).
  destruct (send_chain MAX_HOPS call) as (more & Hcalls & Hl & Hf). destruct (send MAX_HOPS call) as [result calls]. cbn [snd] in Hcalls.
  pose proof (chain_carries scheme key call call more Hf Hc (or_introl eq_refl)) as Hall. rewrite <- Hcalls in Hf, Hall.
  destruct result as [[[status hs] answer]|]; right; by exists payload, sig, c, body, call, more.
Qed.

(** ** A broker at work *)

Module BrokerDemo.
Definition digit (d : Z) : rchar := if d <? 10 then 48 + d else 87 + d.
Definition value (c : rchar) : option Z :=
  if is_ascii_digit c then Some (c - 48)
  else if (97 <=? c) && (c <=? 102) then Some (c - 87)
  else if (65 <=? c) && (c <=? 70) then Some (c - 55) else None.
Fixpoint unhex (s : rstr) : option (list Z) :=
  match s with
  | [] => Some []
  | h :: l :: s' => match value h, value l, unhex s' with
                    | Some x, Some y, Some r => Some (x * 16 + y :: r)
                    | _, _, _ => None
                    end
  | _ => None
  end.
Definition tally (u : uuid) : rstr := (if u <? 0 then [chr "-"] else []) ++ replicate (Z.to_nat (Z.abs u)) (chr "i").
Definition untally (s : rstr) : option uuid :=
  Some (match s with
        | c :: r => if c =? chr "-" then - Z.of_nat (length r) else Z.of_nat (length s)
        | [] => 0
        end).
(** The digest of the demonstration is a sum of the bytes with their places. *)
Definition sum_digest (m : list Z) : list Z := [fold_left (fun a b => a * 31 + b) m 7 mod 256].
#[export] Instance demo_codec : Codec := {|
  sha256 := sum_digest;
  hex_encode := flat_map (fun b => [digit (b / 16); digit (b mod 16)]);
  hex_decode := unhex;
  id_text := tally;
  parse_id := untally;
|}.
Lemma value_digit d : 0 <= d < 16 -> value (digit d) = Some d.
Proof.
  intros Hd. unfold digit, value, is_ascii_digit.
  destruct (Z.ltb_spec d 10).
  - rewrite (proj2 (Z.leb_le 48 (48 + d))), (proj2 (Z.leb_le (48 + d) 57)) by lia. cbn [andb]. f_equal. lia.
  - rewrite (proj2 (Z.leb_gt (87 + d) 57)) by lia. rewrite andb_false_r.
    rewrite (proj2 (Z.leb_le 97 (87 + d))), (proj2 (Z.leb_le (87 + d) 102)) by lia. cbn [andb]. f_equal. lia.
Qed.
Lemma digit_ascii d : 0 <= d < 16 -> 0 <= digit d < 128 /\ digit d <> chr ".".
Proof. intros Hd. unfold digit. change (chr ".") with 46. destruct (Z.ltb_spec d 10); lia. Qed.
#[export] Instance demo_laws : CodecLaws.
Proof.
  assert (forall b, 0 <= b < 256 -> 0 <= b / 16 < 16 /\ 0 <= b mod 16 < 16) as Hb.
  { intros b Hb. Z.div_mod_to_equations. lia. }
  constructor.
  - intros m. constructor; [|constructor]. by apply Z.mod_pos_bound.
  - induction 1 as [|b l H _ IH]; [done|]. destruct (Hb b H) as [H1 H2]. cbn [hex_encode hex_decode demo_codec flat_map app unhex] in *.
    rewrite !value_digit, IH by done. do 2 f_equal. Z.div_mod_to_equations. lia.
  - intros b c Hl Hin. cbn [hex_encode demo_codec] in Hin. apply in_flat_map in Hin as (x & Hx & Hin).
    unfold bytes in Hl. rewrite List.Forall_forall in Hl. destruct (Hb x (Hl x Hx)) as [H1 H2]. destruct Hin as [<- | [<- | []]]; by apply digit_ascii.
  - intros u. cbn. unfold tally, untally. destruct (Z.ltb_spec u 0) as [Hu|Hu]; cbn [app].
    + rewrite Z.eqb_refl, length_replicate. f_equal. lia.
    + destruct (Z.to_nat (Z.abs u)) as [|n] eqn:En; cbn [replicate]; [f_equal; lia|].
      change (chr "i" =? chr "-") with false. cbn [length]. rewrite length_replicate. f_equal. lia.
  - intros u c. cbn. unfold tally. rewrite in_app_iff. intros [Hc|Hc].
    + destruct (u <? 0); [destruct Hc as [<-|[]] | done]. by vm_compute.
    + apply list_elem_of_In, elem_of_replicate in Hc as [-> _]. by vm_compute.
Qed.

Definition key : list Z := [6].
Definition token : rstr := mint key 1 2 100 3600.
Lemma minted_token_validates_witness :
  validate key token 200 no_revocations = Ok (mkClaims 1 2 100 3700)
  /\ validate key token 3700 no_revocations = Err Expired.
Proof.
  unfold token. rewrite !(minted_token_validates key 1 2 100 3600) by (unfold u64_max; lia). by vm_compute.
Defined.
Lemma revoked_for_good_witness :
  exists e, validate key token 9000 (fold_left revoke [GroupBefore 2 50] (revoke_session 1 no_revocations)) = Err e
    /\ (e = Revoked \/ e = Expired).
Proof. apply (revoked_for_good key token 200). by vm_compute. Defined.

Definition broker : BrokerState := mkBroker (mkBrokerConfig (lit "sk-real") (lit "https://model/") 3600) key no_revocations.
(** A provider that answers, and in front of it a host that redirects each request there. *)
Definition front : rstr := lit "https://model/v1/messages".
Definition elsewhere : rstr := lit "https://other/".
Definition onward (call : UpstreamCall) : UpstreamCall :=
  mkCall (uc_method call) elsewhere
    (if rstr_eqb elsewhere (uc_url call) then uc_headers call
     else List.filter (fun p => negb (rstr_eqb (fst p) authorization)) (uc_headers call)) (uc_body call).
#[export] Instance demo_upstream : Upstream := {|
  exchange := fun call => Some (if rstr_eqb (uc_url call) (front ++ lit "?r") then 307 else 200, [], Some []);
  redirect := fun call '(status, _, _) => if status =? 307 then Follow (onward call) else HandOver;
  origin := fun url => url;
|}.
#[export] Instance demo_redirects : RedirectLaws.
Proof.
  split; intros call [[status hs] body] next; cbn [redirect demo_upstream]; destruct (status =? 307); intros E; try discriminate E;
    assert (next = onward call) as -> by congruence; unfold onward, auth_headers; cbn [origin demo_upstream uc_url uc_headers uc_body].
  - by left.
  - destruct (rstr_eqb elsewhere _); [done|]. rewrite !filter_twice. apply List.filter_ext. intros p. by rewrite andb_comm.
Qed.
Definition request_for (path : string) (token : rstr) : Request :=
  mkRequest "POST" (lit path) [(lit "x-api-key", Some token); (lit "Accept", Some (lit "*"))] (Some [7]).
Definition ask_for (path : string) (scheme : AuthScheme) (now : Z) (b : BrokerState) (token : rstr) : Z * list UpstreamCall :=
  let '(r, calls) := handle b scheme (fun _ => WithinBudget) now (request_for path token) in (rs_status r, calls).
Definition ask : Z -> BrokerState -> rstr -> Z * list UpstreamCall := ask_for "/v1/messages" XApiKey.
(** A call that is forwarded. *)
Definition model_call (headers : list (rstr * rstr)) : UpstreamCall :=
  mkCall "POST" (lit "https://model/v1/messages") ((lit "accept", lit "*") :: headers) [7].
Example key_is_swapped_in : ask 200 broker token = (200, [model_call [(lit "x-api-key", lit "sk-real")]]).
Proof. by vm_compute. Qed.
Lemma key_only_for_token_witness :
  exists call more, snd (ask 200 broker token) = call :: more /\ auth_headers call = [(lit "x-api-key", lit "sk-real")].
Proof.
  pose proof (key_only_for_token broker XApiKey (fun _ => WithinBudget) 200 (request_for "/v1/messages" token)) as Hk.
  cbv zeta in Hk. unfold ask, ask_for. destruct (handle _ _ _ _ _) as [resp calls] eqn:E.
  destruct Hk as [[Hn _] | (payload & sig & c & body & call & more & _ & _ & _ & _ & _ & _ & _ & Hc & _ & _ & _ & Ha & _)].
  - exfalso. vm_compute in E. injection E as _ <-. discriminate Hn.
  - exists call, more. split; [exact Hc|]. rewrite Ha. reflexivity.
Defined.
(** A provider that redirects to another host gets the key taken there when it is sent as
    [x-api-key], and not when it is sent as a bearer. *)
Definition keys_sent (scheme : AuthScheme) : list (rstr * list (rstr * rstr)) :=
  map (fun c => (uc_url c, auth_headers c)) (snd (ask_for "/v1/messages?r" scheme 200 broker token)).
Example key_follows_redirects :
  keys_sent XApiKey = [(front ++ lit "?r", [(lit "x-api-key", lit "sk-real")]); (elsewhere, [(lit "x-api-key", lit "sk-real")])]
  /\ keys_sent AuthorizationBearer = [(front ++ lit "?r", [(lit "authorization", lit "Bearer sk-real")]); (elsewhere, [])].
Proof. by vm_compute. Qed.
(** A token is minted when its container is spawned and never again: a container that lives
    longer than the token has no model. *)
Example long_session_refused : ask 3700 broker token = (401, []).
Proof. by vm_compute. Qed.
(** The signature may be spelled in capitals. *)
Definition capitals (s : rstr) : rstr := map (fun c => if (97 <=? c) && (c <=? 102) then c - 32 else c) s.
Example second_spelling_accepted :
  exists payload sig, token = token_of payload sig /\ capitals sig <> sig /\ fst (ask 200 broker (token_of payload (capitals sig))) = 200.
Proof.
  exists (encode_payload (mkClaims 1 2 100 3700)), (hex_encode (sign key (utf8 (encode_payload (mkClaims 1 2 100 3700))))).
  split; [done|]. split; [|by vm_compute]. intros E. vm_compute in E. discriminate E.
Qed.
End BrokerDemo.
