(* ===== verification/IpAddr.v ===== *)
(** Addresses of the standard library ([std::net]): their parsers and printers as
    [core::net] has them, and the ranges it knows.  An IPv4 address is its four octets, an
    IPv6 address its eight 16-bit segments. *)
From S2P Require Import Prelude.

Record Ipv4Addr : Type := v4 { oct1 : Z; oct2 : Z; oct3 : Z; oct4 : Z }.
Definition Ipv6Addr : Type := list Z.
Inductive IpAddr : Type := V4 (a : Ipv4Addr) | V6 (s : Ipv6Addr).
#[export] Instance Ipv4Addr_eq_dec : EqDecision Ipv4Addr.
Proof. solve_decision. Defined.
#[export] Instance IpAddr_eq_dec : EqDecision IpAddr.
Proof. solve_decision. Defined.

Definition octet (b : Z) : Prop := 0 <= b < 256.
Definition good_v4 (a : Ipv4Addr) : Prop := octet (oct1 a) /\ octet (oct2 a) /\ octet (oct3 a) /\ octet (oct4 a).
Definition good_v6 (s : Ipv6Addr) : Prop := length s = 8%nat /\ Forall (fun x => 0 <= x < 65536) s.
Definition good_ip (ip : IpAddr) : Prop := match ip with V4 a => good_v4 a | V6 s => good_v6 s end.

(** ** Parsing *)

(** A parser returns what it read and the rest; a step that fails leaves the text as it
    was ([read_atomically]). *)
Definition Parser (A : Type) : Type := rstr -> option (A * rstr).
Definition digit_of (radix : Z) (c : rchar) : option Z :=
  let d := if is_ascii_digit c then c - 48
           else if (97 <=? c) && (c <=? 122) then c - 87
           else if (65 <=? c) && (c <=? 90) then c - 55 else radix in
  if d <? radix then Some d else None.
(** The digits at the front: their value, their number and the rest; [None] when there are
    more than allowed. *)
Fixpoint read_digits (radix : Z) (max : nat) (acc : Z) (count : nat) (s : rstr) {struct s} : option (Z * nat * rstr) :=
  match s with
  | c :: s' =>
      match digit_of radix c with
      | Some d => match max with
                  | O => None
                  | S max => read_digits radix max (acc * radix + d) (S count) s'
                  end
      | None => Some (acc, count, s)
      end
  | [] => Some (acc, count, s)
  end.
Definition read_number (radix : Z) (max_digits : nat) (limit : Z) (allow_zero_prefix : bool) : Parser Z :=
  fun s =>
    let leading_zero := match s with c :: _ => c =? chr "0" | [] => false end in
    match read_digits radix max_digits 0 0 s with
    | None => None
    | Some (n, count, rest) =>
        if (count =? 0)%nat then None
        else if negb allow_zero_prefix && leading_zero && (1 <? count)%nat then None
        else if n <=? limit then Some (n, rest) else None
    end.
Definition read_separator {A} (sep : rchar) (index : nat) (inner : Parser A) : Parser A :=
  fun s =>
    match index with
    | O => inner s
    | S _ => match s with
             | c :: s' => if c =? sep then inner s' else None
             | [] => None
             end
    end.
Definition read_octet (i : nat) : Parser Z := read_separator (chr ".") i (read_number 10 3 255 false).
Definition read_ipv4_addr : Parser Ipv4Addr :=
  fun s =>
    match read_octet 0 s with
    | Some (a, s) => match read_octet 1 s with
      | Some (b, s) => match read_octet 2 s with
        | Some (c, s) => match read_octet 3 s with
          | Some (d, s) => Some (v4 a b c d, s)
          | None => None end
        | None => None end
      | None => None end
    | None => None
    end.
(** At most [limit] groups from the [i]-th on; whether they end with an embedded IPv4
    address, for which two must be left. *)
Fixpoint read_groups (left : nat) (i : nat) (s : rstr) : list Z * bool * rstr :=
  match left with
  | O => ([], false, s)
  | S left' =>
      let embedded := match left' with O => None | S _ => read_separator (chr ":") i read_ipv4_addr s end in
      match embedded with
      | Some (v4 a b c d, rest) => ([a * 256 + b; c * 256 + d], true, rest)
      | None =>
          match read_separator (chr ":") i (read_number 16 4 65535 true) s with
          | Some (g, rest) => let '(gs, v, rest') := read_groups left' (S i) rest in (g :: gs, v, rest')
          | None => ([], false, s)
          end
      end
  end.
Definition read_ipv6_addr : Parser Ipv6Addr :=
  fun s =>
    let '(head, head_ipv4, rest) := read_groups 8 0 s in
    if (length head =? 8)%nat then Some (head, rest)
    else if head_ipv4 then None
    else match strip_prefix (lit "::") rest with
         | Some rest =>
             let '(tail, _, rest') := read_groups (8 - S (length head)) 0 rest in
             Some (head ++ replicate (8 - length head - length tail) 0 ++ tail, rest')
         | None => None
         end.
Definition parse_with {A} (p : Parser A) (s : rstr) : option A :=
  match p s with Some (a, []) => Some a | _ => None end.
Definition parse_ipv4 (s : rstr) : option Ipv4Addr := if 15 <? byte_len s then None else parse_with read_ipv4_addr s.
Definition parse_ipv6 (s : rstr) : option Ipv6Addr := parse_with read_ipv6_addr s.
Definition parse_ip (s : rstr) : option IpAddr :=
  match read_ipv4_addr s with
  | Some (a, []) => Some (V4 a)
  | Some _ => None
  | None => option_map V6 (parse_ipv6 s)
  end.

(** ** Printing *)

Definition show_ipv4 (a : Ipv4Addr) : rstr :=
  show_z (oct1 a) ++ lit "." ++ show_z (oct2 a) ++ lit "." ++ show_z (oct3 a) ++ lit "." ++ show_z (oct4 a).
Definition hex_digit (d : Z) : rchar := if d <? 10 then 48 + d else 87 + d.
Definition show_hex (n : Z) : rstr :=
  (if n <? 4096 then [] else [hex_digit (n / 4096 mod 16)])
  ++ (if n <? 256 then [] else [hex_digit (n / 256 mod 16)])
  ++ (if n <? 16 then [] else [hex_digit (n / 16 mod 16)])
  ++ [hex_digit (n mod 16)].
Definition to_ipv4_mapped (s : Ipv6Addr) : option Ipv4Addr :=
  match s with
  | [s0; s1; s2; s3; s4; s5; a; b] =>
      if (s0 =? 0) && (s1 =? 0) && (s2 =? 0) && (s3 =? 0) && (s4 =? 0) && (s5 =? 65535)
      then Some (v4 (a / 256) (a mod 256) (b / 256) (b mod 256)) else None
  | _ => None
  end.
(** The first longest run of zero segments: where it starts and its length. *)
Fixpoint longest_zeros (i : nat) (start len : nat) (best : nat * nat) (s : list Z) : nat * nat :=
  match s with
  | [] => best
  | x :: s' =>
      if x =? 0 then
        let start := match len with O => i | S _ => start end in
        let len := S len in
        longest_zeros (S i) start len (if (snd best <? len)%nat then (start, len) else best) s'
      else longest_zeros (S i) 0 0 best s'
  end.
Definition show_groups (s : list Z) : rstr := join (chr ":") (map show_hex s).
Definition show_ipv6 (s : Ipv6Addr) : rstr :=
  match to_ipv4_mapped s with
  | Some a => lit "::ffff:" ++ show_ipv4 a
  | None =>
      let '(start, len) := longest_zeros 0 0 0 (0%nat, 0%nat) s in
      if (1 <? len)%nat then show_groups (take start s) ++ lit "::" ++ show_groups (drop (start + len) s)
      else show_groups s
  end.

(** ** Ranges *)

Definition is_unspecified_v4 (a : Ipv4Addr) : bool :=
  (oct1 a =? 0) && (oct2 a =? 0) && (oct3 a =? 0) && (oct4 a =? 0).
Definition is_loopback_v4 (a : Ipv4Addr) : bool := oct1 a =? 127.
Definition is_link_local_v4 (a : Ipv4Addr) : bool := (oct1 a =? 169) && (oct2 a =? 254).
Definition is_private_v4 (a : Ipv4Addr) : bool :=
  (oct1 a =? 10) || ((oct1 a =? 172) && (16 <=? oct2 a) && (oct2 a <=? 31)) || ((oct1 a =? 192) && (oct2 a =? 168)).
Definition is_unspecified_v6 (s : Ipv6Addr) : bool := bool_decide (s = [0; 0; 0; 0; 0; 0; 0; 0]).
Definition is_loopback_v6 (s : Ipv6Addr) : bool := bool_decide (s = [0; 0; 0; 0; 0; 0; 0; 1]).
Definition is_loopback (ip : IpAddr) : bool := match ip with V4 a => is_loopback_v4 a | V6 s => is_loopback_v6 s end.

(** ** An address as one number *)

Definition bits_v4 (a : Ipv4Addr) : Z := ((oct1 a * 256 + oct2 a) * 256 + oct3 a) * 256 + oct4 a.
Definition bits_v6 (s : Ipv6Addr) : Z := fold_left (fun n x => n * 65536 + x) s 0.
(** A block of addresses of [width] bits: those that share the first [len] bits with [base]. *)
Definition in_block (width bits : Z) (block : Z * Z) : Prop :=
  Z.shiftr bits (width - snd block) = Z.shiftr (fst block) (width - snd block).

Example loopback_texts :
  parse_ip (lit "127.0.0.1") = Some (V4 (v4 127 0 0 1)) /\ parse_ip (lit "::1") = Some (V6 [0; 0; 0; 0; 0; 0; 0; 1])
  /\ parse_ip (lit "127.0.0.01") = None /\ parse_ipv6 (lit "::ffff:10.0.0.1") = Some [0; 0; 0; 0; 0; 65535; 2560; 1]
  /\ parse_ipv6 (lit "1:2:3:4:5:6:7:8:9") = None /\ parse_ipv6 (lit "fe80::1::2") = None.
Proof. by vm_compute. Qed.
Example printed_addresses :
  show_ipv6 [0; 0; 0; 0; 0; 65535; 2560; 1] = lit "::ffff:10.0.0.1" /\ show_ipv6 [65152; 0; 0; 0; 0; 0; 0; 1] = lit "fe80::1"
  /\ show_ipv6 [0; 0; 1; 0; 0; 0; 2; 171] = lit "0:0:1::2:ab" /\ show_ipv6 [0; 0; 0; 0; 0; 0; 0; 0] = lit "::".
Proof. by vm_compute. Qed.
