(* ===== verification/NetGuard.v ===== *)
(** The guard of the outbound web tools
    ([copperclaw-mcp/src/tools/net_guard.rs]): which addresses may be fetched, the check of
    a URL before the first request and of every redirect after it.

    The switch that lets the tests of the repository reach their own machine is not
    compiled into the program and left out. *)
From S2P Require Import Prelude IpAddr.

Inductive SsrfError : Type :=
  | InvalidUrl (u : rstr)
  | MissingHost
  | ResolutionFailed (host : rstr)
  | BlockedAddress (host : rstr) (ip : IpAddr) (category : string).

Definition classify_v4 (ip : Ipv4Addr) : option string :=
  if is_unspecified_v4 ip then Some "unspecified"%string
  else if is_loopback_v4 ip then Some "loopback"%string
  else if is_link_local_v4 ip then Some "link-local"%string
  else if is_private_v4 ip then Some "private"%string
  else if (oct1 ip =? 100) && ((64 <=? oct2 ip) && (oct2 ip <=? 127)) then Some "shared-cgnat"%string
  else None.
Definition classify_v6 (ip : Ipv6Addr) : option string :=
  let first := hd 0 ip in
  if is_unspecified_v6 ip then Some "unspecified"%string
  else if is_loopback_v6 ip then Some "loopback"%string
  else if Z.land first 65472 =? 65152 then Some "link-local"%string
  else if Z.land first 65024 =? 64512 then Some "unique-local"%string
  else None.
Definition classify_ip (ip : IpAddr) : option string :=
  match ip with
  | V4 a => classify_v4 a
  | V6 s => match to_ipv4_mapped s with Some a => classify_v4 a | None => classify_v6 s end
  end.

(** [reqwest::Url]. *)
Record Url : Type := mkUrl {
  u_text : rstr;
  u_scheme : string;
  u_host : option rstr;
  (** The port written, or the one known for the scheme. *)
  u_port : option Z;
}.
#[export] Instance Url_eq_dec : EqDecision Url.
Proof. solve_decision. Defined.
(** The parser of URLs, and the resolver: what it answers the [n]-th time it is asked. *)
Class Net : Type := {
  parse_url : rstr -> option Url;
  lookup : nat -> rstr -> Z -> option (list IpAddr);
}.

Definition is_http (u : Url) : bool := String.eqb (u_scheme u) "http" || String.eqb (u_scheme u) "https".
Definition effective_port (u : Url) : Z := default 443 (u_port u).
(** The first address in a blocked range is the reason. *)
Fixpoint classify_each (host : rstr) (addrs : list IpAddr) : result SsrfError unit :=
  match addrs with
  | [] => Ok tt
  | ip :: rest => match classify_ip ip with
                  | Some category => Err (BlockedAddress host ip category)
                  | None => classify_each host rest
                  end
  end.
Definition classify_addrs (host : rstr) (addrs : list IpAddr) : result SsrfError unit :=
  match addrs with [] => Err (ResolutionFailed host) | _ => classify_each host addrs end.

Section Guard.
Context `{Net}.

Definition parse_http_host (url : rstr) : result SsrfError (Url * rstr) :=
  match parse_url url with
  | None => Err (InvalidUrl url)
  | Some parsed =>
      if negb (is_http parsed) then Err (InvalidUrl url)
      else match u_host parsed with
           | None => Err MissingHost
           | Some host => Ok (parsed, host)
           end
  end.
Definition check_resolved (n : nat) (host : rstr) (port : Z) : result SsrfError unit :=
  match lookup n host port with
  | None => Err (ResolutionFailed host)
  | Some addrs => classify_addrs host addrs
  end.
Definition guard_url (n : nat) (url : rstr) : result SsrfError unit :=
  match parse_http_host url with
  | Err e => Err e
  | Ok (parsed, host) => check_resolved n host (effective_port parsed)
  end.
Definition classify_redirect (n : nat) (u : Url) : result SsrfError unit :=
  if negb (is_http u) then Err (InvalidUrl (u_text u))
  else match u_host u with
       | None => Err MissingHost
       | Some host => check_resolved n host (effective_port u)
       end.
Definition guard_redirect_url (n : nat) (url : rstr) : result SsrfError unit :=
  match parse_url url with
  | None => Err (InvalidUrl url)
  | Some parsed => classify_redirect n parsed
  end.
Definition MAX_PREVIOUS : nat := 10.
(** Whether the client may follow a redirect after the URLs it has [previous]ly visited. *)
Definition redirect_policy (n : nat) (previous : list Url) (next : Url) : result SsrfError unit :=
  if (MAX_PREVIOUS <=? length previous)%nat then Err (InvalidUrl (lit "too many redirects (max 10)"))
  else classify_redirect n next.
End Guard.

(** ** The client *)

(** [reqwest] with this policy: the URLs it requests, the first of which is the one it was
    given; [tick] says when the resolver was asked for the check of each, by how many URLs
    came before it. *)
Class Client `{Net} : Type := {
  visits : Url -> list Url;
  tick : nat -> nat;
}.
(** What its documentation says of a custom policy: a redirect is followed only when the
    policy, shown the URLs requested so far, says so. *)
Class ClientLaws `{Client} : Prop := {
  starts_with_given : forall u, head (visits u) = Some u;
  asks_policy : forall u pre next post, visits u = pre ++ next :: post -> pre <> [] ->
    redirect_policy (tick (length pre)) pre next = Ok tt;
}.
(** A fetch ([web_fetch]): the guard, then the client.  A method other than GET and POST,
    refused between the two, is left out, and so is the body. *)
Definition fetch `{Client} (url : rstr) : result SsrfError (list Url) :=
  match guard_url (tick 0) url with
  | Err e => Err e
  | Ok _ => match parse_url url with
            | Some u => Ok (visits u)
            | None => Err (InvalidUrl url)
            end
  end.

(** ** The ranges that are refused *)

Definition cidr (a b c d len : Z) : Z * Z := (bits_v4 (v4 a b c d), len).
Definition blocked_v4 : list (Z * Z) :=
  [cidr 0 0 0 0 32; cidr 127 0 0 0 8; cidr 169 254 0 0 16; cidr 10 0 0 0 8; cidr 172 16 0 0 12; cidr 192 168 0 0 16;
   cidr 100 64 0 0 10].
Definition segment_block (first len : Z) : Z * Z := (bits_v6 [first; 0; 0; 0; 0; 0; 0; 0], len).
Definition blocked_v6 : list (Z * Z) :=
  [segment_block 0 128; (1, 128); segment_block 65152 10; segment_block 64512 7].
(** The IPv4 blocks as IPv6 blocks of mapped addresses. *)
Definition mapped (block : Z * Z) : Z * Z := (Z.shiftl 65535 32 + fst block, 96 + snd block).

Definition refused_block (ip : IpAddr) : Prop :=
  match ip with
  | V4 a => Exists (in_block 32 (bits_v4 a)) blocked_v4
  | V6 s => Exists (in_block 128 (bits_v6 s)) (blocked_v6 ++ map mapped blocked_v4)
  end.

(** A block is a range of quotients. *)
Lemma in_block_div width bits base len : len <= width ->
  in_block width bits (base, len) <-> bits / 2 ^ (width - len) = base / 2 ^ (width - len).
Proof. intros H. unfold in_block. cbn [fst snd]. by rewrite !Z.shiftr_div_pow2 by lia. Qed.
Ltac as_quotients :=
  rewrite !in_block_div by lia;
  repeat match goal with |- context [2 ^ ?n] => let v := eval vm_compute in (2 ^ n) in change (2 ^ n) with v end.

(** The leading bits of an address, octet by octet. *)
Lemma bits_v4_div a : good_v4 a ->
  bits_v4 a / 16777216 = oct1 a /\ bits_v4 a / 65536 = oct1 a * 256 + oct2 a
  /\ bits_v4 a / 1048576 = oct1 a * 16 + oct2 a / 16 /\ bits_v4 a / 4194304 = oct1 a * 4 + oct2 a / 64.
Proof.
  destruct a as [a b c d]. unfold good_v4, octet, bits_v4. cbn [oct1 oct2 oct3 oct4]. intros (Ha & Hb & Hc & Hd).
  repeat split; Z.div_mod_to_equations; lia.
Qed.
Lemma blocks_v4 a : good_v4 a ->
  Exists (in_block 32 (bits_v4 a)) blocked_v4 <->
  bits_v4 a = 0 \/ oct1 a = 127 \/ oct1 a * 256 + oct2 a = 43518 \/ oct1 a = 10
  \/ oct1 a * 16 + oct2 a / 16 = 2753 \/ oct1 a * 256 + oct2 a = 49320 \/ oct1 a * 4 + oct2 a / 64 = 401.
Proof.
  intros Ha. destruct (bits_v4_div a Ha) as (E1 & E2 & E3 & E4).
  unfold blocked_v4, cidr. rewrite !Exists_cons, Exists_nil. as_quotients. rewrite E1, E2, E3, E4, Z.div_1_r.
  cbn. tauto.
Qed.
Lemma classify_v4_blocks a : good_v4 a -> classify_v4 a <> None <-> Exists (in_block 32 (bits_v4 a)) blocked_v4.
Proof.
  intros Ha. rewrite (blocks_v4 a Ha). destruct a as [a b c d]. unfold good_v4, octet, bits_v4 in *.
  cbn [oct1 oct2 oct3 oct4] in *. destruct Ha as (Ha & Hb & Hc & Hd).
  unfold classify_v4, is_unspecified_v4, is_loopback_v4, is_link_local_v4, is_private_v4. cbn [oct1 oct2 oct3 oct4].
  pose proof (Z.div_mod b 16 ltac:(done)). pose proof (Z.mod_pos_bound b 16 ltac:(done)).
  pose proof (Z.div_mod b 64 ltac:(done)). pose proof (Z.mod_pos_bound b 64 ltac:(done)).
  generalize dependent (b / 16). generalize dependent (b mod 16). generalize dependent (b / 64). generalize dependent (b mod 64).
  intros. assert (forall (c : bool) (x : string) o, (if c then Some x else o) <> None <-> c = true \/ o <> None) as Hif
    by (intros [] x o; split; intros; [by left | done | by right | by intuition]).
  rewrite !Hif, !orb_true_iff, !andb_true_iff, !Z.eqb_eq, !Z.leb_le. split; [intros Hor | intros Hor].
  - repeat destruct Hor as [Hor|Hor]; try done; lia.
  - repeat destruct Hor as [Hor|Hor]; lia.
Qed.

(** ** IPv6 *)

Fixpoint all_from (fuel : nat) (z : Z) (p : Z -> bool) : bool :=
  match fuel with O => true | S f => p z && all_from f (z + 1) p end.
Lemma all_from_spec fuel z p : all_from fuel z p = true -> forall x, z <= x < z + Z.of_nat fuel -> p x = true.
Proof.
  revert z. induction fuel as [|f IH]; intros z; cbn [all_from]; [lia|]. rewrite andb_true_iff. intros [Hp Ha] x Hx.
  destruct (decide (x = z)) as [->|Hne]; [done|]. apply (IH (z + 1) Ha). lia.
Qed.
Definition mask_agrees (x : Z) : bool :=
  Bool.eqb (Z.land x 65472 =? 65152) (x / 64 =? 1018) && Bool.eqb (Z.land x 65024 =? 64512) (x / 512 =? 126).
Lemma masks_agree : all_from (Z.to_nat 65536) 0 mask_agrees = true.
Proof. vm_compute. exact eq_refl. Qed.
Lemma masks x : 0 <= x < 65536 ->
  (Z.land x 65472 =? 65152) = (x / 64 =? 1018) /\ (Z.land x 65024 =? 64512) = (x / 512 =? 126).
Proof.
  intros Hx. assert (mask_agrees x = true) as H.
  { apply (all_from_spec (Z.to_nat 65536) 0); [exact masks_agree|]. rewrite Z2Nat.id; lia. }
  unfold mask_agrees in H. apply andb_prop in H as [H1 H2]. split; by apply eqb_prop.
Qed.

Lemma bits_v6_from n s : fold_left (fun n x => n * 65536 + x) s n = n * 65536 ^ Z.of_nat (length s) + bits_v6 s.
Proof.
  unfold bits_v6. revert n. induction s as [|x s IH]; intros n; cbn [fold_left length]; [lia|].
  rewrite (IH (n * 65536 + x)), (IH (0 * 65536 + x)). rewrite Nat2Z.inj_succ, Z.pow_succ_r by lia. lia.
Qed.
Lemma bits_v6_app a b : bits_v6 (a ++ b) = bits_v6 a * 65536 ^ Z.of_nat (length b) + bits_v6 b.
Proof. unfold bits_v6 at 1. rewrite fold_left_app. apply bits_v6_from. Qed.
Lemma bits_v6_range s : Forall (fun x => 0 <= x < 65536) s -> 0 <= bits_v6 s < 65536 ^ Z.of_nat (length s).
Proof.
  induction 1 as [|x s Hx _ IH]; [done|]. change (x :: s) with ([x] ++ s). rewrite bits_v6_app.
  change (bits_v6 [x]) with (0 * 65536 + x). cbn [app length]. rewrite Nat2Z.inj_succ, Z.pow_succ_r by lia. nia.
Qed.
(** The first segments of an address are its leading bits. *)
Lemma bits_v6_prefix a b : Forall (fun x => 0 <= x < 65536) b ->
  bits_v6 (a ++ b) / 65536 ^ Z.of_nat (length b) = bits_v6 a.
Proof.
  intros Hb. apply bits_v6_range in Hb. rewrite bits_v6_app, Z.div_add_l by lia. rewrite Z.div_small by done. lia.
Qed.
Lemma to_ipv4_mapped_bits s : good_v6 s ->
  match to_ipv4_mapped s with
  | Some a => good_v4 a /\ bits_v6 s = 65535 * 2 ^ 32 + bits_v4 a /\ hd 0 s = 0
  | None => bits_v6 s / 2 ^ 32 <> 65535
  end.
Proof.
  intros [Hl Hs]. do 9 (destruct s as [|? s]; try done). repeat apply Forall_cons in Hs as [? Hs]. clear Hs.
  change [z; z0; z1; z2; z3; z4; z5; z6] with ([z; z0; z1; z2; z3; z4] ++ [z5; z6]) at 2 4.
  cbn [to_ipv4_mapped hd]. destruct (_ && (z4 =? 65535)) eqn:E.
  - bool_to_prop. subst. rewrite bits_v6_app. unfold good_v4, octet, bits_v4, bits_v6.
    cbn [fold_left oct1 oct2 oct3 oct4 length]. change (65536 ^ Z.of_nat 2) with (2 ^ 32).
    pose proof (Z.div_mod z5 256 ltac:(done)). pose proof (Z.mod_pos_bound z5 256 ltac:(done)).
    pose proof (Z.div_mod z6 256 ltac:(done)). pose proof (Z.mod_pos_bound z6 256 ltac:(done)). lia.
  - change (2 ^ 32) with (65536 ^ Z.of_nat (length [z5; z6])). rewrite bits_v6_prefix by (do 2 (apply Forall_cons_2; [done|]); by apply Forall_nil_2).
    unfold bits_v6. cbn [fold_left]. intros Hb. rewrite !andb_false_iff, !Z.eqb_neq in E. lia.
Qed.

Lemma mapped_block x b : 0 <= snd b <= 32 -> 0 <= fst b < 2 ^ 32 ->
  in_block 128 (65535 * 2 ^ 32 + x) (mapped b) <-> in_block 32 x b.
Proof.
  destruct b as [base len]. cbn [fst snd]. intros Hl Hb. unfold mapped. cbn [fst snd].
  rewrite Z.shiftl_mul_pow2 by lia.
  rewrite !in_block_div by lia. replace (128 - (96 + len)) with (32 - len) by lia.
  replace (2 ^ 32) with (2 ^ len * 2 ^ (32 - len)) by (rewrite <- Z.pow_add_r by lia; f_equal; lia).
  rewrite Z.mul_assoc, !Z.div_add_l by lia. lia.
Qed.
(** A block of mapped addresses lies inside [::ffff:0:0/96]. *)
Lemma mapped_block_prefix x b : 0 <= snd b <= 32 -> 0 <= fst b < 2 ^ 32 ->
  in_block 128 x (mapped b) -> x / 2 ^ 32 = 65535.
Proof.
  destruct b as [base len]. cbn [fst snd]. intros Hl Hb. unfold mapped. cbn [fst snd].
  rewrite Z.shiftl_mul_pow2 by lia.
  rewrite in_block_div by lia. replace (128 - (96 + len)) with (32 - len) by lia. intros Hx.
  replace (2 ^ 32) with (2 ^ (32 - len) * 2 ^ len) in * by (rewrite <- Z.pow_add_r by lia; f_equal; lia).
  rewrite <- Z.div_div, Hx, Z.div_div by lia. rewrite Z.div_add_l by lia. rewrite Z.div_small by lia. lia.
Qed.
Lemma blocked_v4_small : Forall (fun b => 0 <= snd b <= 32 /\ 0 <= fst b < 2 ^ 32) blocked_v4.
Proof. repeat (apply Forall_cons_2; [by vm_compute|]). by apply Forall_nil_2. Qed.

Lemma blocks_v6 s : good_v6 s ->
  Exists (in_block 128 (bits_v6 s)) blocked_v6 <->
  bits_v6 s = 0 \/ bits_v6 s = 1 \/ hd 0 s / 64 = 1018 \/ hd 0 s / 512 = 126.
Proof.
  intros [Hl Hs]. destruct s as [|x s]; [done|]. apply Forall_cons in Hs as [Hx Hs].
  assert (bits_v6 (x :: s) / 2 ^ 112 = x) as Hd.
  { change (x :: s) with ([x] ++ s). change (2 ^ 112) with (65536 ^ Z.of_nat 7).
    injection Hl as <-. rewrite bits_v6_prefix by done. unfold bits_v6. cbn [fold_left]. lia. }
  unfold blocked_v6, segment_block. rewrite !Exists_cons, Exists_nil, !in_block_div by lia. cbn [hd].
  change (128 - 128) with 0. change (2 ^ 0) with 1. rewrite !Z.div_1_r.
  change (2 ^ (128 - 10)) with (2 ^ 112 * 64). change (2 ^ (128 - 7)) with (2 ^ 112 * 512).
  rewrite <- !(Z.div_div _ (2 ^ 112)) by lia. rewrite !Hd.
  change (bits_v6 [0; 0; 0; 0; 0; 0; 0; 0]) with 0.
  change (bits_v6 [65152; 0; 0; 0; 0; 0; 0; 0] / 2 ^ 112 / 64) with 1018.
  change (bits_v6 [64512; 0; 0; 0; 0; 0; 0; 0] / 2 ^ 112 / 512) with 126. tauto.
Qed.
Lemma bits_v6_small s v : good_v6 s -> 0 <= v < 65536 -> bits_v6 s = v <-> s = [0; 0; 0; 0; 0; 0; 0; v].
Proof.
  intros [Hl Hs] Hv. do 9 (destruct s as [|? s]; try done). repeat apply Forall_cons in Hs as [? Hs]. clear Hs.
  unfold bits_v6. cbn [fold_left]. split; [|by intros [= -> -> -> -> -> -> -> ->]].
  intros Hb. assert (z = 0 /\ z0 = 0 /\ z1 = 0 /\ z2 = 0 /\ z3 = 0 /\ z4 = 0 /\ z5 = 0 /\ z6 = v) by lia.
  by destruct_and!; subst.
Qed.
Lemma classify_v6_blocks s : good_v6 s -> classify_v6 s <> None <-> Exists (in_block 128 (bits_v6 s)) blocked_v6.
Proof.
  intros Hg. rewrite (blocks_v6 s Hg), (bits_v6_small s 0 Hg), (bits_v6_small s 1 Hg) by lia.
  assert (0 <= hd 0 s < 65536) as Hh by (destruct Hg as [_ Hs]; destruct Hs; [cbn; lia | done]).
  destruct (masks _ Hh) as [M1 M2]. unfold classify_v6, is_unspecified_v6, is_loopback_v6. rewrite M1, M2.
  repeat case_bool_decide; [by split; auto..|].
  destruct (Z.eqb_spec (hd 0 s / 64) 1018); [by split; auto|]. destruct (Z.eqb_spec (hd 0 s / 512) 126); [by split; auto|].
  split; [done | tauto].
Qed.

(** C18. An address is refused exactly when it lies in one of the blocks 0.0.0.0, 127/8,
    169.254/16, 10/8, 172.16/12, 192.168/16, 100.64/10, or their images among the IPv6
    addresses, or is ::, ::1, in fe80::/10 or in fc00::/7. *)
Theorem refused_exactly_blocks ip : good_ip ip -> classify_ip ip <> None <-> refused_block ip.
Proof.
  destruct ip as [a|s]; cbn [good_ip classify_ip refused_block]; [apply classify_v4_blocks|].
  intros Hg. rewrite Exists_app, Exists_map. pose proof (to_ipv4_mapped_bits s Hg) as Hm.
  pose proof blocked_v4_small as Hsmall.
  destruct (to_ipv4_mapped s) as [a|].
  - destruct Hm as (Ha & Hb & Hz). rewrite (classify_v4_blocks a Ha), Hb. split.
    + intros He. right. apply Exists_exists in He as (b & Hin & He). apply Exists_exists. exists b. split; [done|].
      rewrite Forall_forall in Hsmall. by apply mapped_block; [apply Hsmall..|].
    + intros [He|He].
      * rewrite <- Hb in He. apply (blocks_v6 s Hg) in He. exfalso. rewrite Hb, Hz in He.
        destruct a as [a b c d]. unfold good_v4, octet, bits_v4 in *. cbn [oct1 oct2 oct3 oct4] in *.
        destruct He as [He|[He|[He|He]]]; [lia | lia | by vm_compute in He..].
      * apply Exists_exists in He as (b & Hin & He). apply Exists_exists. exists b. split; [done|].
        rewrite Forall_forall in Hsmall. by apply mapped_block in He; [|apply Hsmall..].
  - rewrite (classify_v6_blocks s Hg). split; [by left|]. intros [He|He]; [done|]. exfalso. apply Hm.
    apply Exists_exists in He as (b & Hin & He). rewrite Forall_forall in Hsmall.
    by eapply mapped_block_prefix; [apply Hsmall..|].
Qed.

(** ** What is fetched *)

Section Fetch.
Context `{Net}.

Definition open_address (ip : IpAddr) : Prop := good_ip ip -> ~ refused_block ip.
(** A URL whose host had only addresses outside the blocks when it was looked up. *)
Definition cleared (n : nat) (u : Url) : Prop :=
  is_http u = true /\ exists host addrs, u_host u = Some host /\ lookup n host (effective_port u) = Some addrs
    /\ addrs <> [] /\ Forall open_address addrs.

Lemma classify_each_ok host addrs : classify_each host addrs = Ok tt -> Forall open_address addrs.
Proof.
  induction addrs as [|ip rest IH]; cbn [classify_each]; [by constructor|].
  destruct (classify_ip ip) eqn:E; [done|]. intros Hr. apply Forall_cons_2; [|by apply IH].
  intros Hg Hb. by apply (refused_exactly_blocks ip Hg) in Hb.
Qed.
Lemma check_resolved_ok n host port : check_resolved n host port = Ok tt ->
  exists addrs, lookup n host port = Some addrs /\ addrs <> [] /\ Forall open_address addrs.
Proof.
  unfold check_resolved. destruct (lookup n host port) as [addrs|]; [|done]. unfold classify_addrs.
  destruct addrs as [|ip rest] eqn:E; [done|]. intros Hc. exists (ip :: rest). split; [done|]. split; [done|].
  by apply (classify_each_ok host).
Qed.
Lemma classify_redirect_ok n u : classify_redirect n u = Ok tt -> cleared n u.
Proof.
  unfold classify_redirect. destruct (is_http u) eqn:Eh; [|done]. destruct (u_host u) as [host|] eqn:Eu; [|done].
  intros Hc. apply check_resolved_ok in Hc as (addrs & Ha). split; [done|]. by exists host, addrs.
Qed.
Lemma guard_url_ok n url : guard_url n url = Ok tt -> exists u, parse_url url = Some u /\ cleared n u.
Proof.
  unfold guard_url, parse_http_host. destruct (parse_url url) as [u|]; [|done].
  destruct (is_http u) eqn:Eh; [|done]. destruct (u_host u) as [host|] eqn:Eu; [|done]. cbn [negb].
  intros Hc. apply check_resolved_ok in Hc as (addrs & Ha). exists u. split; [done|]. split; [done|]. by exists host, addrs.
Qed.
End Fetch.

(** C17. A fetch requests at most ten URLs, the given one first; each is HTTP, and when it was
    checked, before it was requested, its host had addresses and all of them lay outside
    the blocked ranges. *)
Theorem fetch_only_cleared `{ClientLaws} url us : fetch url = Ok us ->
  (length us <= 10)%nat /\ head us = parse_url url
  /\ forall pre u post, us = pre ++ u :: post -> cleared (tick (length pre)) u.
Proof.
  unfold fetch. destruct (guard_url (tick 0) url) as [[]|e] eqn:Eg; [|done].
  apply guard_url_ok in Eg as (u & Eu & Hu). rewrite Eu. intros [= <-].
  assert (forall pre next post, visits u = pre ++ next :: post -> cleared (tick (length pre)) next /\ (length pre < 10)%nat) as Hall.
  { intros pre next post E. destruct pre as [|p pre].
    - pose proof (starts_with_given u) as Hh. rewrite E in Hh. injection Hh as ->. split; [done|]. cbn. lia.
    - pose proof (asks_policy u _ _ _ E ltac:(done)) as Hp. unfold redirect_policy, MAX_PREVIOUS in Hp.
      destruct (Nat.leb_spec 10 (length (p :: pre))) as [Hl|Hl]; [done|]. split; [by apply classify_redirect_ok | exact Hl]. }
  split; [|split].
  - destruct (visits u) as [|x l] using rev_ind; [cbn; lia|]. destruct (Hall l x [] eq_refl) as [_ Hl].
    rewrite length_app. cbn. lia.
  - apply starts_with_given.
  - intros pre next post E. by apply (Hall pre next post).
Qed.

(** ** Addresses at the edge *)

Module GuardDemo.
Definition public : IpAddr := V4 (v4 93 184 216 34).
(** Hosts of the demonstration: one outside, one that leads to the metadata service. *)
#[export] Instance demo_net : Net := {|
  parse_url := fun t =>
    if rstr_eqb t (lit "http://out/") then Some (mkUrl t "http" (Some (lit "out")) (Some 80))
    else if rstr_eqb t (lit "http://in/") then Some (mkUrl t "http" (Some (lit "in")) (Some 80)) else None;
  lookup := fun _ host _ => if rstr_eqb host (lit "out") then Some [public]
                            else if rstr_eqb host (lit "in") then Some [public; V4 (v4 169 254 169 254)] else None;
|}.
#[export] Instance demo_client : Client := {| visits := fun u => [u]; tick := fun n => n |}.
#[export] Instance demo_client_laws : ClientLaws.
Proof. constructor; [done|]. intros u [|p [|q pre]] next post E Hp; [done | by destruct post | done]. Qed.
Lemma fetch_only_cleared_witness :
  exists us, fetch (lit "http://out/") = Ok us /\ (length us <= 10)%nat.
Proof.
  eexists. split; [reflexivity|]. by apply (fetch_only_cleared (lit "http://out/")).
Defined.
Lemma refused_exactly_blocks_witness :
  refused_block (V4 (v4 169 254 169 254)) /\ ~ refused_block public.
Proof.
  split.
  - apply refused_exactly_blocks; [by repeat split | done].
  - rewrite <- refused_exactly_blocks by by repeat split. by vm_compute.
Defined.
(** One address inside is enough. *)
Example mixed_answer_refused :
  guard_url 0 (lit "http://in/") = Err (BlockedAddress (lit "in") (V4 (v4 169 254 169 254)) "link-local").
Proof. by vm_compute. Qed.
(** Addresses that are not public and pass: this network, broadcast, multicast, and
    loopback behind a NAT64 or 6to4 prefix. *)
Example not_public_passes :
  map (fun t => option_map classify_ip (parse_ip (lit t)))
    ["0.0.0.1"; "255.255.255.255"; "224.0.0.1"; "64:ff9b::7f00:1"; "2002:7f00:1::"; "fec0::1"]%string
  = replicate 6 (Some None).
Proof. by vm_compute. Qed.
End GuardDemo.
