(* ===== verification/Egress.v ===== *)
(** Egress of a container under the deny-default posture: the allow-list and the model
    endpoint put on it ([copperclaw-host/src/container_manager/egress.rs]), the DNS filter
    ([copperclaw-container-rt/src/dns.rs]), the nftables ruleset ([nftables.rs]), what the
    spawn path writes and applies ([container_manager/spawn.rs]), and the operator's command
    that sets the list ([handlers/groups.rs]).

    The rules are text, which [nft] and [dnsmasq] load; their effect is that of those
    programs and not modelled. *)
From S2P Require Import Prelude Types Split IpAddr Broker.

Inductive EgressMode : Type := AllowAll | DenyDefault.

(** [str::split_once] on a text, [rsplit_once] on a char. *)
Definition split_once_str (needle s : rstr) : option (rstr * rstr) :=
  option_map (fun i => (take i s, drop (i + length needle) s)) (str_find needle s).
Definition rsplit_once (d : rchar) (s : rstr) : option (rstr * rstr) :=
  option_map (fun '(a, b) => (rev b, rev a)) (split_once d (rev s)).
Definition count_char (d : rchar) (s : rstr) : nat := length (List.filter (fun c => c =? d) s).
Definition colon : rchar := chr ":".
Definition parse_port (p : rstr) : option Z := keep (fun n => negb (n =? 0)) (parse_uint 65535 p).

(** ** The allow-list *)

Definition parse_egress_mode (raw : option rstr) : EgressMode :=
  match option_map (fun s => map to_ascii_lowercase (trim s)) raw with
  | Some s => if one_of ["deny-default"; "deny_default"; "deny"; "1"; "true"; "yes"; "on"; "enforce"]%string s
              then DenyDefault else AllowAll
  | None => AllowAll
  end.
Definition DEFAULT_OLLAMA_BASE_URL : rstr := lit "http://localhost:11434".
Definition non_blank (s : rstr) : bool := negb (is_nil (trim s)).
Definition model_base_url_for_provider (provider : option string) (anthropic_base_url ollama_base_url : option rstr)
  : option rstr :=
  let named name := match provider with Some p => String.eqb p name | None => false end in
  if named "ollama"%string then Some (default DEFAULT_OLLAMA_BASE_URL (keep non_blank ollama_base_url))
  else if named "codex"%string then None
  else Some (default DEFAULT_ANTHROPIC_BASE_URL (keep non_blank anthropic_base_url)).
Definition split_host_port (host_port : rstr) (default_port : Z) : option (rstr * Z) :=
  match strip_prefix (lit "[") host_port with
  | Some stripped =>
      match split_once (chr "]") stripped with
      | None => None
      | Some (host, after) =>
          let literal := lit "[" ++ host ++ lit "]" in
          match strip_prefix [colon] after with
          | None | Some [] => Some (literal, default_port)
          | Some p => option_map (fun port => (literal, port)) (parse_port p)
          end
      end
  | None =>
      if (1 <? count_char colon host_port)%nat then Some (host_port, default_port)
      else match split_once colon host_port with
           | Some (host, p) => option_map (fun port => (host, port)) (parse_port p)
           | None => Some (host_port, default_port)
           end
  end.
Definition ends_authority (c : rchar) : bool := (c =? chr "/") || (c =? chr "?") || (c =? chr "#").
Definition entry_text (host : rstr) (port : Z) : rstr := host ++ colon :: show_z port.
Definition model_endpoint_entry (base_url : rstr) : option rstr :=
  let raw := trim base_url in
  if is_nil raw then None
  else
    let '(scheme, rest) := match split_once_str (lit "://") raw with
                           | Some (s, r) => (Some (map to_ascii_lowercase s), r)
                           | None => (None, raw)
                           end in
    let authority := hd [] (split_on ends_authority rest) in
    let host_port := match rsplit_once (chr "@") authority with Some (_, hp) => hp | None => authority end in
    if is_nil host_port then None
    else
      let default_port := match scheme with Some s => if rstr_eqb s (lit "http") then 80 else 443 | None => 443 end in
      match split_host_port host_port default_port with
      | Some (host, port) => if is_nil host then None else Some (entry_text host port)
      | None => None
      end.
Fixpoint add_new (out : list rstr) (entries : list rstr) : list rstr :=
  match entries with
  | [] => out
  | e :: rest => add_new (if existsb (rstr_eqb e) out then out else out ++ [e]) rest
  end.
Definition resolve_allow_list (group_allow : list rstr) (base_url : option rstr) : list rstr :=
  add_new (match base_url ≫= model_endpoint_entry with Some e => [e] | None => [] end) group_allow.
Definition resolve_allow_list_for_provider (group_allow : list rstr) (provider : option string)
    (anthropic_base_url ollama_base_url : option rstr) : list rstr :=
  resolve_allow_list group_allow (model_base_url_for_provider provider anthropic_base_url ollama_base_url).
(** [groups.config.set-egress-allow]: what an entry must look like; the code of the error. *)
Definition validate_egress_entry (entry : rstr) : result string unit :=
  match rsplit_once colon entry with
  | None => Err "bad_request"%string
  | Some (_, port_str) =>
      match parse_uint u32_max port_str with
      | None => Err "bad_request"%string
      | Some port => if (port =? 0) || (65535 <? port) then Err "bad_request"%string else Ok tt
      end
  end.

(** ** The DNS filter *)

(** A [BTreeSet] collected into a list: sorted, each element once. *)
Fixpoint insert_sorted {A} (leb eqb : A -> A -> bool) (x : A) (l : list A) : list A :=
  match l with
  | [] => [x]
  | y :: l' => if eqb x y then l else if leb x y then x :: l else y :: insert_sorted leb eqb x l'
  end.
Definition sorted_set {A} (leb eqb : A -> A -> bool) (l : list A) : list A := fold_right (insert_sorted leb eqb) [] l.

Definition allow_name (entry : rstr) : option rstr :=
  let entry := trim entry in
  if is_nil entry then None
  else if starts_with (lit "[") entry then None
  else if (1 <? count_char colon entry)%nat then None
  else
    let host := match split_once colon entry with Some (h, _) => h | None => entry end in
    if is_nil host then None
    else match parse_ipv4 host with Some _ => None | None => Some host end.
Definition names_of (allow : list rstr) : list rstr :=
  flat_map (fun e => match allow_name e with Some h => [map to_ascii_lowercase h] | None => [] end) allow.
Definition allow_list_names (allow : list rstr) : list rstr := sorted_set rstr_leb rstr_eqb (names_of allow).

Definition DEFAULT_FILTER_RESOLVER_IP : rstr := lit "127.0.0.1".
Definition DEFAULT_FILTER_RESOLVER_PORT : Z := 53.
Record FilterResolverConfig : Type := mkResolver {
  fr_allow_names : list rstr;
  fr_listen_ip : rstr;
  fr_listen_port : Z;
  fr_upstreams : list rstr;
}.
Definition from_allow_list (allow upstreams : list rstr) : FilterResolverConfig :=
  mkResolver (allow_list_names allow) DEFAULT_FILTER_RESOLVER_IP DEFAULT_FILTER_RESOLVER_PORT upstreams.
Definition is_closed (c : FilterResolverConfig) : bool := match fr_allow_names c with [] => true | _ => false end.
Definition line (s : rstr) : rstr := s ++ [newline].
Definition resolv_conf_contents (resolver_ip : rstr) (_ : Z) : rstr :=
  line (lit "# Managed by copperclaw (egress deny-default DNS filter).")
  ++ line (lit "# Lookups are restricted to the group's effective allow-list;")
  ++ line (lit "# all other names return NXDOMAIN. Do not edit.")
  ++ line (lit "nameserver " ++ resolver_ip)
  ++ line (lit "options timeout:2 attempts:1 no-check-names").
Definition server_lines (upstreams : list rstr) (name : rstr) : list rstr :=
  match upstreams with
  | [] => [lit "server=/" ++ name ++ lit "/"]
  | _ => map (fun up => lit "server=/" ++ name ++ lit "/" ++ up) upstreams
  end.
Definition dnsmasq_conf (c : FilterResolverConfig) : rstr :=
  line (lit "# Managed by copperclaw (egress deny-default DNS filter).")
  ++ line (lit "listen-address=" ++ fr_listen_ip c) ++ line (lit "port=" ++ show_z (fr_listen_port c))
  ++ line (lit "no-resolv") ++ line (lit "no-hosts") ++ line (lit "bind-interfaces")
  ++ line (lit "domain-needed") ++ line (lit "bogus-priv")
  ++ concat (map line (flat_map (server_lines (fr_upstreams c)) (fr_allow_names c)))
  ++ line (lit "address=/#/").

Definition nameserver_of (raw : rstr) : option rstr :=
  let l := trim raw in
  if is_nil l || starts_with (lit "#") l || starts_with (lit ";") l then None
  else match strip_prefix (lit "nameserver") l with
       | None => None
       | Some rest => keep (fun ip => match parse_ip ip with Some _ => true | None => false end) (Some (trim rest))
       end.
Definition parse_resolv_conf_upstreams (content : rstr) : list rstr :=
  flat_map (fun raw => match nameserver_of raw with Some ip => [ip] | None => [] end) (str_lines content).
Definition filter_upstreams (resolv_conf_content : option rstr) : list rstr :=
  match resolv_conf_content with
  | None => []
  | Some content =>
      List.filter (fun ip => match parse_ip ip with Some a => negb (is_loopback a) | None => false end)
        (parse_resolv_conf_upstreams content)
  end.

(** ** The ruleset *)

Record AllowEntry : Type := mkAllow { ae_host : rstr; ae_port : Z }.
#[export] Instance AllowEntry_eq_dec : EqDecision AllowEntry.
Proof. solve_decision. Defined.
Inductive HostMatch : Type := MatchV4 (a : Ipv4Addr) | MatchV6 (s : Ipv6Addr) | MatchName (n : rstr).
Definition DEFAULT_ENTRY_PORT : Z := 443.
Definition parse_entry (entry : rstr) : option AllowEntry :=
  let entry := trim entry in
  if is_nil entry then None
  else
    match strip_prefix (lit "[") entry with
    | Some rest =>
        match split_once (chr "]") rest with
        | None => None
        | Some (host, after) =>
            match (match strip_prefix [colon] after with
                   | None | Some [] => Some DEFAULT_ENTRY_PORT
                   | Some p => parse_port p
                   end) with
            | None => None
            | Some port => if is_nil host then None else Some (mkAllow host port)
            end
        end
    | None =>
        if (1 <? count_char colon entry)%nat then Some (mkAllow entry DEFAULT_ENTRY_PORT)
        else match split_once colon entry with
             | Some (host, p) =>
                 match parse_port p with
                 | None => None
                 | Some port => if is_nil host then None else Some (mkAllow host port)
                 end
             | None => Some (mkAllow entry DEFAULT_ENTRY_PORT)
             end
    end.
Definition without_brackets (s : rstr) : rstr :=
  rev (trim_start_by (fun c => c =? chr "]") (rev (trim_start_by (fun c => c =? chr "[") s))).
Definition host_match (e : AllowEntry) : HostMatch :=
  match parse_ipv4 (ae_host e) with
  | Some a => MatchV4 a
  | None => match parse_ipv6 (without_brackets (ae_host e)) with
            | Some s => MatchV6 s
            | None => MatchName (ae_host e)
            end
  end.
Definition classify_ip (s : rstr) : option IpAddr :=
  match parse_ipv4 s with
  | Some a => Some (V4 a)
  | None => option_map V6 (parse_ipv6 (without_brackets s))
  end.
Definition entry_eqb (a b : AllowEntry) : bool := rstr_eqb (ae_host a) (ae_host b) && (ae_port a =? ae_port b).
Definition entry_leb (a b : AllowEntry) : bool :=
  if rstr_eqb (ae_host a) (ae_host b) then ae_port a <=? ae_port b else rstr_leb (ae_host a) (ae_host b).
Record NftPlan : Type := mkPlan {
  np_table : rstr;
  np_allow : list AllowEntry;
  np_resolver_ip : option rstr;
  np_resolver_port : Z;
}.
Definition entries_of (allow : list rstr) : list AllowEntry :=
  flat_map (fun e => match parse_entry e with Some a => [a] | None => [] end) allow.
Definition plan_from_allow_list (table : rstr) (allow : list rstr) (resolver_ip : option rstr) (resolver_port : Z) : NftPlan :=
  mkPlan table (sorted_set entry_leb entry_eqb (entries_of allow)) resolver_ip resolver_port.
Definition delegated_names (p : NftPlan) : list rstr :=
  flat_map (fun e => match host_match e with MatchName n => [n] | _ => [] end) (np_allow p).

Definition quote : rchar := 34.
Definition accepted (selector : rstr) : rstr := [9; 9] ++ selector ++ lit " accept".
Definition dport (proto : string) (port : Z) : rstr := lit proto ++ lit " dport " ++ show_z port.
Definition remark (text : rstr) : rstr := lit " comment " ++ quote :: text ++ [quote].
Definition resolver_rules (p : NftPlan) : list rstr :=
  match np_resolver_ip p with
  | None => []
  | Some ip =>
      let both selector tail :=
        [accepted (selector ++ dport "udp" (np_resolver_port p)) ++ tail;
         accepted (selector ++ dport "tcp" (np_resolver_port p)) ++ tail] in
      match classify_ip ip with
      | Some (V4 a) => both (lit "ip daddr " ++ show_ipv4 a ++ lit " ") []
      | Some (V6 s) => both (lit "ip6 daddr " ++ show_ipv6 s ++ lit " ") []
      | None => both [] (remark (lit "dns-filter " ++ ip))
      end
  end.
Definition entry_rule (e : AllowEntry) : rstr :=
  match host_match e with
  | MatchV4 a => accepted (lit "ip daddr " ++ show_ipv4 a ++ lit " " ++ dport "tcp" (ae_port e))
  | MatchV6 s => accepted (lit "ip6 daddr " ++ show_ipv6 s ++ lit " " ++ dport "tcp" (ae_port e))
  | MatchName name => accepted (dport "tcp" (ae_port e)) ++ remark (lit "allow " ++ name ++ lit " (dns-filtered)")
  end.
Definition opening (table : rstr) : list rstr :=
  [lit "add table inet " ++ table; lit "delete table inet " ++ table; lit "table inet " ++ table ++ lit " {";
   9 :: lit "chain egress {"; [9; 9] ++ lit "type filter hook output priority filter; policy drop;";
   accepted (lit "ct state established,related"); accepted (lit "oif " ++ quote :: lit "lo" ++ [quote])].
Definition closing : list rstr := [9 :: lit "}"; lit "}"].
Definition build_ruleset (p : NftPlan) : rstr :=
  concat (map line (opening (np_table p) ++ resolver_rules p ++ map entry_rule (np_allow p) ++ closing)).
Record NftApplyPlan : Type := mkApply { na_ruleset : rstr; na_apply_argv : list rstr; na_teardown_argv : list rstr }.
Definition apply_commands : list rstr := map lit ["nft"; "-f"; "-"]%string.
Definition teardown_commands (table : rstr) : list rstr := map lit ["nft"; "delete"; "table"; "inet"]%string ++ [table].
Definition apply_plan (p : NftPlan) : NftApplyPlan :=
  mkApply (build_ruleset p) apply_commands (teardown_commands (np_table p)).

Record DnsFilterPlan : Type := mkFilterPlan {
  dp_resolv_conf : rstr;
  dp_dnsmasq_conf : rstr;
  dp_resolver : FilterResolverConfig;
  dp_nft : NftApplyPlan;
}.
Definition build_dns_filter_plan (table : rstr) (allow upstreams : list rstr) : DnsFilterPlan :=
  let resolver := from_allow_list allow upstreams in
  mkFilterPlan (resolv_conf_contents (fr_listen_ip resolver) (fr_listen_port resolver)) (dnsmasq_conf resolver) resolver
    (apply_plan (plan_from_allow_list table allow (Some (fr_listen_ip resolver)) (fr_listen_port resolver))).
Definition is_alnum (c : rchar) : bool :=
  is_ascii_digit c || ((65 <=? c) && (c <=? 90)) || ((97 <=? c) && (c <=? 122)).
Definition nft_table_name (container_name : rstr) : rstr :=
  let sanitised := map (fun c => if is_alnum c then c else chr "_") container_name in
  lit "cc_eg_" ++ (if 200 <? byte_len sanitised then take 200 sanitised else sanitised).

(** ** The spawn path *)

(** [egress_network_mode]: the network is cut when there is nothing to reach. *)
Definition egress_network_mode (mode : EgressMode) (allow : list rstr) : option string :=
  match mode with
  | DenyDefault => match allow with [] => Some "none"%string | _ => None end
  | AllowAll => None
  end.
Definition resolved_provider (agent_provider config_provider : option string) (default_provider : string) : option string :=
  let raw := default default_provider (or_else agent_provider config_provider) in
  if String.eqb raw "" then None
  else if String.eqb raw "claude" then Some "anthropic"%string else Some raw.
(** The model's key and address a container gets: a token for the broker, or the host's own. *)
Definition model_env (token_and_url : option (rstr * rstr)) (api_key base_url : option rstr) : list (string * rstr) :=
  match token_and_url with
  | Some (token, url) => [("ANTHROPIC_API_KEY", token); ("ANTHROPIC_BASE_URL", url)]%string
  | None => match api_key with Some k => [("ANTHROPIC_API_KEY"%string, k)] | None => [] end
            ++ match base_url with Some b => [("ANTHROPIC_BASE_URL"%string, b)] | None => [] end
  end.

(** The files of a session's directory the filter is made of; a write may fail. *)
Inductive FilterFile : Type := ResolvConf | DnsmasqConf | EgressNft.
#[export] Instance FilterFile_eq_dec : EqDecision FilterFile.
Proof. solve_decision. Defined.
Definition Written : Type := FilterFile -> option rstr.
Definition put_file (f : FilterFile) (c : option rstr) (w : Written) : Written := fun g => if decide (g = f) then c else w g.
(** [faults f]: that the write fails, and what it leaves of the file. *)
Definition write_file (faults : FilterFile -> option (option rstr -> option rstr)) (f : FilterFile) (text : rstr) (w : Written)
  : bool * Written :=
  match faults f with
  | Some leaves => (false, put_file f (leaves (w f)) w)
  | None => (true, put_file f (Some text) w)
  end.
(** Whether the container's [resolv.conf] is bound to the written one, and the files. *)
Definition wire_dns_filter (faults : FilterFile -> option (option rstr -> option rstr)) (container_name : rstr)
    (host_resolv : option rstr) (resolved_allow : list rstr) (w : Written) : bool * Written :=
  let plan := build_dns_filter_plan (nft_table_name container_name) resolved_allow (filter_upstreams host_resolv) in
  let '(written, w) := write_file faults ResolvConf (dp_resolv_conf plan) w in
  if negb written then (false, w)
  else
    let w := snd (write_file faults DnsmasqConf (dp_dnsmasq_conf plan) w) in
    (true, snd (write_file faults EgressNft (na_ruleset (dp_nft plan)) w)).
Inductive NftRuntimeStatus : Type := Available | ToolMissing | Unsupported.
Inductive NftApplyOutcome : Type :=
  Applied | DeferredNoTarget | DeferredApplyFailed | DeferredToolMissing | DeferredUnsupported.
(** [nsenter … nft -f -] with the ruleset: whether it exited with success. *)
Definition apply_session_nftables (status : NftRuntimeStatus) (host_pid : option Z) (run : Z -> rstr -> bool) (w : Written)
  : NftApplyOutcome :=
  match status with
  | ToolMissing => DeferredToolMissing
  | Unsupported => DeferredUnsupported
  | Available =>
      match host_pid with
      | None => DeferredNoTarget
      | Some pid => match w EgressNft with
                    | None => DeferredApplyFailed
                    | Some ruleset => if run pid ruleset then Applied else DeferredApplyFailed
                    end
      end
  end.
