(* ===== verification/EgressProps.v ===== *)
(** What the allow-list, the DNS filter and the ruleset of a container have to do with each
    other: the model's endpoint is open, the filter and the rules speak of the same names,
    the ruleset is the list and nothing else; and the entries for which this fails. *)
From S2P Require Import Prelude Types Split IpAddr Broker BrokerProps Egress.

(** ** A text without colons is no IPv6 address *)

Definition consumes {A} (p : Parser A) : Prop := forall s a r, p s = Some (a, r) -> exists u, s = u ++ r.
Lemma read_digits_consumes radix max acc k s n m r :
  read_digits radix max acc k s = Some (n, m, r) -> exists u, s = u ++ r.
Proof.
  revert max acc k. induction s as [|c s IH]; intros max acc k; cbn [read_digits].
  - intros H. injection H as _ _ <-. by exists [].
  - destruct (digit_of radix c); [|intros H; injection H as _ _ <-; by exists []]. destruct max; [done|].
    intros H. apply IH in H as [u ->]. by exists (c :: u).
Qed.
Lemma read_number_consumes radix max limit zero : consumes (read_number radix max limit zero).
Proof.
  intros s a r. unfold read_number. destruct (read_digits _ _ _ _ s) as [[[n k] rest]|] eqn:E; [|done].
  apply read_digits_consumes in E as [u ->]. destruct (_ =? 0)%nat; [done|]. destruct (_ && _); [done|].
  destruct (_ <=? _); [|done]. intros [= <- <-]. by exists u.
Qed.
Lemma read_separator_consumes {A} sep i (p : Parser A) : consumes p -> consumes (read_separator sep i p).
Proof.
  intros Hp s a r. unfold read_separator. destruct i; [apply Hp|]. destruct s as [|c s]; [done|].
  destruct (c =? sep); [|done]. intros H. apply Hp in H as [u ->]. by exists (c :: u).
Qed.
Lemma read_ipv4_consumes : consumes read_ipv4_addr.
Proof.
  intros s a r. unfold read_ipv4_addr, read_octet.
  assert (forall i, consumes (read_separator (chr ".") i (read_number 10 3 255 false))) as Ho
    by (intros i; apply read_separator_consumes, read_number_consumes).
  destruct (read_separator _ 0 _ s) as [[x1 s1]|] eqn:E1; [|done]. apply Ho in E1 as [u1 ->].
  destruct (read_separator _ 1 _ s1) as [[x2 s2]|] eqn:E2; [|done]. apply Ho in E2 as [u2 ->].
  destruct (read_separator _ 2 _ s2) as [[x3 s3]|] eqn:E3; [|done]. apply Ho in E3 as [u3 ->].
  destruct (read_separator _ 3 _ s3) as [[x4 s4]|] eqn:E4; [|done]. apply Ho in E4 as [u4 ->].
  intros [= <- <-]. exists (u1 ++ u2 ++ u3 ++ u4). by rewrite <- !app_assoc.
Qed.
Lemma no_separator {A} sep i (p : Parser A) s : ~ In sep s -> read_separator sep (S i) p s = None.
Proof. destruct s as [|c s]; [done|]. cbn. intros H. destruct (Z.eqb_spec c sep) as [->|]; [destruct H; by left | done]. Qed.
(** Past the first group nothing is read without a colon. *)
Lemma read_groups_no_colon left i s : ~ In colon s ->
  let '(gs, _, rest) := read_groups left i s in (length gs <= 2)%nat /\ ~ In colon rest.
Proof.
  intros Hs. destruct left as [|left]; cbn [read_groups]; [by split; [cbn; lia|]|].
  change (chr ":") with colon.
  assert (forall A (p : Parser A) a r, consumes p -> p s = Some (a, r) -> ~ In colon r) as Hr.
  { intros A p a r Hp E Hin. apply Hp in E as [u ->]. apply Hs, in_app_iff. by right. }
  destruct (match left with O => None | S _ => read_separator colon i read_ipv4_addr s end) as [[[a b c d] rest]|] eqn:E4.
  { split; [cbn; lia|]. destruct left; [done|]. eapply Hr; [|exact E4]. apply read_separator_consumes, read_ipv4_consumes. }
  destruct (read_separator colon i (read_number 16 4 65535 true) s) as [[g rest]|] eqn:E; [|by split; [cbn; lia|]].
  assert (~ In colon rest) as Hn by (eapply Hr; [|exact E]; apply read_separator_consumes, read_number_consumes).
  destruct left as [|left]; cbn [read_groups]; [by split; [cbn; lia|]|]. change (chr ":") with colon.
  rewrite !(no_separator colon i) by done. destruct left; by split; [cbn; lia|].
Qed.
Lemma parse_ipv6_no_colon s : ~ In colon s -> parse_ipv6 s = None.
Proof.
  intros Hs. unfold parse_ipv6, parse_with, read_ipv6_addr. pose proof (read_groups_no_colon 8 0 s Hs) as Hg.
  destruct (read_groups 8 0 s) as [[head v] rest]. destruct Hg as [Hl Hr].
  destruct (Nat.eqb_spec (length head) 8); [lia|]. destruct v; [done|].
  destruct (strip_prefix (lit "::") rest) as [tail|] eqn:E; [|done]. apply strip_prefix_Some in E as ->. destruct Hr. by left.
Qed.

(** ** Entries as the code writes them *)

Definition solid_ends (s : rstr) : Prop :=
  exists c m d, s = c :: m /\ last s = Some d /\ is_whitespace c = false /\ is_whitespace d = false.
(** A name or an IPv4 address. *)
Definition clean_host (h : rstr) : Prop :=
  solid_ends h /\ ~ In colon h /\ ~ In (chr "[") h /\ ~ In (chr "]") h.
Definition port_ok (p : Z) : Prop := 1 <= p <= 65535.

Lemma show_port p : port_ok p -> parse_port (show_z p) = Some p.
Proof.
  intros Hp. unfold parse_port, port_ok in *. rewrite parse_uint_show by (unfold u64_max; lia). cbn [keep].
  by rewrite (proj2 (Z.eqb_neq p 0)) by lia.
Qed.
Lemma port_digits p : port_ok p -> exists ds d, show_z p = ds ++ [d] /\ is_whitespace d = false /\ ~ In colon (show_z p).
Proof.
  intros Hp. destruct (show_z_spec p) as (Hne & _ & Hd); [unfold port_ok, u64_max in *; lia|].
  rewrite List.Forall_forall in Hd. assert (forall c, In c (show_z p) -> 48 <= c <= 57) as Hr.
  { intros c Hc. specialize (Hd c Hc). unfold is_ascii_digit in Hd. bool_to_prop. lia. }
  destruct (exists_last Hne) as (ds & d & E). exists ds, d. split; [done|]. split.
  - assert (48 <= d <= 57) by (apply Hr; rewrite E; apply in_app_iff; right; by left).
    unfold is_whitespace. repeat (rewrite ?orb_false_iff, ?andb_false_iff, ?Z.leb_gt, ?Z.eqb_neq). lia.
  - intros Hin. apply Hr in Hin. unfold colon in Hin. vm_compute in Hin. by destruct Hin as [_ []].
Qed.
Lemma trim_entry c m p : is_whitespace c = false -> port_ok p -> trim (entry_text (c :: m) p) = entry_text (c :: m) p.
Proof.
  intros Hc Hp. destruct (port_digits p Hp) as (ds & d & E & Hd & _). unfold entry_text. rewrite E.
  change ((c :: m) ++ colon :: ds ++ [d]) with (c :: m ++ (colon :: ds) ++ [d]). rewrite app_assoc. by apply trim_id.
Qed.
Lemma count_char_absent d s : ~ In d s -> count_char d s = 0%nat.
Proof.
  unfold count_char. induction s as [|c s IH]; intros Hn; [done|]. cbn.
  destruct (Z.eqb_spec c d) as [->|]; [destruct Hn; by left|]. apply IH. intros Hin. apply Hn. by right.
Qed.
Lemma count_char_app d a b : count_char d (a ++ b) = (count_char d a + count_char d b)%nat.
Proof. unfold count_char. by rewrite List.filter_app, length_app. Qed.
Lemma count_entry h p : ~ In colon h -> port_ok p -> count_char colon (entry_text h p) = 1%nat.
Proof.
  intros Hh Hp. destruct (port_digits p Hp) as (_ & _ & _ & _ & Hn). unfold entry_text.
  rewrite count_char_app, (count_char_absent _ h Hh). change (colon :: show_z p) with ([colon] ++ show_z p).
  by rewrite count_char_app, (count_char_absent _ _ Hn).
Qed.
(** The parts of an entry for a name or an IPv4 address. *)
Lemma entry_shape h p : clean_host h -> port_ok p ->
  trim (entry_text h p) = entry_text h p /\ is_nil (entry_text h p) = false
  /\ strip_prefix (lit "[") (entry_text h p) = None /\ (1 <? count_char colon (entry_text h p))%nat = false
  /\ split_once colon (entry_text h p) = Some (h, show_z p) /\ is_nil h = false.
Proof.
  intros ((c & m & d & -> & _ & Hc & _) & Hcol & Hbr & _) Hp. split; [by apply trim_entry|]. split; [done|].
  split; [|split; [by rewrite count_entry|split; [by apply split_once_app | done]]].
  cbn [entry_text app strip_prefix lit]. change (Z.of_N (N_of_ascii "[")) with (chr "[").
  destruct (Z.eqb_spec (chr "[") c) as [<-|]; [destruct Hbr; by left | done].
Qed.
Lemma parse_entry_clean h p : clean_host h -> port_ok p -> parse_entry (entry_text h p) = Some (mkAllow h p).
Proof.
  intros Hh Hp. destruct (entry_shape h p Hh Hp) as (Et & En & Eb & Ec & Es & Eh). unfold parse_entry.
  by rewrite Et, En, Eb, Ec, Es, (show_port p Hp), Eh.
Qed.
Lemma allow_name_clean h p : clean_host h -> port_ok p ->
  allow_name (entry_text h p) = match parse_ipv4 h with Some _ => None | None => Some h end.
Proof.
  intros Hh Hp. destruct (entry_shape h p Hh Hp) as (Et & En & Eb & Ec & Es & Eh). unfold allow_name, starts_with.
  by rewrite Et, En, Eb, Ec, Es, Eh.
Qed.
Lemma trim_start_by_absent d s : ~ In d s -> trim_start_by (fun c => c =? d) s = s.
Proof.
  destruct s as [|c s]; [done|]. intros Hn. cbn. destruct (Z.eqb_spec c d) as [->|]; [destruct Hn; by left | done].
Qed.
Lemma host_match_clean h p : clean_host h ->
  host_match (mkAllow h p) = match parse_ipv4 h with Some a => MatchV4 a | None => MatchName h end.
Proof.
  intros (_ & Hcol & Hl & Hr). unfold host_match, without_brackets. cbn [ae_host].
  rewrite (trim_start_by_absent _ h Hl), (trim_start_by_absent (chr "]") (rev h)) by by rewrite <- in_rev.
  by rewrite rev_involutive, (parse_ipv6_no_colon h Hcol).
Qed.
(** A bracketed address; the rules have it without its brackets, the filter has no name. *)
Lemma bracketed_entry s p : s <> [] -> ~ In (chr "]") s -> port_ok p ->
  let e := entry_text (lit "[" ++ s ++ lit "]") p in
  parse_entry e = Some (mkAllow s p) /\ allow_name e = None.
Proof.
  intros Hne Hs Hp. cbv zeta. change (lit "[" ++ s ++ lit "]") with (chr "[" :: s ++ [chr "]"]).
  assert (trim (entry_text (chr "[" :: s ++ [chr "]"]) p) = entry_text (chr "[" :: s ++ [chr "]"]) p) as Et by by apply trim_entry.
  unfold parse_entry, allow_name. rewrite Et. unfold entry_text. cbn [app is_nil].
  split; [|done]. rewrite <- app_assoc. cbn [app].
  change (strip_prefix (lit "[") (chr "[" :: s ++ chr "]" :: colon :: show_z p)) with (Some (s ++ chr "]" :: colon :: show_z p)).
  cbv iota. rewrite (split_once_app _ s _ Hs).
  change (strip_prefix [colon] (colon :: show_z p)) with (Some (show_z p)). cbv iota.
  destruct (port_digits p Hp) as (ds & d & E & _). pose proof (show_port p Hp) as Hsp.
  destruct (show_z p) as [|c m]; [by destruct ds|]. rewrite Hsp. by destruct s.
Qed.

(** ** Sets in order *)

Lemma insert_sorted_In {A} leb eqb (x y : A) l : (forall a b, eqb a b = true -> a = b) ->
  In y (insert_sorted leb eqb x l) <-> y = x \/ In y l.
Proof.
  intros Heq. induction l as [|z l IH]; cbn [insert_sorted]; [cbn; intuition|].
  destruct (eqb x z) eqn:E; [apply Heq in E as ->; cbn; intuition|].
  destruct (leb x z); cbn; [intuition|]. rewrite IH. tauto.
Qed.
Lemma sorted_set_In {A} leb eqb (y : A) l : (forall a b, eqb a b = true -> a = b) ->
  In y (sorted_set leb eqb l) <-> In y l.
Proof.
  intros Heq. unfold sorted_set. induction l as [|x l IH]; [done|]. cbn [fold_right]. rewrite insert_sorted_In, IH by done.
  cbn. intuition.
Qed.
Lemma entry_eqb_eq a b : entry_eqb a b = true -> a = b.
Proof.
  destruct a as [h p], b as [h' p']. unfold entry_eqb. cbn. intros E. apply andb_prop in E as [E1 E2].
  apply rstr_eqb_eq in E1 as ->. by apply Z.eqb_eq in E2 as ->.
Qed.
Lemma rstr_eqb_true a b : rstr_eqb a b = true -> a = b.
Proof. apply rstr_eqb_eq. Qed.
Lemma plan_entries table allow ip port a :
  In a (np_allow (plan_from_allow_list table allow ip port)) <-> exists e, In e allow /\ parse_entry e = Some a.
Proof.
  cbn [np_allow plan_from_allow_list]. rewrite sorted_set_In by apply entry_eqb_eq. unfold entries_of.
  rewrite in_flat_map. split; intros (e & He & Ha); exists e; (split; [done|]).
  - destruct (parse_entry e); [by destruct Ha as [-> | []] | done].
  - rewrite Ha. by left.
Qed.
Lemma filter_names allow n :
  In n (allow_list_names allow) <-> exists e h, In e allow /\ allow_name e = Some h /\ n = map to_ascii_lowercase h.
Proof.
  unfold allow_list_names. rewrite sorted_set_In by apply rstr_eqb_true. unfold names_of. rewrite in_flat_map. split.
  - intros (e & He & Hn). exists e. destruct (allow_name e) as [h|]; [|done]. destruct Hn as [<- | []]. by exists h.
  - intros (e & h & He & Hh & ->). exists e. rewrite Hh. by split; [|left].
Qed.

(** ** The names of filter and rules *)

(** An entry for one host, as the operator is meant to write them. *)
Definition clean_entry (e : rstr) : Prop := exists h p, e = entry_text h p /\ clean_host h /\ port_ok p.

(** C19. For a list of clean entries the DNS filter answers exactly the names, in lower case,
    whose rules leave the address to it: no rule without its name, no name without its
    rule. *)
Theorem filter_and_rules_agree table allow ip port n : Forall clean_entry allow ->
  In n (allow_list_names allow) <->
  exists m, In m (delegated_names (plan_from_allow_list table allow ip port)) /\ n = map to_ascii_lowercase m.
Proof.
  intros Hall. rewrite Forall_forall in Hall. rewrite filter_names. unfold delegated_names. setoid_rewrite in_flat_map.
  setoid_rewrite plan_entries. split.
  - intros (e & h & He & Hn & ->). exists h. split; [|done].
    destruct (Hall e) as (h' & p & -> & Hc & Hp); [by apply list_elem_of_In|].
    rewrite (allow_name_clean h' p Hc Hp) in Hn. exists (mkAllow h' p). rewrite (host_match_clean h' p Hc).
    destruct (parse_ipv4 h'); [done|]. injection Hn as ->. split; [|by left]. eexists. split; [exact He|]. by apply parse_entry_clean.
  - intros (m & (a & (e & He & Ha) & Hm) & ->). exists e, m. split; [done|]. split; [|done].
    destruct (Hall e) as (h & p & -> & Hc & Hp); [by apply list_elem_of_In|].
    rewrite (parse_entry_clean h p Hc Hp) in Ha. injection Ha as <-. rewrite (host_match_clean h p Hc) in Hm.
    rewrite (allow_name_clean h p Hc Hp). destruct (parse_ipv4 h); [done|]. by destruct Hm as [<- | []].
Qed.

(** ** The model's endpoint *)

Lemma parse_port_ok s p : parse_port s = Some p -> port_ok p.
Proof.
  unfold parse_port, port_ok. destruct (parse_uint 65535 s) as [n|] eqn:E; [|done]. cbn [keep].
  pose proof (parse_uint_nonneg _ _ _ E). assert (n <= 65535).
  { unfold parse_uint in E. destruct (match strip_prefix _ s with Some r => r | None => s end) as [|c b]; [done|].
    destruct (parse_digits 0 (c :: b)) as [k|]; [|done]. destruct (Z.leb_spec k 65535); [|done]. by injection E as <-. }
  destruct (Z.eqb_spec n 0); [done|]. intros [= <-]. lia.
Qed.
Lemma split_host_port_ok s d h p : port_ok d -> split_host_port s d = Some (h, p) -> port_ok p.
Proof.
  intros Hd. unfold split_host_port.
  assert (forall t h', option_map (fun port => (h', port)) (parse_port t) = Some (h, p) -> port_ok p) as Hp.
  { intros t h'. destruct (parse_port t) eqn:E; [|done]. intros [= <- <-]. by apply parse_port_ok in E. }
  destruct (strip_prefix (lit "[") s) as [r|].
  - destruct (split_once _ r) as [[a b]|]; [|done]. destruct (strip_prefix [colon] b) as [[|c t]|]; [by intros [= <- <-] | apply Hp | by intros [= <- <-]].
  - destruct (1 <? _)%nat; [by intros [= <- <-]|]. destruct (split_once colon s) as [[a b]|]; [apply Hp | by intros [= <- <-]].
Qed.
Lemma endpoint_shape base e : model_endpoint_entry base = Some e ->
  exists host port, e = entry_text host port /\ host <> [] /\ port_ok port.
Proof.
  unfold model_endpoint_entry. destruct (is_nil (trim base)); [done|].
  destruct (match split_once_str _ _ with Some _ => _ | None => _ end) as [scheme rest].
  set (hp := match rsplit_once _ _ with Some _ => _ | None => _ end). destruct (is_nil hp); [done|].
  set (d := match scheme with Some _ => _ | None => _ end).
  assert (port_ok d) as Hd by (subst d; unfold port_ok; destruct scheme as [sc|]; [destruct (rstr_eqb sc _)|]; lia).
  destruct (split_host_port hp d) as [[host port]|] eqn:E; [|done]. apply (split_host_port_ok _ _ _ _ Hd) in E.
  destruct host as [|c host]; [done|]. cbn [is_nil]. intros [= <-]. by exists (c :: host), port.
Qed.
Lemma add_new_prefix out entries : exists more, add_new out entries = out ++ more.
Proof.
  revert out. induction entries as [|e rest IH]; intros out; cbn [add_new]; [exists []; by rewrite app_nil_r|].
  destruct (existsb _ out); [apply IH|]. destruct (IH (out ++ [e])) as [more ->]. exists (e :: more). by rewrite <- app_assoc.
Qed.

(** The endpoint a model's URL names is the first entry of the list, whatever the
    operator allows: with it the network is never cut, and when its host is a name or an
    IPv4 address there is a rule for host and port, and a name is answered by the filter. *)
Theorem model_endpoint_open base e allow table ip port : model_endpoint_entry base = Some e ->
  let list := resolve_allow_list allow (Some base) in
  head list = Some e /\ egress_network_mode DenyDefault list = None
  /\ exists h p, e = entry_text h p /\ port_ok p
     /\ (clean_host h ->
         In (mkAllow h p) (np_allow (plan_from_allow_list table list ip port))
         /\ (parse_ipv4 h = None -> In (map to_ascii_lowercase h) (allow_list_names list))).
Proof.
  intros He list. destruct (endpoint_shape base e He) as (h & p & Ee & _ & Hp).
  assert (exists more, list = e :: more) as [more El].
  { subst list. unfold resolve_allow_list. cbn [base.mbind option_bind]. rewrite He. apply add_new_prefix. }
  rewrite El. split; [done|]. split; [done|]. exists h, p. split; [done|]. split; [done|]. intros Hc. split.
  - apply plan_entries. exists e. split; [by left|]. rewrite Ee. by apply parse_entry_clean.
  - intros H4. apply filter_names. exists e, h. split; [by left|]. split; [|done].
    rewrite Ee, (allow_name_clean h p Hc Hp). by rewrite H4.
Qed.

(** ** The text of the ruleset *)

Definition one_line (s : rstr) : Prop := ~ In newline s.
Lemma one_line_nil : one_line [].
Proof. by intros []. Qed.
Lemma one_line_app a b : one_line a -> one_line b -> one_line (a ++ b).
Proof. intros Ha Hb Hin. apply in_app_iff in Hin as [?|?]; [by apply Ha | by apply Hb]. Qed.
Lemma one_line_cons c s : c <> newline -> one_line s -> one_line (c :: s).
Proof. intros Hc Hs [->|Hin]; [done | by apply Hs]. Qed.
Lemma one_line_lit (t : string) : forallb (fun c => negb (c =? newline)) (lit t) = true -> one_line (lit t).
Proof. intros Hf Hin. rewrite forallb_forall in Hf. by specialize (Hf _ Hin). Qed.
Lemma one_line_show_z n : one_line (show_z n).
Proof.
  assert (forall fuel n acc, one_line acc -> one_line (show_digits fuel n acc)) as Hs.
  { induction fuel as [|f IH]; intros k acc Ha; cbn [show_digits]; [done|].
    assert (one_line ((48 + k mod 10) :: acc)) as Hc.
    { apply one_line_cons; [|done]. pose proof (Z.mod_pos_bound k 10 ltac:(done)). unfold newline. lia. }
    destruct (k <? 10); [done | by apply IH]. }
  apply Hs, one_line_nil.
Qed.
Create HintDb one_line.
#[export] Hint Resolve one_line_nil one_line_app one_line_cons one_line_show_z : one_line.
#[export] Hint Extern 1 (one_line (lit _)) => apply one_line_lit; reflexivity : one_line.
#[export] Hint Extern 1 (_ <> newline) => discriminate : one_line.

Lemma one_line_ipv4 a : one_line (show_ipv4 a).
Proof. unfold show_ipv4. auto 10 with one_line. Qed.
Lemma one_line_hex n : one_line (show_hex n).
Proof.
  assert (forall k, hex_digit (k mod 16) <> newline) as Hd.
  { intros k. pose proof (Z.mod_pos_bound k 16 ltac:(done)). unfold hex_digit, newline. destruct (_ <? 10) eqn:E; bool_to_prop; lia. }
  unfold show_hex. repeat case_goal; auto 10 with one_line.
Qed.
Lemma one_line_groups s : one_line (show_groups s).
Proof.
  unfold show_groups. induction s as [|x s IH]; [apply one_line_nil|]. destruct s as [|y s]; [apply one_line_hex|].
  cbn [map join] in *. apply one_line_app; [apply one_line_hex|]. by apply one_line_cons.
Qed.
Lemma one_line_ipv6 s : one_line (show_ipv6 s).
Proof.
  unfold show_ipv6. destruct (to_ipv4_mapped s); [auto using one_line_ipv4 with one_line|].
  destruct (longest_zeros 0 0 0 (0%nat, 0%nat) s) as [st len]. destruct (1 <? len)%nat; auto 6 using one_line_groups with one_line.
Qed.
#[export] Hint Resolve one_line_ipv4 one_line_ipv6 : one_line.
Lemma one_line_quoted t : one_line t -> one_line (remark t).
Proof. intros Ht. unfold remark. apply one_line_app; [auto with one_line|]. apply one_line_cons; [done|]. auto with one_line. Qed.
Lemma one_line_accepted s : one_line s -> one_line (accepted s).
Proof. intros Hs. unfold accepted. auto 8 with one_line. Qed.
Lemma one_line_dport (t : string) n : one_line (lit t) -> one_line (dport t n).
Proof. intros Ht. unfold dport. auto 8 with one_line. Qed.
#[export] Hint Resolve one_line_quoted one_line_accepted one_line_dport : one_line.
Lemma one_line_rule e : one_line (ae_host e) -> one_line (entry_rule e).
Proof.
  intros He. unfold entry_rule. assert (forall n, host_match e = MatchName n -> one_line n) as Hn.
  { unfold host_match. intros n. destruct (parse_ipv4 _); [done|]. destruct (parse_ipv6 _); [done|]. by intros [= <-]. }
  destruct (host_match e) eqn:E; auto 10 with one_line.
Qed.
Lemma split_lines ls : Forall one_line ls -> split_char newline (concat (map line ls)) = ls ++ [[]].
Proof.
  induction 1 as [|l ls Hl _ IH]; [done|]. cbn [map concat app]. unfold line at 1. rewrite <- app_assoc. cbn [app].
  rewrite split_char_app by done. by rewrite IH.
Qed.
Lemma take_one_line n s : one_line s -> one_line (take n s).
Proof. intros Hs Hin. apply Hs. rewrite <- (take_drop n s). apply in_app_iff. by left. Qed.
Lemma drop_one_line n s : one_line s -> one_line (drop n s).
Proof. intros Hs Hin. apply Hs. rewrite <- (take_drop n s). apply in_app_iff. by right. Qed.
Lemma trim_start_by_sub p (c : rchar) s : In c (trim_start_by p s) -> In c s.
Proof. induction s as [|x s IH]; cbn; [done|]. destruct (p x); [intros Hin; right; by apply IH | done]. Qed.
Lemma trim_one_line s : one_line s -> one_line (trim s).
Proof.
  intros Hs Hin. unfold trim, trim_end, trim_start in Hin. apply in_rev in Hin. apply trim_start_by_sub in Hin.
  apply in_rev, trim_start_by_sub in Hin. by apply Hs.
Qed.
Lemma split_once_one_line d s a b : one_line s -> split_once d s = Some (a, b) -> one_line a.
Proof. intros Hs E Hin. apply split_once_Some in E as [-> _]. apply Hs, in_app_iff. by left. Qed.
Lemma parse_entry_one_line e a : one_line e -> parse_entry e = Some a -> one_line (ae_host a).
Proof.
  intros He. apply trim_one_line in He. unfold parse_entry. destruct (is_nil (trim e)); [done|].
  destruct (strip_prefix (lit "[") (trim e)) as [rest|] eqn:Es.
  - apply strip_prefix_Some in Es. assert (one_line rest) as Hr by (intros Hin; apply He; rewrite Es; by right).
    destruct (split_once _ rest) as [[h after]|] eqn:E; [|done].
    destruct (match strip_prefix _ after with Some _ => _ | None => _ end); [|done]. destruct (is_nil h); [done|].
    intros [= <-]. by eapply split_once_one_line.
  - destruct (1 <? _)%nat; [by intros [= <-]|]. destruct (split_once colon (trim e)) as [[h p]|] eqn:E; [|by intros [= <-]].
    destruct (parse_port p); [|done]. destruct (is_nil h); [done|]. intros [= <-]. by eapply split_once_one_line.
Qed.

(** The ruleset of a container drops what no rule accepts, and its rules are those for
    answers, the loopback and the filter, and one for each entry of the list that can be
    read, in order of host and port: nothing else is on any line, as long as no entry holds
    a line break. *)
Theorem ruleset_is_list table allow : one_line table -> Forall one_line allow ->
  let plan := plan_from_allow_list table allow (Some DEFAULT_FILTER_RESOLVER_IP) DEFAULT_FILTER_RESOLVER_PORT in
  let rules := map entry_rule (np_allow plan) in
  split_char newline (build_ruleset plan) =
    opening table
    ++ [accepted (lit "ip daddr 127.0.0.1 udp dport 53"); accepted (lit "ip daddr 127.0.0.1 tcp dport 53")]
    ++ rules ++ closing ++ [[]]
  /\ forall l, In l rules <-> exists e a, In e allow /\ parse_entry e = Some a /\ l = entry_rule a.
Proof.
  intros Ht Hall plan rules. rewrite Forall_forall in Hall. split.
  - unfold build_ruleset. rewrite split_lines; [by rewrite <- !app_assoc|].
    apply Forall_app; split; [|apply Forall_app; split; [|apply Forall_app; split]].
    + cbn [np_table plan plan_from_allow_list]. unfold opening. repeat (apply Forall_cons_2; [auto 10 with one_line|]). by apply Forall_nil_2.
    + change (resolver_rules plan) with [accepted (lit "ip daddr 127.0.0.1 udp dport 53"); accepted (lit "ip daddr 127.0.0.1 tcp dport 53")].
      repeat (apply Forall_cons_2; [auto with one_line|]). by apply Forall_nil_2.
    + apply Forall_map, Forall_forall. intros a Ha. apply list_elem_of_In, plan_entries in Ha as (e & He & Ha).
      apply one_line_rule. eapply parse_entry_one_line; [|exact Ha]. by apply Hall, list_elem_of_In.
    + unfold closing. repeat (apply Forall_cons_2; [auto with one_line|]). by apply Forall_nil_2.
  - intros l. unfold rules. rewrite in_map_iff. split.
    + intros (a & <- & Ha). apply plan_entries in Ha as (e & He & Ha). by exists e, a.
    + intros (e & a & He & Ha & ->). exists a. split; [done|]. apply plan_entries. by exists e.
Qed.

(** ** Lists at the edge *)

Module EgressDemo.
Definition api : rstr := lit "https://api.anthropic.com".
Definition db : rstr := lit "db.local:5432".
Lemma clean (t : string) (p : Z) : port_ok p ->
  (match lit t with c :: m => negb (is_whitespace c) && negb (is_whitespace (List.last (c :: m) c)) | [] => false end
   && forallb (fun c => negb (existsb (Z.eqb c) [colon; chr "["; chr "]"])) (lit t)) = true ->
  clean_entry (entry_text (lit t) p).
Proof.
  intros Hp Hb. exists (lit t), p. split; [done|]. split; [|done]. apply andb_prop in Hb as [Hw Hf].
  rewrite forallb_forall in Hf. split.
  - destruct (lit t) as [|c m]; [done|]. exists c, m, (List.last (c :: m) c). apply andb_prop in Hw as [H1 H2].
    apply negb_true_iff in H1, H2. split; [done|]. split; [|done]. clear. revert c.
    induction m as [|d m IH] using rev_ind; intros c; [done|].
    rewrite app_comm_cons, last_snoc, List.last_last. done.
  - repeat split; intros Hin; by specialize (Hf _ Hin).
Qed.
Lemma filter_and_rules_agree_witness :
  In (lit "db.local") (allow_list_names [entry_text (lit "DB.local") 5432; entry_text (lit "10.0.0.1") 80]).
Proof.
  apply (filter_and_rules_agree (lit "t") _ None 53).
  - repeat (apply Forall_cons_2; [apply clean; [unfold port_ok; lia | by vm_compute]|]). by apply Forall_nil_2.
  - exists (lit "DB.local"). split; [by left | by vm_compute].
Defined.
Lemma model_endpoint_open_witness :
  head (resolve_allow_list [db] (Some api)) = Some (lit "api.anthropic.com:443").
Proof. apply (model_endpoint_open api (lit "api.anthropic.com:443") [db] (lit "t") None 53). by vm_compute. Defined.
Lemma ruleset_is_list_witness :
  exists rules, split_char newline (build_ruleset (plan_from_allow_list (lit "t") [db] (Some DEFAULT_FILTER_RESOLVER_IP) DEFAULT_FILTER_RESOLVER_PORT))
    = opening (lit "t") ++ rules ++ closing ++ [[]] /\ length rules = 3%nat.
Proof.
  destruct (ruleset_is_list (lit "t") [db]) as [E _]; [auto with one_line | by apply Forall_singleton, one_line_lit |].
  eexists. split.
  - rewrite E. by rewrite (app_assoc _ (map _ _)).
  - by vm_compute.
Defined.

Definition rules_of (entry : string) : list rstr :=
  match parse_entry (lit entry) with Some a => [entry_rule a] | None => [] end.
(** Entries the operator's command takes.  An IPv6 address with a port becomes another
    address, open on another port. *)
Example bare_ipv6_is_another_address :
  validate_egress_entry (lit "::1:5432") = Ok tt
  /\ rules_of "::1:5432" = [accepted (lit "ip6 daddr ::1:5432 tcp dport 443")].
Proof. by vm_compute. Qed.
(** A host with a colon is a name the filter never answers, and its rule opens port 443 to
    every address. *)
Example colon_opens_https :
  validate_egress_entry (lit "http://db.local:5432") = Ok tt
  /\ rules_of "http://db.local:5432" = [entry_rule (mkAllow (lit "http://db.local:5432") 443)]
  /\ host_match (mkAllow (lit "http://db.local:5432") 443) = MatchName (lit "http://db.local:5432")
  /\ allow_name (lit "http://db.local:5432") = None.
Proof. by vm_compute. Qed.
(** An entry is written into the ruleset as it is: a line break adds a rule. *)
Definition smuggled : rstr := lit "x" ++ quote :: newline :: accepted (lit "meta l4proto tcp") ++ lit " #:443".
Example entry_smuggles_rule :
  validate_egress_entry smuggled = Ok tt
  /\ In (accepted (lit "meta l4proto tcp") ++ lit " # (dns-filtered)" ++ [quote])
       (split_char newline (build_ruleset (plan_from_allow_list (lit "t") [smuggled] None 53))).
Proof. split; [by vm_compute|]. vm_compute. do 8 right. by left. Qed.
(** With the broker the model's address is the broker's, and the list has the provider's:
    the container cannot reach the address it is given. *)
Definition broker_url : rstr := lit "http://172.17.0.1:8787".
Example broker_not_on_list :
  model_env (Some (lit "token", broker_url)) (Some (lit "key")) (Some api)
    = [("ANTHROPIC_API_KEY", lit "token"); ("ANTHROPIC_BASE_URL", broker_url)]%string
  /\ model_endpoint_entry broker_url = Some (lit "172.17.0.1:8787")
  /\ resolve_allow_list_for_provider [] (resolved_provider None None "anthropic") (Some api) None = [lit "api.anthropic.com:443"].
Proof. by vm_compute. Qed.
(** A ruleset counts as applied only when the command that loads it succeeded. *)
Example apply_outcomes :
  let '(pinned, w) := wire_dns_filter (fun _ => None) (lit "copperclaw-1") None [db] (fun _ => None) in
  pinned = true
  /\ apply_session_nftables Available (Some 7) (fun _ _ => true) w = Applied
  /\ apply_session_nftables Available (Some 7) (fun _ _ => false) w = DeferredApplyFailed
  /\ apply_session_nftables Available None (fun _ _ => true) w = DeferredNoTarget
  /\ fst (wire_dns_filter (fun f => if decide (f = ResolvConf) then Some id else None) (lit "copperclaw-1") None [db] (fun _ => None)) = false.
Proof. by vm_compute. Qed.
(** A ruleset that could not be written leaves the one of the last spawn to be applied. *)
Example stale_ruleset_applied :
  let old := Some (lit "old rules") in
  let '(pinned, w) := wire_dns_filter (fun f => if decide (f = EgressNft) then Some id else None) (lit "copperclaw-1") None [db]
                        (fun f => if decide (f = EgressNft) then old else None) in
  pinned = true /\ apply_session_nftables Available (Some 7) (fun _ rules => rstr_eqb rules (lit "old rules")) w = Applied.
Proof. by vm_compute. Qed.
End EgressDemo.
