(* ===== verification/ControlRows.v ===== *)
(** The control rows of a session
    ([copperclaw-host-delivery/src/service.rs], [handle_system] and what it calls;
    [system_actions.rs]; [copperclaw-modules/src/approvals.rs], [ApprovalCardHandler]):
    usage reports, changes of the container's configuration, requests that wait for a
    human, goals, conditions, the debit of grants, tool chips, edits and reactions, and
    the actions modules register.

    The state is that of the delivery loop with the session's inbox and the central
    tables the rows change; a write to one table does not fail but for the reasons the
    table's own operations have.  A panic of the schedule handler counts as an error. *)
From S2P Require Import Prelude Types MessagesIn Outbox Split TodoSchema Dispatch Grants Central Checklist StreamEdit Approvals Schedule Goals Conditions Interactive Budgets.

(** ** The content of a row *)

Definition private_key (k : string) : bool :=
  match k with String c _ => Ascii.eqb c "_" | EmptyString => false end.
Fixpoint first_public (o : list (string * json)) : option (string * json) :=
  match o with
  | [] => None
  | (k, v) :: rest => if private_key k then first_public rest else Some (k, v)
  end.
Definition parse_system_content (content : json) : result DeliveryError (option (string * json)) :=
  match content with
  | JObj o => Ok (first_public o)
  | _ => Err (ESystemAction "system content must be a JSON object")
  end.

(** ** State *)

(** [sv_in]: the session's inbox; [sv_approvals]: requests, grants, configurations;
    [sv_cards]: the messages handed to the dispatcher, each sent by a task of its own;
    [sv_fresh]: the next fresh id of the rows that need one. *)
Record Services : Type := mkServices {
  sv_in : list in_row;
  sv_approvals : AState;
  sv_goals : list GoalRow;
  sv_progress : list GoalProgress;
  sv_conditions : list StoredCondition;
  sv_flags : list ConditionFlag;
  sv_tasks : list TaskRow;
  sv_turns : list AgentTurn;
  sv_questions : gmap rstr PendingQuestion;
  sv_cards : list (string * string * option string * OutboundMessage);
  sv_fresh : uuid;
}.
Definition with_in (t : list in_row) (s : Services) : Services :=
  mkServices t (sv_approvals s) (sv_goals s) (sv_progress s) (sv_conditions s) (sv_flags s) (sv_tasks s)
    (sv_turns s) (sv_questions s) (sv_cards s) (sv_fresh s).
Definition with_approvals (a : AState) (s : Services) : Services :=
  mkServices (sv_in s) a (sv_goals s) (sv_progress s) (sv_conditions s) (sv_flags s) (sv_tasks s)
    (sv_turns s) (sv_questions s) (sv_cards s) (sv_fresh s).
Definition with_goals (g : GoalsDb) (s : Services) : Services :=
  mkServices (sv_in s) (sv_approvals s) (gd_goals g) (gd_progress g) (sv_conditions s) (sv_flags s) (sv_tasks s)
    (sv_turns s) (sv_questions s) (sv_cards s) (gd_fresh g).
Definition with_conditions (c : ConditionsDb) (s : Services) : Services :=
  mkServices (sv_in s) (sv_approvals s) (sv_goals s) (sv_progress s) (cd_conditions c) (cd_flags c) (sv_tasks s)
    (sv_turns s) (sv_questions s) (sv_cards s) (sv_fresh s).
Definition with_schedule (w : SchedWorld) (s : Services) : Services :=
  mkServices (sv_in s) (sv_approvals s) (sv_goals s) (sv_progress s) (sv_conditions s) (sv_flags s) (sw_tasks w)
    (sv_turns s) (sv_questions s) (sv_cards s) (sw_fresh w).
Definition with_turns (t : list AgentTurn) (s : Services) : Services :=
  mkServices (sv_in s) (sv_approvals s) (sv_goals s) (sv_progress s) (sv_conditions s) (sv_flags s) (sv_tasks s)
    t (sv_questions s) (sv_cards s) (sv_fresh s).
Definition with_questions (q : gmap rstr PendingQuestion) (s : Services) : Services :=
  mkServices (sv_in s) (sv_approvals s) (sv_goals s) (sv_progress s) (sv_conditions s) (sv_flags s) (sv_tasks s)
    (sv_turns s) q (sv_cards s) (sv_fresh s).
Definition with_cards (c : list (string * string * option string * OutboundMessage)) (s : Services) : Services :=
  mkServices (sv_in s) (sv_approvals s) (sv_goals s) (sv_progress s) (sv_conditions s) (sv_flags s) (sv_tasks s)
    (sv_turns s) (sv_questions s) c (sv_fresh s).
Definition next_id (s : Services) : Services :=
  mkServices (sv_in s) (sv_approvals s) (sv_goals s) (sv_progress s) (sv_conditions s) (sv_flags s) (sv_tasks s)
    (sv_turns s) (sv_questions s) (sv_cards s) (sv_fresh s + 1).

Definition SM (A : Type) : Type := stateful (world * Services) DeliveryError A.
(** A step of the delivery loop, and one on the services at the loop's wall clock. *)
Definition on_world {A} (m : M A) : SM A :=
  fun '(w, s) => let '(r, w') := m w in (r, (w', s)).
Definition on_services {A} (f : instant -> Services -> A * Services) : SM A :=
  fun '(w, s) => let '(a, s') := f (w_wall w) s in (Ok a, (w, s')).
Definition record (row : MessageOutRow) (pid : option string) (status : string) : SM unit :=
  on_world (record_delivered (mo_id row) pid status).
Definition record_ok (row : MessageOutRow) : SM unit := record row None "ok".

(** What the handlers call outside: directories of the host, the flag read at boot, the
    texts of ids, dates and errors, and the handlers that start agents and pass messages
    between them, which are not modelled. *)
Class ControlEnv : Type := {
  selfmod_hard_fail : bool;
  sessions_dir : option rstr;
  groups_dir : option rstr;
  show_instant : instant -> rstr;
  goal_refs : uuid -> uuid -> bool;
  condition_refs : uuid -> option rstr -> bool;
  task_refs : uuid -> uuid -> bool;
  task_id_text : uuid -> rstr;
  debug_text : option rstr -> string;
  agent_action : string -> DeliveryActionInput -> instant -> Services -> result rstr DeliveryActionOutput * Services;
}.

Section ControlRows.
Context `{Host} `{Outside} `{Calendar} `{ControlEnv}.

(** ** Failures the agent is told of *)

Definition text_field (k : string) (payload : json) : rstr := default [] (jget_str k payload).
Definition self_mod_error (action : string) (err guidance : rstr) : json :=
  JObj [("kind", JStr (lit "system"));
        ("content", JObj [("self_mod_error",
           JObj [("action", JStr (lit action)); ("error", JStr err); ("guidance", JStr guidance)])])]%string.
Definition host_notice (id : uuid) (now : instant) (content : json) : WriteInbound :=
  mkWriteInbound id System now content false false None None None None None None None None None.
(** The row is recorded as failed and the agent's inbox gets a notice; a notice that
    cannot be written is only logged. *)
Definition record_failure (row : MessageOutRow) (action : string) (reason guidance : rstr) : SM unit :=
  record row (Some (to_string reason)) "failed" ;;
  on_services (fun now s =>
    match insert (sv_in s) (host_notice (sv_fresh s) now (self_mod_error action reason guidance)) with
    | Ok (_, t) => (tt, next_id (with_in t s))
    | Err _ => (tt, next_id s)
    end).
Definition install_guidance : rstr :=
  lit "The package install was rejected. Inspect the error and either retry with corrected names or proceed without it.".
Definition skill_guidance : rstr :=
  lit "The skill could not be saved. Inspect the error; if it is a validation issue, correct the SKILL.md and retry.".
Definition grant_guidance : rstr :=
  lit "The capability grant could not be authorized. The task itself may still have been scheduled; if you meant to grant it, schedule the task and its grant in the same call.".
Definition record_self_mod_failure (row : MessageOutRow) (action : string) (err : DbError) : SM unit :=
  record_failure row action (db_text err) install_guidance.
Definition record_save_skill_failure (row : MessageOutRow) (reason : rstr) : SM unit :=
  record_failure row "save_skill" reason skill_guidance.
Definition record_task_grant_failure (row : MessageOutRow) (reason : rstr) : SM unit :=
  record_failure row "task_grant" reason grant_guidance.

Definition finish_self_mod (action : string) (row : MessageOutRow) (apply : result DbError unit) : SM unit :=
  match apply with
  | Ok _ => record_ok row
  | Err err =>
      if selfmod_hard_fail then fail (ESystemAction (to_string (lit action ++ lit ": " ++ db_text err)))
      else record_self_mod_failure row action err
  end.

(** ** The container's configuration *)

Definition ensure_config_row (ag : uuid) (a : AState) : result DbError AState :=
  match a_configs a !! ag with
  | Some _ => Ok a
  | None => if bool_decide (ag ∈ a_agents a) then Ok (on_configs <[ag := default_config]> a) else Err SqliteConstraint
  end.
Definition change_config (ag : uuid) (f : ContainerConfig -> ContainerConfig) (a : AState) : result DbError AState :=
  match a_configs a !! ag with
  | Some c => Ok (on_configs <[ag := f c]> a)
  | None => Err NotFound
  end.
(** The changes before one that fails stay. *)
Fixpoint change_each (ag : uuid) (fs : list (ContainerConfig -> ContainerConfig)) (a : AState)
  : result DbError unit * AState :=
  match fs with
  | [] => (Ok tt, a)
  | f :: rest => match change_config ag f a with
                 | Ok a' => change_each ag rest a'
                 | Err e => (Err e, a)
                 end
  end.
Definition with_config_row (ag : uuid) (fs : AState -> list (ContainerConfig -> ContainerConfig)) (a : AState)
  : result DbError unit * AState :=
  match ensure_config_row ag a with
  | Ok a' => change_each ag (fs a') a'
  | Err e => (Err e, a)
  end.
Definition apply_install_packages (ag : uuid) (payload : json) (a : AState) : result DbError unit * AState :=
  let apt_new := json_str_array payload "apt" in
  let npm_new := json_str_array payload "npm" in
  match apt_new, npm_new with
  | [], [] => (Ok tt, a)
  | _, _ => with_config_row ag (fun _ => map add_package_apt apt_new ++ map add_package_npm npm_new) a
  end.
Definition apply_add_mcp_server (ag : uuid) (payload : json) (a : AState) : result DbError unit * AState :=
  match not_blank (jget_str "name" payload) with
  | None => (Ok tt, a)
  | Some name =>
      let transport := default JNull (jget "transport" payload) in
      with_config_row ag
        (fun a' => [set_mcp_servers (<[name := transport]> (mcp_object (a_configs a' !! ag)))]) a
  end.

(** ** Rows applied at once *)

Definition on_approvals {A} (f : AState -> A * AState) : SM A :=
  on_services (fun now s =>
    let '(r, a) := f (set_wall now (sv_approvals s)) in (r, with_approvals a s)).
Definition goal_row (sess : Session) (payload : json) : SM (result DbError unit) :=
  on_services (fun now s =>
    let '(r, g) := apply_goal show_uuid goal_refs debug_text sess payload
                     (mkGoals (sv_goals s) (sv_progress s) (sv_fresh s) now) in (r, with_goals g s)).
Definition condition_row (sess : Session) (payload : json) : SM (result DbError unit) :=
  on_services (fun now s =>
    let '(r, c) := apply_condition condition_refs debug_text sess payload
                     (mkConditions (sv_conditions s) (sv_flags s) now) in (r, with_conditions c s)).
Definition grant_consume_row (payload : json) : SM (result DbError unit) :=
  on_services (fun now s =>
    match apply_grant_consume (a_grants (sv_approvals s)) payload now with
    | Ok t => (Ok tt, with_approvals (set_grants t (sv_approvals s)) s)
    | Err e => (Err e, s)
    end).
Definition usage_row (payload : json) : SM unit :=
  on_services (fun now s => (tt, with_turns (record_usage_report payload now (sv_turns s)) s)).

(** ** Rows that wait for a human *)

Definition button (label value style : rstr) : json :=
  JObj [("label", JStr label); ("value", JStr value); ("style", JStr style)]%string.
Definition approval_message (title body approve deny approval_id : rstr) : OutboundMessage :=
  mkOutbound Card
    (JObj [("card", JObj [("title", JStr title); ("body", JStr body);
       ("buttons", JArr [button approve (lit "approve:" ++ approval_id) (lit "primary");
                         button deny (lit "deny:" ++ approval_id) (lit "danger")])])]%string) [].
(** [HostDispatcher::dispatch]: a task of its own sends the message. *)
Definition dispatcher_dispatch (target : DispatchTarget) (m : OutboundMessage) (s : Services) : Services :=
  match dt_channel_type target, dt_platform_id target with
  | Some ct, Some pid =>
      match adapters ct with
      | Some _ => with_cards (sv_cards s ++ [(ct, pid, dt_thread_id target, m)]) s
      | None => s
      end
  | _, _ => s
  end.
Definition send_approval_card (target : DispatchTarget) (m : OutboundMessage) : SM unit :=
  on_services (fun _ s => (tt, dispatcher_dispatch target m s)).
Definition upsert_approval (req : UpsertPendingApproval) : SM (result ErrorPayload PendingApproval) :=
  on_approvals (upsert_request req).
Definition approval_request (request_id action title : rstr) (payload : json) (ag : uuid) (session : option uuid)
    (target : option DispatchTarget) : UpsertPendingApproval :=
  mkUpsertApproval session (to_string request_id) (to_string action) payload (Some ag)
    (target ≫= dt_channel_type) (target ≫= dt_platform_id) None None title [].

Definition path_join (base sub : rstr) : rstr :=
  match rev base with
  | c :: _ => if c =? chr "/" then base ++ sub else base ++ lit "/" ++ sub
  | [] => sub
  end.
Definition raise_taint_clearance_approval (sess : Session) (row : MessageOutRow) (target : option DispatchTarget)
    (payload : json) : SM unit :=
  let tool := default (lit "unknown") (jget_str "tool" payload) in
  let taint_source := default (lit "unknown") (jget_str "taint_source" payload) in
  match sessions_dir with
  | None => record_ok row
  | Some dir =>
      let clearance_dir := path_join (path_join dir (show_uuid (s_agent_group_id sess))) (show_uuid (s_id sess)) in
      let payload_out :=
        JObj [("tool", JStr tool); ("taint_source", JStr taint_source); ("session_id", JStr (show_uuid (s_id sess)));
              ("session_dir", JStr clearance_dir); ("allowed_root", JStr dir)]%string in
      let title := lit "Taint clearance: " ++ tool in
      let! approval := upsert_approval
        (approval_request (lit "taint-clearance:" ++ show_uuid (s_id sess)) (lit "taint_clearance") title payload_out
           (s_agent_group_id sess) (Some (s_id sess)) target) in
      match approval with
      | Err _ => record_ok row
      | Ok approval =>
          let body := lit "The agent was blocked from running `" ++ tool
            ++ lit "` because this turn's context contains untrusted content (taint source: `" ++ taint_source
            ++ lit "`). Approving clears credentialed external actions for exactly ONE turn of this session; the clearance expires unused after about an hour." in
          match target with
          | Some t => send_approval_card t (approval_message title body (lit "Approve one turn") (lit "Keep blocked")
                                              (show_uuid (pa_approval_id approval)))
          | None => ret tt
          end ;;
          record_ok row
      end
  end.

Definition with_reason (core reason : rstr) : rstr :=
  match trim reason with [] => core | _ => core ++ [newline; newline] ++ lit "Reason: " ++ reason end.
Definition NO_SKILLS_DIR : rstr :=
  lit "this host has no per-group skills directory configured (COPPERCLAW_GROUPS_DIR is unset), so save_skill cannot persist a skill; ask an operator to configure it".
Definition raise_save_skill_approval (sess : Session) (row : MessageOutRow) (target : DispatchTarget) (payload : json)
  : SM unit :=
  let ag := s_agent_group_id sess in
  let name := text_field "name" payload in
  let content := text_field "content" payload in
  let reason := text_field "reason" payload in
  match groups_dir with
  | None => record_save_skill_failure row NO_SKILLS_DIR
  | Some dir =>
      if is_nil name || is_nil content
      then record_save_skill_failure row (lit "save_skill payload is missing `name` or `content`")
      else
        let dest_dir := path_join (path_join dir (show_uuid ag)) (lit "skills") in
        let payload_out :=
          JObj [("name", JStr name); ("content", JStr content); ("reason", JStr reason); ("dest_dir", JStr dest_dir);
                ("allowed_root", JStr dir)]%string in
        let title := lit "Save skill: " ++ name in
        let! approval := upsert_approval
          (approval_request (lit "save-skill:" ++ show_uuid ag ++ lit ":" ++ name) (lit "save_skill") title payload_out
             ag None (Some target)) in
        match approval with
        | Err e => record_save_skill_failure row (lit "could not record the save_skill approval: " ++ ep_message e)
        | Ok approval =>
            let body := with_reason (lit "The agent wants to save a reusable skill `" ++ name ++ lit "` for future sessions.")
                          reason in
            send_approval_card target
              (approval_message title body (lit "Save this skill") (lit "Not now") (show_uuid (pa_approval_id approval))) ;;
            record_ok row
        end
  end.

Definition raise_task_grant_approval (sess : Session) (row : MessageOutRow) (target : DispatchTarget) (payload : json)
  : SM unit :=
  let task_name := text_field "task_name" payload in
  let scope := text_field "capability_scope" payload in
  let reason := text_field "reason" payload in
  let given k := default JNull (jget k payload) in
  if is_nil task_name || is_nil (trim scope)
  then record_task_grant_failure row (lit "task_grant payload is missing `task_name` or `capability_scope`")
  else
    let! found := on_services (fun _ s => (latest_for_session_by_name (sv_tasks s) (s_id sess) task_name, s)) in
    match found with
    | None =>
        record_task_grant_failure row
          (lit "could not find a task named `" ++ task_name
           ++ lit "` to attach the grant to; the task must be scheduled in the same call")
    | Some task =>
        let payload_out :=
          JObj [("task_id", JStr (t_id task)); ("task_name", JStr task_name); ("capability_scope", JStr scope);
                ("token_budget", given "token_budget"); ("max_fires", given "max_fires");
                ("expires_at", given "expires_at"); ("reason", JStr reason)]%string in
        let title := lit "Authorize task `" ++ task_name ++ lit "`" in
        let! approval := upsert_approval
          (approval_request (lit "task-grant:" ++ t_id task ++ lit ":" ++ task_name) (lit "task_grant") title payload_out
             (s_agent_group_id sess) (Some (s_id sess)) (Some target)) in
        match approval with
        | Err e => record_task_grant_failure row (lit "could not record the task_grant approval: " ++ ep_message e)
        | Ok approval =>
            let body := with_reason (lit "The agent wants to pre-authorize the scheduled task `" ++ task_name
                                     ++ lit "` to act autonomously within `" ++ scope ++ lit "`.") reason in
            send_approval_card target
              (approval_message title body (lit "Authorize") (lit "Not now") (show_uuid (pa_approval_id approval))) ;;
            record_ok row
        end
    end.

(** ** Actions of modules *)

Definition handle_approval_card (input : DeliveryActionInput) : result rstr DeliveryActionOutput :=
  let payload := in_payload input in
  match jget_str "approval_id" payload with
  | None => Err (module_error "missing approval_id")
  | Some approval_id =>
      let title := default (lit "Approval required") (jget_str "title" payload) in
      let body_core := default (lit "Tap Approve to grant this request, or Deny to reject it.")
                         (jget_str "description" payload) in
      let body := body_core ++ [newline; newline] ++ lit "The agent is paused, waiting for your approval." in
      Ok (mkActionOutput (dispatch_from_payload payload)
            (Some (approval_message title body (lit "Approve") (lit "Deny") approval_id)))
  end.
Definition handle_schedule (input : DeliveryActionInput) (now : instant) (s : Services)
  : result rstr DeliveryActionOutput * Services :=
  let '(r, w) := Schedule.handle task_id_text task_refs db_text show_instant
                   (mkInput (in_session_id input) (dt_agent_group_id (in_target input)) (in_payload input))
                   (mkSched (sv_tasks s) (sv_fresh s) now) in
  (match r with
   | Ok None => Ok (mkActionOutput None None)
   | Ok (Some content) => Ok (mkActionOutput None (Some (Interactive.chat_message content)))
   | Err (Fails e) => Err e
   | Err Panics => Err (lit "the handler panicked")
   end, with_schedule w s).
Definition handle_question (input : DeliveryActionInput) (now : instant) (s : Services)
  : result rstr DeliveryActionOutput * Services :=
  let '(r, q) := handle_ask now (sv_questions s) input in (r, with_questions q s).
Definition stateless (f : DeliveryActionInput -> result rstr DeliveryActionOutput)
    (input : DeliveryActionInput) (_ : instant) (s : Services) : result rstr DeliveryActionOutput * Services :=
  (f input, s).
(** The actions [CreateAgentModule], once for each profile, and [AgentDispatchModule] register. *)
Definition AGENT_ACTIONS : list string := ["create_agent"; "delegate"; "agent_dispatch"]%string.
(** The registry after the modules were installed. *)
Definition registered (name : string)
  : option (DeliveryActionInput -> instant -> Services -> result rstr DeliveryActionOutput * Services) :=
  if String.eqb name "schedule" then Some handle_schedule
  else if String.eqb name "ask_user_question" then Some handle_question
  else if String.eqb name "send_card" then Some (stateless handle_card)
  else if String.eqb name "edit" then Some (stateless handle_edit)
  else if String.eqb name "reaction" then Some (stateless handle_reaction)
  else if String.eqb name "approval_card" then Some (stateless handle_approval_card)
  else if existsb (String.eqb name) AGENT_ACTIONS then Some (agent_action name)
  else None.

(** A card goes to the channel's own hook when it is one. *)
Definition deliver_action_message (ct : string) (a : Adapter) (pid : string) (thread : option string)
    (message : OutboundMessage) : M (option string) :=
  let card := if bool_decide (om_kind message = Card) then jget "card" (om_content message) else None in
  match card with
  | Some v =>
      match parse_payload Card v with
      | inr card => rich_or_text ct a pid thread Card card None None adapter_error
      | inl _ => call_adapter ct a pid thread message
      end
  | None => call_adapter ct a pid thread message
  end.
(** The approval a card was for remembers the card's message; a failure is only logged. *)
Definition note_approval_card (approval : option uuid) (pmid : option string) : SM unit :=
  match approval, pmid with
  | Some id, Some p =>
      on_services (fun _ s =>
        (tt, match set_platform_message_id (a_pending (sv_approvals s)) id p with
             | Ok t => with_approvals (set_pending t (sv_approvals s)) s
             | Err _ => s
             end))
  | _, _ => ret tt
  end.
Definition empty_target : DispatchTarget := mkTarget None None None None.
Definition handler_target (sess : Session) (target : option DispatchTarget) : DispatchTarget :=
  let t := default empty_target target in
  mkTarget (dt_channel_type t) (dt_platform_id t) (dt_thread_id t)
    (or_else (dt_agent_group_id t) (Some (s_agent_group_id sess))).
(** What the handler asked to send. *)
Definition send_output (row : MessageOutRow) (target : option DispatchTarget) (approval : option uuid)
    (output : DeliveryActionOutput) : SM unit :=
  match out_message output with
  | None => record_ok row
  | Some msg =>
      let t := default (default empty_target target) (out_dispatch output) in
      match dt_channel_type t, dt_platform_id t with
      | Some ct, Some pid =>
          match adapters ct with
          | None => fail (ENoAdapter ct)
          | Some a =>
              let! id := on_world (deliver_action_message ct a pid (dt_thread_id t) msg) in
              record row id "ok" ;;
              note_approval_card approval id
          end
      | _, _ => record_ok row
      end
  end.
Definition run_registered (sess : Session) (row : MessageOutRow) (target : option DispatchTarget) (name : string)
    (payload : json) : SM unit :=
  match registered name with
  | None => record_ok row
  | Some handler =>
      let approval := if String.eqb name "approval_card" then jget_str "approval_id" payload ≫= parse_uuid else None in
      let! output := on_services (handler (mkActionInput payload (handler_target sess target) (Some (s_id sess)) (Some (mo_id row)))) in
      match output with
      | Err err => fail (ESystemAction (to_string err))
      | Ok output => send_output row target approval output
      end
  end.

(** ** Chips *)

Definition breadcrumb_of (tool_name : rstr) (content : json) : bool :=
  match jget "breadcrumb" content ≫= jget_str "tool_name" with
  | Some name => rstr_eqb name tool_name
  | None => false
  end.
Definition lookup_prior_breadcrumb_external_id (tool_name : rstr) (w : world) : option string :=
  lookup_prior_kind_external_id (w_out w) (w_delivered w) Breadcrumb (breadcrumb_of tool_name).
Definition as_breadcrumb (row : MessageOutRow) (breadcrumb : json) : MessageOutRow :=
  mkMessageOut (mo_id row) (mo_seq row) (mo_in_reply_to row) (mo_timestamp row) (mo_deliver_after row)
    (mo_recurrence row) Breadcrumb (mo_platform_id row) (mo_channel_type row) (mo_thread_id row)
    (JObj [("breadcrumb"%string, breadcrumb)]).
Definition handle_update_breadcrumb (row : MessageOutRow) (target : DispatchTarget) (payload : json) : M unit :=
  match jget "breadcrumb" payload with
  | None => record_delivered (mo_id row) None "ok"
  | Some v =>
      match parse_payload Breadcrumb v with
      | inl _ => fail (ESystemAction "update_breadcrumb.breadcrumb failed to deserialise")
      | inr breadcrumb =>
          let tool_name := default (default [] (jget_str "tool_name" breadcrumb)) (jget_str "tool_name" payload) in
          let! prior := gets (lookup_prior_breadcrumb_external_id tool_name) in
          dispatch_breadcrumb (as_breadcrumb row breadcrumb) target prior
      end
  end.

(** ** The handler *)

Definition routed (sess : Session) (target : option DispatchTarget) (k : DispatchTarget -> SM unit) : SM unit :=
  match target with Some t => k t | None => fail (ENoRoute (s_id sess)) end.
Definition control_row (sess : Session) (row : MessageOutRow) (target : option DispatchTarget) : SM unit :=
  let! action := lift (parse_system_content (mo_content row)) in
  match action with
  | None => record_ok row
  | Some (name, payload) =>
      let named s := String.eqb name s in
      let apply name (m : SM (result DbError unit)) := let! r := m in finish_self_mod name row r in
      if named "usage_report" then usage_row payload ;; record_ok row
      else if named "install_packages" then
        apply "install_packages"%string (on_approvals (apply_install_packages (s_agent_group_id sess) payload))
      else if named "add_mcp_server" then
        apply "add_mcp_server"%string (on_approvals (apply_add_mcp_server (s_agent_group_id sess) payload))
      else if named "save_skill" then routed sess target (fun t => raise_save_skill_approval sess row t payload)
      else if named "task_grant" then routed sess target (fun t => raise_task_grant_approval sess row t payload)
      else if named "taint_approval_request" then raise_taint_clearance_approval sess row target payload
      else if named "goal" then apply "goal"%string (goal_row sess payload)
      else if named "condition" then apply "condition"%string (condition_row sess payload)
      else if named "grant_consume" then apply "grant_consume"%string (grant_consume_row payload)
      else if named "update_breadcrumb" then
        routed sess target (fun t => on_world (handle_update_breadcrumb row t payload))
      else if named "edit" || named "reaction" then
        routed sess target (fun t =>
          let! settled := on_world (maybe_handle_edit_or_reaction row name payload t) in
          if settled then ret tt else run_registered sess row target name payload)
      else run_registered sess row target name payload
  end.

(** ** What the delivery loop relies on *)

(** A computation touches the delivery state only as a dispatch of row [id] may. *)
Definition sframe (s id : uuid) (x y : world * Services) : Prop := frame s id (fst x) (fst y).
#[export] Instance sframe_preorder s id : PreOrder (sframe s id).
Proof. split; [intros [w v]; apply frame_refl | intros [w v] [w1 v1] [w2 v2]; apply frame_trans]. Qed.
Definition sframed {A} (s id : uuid) (m : SM A) : Prop := keeps (sframe s id) m.
Definition srecords (id : uuid) (m : SM unit) : Prop :=
  forall x y, m x = (Ok tt, y) -> recorded id (fst y).

Lemma sframed_world {A} s id (m : M A) : framed s id m -> sframed s id (on_world m).
Proof. intros Hm [w v]. specialize (Hm w). cbn. by destruct (m w). Qed.
Lemma sframed_services {A} s id (f : instant -> Services -> A * Services) : sframed s id (on_services f).
Proof. intros [w v]. cbn. destruct (f (w_wall w) v). apply frame_refl. Qed.
Lemma sframed_bind {A B} s id (m : SM A) (k : A -> SM B) :
  sframed s id m -> (forall a, sframed s id (k a)) -> sframed s id (mbind m k).
Proof. apply keeps_bind. Qed.
Lemma sframed_ret {A} s id (a : A) : sframed s id (ret a).
Proof. apply keeps_ret. Qed.
Lemma sframed_fail {A} s id e : sframed s id (fail e : SM A).
Proof. apply keeps_fail. Qed.
Lemma sframed_record s row pid st : sframed s (mo_id row) (record row pid st).
Proof. apply sframed_world, framed_record. Qed.
Lemma srecords_bind {A} id (m : SM A) (k : A -> SM unit) :
  (forall a, srecords id (k a)) -> srecords id (mbind m k).
Proof. intros Hk x y. unfold mbind. destruct (m x) as [[a|e] z]; [apply Hk | done]. Qed.
Lemma srecords_record row pid st : srecords (mo_id row) (record row pid st).
Proof. intros [w v] [w' v'] [= <- <-]. apply delivered_insert_has. Qed.
Lemma srecords_fail id e : srecords id (fail e).
Proof. done. Qed.
(** What follows the record and leaves the delivery tables alone keeps it. *)
Lemma srecords_then id (m : SM unit) (f : instant -> Services -> unit * Services) :
  srecords id m -> srecords id (m ;; on_services f).
Proof.
  intros Hm x y. unfold mbind. destruct (m x) as [[[]|e] [w v]] eqn:E; [|done]. cbn.
  destruct (f (w_wall w) v) as [[] v']. intros [= <-]. apply (Hm x _ E).
Qed.
End ControlRows.

Create HintDb control.
#[export] Hint Resolve sframed_world sframed_services sframed_bind sframed_ret sframed_fail sframed_record
  srecords_record srecords_fail srecords_then : control.
