(* ===== verification/ControlProps.v ===== *)
(** What the delivery loop relies on holds of its control rows and checklists: with both
    in place the loop's theorems have no assumption left about the rows it hands out. *)
From S2P Require Import Prelude Types MessagesIn Outbox Split TodoSchema Dispatch Grants Central Checklist StreamEdit Approvals Schedule Goals Conditions Interactive Budgets ControlRows.

Section Frames.
Context `{Host} `{Outside} `{Calendar} `{ControlEnv}.

Lemma record_failure_frames s row action reason guidance :
  sframed s (mo_id row) (record_failure row action reason guidance).
Proof. unfold record_failure. auto with control. Qed.
Lemma record_failure_records row action reason guidance :
  srecords (mo_id row) (record_failure row action reason guidance).
Proof. unfold record_failure. auto with control. Qed.
#[local] Hint Resolve record_failure_frames record_failure_records : control.
Lemma finish_frames s row action r : sframed s (mo_id row) (finish_self_mod action row r).
Proof. unfold finish_self_mod, record_self_mod_failure, record_ok. repeat case_goal; auto with control. Qed.
Lemma finish_records row action r : srecords (mo_id row) (finish_self_mod action row r).
Proof. unfold finish_self_mod, record_self_mod_failure, record_ok. repeat case_goal; auto with control. Qed.
#[local] Hint Resolve finish_frames finish_records : control.

(** Requests for a human. *)
Lemma taint_frames sess row t payload :
  sframed (s_id sess) (mo_id row) (raise_taint_clearance_approval sess row t payload).
Proof.
  unfold raise_taint_clearance_approval, record_ok, upsert_approval, on_approvals. destruct sessions_dir; [|auto with control].
  cbv zeta. apply sframed_bind; [auto with control|]. intros [approval|e]; [|auto with control].
  apply sframed_bind; [|auto with control]. destruct t; unfold send_approval_card; auto with control.
Qed.
Lemma taint_records sess row t payload : srecords (mo_id row) (raise_taint_clearance_approval sess row t payload).
Proof.
  unfold raise_taint_clearance_approval, record_ok. destruct sessions_dir; [|auto with control].
  cbv zeta. apply srecords_bind. intros [approval|e]; [|auto with control]. apply srecords_bind. auto with control.
Qed.
Lemma skill_frames sess row t payload : sframed (s_id sess) (mo_id row) (raise_save_skill_approval sess row t payload).
Proof.
  unfold raise_save_skill_approval, record_ok, record_save_skill_failure, upsert_approval, on_approvals, send_approval_card.
  destruct groups_dir; [|auto with control]. cbv zeta. destruct (_ || _); [auto with control|].
  apply sframed_bind; [auto with control|]. intros [approval|e]; auto with control.
Qed.
Lemma skill_records sess row t payload : srecords (mo_id row) (raise_save_skill_approval sess row t payload).
Proof.
  unfold raise_save_skill_approval, record_ok, record_save_skill_failure. destruct groups_dir; [|auto with control].
  cbv zeta. destruct (_ || _); [auto with control|]. apply srecords_bind. intros [approval|e]; [|auto with control].
  apply srecords_bind. auto with control.
Qed.
Lemma task_grant_frames sess row t payload :
  sframed (s_id sess) (mo_id row) (raise_task_grant_approval sess row t payload).
Proof.
  unfold raise_task_grant_approval, record_ok, record_task_grant_failure, upsert_approval, on_approvals, send_approval_card.
  cbv zeta. destruct (_ || _); [auto with control|]. apply sframed_bind; [auto with control|].
  intros [task|]; [|auto with control]. apply sframed_bind; [auto with control|]. intros [approval|e]; auto with control.
Qed.
Lemma task_grant_records sess row t payload : srecords (mo_id row) (raise_task_grant_approval sess row t payload).
Proof.
  unfold raise_task_grant_approval, record_ok, record_task_grant_failure. cbv zeta.
  destruct (_ || _); [auto with control|]. apply srecords_bind. intros [task|]; [|auto with control].
  apply srecords_bind. intros [approval|e]; [|auto with control]. apply srecords_bind. auto with control.
Qed.

(** Actions of modules. *)
Lemma action_message_framed s id ct a pid th m : framed s id (deliver_action_message ct a pid th m).
Proof.
  unfold deliver_action_message. destruct (if bool_decide _ then _ else _); [|apply call_adapter_framed].
  destruct (parse_payload Card j); [apply call_adapter_framed|].
  apply rich_or_text_framed. intros e. apply adapter_error_framed.
Qed.
Lemma note_card_frames s id approval p : sframed s id (note_approval_card approval p).
Proof. unfold note_approval_card. destruct approval, p; auto with control. Qed.
#[local] Hint Resolve action_message_framed note_card_frames : control.
Lemma send_output_frames s row t approval o : sframed s (mo_id row) (send_output row t approval o).
Proof.
  unfold send_output, record_ok. destruct (out_message o) as [m|]; [|auto with control].
  cbv zeta. destruct (dt_channel_type _); [|auto with control]. destruct (dt_platform_id _); [|auto with control].
  destruct (adapters _); [|auto with control]. auto with control.
Qed.
Lemma send_output_records row t approval o : srecords (mo_id row) (send_output row t approval o).
Proof.
  unfold send_output, record_ok. destruct (out_message o) as [m|]; [|auto with control].
  cbv zeta. destruct (dt_channel_type _); [|auto with control]. destruct (dt_platform_id _); [|auto with control].
  destruct (adapters _); [|auto with control]. apply srecords_bind. intros pm.
  unfold note_approval_card. destruct approval, pm; auto with control.
  all: intros x y; unfold mbind; destruct (record row _ _ x) as [[[]|e] x1] eqn:Er; [|done]; intros [= <-];
    by eapply srecords_record.
Qed.
#[local] Hint Resolve send_output_frames send_output_records : control.
Lemma run_registered_frames sess row t name payload :
  sframed (s_id sess) (mo_id row) (run_registered sess row t name payload).
Proof.
  unfold run_registered, record_ok. destruct (registered name); [|auto with control]. cbv zeta.
  apply sframed_bind; [auto with control|]. intros [o|e]; auto with control.
Qed.
Lemma run_registered_records sess row t name payload :
  srecords (mo_id row) (run_registered sess row t name payload).
Proof.
  unfold run_registered, record_ok. destruct (registered name); [|auto with control]. cbv zeta.
  apply srecords_bind. intros [o|e]; auto with control.
Qed.

(** Chips, edits and reactions. *)
Lemma update_breadcrumb_framed s row t payload : framed s (mo_id row) (handle_update_breadcrumb row t payload).
Proof.
  unfold handle_update_breadcrumb. destruct (jget _ _); [|auto with framed].
  destruct (parse_payload Breadcrumb j) as [e|b]; [auto with framed|]. cbv zeta.
  apply framed_bind; [auto with framed|]. intros prior. apply (dispatch_breadcrumb_framed s (as_breadcrumb row b)).
Qed.
Lemma dispatch_breadcrumb_records row t ex : records (mo_id row) (dispatch_breadcrumb row t ex).
Proof.
  apply records_bind. intros [[ct a] pid]. apply records_bind. intros b. apply records_bind. auto with framed.
Qed.
Lemma update_breadcrumb_records row t payload : records (mo_id row) (handle_update_breadcrumb row t payload).
Proof.
  unfold handle_update_breadcrumb. destruct (jget _ _); [|auto with framed].
  destruct (parse_payload Breadcrumb j) as [e|b]; [auto with framed|]. cbv zeta.
  apply records_bind. intros prior. apply (dispatch_breadcrumb_records (as_breadcrumb row b)).
Qed.
Lemma on_world_records id (m : M unit) : records id m -> srecords id (on_world m).
Proof. intros Hm [w v] [w' v']. cbn. destruct (m w) as [[[]|e] w1] eqn:E; intros [= <- <-]. by eapply Hm. Qed.
Lemma maybe_edit_frames sess row name payload t :
  sframed (s_id sess) (mo_id row) (on_world (maybe_handle_edit_or_reaction row name payload t)).
Proof. apply sframed_world, framed_maybe_handle. Qed.
Lemma edit_or_registered_records sess row t t' name payload :
  srecords (mo_id row)
    (let! settled := on_world (maybe_handle_edit_or_reaction row name payload t) in
     if settled then ret tt else run_registered sess row t' name payload).
Proof.
  intros [w v] y. unfold mbind. cbn. destruct (maybe_handle_edit_or_reaction row name payload t w) as [[[]|e] w1] eqn:E; [| |done].
  - intros [= <-]. by eapply maybe_handle_records.
  - apply run_registered_records.
Qed.
Lemma routed_frames sess id t k :
  (forall t', sframed (s_id sess) id (k t')) -> sframed (s_id sess) id (routed sess t k).
Proof. intros Hk. destruct t; [apply Hk | apply sframed_fail]. Qed.
Lemma routed_records sess id t k : (forall t', srecords id (k t')) -> srecords id (routed sess t k).
Proof. intros Hk. destruct t; [apply Hk | apply srecords_fail]. Qed.

#[local] Hint Resolve taint_frames skill_frames task_grant_frames run_registered_frames routed_frames maybe_edit_frames
  update_breadcrumb_framed taint_records skill_records task_grant_records run_registered_records routed_records
  update_breadcrumb_records on_world_records edit_or_registered_records : control.

(** Whatever a control row asks for, it stays in the row's frame, and a row handled
    without error has been recorded. *)
Lemma control_row_frames sess row t : sframed (s_id sess) (mo_id row) (control_row sess row t).
Proof.
  unfold control_row, on_approvals, goal_row, condition_row, grant_consume_row, usage_row, record_ok.
  apply sframed_bind; [apply keeps_lift; typeclasses eauto|]. intros [[name payload]|]; [|auto with control].
  cbv zeta. repeat case_goal; auto 6 with control.
  apply routed_frames. intros t'. apply sframed_bind; [auto with control|]. intros []; auto with control.
Qed.
Lemma control_row_records sess row t : srecords (mo_id row) (control_row sess row t).
Proof.
  unfold control_row, record_ok. apply srecords_bind. intros [[name payload]|]; [|auto with control].
  cbv zeta. repeat case_goal; auto 6 with control; apply srecords_bind; auto with control.
Qed.
End Frames.

(** ** The contract of the delivery loop *)

(** What a computation does to the delivery state, from given services. *)
Definition with_services {A} (services : Services) (m : SM A) : M A :=
  fun w => let '(r, (w', _)) := m (w, services) in (r, w').
Lemma with_services_framed {A} s id services (m : SM A) : sframed s id m -> framed s id (with_services services m).
Proof. intros Hm w. specialize (Hm (w, services)). unfold with_services. by destruct (m (w, services)) as [r [w' v']]. Qed.
Lemma with_services_records id services m : srecords id m -> records id (with_services services m).
Proof.
  intros Hm w w'. unfold with_services. destruct (m (w, services)) as [r [w1 v1]] eqn:E.
  intros [= -> <-]. apply (Hm _ _ E).
Qed.

(** The service as it is configured, with its own handling of control rows and
    checklists: [base] holds the adapters and the parsers, [fam] and [services] the other
    tables at the time of a row. *)
Definition service_host (base : Host) `{Outside} `{Calendar} `{ControlEnv} (fam : Family) (services : Services) : Host :=
  {| adapters := @adapters base;
     parse_payload := @parse_payload base;
     text_fallback := @text_fallback base;
     collapsible_fallback := @collapsible_fallback base;
     agent_dispatch := @agent_dispatch base;
     handle_system := fun sess row t => with_services services (@control_row base _ _ _ sess row t);
     dispatch_todo_list := @todo_list_row base fam |}.

(** C10. What the delivery loop relies on, about control rows and checklists, holds of the
    service as the code puts it together, whatever its other tables hold: the loop's
    theorems need no assumption about the rows it hands out. *)
Theorem service_meets_contract (base : Host) `{Outside} `{Calendar} `{ControlEnv} fam services :
  @HostLaws (service_host base fam services).
Proof.
  constructor.
  - intros sess row t. apply with_services_framed, (@control_row_frames base).
  - intros sess row t. apply with_services_records, (@control_row_records base).
  - intros row t sess. apply (@todo_list_row_framed base).
  - intros row t sess. apply (@todo_list_row_records base).
Qed.

(** ** Authority *)

(** A grant after debits: its terms and its approval are those it had. *)
Definition debited (g g' : TaskGrant) : Prop :=
  same_terms g g' /\ not_approved g' = not_approved g
  /\ tg_tokens_consumed g <= tg_tokens_consumed g' /\ tg_fires_consumed g <= tg_fires_consumed g'.
#[export] Instance debited_preorder : PreOrder debited.
Proof.
  split; [intros g; by repeat split|]. intros a b c (Ht & Ha & Hk & Hf) (Ht' & Ha' & Hk' & Hf').
  split; [unfold same_terms in *; intuition congruence|]. split; [congruence|]. lia.
Qed.
Definition status_kept (t : list PendingApproval) (p : PendingApproval) : Prop :=
  pa_status p = Approval.Pending
  \/ exists q, In q t /\ pa_approval_id q = pa_approval_id p /\ pa_status q = pa_status p.
(** From [a] to [b] nobody was let in, nothing was authorised, and no request was
    settled. *)
Record no_authority (a b : AState) : Prop := {
  na_users : a_users b = a_users a;
  na_roles : a_roles b = a_roles a;
  na_groups : a_groups b = a_groups a;
  na_agents : a_agents b = a_agents a;
  na_clearances : a_clearances b = a_clearances a;
  na_skills : a_skills b = a_skills a;
  na_decisions : a_decisions b = a_decisions a;
  na_grants : Forall2 debited (a_grants a) (a_grants b);
  na_pending : Forall (status_kept (a_pending a)) (a_pending b);
}.
Lemma Forall2_debited_refl t : Forall2 debited t t.
Proof. induction t; constructor; [reflexivity | done]. Qed.
Lemma statuses_kept_refl t : Forall (status_kept t) t.
Proof. apply List.Forall_forall. intros p Hp. right. by exists p. Qed.
#[export] Instance no_authority_preorder : PreOrder no_authority.
Proof.
  split; [intros a; constructor; done || apply Forall2_debited_refl || apply statuses_kept_refl|].
  intros a b c [] []. constructor; try congruence.
  - by etransitivity.
  - apply List.Forall_forall. intros p Hp. rewrite List.Forall_forall in na_pending0, na_pending1.
    destruct (na_pending1 p Hp) as [Hs | (q & Hq & Hid & Hs)]; [by left|].
    destruct (na_pending0 q Hq) as [Hs' | (r & Hr & Hid' & Hs')]; [left; congruence|].
    right. exists r. split; [done|]. split; congruence.
Qed.
Lemma no_authority_frame a b :
  a_users b = a_users a -> a_roles b = a_roles a -> a_groups b = a_groups a -> a_agents b = a_agents a ->
  a_clearances b = a_clearances a -> a_skills b = a_skills a -> a_decisions b = a_decisions a ->
  a_grants b = a_grants a -> a_pending b = a_pending a -> no_authority a b.
Proof.
  intros ??????? Hg Hp. constructor; try done.
  - rewrite Hg. apply Forall2_debited_refl.
  - rewrite Hp. apply statuses_kept_refl.
Qed.
Ltac same_authority := apply no_authority_frame; done.

Lemma charged_debited id f k t t' : 0 <= f -> 0 <= k -> Forall2 (charged id f k) t t' -> Forall2 debited t t'.
Proof.
  intros Hf Hk Hc. eapply Forall2_impl; [exact Hc|]. intros g g' Hg. unfold charged in Hg.
  destruct Hg as (Ht & Ha & E1 & E2). split; [done|]. split; [done|]. rewrite E1, E2. destruct (has_id id g); lia.
Qed.
Lemma grant_consume_debited t payload now t' :
  apply_grant_consume t payload now = Ok t' -> Forall2 debited t t'.
Proof.
  unfold apply_grant_consume. destruct (option_map trim _) as [[|c r]|]; try done. cbv zeta.
  destruct (consume_fires _ t _ now) as [t1|] eqn:E1; [|done]. cbn [rbind].
  apply consume_fires_charged, charged_debited in E1; [|lia..].
  destruct (jget_i64 "tokens" payload) as [k|]; [|by intros [= <-]].
  destruct (Z.ltb_spec 0 k); [|by intros [= <-]]. unfold consume_tokens. destruct (k <? 0); [done|].
  intros E2. apply update_charged, charged_debited in E2; [|lia..].
  by etransitivity.
Qed.

Section Authority.
Context `{Host} `{Outside} `{Calendar} `{ControlEnv}.

Definition sauth (x y : world * Services) : Prop := no_authority (sv_approvals (snd x)) (sv_approvals (snd y)).
#[export] Instance sauth_preorder : PreOrder sauth.
Proof. split; [intros x; unfold sauth; reflexivity | intros x y z; unfold sauth; apply transitivity]. Qed.
Definition quiet {A} (f : instant -> Services -> A * Services) : Prop :=
  forall now s, no_authority (sv_approvals s) (sv_approvals (snd (f now s))).
Lemma sauth_world {A} (m : M A) : keeps sauth (on_world m).
Proof. intros [w v]. cbn. destruct (m w) as [r w']. unfold sauth. cbn. reflexivity. Qed.
Lemma sauth_services {A} (f : instant -> Services -> A * Services) : quiet f -> keeps sauth (on_services f).
Proof. intros Hf [w v]. specialize (Hf (w_wall w) v). cbn. by destruct (f (w_wall w) v). Qed.
Lemma sauth_approvals {A} (f : AState -> A * AState) :
  (forall a, no_authority a (snd (f a))) -> keeps sauth (on_approvals f).
Proof.
  intros Hf. apply sauth_services. intros now s. specialize (Hf (set_wall now (sv_approvals s))).
  destruct (f _) as [r a]. cbn. etransitivity; [|exact Hf]. same_authority.
Qed.
Lemma sauth_bind {A B} (m : SM A) (k : A -> SM B) : keeps sauth m -> (forall a, keeps sauth (k a)) -> keeps sauth (mbind m k).
Proof. apply keeps_bind. Qed.
Lemma sauth_ret {A} (a : A) : keeps sauth (ret a : SM A).
Proof. apply keeps_ret. Qed.
Lemma sauth_fail {A} e : keeps sauth (fail e : SM A).
Proof. apply keeps_fail. Qed.
Lemma sauth_record row pid st : keeps sauth (record row pid st).
Proof. apply sauth_world. Qed.
#[local] Hint Resolve sauth_world sauth_services sauth_bind sauth_ret sauth_fail sauth_record : control.

Lemma sauth_failure row action reason guidance : keeps sauth (record_failure row action reason guidance).
Proof.
  unfold record_failure. apply sauth_bind; [auto with control|]. intros _. apply sauth_services. intros now s.
  destruct (insert _ _) as [[seq t]|e]; cbn; reflexivity.
Qed.
#[local] Hint Resolve sauth_failure : control.
Lemma sauth_finish action row r : keeps sauth (finish_self_mod action row r).
Proof. unfold finish_self_mod, record_self_mod_failure, record_ok. repeat case_goal; auto with control. Qed.
Lemma sauth_send_card t m : keeps sauth (send_approval_card t m).
Proof.
  apply sauth_services. intros now s. cbn. unfold dispatcher_dispatch. repeat case_goal; cbn; reflexivity.
Qed.
#[local] Hint Resolve sauth_finish sauth_send_card : control.

(** A request joins the pending ones, or replaces what one of them asks for. *)
Lemma approval_upsert_kept t refs id req now row t' :
  approval_upsert t refs id req now = Ok (row, t') -> Forall (status_kept t) t'.
Proof.
  unfold approval_upsert. cbv zeta. destruct (_ || _); [done|].
  destruct (existsb (same_request req) t).
  - destruct (sql_get _ _); [|done]. destruct (approval_get _ _); [|done]. intros [= _ <-].
    apply List.Forall_forall. intros x Hx. cbn in Hx. apply in_map_iff in Hx as (q & <- & Hq).
    right. exists q. split; [done|]. by destruct (same_request req q).
  - destruct (sql_get _ _); [|done]. destruct (approval_get _ _); [|done]. intros [= _ <-].
    apply Forall_app. split; [apply statuses_kept_refl|]. constructor; [by left | constructor].
Qed.
Lemma set_pending_authority t a :
  Forall (status_kept (a_pending a)) t -> no_authority a (set_pending t a).
Proof. intros Ht. constructor; done || apply Forall2_debited_refl. Qed.
Lemma upsert_request_authority req a : no_authority a (snd (upsert_request req a)).
Proof.
  unfold upsert_request, fresh_id, utc_now, gets, db, mbind, lift, modify, ret. cbn.
  destruct (approval_upsert _ _ _ _ _) as [[row t]|e] eqn:E; cbn; [|same_authority].
  apply approval_upsert_kept in E. etransitivity; [|apply set_pending_authority; exact E]. same_authority.
Qed.
Lemma sauth_upsert req : keeps sauth (upsert_approval req).
Proof. apply sauth_approvals. apply upsert_request_authority. Qed.
#[local] Hint Resolve sauth_upsert : control.

(** Configurations are no authority over the host. *)
Lemma change_each_authority ag fs a : no_authority a (snd (change_each ag fs a)).
Proof.
  revert a. induction fs as [|f fs IH]; intros a; cbn; [reflexivity|]. unfold change_config.
  destruct (a_configs a !! ag); [|reflexivity]. etransitivity; [|apply IH]. same_authority.
Qed.
Lemma with_config_row_authority ag fs a : no_authority a (snd (with_config_row ag fs a)).
Proof.
  unfold with_config_row, ensure_config_row. destruct (a_configs a !! ag); [apply change_each_authority|].
  destruct (bool_decide _); [|reflexivity]. etransitivity; [|apply change_each_authority]. same_authority.
Qed.
Lemma install_authority ag payload a : no_authority a (snd (ControlRows.apply_install_packages ag payload a)).
Proof.
  unfold ControlRows.apply_install_packages. repeat case_goal; try reflexivity; apply with_config_row_authority.
Qed.
Lemma add_server_authority ag payload a : no_authority a (snd (ControlRows.apply_add_mcp_server ag payload a)).
Proof.
  unfold ControlRows.apply_add_mcp_server. case_goal; [apply with_config_row_authority | reflexivity].
Qed.
Lemma sauth_applied_rows sess payload :
  keeps sauth (goal_row sess payload) /\ keeps sauth (condition_row sess payload)
  /\ keeps sauth (grant_consume_row payload) /\ keeps sauth (usage_row payload).
Proof.
  split_and!; apply sauth_services; intros now s.
  - destruct (apply_goal _ _ _ _ _ _); reflexivity.
  - destruct (apply_condition _ _ _ _ _); reflexivity.
  - destruct (apply_grant_consume _ _ _) eqn:E; cbn; [|reflexivity]. apply grant_consume_debited in E.
    constructor; done || apply statuses_kept_refl.
  - reflexivity.
Qed.

Lemma sauth_taint sess row t payload : keeps sauth (raise_taint_clearance_approval sess row t payload).
Proof.
  unfold raise_taint_clearance_approval, record_ok. destruct sessions_dir; [|auto with control].
  cbv zeta. apply sauth_bind; [auto with control|]. intros [approval|e]; [|auto with control].
  apply sauth_bind; [|auto with control]. destruct t; auto with control.
Qed.
Lemma sauth_skill sess row t payload : keeps sauth (raise_save_skill_approval sess row t payload).
Proof.
  unfold raise_save_skill_approval, record_ok, record_save_skill_failure.
  destruct groups_dir; [|auto with control]. cbv zeta. destruct (_ || _); [auto with control|].
  apply sauth_bind; [auto with control|]. intros [approval|e]; auto with control.
Qed.
Lemma sauth_task_grant sess row t payload : keeps sauth (raise_task_grant_approval sess row t payload).
Proof.
  unfold raise_task_grant_approval, record_ok, record_task_grant_failure. cbv zeta.
  destruct (_ || _); [auto with control|]. apply sauth_bind; [apply sauth_services; intros now s; cbn; reflexivity|].
  intros [task|]; [|auto with control]. apply sauth_bind; [auto with control|]. intros [approval|e]; auto with control.
Qed.

(** The note of where an approval's card is. *)
Lemma set_message_kept t id p t' : set_platform_message_id t id p = Ok t' -> Forall (status_kept t) t'.
Proof.
  unfold set_platform_message_id, approval_update. destruct (sql_update _ _ _) as [t1 n] eqn:E.
  destruct (n =? 0)%nat; [done|]. intros [= <-]. unfold sql_update in E. injection E as <- _.
  apply List.Forall_forall. intros a Ha. apply in_map_iff in Ha as (q & <- & Hq).
  right. exists q. split; [done|]. by destruct (pa_has_id id q).
Qed.
Lemma sauth_note approval p : keeps sauth (note_approval_card approval p).
Proof.
  unfold note_approval_card. destruct approval as [id|], p as [pm|]; auto with control. apply sauth_services. intros now v.
  destruct (set_platform_message_id (a_pending (sv_approvals v)) id pm) eqn:E; [|cbn [snd]; reflexivity].
  apply set_message_kept in E. by apply set_pending_authority.
Qed.
#[local] Hint Resolve sauth_note : control.
Lemma sauth_output row t approval o : keeps sauth (send_output row t approval o).
Proof.
  unfold send_output, record_ok. destruct (out_message o); [|auto with control]. cbv zeta.
  repeat case_goal; auto with control.
Qed.

(** Every handler but those of the agents' actions leaves approvals, grants, users and roles
    alone. *)
Lemma registered_quiet name h input : ~ In name AGENT_ACTIONS -> registered name = Some h -> quiet (h input).
Proof.
  intros Hname.
  unfold registered.
  destruct (String.eqb name "schedule").
  { intros [= <-] now s. unfold handle_schedule. destruct (Schedule.handle _ _ _ _ _ _). reflexivity. }
  destruct (String.eqb name "ask_user_question").
  { intros [= <-] now s. unfold handle_question. destruct (handle_ask _ _ _). reflexivity. }
  do 4 (case_goal; [intros [= <-] now s; reflexivity|]). destruct (existsb _ _) eqn:E; [|done].
  apply existsb_exists in E as (x & Hx & <-%String.eqb_eq). done.
Qed.
Lemma sauth_registered sess row t name payload : ~ In name AGENT_ACTIONS -> keeps sauth (run_registered sess row t name payload).
Proof.
  intros Hname.
  unfold run_registered, record_ok. destruct (registered name) as [h|] eqn:E; [|auto with control]. cbv zeta.
  apply sauth_bind; [apply sauth_services; by apply (registered_quiet name)|]. intros [o|e]; [apply sauth_output | auto with control].
Qed.
Lemma sauth_routed sess t k : (forall t', keeps sauth (k t')) -> keeps sauth (routed sess t k).
Proof. intros Hk. destruct t; [apply Hk | apply sauth_fail]. Qed.
End Authority.
#[export] Hint Resolve sauth_world sauth_services sauth_bind sauth_ret sauth_fail sauth_record sauth_failure
  sauth_finish sauth_send_card sauth_upsert sauth_note : control.
