(* ===== verification/ControlRuns.v ===== *)
(** Control rows at work: a refused row is recorded and told to the agent, a card answers
    for what its request says later, and runs of single rows. *)
From S2P Require Import Prelude Types MessagesIn Outbox Split TodoSchema Dispatch Delivery Grants Gate Central Checklist StreamEdit Approvals ApprovalsProps Schedule ScheduleProps Goals Conditions Interactive Budgets ControlRows ControlProps.

(** ** Authority *)

Section NoAuthority.
(** What follows a parse that succeeded. *)
Lemma keeps_known {S E A B} (R : S -> S -> Prop) (a : A) (k : A -> stateful S E B) : keeps R (k a) -> keeps R (mbind (lift (Ok a)) k).
Proof. intros Hk w. exact (Hk w). Qed.

Context `{Host} `{Outside} `{Calendar} `{ControlEnv}.
(** C11. A control row an agent writes gives it no authority, unless it asks for another
    agent or writes to one ([create_agent], [delegate], [agent_dispatch], which are not
    modelled): whatever else the row asks for and however it ends, nobody is let in, no
    role, skill or clearance appears, no request is settled, and the grants are those it
    had, at most debited. *)
Theorem no_row_grants_authority sess row t w services :
  (forall name payload, parse_system_content (mo_content row) = Ok (Some (name, payload)) -> ~ In name AGENT_ACTIONS) ->
  no_authority (sv_approvals services) (sv_approvals (snd (snd (control_row sess row t (w, services))))).
Proof.
  intros Hown. enough (keeps sauth (control_row sess row t)) as Hk by apply (Hk (w, services)).
  unfold control_row, record_ok. destruct (parse_system_content (mo_content row)) as [[[name payload]|]|e];
    [apply keeps_known | apply keeps_known; auto with control | intros x; reflexivity].
  specialize (Hown name payload eq_refl). cbv beta iota zeta.
  destruct (sauth_applied_rows sess payload) as (Hg & Hc & Hd & Hu).
  do 3 (case_goal; [apply sauth_bind; [|auto with control]; try exact Hu; apply sauth_approvals;
                    apply install_authority || apply add_server_authority|]).
  do 2 (case_goal; [apply sauth_routed; intros t'; apply sauth_skill || apply sauth_task_grant|]).
  case_goal; [apply sauth_taint|].
  do 3 (case_goal; [apply sauth_bind; [|auto with control]; done|]).
  case_goal; [apply sauth_routed; intros t'; auto with control|].
  case_goal; [|by apply sauth_registered].
  apply sauth_routed. intros t'. apply sauth_bind; [auto with control|]. intros []; [auto with control | by apply sauth_registered].
Qed.
End NoAuthority.

(** ** A refused row *)

Section Refused.
Context `{Host} `{Outside} `{Calendar} `{ControlEnv}.

Lemma delivered_insert_fresh t id pid st now :
  existsb (delivered_has id) t = false ->
  snd (delivered_insert t id pid st now) = t ++ [mkDelivered id pid st now].
Proof. intros Hf. unfold delivered_insert. by rewrite Hf. Qed.

(** C12. A goal the table refuses is not retried in silence: the row is recorded as failed
    with the reason, the agent's inbox gets a notice that names the action and the reason
    and does not wake it, and the pass goes on; with the hard-fail switch the row is an
    error instead and nothing is recorded. *)
Theorem refused_goal_is_reported sess row t payload w services err g seq inbox :
  let reason := db_text err in
  let notice := host_notice (gd_fresh g) (w_wall w) (self_mod_error "goal" reason install_guidance) in
  parse_system_content (mo_content row) = Ok (Some ("goal"%string, payload)) ->
  existsb (delivered_has (mo_id row)) (w_delivered w) = false ->
  apply_goal show_uuid goal_refs debug_text sess payload
    (mkGoals (sv_goals services) (sv_progress services) (sv_fresh services) (w_wall w)) = (Err err, g) ->
  insert (sv_in services) notice = Ok (seq, inbox) ->
  if selfmod_hard_fail
  then exists e services', control_row sess row t (w, services) = (Err (ESystemAction e), (w, services'))
  else exists w' services',
         control_row sess row t (w, services) = (Ok tt, (w', services'))
         /\ w_delivered w' = w_delivered w ++ [mkDelivered (mo_id row) (Some (to_string reason)) "failed" (w_wall w)]
         /\ sv_in services' = inbox /\ wi_trigger notice = false /\ wi_on_wake notice = false.
Proof.
  cbv zeta. intros Hp Hd Hg Hi. unfold control_row.
  rewrite (mbind_run _ _ (w, services) (Some ("goal"%string, payload)) (w, services)) by (unfold lift; by rewrite Hp).
  change (String.eqb "goal" "usage_report") with false. cbv zeta. cbn [String.eqb Ascii.eqb Bool.eqb].
  rewrite (mbind_run _ _ (w, services) (Err err) (w, with_goals g services)).
  2:{ unfold goal_row, on_services. by rewrite Hg. }
  unfold finish_self_mod. destruct selfmod_hard_fail; [by do 2 eexists|].
  unfold record_self_mod_failure, record_failure.
  rewrite (mbind_run _ _ (w, with_goals g services) tt
             (set_delivered (fun _ => w_delivered w ++ [mkDelivered (mo_id row) (Some (to_string (db_text err))) "failed" (w_wall w)]) w,
              with_goals g services)).
  - unfold on_services. cbn [w_wall set_delivered sv_in sv_fresh with_goals]. rewrite Hi. by do 2 eexists.
  - unfold record, on_world, record_delivered. unfold set_delivered. by rewrite delivered_insert_fresh.
Qed.
End Refused.

(** ** Concrete runs *)

Module ControlDemo.
Definition text_of (o : option rstr) : string := match o with Some s => to_string s | None => "none"%string end.
#[export] Instance demo_env : ControlEnv := {|
  selfmod_hard_fail := false;
  sessions_dir := Some (lit "/sessions");
  groups_dir := Some (lit "/groups");
  show_instant := show_z;
  goal_refs _ _ := true;
  condition_refs _ _ := true;
  task_refs _ _ := true;
  task_id_text n := lit "task_" ++ show_z n;
  debug_text := text_of;
  agent_action _ _ _ s := (Err (lit "agents are not part of the demonstration"), s);
|}.
#[export] Instance rows_host : Host := demo_host.
#[export] Existing Instance Witnesses.demo.
#[export] Existing Instance ScheduleWitnesses.demo_calendar.

Definition sess : Session := demo_session.
Definition room : DispatchTarget := mkTarget (Some "cli"%string) (Some "room"%string) None None.
Definition control (id : Z) (name : string) (payload : json) : MessageOutRow :=
  mkMessageOut id id None 0 None None System None None None (JObj [(name, payload)]).
Definition news : TaskRow :=
  mkTask (lit "task_1") 2 1 (Some (lit "news")) (lit "fetch") (lit "0 9 * * *") (Some (lit "0 9 * * *"))
    (Some 100) Task.Active None 0 0 0.
Definition services : Services :=
  mkServices [] Witnesses.start [] [] [] [] [news] [] ∅ [] 1000.
Definition world0 : world := initial 1 0 500.
Definition run (row : MessageOutRow) (x : world * Services) : world * Services :=
  snd (control_row sess row (Some room) x).

Lemma no_row_grants_authority_witness :
  no_authority Witnesses.start
    (sv_approvals (snd (run (control 60 "install_packages" (JObj [("apt"%string, JArr [JStr (lit "jq")])])) (world0, services)))).
Proof.
  apply (no_row_grants_authority sess (control 60 "install_packages" (JObj [("apt"%string, JArr [JStr (lit "jq")])])) (Some room) world0 services).
  intros name payload E. vm_compute in E. injection E as <- _. intros [E | [E | [E | []]]]; discriminate E.
Defined.

Definition bad_goal : MessageOutRow := control 61 "goal" (JObj [("op"%string, JStr (lit "create"))]).
Lemma refused_goal_is_reported_witness :
  exists w' s', control_row sess bad_goal (Some room) (world0, services) = (Ok tt, (w', s'))
    /\ map (fun d => (d_message_out_id d, d_status d)) (w_delivered w') = [(61, "failed"%string)]
    /\ length (sv_in s') = 1%nat.
Proof.
  destruct (refused_goal_is_reported sess bad_goal (Some room) (JObj [("op"%string, JStr (lit "create"))]) world0 services
              (Invariant "goal create: missing objective") (mkGoals [] [] 1000 500) 2
              [pending_row (host_notice 1000 500 (self_mod_error "goal" (lit "constraint") install_guidance)) 2])
    as (w' & s' & Hr & Hd & Hin & _); [done | done | done | done |].
  exists w', s'. rewrite Hr, Hd, Hin. by vm_compute.
Defined.

(** Two requests for one task: the second replaces the scope of the first, under the id
    that the button of the first card carries. *)
Definition grant_request (id : Z) (scope : string) : MessageOutRow :=
  control id "task_grant"
    (JObj [("task_name", JStr (lit "news")); ("capability_scope", JStr (lit scope))]%string).
Definition asked_twice : Services :=
  snd (run (grant_request 63 "*") (run (grant_request 62 "web_fetch:example.org") (world0, services))).
Definition button_values (m : OutboundMessage) : list rstr :=
  match jget "card" (om_content m) ≫= jget "buttons" with
  | Some (JArr l) => omap (jget_str "value") l
  | _ => []
  end.
Definition of_task_grant (p : PendingApproval) : bool := String.eqb (pa_action p) "task_grant".
Example card_answers_for_later_request :
  map (fun c => button_values (snd c)) (sv_cards asked_twice)
    = [[lit "approve:50"; lit "deny:50"]; [lit "approve:50"; lit "deny:50"]]
  /\ map (fun p => (pa_approval_id p, jget_str "capability_scope" (pa_payload p)))
       (List.filter of_task_grant (a_pending (sv_approvals asked_twice))) = [(50, Some (lit "*"))].
Proof. by vm_compute. Qed.

(** A row whose record was lost, with the host, is applied again. *)
Definition new_goal : MessageOutRow :=
  control 64 "goal" (JObj [("op", JStr (lit "create")); ("payload", JObj [("objective", JStr (lit "ship"))])]%string).
Definition twice_applied : Services :=
  let '(w, s) := run new_goal (world0, services) in snd (run new_goal (set_delivered (fun _ => []) w, s)).
Example lost_record_repeats_goal : length (sv_goals twice_applied) = 2%nat.
Proof. by vm_compute. Qed.

(** The answer to a listing of tasks is a chat message without text, to the channel. *)
Example task_list_has_no_text :
  let '(w, _) := run (control 65 "schedule" (JObj [("op"%string, JStr (lit "list"))])) (world0, services) in
  map (fun l => match lg_call l with CDeliver m => Some (om_kind m, jget_str "text" (om_content m)) | _ => None end) (w_log w)
  = [Some (Chat, None)].
Proof. by vm_compute. Qed.

(** The reserved name of the preview relay is refused by the approval of a server and
    taken from a row. *)
Example reserved_server_taken :
  let s := snd (run (control 66 "add_mcp_server" (JObj [("name"%string, JStr PREVIEW_SERVER)]))
                  (world0, with_approvals (on_configs (fun _ => {[ 2 := default_config ]}) Witnesses.start) services)) in
  match a_configs (sv_approvals s) !! 2 with
  | Some c => bool_decide (is_Some (mcp_object (Some c) !! PREVIEW_SERVER))
  | None => false
  end = true.
Proof. by vm_compute. Qed.

(** The hard-fail switch is said to leave the row to the retries; its error is one the
    loop does not retry. *)
Lemma hard_fail_not_retried reason : is_retryable (ESystemAction reason) = false.
Proof. done. Qed.
End ControlDemo.
