(* ===== verification/CrashLoop.v ===== *)
(** Restarts with back-off: the supervisor of the host's background loops
    ([copperclaw-host/src/supervisor.rs]), the crash tracker of sessions
    ([container_manager/crash_loop.rs]), the breaker for faults of the whole
    host and the disk probe ([container_manager/host_resources.rs],
    [copperclaw-cclaw/src/disk.rs]) and the cooldown of image rebuilds
    ([RebuildBackoff] of [container_manager/spawn.rs]).

    Times are readings of the monotonic clock in nanoseconds. *)
From S2P Require Import Prelude Types.

Abbreviation moment := Z (only parsing).
Definition seconds (n : Z) : Z := n * ns_per_s.
(** [Instant::duration_since] saturates at zero. *)
Definition since (now earlier : moment) : Z := Z.max 0 (now - earlier).

Definition BACKOFF_STEPS : list Z := [seconds 5; seconds 15; seconds 60; seconds 300].
Definition HEALTHY_RESET_WINDOW : Z := seconds 600.
(** [BACKOFF_STEPS[(streak - 1).min(len - 1)]]. *)
Definition backoff_delay (streak : Z) : Z :=
  nth (Z.to_nat (Z.min (streak - 1) (Z.of_nat (length BACKOFF_STEPS) - 1))) BACKOFF_STEPS 0.
Arguments backoff_delay : simpl never.

(** ** The supervisor's table *)

Inductive ExitKind : Type := Returned | Panicked (message : rstr).
Definition describe (e : ExitKind) : rstr :=
  match e with Returned => lit "returned unexpectedly" | Panicked m => lit "panicked: " ++ m end.
Record TaskState : Type := mkTask {
  ts_name : string;
  ts_alive : bool;
  ts_restarts_total : Z;
  ts_restart_streak : Z;
  ts_started_at : moment;
  ts_degraded : bool;
  ts_last_exit : option rstr;
}.
Record LoopStatus : Type := mkLoopStatus {
  ls_name : string;
  ls_alive : bool;
  ls_restarts : Z;
  ls_restart_streak : Z;
  ls_degraded : bool;
  ls_last_exit : option rstr;
  ls_uptime_secs : Z;
}.
Definition heal_if_window_elapsed (now : moment) (t : TaskState) : TaskState :=
  if ts_alive t && (HEALTHY_RESET_WINDOW <=? since now (ts_started_at t)) then
    mkTask (ts_name t) (ts_alive t) (ts_restarts_total t) 0 (ts_started_at t) false (ts_last_exit t)
  else t.
Definition exited (reason : rstr) (t : TaskState) : TaskState :=
  let streak := ts_restart_streak t + 1 in
  mkTask (ts_name t) false (ts_restarts_total t + 1) streak (ts_started_at t)
    (ts_degraded t || (Z.of_nat (length BACKOFF_STEPS) <? streak)) (Some reason).
Definition started (now : moment) (t : TaskState) : TaskState :=
  mkTask (ts_name t) true (ts_restarts_total t) (ts_restart_streak t) now (ts_degraded t) (ts_last_exit t).
Definition stopped (t : TaskState) : TaskState :=
  mkTask (ts_name t) false (ts_restarts_total t) (ts_restart_streak t) (ts_started_at t) (ts_degraded t)
    (ts_last_exit t).
Definition any_degraded (tasks : list TaskState) : bool := existsb ts_degraded tasks.
Definition status_of (now : moment) (t : TaskState) : LoopStatus :=
  mkLoopStatus (ts_name t) (ts_alive t) (ts_restarts_total t) (ts_restart_streak t) (ts_degraded t) (ts_last_exit t)
    (if ts_alive t then since now (ts_started_at t) / ns_per_s else 0).

(** The table and the watch channel of the degraded flag. *)
Record SupervisorStatus : Type := mkStatus {
  su_tasks : list TaskState;
  su_degraded : bool;
}.
Definition empty_status : SupervisorStatus := mkStatus [] false.
Definition with_tasks (tasks : list TaskState) (s : SupervisorStatus) : SupervisorStatus :=
  mkStatus tasks (su_degraded s).
Definition publish_degraded (value : bool) (s : SupervisorStatus) : SupervisorStatus := mkStatus (su_tasks s) value.
Definition add_task (name : string) (now : moment) (s : SupervisorStatus) : SupervisorStatus :=
  with_tasks (su_tasks s ++ [mkTask name false 0 0 now false None]) s.
Definition mark_started (idx : nat) (now : moment) (s : SupervisorStatus) : SupervisorStatus :=
  with_tasks (alter (started now) idx (su_tasks s)) s.
Definition mark_stopped (idx : nat) (s : SupervisorStatus) : SupervisorStatus :=
  with_tasks (alter stopped idx (su_tasks s)) s.
(** What each call does under the lock, and the value it publishes after it
    has dropped the lock. *)
Definition snapshot_locked (now : moment) (s : SupervisorStatus) : SupervisorStatus * bool * list LoopStatus :=
  let tasks := map (heal_if_window_elapsed now) (su_tasks s) in
  (with_tasks tasks s, any_degraded tasks, map (status_of now) tasks).
Definition record_exit_locked (idx : nat) (reason : rstr) (now : moment) (s : SupervisorStatus)
  : SupervisorStatus * bool :=
  let tasks := alter (fun t => exited reason (heal_if_window_elapsed now t)) idx (su_tasks s) in
  (with_tasks tasks s, any_degraded tasks).
Definition snapshot (now : moment) (s : SupervisorStatus) : list LoopStatus * SupervisorStatus :=
  let '(s', value, rows) := snapshot_locked now s in (rows, publish_degraded value s').
(** The delay until the restart, and the table afterwards. *)
Definition record_unexpected_exit (idx : nat) (reason : rstr) (now : moment) (s : SupervisorStatus)
  : option Z * SupervisorStatus :=
  let '(s', value) := record_exit_locked idx reason now s in
  (option_map (fun t => backoff_delay (ts_restart_streak t)) (su_tasks s' !! idx), publish_degraded value s').

(** ** The driver: loops that run, wait for their restart, or have drained *)

Inductive Phase : Type := PRunning | PWaiting (until : moment) | PDrained.
Record Driver : Type := mkDriver {
  dr_status : SupervisorStatus;
  dr_phases : list Phase;
  dr_now : moment;
  dr_cancelled : bool;
}.
Definition with_phase (idx : nat) (p : Phase) (s : SupervisorStatus) (d : Driver) : Driver :=
  mkDriver s (<[idx := p]> (dr_phases d)) (dr_now d) (dr_cancelled d).
(** [register] of every loop, then the start of [drive]. *)
Definition register_all (names : list string) (now : moment) : SupervisorStatus :=
  fold_left (fun s name => add_task name now s) names empty_status.
Definition start_all (names : list string) (now : moment) : Driver :=
  mkDriver (with_tasks (map (started now) (su_tasks (register_all names now))) (register_all names now))
    (map (fun _ => PRunning) names) now false.
Inductive drive_step : Driver -> Driver -> Prop :=
| drive_time d dt : 0 <= dt ->
    drive_step d (mkDriver (dr_status d) (dr_phases d) (dr_now d + dt) (dr_cancelled d))
| drive_cancel d : drive_step d (mkDriver (dr_status d) (dr_phases d) (dr_now d) true)
| drive_snapshot d :
    drive_step d (mkDriver (snd (snapshot (dr_now d) (dr_status d))) (dr_phases d) (dr_now d) (dr_cancelled d))
| drive_exit d idx e delay s' :
    dr_cancelled d = false -> dr_phases d !! idx = Some PRunning ->
    record_unexpected_exit idx (describe e) (dr_now d) (dr_status d) = (Some delay, s') ->
    drive_step d (with_phase idx (PWaiting (dr_now d + delay)) s' d)
| drive_restart d idx until :
    dr_phases d !! idx = Some (PWaiting until) -> until <= dr_now d ->
    drive_step d (with_phase idx PRunning (mark_started idx (dr_now d) (dr_status d)) d)
| drive_drain d idx p :
    dr_cancelled d = true -> dr_phases d !! idx = Some p -> p <> PDrained ->
    drive_step d (with_phase idx PDrained (mark_stopped idx (dr_status d)) d).

(** ** Crashes of sessions *)

Record ContainerExitStatus : Type := mkExit {
  ce_exit_code : option Z;
  ce_oom_killed : bool;
}.
Inductive CrashCause : Type := OomKill | ResourceExhausted | Generic.
#[global] Instance CrashCause_eq_dec : EqDecision CrashCause.
Proof. solve_decision. Defined.
Definition from_exit_status (status : option ContainerExitStatus) : CrashCause :=
  match status with
  | Some s => if ce_oom_killed s || bool_decide (ce_exit_code s = Some 137) then OomKill else Generic
  | None => Generic
  end.
Definition with_host_disk (cause : CrashCause) (disk_exhausted : bool) : CrashCause :=
  if disk_exhausted && bool_decide (cause = Generic) then ResourceExhausted else cause.

Definition OOM_CARD_THRESHOLD : Z := 3.
Definition RECOVERY_MODE_STREAK : Z := 5.
Record CrashEntry : Type := mkEntry {
  en_streak : Z;
  en_oom_count : Z;
  en_oom_card_emitted : bool;
  en_last_crash : moment;
  en_not_before : moment;
}.
Record CrashRecord : Type := mkCrash {
  cr_delay : Z;
  cr_streak : Z;
  cr_oom_count : Z;
  cr_emit_oom_card : bool;
}.
Abbreviation crash_map := (gmap uuid CrashEntry) (only parsing).
Definition crashed (cause : CrashCause) (now : moment) (e : CrashEntry) : CrashEntry * CrashRecord :=
  let e := if HEALTHY_RESET_WINDOW <=? since now (en_last_crash e)
           then mkEntry 0 0 false (en_last_crash e) (en_not_before e) else e in
  let streak := sat_add u32_max (en_streak e) 1 in
  let delay := backoff_delay streak in
  let oom := if bool_decide (cause = OomKill) then sat_add u32_max (en_oom_count e) 1 else en_oom_count e in
  let emit := bool_decide (cause = OomKill) && (OOM_CARD_THRESHOLD <=? oom) && negb (en_oom_card_emitted e) in
  (mkEntry streak oom (en_oom_card_emitted e || emit) now (now + delay), mkCrash delay streak oom emit).
Definition record_crash (m : crash_map) (session : uuid) (cause : CrashCause) (now : moment)
  : CrashRecord * crash_map :=
  let '(e, r) := crashed cause now (default (mkEntry 0 0 false now now) (m !! session)) in
  (r, <[session := e]> m).
Definition current_streak (m : crash_map) (session : uuid) (now : moment) : Z :=
  match m !! session with
  | Some e => if since now (en_last_crash e) <? HEALTHY_RESET_WINDOW then en_streak e else 0
  | None => 0
  end.
Definition spawn_delay_remaining (m : crash_map) (session : uuid) (now : moment) : option Z :=
  match m !! session with
  | Some e => if now <? en_not_before e then Some (en_not_before e - now) else None
  | None => None
  end.

(** ** The disk *)

Definition GIB : Z := 1073741824.
Definition DISK_WARN_BYTES : Z := 20 * GIB.
Definition DISK_FAIL_BYTES : Z := 5 * GIB.
Inductive DiskLevel : Type := DiskOk | DiskWarn | DiskFail.
#[global] Instance DiskLevel_eq_dec : EqDecision DiskLevel.
Proof. solve_decision. Defined.
Definition disk_level (free_bytes total_bytes : Z) : DiskLevel :=
  let below_pct := fun n => negb (total_bytes =? 0) && (free_bytes * 100 <? total_bytes * n) in
  if below_pct 3 || (free_bytes <? DISK_FAIL_BYTES) then DiskFail
  else if below_pct 10 || (free_bytes <? DISK_WARN_BYTES) then DiskWarn
  else DiskOk.
Record DiskSpace : Type := mkDisk {
  dk_free_bytes : Z;
  dk_total_bytes : Z;
}.
Definition is_exhausted (d : DiskSpace) : bool :=
  bool_decide (disk_level (dk_free_bytes d) (dk_total_bytes d) = DiskFail).
Definition DISK_PROBE_TTL : Z := 1000 * ns_per_ms.
(** The cached reading, when it was taken; [read] is what [statvfs] says. *)
Abbreviation probe_cache := (option (moment * option DiskSpace)) (only parsing).
Definition probe_refresh (read : option DiskSpace) (now : moment) : option DiskSpace * probe_cache :=
  (read, Some (now, read)).
Definition probe_get (cache : probe_cache) (read : option DiskSpace) (now : moment)
  : option DiskSpace * probe_cache :=
  match cache with
  | Some (taken, reading) =>
      if since now taken <? DISK_PROBE_TTL then (reading, cache) else probe_refresh read now
  | None => probe_refresh read now
  end.

(** ** The breaker for faults of the whole host *)

Definition ENV_FAULT_SESSION_THRESHOLD : Z := 3.
Definition ENV_FAULT_WINDOW : Z := seconds 120.
Record EnvFaultBreaker : Type := mkBreaker {
  br_recent : gmap uuid moment;
  br_tripped_at : option moment;
}.
Definition fresh_breaker : EnvFaultBreaker := mkBreaker ∅ None.
Definition in_fault_window (now : moment) (p : uuid * moment) : Prop := since now (snd p) < ENV_FAULT_WINDOW.
#[global] Instance in_fault_window_dec now p : Decision (in_fault_window now p).
Proof. unfold in_fault_window. apply _. Defined.
Definition is_tripped (b : EnvFaultBreaker) : bool := match br_tripped_at b with Some _ => true | None => false end.
Definition breaker_record (b : EnvFaultBreaker) (session : uuid) (now : moment) : bool * EnvFaultBreaker :=
  let recent := <[session := now]> (filter (in_fault_window now) (br_recent b)) in
  if is_tripped b || (Z.of_nat (size recent) <? ENV_FAULT_SESSION_THRESHOLD)
  then (false, mkBreaker recent (br_tripped_at b))
  else (true, mkBreaker recent (Some now)).
Definition maybe_rearm (b : EnvFaultBreaker) (now : moment) : bool * EnvFaultBreaker :=
  match br_tripped_at b with
  | None => (false, b)
  | Some at_ => if since now at_ <? ENV_FAULT_WINDOW then (false, b) else (true, fresh_breaker)
  end.
Definition breaker_reset (b : EnvFaultBreaker) : EnvFaultBreaker := fresh_breaker.
Definition distinct_sessions (b : EnvFaultBreaker) (now : moment) : Z :=
  Z.of_nat (size (filter (in_fault_window now) (br_recent b))).

(** ** Image rebuilds *)

Definition REBUILD_BACKOFF_INITIAL : Z := seconds 60.
Definition REBUILD_BACKOFF_CEILING : Z := seconds 1800.
Record RebuildEntry : Type := mkRebuild {
  re_consecutive_failures : Z;
  re_next_attempt_at : moment;
}.
Abbreviation rebuild_map := (gmap uuid RebuildEntry) (only parsing).
Definition rebuild_delay (failures : Z) : Z :=
  Z.min (REBUILD_BACKOFF_INITIAL * 2 ^ Z.min (sat_sub failures 1) 8) REBUILD_BACKOFF_CEILING.
Definition in_cooldown (m : rebuild_map) (group : uuid) (now : moment) : option Z :=
  match m !! group with
  | Some e => if now <? re_next_attempt_at e then Some (re_next_attempt_at e - now) else None
  | None => None
  end.
Definition rebuild_success (m : rebuild_map) (group : uuid) : rebuild_map := delete group m.
Definition rebuild_failure (m : rebuild_map) (group : uuid) (now : moment) : Z * rebuild_map :=
  let failures := sat_add u32_max (match m !! group with Some e => re_consecutive_failures e | None => 0 end) 1 in
  (rebuild_delay failures, <[group := mkRebuild failures (now + rebuild_delay failures)]> m).
