(* ===== verification/SupervisorProps.v ===== *)
(** The supervisor of the background loops over all its runs: what its table
    says of the loops, how often a loop restarts, and what two calls that
    overlap do to the published flag. *)
From stdpp Require Import relations.
From S2P Require Import Prelude Types CrashLoop.

(** ** The steps of the delay *)

Lemma second_pos : 0 < ns_per_s.
Proof. unfold ns_per_s. lia. Qed.
Lemma backoff_cases streak :
  1 <= streak ->
  streak = 1 /\ backoff_delay streak = seconds 5 \/ streak = 2 /\ backoff_delay streak = seconds 15
  \/ streak = 3 /\ backoff_delay streak = seconds 60 \/ 4 <= streak /\ backoff_delay streak = seconds 300.
Proof.
  intros H. destruct (Z.eq_dec streak 1) as [->|]; [by left|]. right.
  destruct (Z.eq_dec streak 2) as [->|]; [by left|]. right. destruct (Z.eq_dec streak 3) as [->|]; [by left|]. right.
  split; [lia|]. unfold backoff_delay. replace (Z.min _ _) with 3; [done|]. cbn. lia.
Qed.
Lemma backoff_bounds_steps streak : 1 <= streak -> seconds 5 <= backoff_delay streak <= seconds 300.
Proof. intros H. pose proof second_pos. unfold seconds. destruct (backoff_cases streak H) as [[? ->]|[[? ->]|[[? ->]|[? ->]]]]; unfold seconds; lia. Qed.

(** ** The invariant *)

(** 600 seconds in good health pay for three quick restarts: on average a
    restart costs 226 seconds, and at any time at most [slack] is owed. *)
Definition rate : Z := seconds 226.
Definition slack (streak : Z) : Z :=
  if streak =? 1 then seconds 221 else if streak =? 2 then seconds 432 else seconds 598.
Definition paced (t0 now : moment) (p : Phase) (t : TaskState) : Prop :=
  match p with
  | PRunning =>
      ts_started_at t <= now
      /\ (ts_restart_streak t = 0 -> ts_restarts_total t = 0 \/ ts_started_at t + HEALTHY_RESET_WINDOW <= now)
      /\ rate * ts_restarts_total t <= ts_started_at t - t0 + slack (ts_restart_streak t)
  | PWaiting until =>
      1 <= ts_restart_streak t /\ until <= now + seconds 300
      /\ rate * ts_restarts_total t <= until - t0 + slack (ts_restart_streak t)
  | PDrained => rate * ts_restarts_total t <= now - t0 + seconds 898
  end.
Record task_ok (t0 now : moment) (p : Phase) (t : TaskState) : Prop := {
  ok_alive : ts_alive t = match p with PRunning => true | _ => false end;
  ok_degraded : ts_degraded t = (4 <? ts_restart_streak t);
  ok_streak : 0 <= ts_restart_streak t <= ts_restarts_total t;
  ok_paced : paced t0 now p t;
}.
Record driver_ok (t0 : moment) (d : Driver) : Prop := {
  ok_length : length (dr_phases d) = length (su_tasks (dr_status d));
  ok_tasks i t p : su_tasks (dr_status d) !! i = Some t -> dr_phases d !! i = Some p -> task_ok t0 (dr_now d) p t;
  ok_flag : su_degraded (dr_status d) = any_degraded (su_tasks (dr_status d));
  ok_drained : dr_cancelled d = false -> forall i, dr_phases d !! i <> Some PDrained;
  ok_time : t0 <= dr_now d;
}.

Lemma slack_bounds streak : seconds 221 <= slack streak <= seconds 598.
Proof. unfold slack, seconds. pose proof second_pos. repeat case_goal; lia. Qed.
Lemma paced_later t0 now dt p t : 0 <= dt -> paced t0 now p t -> paced t0 (now + dt) p t.
Proof.
  unfold paced. destruct p; [|lia|lia]. intros Hdt (H1 & H2 & H3). split; [lia|]. split; [|done].
  intros H0. destruct (H2 H0); [by left | right; lia].
Qed.
Lemma paced_total t0 now p t : t0 <= now -> paced t0 now p t -> rate * ts_restarts_total t <= now - t0 + seconds 898.
Proof.
  pose proof (slack_bounds (ts_restart_streak t)) as Hs. unfold seconds in *. pose proof second_pos.
  destruct p; cbn; unfold seconds; lia.
Qed.

Lemma heal_ok t0 now p t : task_ok t0 now p t -> task_ok t0 now p (heal_if_window_elapsed now t).
Proof.
  intros Hok. pose proof Hok as [Ha Hd Hs Hp]. unfold heal_if_window_elapsed.
  destruct (ts_alive t && _) eqn:Ew; [|exact Hok]. apply andb_prop in Ew as [El Ew]. apply Z.leb_le in Ew.
  destruct p; try congruence. destruct Hp as (H1 & H2 & H3). pose proof second_pos.
  assert (ts_started_at t + HEALTHY_RESET_WINDOW <= now) by (unfold since, HEALTHY_RESET_WINDOW, seconds in *; lia).
  constructor; cbn; [congruence | done | lia |]. split; [done|]. split; [by right|].
  pose proof (slack_bounds (ts_restart_streak t)). change (slack 0) with (seconds 598). lia.
Qed.
Lemma exited_ok t0 now reason t :
  t0 <= now -> task_ok t0 now PRunning t ->
  let t' := exited reason (heal_if_window_elapsed now t) in
  task_ok t0 now (PWaiting (now + backoff_delay (ts_restart_streak t'))) t'.
Proof.
  intros Ht H. pose proof (heal_ok _ _ _ _ H) as [Ha Hd Hs Hp]. set (h := heal_if_window_elapsed now t) in *.
  assert (backoff_delay (ts_restart_streak h + 1) + slack (ts_restart_streak h + 1) + (now - ts_started_at h)
          >= rate + (if ts_restart_streak h =? 0 then 0 else slack (ts_restart_streak h))) as Hd'.
  { pose proof second_pos. destruct Hp as (H1 & _ & _). unfold rate.
    destruct (backoff_cases (ts_restart_streak h + 1)) as [[E ->]|[[E ->]|[[E ->]|[E ->]]]]; [lia | | | |];
      unfold slack, seconds; repeat case_goal; bool_to_prop; lia. }
  assert (ts_restart_streak h = 0 -> ts_restarts_total h = 0 \/ ts_started_at h + HEALTHY_RESET_WINDOW <= now) as Hz
    by apply Hp.
  cbn. constructor; cbn; [done | | lia |].
  - rewrite Hd. change (Z.of_nat 4) with 4. destruct (Z.ltb_spec 4 (ts_restart_streak h)), (Z.ltb_spec 4 (ts_restart_streak h + 1)); first [done | lia].
  - pose proof (backoff_bounds_steps (ts_restart_streak h + 1)). split; [lia|]. split; [lia|].
    destruct Hp as (H1 & _ & H3). destruct (ts_restart_streak h =? 0) eqn:E0; bool_to_prop; [|lia].
    rewrite E0 in *. change (slack 0) with (seconds 598) in H3. change (slack (0 + 1)) with (seconds 221) in *.
    change (backoff_delay (0 + 1)) with (seconds 5) in *. pose proof second_pos.
    unfold rate, HEALTHY_RESET_WINDOW, seconds in *. destruct (Hz eq_refl) as [Er|?]; [rewrite Er in *|]; lia.
Qed.
Lemma started_ok t0 now until t :
  until <= now -> task_ok t0 now (PWaiting until) t -> task_ok t0 now PRunning (started now t).
Proof.
  intros Hu [Ha Hd Hs (H1 & H2 & H3)]. constructor; cbn; [done | done | done |]. split; [lia|]. split; lia.
Qed.
Lemma stopped_ok t0 now p t : t0 <= now -> task_ok t0 now p t -> task_ok t0 now PDrained (stopped t).
Proof.
  intros Ht [Ha Hd Hs Hp]. constructor; cbn; [done | done | done |]. by apply (paced_total _ _ p).
Qed.

(** ** The steps *)

Lemma alter_flags f i l :
  (forall t, ts_degraded (f t) = ts_degraded t) -> any_degraded (alter f i l) = any_degraded l.
Proof.
  intros Hf. revert i. induction l as [|t l IH]; intros [|i]; cbn; [done | done | by rewrite Hf |].
  f_equal. apply IH.
Qed.
Lemma lookup_changed {A} (f : A -> A) (i j : nat) (l : list A) x :
  alter f i l !! j = Some x -> (i = j /\ exists y, l !! j = Some y /\ x = f y) \/ (i <> j /\ l !! j = Some x).
Proof.
  destruct (decide (i = j)) as [->|Hne].
  - rewrite list_lookup_alter_eq. destruct (l !! j); [|done]. intros [= <-]. left. eauto.
  - rewrite list_lookup_alter_ne by done. by right.
Qed.
Lemma lookup_replaced {A} (i j : nat) (l : list A) x y :
  <[i := y]> l !! j = Some x -> (i = j /\ x = y) \/ (i <> j /\ l !! j = Some x).
Proof. intros [(-> & -> & _)|[? ?]]%list_lookup_insert_Some; [by left | by right]. Qed.

(** One loop changes, the others and the clock do not. *)
Lemma change_ok t0 d i p f tasks flag :
  driver_ok t0 d -> tasks = alter f i (su_tasks (dr_status d)) -> flag = any_degraded tasks ->
  (dr_cancelled d = false -> p <> PDrained) ->
  (forall t q, su_tasks (dr_status d) !! i = Some t -> dr_phases d !! i = Some q ->
     task_ok t0 (dr_now d) q t -> task_ok t0 (dr_now d) p (f t)) ->
  driver_ok t0 (with_phase i p (mkStatus tasks flag) d).
Proof.
  intros [Hl Ht Hf Hd Hn] -> -> Hp Hs. constructor; cbn; [by rewrite length_insert, length_alter | | done | | done].
  - intros j t q [(<- & t1 & E1 & ->)|[Hne E1]]%lookup_changed [(E & ->)|[E E2]]%lookup_replaced; try congruence.
    + assert (is_Some (dr_phases d !! i)) as [q E2].
      { apply lookup_lt_is_Some. rewrite Hl. by eapply lookup_lt_Some. }
      by eapply Hs, Ht.
    + by apply Ht with j.
  - intros Hc j. intros [(E & Hq)|[E E2]]%lookup_replaced; [by apply (Hp Hc) | by apply (Hd Hc j)].
Qed.

Lemma drive_step_ok t0 d d' : drive_step d d' -> driver_ok t0 d -> driver_ok t0 d'.
Proof.
  intros Hstep Hok. pose proof Hok as [Hl Ht Hf Hd Hn]. destruct Hstep.
  - constructor; cbn; [done | | done | done | lia]. intros i t p Hi Hp. destruct (Ht i t p Hi Hp) as [? ? ? ?].
    constructor; [done | done | done | by apply paced_later].
  - constructor; cbn; done.
  - constructor; cbn; [by rewrite length_map | | done | done | done].
    intros i t p. rewrite list_lookup_fmap. destruct (su_tasks (dr_status d) !! i) eqn:E; [|done]. cbn.
    intros [= <-] Hp. apply heal_ok, (Ht i _ _ E Hp).
  - unfold record_unexpected_exit, record_exit_locked in *. cbn in *.
    destruct (alter _ idx _ !! idx) as [t1|] eqn:E1; [|done]. injection H1 as <- <-.
    apply lookup_changed in E1 as [(_ & t2 & E2 & ->)|[? _]]; [|done].
    eapply (change_ok t0 d idx); [done | done | done | done |]. intros t q E Hq Hq1. cbn in E.
    assert (t2 = t) as -> by congruence. assert (q = PRunning) as -> by congruence. by apply exited_ok.
  - unfold mark_started, with_tasks. eapply (change_ok t0 d idx); [done | done | | done |].
    + rewrite alter_flags; done.
    + intros t q E Hq H'. assert (q = PWaiting until) as -> by congruence. by apply (started_ok _ _ until).
  - unfold mark_stopped, with_tasks. eapply (change_ok t0 d idx); [done | done | | congruence |].
    + rewrite alter_flags; done.
    + intros t q E Hq H'. by apply (stopped_ok _ _ q).
Qed.

Lemma register_tasks names now s :
  su_tasks (fold_left (fun s name => add_task name now s) names s)
  = su_tasks s ++ map (fun name => mkTask name false 0 0 now false None) names
  /\ su_degraded (fold_left (fun s name => add_task name now s) names s) = su_degraded s.
Proof.
  revert s. induction names as [|n names IH]; intros s; cbn; [by rewrite app_nil_r|].
  destruct (IH (add_task n now s)) as [-> ->]. cbn. by rewrite <- app_assoc.
Qed.
Lemma start_ok names t0 : driver_ok t0 (start_all names t0).
Proof.
  unfold start_all, register_all. destruct (register_tasks names t0 empty_status) as [Et Ef].
  constructor; cbn -[fold_left] in *; rewrite ?Et, ?Ef; [by rewrite !length_map | | | | lia].
  - intros i t p. rewrite map_map, list_lookup_fmap. destruct (names !! i); [|done]. cbn. intros [= <-].
    rewrite list_lookup_fmap. destruct (names !! i); [|done]. intros [= <-].
    constructor; cbn; [done | done | lia |]. pose proof second_pos. unfold slack, seconds. cbn. lia.
  - rewrite map_map. clear. induction names as [|n names IH]; [done | exact IH].
  - intros _ i. rewrite list_lookup_fmap. by destruct (names !! i).
Qed.
Lemma reachable_ok names t0 d : rtc drive_step (start_all names t0) d -> driver_ok t0 d.
Proof.
  revert d. apply rtc_ind_r; [apply start_ok|]. intros d d' _ Hs Hok. by eapply drive_step_ok.
Qed.

(** ** What holds of every run *)

(** In every reachable state of the driver the table tells the truth: a loop
    is marked alive exactly when it runs, degraded exactly after more than four
    restarts in a row, and the published flag is whether any loop is degraded;
    and unless the host shuts down no loop is ever lost: each one runs, or
    restarts within five minutes. *)
Theorem supervisor_truthful names t0 d :
  rtc drive_step (start_all names t0) d ->
  su_degraded (dr_status d) = any_degraded (su_tasks (dr_status d))
  /\ forall i t p, su_tasks (dr_status d) !! i = Some t -> dr_phases d !! i = Some p ->
     ts_alive t = match p with PRunning => true | _ => false end
     /\ (ts_degraded t = true <-> 4 < ts_restart_streak t)
     /\ (dr_cancelled d = false ->
         p = PRunning
         \/ exists until d', p = PWaiting until /\ until <= dr_now d + seconds 300
            /\ rtc drive_step d d' /\ dr_now d' <= dr_now d + seconds 300 /\ dr_phases d' !! i = Some PRunning).
Proof.
  intros Hr. pose proof (reachable_ok _ _ _ Hr) as [Hl Ht Hf Hd Hn]. split; [done|]. intros i t p Hi Hp.
  destruct (Ht i t p Hi Hp) as [Ha Hdg Hs Hpc]. split; [done|]. split; [rewrite Hdg; apply Z.ltb_lt|].
  intros Hc. destruct p as [|until|]; [by left | right | by destruct (Hd Hc i)].
  destruct Hpc as (_ & Hu & _). set (dt := Z.max 0 (until - dr_now d)). exists until.
  eexists. split; [done|]. split; [done|]. split; [|split].
  - eapply rtc_l; [apply (drive_time d dt); lia|]. eapply rtc_once, drive_restart; [exact Hp | cbn; lia].
  - cbn. unfold seconds in *. pose proof second_pos. lia.
  - cbn. apply list_lookup_insert_eq. by eapply lookup_lt_Some.
Qed.

(** However the loops fail and whenever the status is read, no loop restarts
    more often than once every 226 seconds on average: after [t] seconds there
    were at most [(t + 898) / 226] restarts. *)
Theorem restart_rate_bounded names t0 d i t :
  rtc drive_step (start_all names t0) d -> su_tasks (dr_status d) !! i = Some t ->
  226 * ns_per_s * ts_restarts_total t <= dr_now d - t0 + 898 * ns_per_s.
Proof.
  intros Hr Hi. pose proof (reachable_ok _ _ _ Hr) as [Hl Ht Hf Hd Hn].
  destruct (lookup_lt_is_Some_2 (dr_phases d) i) as [p Hp]; [rewrite Hl; by eapply lookup_lt_Some|].
  destruct (Ht i t p Hi Hp) as [_ _ _ Hpc]. apply (paced_total _ _ _ _ Hn Hpc).
Qed.

(** The flag is published after the lock is dropped.  When a status read that
    finds a loop recovered overlaps with the fifth failure of another loop, the
    older value overwrites the newer one: the flag says healthy while a loop is
    degraded, which neither order of the two calls would give. *)
Theorem degraded_flag_lost now i reason t s :
  let '(s1, read, _) := snapshot_locked now s in
  any_degraded (su_tasks s1) = false -> su_tasks s1 !! i = Some t -> ts_restart_streak t = 4 ->
  since now (ts_started_at t) < HEALTHY_RESET_WINDOW ->
  let '(s2, failed) := record_exit_locked i reason now s1 in
  let raced := publish_degraded read (publish_degraded failed s2) in
  su_degraded raced = false /\ any_degraded (su_tasks raced) = true
  /\ su_degraded (snd (record_unexpected_exit i reason now (snd (snapshot now s)))) = true.
Proof.
  cbn. intros Hnone Hi Hs Hw. set (tasks := map _ _) in *.
  assert (any_degraded (alter (fun t => exited reason (heal_if_window_elapsed now t)) i tasks) = true) as Hany.
  { apply existsb_exists. exists (exited reason (heal_if_window_elapsed now t)). split.
    - apply list_elem_of_In, list_elem_of_lookup. exists i. by rewrite list_lookup_alter_eq, Hi.
    - unfold heal_if_window_elapsed. apply Z.leb_gt in Hw. rewrite Hw, andb_false_r. cbn. rewrite Hs. apply orb_true_r. }
  split; [exact Hnone|]. split; [exact Hany|].
  unfold snapshot, record_unexpected_exit. cbn. exact Hany.
Qed.

(** ** The crashes of one session *)

Section Episodes.
(** The records of a sequence of crashes, and the entry's next state. *)
Fixpoint episode (e : CrashEntry) (l : list (CrashCause * moment)) : list CrashRecord :=
  match l with
  | [] => []
  | (cause, now) :: l' => let '(e', r) := crashed cause now e in r :: episode e' l'
  end.
(** Every crash within ten minutes of the one before. *)
Fixpoint close_after (last : moment) (l : list (CrashCause * moment)) : Prop :=
  match l with
  | [] => True
  | (_, now) :: l' => last <= now < last + HEALTHY_RESET_WINDOW /\ close_after now l'
  end.
Definition ooms (l : list (CrashCause * moment)) : Z :=
  Z.of_nat (length (List.filter (fun p => bool_decide (fst p = OomKill)) l)).
Lemma ooms_cons p l : ooms (p :: l) = (if bool_decide (fst p = OomKill) then 1 else 0) + ooms l.
Proof. unfold ooms. cbn [List.filter]. destruct (bool_decide _); cbn [length]; lia. Qed.

Lemma crashed_close cause now e :
  en_last_crash e <= now < en_last_crash e + HEALTHY_RESET_WINDOW ->
  0 <= en_streak e < u32_max -> 0 <= en_oom_count e < u32_max ->
  en_oom_card_emitted e = (OOM_CARD_THRESHOLD <=? en_oom_count e) ->
  let k := en_oom_count e + (if bool_decide (cause = OomKill) then 1 else 0) in
  let s := en_streak e + 1 in
  crashed cause now e
  = (mkEntry s k (OOM_CARD_THRESHOLD <=? k) now (now + backoff_delay s),
     mkCrash (backoff_delay s) s k (bool_decide (cause = OomKill) && (k =? OOM_CARD_THRESHOLD))).
Proof.
  intros Hw Hs Hk He k s. unfold crashed.
  destruct (Z.leb_spec HEALTHY_RESET_WINDOW (since now (en_last_crash e))) as [Hx|_]; [unfold since in Hx; lia|].
  unfold sat_add. rewrite (Z.min_r u32_max (en_streak e + 1)) by lia. fold s.
  assert ((if bool_decide (cause = OomKill) then Z.min u32_max (en_oom_count e + 1) else en_oom_count e) = k) as ->
    by (unfold k; destruct (bool_decide _); lia).
  rewrite He. unfold OOM_CARD_THRESHOLD in *.
  assert (bool_decide (cause = OomKill) && (3 <=? k) && negb (3 <=? en_oom_count e)
          = bool_decide (cause = OomKill) && (k =? 3)) as ->.
  { unfold k. destruct (bool_decide (cause = OomKill)); [|done]. cbn [andb].
    destruct (Z.leb_spec 3 (en_oom_count e)), (Z.leb_spec 3 (en_oom_count e + 1)), (Z.eqb_spec (en_oom_count e + 1) 3); cbn; lia. }
  f_equal. f_equal. unfold k. destruct (bool_decide (cause = OomKill)); cbn [andb].
  - destruct (Z.leb_spec 3 (en_oom_count e)), (Z.leb_spec 3 (en_oom_count e + 1)), (Z.eqb_spec (en_oom_count e + 1) 3); cbn; lia.
  - by rewrite Z.add_0_r, orb_false_r.
Qed.
Lemma episode_spec l e i c now rec :
  close_after (en_last_crash e) l -> 0 <= en_streak e -> 0 <= en_oom_count e ->
  en_streak e + Z.of_nat (length l) <= u32_max -> en_oom_count e + Z.of_nat (length l) <= u32_max ->
  en_oom_card_emitted e = (OOM_CARD_THRESHOLD <=? en_oom_count e) ->
  l !! i = Some (c, now) -> episode e l !! i = Some rec ->
  cr_streak rec = en_streak e + Z.of_nat i + 1 /\ cr_delay rec = backoff_delay (cr_streak rec)
  /\ (cr_emit_oom_card rec = true <-> c = OomKill /\ en_oom_count e + ooms (take (S i) l) = OOM_CARD_THRESHOLD).
Proof.
  revert e i. induction l as [|[c0 t0] l IH]; intros e i Hcl Hs Hk Hs' Hk' He Hl Hr; [done|].
  cbn [length] in *. destruct Hcl as [Hw Hcl]. cbn [episode] in Hr.
  rewrite (crashed_close c0 t0 e Hw) in Hr; [|lia|lia|done].
  destruct i as [|i].
  - injection Hl as -> ->. injection Hr as <-. cbn [cr_streak cr_delay cr_emit_oom_card]. split; [lia|]. split; [done|].
    cbn [firstn]. rewrite ooms_cons, andb_true_iff, bool_decide_eq_true, Z.eqb_eq. unfold ooms. cbn [fst List.filter length].
    rewrite Z.add_0_r. done.
  - edestruct (IH (mkEntry (en_streak e + 1) (en_oom_count e + (if bool_decide (c0 = OomKill) then 1 else 0))
        (OOM_CARD_THRESHOLD <=? en_oom_count e + (if bool_decide (c0 = OomKill) then 1 else 0)) t0
        (t0 + backoff_delay (en_streak e + 1))) i) as (R1 & R2 & R3);
      cbn [en_last_crash en_streak en_oom_count en_oom_card_emitted];
      [exact Hcl | lia | destruct (bool_decide _); lia | lia | destruct (bool_decide _); lia | done | exact Hl | exact Hr |].
    cbn [en_streak en_oom_count] in *. split; [lia|]. split; [done|]. rewrite R3. cbn [firstn]. rewrite ooms_cons. cbn [fst].
    rewrite Z.add_assoc. done.
Qed.

(** In a row of crashes of one session, each within ten minutes of the one
    before, the back-off follows the table step by step and stays at its last
    step, and the card about memory is sent exactly once: at the third crash
    that ran out of memory, however many others lie between. *)
Theorem oom_card_once t0 l i c now rec :
  close_after t0 l -> Z.of_nat (length l) <= u32_max ->
  l !! i = Some (c, now) -> episode (mkEntry 0 0 false t0 t0) l !! i = Some rec ->
  cr_streak rec = Z.of_nat i + 1 /\ cr_delay rec = backoff_delay (Z.of_nat i + 1)
  /\ (cr_emit_oom_card rec = true <-> c = OomKill /\ ooms (take (S i) l) = OOM_CARD_THRESHOLD).
Proof.
  intros Hcl Hlen Hl Hr.
  destruct (episode_spec l (mkEntry 0 0 false t0 t0) i c now rec Hcl) as (E1 & E2 & E3); cbn; try lia; try done.
  cbn [en_streak en_oom_count] in *. rewrite Z.add_0_l in E1, E3. split; [lia|]. split; [|exact E3]. by rewrite E2, E1.
Qed.
End Episodes.

(** ** Instances *)

Module SupervisorWitnesses.

(** Two loops; the first fails after ten seconds. *)
Definition names : list string := ["delivery"; "sweep"]%string.
Definition ten_seconds : Driver :=
  mkDriver (dr_status (start_all names 0)) (dr_phases (start_all names 0)) (seconds 10) false.
Definition failed_once : Driver :=
  with_phase 0 (PWaiting (seconds 15))
    (snd (record_unexpected_exit 0 (describe Returned) (seconds 10) (dr_status ten_seconds))) ten_seconds.
Lemma failed_once_reachable : rtc drive_step (start_all names 0) failed_once.
Proof.
  apply (rtc_l _ _ ten_seconds); [by apply (drive_time (start_all names 0) (seconds 10))|].
  apply rtc_once, (drive_exit ten_seconds 0 Returned (seconds 5)); reflexivity.
Qed.
Lemma supervisor_truthful_witness :
  su_degraded (dr_status failed_once) = any_degraded (su_tasks (dr_status failed_once)).
Proof. apply (supervisor_truthful names 0 failed_once failed_once_reachable). Defined.
Lemma restart_rate_bounded_witness :
  exists t, su_tasks (dr_status failed_once) !! 0%nat = Some t
            /\ 226 * ns_per_s * ts_restarts_total t <= seconds 10 - 0 + 898 * ns_per_s.
Proof.
  eexists. split; [reflexivity|].
  apply (restart_rate_bounded names 0 failed_once 0 _ failed_once_reachable). reflexivity.
Defined.

Definition loop (name : string) (alive : bool) (streak : Z) (at_ : moment) (degraded : bool) : TaskState :=
  mkTask name alive streak streak at_ degraded None.
(** The first loop has recovered, the second fails for the fifth time. *)
Definition overlap : SupervisorStatus :=
  mkStatus [loop "delivery" true 5 0 true; loop "sweep" true 4 (seconds 690) false] true.
Lemma degraded_flag_lost_witness :
  let '(s1, read, _) := snapshot_locked (seconds 700) overlap in
  let '(s2, failed) := record_exit_locked 1 (lit "returned unexpectedly") (seconds 700) s1 in
  su_degraded (publish_degraded read (publish_degraded failed s2)) = false.
Proof.
  apply (degraded_flag_lost (seconds 700) 1 (lit "returned unexpectedly")
           (loop "sweep" true 4 (seconds 690) false) overlap); reflexivity.
Defined.
Lemma oom_card_once_witness :
  let crash_at n := (OomKill, seconds n) in
  let l := [crash_at 10; crash_at 30; crash_at 60; crash_at 200]%Z in
  map cr_emit_oom_card (episode (mkEntry 0 0 false 0 0) l) = [false; false; true; false]
  /\ exists rec, episode (mkEntry 0 0 false 0 0) l !! 2%nat = Some rec
     /\ cr_delay rec = seconds 60 /\ cr_emit_oom_card rec = true.
Proof.
  intros crash_at l. split; [vm_compute; reflexivity|].
  destruct (episode (mkEntry 0 0 false 0 0) l !! 2%nat) as [rec|] eqn:E; [|vm_compute in E; discriminate].
  exists rec. split; [reflexivity|].
  destruct (oom_card_once 0 l 2 OomKill (seconds 60) rec) as (_ & Ed & Ec);
    [cbn; unfold HEALTHY_RESET_WINDOW, seconds, ns_per_s; lia | vm_compute; congruence | reflexivity | exact E |].
  split; [exact Ed | apply Ec; split; [reflexivity | vm_compute; reflexivity]].
Defined.
End SupervisorWitnesses.
