(* ===== verification/Containers.v ===== *)
(** The container manager ([copperclaw-host/src/container_manager]): what it
    decides for a session ([classify.rs]), the spawn with its gates
    ([spawn.rs], [budgets.rs]), the restart of a dead or stuck container with
    its apologies, the poison quarantine and the out-of-memory card
    ([classify.rs]), the actuator of the sweep ([stuck_actuator.rs]), the tick
    over all sessions ([mod.rs]) and the reset at boot ([boot.rs]).

    The state holds the world of the sweep (the central tables and the session
    directories are shared with it), what the manager keeps in memory, and the
    calls made to the container runtime.  The runtime and the files written for
    the runner answer through the class [Runtime], depending on the calls made
    before.  Previews, crash logs, typing feedback, the attestation record and
    the network rules of a container are left out. *)
From S2P Require Import Prelude Types MessagesIn Outbox Central Schedule Goals Conditions Interactive Sweep Budgets CrashLoop.

(** ** The runtime *)

Inductive RtError : Type :=
| RtUnavailable (message : rstr)
| RtContainer (message : rstr)
| RtNotFound (message : rstr)
| RtIo
| RtUnsupported (message : rstr).
Inductive ManagerError : Type :=
| MDb (e : DbError)
| MOpen
| MJson
| MIo
| MSpawn (e : RtError)
| MUnsafeMount
| HostDegraded
| HostResourceExhausted.
Inductive RtCall : Type :=
| CallRemove (k : session_key)
| CallStop (k : session_key)
| CallBuild (group : uuid)
| CallSpawn (k : session_key) (image : rstr).

Class Runtime : Type := {
  rt_exit_status : list RtCall -> session_key -> option ContainerExitStatus;
  rt_build : list RtCall -> uuid -> result RtError rstr;
  rt_spawn : list RtCall -> session_key -> rstr -> option RtError;
  (** The session's directories, [runner.json], and its bind mounts. *)
  rt_dirs : list RtCall -> session_key -> option ManagerError;
  rt_runner_json : list RtCall -> session_key -> option ManagerError;
  rt_mounts : list RtCall -> session_key -> option ManagerError;
}.

(** ** The state *)

(** The image columns of [container_configs]. *)
Record ImageConfig : Type := mkImage {
  ic_image_tag : option rstr;
  ic_fingerprint : option rstr;
}.
Inductive AlertSeverity : Type := AlertWarning | AlertCritical.
Inductive Alert : Type :=
| AlertEnvFault
| AlertSpawnFail (session : uuid)
| AlertOom (session : uuid).
Record ManagerConfig : Type := mkManagerConfig {
  mc_idle_timeout_secs : Z;
  mc_heartbeat_stale_secs : Z;
  mc_default_image_tag : rstr;
  mc_operator_alerts : bool;
}.
Definition DEFAULT_IDLE_TIMEOUT_SECS : Z := 300.
Definition DEFAULT_HEARTBEAT_STALE_SECS : Z := 120.
Record Manager : Type := mkManager {
  cm_world : SweepWorld;
  cm_crash : gmap uuid CrashEntry;
  cm_breaker : EnvFaultBreaker;
  cm_env_exhausted : bool;
  cm_probe : option (moment * option DiskSpace);
  cm_degraded : bool;
  cm_rebuild : gmap uuid RebuildEntry;
  cm_images : gmap uuid ImageConfig;
  cm_budgets : list GroupBudget;
  cm_turns : list AgentTurn;
  cm_budget_notice : gmap uuid instant;
  cm_rate_notice : gmap uuid instant;
  cm_routing : gmap session_key SessionRouting;
  cm_calls : list RtCall;
  cm_alerts : list Alert;
  cm_wakes : Z;
  (** What [statvfs] says now, and the monotonic clock. *)
  cm_disk : option DiskSpace;
  cm_clock : moment;
}.
Definition MM (A : Type) : Type := stateful Manager ManagerError A.

Definition set_world (x : SweepWorld) (m : Manager) : Manager :=
  mkManager x (cm_crash m) (cm_breaker m) (cm_env_exhausted m) (cm_probe m) (cm_degraded m) (cm_rebuild m)
    (cm_images m) (cm_budgets m) (cm_turns m) (cm_budget_notice m) (cm_rate_notice m) (cm_routing m) (cm_calls m)
    (cm_alerts m) (cm_wakes m) (cm_disk m) (cm_clock m).
Definition set_crash (x : gmap uuid CrashEntry) (m : Manager) : Manager :=
  mkManager (cm_world m) x (cm_breaker m) (cm_env_exhausted m) (cm_probe m) (cm_degraded m) (cm_rebuild m)
    (cm_images m) (cm_budgets m) (cm_turns m) (cm_budget_notice m) (cm_rate_notice m) (cm_routing m) (cm_calls m)
    (cm_alerts m) (cm_wakes m) (cm_disk m) (cm_clock m).
Definition set_breaker (x : EnvFaultBreaker) (m : Manager) : Manager :=
  mkManager (cm_world m) (cm_crash m) x (cm_env_exhausted m) (cm_probe m) (cm_degraded m) (cm_rebuild m)
    (cm_images m) (cm_budgets m) (cm_turns m) (cm_budget_notice m) (cm_rate_notice m) (cm_routing m) (cm_calls m)
    (cm_alerts m) (cm_wakes m) (cm_disk m) (cm_clock m).
Definition set_env_exhausted (x : bool) (m : Manager) : Manager :=
  mkManager (cm_world m) (cm_crash m) (cm_breaker m) x (cm_probe m) (cm_degraded m) (cm_rebuild m)
    (cm_images m) (cm_budgets m) (cm_turns m) (cm_budget_notice m) (cm_rate_notice m) (cm_routing m) (cm_calls m)
    (cm_alerts m) (cm_wakes m) (cm_disk m) (cm_clock m).
Definition set_probe (x : option (moment * option DiskSpace)) (m : Manager) : Manager :=
  mkManager (cm_world m) (cm_crash m) (cm_breaker m) (cm_env_exhausted m) x (cm_degraded m) (cm_rebuild m)
    (cm_images m) (cm_budgets m) (cm_turns m) (cm_budget_notice m) (cm_rate_notice m) (cm_routing m) (cm_calls m)
    (cm_alerts m) (cm_wakes m) (cm_disk m) (cm_clock m).
Definition set_degraded (m : Manager) : Manager :=
  mkManager (cm_world m) (cm_crash m) (cm_breaker m) (cm_env_exhausted m) (cm_probe m) true (cm_rebuild m)
    (cm_images m) (cm_budgets m) (cm_turns m) (cm_budget_notice m) (cm_rate_notice m) (cm_routing m) (cm_calls m)
    (cm_alerts m) (cm_wakes m) (cm_disk m) (cm_clock m).
Definition set_rebuild (x : gmap uuid RebuildEntry) (m : Manager) : Manager :=
  mkManager (cm_world m) (cm_crash m) (cm_breaker m) (cm_env_exhausted m) (cm_probe m) (cm_degraded m) x
    (cm_images m) (cm_budgets m) (cm_turns m) (cm_budget_notice m) (cm_rate_notice m) (cm_routing m) (cm_calls m)
    (cm_alerts m) (cm_wakes m) (cm_disk m) (cm_clock m).
Definition set_images (x : gmap uuid ImageConfig) (m : Manager) : Manager :=
  mkManager (cm_world m) (cm_crash m) (cm_breaker m) (cm_env_exhausted m) (cm_probe m) (cm_degraded m)
    (cm_rebuild m) x (cm_budgets m) (cm_turns m) (cm_budget_notice m) (cm_rate_notice m) (cm_routing m) (cm_calls m)
    (cm_alerts m) (cm_wakes m) (cm_disk m) (cm_clock m).
Definition set_budget_notice (x : gmap uuid instant) (m : Manager) : Manager :=
  mkManager (cm_world m) (cm_crash m) (cm_breaker m) (cm_env_exhausted m) (cm_probe m) (cm_degraded m)
    (cm_rebuild m) (cm_images m) (cm_budgets m) (cm_turns m) x (cm_rate_notice m) (cm_routing m) (cm_calls m)
    (cm_alerts m) (cm_wakes m) (cm_disk m) (cm_clock m).
Definition set_rate_notice (x : gmap uuid instant) (m : Manager) : Manager :=
  mkManager (cm_world m) (cm_crash m) (cm_breaker m) (cm_env_exhausted m) (cm_probe m) (cm_degraded m)
    (cm_rebuild m) (cm_images m) (cm_budgets m) (cm_turns m) (cm_budget_notice m) x (cm_routing m) (cm_calls m)
    (cm_alerts m) (cm_wakes m) (cm_disk m) (cm_clock m).
Definition set_calls (x : list RtCall) (m : Manager) : Manager :=
  mkManager (cm_world m) (cm_crash m) (cm_breaker m) (cm_env_exhausted m) (cm_probe m) (cm_degraded m)
    (cm_rebuild m) (cm_images m) (cm_budgets m) (cm_turns m) (cm_budget_notice m) (cm_rate_notice m) (cm_routing m)
    x (cm_alerts m) (cm_wakes m) (cm_disk m) (cm_clock m).
Definition set_alerts (x : list Alert) (m : Manager) : Manager :=
  mkManager (cm_world m) (cm_crash m) (cm_breaker m) (cm_env_exhausted m) (cm_probe m) (cm_degraded m)
    (cm_rebuild m) (cm_images m) (cm_budgets m) (cm_turns m) (cm_budget_notice m) (cm_rate_notice m) (cm_routing m)
    (cm_calls m) x (cm_wakes m) (cm_disk m) (cm_clock m).
Definition set_wakes (x : Z) (m : Manager) : Manager :=
  mkManager (cm_world m) (cm_crash m) (cm_breaker m) (cm_env_exhausted m) (cm_probe m) (cm_degraded m)
    (cm_rebuild m) (cm_images m) (cm_budgets m) (cm_turns m) (cm_budget_notice m) (cm_rate_notice m) (cm_routing m)
    (cm_calls m) (cm_alerts m) x (cm_disk m) (cm_clock m).

(** ** Steps *)

Definition in_world (f : SweepWorld -> SweepWorld) : MM unit := modify (fun m => set_world (f (cm_world m)) m).
Definition wall : MM instant := gets (fun m => sv_now (cm_world m)).
Definition mono : MM moment := gets cm_clock.
Definition fresh_message_id : MM uuid :=
  let! n := gets (fun m => sv_fresh (cm_world m)) in in_world (set_fresh (n + 1)) ;; ret n.
Definition db {A} (r : result DbError A) : MM A := lift (match r with Ok a => Ok a | Err e => Err (MDb e) end).
Definition opened_db {A} (o : option A) : MM A := match o with Some a => ret a | None => fail MOpen end.
Definition open_inbound (k : session_key) : MM (list in_row) :=
  let! d := gets (fun m => dir_at k (cm_world m)) in opened_db (sd_inbound d).
Definition open_outbound (k : session_key) : MM OutboundDb :=
  let! d := gets (fun m => dir_at k (cm_world m)) in opened_db (sd_outbound d).
Definition write_inbound (k : session_key) (t : list in_row) : MM unit :=
  in_world (fun w => put_dir k (with_inbound t (dir_at k w)) w).
Definition write_outbound (k : session_key) (o : OutboundDb) : MM unit :=
  in_world (fun w => put_dir k (with_outbound o (dir_at k w)) w).
Definition insert_outbound (k : session_key) (write : WriteOutbound) : MM unit :=
  let! o := open_outbound k in
  let! '(_, t) := db (out_insert (ob_messages o) write) in
  write_outbound k (mkOutboundDb t (ob_acks o) (ob_state o)).
(** An error that is logged and ignored; what was written before stays. *)
Definition best_effort (m : MM unit) : MM unit := let! _ := catch m in ret tt.
Definition call (c : RtCall) : MM unit := modify (fun m => set_calls (cm_calls m ++ [c]) m).
Definition mark_container (id : uuid) (status : ContainerStatus) : MM unit :=
  let! now := wall in
  let! ss := gets (fun m => sv_sessions (cm_world m)) in
  let! ss' := db (set_container_status ss id status now) in
  in_world (set_sessions ss').
Definition current_disk : MM (option DiskSpace) :=
  let! now := mono in
  let! cache := gets cm_probe in
  let! read := gets cm_disk in
  let '(reading, cache') := probe_get cache read now in
  modify (set_probe cache') ;;
  ret reading.
Definition full_disk (d : option DiskSpace) : bool := match d with Some d => is_exhausted d | None => false end.

Section Manager.
Context `{Runtime} (cfg : ManagerConfig).
(** UUIDs as text, [%Y-%m-%d %H:%M], and the fingerprint of a group's live
    container config. *)
Context (uuid_text : uuid -> rstr) (format_minute : instant -> rstr) (compute_fingerprint : uuid -> rstr).

Definition alert (a : Alert) : MM unit :=
  if mc_operator_alerts cfg then modify (fun m => set_alerts (cm_alerts m ++ [a]) m) else ret tt.

(** ** The decision ([classify.rs]) *)

Inductive ReconcileAction : Type :=
| Noop | Spawn | WakeFromIdle | IdleStop | CrashRestart | StuckRestart.
Inductive RestartReason : Type := Crash | StuckTool.

Definition has_pending_inbound (k : session_key) : MM bool :=
  let! t := open_inbound k in
  let! now := wall in
  ret (0 <? count_due t now).
Definition heartbeat_stale (d : SessionDir) (now : instant) (threshold_secs : Z) : bool :=
  match sd_heartbeat d with
  | Beat mtime => threshold_secs * ns_per_s <? Z.max 0 (now - mtime)
  | NoHeartbeat | BeatUnreadable => false
  end.
Definition session_idle (session : Session) (now : instant) (window_secs : Z) : bool :=
  Z.min i64_max window_secs <? num_seconds (now - s_last_active session).
Definition heartbeat_missing_and_session_old (d : SessionDir) (session : Session) (now : instant)
  (threshold_secs : Z) : bool :=
  match sd_heartbeat d with
  | NoHeartbeat => session_idle session now threshold_secs
  | Beat _ | BeatUnreadable => false
  end.
Definition classify (session : Session) : MM ReconcileAction :=
  let k := session_key_of session in
  let! pending := catch (has_pending_inbound k) in
  let pending := match pending with Ok b => b | Err _ => false end in
  let! now := wall in
  let! d := gets (fun m => dir_at k (cm_world m)) in
  match s_container_status session with
  | Stopped =>
      if pending then
        let! clock := mono in
        let! crashes := gets cm_crash in
        match spawn_delay_remaining crashes (s_id session) clock with
        | Some _ => ret Noop
        | None => ret Spawn
        end
      else ret Noop
  | Idle => ret (if pending then WakeFromIdle else Noop)
  | Running =>
      if heartbeat_stale d now (mc_heartbeat_stale_secs cfg)
         || heartbeat_missing_and_session_old d session now (mc_heartbeat_stale_secs cfg)
      then ret CrashRestart
      else if session_idle session now (mc_idle_timeout_secs cfg)
              && heartbeat_stale d now (mc_idle_timeout_secs cfg)
      then ret IdleStop
      else ret Noop
  end.

(** ** Apologies for the turns in flight *)

Definition CRASH_RESTART_APOLOGY_TEXT : rstr :=
  lit "Hit a snag mid-task and need to restart the agent container. Some progress may have been lost. I'll pick back up "
  ++ EM_DASH ++ lit " try sending a follow-up if I don't continue on my own.".
Definition QUARANTINE_CRASH_ATTEMPTS : Z := 3.
Definition POISON_QUARANTINE_APOLOGY_TEXT : rstr :=
  lit "One of your recent messages repeatedly crashed the agent, so I'm skipping it to recover. If it had an attachment "
  ++ lit "(like a large image or file), try resending a smaller version or describing it in text instead.".
Definition OOM_CARD_TITLE : rstr := lit "Task keeps running out of memory".
Definition OOM_CARD_SUMMARY : rstr :=
  lit "This task keeps crashing because the agent's container runs out of memory. Restarts are being spaced out, but the "
  ++ lit "task will likely keep failing at the same point. An operator can raise the container's memory limit (the "
  ++ lit "memory_mb field in this group's container config, e.g. via `cclaw groups config edit <group-id>`).".

Record InFlightRouting : Type := mkInFlight {
  fl_message_id : uuid;
  fl_channel_type : string;
  fl_platform_id : string;
  fl_thread_id : option string;
}.
Definition routing_of_row (r : in_row) : option InFlightRouting :=
  match mi_channel_type (ir_row r), mi_platform_id (ir_row r) with
  | Some ct, Some pid =>
      if String.eqb ct "" || String.eqb pid "" then None
      else Some (mkInFlight (ir_id r) ct pid (mi_thread_id (ir_row r)))
  | _, _ => None
  end.
Definition list_processing_acks (acks : list ProcessingClaim) : list uuid :=
  map pc_message_id (List.filter (fun c => bool_decide (pc_status c = Processing)) (ack_get_all acks)).
Definition lookup_inbound_routing (t : list in_row) (id : uuid) : option InFlightRouting :=
  sql_get (MessagesIn.has_id id) t ≫= routing_of_row.
Definition latest_routed_inbound (t : list in_row) : option InFlightRouting :=
  match order_by (fun r => - mi_timestamp (ir_row r))
          (order_by (fun r => - ir_seq r)
             (List.filter (fun r => match routing_of_row r with Some _ => true | None => false end) t)) with
  | r :: _ => routing_of_row r
  | [] => None
  end.
Definition mark_inbound_tries (k : session_key) (id : uuid) : MM unit :=
  let! t := open_inbound k in
  write_inbound k (fst (sql_update (MessagesIn.has_id id) (set_mi_tries APOLOGY_TRIES_MARKER) t)).
Definition fail_claim (k : session_key) (id : uuid) : MM unit :=
  let! o := open_outbound k in
  let! now := wall in
  let! acks := db (ack_update_status (ob_acks o) id Outbox.Failed now) in
  write_outbound k (mkOutboundDb (ob_messages o) acks (ob_state o)).
(** A chat row that answers the message, when it came from a channel. *)
Definition apologize (k : session_key) (routing : option InFlightRouting) (now : instant) (text : rstr) : MM bool :=
  match routing with
  | Some r =>
      let! id := fresh_message_id in
      insert_outbound k
        (mkWriteOutbound id (Some (fl_message_id r)) now None None Chat (Some (fl_platform_id r))
           (Some (fl_channel_type r)) (fl_thread_id r) (JObj [("text", JStr text)]%string)) ;;
      ret true
  | None => ret false
  end.
Definition bump_attempts (k : session_key) (id : uuid) : MM Z :=
  let! t := open_inbound k in
  match increment_crash_attempts t id with
  | Ok (n, t') => write_inbound k t' ;; ret n
  | Err _ => ret 0
  end.
Definition quarantine (k : session_key) (id : uuid) : MM unit :=
  let! t := open_inbound k in
  match mark_failed t id with
  | Ok t' => write_inbound k t'
  | Err _ => ret tt
  end.
Definition apologize_in_flight (k : session_key) (now : instant) (id : uuid) : MM unit :=
  let! attempts := bump_attempts k id in
  let! t := open_inbound k in
  let routing := lookup_inbound_routing t id in
  if QUARANTINE_CRASH_ATTEMPTS <=? attempts then
    quarantine k id ;;
    let! _ := apologize k routing now POISON_QUARANTINE_APOLOGY_TEXT in
    best_effort (fail_claim k id)
  else
    let! _ := apologize k routing now CRASH_RESTART_APOLOGY_TEXT in
    mark_inbound_tries k id ;;
    best_effort (fail_claim k id).
Fixpoint for_each {A} (f : A -> MM unit) (l : list A) : MM unit :=
  match l with
  | [] => ret tt
  | x :: l' => f x ;; for_each f l'
  end.
Definition emit_crash_restart_apologies (k : session_key) : MM unit :=
  let! _ := open_inbound k in
  let! o := open_outbound k in
  let! now := wall in
  for_each (apologize_in_flight k now) (list_processing_acks (ob_acks o)).

(** One notice per session at boot; every claim in flight is closed. *)
Fixpoint recover_in_flight (k : session_key) (now : instant) (written : bool) (l : list uuid) : MM bool :=
  match l with
  | [] => ret written
  | id :: l' =>
      let! t := open_inbound k in
      let! written' := (if written then ret true
                        else apologize k (lookup_inbound_routing t id) now CRASH_RESTART_APOLOGY_TEXT) in
      mark_inbound_tries k id ;;
      best_effort (fail_claim k id) ;;
      recover_in_flight k now written' l'
  end.
Definition emit_boot_recovery_notice (k : session_key) : MM bool :=
  let! pending := has_pending_inbound k in
  if negb pending then ret false
  else
    let! o := open_outbound k in
    match list_processing_acks (ob_acks o) with
    | [] => ret false
    | processing => let! now := wall in recover_in_flight k now false processing
    end.
Definition reset_one_running (session : Session) : MM unit :=
  best_effort (mark_container (s_id session) Stopped) ;;
  best_effort (let! _ := emit_boot_recovery_notice (session_key_of session) in ret tt).
Definition reset_stale_running_sessions : MM unit :=
  let! ss := gets (fun m => sv_sessions (cm_world m)) in
  for_each reset_one_running (list_running ss).

Definition emit_oom_error_card (k : session_key) : MM unit :=
  let! t := open_inbound k in
  match latest_routed_inbound t with
  | None => ret tt
  | Some r =>
      let! _ := open_outbound k in
      let! id := fresh_message_id in
      let! now := wall in
      insert_outbound k
        (mkWriteOutbound id (Some (fl_message_id r)) now None None Error (Some (fl_platform_id r))
           (Some (fl_channel_type r)) (fl_thread_id r)
           (JObj [("error", JObj [("title", JStr OOM_CARD_TITLE); ("summary", JStr OOM_CARD_SUMMARY);
                                  ("kind", JStr (lit "internal")); ("retryable", JBool false)])]%string))
  end.

(** ** Restarts *)

Definition clear_stuck_tool_state (k : session_key) : MM unit :=
  let! o := open_outbound k in
  let! now := wall in
  write_outbound k (mkOutboundDb (ob_messages o) (ob_acks o) (clear_tool (ob_state o) now)).
Definition note_crash_for_env_breaker (session : Session) : MM unit :=
  let! now := mono in
  let! breaker := gets cm_breaker in
  let '(tripped, breaker') := breaker_record breaker (s_id session) now in
  modify (set_breaker breaker') ;;
  if tripped then
    modify (set_env_exhausted true) ;;
    let! _ := current_disk in
    alert AlertEnvFault
  else ret tt.
Definition crash_cause (k : session_key) (reason : RestartReason) : MM CrashCause :=
  let! calls := gets cm_calls in
  let cause := match reason with
               | Crash => from_exit_status (rt_exit_status calls k)
               | StuckTool => Generic
               end in
  let! disk := current_disk in
  ret (with_host_disk cause (full_disk disk)).
Definition record_restart (session : Session) (cause : CrashCause) : MM CrashRecord :=
  let! now := mono in
  let! crashes := gets cm_crash in
  let '(record, crashes') := record_crash crashes (s_id session) cause now in
  modify (set_crash crashes') ;;
  ret record.
Definition restart_container (session : Session) (reason : RestartReason) : MM unit :=
  let k := session_key_of session in
  let! cause := crash_cause k reason in
  call (CallRemove k) ;;
  match reason with StuckTool => best_effort (clear_stuck_tool_state k) | Crash => ret tt end ;;
  best_effort (emit_crash_restart_apologies k) ;;
  mark_container (s_id session) Stopped ;;
  let! record := record_restart session cause in
  note_crash_for_env_breaker session ;;
  if cr_emit_oom_card record then
    best_effort (emit_oom_error_card k) ;;
    alert (AlertOom (s_id session))
  else ret tt.

(** ** Spawns *)

Definition alert_spawn_failure (session : Session) (attempts : Z) : MM unit :=
  if attempts =? SPAWN_FAIL_THRESHOLD then alert (AlertSpawnFail (s_id session)) else ret tt.
(** [spawn_tracker.record_failure], then the alert. *)
Definition spawn_failed (session : Session) : MM unit :=
  in_world (record_spawn_failure (s_id session)) ;;
  let! attempts := gets (fun m => failure_count (cm_world m) (s_id session)) in
  alert_spawn_failure session attempts.
Definition spawn_blocked_by_host_resources : MM bool :=
  let! breaker := gets cm_breaker in
  if is_tripped breaker then ret true
  else let! disk := current_disk in ret (full_disk disk).
(** One notice per group and window ([post_cap_reply]). *)
Definition post_cap_reply (session : Session) (text : rstr) (notices : Manager -> gmap uuid instant)
  (set_notices : gmap uuid instant -> Manager -> Manager) (window_secs : Z) : MM unit :=
  let k := session_key_of session in
  let group := s_agent_group_id session in
  let! now := wall in
  let! seen := gets notices in
  if match seen !! group with Some prev => Z.abs (num_seconds (now - prev)) <? window_secs | None => false end
  then ret tt
  else
    modify (set_notices (<[group := now]> seen)) ;;
    let! _ := open_inbound k in
    let! routing := gets (fun m => cm_routing m !! k) in
    match routing with
    | None => ret tt
    | Some r =>
        let! _ := open_outbound k in
        let! id := fresh_message_id in
        insert_outbound k
          (mkWriteOutbound id None now None None Chat (sr_platform_id r) (sr_channel_type r) (sr_thread_id r)
             (JObj [("text", JStr text)]%string))
    end.
(** The image to run: rebuilt when the live config differs from the one the
    image was built from, else the last known good one. *)
Definition session_image (session : Session) : MM rstr :=
  let group := s_agent_group_id session in
  let! images := gets cm_images in
  match images !! group with
  | None => ret (mc_default_image_tag cfg)
  | Some c =>
      let base := default (mc_default_image_tag cfg) (ic_image_tag c) in
      if rstr_eqb (default [] (ic_fingerprint c)) (compute_fingerprint group) then ret base
      else
        let! rebuild := gets cm_rebuild in
        let! now := mono in
        match in_cooldown rebuild group now with
        | Some _ =>
            match base with
            | [] =>
                spawn_failed session ;;
                fail (MSpawn (RtContainer (lit "image rebuild in cooldown and no fallback tag is configured")))
            | _ => ret base
            end
        | None =>
            let! calls := gets cm_calls in
            call (CallBuild group) ;;
            match rt_build calls group with
            | Ok tag =>
                modify (set_images (<[group := mkImage (Some tag) (Some (compute_fingerprint group))]> images)) ;;
                modify (set_rebuild (rebuild_success rebuild group)) ;;
                ret tag
            | Err e =>
                modify (set_rebuild (snd (rebuild_failure rebuild group now))) ;;
                match base with
                | [] => spawn_failed session ;; fail (MSpawn e)
                | _ => ret base
                end
            end
        end
  end.
Definition prepared (answer : option ManagerError) : MM unit :=
  match answer with Some e => fail e | None => ret tt end.
Definition without_heartbeat (d : SessionDir) : SessionDir :=
  mkDir (sd_inbound d) (sd_outbound d) NoHeartbeat (sd_outbound_check d) (sd_inbound_check d) (sd_quarantined d)
    (sd_sidecar_writable d).
(** After every gate: image, mounts, and the call itself. *)
Definition launch (session : Session) : MM bool :=
  let k := session_key_of session in
  let! calls := gets cm_calls in
  prepared (rt_runner_json calls k) ;;
  let! image := session_image session in
  let! calls := gets cm_calls in
  prepared (rt_mounts calls k) ;;
  call (CallRemove k) ;;
  in_world (fun w => put_dir k (without_heartbeat (dir_at k w)) w) ;;
  let! calls := gets cm_calls in
  call (CallSpawn k image) ;;
  match rt_spawn calls k image with
  | Some e => spawn_failed session ;; fail (MSpawn e)
  | None =>
      in_world (record_spawn_success (s_id session)) ;;
      mark_container (s_id session) Running ;;
      ret true
  end.
Definition maybe_spawn (session : Session) : MM bool :=
  let k := session_key_of session in
  let group := s_agent_group_id session in
  let! degraded := gets cm_degraded in
  if degraded then fail HostDegraded
  else
    let! blocked := spawn_blocked_by_host_resources in
    if blocked then fail HostResourceExhausted
    else
      let! calls := gets cm_calls in
      prepared (rt_dirs calls k) ;;
      let! pending := has_pending_inbound k in
      if negb pending then ret false
      else
        let! now := wall in
        let! budgets := gets cm_budgets in
        let! turns := gets cm_turns in
        let! daily := db (daily_budget_message uuid_text format_minute budgets turns group now) in
        match daily with
        | Some (text, _) =>
            best_effort (post_cap_reply session text cm_budget_notice set_budget_notice BUDGET_NOTICE_WINDOW_SECS) ;;
            ret false
        | None =>
            match rate_limit_message uuid_text budgets turns group now with
            | Some (text, _) =>
                best_effort (post_cap_reply session text cm_rate_notice set_rate_notice
                               RATE_LIMIT_NOTICE_WINDOW_SECS) ;;
                ret false
            | None => launch session
            end
        end.

(** ** Reconciliation *)

Definition apply (session : Session) (action : ReconcileAction) : MM unit :=
  match action with
  | Noop => ret tt
  | Spawn =>
      let! r := catch (maybe_spawn session) in
      match r with
      | Ok _ | Err HostDegraded | Err HostResourceExhausted => ret tt
      | Err e => fail e
      end
  | WakeFromIdle =>
      mark_container (s_id session) Stopped ;; modify (fun m => set_wakes (cm_wakes m + 1) m)
  | IdleStop =>
      call (CallStop (session_key_of session)) ;; mark_container (s_id session) Idle
  | CrashRestart => restart_container session Crash
  | StuckRestart => restart_container session StuckTool
  end.
Definition reconcile (session : Session) : MM unit :=
  let! action := classify session in best_effort (apply session action).
Definition refresh_host_resources : MM unit :=
  let! now := mono in
  let! read := gets cm_disk in
  let '(reading, cache) := probe_refresh read now in
  modify (set_probe cache) ;;
  (if full_disk reading then ret tt
   else modify (fun m => set_breaker (snd (maybe_rearm (cm_breaker m) now)) m)) ;;
  modify (fun m => set_env_exhausted (full_disk reading || is_tripped (cm_breaker m)) m).
Definition clear_env_exhausted : MM unit :=
  modify (fun m => set_env_exhausted false (set_breaker (breaker_reset (cm_breaker m)) m)).
Definition tick : MM unit :=
  refresh_host_resources ;;
  let! ss := gets (fun m => sv_sessions (cm_world m)) in
  for_each reconcile (Central.list_active ss).
(** The sweep's stuck actuator: only a container that still runs. *)
Definition restart_stuck (id : uuid) : MM unit :=
  let! ss := gets (fun m => sv_sessions (cm_world m)) in
  match session_get ss id with
  | Ok session =>
      if bool_decide (s_container_status session = Running) then apply session StuckRestart else ret tt
  | Err NotFound => ret tt
  | Err e => fail (MDb e)
  end.
End Manager.
