(* ===== verification/ContainersProps.v ===== *)
(** What the container manager does with a session: a tick reaches every
    session whatever fails, a container is started only when every gate is
    open, a crashed turn is settled, and the out-of-memory card comes once. *)
From S2P Require Import Prelude Types MessagesIn Outbox Central Schedule Goals Conditions Interactive Sweep Budgets CrashLoop Containers.

(** ** Running the steps of the manager *)

Section Steps.
Implicit Types (m : Manager) (k : uuid * uuid) (id : uuid).

Lemma best_effort_run (a : MM unit) m : best_effort a m = (Ok tt, snd (a m)).
Proof. unfold best_effort, catch, mbind. by destruct (a m) as [r m']. Qed.
Lemma open_inbound_run k m :
  open_inbound k m = (match sd_inbound (dir_at k (cm_world m)) with Some t => Ok t | None => Err MOpen end, m).
Proof. unfold open_inbound, mbind, gets, opened_db. by destruct (sd_inbound _). Qed.
Lemma open_outbound_run k m :
  open_outbound k m = (match sd_outbound (dir_at k (cm_world m)) with Some o => Ok o | None => Err MOpen end, m).
Proof. unfold open_outbound, mbind, gets, opened_db. by destruct (sd_outbound _). Qed.
Lemma open_inbound_some k m t : sd_inbound (dir_at k (cm_world m)) = Some t -> open_inbound k m = (Ok t, m).
Proof. intros E. by rewrite open_inbound_run, E. Qed.
Lemma open_outbound_some k m o : sd_outbound (dir_at k (cm_world m)) = Some o -> open_outbound k m = (Ok o, m).
Proof. intros E. by rewrite open_outbound_run, E. Qed.
Lemma pending_run k m :
  has_pending_inbound k m
  = (match sd_inbound (dir_at k (cm_world m)) with
     | Some t => Ok (0 <? count_due t (sv_now (cm_world m)))
     | None => Err MOpen
     end, m).
Proof. unfold has_pending_inbound, mbind. rewrite open_inbound_run. by destruct (sd_inbound _). Qed.
End Steps.

(** ** The decision *)

Section Decision.
Context (cfg : ManagerConfig).
Implicit Types (m : Manager) (s : Session).

Definition pending_in s m : bool :=
  match sd_inbound (dir_at (session_key_of s) (cm_world m)) with
  | Some t => 0 <? count_due t (sv_now (cm_world m))
  | None => false
  end.
Definition running_decision s m : ReconcileAction :=
  let d := dir_at (session_key_of s) (cm_world m) in
  let now := sv_now (cm_world m) in
  if heartbeat_stale d now (mc_heartbeat_stale_secs cfg)
     || heartbeat_missing_and_session_old d s now (mc_heartbeat_stale_secs cfg) then CrashRestart
  else if session_idle s now (mc_idle_timeout_secs cfg) && heartbeat_stale d now (mc_idle_timeout_secs cfg)
  then IdleStop else Noop.
Definition decision s m : ReconcileAction :=
  match s_container_status s with
  | Stopped =>
      if pending_in s m
      then match spawn_delay_remaining (cm_crash m) (s_id s) (cm_clock m) with Some _ => Noop | None => Spawn end
      else Noop
  | Idle => if pending_in s m then WakeFromIdle else Noop
  | Running => running_decision s m
  end.
Lemma classify_run s m : classify cfg s m = (Ok (decision s m), m).
Proof.
  unfold classify, decision, pending_in. unfold mbind at 1, catch. rewrite pending_run.
  unfold wall, mono, gets, mbind, ret, running_decision. cbv beta iota zeta.
  destruct (sd_inbound _) as [t|]; by destruct (s_container_status s); repeat case_goal.
Qed.
End Decision.

(** ** A tick *)

Section Tick.
Context `{Runtime} (cfg : ManagerConfig).
Context (uuid_text : uuid -> rstr) (format_minute : instant -> rstr) (compute_fingerprint : uuid -> rstr).
Implicit Types (m : Manager) (s : Session).
Definition act s := apply cfg uuid_text format_minute compute_fingerprint s.
Definition visit m s : Manager := snd (act s (decision cfg s m) m).
Definition visited m (l : list Session) : Manager := fold_left visit l m.

Lemma reconcile_run s m :
  reconcile cfg uuid_text format_minute compute_fingerprint s m = (Ok tt, visit m s).
Proof.
  unfold reconcile, visit. rewrite (mbind_run _ _ _ _ _ (classify_run cfg s m)). apply best_effort_run.
Qed.
Lemma reconcile_all l m :
  for_each (reconcile cfg uuid_text format_minute compute_fingerprint) l m = (Ok tt, visited m l).
Proof.
  revert m. induction l as [|s l IH]; intros m; [done|].
  cbn [for_each]. rewrite (mbind_run _ _ _ _ _ (reconcile_run s m)). apply IH.
Qed.
Definition refreshed m : Manager := snd (refresh_host_resources m).
Lemma refresh_run m : refresh_host_resources m = (Ok tt, refreshed m).
Proof.
  unfold refreshed, refresh_host_resources, mono, gets, mbind, probe_refresh, modify.
  by destruct (full_disk (cm_disk m)).
Qed.
Definition the_tick := tick cfg uuid_text format_minute compute_fingerprint.
Lemma tick_run m :
  the_tick m = (Ok tt, visited (refreshed m) (Central.list_active (sv_sessions (cm_world (refreshed m))))).
Proof.
  unfold the_tick, tick. rewrite (mbind_run _ _ _ _ _ (refresh_run m)).
  unfold gets. unfold mbind at 1. apply reconcile_all.
Qed.
Lemma refreshed_world m : cm_world (refreshed m) = cm_world m.
Proof.
  unfold refreshed, refresh_host_resources, mono, gets, mbind, probe_refresh, modify.
  by destruct (full_disk (cm_disk m)).
Qed.
Lemma refreshed_calls m : cm_calls (refreshed m) = cm_calls m.
Proof.
  unfold refreshed, refresh_host_resources, mono, gets, mbind, probe_refresh, modify.
  by destruct (full_disk (cm_disk m)).
Qed.
End Tick.

(** ** The calls to the runtime *)

Section Calls.
Context (P : uuid * uuid -> Prop).
Implicit Types (m : Manager) (k : uuid * uuid).

(** What a run adds to the calls asks for containers of [P] only. *)
Definition adds m m' : Prop :=
  exists new, cm_calls m' = cm_calls m ++ new /\ forall k image, In (CallSpawn k image) new -> P k.
#[export] Instance adds_preorder : PreOrder adds.
Proof.
  split.
  - intros m. exists []. split; [by rewrite app_nil_r | done].
  - intros m1 m2 m3 (n1 & E1 & H1) (n2 & E2 & H2). exists (n1 ++ n2). rewrite E2, E1, app_assoc.
    split; [done|]. intros k image [Hin|Hin]%in_app_or; eauto.
Qed.
Lemma adds_same m m' : cm_calls m' = cm_calls m -> adds m m'.
Proof. intros E. exists []. split; [by rewrite E, app_nil_r | done]. Qed.
Lemma adds_modify f : (forall m, cm_calls (f m) = cm_calls m) -> keeps adds (modify (E:=ManagerError) f).
Proof. intros E m. apply adds_same, E. Qed.
Lemma adds_in_world f : keeps adds (in_world f).
Proof. by apply adds_modify. Qed.
Lemma adds_call c : match c with CallSpawn k _ => P k | _ => True end -> keeps adds (call c).
Proof.
  intros Hc m. exists [c]. split; [done|]. intros k image [->|[]]. exact Hc.
Qed.
Lemma adds_catch {A} (a : MM A) : keeps adds a -> keeps adds (catch a).
Proof. apply keeps_catch. Qed.
Lemma adds_best_effort (a : MM unit) : keeps adds a -> keeps adds (best_effort a).
Proof. intros Ha m. rewrite best_effort_run. apply Ha. Qed.
Lemma adds_for_each {A} (f : A -> MM unit) l : (forall x, keeps adds (f x)) -> keeps adds (for_each f l).
Proof.
  intros Hf. induction l as [|x l IH]; cbn [for_each]; [apply keeps_ret | apply keeps_bind; [apply Hf | done]].
Qed.
End Calls.
Create HintDb calls.
#[export] Hint Resolve keeps_ret keeps_fail keeps_gets keeps_lift adds_in_world adds_best_effort adds_for_each
  adds_catch : calls.
#[export] Hint Extern 1 (keeps (adds _) (modify _)) => apply adds_modify; reflexivity : calls.
#[export] Hint Extern 1 (keeps (adds _) (call _)) => apply adds_call; exact I : calls.
(** Walks through a computation none of whose steps spawns. *)
Ltac no_spawn :=
  intros;
  repeat first
    [ solve [auto with calls typeclass_instances]
    | progress intros
    | apply keeps_bind
    | apply adds_best_effort
    | apply adds_for_each
    | apply keeps_catch
    | match goal with
      | |- keeps _ (match ?x with _ => _ end) => destruct x
      | |- keeps _ (let _ := _ in _) => cbv zeta
      end ].

Section NoSpawn.
Context `{Runtime} (cfg : ManagerConfig).
Context (uuid_text : uuid -> rstr) (format_minute : instant -> rstr) (compute_fingerprint : uuid -> rstr).
Context (P : uuid * uuid -> Prop).
Implicit Types (m : Manager) (k : uuid * uuid) (s : Session).

Lemma adds_open_inbound k : keeps (adds P) (open_inbound k).
Proof. unfold open_inbound, opened_db. no_spawn. Qed.
Lemma adds_open_outbound k : keeps (adds P) (open_outbound k).
Proof. unfold open_outbound, opened_db. no_spawn. Qed.
Hint Resolve adds_open_inbound adds_open_outbound : calls.
Lemma adds_insert k write : keeps (adds P) (insert_outbound k write).
Proof. unfold insert_outbound, db, write_outbound. no_spawn. Qed.
Lemma adds_mark id c : keeps (adds P) (mark_container id c).
Proof. unfold mark_container, wall, db. no_spawn. Qed.
Lemma adds_fresh : keeps (adds P) fresh_message_id.
Proof. unfold fresh_message_id. no_spawn. Qed.
Lemma adds_alert a : keeps (adds P) (alert cfg a).
Proof. unfold alert. no_spawn. Qed.
Lemma adds_disk : keeps (adds P) current_disk.
Proof. unfold current_disk, mono. no_spawn. Qed.
Hint Resolve adds_insert adds_mark adds_fresh adds_alert adds_disk : calls.
Lemma adds_apologize k r now text : keeps (adds P) (apologize k r now text).
Proof. unfold apologize. no_spawn. Qed.
Lemma adds_settle k now id : keeps (adds P) (apologize_in_flight k now id).
Proof.
  unfold apologize_in_flight, bump_attempts, quarantine, mark_inbound_tries, fail_claim, wall, db, write_inbound,
    write_outbound. pose proof adds_apologize. no_spawn.
Qed.
Lemma adds_apologies k : keeps (adds P) (emit_crash_restart_apologies k).
Proof. unfold emit_crash_restart_apologies, wall. pose proof adds_settle. no_spawn. Qed.
Lemma adds_restart s reason : keeps (adds P) (restart_container cfg s reason).
Proof.
  unfold restart_container, crash_cause, record_restart, note_crash_for_env_breaker, emit_oom_error_card,
    clear_stuck_tool_state, wall, mono, write_outbound.
  pose proof adds_apologies. no_spawn.
Qed.
Lemma adds_post s text n set secs :
  (forall x m, cm_calls (set x m) = cm_calls m) -> keeps (adds P) (post_cap_reply s text n set secs).
Proof.
  intros Hset. unfold post_cap_reply, wall. no_spawn; by apply adds_modify.
Qed.
Lemma adds_failed s : keeps (adds P) (spawn_failed cfg s).
Proof. unfold spawn_failed, alert_spawn_failure. no_spawn. Qed.
Lemma adds_launch s : P (session_key_of s) -> keeps (adds P) (launch cfg compute_fingerprint s).
Proof.
  intros HP. unfold launch, session_image, prepared, mono. pose proof adds_failed.
  no_spawn; by apply adds_call.
Qed.
End NoSpawn.

(** ** Every gate *)

Section Gates.
Context `{Runtime} (cfg : ManagerConfig).
Context (uuid_text : uuid -> rstr) (format_minute : instant -> rstr) (compute_fingerprint : uuid -> rstr).
Implicit Types (m : Manager) (k : uuid * uuid) (s : Session).

Definition reading m : option DiskSpace := fst (probe_get (cm_probe m) (cm_disk m) (cm_clock m)).
Record spawn_allowed s m : Prop := {
  sa_stopped : s_container_status s = Stopped;
  sa_pending : pending_in s m = true;
  sa_delay : spawn_delay_remaining (cm_crash m) (s_id s) (cm_clock m) = None;
  sa_degraded : cm_degraded m = false;
  sa_breaker : is_tripped (cm_breaker m) = false;
  sa_disk : full_disk (reading m) = false;
  sa_daily : daily_gate_breach uuid_text (cm_budgets m) (cm_turns m) (s_agent_group_id s) (sv_now (cm_world m))
             = Ok None;
  sa_rate : rate_limit_message uuid_text (cm_budgets m) (cm_turns m) (s_agent_group_id s) (sv_now (cm_world m))
            = None;
}.
Definition probed m : Manager := set_probe (snd (probe_get (cm_probe m) (cm_disk m) (cm_clock m))) m.
Lemma disk_run m : current_disk m = (Ok (reading m), probed m).
Proof.
  unfold current_disk, mono, gets, mbind, modify, ret, reading, probed. by destruct (probe_get _ _ _).
Qed.
Lemma blocked_run m :
  spawn_blocked_by_host_resources m
  = if is_tripped (cm_breaker m) then (Ok true, m) else (Ok (full_disk (reading m)), probed m).
Proof.
  unfold spawn_blocked_by_host_resources. unfold mbind at 1, gets. destruct (is_tripped (cm_breaker m)); [done|].
  by rewrite (mbind_run _ _ _ _ _ (disk_run m)).
Qed.

Lemma maybe_spawn_gates P s m :
  (spawn_allowed s m -> P (session_key_of s)) -> s_container_status s = Stopped -> pending_in s m = true ->
  spawn_delay_remaining (cm_crash m) (s_id s) (cm_clock m) = None ->
  adds P m (snd (maybe_spawn cfg uuid_text format_minute compute_fingerprint s m)).
Proof.
  intros HP Hst Hp Hd. unfold maybe_spawn. unfold mbind at 1, gets at 1. cbv beta iota.
  destruct (cm_degraded m) eqn:Edeg; [by apply adds_same|].
  unfold mbind at 1. rewrite blocked_run.
  destruct (is_tripped (cm_breaker m)) eqn:Etr; [by apply adds_same|].
  destruct (full_disk (reading m)) eqn:Efull; [by apply adds_same|].
  assert (adds P m (probed m)) as Hm by by apply adds_same.
  etransitivity; [exact Hm|]. unfold mbind at 1, gets at 1. cbv beta iota.
  unfold mbind at 1, prepared. destruct (rt_dirs _ _); [by apply adds_same|]. cbv beta iota. unfold ret at 1.
  unfold mbind at 1. rewrite pending_run. cbn [cm_world probed set_probe].
  unfold pending_in in Hp. destruct (sd_inbound _) as [t|] eqn:Et; [|by apply adds_same]. rewrite Hp. cbn [negb].
  unfold wall, gets at 1 2 3, mbind at 1 2 3. cbn [cm_world cm_budgets cm_turns probed set_probe].
  unfold mbind at 1, db, lift, daily_budget_message.
  destruct (daily_gate_breach _ _ _ _ _) as [[b|]|e] eqn:Edaily; cbn [rbind option_map]; [| |by apply adds_same].
  - apply (keeps_bind (R:=adds P)); [apply adds_best_effort, adds_post | intros; apply keeps_ret]. done.
  - destruct (rate_limit_message _ _ _ _ _) as [[text g]|] eqn:Erate.
    + apply (keeps_bind (R:=adds P)); [apply adds_best_effort, adds_post | intros; apply keeps_ret]. done.
    + apply adds_launch, HP. split; try done. unfold pending_in. by rewrite Et.
Qed.

Lemma visit_gates P s m :
  (spawn_allowed s m -> P (session_key_of s)) ->
  adds P m (visit cfg uuid_text format_minute compute_fingerprint m s).
Proof.
  intros HP. unfold visit, act, decision, running_decision.
  destruct (s_container_status s) eqn:Es; cbn [apply].
  - destruct (pending_in s m); cbn [apply]; [|apply keeps_ret].
    apply (keeps_bind (R:=adds P)); [apply adds_mark | intros _; by apply adds_modify].
  - destruct (_ || _); cbn [apply]; [apply adds_restart|].
    destruct (_ && _); cbn [apply]; [|apply keeps_ret].
    apply (keeps_bind (R:=adds P)); [by apply adds_call | intros _; apply adds_mark].
  - destruct (pending_in s m) eqn:Ep; cbn [apply]; [|apply keeps_ret].
    destruct (spawn_delay_remaining _ _ _) eqn:Ed; cbn [apply]; [apply keeps_ret|].
    pose proof (maybe_spawn_gates P s m HP Es Ep Ed) as Hs.
    unfold mbind, catch. destruct (maybe_spawn _ _ _ _ _ _) as [r m1]. cbn [snd] in Hs.
    by destruct r as [|[]].
Qed.

(** The states a tick goes through: the session whose turn it is. *)
Definition visited_before m s m1 : Prop :=
  exists l rest,
    Central.list_active (sv_sessions (cm_world m)) = l ++ s :: rest
    /\ m1 = visited cfg uuid_text format_minute compute_fingerprint (refreshed m) l.
Lemma visited_gates P all l m0 m :
  (forall s m1 l1 l2, all = l1 ++ s :: l2 ->
     m1 = visited cfg uuid_text format_minute compute_fingerprint m0 l1 -> spawn_allowed s m1 -> P (session_key_of s)) ->
  (exists l0, all = l0 ++ l /\ m = visited cfg uuid_text format_minute compute_fingerprint m0 l0) ->
  adds P m (visited cfg uuid_text format_minute compute_fingerprint m l).
Proof.
  intros HP. revert m. induction l as [|s l IH]; intros m (l0 & El & Em); [by apply adds_same|].
  cbn [visited fold_left]. etransitivity.
  - apply visit_gates. intros Ha. by apply (HP s m l0 l).
  - apply IH. exists (l0 ++ [s]). rewrite <- app_assoc. split; [done|].
    unfold visited. rewrite fold_left_app. cbn [fold_left]. by rewrite Em.
Qed.

(** C33. A tick asks the runtime for a container of a session only when every gate
    is open at that moment: the session is active and its container stopped,
    its inbox holds a due message that triggers a turn, its crash back-off has
    run out, the host is not degraded, the breaker has not tripped, the disk is
    not full, the group is below its daily caps and below its rate limits.
    Whatever fails for one session, the tick ends normally and has visited all. *)
Theorem spawn_only_when_allowed m :
  let m' := visited cfg uuid_text format_minute compute_fingerprint (refreshed m)
              (Central.list_active (sv_sessions (cm_world m))) in
  the_tick cfg uuid_text format_minute compute_fingerprint m = (Ok tt, m')
  /\ exists new, cm_calls m' = cm_calls m ++ new
     /\ forall k image, In (CallSpawn k image) new ->
        exists s m1, visited_before m s m1 /\ k = session_key_of s /\ spawn_allowed s m1.
Proof.
  intros m'. split; [unfold m'; by rewrite tick_run, refreshed_world|].
  set (P := fun k => exists s m1, visited_before m s m1 /\ k = session_key_of s /\ spawn_allowed s m1).
  assert (adds P (refreshed m) m') as (new & E & Hnew).
  { unfold m'. apply (visited_gates P (Central.list_active (sv_sessions (cm_world m))) _ (refreshed m)).
    - intros s m1 l1 l2 El -> Ha. exists s. eexists. split; [by exists l1, l2|]. done.
    - exists []. done. }
  exists new. rewrite E, refreshed_calls. split; [done|]. intros k image Hin. exact (Hnew k image Hin).
Qed.
End Gates.

(** ** Restarts *)

Section Restarts.
Context `{Runtime} (cfg : ManagerConfig).
Implicit Types (m : Manager) (k : uuid * uuid) (s : Session).

(** What the manager reads of a session directory: the inbox, the claims, the
    heartbeat. *)
Definition view k m : option (list in_row) * option (list ProcessingClaim) * Heartbeat :=
  let d := dir_at k (cm_world m) in (sd_inbound d, option_map ob_acks (sd_outbound d), sd_heartbeat d).
Definition same_view k m m' : Prop := view k m' = view k m.
#[export] Instance same_view_preorder k : PreOrder (same_view k).
Proof. split; [by intros m | intros m1 m2 m3 E1 E2; unfold same_view; by rewrite E2]. Qed.
Lemma view_inbound k m m' : same_view k m m' -> sd_inbound (dir_at k (cm_world m')) = sd_inbound (dir_at k (cm_world m)).
Proof. by intros [= E _ _]. Qed.
(** The same, and the sessions, the crash entries and the clocks. *)
Definition same_core k m m' : Prop :=
  same_view k m m' /\ sv_sessions (cm_world m') = sv_sessions (cm_world m) /\ cm_crash m' = cm_crash m
  /\ cm_clock m' = cm_clock m /\ sv_now (cm_world m') = sv_now (cm_world m).
#[export] Instance same_core_preorder k : PreOrder (same_core k).
Proof.
  split; [by intros m|]. intros m1 m2 m3 (V1 & S1 & C1 & L1 & N1) (V2 & S2 & C2 & L2 & N2).
  split; [by etransitivity|]. repeat split; congruence.
Qed.
Lemma core_open_inbound k : keeps (same_core k) (open_inbound k).
Proof. intros m. by rewrite open_inbound_run. Qed.
Lemma core_open_outbound k : keeps (same_core k) (open_outbound k).
Proof. intros m. by rewrite open_outbound_run. Qed.
Lemma core_best_effort k (a : MM unit) : keeps (same_core k) a -> keeps (same_core k) (best_effort a).
Proof. intros Ha m. rewrite best_effort_run. apply Ha. Qed.
Lemma core_insert k write : keeps (same_core k) (insert_outbound k write).
Proof.
  intros m. unfold insert_outbound. unfold mbind at 1. rewrite open_outbound_run.
  destruct (sd_outbound (dir_at k (cm_world m))) as [o|] eqn:Eo; [|done].
  unfold db, lift, mbind. destruct (out_insert (ob_messages o) write) as [[seq t]|e]; [|done].
  unfold write_outbound, in_world, modify. cbn [snd]. split; [|done]. unfold same_view, view. cbn [cm_world set_world].
  unfold dir_at, put_dir. cbn [sv_dirs set_dirs]. rewrite lookup_insert_eq. cbn [default sd_inbound sd_outbound with_outbound sd_heartbeat].
  fold (dir_at k (cm_world m)). by rewrite Eo.
Qed.
Lemma core_alert k a : keeps (same_core k) (alert cfg a).
Proof. unfold alert. destruct (mc_operator_alerts cfg); [by intros m | apply keeps_ret]. Qed.
Lemma core_oom_card k : keeps (same_core k) (emit_oom_error_card k).
Proof.
  apply keeps_bind; [apply core_open_inbound | intros t]. destruct (latest_routed_inbound t); [|apply keeps_ret].
  apply keeps_bind; [apply core_open_outbound | intros o].
  apply keeps_bind; [by intros m | intros id]. apply keeps_bind; [apply keeps_gets | intros now]. apply core_insert.
Qed.
Lemma core_disk k : keeps (same_core k) current_disk.
Proof. intros m. by rewrite disk_run. Qed.
Lemma core_note k s : keeps (same_core k) (note_crash_for_env_breaker cfg s).
Proof.
  apply keeps_bind; [apply keeps_gets | intros now]. apply keeps_bind; [apply keeps_gets | intros b].
  destruct (breaker_record _ _ _) as [x b']. apply keeps_bind; [by intros m | intros _]. destruct x; [|apply keeps_ret].
  apply keeps_bind; [by intros m | intros _]. apply keeps_bind; [apply core_disk | intros d]. apply core_alert.
Qed.

(** The end of a restart, once the turns in flight are settled. *)
Definition after_apologies s cause : MM unit :=
  mark_container (s_id s) Stopped ;;
  let! record := record_restart s cause in
  note_crash_for_env_breaker cfg s ;;
  if cr_emit_oom_card record then
    best_effort (emit_oom_error_card (session_key_of s)) ;; alert cfg (AlertOom (s_id s))
  else ret tt.
Definition no_claims k m : Prop :=
  exists o, sd_outbound (dir_at k (cm_world m)) = Some o /\ list_processing_acks (ob_acks o) = [].
Lemma restart_start s m :
  no_claims (session_key_of s) m ->
  exists cause m1, restart_container cfg s Crash m = after_apologies s cause m1 /\ same_core (session_key_of s) m m1.
Proof.
  intros (o & Ho & El). unfold restart_container. set (k := session_key_of s) in *.
  assert (exists cause m1, crash_cause k Crash m = (Ok cause, m1) /\ dir_at k (cm_world m1) = dir_at k (cm_world m)
                           /\ same_core k m m1) as (cause & m1 & E1 & D1 & S1).
  { unfold crash_cause, gets. unfold mbind at 1. rewrite (mbind_run _ _ _ _ _ (disk_run m)).
    eexists _, _. split; [reflexivity | done]. }
  rewrite (mbind_run _ _ _ _ _ E1). unfold call. erewrite mbind_run by reflexivity.
  set (m2 := set_calls _ m1). erewrite mbind_run by reflexivity.
  assert (sd_outbound (dir_at k (cm_world m2)) = Some o) as Ho2 by (change (cm_world m2) with (cm_world m1); by rewrite D1).
  assert (snd (emit_crash_restart_apologies k m2) = m2) as E2.
  { unfold emit_crash_restart_apologies. unfold mbind at 1. rewrite open_inbound_run. destruct (sd_inbound _); [|done].
    rewrite (mbind_run _ _ _ _ _ (open_outbound_some k m2 o Ho2)). unfold wall, gets. unfold mbind at 1. by rewrite El. }
  rewrite (mbind_run _ _ _ _ _ (best_effort_run _ m2)), E2. exists cause, m2. split; [done | exact S1].
Qed.
Lemma view_mark k id c : keeps (same_view k) (mark_container id c).
Proof.
  apply keeps_bind; [apply keeps_gets | intros now]. apply keeps_bind; [apply keeps_gets | intros ss].
  apply keeps_bind; [apply keeps_lift | intros ss']. by intros m.
Qed.
Lemma view_record k s cause : keeps (same_view k) (record_restart s cause).
Proof.
  apply keeps_bind; [apply keeps_gets | intros now]. apply keeps_bind; [apply keeps_gets | intros es].
  destruct (record_crash _ _ _ _) as [x es']. apply keeps_bind; [by intros m | intros _; apply keeps_ret].
Qed.
Lemma core_view {A} k (a : MM A) : keeps (same_core k) a -> keeps (same_view k) a.
Proof. intros Ha m. apply Ha. Qed.
Lemma core_card s (record : CrashRecord) :
  keeps (same_core (session_key_of s))
    (note_crash_for_env_breaker cfg s ;;
     if cr_emit_oom_card record then
       best_effort (emit_oom_error_card (session_key_of s)) ;; alert cfg (AlertOom (s_id s))
     else ret tt).
Proof.
  apply keeps_bind; [apply core_note | intros _]. destruct (cr_emit_oom_card record); [|apply keeps_ret].
  apply keeps_bind; [apply core_best_effort, core_oom_card | intros _; apply core_alert].
Qed.
(** Without a claim in progress, a restart leaves the directory alone. *)
Lemma restart_view s m :
  no_claims (session_key_of s) m -> same_view (session_key_of s) m (snd (restart_container cfg s Crash m)).
Proof.
  intros Hn. destruct (restart_start s m Hn) as (cause & m1 & -> & S1). transitivity m1; [apply S1|].
  apply (keeps_bind (R:=same_view (session_key_of s))); [apply view_mark | intros _].
  apply keeps_bind; [apply view_record | intros rec]. apply core_view, core_card.
Qed.
(** When the session is known, its container is stopped and the crash counted. *)
Lemma restart_effect s m ss' :
  no_claims (session_key_of s) m ->
  set_container_status (sv_sessions (cm_world m)) (s_id s) Stopped (sv_now (cm_world m)) = Ok ss' ->
  exists cause, let m' := snd (restart_container cfg s Crash m) in
    sv_sessions (cm_world m') = ss'
    /\ cm_crash m' = snd (record_crash (cm_crash m) (s_id s) cause (cm_clock m))
    /\ cm_clock m' = cm_clock m /\ sv_now (cm_world m') = sv_now (cm_world m).
Proof.
  intros Hn Hset. destruct (restart_start s m Hn) as (cause & m1 & -> & (_ & Es & Ec & El & Et)). exists cause.
  unfold after_apologies. rewrite <- Es, <- Et in Hset.
  assert (mark_container (s_id s) Stopped m1 = (Ok tt, set_world (set_sessions ss' (cm_world m1)) m1)) as E1.
  { unfold mark_container, wall, gets, mbind, db, lift. by rewrite Hset. }
  rewrite (mbind_run _ _ _ _ _ E1). set (m2 := set_world _ m1).
  assert (record_restart s cause m2
          = (Ok (fst (record_crash (cm_crash m1) (s_id s) cause (cm_clock m1))),
             set_crash (snd (record_crash (cm_crash m1) (s_id s) cause (cm_clock m1))) m2)) as E2.
  { unfold record_restart, mono, gets, mbind. change (cm_crash m2) with (cm_crash m1). change (cm_clock m2) with (cm_clock m1).
    by destruct (record_crash _ _ _ _). }
  rewrite (mbind_run _ _ _ _ _ E2).
  match goal with |- context [snd (?a ?m3)] => destruct (core_card s (fst (record_crash (cm_crash m1) (s_id s) cause (cm_clock m1))) m3)
    as (_ & F1 & F2 & F3 & F4) end.
  cbv zeta in *. rewrite F1, F2, F3, F4. cbn. rewrite Ec, El, Et. done.
Qed.
End Restarts.

(** ** A small host *)

Module Demo.
Definition demo_runtime : Runtime :=
  {| rt_exit_status := fun _ _ => None; rt_build := fun _ _ => Ok (lit "img:2"); rt_spawn := fun _ _ _ => None;
     rt_dirs := fun _ _ => None; rt_runner_json := fun _ _ => None; rt_mounts := fun _ _ => None |}.
Definition demo_config : ManagerConfig :=
  mkManagerConfig DEFAULT_IDLE_TIMEOUT_SECS DEFAULT_HEARTBEAT_STALE_SECS (lit "img:1") true.
Definition demo_message : in_row :=
  pending_row (mkWriteInbound 5 Chat 0 JNull true true None None None (Some "42") (Some "telegram") None None None None) 2.
Definition demo_session (status : ContainerStatus) : Session :=
  mkSession 2 1 None None None SessionStatus.Active status 0 0 None.
(** A session with one message; the last heartbeat at 0, the clocks at [now]. *)
Definition demo_host (status : ContainerStatus) (acks : list ProcessingClaim) (crashes : gmap uuid CrashEntry) (now : Z)
  : Manager :=
  let dir := mkDir (Some [demo_message]) (Some (mkOutboundDb [] acks None)) (Beat 0) Healthy Healthy false true in
  mkManager
    (mkSweep [demo_session status] [] [] [] [] [] [] (mkStore ∅ ∅) None ∅ {[(1, 2) := dir]} 0 None None 10 now)
    crashes fresh_breaker false None false ∅ ∅ [] [] ∅ ∅ ∅ [] [] 0 (Some (mkDisk (100 * GIB) (200 * GIB))) now.
Definition demo_tick := @the_tick demo_runtime demo_config show_z show_z (fun _ => []).

(** A stopped session with a message gets its container. *)
Example demo_spawns :
  let m := snd (demo_tick (demo_host Stopped [] ∅ 0)) in
  cm_calls m = [CallRemove (1, 2); CallSpawn (1, 2) (lit "img:1")]
  /\ map s_container_status (sv_sessions (cm_world m)) = [Running].
Proof. vm_compute. done. Qed.
End Demo.
