(* ===== verification/ContainersTurns.v ===== *)
(** What a dead container costs the messages it was working on: every turn in
    flight is settled, a message that crashed its container three times is
    given up; and why, with the sweep at work, that never happens. *)
From S2P Require Import Prelude Types MessagesIn Outbox Central Schedule Goals Conditions Interactive Sweep SweepTasks SweepTurns Budgets CrashLoop Containers ContainersProps.

(** ** One session directory *)

Section Directory.
Implicit Types (m : Manager) (k : uuid * uuid) (id f now : Z) (t : list in_row) (o : OutboundDb).

(** What the directory of [k] holds, the next fresh id, and the clock. *)
Record at_session k m t o f now : Prop := {
  at_in : sd_inbound (dir_at k (cm_world m)) = Some t;
  at_out : sd_outbound (dir_at k (cm_world m)) = Some o;
  at_fresh : sv_fresh (cm_world m) = f;
  at_now : sv_now (cm_world m) = now;
}.
Lemma write_inbound_at k m t t' o f now :
  at_session k m t o f now -> exists m', write_inbound k t' m = (Ok tt, m') /\ at_session k m' t' o f now.
Proof.
  intros [Hi Ho Hf Hn]. eexists. split; [reflexivity|].
  split; cbn [cm_world set_world]; try done; by rewrite dir_at_put, bool_decide_eq_true_2.
Qed.
Lemma write_outbound_at k m t o o' f now :
  at_session k m t o f now -> exists m', write_outbound k o' m = (Ok tt, m') /\ at_session k m' t o' f now.
Proof.
  intros [Hi Ho Hf Hn]. eexists. split; [reflexivity|].
  split; cbn [cm_world set_world]; try done; by rewrite dir_at_put, bool_decide_eq_true_2.
Qed.
Lemma fresh_at k m t o f now :
  at_session k m t o f now -> exists m', fresh_message_id m = (Ok f, m') /\ at_session k m' t o (f + 1) now.
Proof.
  intros [Hi Ho Hf Hn]. unfold fresh_message_id, gets, mbind, in_world, modify, ret. cbn. rewrite Hf.
  eexists. split; [reflexivity|]. by split.
Qed.
Lemma insert_at k m t o f now write :
  at_session k m t o f now -> out_wf (ob_messages o) -> Forall (fun r => or_id r < wo_id write) (ob_messages o) ->
  exists m', insert_outbound k write m = (Ok tt, m')
    /\ at_session k m' t
         (mkOutboundDb (ob_messages o ++ [out_row_of write (next_odd_seq (ob_messages o))]) (ob_acks o) (ob_state o))
         f now.
Proof.
  intros Hat Hwf Hlt. unfold insert_outbound.
  rewrite (mbind_run _ _ _ _ _ (open_outbound_some _ _ _ (at_out _ _ _ _ _ _ Hat))).
  destruct (out_insert_cases (ob_messages o) write _ Hwf eq_refl) as [[E _]|[_ E]].
  - exfalso. apply existsb_exists in E as (r & Hr & E). apply Z.eqb_eq in E.
    rewrite List.Forall_forall in Hlt. specialize (Hlt r Hr). lia.
  - unfold db, lift. rewrite E. unfold mbind at 1. by apply (write_outbound_at k m t o).
Qed.
End Directory.

(** ** One turn in flight *)

Section Settle.
Implicit Types (m : Manager) (k : uuid * uuid) (id f now : Z) (t : list in_row) (o : OutboundDb) (r : in_row).

(** The row of a message whose container died, and the answer its sender gets. *)
Definition gives_up r : bool := QUARANTINE_CRASH_ATTEMPTS <=? ir_crash_attempts r + 1.
Definition settle_row r : in_row :=
  if gives_up r then set_mi_status "failed" (bump_crash r) else set_mi_tries APOLOGY_TRIES_MARKER (bump_crash r).
Definition settled (ids : list uuid) t : list in_row :=
  map (fun r => if existsb (Z.eqb (ir_id r)) ids then settle_row r else r) t.
Definition crash_text r : rstr := if gives_up r then POISON_QUARANTINE_APOLOGY_TEXT else CRASH_RESTART_APOLOGY_TEXT.
Definition answer (text : rstr) now (fl : InFlightRouting) id (seq : Z) : out_row :=
  out_row_of
    (mkWriteOutbound id (Some (fl_message_id fl)) now None None Chat (Some (fl_platform_id fl))
       (Some (fl_channel_type fl)) (fl_thread_id fl) (JObj [("text", JStr text)]%string)) seq.
(** The outbox with an answer to every routed message of [rs], from id [f]. *)
Fixpoint answered now f (rs : list in_row) (out : list out_row) : list out_row :=
  match rs with
  | [] => out
  | r :: rs' =>
      match routing_of_row r with
      | Some fl => answered now (f + 1) rs' (out ++ [answer (crash_text r) now fl f (next_odd_seq out)])
      | None => answered now f rs' out
      end
  end.
Definition closed now (ids : list uuid) (acks : list ProcessingClaim) : list ProcessingClaim :=
  map (fun c => if existsb (Z.eqb (pc_message_id c)) ids then mkClaim (pc_message_id c) Outbox.Failed now else c) acks.

Lemma settle_row_id r : ir_id (settle_row r) = ir_id r.
Proof. unfold settle_row. by destruct (gives_up r). Qed.
Lemma settled_id ids r : ir_id (if existsb (Z.eqb (ir_id r)) ids then settle_row r else r) = ir_id r.
Proof. destruct (existsb _ _); [apply settle_row_id | done]. Qed.
Lemma settled_ids ids t : map ir_id (settled ids t) = map ir_id t.
Proof. unfold settled. rewrite map_map. apply map_ext, settled_id. Qed.
Lemma existsb_single (x y : Z) : existsb (Z.eqb x) [y] = (x =? y).
Proof. cbn. by rewrite orb_false_r. Qed.
Lemma settled_cons id ids t : ~ In id ids -> settled ids (settled [id] t) = settled (id :: ids) t.
Proof.
  intros Hni. unfold settled. rewrite map_map. apply map_ext. intros r. rewrite settled_id, existsb_single. cbn [existsb].
  destruct (Z.eqb_spec (ir_id r) id) as [E|]; cbn [orb]; [|done].
  destruct (existsb (Z.eqb (ir_id r)) ids) eqn:Ex; [|done]. apply existsb_exists in Ex as (x & Hx & E'). apply Z.eqb_eq in E'.
  exfalso. apply Hni. congruence.
Qed.
Lemma closed_cons now id ids acks : closed now ids (closed now [id] acks) = closed now (id :: ids) acks.
Proof.
  unfold closed. rewrite map_map. apply map_ext. intros c. rewrite existsb_single. cbn [existsb].
  destruct (pc_message_id c =? id); cbn [orb pc_message_id]; [|done]. by destruct (existsb _ ids).
Qed.
Lemma find_settled ids id t : sql_get (MessagesIn.has_id id) (settled ids t)
  = option_map (fun r => if existsb (Z.eqb (ir_id r)) ids then settle_row r else r) (sql_get (MessagesIn.has_id id) t).
Proof.
  unfold sql_get, settled. induction t as [|r t IH]; [done|]. cbn [map find].
  assert (forall x, MessagesIn.has_id id (if existsb (Z.eqb (ir_id x)) ids then settle_row x else x)
                    = MessagesIn.has_id id x) as E by (intros x; unfold MessagesIn.has_id; by rewrite settled_id).
  rewrite E. by destruct (MessagesIn.has_id id r).
Qed.
Lemma find_unique id t r : List.NoDup (map ir_id t) -> In r t -> ir_id r = id -> sql_get (MessagesIn.has_id id) t = Some r.
Proof.
  intros Hnd Hr E. unfold sql_get. destruct (find (MessagesIn.has_id id) t) as [r'|] eqn:Ef.
  - apply find_some in Ef as [Hr' E']. apply Z.eqb_eq in E'. f_equal.
    apply (NoDup_map_inj ir_id t); [done..|]. by rewrite E'.
  - assert (MessagesIn.has_id id r = false) as Hf by by apply (find_none _ _ Ef). apply Z.eqb_neq in Hf. done.
Qed.

(** The steps that settle one turn. *)
Definition present id t r : Prop := List.NoDup (map ir_id t) /\ In r t /\ ir_id r = id.
Definition updated id (g : in_row -> in_row) t : list in_row := fst (sql_update (MessagesIn.has_id id) g t).
Lemma updated_matched id g t r : present id t r -> (snd (sql_update (MessagesIn.has_id id) g t) =? 0)%nat = false.
Proof.
  intros (_ & Hr & E). apply Nat.eqb_neq, sql_update_count_pos. exists r. split; [done|]. apply Z.eqb_eq, E.
Qed.
Lemma updated_present id g t r : (forall x, ir_id (g x) = ir_id x) -> present id t r -> present id (updated id g t) (g r).
Proof.
  intros Hg (Hnd & Hr & E). split; [|split; [|by rewrite Hg]].
  - unfold updated, sql_update. cbn [fst]. rewrite map_map. rewrite (map_ext _ ir_id); [done|].
    intros x. by destruct (MessagesIn.has_id id x).
  - apply in_map_iff. exists r. split; [|done]. unfold MessagesIn.has_id. by rewrite E, Z.eqb_refl.
Qed.
Lemma updated_twice id g h t r :
  present id t r -> (forall x, ir_id (g x) = ir_id x) -> h (g r) = settle_row r ->
  updated id h (updated id g t) = settled [id] t.
Proof.
  intros (Hnd & Hr & E) Hg Hh. unfold updated, sql_update, settled. cbn [fst]. rewrite map_map.
  apply map_ext_in. intros x Hx. rewrite existsb_single. unfold MessagesIn.has_id.
  destruct (Z.eqb_spec (ir_id x) id) as [E'|E'].
  - rewrite Hg, E', Z.eqb_refl. assert (x = r) as -> by (apply (NoDup_map_inj ir_id t); congruence). exact Hh.
  - by destruct (Z.eqb_spec (ir_id x) id).
Qed.
Lemma bump_at k m t o f now id r :
  at_session k m t o f now -> present id t r ->
  exists m', bump_attempts k id m = (Ok (ir_crash_attempts r + 1), m') /\ at_session k m' (updated id bump_crash t) o f now.
Proof.
  intros Hat Hp. unfold bump_attempts. rewrite (mbind_run _ _ _ _ _ (open_inbound_some _ _ _ (at_in _ _ _ _ _ _ Hat))).
  assert (increment_crash_attempts t id = Ok (ir_crash_attempts r + 1, updated id bump_crash t)) as ->.
  { unfold increment_crash_attempts. pose proof (updated_matched id bump_crash t r Hp) as E.
    destruct (updated_present id bump_crash t r (fun _ => eq_refl) Hp) as (Hnd & Hr & Eid). unfold updated in *.
    destruct (sql_update _ _ _) as [t' n]. cbn [fst snd] in *. rewrite E.
    by rewrite (find_unique id t' (bump_crash r)). }
  destruct (write_inbound_at k m t (updated id bump_crash t) o f now Hat) as (m' & E & Hat').
  rewrite (mbind_run _ _ _ _ _ E). by exists m'.
Qed.
Lemma quarantine_at k m t o f now id r :
  at_session k m t o f now -> present id t r ->
  exists m', quarantine k id m = (Ok tt, m') /\ at_session k m' (updated id (set_mi_status "failed") t) o f now.
Proof.
  intros Hat Hp. unfold quarantine. rewrite (mbind_run _ _ _ _ _ (open_inbound_some _ _ _ (at_in _ _ _ _ _ _ Hat))).
  unfold mark_failed, mark_status. pose proof (updated_matched id (set_mi_status "failed") t r Hp) as E.
  unfold updated. destruct (sql_update _ _ _) as [t' n]. cbn [fst snd] in *. rewrite E. by apply (write_inbound_at k m t).
Qed.
Lemma tries_at k m t o f now id :
  at_session k m t o f now ->
  exists m', mark_inbound_tries k id m = (Ok tt, m')
             /\ at_session k m' (updated id (set_mi_tries APOLOGY_TRIES_MARKER) t) o f now.
Proof.
  intros Hat. unfold mark_inbound_tries. rewrite (mbind_run _ _ _ _ _ (open_inbound_some _ _ _ (at_in _ _ _ _ _ _ Hat))).
  by apply (write_inbound_at k m t).
Qed.
Lemma fail_claim_at k m t o f now id :
  at_session k m t o f now -> existsb (claim_of id) (ob_acks o) = true ->
  exists m', best_effort (fail_claim k id) m = (Ok tt, m')
             /\ at_session k m' t (mkOutboundDb (ob_messages o) (closed now [id] (ob_acks o)) (ob_state o)) f now.
Proof.
  intros Hat Hc. rewrite best_effort_run. eexists. split; [reflexivity|].
  unfold fail_claim. rewrite (mbind_run _ _ _ _ _ (open_outbound_some _ _ _ (at_out _ _ _ _ _ _ Hat))).
  unfold wall, gets, mbind at 1. rewrite (at_now _ _ _ _ _ _ Hat).
  assert (ack_update_status (ob_acks o) id Outbox.Failed now = Ok (closed now [id] (ob_acks o))) as E.
  { unfold ack_update_status, sql_update. destruct (Nat.eqb_spec (length (List.filter (claim_of id) (ob_acks o))) 0) as [E|E].
    - apply length_zero_iff_nil in E. apply existsb_exists in Hc as (c & Hin & Ec).
      assert (In c (List.filter (claim_of id) (ob_acks o))) as Hf by by apply filter_In. by rewrite E in Hf.
    - f_equal. apply map_ext. intros c. rewrite existsb_single. done. }
  unfold mbind, db, lift. rewrite E.
  destruct (write_outbound_at k m t o (mkOutboundDb (ob_messages o) (closed now [id] (ob_acks o)) (ob_state o)) f now Hat)
    as (m' & Em & Hat'). by rewrite Em.
Qed.
End Settle.

(** ** All turns in flight *)

Section Crash.
Implicit Types (m : Manager) (k : uuid * uuid) (id f now : Z) (t : list in_row) (o : OutboundDb) (r : in_row).

Definition numbered_below f (out : list out_row) : Prop := out_wf out /\ Forall (fun x => or_id x < f) out.
Lemma numbered_below_snoc f out x : numbered_below f out -> or_id x = f -> or_seq x = next_odd_seq out -> numbered_below (f + 1) (out ++ [x]).
Proof.
  intros [Hwf Hlt] Hid Hseq. destruct (next_odd_seq_spec out Hwf) as (Hp & He & Hsq). split.
  - apply numbered_snoc; [done | by rewrite Hseq | by rewrite Hseq | by rewrite Hseq |].
    apply not_true_is_false. intros Hx. apply existsb_exists in Hx as (y & Hy & E). apply Z.eqb_eq in E.
    rewrite List.Forall_forall in Hlt. specialize (Hlt y Hy). lia.
  - apply List.Forall_app. split; [|repeat constructor; lia].
    eapply List.Forall_impl; [|exact Hlt]. cbn. lia.
Qed.
Lemma apologize_at k m t o f now r text :
  at_session k m t o f now -> numbered_below f (ob_messages o) ->
  exists m' b, apologize k (routing_of_row r) now text m = (Ok b, m')
    /\ match routing_of_row r with
       | Some fl =>
           at_session k m' t
             (mkOutboundDb (ob_messages o ++ [answer text now fl f (next_odd_seq (ob_messages o))]) (ob_acks o) (ob_state o))
             (f + 1) now
       | None => at_session k m' t o f now
       end.
Proof.
  intros Hat [Hwf Hlt]. unfold apologize. destruct (routing_of_row r) as [fl|]; [|by exists m, false].
  destruct (fresh_at k m t o f now Hat) as (m1 & E1 & Hat1). rewrite (mbind_run _ _ _ _ _ E1).
  set (write := mkWriteOutbound f _ _ _ _ _ _ _ _ _).
  destruct (insert_at k m1 t o (f + 1) now write Hat1 Hwf Hlt) as (m2 & E2 & Hat2).
  rewrite (mbind_run _ _ _ _ _ E2). by exists m2, true.
Qed.

(** The id of the last answer, and the outbox after one turn. *)
Definition next_fresh f r : Z := match routing_of_row r with Some _ => f + 1 | None => f end.
Lemma answered_below now f r out : numbered_below f out -> numbered_below (next_fresh f r) (answered now f [r] out).
Proof.
  intros Hn. unfold next_fresh. cbn [answered]. destruct (routing_of_row r); [|done]. by apply numbered_below_snoc.
Qed.
Lemma routing_bumped r : routing_of_row (bump_crash r) = routing_of_row r.
Proof. done. Qed.
Lemma settle_at k m t o f now id r :
  at_session k m t o f now -> present id t r -> numbered_below f (ob_messages o) ->
  existsb (claim_of id) (ob_acks o) = true ->
  exists m', apologize_in_flight k now id m = (Ok tt, m')
    /\ at_session k m' (settled [id] t)
         (mkOutboundDb (answered now f [r] (ob_messages o)) (closed now [id] (ob_acks o)) (ob_state o))
         (next_fresh f r) now.
Proof.
  intros Hat Hp Hn Hc. unfold apologize_in_flight.
  destruct (bump_at k m t o f now id r Hat Hp) as (m1 & E1 & Hat1). rewrite (mbind_run _ _ _ _ _ E1).
  pose proof (updated_present id bump_crash t r (fun _ => eq_refl) Hp) as Hp1.
  rewrite (mbind_run _ _ _ _ _ (open_inbound_some _ _ _ (at_in _ _ _ _ _ _ Hat1))).
  assert (lookup_inbound_routing (updated id bump_crash t) id = routing_of_row (bump_crash r)) as ->.
  { unfold lookup_inbound_routing. destruct Hp1 as (Hnd & Hr & Eid). by rewrite (find_unique id _ (bump_crash r)). }
  cbv zeta. unfold next_fresh. cbn [answered]. unfold crash_text. fold (gives_up r).
  assert (settle_row r = if gives_up r then set_mi_status "failed" (bump_crash r)
                         else set_mi_tries APOLOGY_TRIES_MARKER (bump_crash r)) as Es by done.
  destruct (gives_up r).
  - destruct (quarantine_at k m1 _ o f now id (bump_crash r) Hat1 Hp1) as (m2 & E2 & Hat2).
    rewrite (mbind_run _ _ _ _ _ E2).
    rewrite (updated_twice id bump_crash _ t r Hp (fun _ => eq_refl) (eq_sym Es)) in Hat2.
    destruct (apologize_at k m2 _ o f now r POISON_QUARANTINE_APOLOGY_TEXT Hat2 Hn) as (m3 & b & E3 & Hat3).
    rewrite routing_bumped, (mbind_run _ _ _ _ _ E3).
    destruct (routing_of_row r); by apply (fail_claim_at _ _ _ _ _ _ _ Hat3).
  - destruct (apologize_at k m1 _ o f now r CRASH_RESTART_APOLOGY_TEXT Hat1 Hn) as (m2 & b & E2 & Hat2).
    rewrite routing_bumped, (mbind_run _ _ _ _ _ E2).
    destruct (routing_of_row r) as [fl|]; (destruct (tries_at _ _ _ _ _ _ id Hat2) as (m3 & E3 & Hat3);
      rewrite (mbind_run _ _ _ _ _ E3);
      rewrite (updated_twice id bump_crash _ t r Hp (fun _ => eq_refl) (eq_sym Es)) in Hat3;
      by apply (fail_claim_at _ _ _ _ _ _ _ Hat3)).
Qed.

Lemma answered_cons now f r rs out :
  answered now f (r :: rs) out = answered now (next_fresh f r) rs (answered now f [r] out).
Proof. unfold next_fresh. cbn [answered]. by destruct (routing_of_row r). Qed.
Lemma closed_present now id id' acks :
  existsb (claim_of id') acks = true -> existsb (claim_of id') (closed now [id] acks) = true.
Proof.
  intros Hx. apply existsb_exists in Hx as (c & Hc & E). apply existsb_exists. eexists. split.
  - apply in_map_iff. by exists c.
  - unfold claim_of in *. by destruct (existsb _ [id]).
Qed.
Lemma settled_other id id' t r : id <> id' -> present id' t r -> present id' (settled [id] t) r.
Proof.
  intros Hne (Hnd & Hr & E). split; [by rewrite settled_ids|]. split; [|done]. apply in_map_iff. exists r. split; [|done].
  rewrite existsb_single. destruct (Z.eqb_spec (ir_id r) id); congruence.
Qed.
Lemma settle_all_at k now rs m t o f :
  at_session k m t o f now -> numbered_below f (ob_messages o) -> List.NoDup (map ir_id rs) ->
  (forall r, In r rs -> present (ir_id r) t r /\ existsb (claim_of (ir_id r)) (ob_acks o) = true) ->
  exists m' f', for_each (apologize_in_flight k now) (map ir_id rs) m = (Ok tt, m')
    /\ at_session k m' (settled (map ir_id rs) t)
         (mkOutboundDb (answered now f rs (ob_messages o)) (closed now (map ir_id rs) (ob_acks o)) (ob_state o)) f' now.
Proof.
  revert m t o f. induction rs as [|r rs IH]; intros m t o f Hat Hn Hnd Hall.
  - exists m, f. split; [done|]. assert (settled [] t = t) as Et by apply map_id. unfold closed.
    cbn [map existsb answered]. rewrite Et, map_id. by destruct o.
  - cbn [map for_each]. inversion_clear Hnd as [|x l Hni Hnd'].
    destruct (Hall r) as [Hp Hc]; [by left|].
    destruct (settle_at k m t o f now (ir_id r) r Hat Hp Hn Hc) as (m1 & E1 & Hat1).
    rewrite (mbind_run _ _ _ _ _ E1).
    destruct (IH m1 (settled [ir_id r] t) _ _ Hat1) as (m2 & f' & E2 & Hat2); cbn [ob_messages ob_acks ob_state] in *.
    + by apply answered_below.
    + done.
    + intros r' Hr'. destruct (Hall r') as [Hp' Hc']; [by right|]. split; [|by apply closed_present].
      apply settled_other; [|done]. intros E. apply Hni. rewrite E. by apply in_map.
    + exists m2, f'. split; [done|].
      rewrite (settled_cons (ir_id r) (map ir_id rs) t), closed_cons, <- answered_cons in Hat2 by done. exact Hat2.
Qed.

Lemma processing_In acks id : In id (list_processing_acks acks) <-> exists c, In c acks /\ pc_status c = Processing /\ pc_message_id c = id.
Proof.
  unfold list_processing_acks. rewrite in_map_iff. split.
  - intros (c & E & Hc). apply filter_In in Hc as [Hc Hp]. apply (proj1 (order_by_In _ _ _)) in Hc.
    apply bool_decide_eq_true in Hp. by exists c.
  - intros (c & Hc & Hp & E). exists c. split; [done|]. apply filter_In. split; [by apply order_by_In|].
    by apply bool_decide_eq_true.
Qed.
Lemma processing_closed now acks : list_processing_acks (closed now (list_processing_acks acks) acks) = [].
Proof.
  destruct (list_processing_acks (closed _ _ _)) as [|id l] eqn:E; [done|exfalso].
  assert (In id (list_processing_acks (closed now (list_processing_acks acks) acks))) as Hin by (rewrite E; by left).
  apply processing_In in Hin as (c' & Hc & Hp & Eid). apply in_map_iff in Hc as (c & Ec & Hc).
  destruct (existsb (Z.eqb (pc_message_id c)) (list_processing_acks acks)) eqn:Ex; [by subst|]. subst c'.
  rewrite <- not_true_iff_false in Ex. apply Ex, existsb_exists. exists (pc_message_id c).
  split; [apply processing_In; by exists c | apply Z.eqb_refl].
Qed.
Lemma filter_processing_NoDup (p : ProcessingClaim -> bool) acks :
  List.NoDup (map pc_message_id acks) -> List.NoDup (map pc_message_id (List.filter p (ack_get_all acks))).
Proof.
  intros Hnd. assert (List.NoDup (map pc_message_id (ack_get_all acks))) as Hs.
  { eapply Permutation_NoDup; [|exact Hnd]. apply Permutation_map. symmetry. apply order_by_perm. }
  revert Hs. generalize (ack_get_all acks). intros l. induction l as [|c l IH]; intros Hs; [constructor|].
  cbn [map] in Hs. inversion_clear Hs as [|? ? Hni Hnd']. cbn [List.filter]. destruct (p c); [|by apply IH].
  cbn [map]. constructor; [|by apply IH]. intros Hx. apply Hni. apply in_map_iff in Hx as (c' & E & Hc').
  apply filter_In in Hc' as [Hc' _]. rewrite <- E. by apply in_map.
Qed.
Lemma processing_NoDup acks : List.NoDup (map pc_message_id acks) -> List.NoDup (list_processing_acks acks).
Proof. apply filter_processing_NoDup. Qed.

(** When a container has died, every turn it was working on is settled and
    nothing else is touched: the message counts one more crash and is marked as
    answered, or, at its third crash, as failed for good; its sender gets
    exactly one reply that says which of the two happened, when the message
    came from a channel; and no claim of the session is left in progress. *)
Theorem crash_settles_turns k m t o f now rs :
  at_session k m t o f now -> MessagesIn.wf t -> numbered_below f (ob_messages o) ->
  List.NoDup (map pc_message_id (ob_acks o)) ->
  map ir_id rs = list_processing_acks (ob_acks o) -> (forall r, In r rs -> In r t) ->
  exists m' o',
    emit_crash_restart_apologies k m = (Ok tt, m')
    /\ sd_inbound (dir_at k (cm_world m')) = Some (settled (list_processing_acks (ob_acks o)) t)
    /\ sd_outbound (dir_at k (cm_world m')) = Some o'
    /\ ob_messages o' = answered now f rs (ob_messages o)
    /\ ob_acks o' = closed now (list_processing_acks (ob_acks o)) (ob_acks o)
    /\ list_processing_acks (ob_acks o') = [].
Proof.
  intros Hat Hwf Hn Hnd Ers Hin. unfold emit_crash_restart_apologies.
  rewrite (mbind_run _ _ _ _ _ (open_inbound_some _ _ _ (at_in _ _ _ _ _ _ Hat))).
  rewrite (mbind_run _ _ _ _ _ (open_outbound_some _ _ _ (at_out _ _ _ _ _ _ Hat))).
  unfold wall, gets. unfold mbind at 1. rewrite (at_now _ _ _ _ _ _ Hat).
  destruct (settle_all_at k now rs m t o f Hat Hn) as (m' & f' & E & Hat').
  - rewrite Ers. by apply processing_NoDup.
  - intros r Hr. split; [split; [apply (num_ids _ _ _ _ Hwf) | by auto]|].
    assert (In (ir_id r) (list_processing_acks (ob_acks o))) as Hp by (rewrite <- Ers; by apply in_map).
    apply processing_In in Hp as (c & Hc & _ & Eid). apply existsb_exists. exists c. split; [done | by apply Z.eqb_eq].
  - rewrite Ers in *. destruct Hat' as [Hi Ho _ _]. eexists m', _. split; [exact E|]. split; [exact Hi|].
    split; [exact Ho|]. split; [done|]. split; [done|]. apply processing_closed.
Qed.
End Crash.

(** ** With the sweep at work *)

Section Poison.
Context `{Runtime} (cfg : ManagerConfig).
Context (uuid_text : uuid -> rstr) (format_minute : instant -> rstr) (compute_fingerprint : uuid -> rstr).
Implicit Types (m : Manager) (s : Session) (k : uuid * uuid) (id : uuid) (r : in_row).

Definition row_at k id m : option in_row :=
  match sd_inbound (dir_at k (cm_world m)) with Some t => sql_get (MessagesIn.has_id id) t | None => None end.
(** The clocks advance. *)
Definition wait (d : Z) m : Manager :=
  let w := cm_world m in
  mkManager
    (mkSweep (sv_sessions w) (sv_tasks w) (sv_goals w) (sv_grants w) (sv_conditions w) (sv_flags w) (sv_audit w)
       (sv_store w) (sv_questions w) (sv_spawn w) (sv_dirs w) (sv_pass w) (sv_central_last w) (sv_central_check w)
       (sv_fresh w) (sv_now w + d))
    (cm_crash m) (cm_breaker m) (cm_env_exhausted m) (cm_probe m) (cm_degraded m) (cm_rebuild m) (cm_images m)
    (cm_budgets m) (cm_turns m) (cm_budget_notice m) (cm_rate_notice m) (cm_routing m) (cm_calls m) (cm_alerts m)
    (cm_wakes m) (cm_disk m) (cm_clock m + d).
(** The sweep takes back the abandoned claims of the session. *)
Definition sweep_claims k m : Manager := set_world (snd (processing_check k (sv_now (cm_world m)) (cm_world m))) m.

(** One message is being worked on, without a reply yet: claimed at [tc], the
    last sign of life of the container not before. *)
Record in_flight s id tc m : Prop := {
  if_inbound : exists t, sd_inbound (dir_at (session_key_of s) (cm_world m)) = Some t
                         /\ existsb (MessagesIn.has_id id) t = true;
  if_outbound : exists o, sd_outbound (dir_at (session_key_of s) (cm_world m)) = Some o
                  /\ List.NoDup (map pc_message_id (ob_acks o))
                  /\ In (mkClaim id Processing tc) (ob_acks o)
                  /\ (forall c, In c (ob_acks o) -> pc_status c = Processing -> c = mkClaim id Processing tc)
                  /\ (forall x, In x (ob_messages o) -> mo_in_reply_to (or_row x) <> Some id);
  if_heartbeat : exists mtime, sd_heartbeat (dir_at (session_key_of s) (cm_world m)) = Beat mtime /\ tc <= mtime;
}.
(** The container has died.  A sweep runs, and at most a minute later the tick
    that finds the heartbeat stale. *)
Inductive crash_round s id m : Manager -> Prop :=
| crash_round_intro tc d1 d2 :
    s_container_status s = Running -> in_flight s id tc m -> 0 <= d1 -> 0 <= d2 <= 60 * ns_per_s ->
    heartbeat_stale (dir_at (session_key_of s) (cm_world m)) (sv_now (cm_world m) + d1 + d2) (mc_heartbeat_stale_secs cfg)
    = true ->
    crash_round s id m
      (snd (reconcile cfg uuid_text format_minute compute_fingerprint s
              (wait d2 (sweep_claims (session_key_of s) (wait d1 m))))).
(** [n] crashes on one message.  In between anything may happen that leaves the
    row of the message alone: a new container claims it again. *)
Inductive crashes s id : nat -> Manager -> Manager -> Prop :=
| crashes_none m : crashes s id 0 m m
| crashes_between n m m1 m2 :
    crashes s id n m m1 -> row_at (session_key_of s) id m2 = row_at (session_key_of s) id m1 -> crashes s id n m m2
| crashes_again n m m1 m2 : crashes s id n m m1 -> crash_round s id m1 m2 -> crashes s id (S n) m m2.

Lemma NoDup_only (l : list Z) x : List.NoDup l -> In x l -> (forall y, In y l -> y = x) -> l = [x].
Proof.
  intros Hnd Hx Hall. destruct l as [|a [|b l]]; [done| |].
  - by rewrite (Hall a) by by left.
  - exfalso. inversion_clear Hnd as [|? ? Hni _]. apply Hni. left. rewrite (Hall a), (Hall b); [done | by right; left | by left].
Qed.

Lemma claim_found id tc acks :
  List.NoDup (map pc_message_id acks) -> In (mkClaim id Processing tc) acks -> ack_get acks id = Some (mkClaim id Processing tc).
Proof.
  intros Hnd Hin. unfold ack_get, sql_get. destruct (find (claim_of id) acks) as [c|] eqn:E.
  - apply find_some in E as [Hc E]. apply Z.eqb_eq in E. f_equal. by apply (NoDup_map_inj pc_message_id acks).
  - pose proof (find_none _ _ E _ Hin) as Hf. apply Z.eqb_neq in Hf. done.
Qed.
Lemma abandoned_one id tc now o :
  List.NoDup (map pc_message_id (ob_acks o)) -> In (mkClaim id Processing tc) (ob_acks o) ->
  (forall c, In c (ob_acks o) -> pc_status c = Processing -> c = mkClaim id Processing tc) ->
  (forall x, In x (ob_messages o) -> mo_in_reply_to (or_row x) <> Some id) ->
  CLAIM_STUCK_MS <= num_milliseconds (now - tc) ->
  abandoned now o = [id] /\ is_reclaimable now id o = true
  /\ list_processing_acks (ob_acks (without_claim id o)) = [].
Proof.
  intros Hnd Hin Honly Hno Hold.
  assert (claim_stale now (mkClaim id Processing tc) = true) as Hst by by apply claim_stale_iff.
  pose proof (proj2 (has_reply_false _ _) Hno) as Hr. split; [|split].
  - apply NoDup_only; [by apply filter_processing_NoDup| |].
    + apply in_map_iff. exists (mkClaim id Processing tc). split; [done|]. apply filter_In.
      split; [by apply order_by_In|]. cbv beta. rewrite Hst. cbn [pc_message_id]. by rewrite Hr.
    + intros y Hy. apply in_map_iff in Hy as (c & <- & Hc). apply filter_In in Hc as [Hc E].
      apply (proj1 (order_by_In _ _ _)) in Hc. apply andb_prop in E as [E _]. apply claim_stale_iff in E as [E _].
      by rewrite (Honly c Hc E).
  - unfold is_reclaimable. by rewrite (claim_found id tc), Hst, Hr.
  - destruct (list_processing_acks _) as [|x l] eqn:E; [done|exfalso].
    assert (In x (list_processing_acks (ob_acks (without_claim id o)))) as Hx by (rewrite E; by left).
    apply processing_In in Hx as (c & Hc & Hp & _). apply filter_In in Hc as [Hc Hne].
    rewrite (Honly c Hc Hp) in Hne. unfold claim_of in Hne. cbn in Hne. by rewrite Z.eqb_refl in Hne.
Qed.
Lemma sweep_takes_back s id tc m :
  let k := session_key_of s in
  in_flight s id tc m -> CLAIM_STUCK_MS <= num_milliseconds (sv_now (cm_world m) - tc) ->
  exists t o, sd_inbound (dir_at k (cm_world m)) = Some t
    /\ sweep_claims k m = set_world (reclaimed k id o t (cm_world m)) m
    /\ list_processing_acks (ob_acks (without_claim id o)) = [].
Proof.
  intros k [(t & Ht & Hin) (o & Ho & Hnd & Hc & Honly & Hno) _] Hold. exists t, o. split; [done|].
  destruct (abandoned_one id tc _ o Hnd Hc Honly Hno Hold) as (Ea & Er & El). split; [|done].
  unfold sweep_claims, processing_check, processing_check_with_hook. cbn [cm_world set_world].
  fold k in Ht, Ho. rewrite (mbind_run _ _ _ _ _ (outbound_pool_some _ _ _ Ho)), Ea.
  rewrite (mbind_run _ _ _ _ _ (inbound_pool_some k (cm_world m) t Ht)). cbn [each].
  destruct (reset_claim_run (fun _ => ret tt) k (sv_now (cm_world m)) (cm_world m) id (cm_world m) o t eq_refl Ho Ht Hin)
    as (tries & E).
  rewrite Er in E. rewrite (mbind_run _ _ _ _ _ E). unfold mbind, ret. cbn [snd].
  done.
Qed.

Lemma put_back_row id t r : sql_get (MessagesIn.has_id id) t = Some r -> sql_get (MessagesIn.has_id id) (put_back id t) = Some (retried r).
Proof.
  unfold sql_get, put_back. induction t as [|x t IH]; [done|]. cbn [map find].
  assert (MessagesIn.has_id id (retried x) = MessagesIn.has_id id x) as E by done.
  destruct (MessagesIn.has_id id x) eqn:Ex; [|by rewrite Ex]. rewrite E. by intros [= ->].
Qed.
Lemma round_row s id m m' r :
  DEFAULT_HEARTBEAT_STALE_SECS <= mc_heartbeat_stale_secs cfg -> crash_round s id m m' ->
  row_at (session_key_of s) id m = Some r -> row_at (session_key_of s) id m' = Some (retried r).
Proof.
  intros Hcfg [tc d1 d2 Hrun Hfl Hd1 Hd2 Hstale]. set (k := session_key_of s) in *. intros Hr.
  assert (in_flight s id tc (wait d1 m)) as Hfl1 by by destruct Hfl.
  assert (CLAIM_STUCK_MS <= num_milliseconds (sv_now (cm_world (wait d1 m)) - tc)) as Hold.
  { destruct Hfl as [_ _ (mtime & Hb & Hle)]. fold k in Hb. unfold heartbeat_stale in Hstale. rewrite Hb in Hstale.
    apply Z.ltb_lt in Hstale. cbn [cm_world wait sv_now]. unfold num_milliseconds, CLAIM_STUCK_MS, ns_per_ms.
    unfold DEFAULT_HEARTBEAT_STALE_SECS, ns_per_s in *. apply Z.quot_le_lower_bound; lia. }
  destruct (sweep_takes_back s id tc _ Hfl1 Hold) as (t & o & Ht & Esw & El). fold k in Ht, Esw.
  set (m3 := wait d2 (sweep_claims k (wait d1 m))) in *.
  assert (dir_at k (cm_world m3) = with_inbound (put_back id t) (with_outbound (without_claim id o) (dir_at k (cm_world m)))) as Ed.
  { unfold m3. rewrite Esw. unfold reclaimed.
    change (dir_at k (cm_world (wait d2 (set_world ?w ?m)))) with (dir_at k w). rewrite dir_at_put. by rewrite bool_decide_eq_true_2. }
  assert (sv_now (cm_world m3) = sv_now (cm_world m) + d1 + d2) as En by (unfold m3; by rewrite Esw).
  rewrite reconcile_run. cbn [snd]. unfold visit, act, decision, running_decision. fold k. rewrite Hrun, Ed, En.
  change (heartbeat_stale (with_inbound ?a (with_outbound ?b ?d))) with (heartbeat_stale d). rewrite Hstale. cbn [orb apply].
  assert (same_view k m3 (snd (restart_container cfg s Crash m3))) as Hs
    by (apply restart_view; unfold no_claims; fold k; rewrite Ed; by eexists).
  apply view_inbound in Hs. unfold row_at. rewrite Hs, Ed. cbn [sd_inbound with_inbound]. apply put_back_row.
  unfold row_at in Hr. change (dir_at k (cm_world (wait d1 m))) with (dir_at k (cm_world m)) in Ht. by rewrite Ht in Hr.
Qed.

(** A message that kills its container is never given up while the sweep
    runs.  The sweep takes a claim back after a minute, the manager finds the
    container dead only after the heartbeat has been silent for two; so when it
    settles the turns in flight there is none left.  After any number of such
    crashes the message has been put back that many times, is still pending,
    and its crash counter, on which the quarantine of the third crash depends,
    is where it was. *)
Theorem quarantine_never_reached s id n m m' r :
  DEFAULT_HEARTBEAT_STALE_SECS <= mc_heartbeat_stale_secs cfg ->
  row_at (session_key_of s) id m = Some r -> mi_status (ir_row r) = "pending"%string -> crashes s id n m m' ->
  exists r', row_at (session_key_of s) id m' = Some r'
    /\ mi_status (ir_row r') = "pending"%string
    /\ mi_tries (ir_row r') = mi_tries (ir_row r) + Z.of_nat n
    /\ ir_crash_attempts r' = ir_crash_attempts r.
Proof.
  intros Hcfg Hr Hst Hc.
  induction Hc as [m|n m m1 m2 _ IH E|n m m1 m2 _ IH Hround].
  - exists r. split; [done|]. split; [done|]. split; [lia | done].
  - rewrite E. by apply IH.
  - destruct (IH Hr) as (r1 & Hr1 & _ & Ht1 & Hc1). exists (retried r1). split; [by eapply round_row|].
    split; [done|]. split; [cbn; lia | exact Hc1].
Qed.
End Poison.

(** ** Instances *)

Module TurnCrashes.
Import ContainersProps.Demo.
#[local] Existing Instance demo_runtime.

Definition claim : ProcessingClaim := mkClaim 5 Processing 0.
Definition died : Manager := demo_host Running [claim] ∅ 0.
Lemma crash_settles_turns_witness :
  at_session (1, 2) died [demo_message] (mkOutboundDb [] [claim] None) 10 0
  /\ exists m' o',
    emit_crash_restart_apologies (1, 2) died = (Ok tt, m')
    /\ sd_inbound (dir_at (1, 2) (cm_world m')) = Some [set_mi_tries 99 (bump_crash demo_message)]
    /\ sd_outbound (dir_at (1, 2) (cm_world m')) = Some o'
    /\ map (fun x => mo_in_reply_to (or_row x)) (ob_messages o') = [Some 5]
    /\ ob_acks o' = [mkClaim 5 Outbox.Failed 0]
    /\ list_processing_acks (ob_acks o') = [].
Proof.
  assert (at_session (1, 2) died [demo_message] (mkOutboundDb [] [claim] None) 10 0) as Hat by (split; reflexivity).
  split; [exact Hat|].
  destruct (crash_settles_turns (1, 2) died [demo_message] (mkOutboundDb [] [claim] None) 10 0 [demo_message] Hat)
    as (m' & o' & E & Hi & Ho & Em & Ea & El).
  - apply (wf_snoc [] (mkWriteInbound 5 Chat 0 JNull true true None None None (Some "42") (Some "telegram") None None None None)%string).
    + apply wf_nil.
    + reflexivity.
  - split; [apply numbered_nil | constructor].
  - repeat constructor. intros [].
  - reflexivity.
  - intros r Hr. exact Hr.
  - exists m', o'. split; [exact E|]. split; [exact Hi|]. split; [exact Ho|]. split; [by rewrite Em|].
    split; [exact Ea | exact El].
Defined.

(** Two crashes, a minute and a bit after each claim. *)
Definition demo_round (m : Manager) : Manager :=
  snd (reconcile demo_config show_z show_z (fun _ => []) (demo_session Running)
         (wait (60 * ns_per_s) (sweep_claims (1, 2) (wait (61 * ns_per_s) m)))).
Definition reclaim (m : Manager) : Manager :=
  let now := sv_now (cm_world m) in
  let d := dir_at (1, 2) (cm_world m) in
  set_world (put_dir (1, 2)
    (mkDir (sd_inbound d) (Some (mkOutboundDb [] [mkClaim 5 Processing now] None)) (Beat now) Healthy Healthy false true)
    (cm_world m)) m.
Lemma demo_round_crash m r tc :
  sd_inbound (dir_at (1, 2) (cm_world m)) = Some [r] -> ir_id r = 5 ->
  sd_outbound (dir_at (1, 2) (cm_world m)) = Some (mkOutboundDb [] [mkClaim 5 Processing tc] None) ->
  sd_heartbeat (dir_at (1, 2) (cm_world m)) = Beat tc -> sv_now (cm_world m) = tc ->
  crash_round demo_config show_z show_z (fun _ => []) (demo_session Running) 5 m (demo_round m).
Proof.
  intros Hi Hid Ho Hb Hn. unfold demo_round. change (1, 2) with (session_key_of (demo_session Running)) at 1.
  apply (crash_round_intro _ _ _ _ _ 5 m tc (61 * ns_per_s) (60 * ns_per_s));
    [reflexivity | | unfold ns_per_s; lia | unfold ns_per_s; lia |].
  - split.
    + exists [r]. split; [exact Hi|]. cbn. unfold MessagesIn.has_id. by rewrite Hid.
    + eexists. split; [exact Ho|]. split; [repeat constructor; intros []|]. split; [by left|]. split; [|intros x []].
      by intros c [<-|[]].
    + exists tc. split; [exact Hb | lia].
  - unfold heartbeat_stale. change (session_key_of (demo_session Running)) with (1, 2). rewrite Hb, Hn.
    apply Z.ltb_lt. cbn [mc_heartbeat_stale_secs demo_config]. unfold DEFAULT_HEARTBEAT_STALE_SECS, ns_per_s. lia.
Qed.
Lemma quarantine_never_reached_witness :
  let m := demo_round (reclaim (demo_round died)) in
  crashes demo_config show_z show_z (fun _ => []) (demo_session Running) 5 2 died m
  /\ exists r', row_at (1, 2) 5 m = Some r' /\ mi_status (ir_row r') = "pending"%string
     /\ mi_tries (ir_row r') = 2 /\ ir_crash_attempts r' = 0.
Proof.
  intros m. set (m1 := demo_round died).
  assert (crashes demo_config show_z show_z (fun _ => []) (demo_session Running) 5 2 died m) as Hc.
  { apply (crashes_again _ _ _ _ _ _ 1 died (reclaim m1) m).
    - apply (crashes_between _ _ _ _ _ _ 1 died m1 (reclaim m1)); [|vm_compute; reflexivity].
      apply (crashes_again _ _ _ _ _ _ 0 died died m1); [constructor|].
      apply (demo_round_crash died demo_message 0); vm_compute; reflexivity.
    - apply (demo_round_crash (reclaim m1) (retried demo_message) (121 * ns_per_s)); vm_compute; reflexivity. }
  split; [exact Hc|].
  apply (quarantine_never_reached demo_config show_z show_z (fun _ => []) (demo_session Running) 5 2 died m demo_message);
    [vm_compute; congruence | reflexivity | reflexivity | exact Hc].
Defined.
End TurnCrashes.
