(* ===== verification/ContainersWake.v ===== *)
(** Who starts the container of a session with work: the sweep marks the
    session as running, the manager starts containers of stopped sessions only.
    Together they can keep a session from ever getting one. *)
From stdpp Require Import relations.
From S2P Require Import Prelude Types MessagesIn Outbox Central Schedule Goals Conditions Interactive Sweep SweepTasks Budgets CrashLoop Containers ContainersProps ContainersTurns.

Section Wake.
Context `{Runtime} (cfg : ManagerConfig).
Context (uuid_text : uuid -> rstr) (format_minute : instant -> rstr) (compute_fingerprint : uuid -> rstr).
(** How long the manager and the sweep wait between two passes, at most. *)
Context (tick_gap sweep_gap : Z).
Context (sweep_soon : sweep_gap < seconds 300) (tick_soon : sweep_gap + tick_gap < seconds 600).
Implicit Types (m : Manager) (s : Session) (k : uuid * uuid) (group id : uuid).

(** The host, and when the sweep and the manager last looked at the session. *)
Record Watch : Type := mkWatch { wt_host : Manager; wt_sweep : moment; wt_tick : moment }.
Definition session_of id m : result DbError Session := session_get (sv_sessions (cm_world m)) id.
Definition spawns k m : list RtCall :=
  List.filter (fun c => match c with CallSpawn k' _ => bool_decide (k' = k) | _ => false end) (cm_calls m).
Definition woken s m : Manager := set_world (snd (wake_check s (sv_now (cm_world m)) (cm_world m))) m.

(** Time, which passes no longer than until the next pass; a pass of the
    manager over the session; a pass of the sweep; anything else that leaves
    this session alone. *)
Inductive watch_step group id : Watch -> Watch -> Prop :=
| watch_time m sw tk d :
    0 <= d -> cm_clock m + d <= sw + sweep_gap -> cm_clock m + d <= tk + tick_gap ->
    watch_step group id (mkWatch m sw tk) (mkWatch (wait d m) sw tk)
| watch_tick m sw tk s :
    session_of id m = Ok s ->
    watch_step group id (mkWatch m sw tk)
      (mkWatch (snd (reconcile cfg uuid_text format_minute compute_fingerprint s m)) sw (cm_clock m))
| watch_sweep m sw tk s :
    session_of id m = Ok s -> watch_step group id (mkWatch m sw tk) (mkWatch (woken s m) (cm_clock m) tk)
| watch_other m m' sw tk :
    same_view (group, id) m m' -> session_of id m' = session_of id m -> cm_crash m' !! id = cm_crash m !! id ->
    cm_clock m' = cm_clock m -> sv_now (cm_world m') = sv_now (cm_world m) ->
    spawns (group, id) m' = spawns (group, id) m ->
    watch_step group id (mkWatch m sw tk) (mkWatch m' sw tk).

(** The session is waiting out a back-off of five minutes, or the sweep has
    marked it running meanwhile: a due message waits, the last heartbeat is
    old, and no turn is in flight. *)
Record waiting group id m : Prop := {
  wa_due : exists t r, sd_inbound (dir_at (group, id) (cm_world m)) = Some t /\ In r t
             /\ is_pending r = true /\ mi_trigger (ir_row r) = true /\ is_due (sv_now (cm_world m)) r = true;
  wa_claims : no_claims (group, id) m;
  wa_beat : exists mtime, sd_heartbeat (dir_at (group, id) (cm_world m)) = Beat mtime
              /\ mc_heartbeat_stale_secs cfg * ns_per_s < Z.max 0 (sv_now (cm_world m) - mtime);
}.
Definition backing_off id m last : Prop :=
  exists e, cm_crash m !! id = Some e /\ 4 <= en_streak e <= u32_max /\ en_last_crash e = last
            /\ en_not_before e = last + seconds 300.
Record wedged group id (x : Watch) : Prop := {
  we_waiting : waiting group id (wt_host x);
  we_session : exists s last, session_of id (wt_host x) = Ok s /\ s_agent_group_id s = group
      /\ backing_off id (wt_host x) last /\ last <= cm_clock (wt_host x)
      /\ (s_container_status s = Stopped /\ wt_sweep x <= last
          \/ s_container_status s = Running /\ wt_tick x <= last + sweep_gap);
  we_gaps : wt_sweep x <= cm_clock (wt_host x) <= wt_sweep x + sweep_gap
    /\ wt_tick x <= cm_clock (wt_host x) <= wt_tick x + tick_gap;
}.

Lemma session_of_id id m s : session_of id m = Ok s -> s_id s = id.
Proof.
  unfold session_of, session_get, sql_get. destruct (find _ _) as [s'|] eqn:E; [|done]. intros [= ->].
  apply find_some in E as [_ E]. by apply Z.eqb_eq.
Qed.
Lemma waiting_pending group id m s :
  waiting group id m -> s_id s = id -> s_agent_group_id s = group -> pending_in s m = true.
Proof.
  intros [(t & r & Ht & Hr & Hp & Htr & Hd) _ _] Hid Hg. unfold pending_in, session_key_of. rewrite Hid, Hg, Ht.
  apply Z.ltb_lt. unfold count_due, sql_count.
  assert (In r (List.filter (fun r => is_pending r && mi_trigger (ir_row r) && is_due (sv_now (cm_world m)) r) t)) as Hf
    by (apply filter_In; split; [done|]; by rewrite Hp, Htr, Hd).
  destruct (List.filter _ t); [done | cbn [length]; lia].
Qed.
(** Setting the container status of a known session. *)
Lemma status_set ss id s c now :
  session_get ss id = Ok s ->
  exists ss', set_container_status ss id c now = Ok ss' /\ session_get ss' id = Ok (with_container c now s).
Proof.
  unfold session_get, sql_get. destruct (find (has_session id) ss) as [s'|] eqn:Ef; [|done]. intros [= ->].
  unfold set_container_status, update_session, sql_update. apply find_some in Ef as Hin. destruct Hin as [Hin Hid].
  destruct (Nat.eqb_spec (length (List.filter (has_session id) ss)) 0) as [E|E].
  { apply length_zero_iff_nil in E. assert (In s (List.filter (has_session id) ss)) as Hf by by apply filter_In.
    by rewrite E in Hf. }
  eexists. split; [reflexivity|]. clear E Hin.
  assert (find (has_session id) (map (fun r => if has_session id r then with_container c now r else r) ss)
          = Some (with_container c now s)) as ->; [|done].
  revert Ef. induction ss as [|x ss IH]; [done|]. cbn [map find].
  assert (has_session id (with_container c now x) = has_session id x) as Ex by done.
  destruct (has_session id x) eqn:E; [rewrite Ex; by intros [= ->] | rewrite E; exact IH].
Qed.

Lemma waiting_same group id m m' :
  same_view (group, id) m m' -> (exists d, 0 <= d /\ sv_now (cm_world m') = sv_now (cm_world m) + d) ->
  waiting group id m -> waiting group id m'.
Proof.
  intros V (d & Hd & En) [(t & r & Ht & Hr & Hp & Htr & Hdue) (o & Ho & El) (mt & Hb & Hst)].
  unfold same_view, view in V. injection V as Ei Eo Eb. split.
  - exists t, r. rewrite Ei, En. split; [done|]. split; [done|]. split; [done|]. split; [done|].
    revert Hdue. unfold is_due, due. destruct (mi_process_after (ir_row r)) as [a|]; [|done].
    intros Hle%Z.leb_le. apply Z.leb_le. lia.
  - rewrite Ho in Eo. destruct (sd_outbound (dir_at (group, id) (cm_world m'))) as [o'|] eqn:Eo'; [|done].
    injection Eo as Ea. exists o'. by rewrite Ea.
  - exists mt. rewrite Eb, En. split; [done | lia].
Qed.
Lemma spawns_adds k m m' : adds (fun k' => k' <> k) m m' -> spawns k m' = spawns k m.
Proof.
  intros (new & E & Hnew). unfold spawns. rewrite E, List.filter_app.
  assert (List.filter (fun c => match c with CallSpawn k' _ => bool_decide (k' = k) | _ => false end) new = []) as ->;
    [|apply app_nil_r].
  clear E. induction new as [|c new IH]; [done|]. cbn [List.filter].
  assert (match c with CallSpawn k' _ => bool_decide (k' = k) | _ => false end = false) as ->.
  { destruct c as [ | | |k' image]; try done. apply bool_decide_eq_false. apply (Hnew k' image). by left. }
  apply IH. intros k' image Hin. apply (Hnew k' image). by right.
Qed.
(** A crash while the streak is long keeps the back-off at five minutes. *)
Lemma backoff_stays e cause now :
  4 <= en_streak e <= u32_max -> en_last_crash e <= now < en_last_crash e + seconds 600 ->
  let e' := fst (crashed cause now e) in
  4 <= en_streak e' <= u32_max /\ en_last_crash e' = now /\ en_not_before e' = now + seconds 300.
Proof.
  intros Hs Hn. unfold crashed.
  destruct (Z.leb_spec HEALTHY_RESET_WINDOW (since now (en_last_crash e))) as [Hw|_].
  { unfold HEALTHY_RESET_WINDOW, since in Hw. lia. }
  cbn [fst en_streak en_last_crash en_not_before]. unfold sat_add. split; [lia|]. split; [done|].
  unfold backoff_delay. rewrite Z.min_r by (cbn; lia). done.
Qed.
Lemma woken_running s m : s_container_status s = Running -> woken s m = m.
Proof.
  intros Hs. unfold woken, wake_check. rewrite bool_decide_eq_true_2 by done. unfold ret. cbn [snd]. by destruct m.
Qed.
Lemma woken_stopped group id s m :
  waiting group id m -> session_of id m = Ok s -> s_agent_group_id s = group -> s_container_status s = Stopped ->
  exists ss', woken s m = set_world (set_sessions ss' (cm_world m)) m
    /\ session_get ss' id = Ok (with_container Running (sv_now (cm_world m)) s).
Proof.
  intros [(t & r & Ht & Hr & Hp & _ & Hd) _ _] Hs Hg Hst. pose proof (session_of_id _ _ _ Hs) as Hid.
  destruct (status_set _ id s Running (sv_now (cm_world m)) Hs) as (ss' & E & Hs').
  exists ss'. split; [|exact Hs']. unfold woken, wake_check. rewrite bool_decide_eq_false_2 by (rewrite Hst; done).
  unfold session_key_of. rewrite Hg, Hid, (mbind_run _ _ _ _ _ (inbound_pool_some (group, id) (cm_world m) t Ht)).
  assert ((sql_count (fun r => is_pending r && is_due (sv_now (cm_world m)) r) t =? 0) = false) as ->.
  { apply Z.eqb_neq. unfold sql_count.
    assert (In r (List.filter (fun r => is_pending r && is_due (sv_now (cm_world m)) r) t)) as Hf
      by (apply filter_In; split; [done|]; by rewrite Hp, Hd).
    destruct (List.filter _ t); [done | cbn [length]; lia]. }
  erewrite mbind_run by reflexivity. erewrite mbind_run by reflexivity.
  unfold sql, lift. rewrite E. erewrite mbind_run by reflexivity. done.
Qed.
Lemma running_crashes group id s m :
  waiting group id m -> s_id s = id -> s_agent_group_id s = group -> s_container_status s = Running ->
  reconcile cfg uuid_text format_minute compute_fingerprint s m = (Ok tt, snd (restart_container cfg s Crash m)).
Proof.
  intros [_ _ (mt & Hb & Hst)] Hid Hg Hr. rewrite reconcile_run. unfold visit, act, decision, running_decision. rewrite Hr.
  unfold session_key_of. rewrite Hid, Hg. unfold heartbeat_stale. rewrite Hb.
  apply Z.ltb_lt in Hst. rewrite Hst. done.
Qed.

(** Every step keeps the session waiting, and asks for no container. *)
Lemma tick_stays group id m sw tk s :
  wedged group id (mkWatch m sw tk) -> session_of id m = Ok s ->
  let m' := snd (reconcile cfg uuid_text format_minute compute_fingerprint s m) in
  wedged group id (mkWatch m' sw (cm_clock m)) /\ spawns (group, id) m' = spawns (group, id) m.
Proof.
  intros [Hw (s' & last & Hs' & Hg & (e & He & Hstr & Hlast & Hnb) & Hle & Hst) [Hsw Htk]] Hs.
  cbn [wt_host wt_sweep wt_tick] in *. rewrite Hs in Hs'. injection Hs' as <-. pose proof (session_of_id _ _ _ Hs) as Hid.
  destruct Hst as [[Hst Hswl]|[Hst Htkl]].
  - rewrite reconcile_run. cbn [snd]. unfold visit, act, decision. rewrite Hst, (waiting_pending group id m s Hw Hid Hg).
    unfold spawn_delay_remaining. rewrite Hid, He, Hnb. destruct (Z.ltb_spec (cm_clock m) (last + seconds 300)) as [_|Hx]; [|lia].
    cbn [apply]. unfold ret. cbn [snd]. split; [|done]. split; cbn [wt_host wt_sweep wt_tick]; [done| |lia].
    exists s, last. split; [done|]. split; [done|]. split; [by exists e|]. split; [done|]. by left.
  - rewrite (running_crashes group id s m Hw Hid Hg Hst). cbn [snd].
    assert (session_key_of s = (group, id)) as Hk by (unfold session_key_of; by rewrite Hg, Hid).
    destruct (status_set _ id s Stopped (sv_now (cm_world m)) Hs) as (ss' & Eset & Hs1).
    pose proof (restart_view cfg s m) as V. rewrite Hk in V. specialize (V (wa_claims _ _ _ Hw)).
    rewrite <- Hid in Eset. destruct (restart_effect cfg s m ss') as (cause & Ess & Ecr & Ecl & En);
      [rewrite Hk; apply Hw | exact Eset |].
    split; [|apply spawns_adds, adds_restart]. split; cbn [wt_host wt_sweep wt_tick].
    + apply (waiting_same group id m); [done | exists 0; split; [done | by rewrite Z.add_0_r] | done].
    + exists (with_container Stopped (sv_now (cm_world m)) s), (cm_clock m).
      split; [unfold session_of; by rewrite Ess|]. split; [done|]. split; [|split; [lia | left; split; [done | lia]]].
      unfold backing_off. rewrite Ecr. unfold record_crash. rewrite Hid, He. cbn [from_option Datatypes.id].
      pose proof (backoff_stays e cause (cm_clock m) Hstr) as Hb. cbv zeta in Hb.
      destruct (crashed cause (cm_clock m) e) as [e' rec]. cbn [snd fst] in *. rewrite lookup_insert_eq.
      exists e'. split; [done|]. destruct Hb as (B1 & B2 & B3); [lia | done].
    + rewrite Ecl. lia.
Qed.
Lemma sweep_stays group id m sw tk s :
  wedged group id (mkWatch m sw tk) -> session_of id m = Ok s ->
  wedged group id (mkWatch (woken s m) (cm_clock m) tk) /\ spawns (group, id) (woken s m) = spawns (group, id) m.
Proof.
  intros [Hw (s' & last & Hs' & Hg & Hb & Hle & Hst) [Hsw Htk]] Hs.
  cbn [wt_host wt_sweep wt_tick] in *. rewrite Hs in Hs'. injection Hs' as <-.
  destruct Hst as [[Hst Hswl]|[Hst Htkl]].
  - destruct (woken_stopped group id s m Hw Hs Hg Hst) as (ss' & -> & Hs1). split; [|done].
    split; cbn [wt_host wt_sweep wt_tick]; [by destruct Hw | | cbn [cm_clock set_world]; lia].
    exists (with_container Running (sv_now (cm_world m)) s), last. split; [exact Hs1|]. split; [done|]. split; [exact Hb|].
    split; [done|]. right. split; [done | lia].
  - rewrite (woken_running s m Hst). split; [|done]. split; cbn [wt_host wt_sweep wt_tick]; [done | | lia].
    exists s, last. split; [done|]. split; [done|]. split; [done|]. split; [done|]. by right.
Qed.
Lemma step_stays group id x y :
  watch_step group id x y -> wedged group id x ->
  wedged group id y /\ spawns (group, id) (wt_host y) = spawns (group, id) (wt_host x).
Proof.
  intros [m sw tk d Hd Hsw Htk|m sw tk s Hs|m sw tk s Hs|m m' sw tk V Es Ec El En Esp] Hx.
  - split; [|done]. destruct Hx as [Hw (s & last & Hs & Hg & Hb & Hle & Hst) Hgaps]. split; cbn [wt_host wt_sweep wt_tick] in *.
    + apply (waiting_same group id m); [done | by exists d | done].
    + exists s, last. split; [done|]. split; [done|]. split; [done|]. split; [cbn; lia | done].
    + cbn [cm_clock wait]. lia.
  - by eapply tick_stays.
  - by eapply sweep_stays.
  - split; [|done]. destruct Hx as [Hw (s & last & Hs & Hg & (e & He & Hb) & Hle & Hst) Hg2]. cbn [wt_host wt_sweep wt_tick] in *.
    split; cbn [wt_host wt_sweep wt_tick]; rewrite ?El; [|exists s, last|done].
    + apply (waiting_same group id m); [done | exists 0; split; [done | by rewrite En, Z.add_0_r] | done].
    + split; [by rewrite Es|]. split; [done|]. split; [|done]. exists e. by rewrite Ec.
Qed.

(** A session whose container has crashed four times can wait forever.  The
    sweep, which runs every minute, marks a stopped session with a due message
    as running without starting anything; the manager, which starts containers
    of stopped sessions only, sees a running session with an old heartbeat and
    records one more crash, so that the back-off of five minutes starts again
    long before it has run out.  However long this goes on, whatever else the
    host does, no container is asked for, and the message stays due. *)
Theorem woken_session_never_spawns group id x y :
  wedged group id x -> rtc (watch_step group id) x y ->
  spawns (group, id) (wt_host y) = spawns (group, id) (wt_host x) /\ waiting group id (wt_host y).
Proof.
  intros Hx Hr. enough (wedged group id y /\ spawns (group, id) (wt_host y) = spawns (group, id) (wt_host x)) as [Hy E]
    by (split; [exact E | apply Hy]).
  revert Hx. induction Hr as [x|x y z Hxy _ IH]; intros Hx; [done|].
  destruct (step_stays group id x y Hxy Hx) as [Hy E]. destruct (IH Hy) as [Hz E']. split; [done | by rewrite E', E].
Qed.
End Wake.

(** ** Instances *)

Module WakeWitnesses.
Import ContainersProps.Demo.
#[local] Existing Instance demo_runtime.

Definition demo_step := watch_step demo_config show_z show_z (fun _ => []) (seconds 1) (seconds 60) 1 2.
Definition demo_reconcile := reconcile demo_config show_z show_z (fun _ => []).
(** After the fourth crash, at 200 seconds. *)
Definition crashed_host : Manager :=
  demo_host Stopped [] {[2 := mkEntry 4 0 false (seconds 200) (seconds 500)]} (seconds 200).
Definition at_crash : Watch := mkWatch crashed_host (seconds 200) (seconds 200).
Definition swept : Manager := woken (demo_session Stopped) crashed_host.
Definition ticked : Watch :=
  let s := with_container Running (seconds 200) (demo_session Running) in
  mkWatch (snd (demo_reconcile s (wait (seconds 1) swept))) (seconds 200) (seconds 201).
Lemma crashed_wedged : wedged demo_config (seconds 1) (seconds 60) 1 2 at_crash.
Proof.
  split.
  - split.
    + exists [demo_message], demo_message. split; [reflexivity|]. split; [by left|]. done.
    + eexists. split; reflexivity.
    + exists 0. split; [reflexivity | done].
  - exists (demo_session Stopped), (seconds 200). split; [reflexivity|]. split; [reflexivity|].
    split; [|split; [done | by left]]. eexists. split; [reflexivity|]. split; [done|]. done.
  - cbn. unfold seconds, ns_per_s. lia.
Qed.
Lemma woken_session_never_spawns_witness :
  rtc demo_step at_crash ticked
  /\ wt_host ticked <> crashed_host
  /\ spawns (1, 2) (wt_host ticked) = [] /\ waiting demo_config 1 2 (wt_host ticked).
Proof.
  assert (rtc demo_step at_crash ticked) as Hr.
  { apply (rtc_l _ _ (mkWatch swept (seconds 200) (seconds 200))); [by apply watch_sweep|].
    apply (rtc_l _ _ (mkWatch (wait (seconds 1) swept) (seconds 200) (seconds 200))).
    - apply watch_time; vm_compute; congruence.
    - apply rtc_once. apply (watch_tick _ _ _ _ _ _ _ _ (wait (seconds 1) swept)). vm_compute. reflexivity. }
  split; [exact Hr|]. split; [intros E; apply (f_equal cm_clock) in E; vm_compute in E; discriminate|].
  apply (woken_session_never_spawns demo_config show_z show_z (fun _ => []) (seconds 1) (seconds 60) eq_refl eq_refl
           1 2 at_crash ticked crashed_wedged Hr).
Defined.

(** How it begins: the group is over its daily cap, so that nothing is started,
    and every minute the sweep marks the session as running and the manager
    counts a crash.  After five minutes the streak is long enough. *)
Definition current (m : Manager) : Session :=
  match session_of 2 m with Ok s => s | Err _ => demo_session Stopped end.
Definition minute (m : Manager) : Manager :=
  let m := woken (current m) m in
  let m := wait (seconds 1) m in
  let m := snd (demo_reconcile (current m) m) in
  let m := wait (seconds 58) m in
  snd (demo_reconcile (current m) (wait (seconds 1) m)).
Definition capped : Manager :=
  let m := demo_host Stopped [] ∅ (seconds 200) in
  mkManager (cm_world m) (cm_crash m) (cm_breaker m) false None false ∅ ∅ [mkBudget 1 (Some 0) None None None 0] [] ∅ ∅ ∅ [] [] 0
    (cm_disk m) (cm_clock m).
Example cap_leads_there :
  let m := Nat.iter 5 minute capped in
  spawns (1, 2) m = [] /\ s_container_status (current m) = Stopped
  /\ option_map en_streak (cm_crash m !! 2) = Some 5
  /\ spawn_delay_remaining (cm_crash m) 2 (cm_clock m) = Some (seconds 241).
Proof. vm_compute. done. Qed.
End WakeWitnesses.
