(* ===== verification/Senders.v ===== *)
(** Who may talk to an agent: the gate for unknown senders
    ([copperclaw-modules/src/approvals.rs], as [install_modules] of
    [copperclaw-host/src/boot.rs] wires it), the pairing codes
    ([copperclaw-db/src/tables/dm_pairing_codes.rs]), the two notices the gate
    sends ([build_pending_notifier], [build_pairing_notifier] of [boot.rs]), the
    access gate ([copperclaw-modules/src/permissions.rs]) and the commands with
    which an operator admits a sender ([copperclaw-host/src/handlers/pairing.rs],
    [approvals.rs], [users.rs]).

    The host's tables are fields of the state; a user is known by the id derived
    from [kind:identity].  The derivation ([uuid]) and the random numbers
    ([rand]) are the class [Chance]; the characters of a text are decoded from
    its UTF-8 bytes. *)
From S2P Require Import Prelude Types Central Approvals Router.

Class Chance : Type := {
  new_v5 : string -> uuid;
  (** The n-th random index drawn. *)
  gen_range : Z -> Z;
}.

(** The characters of a text ([str::chars]), from its UTF-8 bytes. *)
Definition chars (s : string) : rstr :=
  decode_utf8 (map (fun c => Z.of_N (N_of_ascii c)) (String.list_ascii_of_string s)).

(** ** Pairing codes *)

Definition CODE_LEN : nat := 8.
Definition PAIRING_CODE_TTL : Z := 3600 * ns_per_s.
Definition MAX_ACTIVE_CODES_PER_CHANNEL : Z := 3.
Definition CODE_ALPHABET : rstr := lit "ABCDEFGHJKLMNPQRSTUVWXYZ23456789".

Module Pairing.
Inductive PairingStatus : Type := Active | Consumed | Expired.
#[export] Instance PairingStatus_eq_dec : EqDecision PairingStatus.
Proof. solve_decision. Defined.
Definition as_str (s : PairingStatus) : string :=
  match s with Active => "active" | Consumed => "consumed" | Expired => "expired" end%string.
Definition parse (s : string) : option PairingStatus :=
  if String.eqb s "active" then Some Active
  else if String.eqb s "consumed" then Some Consumed
  else if String.eqb s "expired" then Some Expired
  else None.
End Pairing.
Import Pairing.

Record PairingCode : Type := mkCode {
  pk_code : rstr;
  pk_channel_type : string;
  pk_identity : string;
  pk_display_name : option string;
  pk_agent_group_id : option uuid;
  pk_messaging_group_id : option uuid;
  pk_status : PairingStatus;
  pk_created_at : instant;
  pk_expires_at : instant;
  pk_consumed_at : option instant;
}.
Record MintPairingCode : Type := mkMint {
  mt_channel_type : string;
  mt_identity : string;
  mt_display_name : option string;
  mt_agent_group_id : option uuid;
  mt_messaging_group_id : option uuid;
}.
Inductive MintError : Type :=
| RateLimited (channel_type : string) (active : Z)
| MintDb (e : DbError).
Abbreviation code_table := (list PairingCode) (only parsing).

Definition pk_is_expired_at (c : PairingCode) (now : instant) : bool := pk_expires_at c <=? now.
Definition is_pairable_at (c : PairingCode) (now : instant) : bool :=
  bool_decide (pk_status c = Active) && negb (pk_is_expired_at c now).
Definition has_code (code : rstr) (c : PairingCode) : bool := rstr_eqb (pk_code c) code.
Definition with_pairing (s : PairingStatus) (consumed : option instant) (c : PairingCode) : PairingCode :=
  mkCode (pk_code c) (pk_channel_type c) (pk_identity c) (pk_display_name c) (pk_agent_group_id c)
    (pk_messaging_group_id c) s (pk_created_at c) (pk_expires_at c) consumed.
Definition active_count (t : code_table) (channel_type : string) (now : instant) : Z :=
  sql_count (fun c => String.eqb (pk_channel_type c) channel_type && is_pairable_at c now) t.
Definition code_get (t : code_table) (code : rstr) : option PairingCode := sql_get (has_code code) t.
(** Newest first; rows of the same instant in table order. *)
Definition code_list (t : code_table) (status : option PairingStatus) : list PairingCode :=
  order_by (fun c => - pk_created_at c)
    (match status with Some s => List.filter (fun c => bool_decide (pk_status c = s)) t | None => t end).
Definition overdue (now : instant) (c : PairingCode) : bool :=
  bool_decide (pk_status c = Active) && pk_is_expired_at c now.
Definition code_sweep (t : code_table) (now : instant) : list rstr * code_table :=
  (map pk_code (List.filter (overdue now) t),
   fst (sql_update (overdue now) (fun c => with_pairing Expired (pk_consumed_at c) c) t)).
Definition get_active (t : code_table) (code : rstr) (now : instant) : option PairingCode * code_table :=
  let t' := snd (code_sweep t now) in
  (match code_get t' code with Some c => if is_pairable_at c now then Some c else None | None => None end, t').
Definition consume (t : code_table) (code : rstr) (now : instant) : result DbError (PairingCode * code_table) :=
  let live c := has_code code c && bool_decide (pk_status c = Active) in
  let '(t', n) := sql_update live (with_pairing Consumed (Some now)) t in
  if (n =? 0)%nat then
    match code_get t code with None => Err NotFound | Some _ => Err (Invariant "pairing code is not active") end
  else match code_get t' code with Some c => Ok (c, t') | None => Err NotFound end.

Section Mint.
Context `{Chance}.
Definition char_at (n : Z) : rchar := nth (Z.to_nat (gen_range n)) CODE_ALPHABET 0.
Definition random_code (drawn : Z) : rstr := map (fun i => char_at (drawn + Z.of_nat i)) (seq 0 CODE_LEN).
Definition minted (code : rstr) (req : MintPairingCode) (now : instant) : PairingCode :=
  mkCode code (mt_channel_type req) (mt_identity req) (mt_display_name req) (mt_agent_group_id req)
    (mt_messaging_group_id req) Active now (now + PAIRING_CODE_TTL) None.
(** [for _ in 0..8]: a taken code is drawn again. *)
Fixpoint mint_code (attempts : nat) (t : code_table) (req : MintPairingCode) (now : instant) (drawn : Z)
  : result MintError PairingCode * code_table * Z :=
  match attempts with
  | O => (Err (MintDb (Invariant "could not mint a unique pairing code after 8 attempts")), t, drawn)
  | S n =>
      let code := random_code drawn in
      let drawn' := drawn + Z.of_nat CODE_LEN in
      if existsb (has_code code) t then mint_code n t req now drawn'
      else (Ok (minted code req now), t ++ [minted code req now], drawn')
  end.
Definition mint (t : code_table) (req : MintPairingCode) (now : instant) (drawn : Z)
  : result MintError PairingCode * code_table * Z :=
  let t := snd (code_sweep t now) in
  let active := active_count t (mt_channel_type req) now in
  if MAX_ACTIVE_CODES_PER_CHANNEL <=? active then (Err (RateLimited (mt_channel_type req) active), t, drawn)
  else mint_code 8 t req now drawn.
End Mint.

(** ** The state *)

Inductive Notice : Type :=
| ToOperator (channel_type platform_id : string) (sender : SenderIdentity)
| ToSender (channel_type identity : string) (code : rstr).
Record Admission : Type := mkAdmission {
  ad_known : list SenderIdentity;
  ad_users : list User;
  ad_codes : code_table;
  ad_unregistered : list UnregisteredSender;
  ad_groups : list MessagingGroup;
  ad_wirings : list MessagingGroupAgent;
  ad_notices : list Notice;
  (** The delivery adapter has been captured. *)
  ad_ready : bool;
  ad_drawn : Z;
  ad_now : instant;
}.
Definition DM (A : Type) : Type := stateful Admission ErrorPayload A.
Definition set_ad_users (x : list User) (a : Admission) : Admission :=
  mkAdmission (ad_known a) x (ad_codes a) (ad_unregistered a) (ad_groups a) (ad_wirings a) (ad_notices a) (ad_ready a)
    (ad_drawn a) (ad_now a).
Definition set_codes (x : code_table) (a : Admission) : Admission :=
  mkAdmission (ad_known a) (ad_users a) x (ad_unregistered a) (ad_groups a) (ad_wirings a) (ad_notices a) (ad_ready a)
    (ad_drawn a) (ad_now a).
Definition set_ad_unregistered (x : list UnregisteredSender) (a : Admission) : Admission :=
  mkAdmission (ad_known a) (ad_users a) (ad_codes a) x (ad_groups a) (ad_wirings a) (ad_notices a) (ad_ready a)
    (ad_drawn a) (ad_now a).
Definition add_notice (n : Notice) (a : Admission) : Admission :=
  mkAdmission (ad_known a) (ad_users a) (ad_codes a) (ad_unregistered a) (ad_groups a) (ad_wirings a)
    (ad_notices a ++ [n]) (ad_ready a) (ad_drawn a) (ad_now a).
Definition set_drawn (x : Z) (a : Admission) : Admission :=
  mkAdmission (ad_known a) (ad_users a) (ad_codes a) (ad_unregistered a) (ad_groups a) (ad_wirings a) (ad_notices a)
    (ad_ready a) x (ad_now a).
Definition set_ad_now (x : instant) (a : Admission) : Admission :=
  mkAdmission (ad_known a) (ad_users a) (ad_codes a) (ad_unregistered a) (ad_groups a) (ad_wirings a) (ad_notices a)
    (ad_ready a) (ad_drawn a) x.

(** ** Roles of the access gate *)

Module Permissions.
Inductive Role : Type := Admin | Member | Guest.
#[export] Instance Role_eq_dec : EqDecision Role.
Proof. solve_decision. Defined.
Definition role_str (r : Role) : string := match r with Admin => "admin" | Member => "member" | Guest => "guest" end%string.
Definition role_parse (s : string) : option Role :=
  if String.eqb s "admin" then Some Admin
  else if String.eqb s "member" then Some Member
  else if String.eqb s "guest" then Some Guest
  else None.
Definition rank (r : Role) : Z := match r with Admin => 3 | Member => 2 | Guest => 1 end.
End Permissions.
Import Permissions.
Definition op_str (op : PermissionOp) : string :=
  match op with
  | CreateAgent => "create_agent" | EditWiring => "edit_wiring" | ApproveSender => "approve_sender"
  | ApproveChannel => "approve_channel" | InstallPackages => "install_packages" | AddMcpServer => "add_mcp_server"
  | ScheduleTask => "schedule_task" | CancelOtherTask => "cancel_other_task" | SendMessage => "send_message"
  end%string.
Definition permission_check (role : Role) (op : PermissionOp) : bool :=
  match op with
  | CreateAgent | EditWiring | ApproveSender | ApproveChannel | InstallPackages | AddMcpServer | CancelOtherTask =>
      bool_decide (role = Admin)
  | ScheduleTask => rank Member <=? rank role
  | SendMessage => true
  end.

Section Gate.
Context `{Chance}.
Implicit Types (a : Admission) (sender : SenderIdentity).

(** ** Users ([copperclaw-db/src/tables/users.rs]) *)

Definition user_key (kind identity : string) : uuid := new_v5 (kind ++ ":" ++ identity).
Definition get_by_identity (t : list User) (kind identity : string) : option User :=
  sql_get (user_has_id (user_key kind identity)) t.
Definition upsert_user (kind identity : string) (name : option rstr) : DM uuid :=
  let! now := gets ad_now in
  modify (fun a => set_ad_users (user_upsert (ad_users a) (user_key kind identity) kind name now) a) ;;
  ret (user_key kind identity).

(** ** The gate for unknown senders *)

Inductive UnknownSenderPolicy : Type := RequestApproval | Open.
Definition policy_parse (raw : rstr) : UnknownSenderPolicy :=
  if rstr_eqb (trim raw) (lit "open") then Open else RequestApproval.
Definition same_sender (sender k : SenderIdentity) : bool :=
  String.eqb (se_channel_type k) (se_channel_type sender) && String.eqb (se_identity k) (se_identity sender).
Definition persistent_lookup a sender : bool :=
  match get_by_identity (ad_users a) (se_channel_type sender) (se_identity sender) with Some _ => true | None => false end.
Definition policy_of a (mg : option uuid) : UnknownSenderPolicy :=
  match mg with
  | Some id => match mg_get (ad_groups a) id with Ok g => policy_parse (mg_unknown_sender_policy g) | Err _ => RequestApproval end
  | None => RequestApproval
  end.
Definition admitted a sender : bool := existsb (same_sender sender) (ad_known a) || persistent_lookup a sender.
Definition already_seen a sender : bool :=
  existsb (us_key (se_channel_type sender) (se_identity sender)) (ad_unregistered a).

(** The first wiring of the agent's group names where the operator reads. *)
Definition pending_notifier (ctx : SenderScopeCtx) sender : DM unit :=
  let! a := gets (fun a => a) in
  if already_seen a sender then ret tt
  else
    match list_for_ag (ad_wirings a) (sc_agent_group_id ctx) with
    | [] => ret tt
    | wiring :: _ =>
        match mg_get (ad_groups a) (wr_messaging_group_id wiring) with
        | Ok mg => modify (add_notice (ToOperator (mg_channel_type mg) (mg_platform_id mg) sender))
        | Err _ => ret tt
        end
    end.
Definition pairing_notifier (ctx : SenderScopeCtx) sender : DM unit :=
  let! a := gets (fun a => a) in
  if already_seen a sender then ret tt
  else
    let '(minted, codes, drawn) :=
      mint (ad_codes a)
        (mkMint (se_channel_type sender) (se_identity sender) (se_display_name sender) (Some (sc_agent_group_id ctx))
           (sc_messaging_group_id ctx)) (ad_now a) (ad_drawn a) in
    modify (fun a => set_drawn drawn (set_codes codes a)) ;;
    match minted with
    | Ok c => modify (add_notice (ToSender (se_channel_type sender) (se_identity sender) (pk_code c)))
    | Err _ => ret tt
    end.
Definition pending_text sender : rstr :=
  lit "sender `" ++ chars (se_channel_type sender) ++ lit ":" ++ chars (se_identity sender) ++ lit "` is pending approval".
(** What the gate answers, and what it does before it answers. *)
Definition scope_answer a (ctx : SenderScopeCtx) : SenderScopeDecision :=
  match sc_event_sender ctx with
  | None => SDefer
  | Some sender =>
      if admitted a sender then SDefer
      else match policy_of a (sc_messaging_group_id ctx) with
           | Open => SAllow
           | RequestApproval => SPending (pending_text sender)
           end
  end.
Definition sender_gate (ctx : SenderScopeCtx) : DM SenderScopeDecision :=
  let! a := gets (fun a => a) in
  match sc_event_sender ctx, scope_answer a ctx with
  | Some sender, SPending reason =>
      (if ad_ready a then pending_notifier ctx sender ;; pairing_notifier ctx sender else ret tt) ;;
      ret (SPending reason)
  | _, answer => ret answer
  end.
(** What the router does with one wiring up to the gate: the gate, then the row
    of a sender no resolver knows ([route_one]).  No module installs a
    resolver, so every sender is such a sender. *)
Definition inbound (ctx : SenderScopeCtx) : DM SenderScopeDecision :=
  let! decision := sender_gate ctx in
  match sc_resolved_user ctx, sc_event_sender ctx with
  | None, Some sender =>
      modify (fun a => set_ad_unregistered
        (unregistered_upsert (ad_unregistered a)
           (mkUpsertUnregistered (se_channel_type sender) (se_identity sender) None (se_display_name sender)
              (scope_reason (Some decision)) (sc_messaging_group_id ctx) (Some (sc_agent_group_id ctx))) (ad_now a)) a)
  | _, _ => ret tt
  end ;;
  ret decision.

(** ** The access gate; the host installs [PermissionsModule::deny_all] *)

Definition permissions_gate (role_lookup : GateCtx -> option Role) (default_role : Role) (g : GateCtx) : GateDecision :=
  let role := default default_role (role_lookup g) in
  match PermissionOp_parse (gc_op g) with
  | None => GDeny (lit "unknown operation `" ++ chars (gc_op g) ++ lit "` denied")
  | Some op =>
      if permission_check role op then GAllow
      else GDeny (lit "role `" ++ lit (role_str role) ++ lit "` cannot perform `" ++ lit (op_str op) ++ lit "`")
  end.
Definition deny_all : GateCtx -> GateDecision := permissions_gate (fun _ => None) Guest.

(** ** The operator's commands *)

Definition arg (k : string) (args : json) : DM rstr :=
  match jget_str k args with
  | Some s => ret s
  | None => fail (mkError "bad_request" (lit "missing string `" ++ lit k ++ lit "`"))
  end.
Definition pairing_list (args : json) : DM (list PairingCode) :=
  modify (fun a => set_codes (snd (code_sweep (ad_codes a) (ad_now a))) a) ;;
  let all := match jget "all" args with Some (JBool b) => b | _ => false end in
  gets (fun a => code_list (ad_codes a) (if all then None else Some Active)).
(** [approve] reads the clock once; its three statements on the tables. *)
Definition find_active (code : rstr) (now : instant) : DM PairingCode :=
  let! codes := gets ad_codes in
  let '(row, codes') := get_active codes code now in
  modify (set_codes codes') ;;
  match row with
  | Some row => ret row
  | None =>
      match code_get codes' code with
      | None => fail (mkError "not_found" (lit "no such pairing code"))
      | Some _ => fail (mkError "conflict" (lit "pairing code is expired or already consumed"))
      end
  end.
Definition promote (row : PairingCode) : DM uuid :=
  upsert_user (pk_channel_type row) (pk_identity row) (option_map chars (pk_display_name row)).
Definition finish (code : rstr) (now : instant) : DM unit :=
  let! codes := gets ad_codes in
  match consume codes code now with
  | Ok (_, codes') => modify (set_codes codes')
  | Err (Invariant _) => fail (mkError "conflict" (lit "pairing code is no longer active"))
  | Err _ => fail (mkError "not_found" (lit "not found"))
  end.
Definition pairing_approve (args : json) : DM uuid :=
  let! code := arg "code" args in
  let! now := gets ad_now in
  let! row := find_active code now in
  let! user := promote row in
  finish code now ;;
  ret user.
Definition approve_sender (args : json) : DM uuid :=
  let! channel := arg "channel_type" args in
  let! identity := arg "identity" args in
  match channel, identity with
  | [], _ | _, [] =>
      fail (mkError "bad_request" (lit "channel_type and identity are required and must be non-empty"))
  | _, _ => upsert_user (to_string channel) (to_string identity) (jget_str "display_name" args)
  end.
Definition users_create (args : json) : DM uuid :=
  let! full := arg "identity" args in
  match split_once 58 full with
  | Some (kind, identity) => upsert_user (to_string kind) (to_string identity) (jget_str "display_name" args)
  | None => fail (mkError "bad_request" (lit "identity must be `<kind>:<handle>`"))
  end.
End Gate.
