(* ===== verification/SendersProps.v ===== *)
(** Who gets past the gate for unknown senders: nobody without an operator, no
    code twice, no more than three codes at a time; and what the notices about
    first contact get wrong. *)
From S2P Require Import Prelude Types Central Approvals Router RouterProps Senders.
Import Senders.Pairing.

(** Text survives the way into a column and back. *)
Lemma decode_char (c : rchar) (bytes : list Z) :
  0 <= c < 1114112 -> decode_utf8 (utf8_bytes c ++ bytes) = c :: decode_utf8 bytes.
Proof.
  intros Hc. unfold utf8_bytes.
  replace (c / 4096) with (c / 64 / 64) by (by rewrite Z.div_div by lia).
  replace (c / 262144) with (c / 64 / 64 / 64) by (by rewrite !Z.div_div by lia).
  pose proof (Z.div_mod c 64 ltac:(lia)). pose proof (Z.div_mod (c/64) 64 ltac:(lia)).
  pose proof (Z.div_mod (c/64/64) 64 ltac:(lia)).
  pose proof (Z.mod_pos_bound c 64 ltac:(lia)). pose proof (Z.mod_pos_bound (c/64) 64 ltac:(lia)).
  pose proof (Z.mod_pos_bound (c/64/64) 64 ltac:(lia)).
  generalize dependent (c mod 64). generalize dependent (c/64/64 mod 64). generalize dependent (c/64 mod 64).
  generalize dependent (c/64/64/64). intros q3. generalize (c/64/64). intros q2. generalize (c/64). intros q1.
  intros.
  destruct (Z.ltb_spec c 128); [|destruct (Z.ltb_spec c 2048); [|destruct (Z.ltb_spec c 65536)]]; cbn [app decode_utf8];
    repeat (match goal with |- context [?x <? ?y] => destruct (Z.ltb_spec x y) end; try (exfalso; lia)); try done;
    f_equal; lia.
Qed.
Lemma utf8_byte_range (c : rchar) b : 0 <= c < 1114112 -> In b (utf8_bytes c) -> 0 <= b < 256.
Proof.
  intros Hc. unfold utf8_bytes.
  destruct (Z.ltb_spec c 128); [|destruct (Z.ltb_spec c 2048); [|destruct (Z.ltb_spec c 65536)]]; cbn; intros Hin;
    repeat destruct Hin as [Hin|Hin]; try done; subst b; Z.div_mod_to_equations; lia.
Qed.
Lemma chars_to_string (s : rstr) : (forall c, In c s -> 0 <= c < 1114112) -> chars (to_string s) = s.
Proof.
  intros Hs. unfold chars, to_string.
  assert (forall l, (forall b, In b l -> 0 <= b < 256) ->
    map (fun c => Z.of_N (N_of_ascii c))
      (String.list_ascii_of_string (fold_right (fun b => String (ascii_of_N (Z.to_N b))) EmptyString l)) = l) as Hb.
  { induction l as [|b l IH]; intros Hl; [done|]. cbn. rewrite IH by (intros x Hx; apply Hl; by right).
    f_equal. rewrite N_ascii_embedding by (specialize (Hl b ltac:(by left)); lia).
    specialize (Hl b ltac:(by left)). lia. }
  rewrite Hb.
  - induction s as [|c s IH]; [done|]. cbn [flat_map]. rewrite decode_char by (apply Hs; by left).
    f_equal. apply IH. intros x Hx. apply Hs. by right.
  - intros b [c [Hin Hb']]%in_flat_map. eapply utf8_byte_range; [by apply Hs | exact Hb'].
Qed.

(** ** What happens to the tables *)

Section Trace.
Context `{Chance}.
Implicit Types (a : Admission) (sender : SenderIdentity) (now : instant).

Inductive Event : Type :=
| EvInbound (ctx : SenderScopeCtx)
| EvTime (d : Z)
| EvList (args : json)
| EvPair (args : json)
| EvApprove (args : json)
| EvCreate (args : json)
(** A pending request of the sender family is approved ([Approvals.apply_sender]). *)
| EvRequest (channel identity : string) (name : option rstr)
| EvReady
| EvRouting (groups : list MessagingGroup) (wirings : list MessagingGroupAgent).
Definition set_ready a : Admission :=
  mkAdmission (ad_known a) (ad_users a) (ad_codes a) (ad_unregistered a) (ad_groups a) (ad_wirings a) (ad_notices a)
    true (ad_drawn a) (ad_now a).
Definition set_routing groups wirings a : Admission :=
  mkAdmission (ad_known a) (ad_users a) (ad_codes a) (ad_unregistered a) groups wirings (ad_notices a) (ad_ready a)
    (ad_drawn a) (ad_now a).
Definition react a (e : Event) : Admission :=
  match e with
  | EvInbound ctx => snd (inbound ctx a)
  | EvTime d => set_ad_now (ad_now a + Z.max 0 d) a
  | EvList args => snd (pairing_list args a)
  | EvPair args => snd (pairing_approve args a)
  | EvApprove args => snd (approve_sender args a)
  | EvCreate args => snd (users_create args a)
  | EvRequest channel identity name => snd (upsert_user channel identity name a)
  | EvReady => set_ready a
  | EvRouting groups wirings => set_routing groups wirings a
  end.
Definition after a (evs : list Event) : Admission := fold_left react evs a.

(** What the gate may change: codes, drawn numbers, notices, contacts. *)
Record gate_frame a a' : Prop := {
  gf_known : ad_known a' = ad_known a;
  gf_users : ad_users a' = ad_users a;
  gf_groups : ad_groups a' = ad_groups a;
  gf_wirings : ad_wirings a' = ad_wirings a;
  gf_now : ad_now a' = ad_now a;
}.
#[export] Instance gate_frame_preorder : PreOrder gate_frame.
Proof. split; [by intros a | intros a b c [] []; split; congruence]. Qed.
Lemma frame_modify (f : Admission -> Admission) : (forall a, gate_frame a (f a)) -> keeps gate_frame (modify (E:=ErrorPayload) f).
Proof. intros Hf a. apply Hf. Qed.
Hint Extern 1 (keeps gate_frame (modify _)) => apply frame_modify; intros; split; reflexivity : keeps.
Lemma frame_pending ctx sender : keeps gate_frame (pending_notifier ctx sender).
Proof. unfold pending_notifier. split_steps. Qed.
Lemma frame_pairing ctx sender : keeps gate_frame (pairing_notifier ctx sender).
Proof. unfold pairing_notifier. split_steps. Qed.
Hint Resolve frame_pending frame_pairing : keeps.
Lemma frame_gate ctx : keeps gate_frame (sender_gate ctx).
Proof. unfold sender_gate. split_steps. Qed.
Hint Resolve frame_gate : keeps.
Lemma frame_inbound ctx : keeps gate_frame (inbound ctx).
Proof. unfold inbound. split_steps. Qed.

(** Users only come; a command of the operator adds the one it names. *)
Lemma upsert_ids t id kind name now id' :
  In id' (map u_id (user_upsert t id kind name now)) <-> In id' (map u_id t) \/ id' = id.
Proof.
  unfold user_upsert. destruct (existsb (user_has_id id) t) eqn:E.
  - assert (map u_id (fst (sql_update (user_has_id id)
        (fun u => mkUser (u_id u) (u_kind u) (or_else name (u_display_name u)) (u_created_at u)) t)) = map u_id t) as ->.
    { unfold sql_update. cbn [fst]. rewrite map_map. apply map_ext. intros u. by destruct (user_has_id id u). }
    apply existsb_exists in E as (u & Hu & Eid). apply Z.eqb_eq in Eid. split; [by left|]. intros [Hi| ->]; [done|].
    rewrite <- Eid. by apply in_map.
  - rewrite map_app, in_app_iff. cbn. intuition.
Qed.
Definition is_user a (id : uuid) : Prop := In id (map u_id (ad_users a)).
Lemma lookup_user a sender :
  persistent_lookup a sender = true <-> is_user a (user_key (se_channel_type sender) (se_identity sender)).
Proof.
  unfold persistent_lookup, get_by_identity, sql_get, is_user. rewrite in_map_iff.
  destruct (find _ (ad_users a)) as [u|] eqn:E.
  - apply find_some in E as [Hu E]. apply Z.eqb_eq in E. split; [by exists u | done].
  - split; [done|]. intros (u & Eu & Hu). apply (find_none _ _ E) in Hu. unfold user_has_id in Hu.
    by rewrite Eu, Z.eqb_refl in Hu.
Qed.

(** ** The table of codes *)

Implicit Types (t : list PairingCode) (c : PairingCode) (code : rstr).

(** What a code stands for, which never changes. *)
Definition ticket c : rstr * string * string * instant * instant :=
  (pk_code c, pk_channel_type c, pk_identity c, pk_created_at c, pk_expires_at c).
(** A later state of the row [c0]: the same ticket, and the same row once it is
    consumed or expired. *)
Definition later_row c0 c : Prop := ticket c = ticket c0 /\ (pk_status c0 <> Active -> c = c0).
Lemma later_refl c : later_row c c.
Proof. done. Qed.
Lemma later_trans c1 c2 c3 : later_row c1 c2 -> later_row c2 c3 -> later_row c1 c3.
Proof.
  intros [E1 F1] [E2 F2]. split; [congruence|]. intros Hs. pose proof (F1 Hs) as ->. by apply F2.
Qed.
(** A row of a table that only moved on. *)
Definition rows_later t t' : Prop := Forall2 later_row t t'.
Lemma rows_later_refl t : rows_later t t.
Proof. induction t; constructor; [apply later_refl | done]. Qed.
Lemma rows_later_update (p : PairingCode -> bool) (f : PairingCode -> PairingCode) t :
  (forall c, p c = true -> later_row c (f c)) -> rows_later t (fst (sql_update p f t)).
Proof.
  intros Hf. unfold sql_update. cbn [fst]. induction t as [|c t IH]; cbn [map]; constructor; [|exact IH].
  destruct (p c) eqn:E; [by apply Hf | apply later_refl].
Qed.
Lemma rows_later_trans t1 t2 t3 : rows_later t1 t2 -> rows_later t2 t3 -> rows_later t1 t3.
Proof.
  intros H1. revert t3. induction H1 as [|c1 c2 l1 l2 Hc _ IH]; intros t3 H3; inversion_clear H3; constructor;
    [by eapply later_trans | by apply IH].
Qed.
Lemma rows_later_In t t' c : rows_later t t' -> In c t' -> exists c0, In c0 t /\ later_row c0 c.
Proof.
  intros Hl. induction Hl as [|c1 c2 l1 l2 Hc _ IH]; [done|]. intros [->|Hin]; [exists c1; by split; [left|]|].
  destruct (IH Hin) as (c0 & H0 & L0). exists c0. by split; [right|].
Qed.
Lemma rows_later_codes t t' : rows_later t t' -> map pk_code t' = map pk_code t.
Proof. intros Hl. induction Hl as [|c1 c2 l1 l2 [E _] _ IH]; [done|]. cbn. injection E as E _ _ _ _. by rewrite E, IH. Qed.
Lemma active_later c s consumed : pk_status c = Active -> later_row c (with_pairing s consumed c).
Proof. intros Hs. split; [done|]. by rewrite Hs. Qed.

Lemma sweep_later t now : rows_later t (snd (code_sweep t now)).
Proof.
  apply rows_later_update. intros c [E _]%andb_prop. apply active_later. by apply bool_decide_eq_true in E.
Qed.
Lemma sweep_pairable t now c : In c (snd (code_sweep t now)) -> pk_status c = Active -> In c t /\ now < pk_expires_at c.
Proof.
  intros Hin Hs. apply in_map_iff in Hin as (c0 & E & Hc0). destruct (overdue now c0) eqn:Eo; [by subst|]. subst c0.
  split; [done|]. unfold overdue in Eo. rewrite bool_decide_eq_true_2 in Eo by done. by apply Z.leb_gt in Eo.
Qed.
Lemma consume_spec t code now c :
  code_get t code = Some c -> pk_status c = Active ->
  exists c' t', consume t code now = Ok (c', t') /\ rows_later t t'
    /\ code_get t' code = Some (with_pairing Consumed (Some now) c).
Proof.
  intros Hg Hs. unfold consume. set (live := fun c => has_code code c && bool_decide (pk_status c = Active)).
  apply find_some in Hg as Hin. destruct Hin as [Hin Hc].
  assert (live c = true) as Hl by (unfold live; rewrite Hc; by apply bool_decide_eq_true).
  assert (snd (sql_update live (with_pairing Consumed (Some now)) t) <> 0%nat) as Hn
    by (apply sql_update_count_pos; by exists c).
  assert (rows_later t (fst (sql_update live (with_pairing Consumed (Some now)) t))) as Hlater.
  { apply rows_later_update. intros x [_ E]%andb_prop. apply active_later. by apply bool_decide_eq_true in E. }
  assert (code_get (fst (sql_update live (with_pairing Consumed (Some now)) t)) code
          = Some (with_pairing Consumed (Some now) c)) as Hg'.
  { revert Hg. unfold code_get, sql_get, sql_update. cbn [fst]. clear Hin Hn Hlater. induction t as [|x t IH]; [done|]. cbn [map find].
    assert (has_code code (if live x then with_pairing Consumed (Some now) x else x) = has_code code x) as -> by by destruct (live x).
    destruct (has_code code x) eqn:Ex; [|exact IH]. intros [= ->]. by rewrite Hl. }
  destruct (sql_update live _ t) as [t' n]. cbn [fst snd] in *. apply Nat.eqb_neq in Hn. rewrite Hn, Hg'. by eexists _, t'.
Qed.
Lemma mint_rows t req now drawn :
  let '(r, t', _) := mint t req now drawn in
  match r with
  | Ok c => exists code, c = minted code req now /\ t' = snd (code_sweep t now) ++ [c] /\ existsb (has_code code) t = false
            /\ (exists n, code = random_code n) /\ active_count (snd (code_sweep t now)) (mt_channel_type req) now < MAX_ACTIVE_CODES_PER_CHANNEL
  | Err _ => t' = snd (code_sweep t now)
  end.
Proof.
  unfold mint. destruct (Z.leb_spec MAX_ACTIVE_CODES_PER_CHANNEL (active_count (snd (code_sweep t now)) (mt_channel_type req) now)) as [|Hlt]; [done|].
  assert (forall code, existsb (has_code code) (snd (code_sweep t now)) = existsb (has_code code) t) as Hc.
  { clear Hlt. intros code. unfold code_sweep, sql_update. cbn [snd fst]. induction t as [|c t IH]; [done|]. cbn [map existsb].
    f_equal; [by destruct (overdue now c) | exact IH]. }
  revert Hlt. generalize (active_count (snd (code_sweep t now)) (mt_channel_type req) now). intros n Hlt.
  generalize 8%nat. intros k. revert drawn. induction k as [|k IH]; intros drawn; cbn [mint_code]; [done|].
  destruct (existsb (has_code (random_code drawn)) (snd (code_sweep t now))) eqn:E; [apply IH|].
  exists (random_code drawn). rewrite Hc in E. split; [done|]. split; [done|]. split; [done|]. split; [by exists drawn | done].
Qed.

(** ** One event *)

Lemma find_active_run code now a :
  find_active code now a
  = (match code_get (snd (code_sweep (ad_codes a) now)) code with
     | Some c => if is_pairable_at c now then Ok c
                 else Err (mkError "conflict" (lit "pairing code is expired or already consumed"))
     | None => Err (mkError "not_found" (lit "no such pairing code"))
     end, set_codes (snd (code_sweep (ad_codes a) now)) a).
Proof.
  unfold find_active, gets, modify, mbind, get_active.
  destruct (code_get _ code) as [c|]; [destruct (is_pairable_at c now)|]; done.
Qed.
(** A pairing that succeeds promotes the sender of a live code and closes the
    code; one that fails leaves the users alone. *)
Lemma pairing_approve_run args a :
  (exists code c user,
     jget_str "code" args = Some code /\ In c (ad_codes a) /\ pk_code c = code /\ pk_status c = Active
     /\ ad_now a < pk_expires_at c /\ user = user_key (pk_channel_type c) (pk_identity c)
     /\ fst (pairing_approve args a) = Ok user
     /\ ad_users (snd (pairing_approve args a))
        = user_upsert (ad_users a) user (pk_channel_type c) (option_map chars (pk_display_name c)) (ad_now a)
     /\ code_get (ad_codes (snd (pairing_approve args a))) code = Some (with_pairing Consumed (Some (ad_now a)) c)
     /\ rows_later (ad_codes a) (ad_codes (snd (pairing_approve args a))))
  \/ (exists e, fst (pairing_approve args a) = Err e)
     /\ ad_users (snd (pairing_approve args a)) = ad_users a
     /\ rows_later (ad_codes a) (ad_codes (snd (pairing_approve args a))).
Proof.
  pose proof (sweep_later (ad_codes a) (ad_now a)) as Hsw.
  assert (forall e a', pairing_approve args a = (Err e, a') -> ad_users a' = ad_users a -> rows_later (ad_codes a) (ad_codes a') ->
    (exists e, fst (pairing_approve args a) = Err e) /\ ad_users (snd (pairing_approve args a)) = ad_users a
    /\ rows_later (ad_codes a) (ad_codes (snd (pairing_approve args a)))) as Hfail
    by (intros e a' -> Hu Hl; split; [by exists e | done]).
  destruct (jget_str "code" args) as [code|] eqn:Ea.
  2: { right. eapply Hfail; [unfold pairing_approve, arg; rewrite Ea; reflexivity | done | apply rows_later_refl]. }
  assert (pairing_approve args a = (let! row := find_active code (ad_now a) in
      let! user := promote row in finish code (ad_now a) ;; ret user) a) as Erun by (unfold pairing_approve, arg; by rewrite Ea).
  unfold mbind in Erun. rewrite find_active_run in Erun.
  destruct (code_get _ code) as [c|] eqn:Eg; [|right; by eapply Hfail].
  destruct (is_pairable_at c (ad_now a)) eqn:Ep; [|right; by eapply Hfail].
  left. apply andb_prop in Ep as [Es%bool_decide_eq_true _]. apply find_some in Eg as Hin. destruct Hin as [Hin Hc].
  destruct (sweep_pairable _ _ _ Hin Es) as [Hin0 Hexp]. apply rstr_eqb_eq in Hc.
  destruct (consume_spec _ code (ad_now a) c Eg Es) as (c' & t' & Ecs & Hl & Eg').
  exists code, c, (user_key (pk_channel_type c) (pk_identity c)).
  unfold promote, upsert_user, finish, gets, modify, mbind, ret in Erun. cbn [ad_codes set_codes set_ad_users ad_users ad_now] in Erun.
  rewrite Ecs in Erun. rewrite Erun. cbn [fst snd ad_users ad_codes set_codes set_ad_users]. repeat (split; [done|]).
  by eapply rows_later_trans.
Qed.

(** The gate asks for a code when the sender of an event is not admitted, the
    group does not wave strangers through, the adapter is up and nobody has heard
    of the sender before. *)
Definition asks a (ctx : SenderScopeCtx) : option SenderIdentity :=
  match sc_event_sender ctx with
  | Some sender =>
      match scope_answer a ctx with
      | SPending _ => if ad_ready a && negb (already_seen a sender) then Some sender else None
      | _ => None
      end
  | None => None
  end.
Definition mint_for a (ctx : SenderScopeCtx) sender : result MintError PairingCode * list PairingCode * Z :=
  mint (ad_codes a)
    (mkMint (se_channel_type sender) (se_identity sender) (se_display_name sender) (Some (sc_agent_group_id ctx))
       (sc_messaging_group_id ctx)) (ad_now a) (ad_drawn a).
Lemma operator_notice_run ctx sender a : exists a1, pending_notifier ctx sender a = (Ok tt, a1)
  /\ ad_codes a1 = ad_codes a /\ ad_unregistered a1 = ad_unregistered a /\ ad_drawn a1 = ad_drawn a /\ ad_now a1 = ad_now a.
Proof.
  unfold pending_notifier, gets, mbind, modify, ret. destruct (already_seen a sender); [by eexists|].
  destruct (list_for_ag _ _); [by eexists|]. destruct (mg_get _ _); by eexists.
Qed.
Lemma pairing_run ctx sender a : exists a1, pairing_notifier ctx sender a = (Ok tt, a1)
  /\ ad_codes a1 = (if already_seen a sender then ad_codes a else snd (fst (mint_for a ctx sender)))
  /\ ad_unregistered a1 = ad_unregistered a
  /\ forall c, already_seen a sender = false -> fst (fst (mint_for a ctx sender)) = Ok c ->
       In (ToSender (se_channel_type sender) (se_identity sender) (pk_code c)) (ad_notices a1).
Proof.
  unfold pairing_notifier, gets, mbind, modify, ret. destruct (already_seen a sender); [by eexists|].
  change (mint _ _ _ _) with (mint_for a ctx sender). destruct (mint_for a ctx sender) as [[[c|e] tm] dr]; eexists; repeat (split; [reflexivity|]).
  - intros c0 _ [= <-]. cbn. apply in_or_app. right. by left.
  - intros c0 _ [=].
Qed.
Lemma gate_run ctx a : exists a1, sender_gate ctx a = (Ok (scope_answer a ctx), a1)
  /\ ad_codes a1 = (match asks a ctx with Some sender => snd (fst (mint_for a ctx sender)) | None => ad_codes a end)
  /\ ad_unregistered a1 = ad_unregistered a
  /\ forall sender c, asks a ctx = Some sender -> fst (fst (mint_for a ctx sender)) = Ok c ->
       In (ToSender (se_channel_type sender) (se_identity sender) (pk_code c)) (ad_notices a1).
Proof.
  unfold sender_gate, asks, gets. unfold mbind at 1. destruct (sc_event_sender ctx) as [sender|] eqn:Es; [|by eexists].
  destruct (scope_answer a ctx) as [|?|reason|]; [by eexists|by eexists| |by eexists]. unfold mbind at 1.
  destruct (ad_ready a); cbn [andb]; [|by eexists]. unfold mbind at 1.
  destruct (operator_notice_run ctx sender a) as (a1 & -> & E1 & E2 & E3 & E4).
  destruct (pairing_run ctx sender a1) as (a2 & -> & F1 & F2 & F3). exists a2. split; [done|].
  assert (mint_for a1 ctx sender = mint_for a ctx sender) as Em by (unfold mint_for; by rewrite E1, E3, E4).
  assert (already_seen a1 sender = already_seen a sender) as Esn by (unfold already_seen; by rewrite E2).
  rewrite Em, Esn in *. rewrite F1, F2, E1, E2. destruct (already_seen a sender); cbn; [done|].
  repeat (split; [done|]). intros s c [= <-] Hc. by apply F3.
Qed.
(** The row of first contact is written for every sender, whatever the gate
    answered. *)
Lemma inbound_run ctx a : exists a1, inbound ctx a = (Ok (scope_answer a ctx), a1)
  /\ ad_codes a1 = (match asks a ctx with Some sender => snd (fst (mint_for a ctx sender)) | None => ad_codes a end)
  /\ ad_unregistered a1 =
     match sc_resolved_user ctx, sc_event_sender ctx with
     | None, Some sender =>
         unregistered_upsert (ad_unregistered a)
           (mkUpsertUnregistered (se_channel_type sender) (se_identity sender) None (se_display_name sender)
              (scope_reason (Some (scope_answer a ctx))) (sc_messaging_group_id ctx) (Some (sc_agent_group_id ctx))) (ad_now a)
     | _, _ => ad_unregistered a
     end
  /\ forall sender c, asks a ctx = Some sender -> fst (fst (mint_for a ctx sender)) = Ok c ->
       In (ToSender (se_channel_type sender) (se_identity sender) (pk_code c)) (ad_notices a1).
Proof.
  pose proof (frame_inbound ctx a) as Hf. pose proof (frame_gate ctx a) as Hg. unfold inbound in *.
  destruct (gate_run ctx a) as (a1 & E & Ec & Eu & En). unfold mbind at 1. rewrite E in *. destruct Hg as [_ _ _ _ Hnow].
  cbn [snd] in Hnow. unfold mbind, modify, ret.
  destruct (sc_resolved_user ctx), (sc_event_sender ctx); eexists; (split; [reflexivity|]); cbn; by rewrite ?Ec, ?Eu, ?Hnow.
Qed.

(** The codes after an event: the old ones moved on, and one more when a sender
    who was not admitted wrote. *)
Definition issued_at a (e : Event) c : Prop :=
  exists ctx sender code,
    e = EvInbound ctx /\ asks a ctx = Some sender
    /\ c = minted code (mkMint (se_channel_type sender) (se_identity sender) (se_display_name sender)
                          (Some (sc_agent_group_id ctx)) (sc_messaging_group_id ctx)) (ad_now a)
    /\ existsb (has_code code) (ad_codes a) = false /\ (exists n, code = random_code n)
    /\ In (ToSender (se_channel_type sender) (se_identity sender) code) (ad_notices (react a e))
    /\ active_count (snd (code_sweep (ad_codes a) (ad_now a))) (se_channel_type sender) (ad_now a) < MAX_ACTIVE_CODES_PER_CHANNEL.
Lemma inbound_codes ctx a :
  rows_later (ad_codes a) (ad_codes (snd (inbound ctx a)))
  \/ exists c, ad_codes (snd (inbound ctx a)) = snd (code_sweep (ad_codes a) (ad_now a)) ++ [c]
                /\ issued_at a (EvInbound ctx) c.
Proof.
  destruct (inbound_run ctx a) as (a1 & Er & Ec & _ & En). unfold issued_at. cbn [react]. rewrite Er. cbn [snd]. rewrite Ec.
  destruct (asks a ctx) as [sender|] eqn:Ea; [|left; apply rows_later_refl]. specialize (En sender). revert En. unfold mint_for.
  match goal with |- context [mint ?t ?req ?now ?drawn] => pose proof (mint_rows t req now drawn) as Hm; destruct (mint t req now drawn) as [[[c|e] tm] dr] end.
  - intros En. specialize (En c eq_refl eq_refl). destruct Hm as (code & -> & -> & Hfree & Hrand & Hcount).
    right. eexists. split; [reflexivity|]. by exists ctx, sender, code.
  - subst tm. intros _. left. apply sweep_later.
Qed.
Lemma asks_stranger a ctx sender : asks a ctx = Some sender ->
  sc_event_sender ctx = Some sender /\ admitted a sender = false /\ already_seen a sender = false.
Proof.
  unfold asks, scope_answer. destruct (sc_event_sender ctx) as [s|]; [|done]. destruct (admitted a s) eqn:E; [done|].
  destruct (policy_of a _); [|done]. destruct (ad_ready a), (already_seen a s) eqn:Es; cbn; try done. intros [= ->]. done.
Qed.

(** ** Traces *)

Lemma after_snoc a evs e : after a (evs ++ [e]) = react (after a evs) e.
Proof. unfold after. by rewrite fold_left_app. Qed.
Lemma after_app a evs evs' : after a (evs ++ evs') = after (after a evs) evs'.
Proof. unfold after. apply fold_left_app. Qed.
Lemma pairing_list_run args a : snd (pairing_list args a) = set_codes (snd (code_sweep (ad_codes a) (ad_now a))) a.
Proof. reflexivity. Qed.
(** The operator's words for "admit this sender": a command, or the approval of a
    request, that names the key. *)
Definition names a (e : Event) (key : uuid) : Prop :=
  match e with
  | EvApprove args => fst (approve_sender args a) = Ok key
  | EvCreate args => fst (users_create args a) = Ok key
  | EvRequest channel identity _ => user_key channel identity = key
  | _ => False
  end.
Lemma upsert_run kind identity name a :
  upsert_user kind identity name a
  = (Ok (user_key kind identity), set_ad_users (user_upsert (ad_users a) (user_key kind identity) kind name (ad_now a)) a).
Proof. reflexivity. Qed.
Lemma command_frame (m : DM uuid) a :
  (exists kind identity name, m a = upsert_user kind identity name a) \/ (exists e, m a = (Err e, a)) ->
  (forall id, is_user (snd (m a)) id -> is_user a id \/ fst (m a) = Ok id)
  /\ ad_codes (snd (m a)) = ad_codes a /\ ad_known (snd (m a)) = ad_known a
  /\ ad_unregistered (snd (m a)) = ad_unregistered a /\ ad_now (snd (m a)) = ad_now a.
Proof.
  intros [(kind & identity & name & ->) | (e & ->)]; [|repeat split; auto].
  rewrite upsert_run. cbn. repeat split; auto. intros id Hid. apply upsert_ids in Hid as [Hid| ->]; auto.
Qed.
Lemma approve_sender_cases args a :
  (exists kind identity name, approve_sender args a = upsert_user kind identity name a) \/ (exists e, approve_sender args a = (Err e, a)).
Proof.
  unfold approve_sender, arg. unfold mbind. destruct (jget_str "channel_type" args) as [c|]; [|right; by eexists].
  cbn. destruct (jget_str "identity" args) as [i|]; [|right; by eexists]. cbn.
  destruct c; [right; by eexists|]. destruct i; [right; by eexists|]. left. by eexists _, _, _.
Qed.
Lemma users_create_cases args a :
  (exists kind identity name, users_create args a = upsert_user kind identity name a) \/ (exists e, users_create args a = (Err e, a)).
Proof.
  unfold users_create, arg. unfold mbind. destruct (jget_str "identity" args) as [c|]; [|right; by eexists].
  cbn. destruct (split_once 58 c) as [[k i]|]; [left; by eexists _, _, _ | right; by eexists].
Qed.
(** The operator's commands leave everything else alone. *)
Definition other_tables a := (ad_known a, ad_unregistered a, ad_groups a, ad_wirings a, ad_notices a, ad_now a).
Definition ops_frame a a' : Prop := other_tables a' = other_tables a.
#[export] Instance ops_frame_preorder : PreOrder ops_frame.
Proof. split; [done | intros a b c; unfold ops_frame; congruence]. Qed.
Lemma ops_modify (f : Admission -> Admission) : (forall a, ops_frame a (f a)) -> keeps ops_frame (modify (E:=ErrorPayload) f).
Proof. intros Hf a. apply Hf. Qed.
Hint Extern 1 (keeps ops_frame (modify _)) => apply ops_modify; reflexivity : keeps.
Lemma ops_pairing args : keeps ops_frame (pairing_approve args).
Proof. unfold pairing_approve, arg, find_active, promote, upsert_user, finish. split_steps. Qed.

Lemma react_codes a e :
  rows_later (ad_codes a) (ad_codes (react a e))
  \/ exists c, ad_codes (react a e) = snd (code_sweep (ad_codes a) (ad_now a)) ++ [c] /\ issued_at a e c.
Proof.
  destruct e as [ctx|d|args|args|args|args|ch i n| |gs ws]; cbn [react]; try (left; apply rows_later_refl).
  - apply inbound_codes.
  - left. apply sweep_later.
  - left. by destruct (pairing_approve_run args a) as [(? & ? & ? & _ & _ & _ & _ & _ & _ & _ & _ & _ & Hl) | (_ & _ & Hl)].
  - left. destruct (command_frame _ a (approve_sender_cases args a)) as (_ & -> & _). apply rows_later_refl.
  - left. destruct (command_frame _ a (users_create_cases args a)) as (_ & -> & _). apply rows_later_refl.
Qed.
Lemma react_known a e : ad_known (react a e) = ad_known a.
Proof.
  destruct e as [ctx|d|args|args|args|args|ch i n| |gs ws]; cbn [react]; try done.
  - apply (gf_known _ _ (frame_inbound ctx a)).
  - pose proof (ops_pairing args a) as E. unfold ops_frame, other_tables in E. by injection E.
  - apply (command_frame _ a (approve_sender_cases args a)).
  - apply (command_frame _ a (users_create_cases args a)).
Qed.
Definition live_code a code c : Prop :=
  In c (ad_codes a) /\ pk_code c = code /\ pk_status c = Active /\ ad_now a < pk_expires_at c.
Lemma react_users a e id :
  is_user (react a e) id -> is_user a id \/ names a e id
  \/ exists args code c, e = EvPair args /\ jget_str "code" args = Some code /\ live_code a code c
       /\ id = user_key (pk_channel_type c) (pk_identity c).
Proof.
  destruct e as [ctx|d|args|args|args|args|ch i n| |gs ws]; cbn [react]; auto.
  - unfold is_user. rewrite (gf_users _ _ (frame_inbound ctx a)). auto.
  - destruct (pairing_approve_run args a) as [(code & c & u & Hj & Hin & Hc & Hs & Hx & -> & _ & Hu & _) | (_ & Hu & _)];
      unfold is_user; rewrite Hu; [|auto]. intros Hid. apply upsert_ids in Hid as [Hid| ->]; [auto|].
    right. right. by exists args, code, c.
  - intros Hid. apply (command_frame _ a (approve_sender_cases args a)) in Hid. tauto.
  - intros Hid. apply (command_frame _ a (users_create_cases args a)) in Hid. tauto.
  - rewrite upsert_run. intros Hid. apply upsert_ids in Hid as [Hid| ->]; [auto | by right; left].
Qed.

(** ** Who is admitted *)

(** [event] issued the code of [c] to a sender. *)
Definition issued_to a ctx sender c0 : Prop :=
  asks a ctx = Some sender /\ pk_channel_type c0 = se_channel_type sender /\ pk_identity c0 = se_identity sender
  /\ pk_expires_at c0 = ad_now a + PAIRING_CODE_TTL
  /\ In (ToSender (se_channel_type sender) (se_identity sender) (pk_code c0)) (ad_notices (react a (EvInbound ctx))).
Lemma code_origin a evs c :
  ad_codes a = [] -> In c (ad_codes (after a evs)) ->
  exists pre ctx mid sender c0, evs = pre ++ EvInbound ctx :: mid
    /\ issued_to (after a pre) ctx sender c0 /\ ticket c = ticket c0.
Proof.
  intros Ha. revert c. induction evs as [|e evs IH] using rev_ind; intros c; [by cbn; rewrite Ha|].
  assert (forall c', In c' (ad_codes (after a evs)) -> ticket c = ticket c' ->
    exists pre ctx mid sender c0, evs ++ [e] = pre ++ EvInbound ctx :: mid
      /\ issued_to (after a pre) ctx sender c0 /\ ticket c = ticket c0) as Hold.
  { intros c' Hin Et. destruct (IH c' Hin) as (pre & ctx & mid & sender & c0 & -> & Hi & E).
    exists pre, ctx, (mid ++ [e]), sender, c0. split; [by rewrite <- app_assoc|]. split; [done | congruence]. }
  rewrite after_snoc. destruct (react_codes (after a evs) e) as [Hl | (c1 & E1 & Hi)].
  - intros Hin. destruct (rows_later_In _ _ _ Hl Hin) as (c' & Hin' & Et & _). by apply (Hold c').
  - rewrite E1. rewrite in_app_iff. intros [Hin | [<-|[]]].
    + destruct (rows_later_In _ _ _ (sweep_later _ _) Hin) as (c' & Hin' & Et & _). by apply (Hold c').
    + destruct Hi as (ctx & sender & code & -> & Hask & -> & _ & _ & Hn & _).
      exists evs, ctx, [], sender. eexists. split; [done|]. split; [|reflexivity]. by repeat split.
Qed.
(** The approval of a live code that was issued, less than an hour before, to a
    sender of key [key] and told to that sender alone. *)
Definition paired a pre (e : Event) (key : uuid) : Prop :=
  exists args code pre0 ctx mid sender,
    e = EvPair args /\ jget_str "code" args = Some code /\ pre = pre0 ++ EvInbound ctx :: mid
    /\ asks (after a pre0) ctx = Some sender /\ user_key (se_channel_type sender) (se_identity sender) = key
    /\ In (ToSender (se_channel_type sender) (se_identity sender) code) (ad_notices (after a (pre0 ++ [EvInbound ctx])))
    /\ ad_now (after a pre) < ad_now (after a pre0) + PAIRING_CODE_TTL.

(** C5. Nobody gets in by writing: from a state without codes, over every sequence
    of messages, clock steps, table changes and commands, a sender who was not
    admitted is admitted only after a command of the operator or the approval of
    a request that names it, or after the approval of a pairing code that was issued to a sender of this key
    on a message of theirs, sent to them, and approved within the hour. *)
Theorem admitted_only_by_operator a evs sender :
  ad_codes a = [] -> admitted a sender = false -> admitted (after a evs) sender = true ->
  let key := user_key (se_channel_type sender) (se_identity sender) in
  exists pre e post, evs = pre ++ e :: post /\ (names (after a pre) e key \/ paired a pre e key).
Proof.
  intros Ha Hno. cbv zeta. set (key := user_key _ _). induction evs as [|e evs IH] using rev_ind; [cbn; congruence|].
  rewrite after_snoc. intros Hyes. destruct (admitted (after a evs) sender) eqn:Ebefore.
  { destruct (IH eq_refl) as (pre & e0 & post & -> & He). exists pre, e0, (post ++ [e]).
    split; [by rewrite <- app_assoc | exact He]. }
  exists evs, e, []. split; [done|]. unfold admitted in Hyes, Ebefore. rewrite react_known in Hyes.
  apply orb_false_elim in Ebefore as [Ek Eu]. rewrite Ek in Hyes. cbn [orb] in Hyes. apply lookup_user in Hyes.
  apply react_users in Hyes as [Hu | [Hn | (args & code & c & -> & Hj & (Hin & Hc & Hs & Hx) & Ekey)]].
  - apply lookup_user in Hu. congruence.
  - by left.
  - right. destruct (code_origin a evs c Ha Hin) as (pre & ctx & mid & s & c0 & Epre & (Hask & Ect & Eid & Eexp & Hnote) & Et).
    injection Et as E1 E2 E3 _ E5. exists args, code, pre, ctx, mid, s.
    rewrite after_snoc. unfold key. rewrite Ekey, <- Ect, <- Eid, <- E2, <- E3, <- Eexp, <- E5.
    repeat (split; [done|]). split; [|done]. rewrite E2, E3, Ect, Eid. rewrite <- Hc, E1. exact Hnote.
Qed.

(** ** A code pairs once *)

Lemma later_get t t' code c :
  rows_later t t' -> code_get t code = Some c -> exists c', code_get t' code = Some c' /\ later_row c c'.
Proof.
  intros Hl. induction Hl as [|c1 c2 l1 l2 Hc _ IH]; [done|]. unfold code_get, sql_get in *. cbn [find].
  assert (has_code code c2 = has_code code c1) as ->.
  { destruct Hc as [E _]. unfold has_code. by injection E as -> _. }
  destruct (has_code code c1); [|exact IH]. intros [= <-]. by exists c2.
Qed.
Lemma get_app t c0 code c : code_get t code = Some c -> code_get (t ++ [c0]) code = Some c.
Proof. unfold code_get, sql_get. rewrite find_app. by intros ->. Qed.
Lemma react_get a e code c :
  code_get (ad_codes a) code = Some c -> exists c', code_get (ad_codes (react a e)) code = Some c' /\ later_row c c'.
Proof.
  intros Hg. destruct (react_codes a e) as [Hl | (c1 & -> & _)]; [by eapply later_get|].
  destruct (later_get _ _ _ _ (sweep_later _ (ad_now a)) Hg) as (c' & Hg' & Hl). exists c'. split; [by apply get_app | done].
Qed.
Lemma after_get a evs code c :
  code_get (ad_codes a) code = Some c -> exists c', code_get (ad_codes (after a evs)) code = Some c' /\ later_row c c'.
Proof.
  intros Hg. induction evs as [|e evs IH] using rev_ind; [exists c; by split; [|apply later_refl]|].
  rewrite after_snoc. destruct IH as (c1 & Hg1 & Hl1). destruct (react_get _ e _ _ Hg1) as (c2 & Hg2 & Hl2).
  exists c2. split; [done | by eapply later_trans].
Qed.

(** A pairing code works at most once: after an approval of it has succeeded,
    whatever happens then, a second approval of the same code answers "conflict"
    and admits nobody. *)
Theorem code_pairs_once a args args' code evs user :
  jget_str "code" args = Some code -> jget_str "code" args' = Some code ->
  fst (pairing_approve args a) = Ok user ->
  let b := after (react a (EvPair args)) evs in
  fst (pairing_approve args' b) = Err (mkError "conflict" (lit "pairing code is expired or already consumed"))
  /\ ad_users (react b (EvPair args')) = ad_users b.
Proof.
  intros Hj Hj' Hok b.
  destruct (pairing_approve_run args a) as [(code0 & c & u & Hj0 & _ & _ & _ & _ & _ & _ & _ & Hg & _) | ((e & He) & _)]; [|congruence].
  assert (code0 = code) as -> by congruence. clear Hj0.
  destruct (after_get (react a (EvPair args)) evs code _ Hg) as (c1 & Hg1 & _ & F1). fold b in Hg1. clearbody b.
  destruct (later_get _ _ _ _ (sweep_later _ (ad_now b)) Hg1) as (c2 & Hg2 & _ & F2).
  assert (c1 = with_pairing Consumed (Some (ad_now a)) c) as -> by by apply F1.
  assert (c2 = with_pairing Consumed (Some (ad_now a)) c) as -> by by apply F2.
  assert (pairing_approve args' b = (let! row := find_active code (ad_now b) in
    let! user := promote row in finish code (ad_now b) ;; ret user) b) as E by (unfold pairing_approve, arg; by rewrite Hj').
  unfold mbind in E. rewrite find_active_run in E. rewrite Hg2 in E.
  cbn in E. cbn [react]. by rewrite E.
Qed.
End Trace.

(** ** A concrete front door *)

Module Front.
(** Ids are the text read as a number; the characters are drawn in turn. *)
Definition chance : Chance :=
  {| new_v5 := fun s => fold_left (fun n c => n * 256 + Z.of_N (N_of_ascii c)) (String.list_ascii_of_string s) 0;
     gen_range := fun n => n mod 32 |}.
#[local] Existing Instance chance.
Definition alice : SenderIdentity := mkSender "telegram" "100" (Some "Alice"%string).
Definition chat : MessagingGroup := mkMessagingGroup 1 "telegram" "100" None false (lit "request_approval") None 0.
Definition closed : Admission :=
  mkAdmission [mkSender "cli" "local" (Some "local"%string)] [] [] [] [chat]
    [mkWiring 1 1 10 Mention None "all" "drop" AgentShared 0 0] [] true 0 1000.
Definition hello : SenderScopeCtx := mkScopeCtx (Some alice) (Some 1) 10 None.
Definition code : list (string * json) := [("code"%string, JStr (lit "ABCDEFGH"))].
(** Alice writes, the operator types her code a minute later. *)
Definition story : list Event := [EvInbound hello; EvTime (60 * ns_per_s); EvPair (JObj code)].
Example story_admits : admitted (after closed story) alice = true.
Proof. vm_compute. reflexivity. Qed.
Example story_notices :
  ad_notices (after closed story) = [ToOperator "telegram" "100" alice; ToSender "telegram" "100" (lit "ABCDEFGH")].
Proof. vm_compute. reflexivity. Qed.

Lemma admitted_only_by_operator_witness :
  exists pre e post, story = pre ++ e :: post
    /\ (names (after closed pre) e (user_key "telegram" "100") \/ paired closed pre e (user_key "telegram" "100")).
Proof. apply (admitted_only_by_operator closed story alice); vm_compute; reflexivity. Defined.

Definition told : Admission := after closed [EvInbound hello].
Lemma code_pairs_once_witness :
  fst (pairing_approve (JObj code) (after (react told (EvPair (JObj code))) []))
  = Err (mkError "conflict" (lit "pairing code is expired or already consumed")).
Proof.
  assert (fst (pairing_approve (JObj code) told) = Ok (user_key "telegram" "100")) as Hok by (vm_compute; reflexivity).
  exact (proj1 (code_pairs_once told (JObj code) (JObj code) (lit "ABCDEFGH") [] _ eq_refl eq_refl Hok)).
Defined.
End Front.
