(* ===== verification/AdmissionProps.v ===== *)
(** The tables behind the gate for unknown senders: the codes stay distinct,
    few, short-lived and readable; a first contact is the only one that gets a
    code; a race in the approval of a code; and the gate at work inside the
    router. *)
From S2P Require Import Prelude Types Central Approvals Router RouterProps Senders SendersProps.
Import Senders.Pairing Senders.Permissions.

Section Tables.
Context `{Chance}.
Implicit Types (a : Admission) (sender : SenderIdentity) (t : list PairingCode) (c : PairingCode).

(** ** The table of codes *)

Definition readable (code : rstr) : Prop := length code = CODE_LEN /\ Forall (fun ch => In ch CODE_ALPHABET) code.
Record codes_ok a : Prop := {
  co_distinct : List.NoDup (map pk_code (ad_codes a));
  co_shape : forall c, In c (ad_codes a) ->
    readable (pk_code c) /\ pk_created_at c <= ad_now a /\ pk_expires_at c = pk_created_at c + PAIRING_CODE_TTL;
  co_few : forall channel, active_count (ad_codes a) channel (ad_now a) <= MAX_ACTIVE_CODES_PER_CHANNEL;
}.

Lemma react_now a e : ad_now a <= ad_now (react a e).
Proof.
  destruct e as [ctx|d|args|args|args|args|ch i n| |gs ws]; cbn [react]; try (cbn; lia).
  - by rewrite (gf_now _ _ (frame_inbound ctx a)).
  - pose proof (ops_pairing args a) as E. unfold ops_frame, other_tables in E. injection E as _ _ _ _ _ ->. done.
  - destruct (command_frame _ a (approve_sender_cases args a)) as (_ & _ & _ & _ & ->). done.
  - destruct (command_frame _ a (users_create_cases args a)) as (_ & _ & _ & _ & ->). done.
Qed.
Lemma later_pairable c c' now now' :
  later_row c c' -> now <= now' -> is_pairable_at c' now' = true -> is_pairable_at c now = true.
Proof.
  intros [E F] Hn [Hs He]%andb_prop. apply bool_decide_eq_true in Hs. injection E as _ _ _ _ Ex.
  destruct (decide (pk_status c = Active)) as [Hc|Hc]; [|by rewrite (F Hc) in Hs].
  apply andb_true_intro. split; [by apply bool_decide_eq_true|]. unfold pk_is_expired_at in *. rewrite <- Ex.
  apply negb_true_iff, Z.leb_gt. apply negb_true_iff, Z.leb_gt in He. lia.
Qed.
Lemma later_count t t' channel now now' :
  rows_later t t' -> now <= now' -> active_count t' channel now' <= active_count t channel now.
Proof.
  intros Hl Hn. unfold active_count, sql_count. apply inj_le. induction Hl as [|c c' l l' Hc _ IH]; [done|]. cbn [List.filter].
  assert (pk_channel_type c' = pk_channel_type c) as -> by (destruct Hc as [E _]; by injection E).
  destruct (String.eqb _ _); cbn [andb]; [|exact IH].
  destruct (is_pairable_at c' now') eqn:E'; [rewrite (later_pairable c c' now now' Hc Hn E'); cbn; lia|].
  destruct (is_pairable_at c now); cbn; lia.
Qed.
Lemma count_app t c channel now :
  active_count (t ++ [c]) channel now
  = active_count t channel now + (if String.eqb (pk_channel_type c) channel && is_pairable_at c now then 1 else 0).
Proof.
  unfold active_count, sql_count. rewrite List.filter_app, length_app. cbn [List.filter].
  destruct (_ && _); cbn [length]; lia.
Qed.
Lemma random_readable (Hr : forall n, 0 <= gen_range n < 32) n : readable (random_code n).
Proof.
  unfold readable, random_code. rewrite length_map, length_seq. split; [done|]. apply List.Forall_map, List.Forall_forall.
  intros i _. unfold char_at. apply nth_In. specialize (Hr (n + Z.of_nat i)).
  change (length CODE_ALPHABET) with 32%nat. lia.
Qed.
Lemma free_code t code : existsb (has_code code) t = false -> ~ In code (map pk_code t).
Proof.
  intros Hf [c [E Hin]]%in_map_iff. apply not_true_iff_false in Hf. apply Hf, existsb_exists. exists c. split; [done|].
  by apply rstr_eqb_eq.
Qed.
Lemma shape_later t t' now now' :
  rows_later t t' -> now <= now' ->
  (forall c, In c t -> readable (pk_code c) /\ pk_created_at c <= now /\ pk_expires_at c = pk_created_at c + PAIRING_CODE_TTL) ->
  forall c, In c t' -> readable (pk_code c) /\ pk_created_at c <= now' /\ pk_expires_at c = pk_created_at c + PAIRING_CODE_TTL.
Proof.
  intros Hl Hn Hs c Hin. destruct (rows_later_In _ _ _ Hl Hin) as (c0 & Hin0 & E & _). injection E as -> _ _ -> ->.
  destruct (Hs c0 Hin0) as (Hr & Hc & Hx). repeat (split; [done || lia|]). done.
Qed.

(** Every event keeps the table of codes sound: no two rows share a code, every
    code is eight readable characters and lapses an hour after it was made, and
    no channel holds more than three codes that can still be paired. *)
Theorem code_table_stays_sound a e :
  (forall n, 0 <= gen_range n < 32) -> codes_ok a -> codes_ok (react a e).
Proof.
  intros Hr [Hd Hs Hf]. pose proof (react_now a e) as Hn. destruct (react_codes a e) as [Hl | (c & E & Hi)].
  - split; [by rewrite (rows_later_codes _ _ Hl) | by eapply shape_later|].
    intros channel. etransitivity; [by apply later_count | apply Hf].
  - pose proof (sweep_later (ad_codes a) (ad_now a)) as Hl.
    assert (ad_now (react a e) = ad_now a) as En.
    { destruct Hi as (ctx & _ & _ & -> & _). apply (gf_now _ _ (frame_inbound ctx a)). }
    destruct Hi as (ctx & sender & code & -> & _ & -> & Hfree & (n & ->) & _ & Hcount).
    split; rewrite E.
    + rewrite map_app, (rows_later_codes _ _ Hl). apply NoDup_snoc; [done | by apply free_code].
    + intros c0 [Hin | [<- | []]]%in_app_or; [by eapply shape_later|]. rewrite En. cbn.
      split; [by apply random_readable | done].
    + intros channel. rewrite En, count_app.
      pose proof (later_count _ _ channel (ad_now a) (ad_now a) Hl ltac:(lia)) as Hc. specialize (Hf channel).
      destruct (String.eqb _ channel) eqn:Ech; cbn [andb]; [|lia]. cbn in Ech. apply String.eqb_eq in Ech as <-.
      destruct (is_pairable_at _ _); lia.
Qed.

(** ** First contact *)

Lemma upsert_seen (t : list UnregisteredSender) req now ct pid :
  existsb (us_key ct pid) t = true -> existsb (us_key ct pid) (unregistered_upsert t req now) = true.
Proof.
  unfold unregistered_upsert. intros Hs. destruct (existsb (us_key (uu_channel_type req) _) t).
  - unfold sql_update. cbn [fst]. apply existsb_exists in Hs as (u & Hin & Hk). apply existsb_exists. eexists.
    split; [by apply in_map|]. cbv beta. case_match; exact Hk.
  - rewrite existsb_app, Hs. done.
Qed.
Lemma upsert_sees (t : list UnregisteredSender) req now : existsb (us_key (uu_channel_type req) (uu_platform_id req)) (unregistered_upsert t req now) = true.
Proof.
  destruct (existsb (us_key (uu_channel_type req) (uu_platform_id req)) t) eqn:E.
  - by apply upsert_seen.
  - unfold unregistered_upsert. rewrite E, existsb_app. apply orb_true_iff. right. unfold us_key. cbn. by rewrite !String.eqb_refl.
Qed.
Lemma react_unregistered a e :
  (forall ctx, e <> EvInbound ctx) -> ad_unregistered (react a e) = ad_unregistered a.
Proof.
  intros Hne. destruct e as [ctx|d|args|args|args|args|ch i n| |gs ws]; cbn [react]; try done; [by destruct (Hne ctx) | | |].
  - pose proof (ops_pairing args a) as E. unfold ops_frame, other_tables in E. by injection E.
  - apply (command_frame _ a (approve_sender_cases args a)).
  - apply (command_frame _ a (users_create_cases args a)).
Qed.
Lemma seen_react a e sender : already_seen a sender = true -> already_seen (react a e) sender = true.
Proof.
  unfold already_seen. intros Hs. destruct e as [ctx| | | | | | | |]; [|by rewrite react_unregistered..].
  cbn [react]. destruct (inbound_run ctx a) as (a1 & -> & _ & Eu & _). cbn [snd]. rewrite Eu.
  destruct (sc_resolved_user ctx), (sc_event_sender ctx); try done. by apply upsert_seen.
Qed.
Lemma seen_after a evs sender : already_seen a sender = true -> already_seen (after a evs) sender = true.
Proof.
  intros Hs. induction evs as [|e evs IH] using rev_ind; [done|]. rewrite after_snoc. by apply seen_react.
Qed.
(** Whoever wrote is remembered, whatever the gate said. *)
Lemma inbound_sees ctx sender a :
  sc_event_sender ctx = Some sender -> sc_resolved_user ctx = None -> already_seen (react a (EvInbound ctx)) sender = true.
Proof.
  intros Es Eu. cbn [react]. destruct (inbound_run ctx a) as (a1 & -> & _ & E & _). unfold already_seen. cbn [snd].
  rewrite E, Es, Eu. apply (upsert_sees (ad_unregistered a) (mkUpsertUnregistered _ _ _ _ _ _ _)).
Qed.
Lemma pending_seen ctx sender a : already_seen a sender = true -> pending_notifier ctx sender a = (Ok tt, a).
Proof. intros Hs. unfold pending_notifier, gets, mbind. by rewrite Hs. Qed.
Lemma pairing_seen ctx sender a : already_seen a sender = true -> pairing_notifier ctx sender a = (Ok tt, a).
Proof. intros Hs. unfold pairing_notifier, gets, mbind. by rewrite Hs. Qed.
Lemma gate_seen ctx sender a :
  sc_event_sender ctx = Some sender -> already_seen a sender = true -> sender_gate ctx a = (Ok (scope_answer a ctx), a).
Proof.
  intros Es Hs. unfold sender_gate, gets. unfold mbind at 1. rewrite Es. destruct (scope_answer a ctx) as [|?|reason|]; [done|done| |done].
  unfold mbind. destruct (ad_ready a); [|done]. by rewrite (pending_seen ctx sender a Hs), (pairing_seen ctx sender a Hs).
Qed.

(** A lost code cannot be had again: after one message of a sender, whatever the
    gate answered to it (an open group, the limit of three codes, an adapter that
    was not up yet), no later message of that sender mints a code or tells anyone
    anything, whatever happens in between. *)
Theorem lost_code_is_lost a ctx evs ctx' sender :
  sc_event_sender ctx = Some sender -> sc_resolved_user ctx = None -> sc_event_sender ctx' = Some sender ->
  let b := after (react a (EvInbound ctx)) evs in
  ad_codes (react b (EvInbound ctx')) = ad_codes b /\ ad_notices (react b (EvInbound ctx')) = ad_notices b.
Proof.
  intros Es Eu Es' b.
  assert (already_seen b sender = true) as Hs by (by apply seen_after, inbound_sees). clearbody b.
  cbn [react]. unfold inbound. unfold mbind at 1 3. rewrite (gate_seen ctx' sender b Es' Hs).
  unfold mbind, modify, ret. by destruct (sc_resolved_user ctx'), (sc_event_sender ctx').
Qed.
End Tables.

(** ** Approving a code while another client sweeps *)

Section Race.
Context `{Chance}.

Lemma same_code t c c' :
  List.NoDup (map pk_code t) -> In c t -> In c' t -> pk_code c = pk_code c' -> c = c'.
Proof. intros Hd. by apply NoDup_map_inj. Qed.
Lemma consume_none (t : list PairingCode) code now :
  code_get t code <> None -> (forall c, In c t -> pk_code c = code -> pk_status c <> Active) ->
  consume t code now = Err (Invariant "pairing code is not active").
Proof.
  intros Hg Hn. unfold consume. set (live := fun c => has_code code c && bool_decide (pk_status c = Active)).
  assert (forall c, In c t -> live c = false) as Hl.
  { intros c Hin. unfold live. destruct (has_code code c) eqn:E; [|done]. apply rstr_eqb_eq in E.
    apply bool_decide_eq_false. by apply Hn. }
  destruct (decide (snd (sql_update live (with_pairing Consumed (Some now)) t) = 0%nat)) as [E|E].
  2: { apply sql_update_count_pos in E as (c & Hin & Hc). by rewrite (Hl c Hin) in Hc. }
  destruct (sql_update live _ t) as [t' n]. cbn [snd] in E. subst n.
  cbn. by destruct (code_get t code).
Qed.

(** [approve] promotes the sender before it closes the code.  When the code
    lapses in between and another client lists the codes (which sweeps them), the
    operator is told of a conflict and the sender is admitted all the same. *)
Theorem lapsed_pairing_admits a code row args d :
  List.NoDup (map pk_code (ad_codes a)) ->
  fst (find_active code (ad_now a) a) = Ok row -> pk_expires_at row <= ad_now a + d ->
  let a1 := snd (promote row (snd (find_active code (ad_now a) a))) in
  let a2 := after a1 [EvTime d; EvList args] in
  fst (finish code (ad_now a) a2) = Err (mkError "conflict" (lit "pairing code is no longer active"))
  /\ admitted (snd (finish code (ad_now a) a2)) (mkSender (pk_channel_type row) (pk_identity row) (pk_display_name row)) = true.
Proof.
  intros Hd Hf Hx. rewrite find_active_run in *. destruct (code_get _ code) as [c|] eqn:Eg; [|done].
  destruct (is_pairable_at c (ad_now a)) eqn:Ep; [|done]. injection Hf as ->. cbn [snd].
  set (t1 := snd (code_sweep (ad_codes a) (ad_now a))) in *.
  assert (List.NoDup (map pk_code t1)) as Hd1 by (unfold t1; by rewrite (rows_later_codes _ _ (sweep_later _ _))).
  set (later := ad_now a + Z.max 0 d). set (t2 := snd (code_sweep t1 later)).
  assert (consume t2 code (ad_now a) = Err (Invariant "pairing code is not active")) as Hc.
  { apply consume_none.
    - destruct (later_get _ _ _ _ (sweep_later t1 later) Eg) as (c2 & E2 & _). unfold t2. by rewrite E2.
    - intros c Hin Ec Hs. destruct (sweep_pairable _ _ _ Hin Hs) as [Hin1 Hex]. apply find_some in Eg as [Hrow Er].
      apply rstr_eqb_eq in Er. assert (c = row) as -> by (eapply same_code; [exact Hd1 | done | done | congruence]).
      unfold later in Hex. lia. }
  assert (after (snd (promote row (set_codes t1 a))) [EvTime d; EvList args]
          = set_codes t2 (set_ad_now later (snd (promote row (set_codes t1 a))))) as -> by reflexivity.
  set (a2 := set_codes t2 _). assert (finish code (ad_now a) a2
    = (Err (mkError "conflict" (lit "pairing code is no longer active")), a2)) as ->
    by (unfold finish, gets, mbind; change (ad_codes a2) with t2; by rewrite Hc).
  split; [done|]. cbn [snd]. unfold admitted. apply orb_true_iff. right. apply lookup_user. apply upsert_ids. by right.
Qed.
End Race.

(** ** The gate inside the router *)

Section Composition.
Context `{Chance} `{Env}.

(** The gates as [install_modules] wires them, for the tables of [a]. *)
Definition wired (a : Admission) : Prop :=
  access_gate = Some deny_all /\ sender_scope_gate = Some (scope_answer a).

(** [deliver_message] is a name of [SendMessage], which every role may do. *)
Lemma deny_all_delivers user ag mg : deny_all (mkGateCtx user ag mg "deliver_message") = GAllow.
Proof. reflexivity. Qed.
(** The sessions there are, all that is stored of each, and the wakes. *)
Definition still (w w' : World) : Prop := (w_sessions w', w_stores w', w_wakes w') = (w_sessions w, w_stores w, w_wakes w).
Lemma still_trans w1 w2 w3 : still w1 w2 -> still w2 w3 -> still w1 w3.
Proof. unfold still. congruence. Qed.
Lemma note_still event mg wiring user d w : still w (snd (note_unregistered event mg wiring user d w)).
Proof. unfold note_unregistered. by destruct user, (ev_sender event). Qed.
Lemma drop_still event mg ag reason w : still w (snd (record_drop event mg ag reason w)).
Proof.
  unfold record_drop, mbind, fresh_id, utc_now, gets, Router.db, lift, modify. by destruct (dropped_message_insert _ _).
Qed.
Lemma route_one_stranger a event mg g wiring user command sender w o w' :
  wired a -> ev_sender event = Some sender -> admitted a sender = false -> policy_of a (Some mg) = RequestApproval ->
  route_one event mg g wiring user command w = (Ok o, w') -> o = FPending SenderUnregistered /\ still w w'.
Proof.
  intros [Ha Hs] Es Ead Ep. unfold route_one, resolve_access_gate. rewrite Ha. cbn [option_map]. rewrite deny_all_delivers.
  assert (scope_gate event mg wiring user = Some (SPending (pending_text sender))) as ->
    by (unfold scope_gate; rewrite Hs; cbn [option_map]; unfold scope_answer; cbn [sc_event_sender sc_messaging_group_id]; by rewrite Es, Ead, Ep).
  cbv zeta. unfold mbind. pose proof (note_still event mg wiring user (Some (SPending (pending_text sender))) w) as Hn.
  destruct (note_unregistered _ _ _ _ _ w) as [[[]|e] w1]; [by intros [= <- <-] | done].
Qed.
Lemma fanout_stranger a event mg user command sender wirings pending w o w' :
  wired a -> ev_sender event = Some sender -> admitted a sender = false -> policy_of a (Some (mg_id mg)) = RequestApproval ->
  fanout event mg user command wirings [] [] pending w = (Ok o, w') ->
  o = conclude [] [] (match wirings with [] => pending | _ => Some SenderUnregistered end) /\ still w w'.
Proof.
  intros Hw Es Ead Ep. revert pending w. induction wirings as [|wiring ws IH]; intros pending w; cbn [fanout]; [by intros [= <- <-]|].
  unfold mbind at 1, modify. unfold mbind at 1.
  destruct (route_one _ _ _ _ _ _ _) as [[out|e] w1] eqn:E1; [|done].
  apply (route_one_stranger a _ _ _ _ _ _ sender _ _ _ Hw Es Ead Ep) in E1 as [-> H1]. intros E.
  apply IH in E as [-> H2]. split; [by destruct ws|]. eapply still_trans; [exact H1 | exact H2].
Qed.

(** C6. With the gates of the host, a message of a sender who is not admitted, in a chat
    that is not registered or whose policy is to ask for approval, reaches no agent: however
    many agents are wired, the message waits for the sender's approval or is dropped before
    any agent is considered, no session is created or woken, and everything stored of every
    session, inbox and outbox included, stays as it was. *)
Theorem stranger_held a event sender w o w' :
  wired a -> ev_sender event = Some sender -> admitted a sender = false ->
  (forall mg, get_by_platform (w_groups w) (ev_channel_type event) (ev_platform_id event) = Some mg ->
     policy_of a (Some (mg_id mg)) = RequestApproval) ->
  route event w = (Ok o, w') ->
  w_sessions w' = w_sessions w /\ w_stores w' = w_stores w /\ w_wakes w' = w_wakes w
  /\ (o = Pending SenderUnregistered \/ exists d, o = Dropped d).
Proof.
  intros Hw Es Ead Ep E.
  apply route_run in E as (w1 & E & Ew).
  assert (still w w1 /\ (o = Pending SenderUnregistered \/ exists d, o = Dropped d)) as [Hst Ho].
  2: { unfold still in Hst. destruct (staged_attachment_path event); subst w'; cbn; injection Hst as -> -> ->; done. }
  clear Ew. revert E. unfold route_impl. unfold mbind at 1.
  assert (w_groups (snd (debounced event w)) = w_groups w /\ still w (snd (debounced event w))) as [Eg Hd]
    by (unfold debounced; by destruct (check_and_record _ _ _)).
  destruct (debounced event w) as [[[]|e] w2]; [intros [= <- <-]; split; [exact Hd | right; by eexists] | | done]. cbn [snd] in Eg, Hd.
  assert (forall w0 mg ag reason d w3, still w w0 ->
    (record_drop event mg ag reason ;; ret (Dropped d)) w0 = (Ok o, w3) -> still w w3 /\ (o = Pending SenderUnregistered \/ exists d, o = Dropped d)) as Hdrop.
  { intros w0 mg ag reason d w3 Hst0. unfold mbind. pose proof (drop_still event mg ag reason w0) as H1.
    destruct (record_drop _ _ _ _ w0) as [[[]|e] w4]; [|done]. intros [= <- <-]. split; [by eapply still_trans | right; by eexists]. }
  unfold mbind at 1, gets at 1. rewrite Eg. destruct (get_by_platform _ _ _) as [mg|];
    [specialize (Ep mg eq_refl) | intros E; by eapply Hdrop].
  cbv zeta. assert (forall user command w3 ws, fanout event mg user command ws [] [] None w2 = (Ok o, w3) ->
     still w w3 /\ (o = Pending SenderUnregistered \/ exists d, o = Dropped d)) as Hfan.
  { intros user command w3 ws E. apply (fanout_stranger a _ _ _ _ sender _ _ _ _ _ Hw Es Ead Ep) in E as [-> H1].
    split; [by eapply still_trans|]. destruct ws; [right; by eexists | by left]. }
  destruct (channel_gate _ _) as [[| reason |]|]; [|intros E; by eapply Hdrop| |];
    unfold mbind at 1, gets at 1; (destruct (list_for_mg _ _) as [|wiring ws]; [intros E; by eapply Hdrop | by apply Hfan]).
Qed.
End Composition.

(** ** Witnesses *)

Module Witnesses.
#[local] Existing Instance Front.chance.
Lemma closed_ok : codes_ok Front.closed.
Proof. split; [constructor | done | done]. Qed.
Lemma code_table_stays_sound_witness : codes_ok (react Front.closed (EvInbound Front.hello)).
Proof. apply code_table_stays_sound; [intros n; apply (Z.mod_pos_bound n 32); lia | apply closed_ok]. Defined.

(** The adapter was not up when Alice first wrote. *)
Definition early : Admission :=
  mkAdmission (ad_known Front.closed) [] [] [] (ad_groups Front.closed) (ad_wirings Front.closed) [] false 0 1000.
Lemma lost_code_is_lost_witness :
  ad_codes (react (after (react early (EvInbound Front.hello)) [EvReady]) (EvInbound Front.hello)) = [].
Proof.
  etransitivity; [apply (lost_code_is_lost early Front.hello [EvReady] Front.hello Front.alice); reflexivity|].
  vm_compute. reflexivity.
Defined.

Definition waiting : PairingCode :=
  mkCode (lit "ABCDEFGH") "telegram" "100" (Some "Alice"%string) (Some 10) (Some 1) Active 1000 (1000 + PAIRING_CODE_TTL) None.
Lemma lapsed_pairing_admits_witness :
  admitted (snd (finish (lit "ABCDEFGH") 1000
    (after (snd (promote waiting (snd (find_active (lit "ABCDEFGH") 1000 Front.told))))
       [EvTime PAIRING_CODE_TTL; EvList (JObj [])]))) Front.alice = true.
Proof.
  apply (lapsed_pairing_admits Front.told (lit "ABCDEFGH") waiting (JObj []) PAIRING_CODE_TTL).
  - vm_compute. repeat constructor. by intros [].
  - vm_compute. reflexivity.
  - vm_compute. by intros [=].
Defined.

Definition env : Env :=
  {| sender_resolver := None; access_gate := Some deny_all; sender_scope_gate := Some (scope_answer Front.closed);
     channel_request_gate := None; approval_interceptor := None;
     Router.mention_gate := RouterProps.Demo.env.(mention_gate); regex := fun _ => None; uuid_text := show_z; to_rfc3339 := show_z;
     db_error_text := fun _ => lit "database"; clock_after := fun t => t + 1; dir_error := fun _ => None;
     inbound_error := fun _ => None; outbound_error := fun _ => None; staged_error := fun _ => lit "missing";
     inbox_file_error := fun _ _ => None; workspace_error := fun _ _ => None; shell_state_error := fun _ => None |}.
#[local] Existing Instance env.
Definition world : World := RouterProps.Demo.world [RouterProps.Demo.wiring 1 1 10 Mention None 0].
Definition event : InboundEvent :=
  mkEvent "telegram" "100" None (mkInboundMessage (lit "m1") Chat (RouterProps.Demo.text "hi") 0 None None) None (Some Front.alice).
Lemma stranger_held_witness : w_sessions (snd (route event world)) = w_sessions world /\ w_stores (snd (route event world)) = w_stores world.
Proof.
  destruct (stranger_held Front.closed event Front.alice world (Pending SenderUnregistered) (snd (route event world))) as (H1 & H2 & _);
    [by split | reflexivity | | | | by split].
  - vm_compute. reflexivity.
  - intros mg. vm_compute. by intros [= <-].
  - vm_compute. reflexivity.
Defined.
End Witnesses.
