(* ===== verification/Files.v ===== *)
(** What the tools that change files in a container without a shell do to the disk:
    [edit_file], [multi_edit] (but for the markers of the verification gate, which
    are in [EditTools]) and [copy_file] ([copperclaw-mcp/src/tools/edit_file.rs],
    [multi_edit.rs], [copy_file.rs]) over a file system with directories' entries,
    symbolic links, hard links and system calls that may fail.

    The entries of the directories name inodes, directories and links; [.] and
    [..] are entries.  Every system call records the disk it finds, so that a crash
    between two calls is a point of that record.  A message is a value of
    [Failure]: one constructor for each text of the source. *)
From S2P Require Import Prelude.

(** ** The disk *)

(** A directory and a name in it. *)
Abbreviation entry := (Z * rstr)%type (only parsing).
Inductive Node : Type :=
| Inode (i : Z)
| Symlink (target : rstr)
| Directory (d : Z).
(** The bytes of a file; text when they are UTF-8. *)
Inductive Content : Type :=
| Text (s : rstr)
| Binary (bytes : list Z).
Record FileData : Type := mkFile {
  fd_content : Content;
  fd_mode : Z;
}.
Record Disk : Type := mkDisk {
  dk_entries : gmap entry Node;
  dk_files : gmap Z FileData;
  dk_fresh : Z;
  dk_calls : nat;
}.
(** The disk, and every disk it was before, newest first. *)
Record Machine : Type := mkMachine {
  mc_disk : Disk;
  mc_past : list Disk;
}.
(** Why the n-th system call fails, how much of a failed write reached the file,
    the process id and clock in the name of a temporary file, the mode of a created
    file. *)
Class Kernel : Type := {
  io_error : nat -> option rstr;
  short_write : nat -> nat;
  stamp : nat -> rstr;
  create_mode : Z;
}.
Definition cwd : Z := 0.
Definition root : Z := 1.

(** Why [apply_patch] refuses a patch: what is wrong with a line of it (counted
    from 1), or where a hunk does not fit the file. *)
Inductive PatchError : Type :=
| EmptyPatch
| NoHunks
| UnexpectedLine (line : nat) (raw : rstr)
| UnknownPrefix (prefix : rchar) (line : nat)
| MissingClose (line : nat)
| MissingOldRange (line : nat)
| MissingNewRange (line : nat)
| OldRangeSign (line : nat)
| BadOldStart (line : nat) (text : rstr)
| GoesBackwards (header : rstr) (old_start : Z) (line : nat)
| PastEnd (header : rstr) (old_start : Z) (lines : nat)
| ContextDiffers (header expected : rstr) (line : nat) (found : option rstr)
| DeleteDiffers (header expected : rstr) (line : nat) (found : option rstr).

Inductive Failure : Type :=
(** [edit_file], [multi_edit]: the number of the edit when there are several. *)
| MustDiffer (edit : option nat)
| EmptyOld (edit : option nat)
| NoEdits
| TooManyEdits (n : nat)
| StatFailed (e : rstr)
| StatResolvedFailed (e : rstr)
| NotRegular
| ReadFailed (e : rstr)
| OldNotFound (edit : option nat)
| OldAmbiguous (edit : option nat) (count : nat)
| NoFileName
| TmpOpenFailed (e : rstr)
| TmpWriteFailed (e : rstr)
| TmpSyncFailed (e : rstr)
| TmpChmodFailed (e : rstr)
| RenameFailed (e : rstr)
(** [copy_file] *)
| SamePath
| SourceStatFailed (e : rstr)
| TooLarge (len : Z)
| DestinationExists
| DestinationStatFailed (e : rstr)
| ParentsFailed (e : rstr)
| CopyFailed (e : rstr)
(** A marker of the verification gate; never reported. *)
| MarkerFailed (e : rstr)
(** [apply_patch]; the worker thread may panic. *)
| Rejected (e : PatchError)
| JoinFailed.
(** [ToolError::kind]: what the caller did wrong, or what went wrong. *)
Definition kind (f : Failure) : string :=
  match f with
  | MustDiffer _ | EmptyOld _ | NoEdits | TooManyEdits _ | NotRegular | OldNotFound _ | OldAmbiguous _ _ | NoFileName
  | SamePath | SourceStatFailed _ | TooLarge _ | Rejected _ | DestinationExists => "validation"
  | _ => "internal"
  end%string.

Definition FM (A : Type) : Type := stateful Machine Failure A.

Definition ENOENT : rstr := lit "No such file or directory (os error 2)".
Definition EEXIST : rstr := lit "File exists (os error 17)".
Definition EISDIR : rstr := lit "Is a directory (os error 21)".
Definition ELOOP : rstr := lit "Too many levels of symbolic links (os error 40)".
Definition EINVAL_UTF8 : rstr := lit "stream did not contain valid UTF-8".

Definition ENOTDIR : rstr := lit "Not a directory (os error 20)".
Definition slash : rchar := 47.
Definition filled (c : rstr) : bool := match c with [] => false | _ => true end.

(** ** Paths *)

(** What the kernel walks through; a trailing slash asks for a directory. *)
Definition steps_of (path : rstr) : list rstr :=
  match path with
  | [] => []
  | _ => List.filter filled (split_char slash path)
         ++ match last (split_char slash path) with Some [] => [lit "."] | _ => [] end
  end.
Definition is_absolute (path : rstr) : bool := match path with c :: _ => c =? slash | [] => false end.
Definition start_of (dir : Z) (path : rstr) : Z := if is_absolute path then root else dir.
(** Where a path leads: the entry of its last step and what is there.  At most
    [links] symbolic links are followed, the last one when asked. *)
Fixpoint lookup_from (links : nat) (follow_last : bool) (d : Disk) : Z -> list rstr -> result rstr (entry * option Node) :=
  fix go (dir : Z) (steps : list rstr) {struct steps} : result rstr (entry * option Node) :=
    match steps with
    | [] => Err ENOENT
    | name :: rest =>
        let here := (dir, name) in
        let jump target := match links with
                           | O => Err ELOOP
                           | S l => lookup_from l follow_last d (start_of dir target) (steps_of target ++ rest)
                           end in
        match rest, dk_entries d !! here with
        | [], Some (Symlink target) => if follow_last then jump target else Ok (here, Some (Symlink target))
        | [], n => Ok (here, n)
        | _ :: _, Some (Directory x) => go x rest
        | _ :: _, Some (Symlink target) => jump target
        | _ :: _, Some (Inode _) => Err ENOTDIR
        | _ :: _, None => Err ENOENT
        end
    end.
Definition MAX_LINKS : nat := 40.
(** What a system call is given: the directory to start in and the steps. *)
Abbreviation route := (Z * list rstr)%type (only parsing).
Definition route_of (path : rstr) : route := (start_of cwd path, steps_of path).
Definition lookup (follow_last : bool) (r : route) (d : Disk) : result rstr (entry * option Node) :=
  lookup_from MAX_LINKS follow_last d (fst r) (snd r).
Definition found (follow_last : bool) (path : rstr) (d : Disk) : result rstr (entry * Node) :=
  let? p := lookup follow_last (route_of path) d in
  match snd p with Some n => Ok (fst p, n) | None => Err ENOENT end.

(** [Path::components]: empty pieces and dots are dropped, but for a leading one. *)
Definition components (path : rstr) : list rstr :=
  match split_char slash path with
  | first :: rest =>
      (match path with
       | [] => []
       | _ => match first with [] => [[slash]] | _ => [first] end
       end) ++ List.filter (fun c => filled c && negb (rstr_eqb c (lit "."))) rest
  | [] => []
  end.
Definition same_components (a b : rstr) : bool := bool_decide (components a = components b).
(** [Path::file_name]. *)
Definition file_name (path : rstr) : option rstr :=
  match rev (components path) with
  | c :: _ => if rstr_eqb c (lit "..") || rstr_eqb c (lit ".") || rstr_eqb c [slash] then None else Some c
  | [] => None
  end.
(** [parent.join(name)], where an empty parent is [.]. *)
Definition sibling (path name : rstr) : route :=
  (start_of cwd path,
   (match removelast (components path) with
    | [] => [lit "."]
    | parent => List.filter (fun c => negb (rstr_eqb c [slash])) parent
    end) ++ [name]).

Section Calls.
Context `{Kernel}.
Implicit Types (d : Disk) (m : Machine).

Definition count_call d : Disk := mkDisk (dk_entries d) (dk_files d) (dk_fresh d) (S (dk_calls d)).
Definition set_entries (x : gmap entry Node) d : Disk := mkDisk x (dk_files d) (dk_fresh d) (dk_calls d).
Definition set_files (x : gmap Z FileData) d : Disk := mkDisk (dk_entries d) x (dk_fresh d) (dk_calls d).
Definition fresh_inode d : Disk := mkDisk (dk_entries d) (dk_files d) (dk_fresh d + 1) (dk_calls d).
Definition step_to d m : Machine := mkMachine d (mc_disk m :: mc_past m).

(** One system call: it fails with the oracle's error, or with its own, or acts. *)
Definition syscall {A} (fault : rstr -> Failure) (act : Disk -> result rstr (A * Disk)) : FM A :=
  fun m =>
    let d := mc_disk m in
    match io_error (dk_calls d) with
    | Some e => (Err (fault e), step_to (count_call d) m)
    | None =>
        match act (count_call d) with
        | Ok (a, d') => (Ok a, step_to d' m)
        | Err e => (Err (fault e), step_to (count_call d) m)
        end
    end.
Definition query {A} (f : Disk -> result rstr A) d : result rstr (A * Disk) :=
  let? a := f d in Ok (a, d).

(** ** Looking at files *)

Record Metadata : Type := mkMetadata {
  md_is_file : bool;
  md_is_symlink : bool;
  md_mode : Z;
  md_len : Z;
}.
Definition content_len (c : Content) : Z :=
  match c with Text s => byte_len s | Binary bytes => Z.of_nat (length bytes) end.
Definition meta_of (n : Node) d : Metadata :=
  match n with
  | Inode i =>
      match dk_files d !! i with
      | Some f => mkMetadata true false (fd_mode f) (content_len (fd_content f))
      | None => mkMetadata true false 0 0
      end
  | Symlink target => mkMetadata false true 511 (byte_len target)
  | Directory _ => mkMetadata false false 493 0
  end.
Definition symlink_metadata (path : rstr) d : result rstr Metadata :=
  let? p := found false path d in Ok (meta_of (snd p) d).
Definition metadata (path : rstr) d : result rstr Metadata :=
  let? p := found true path d in Ok (meta_of (snd p) d).
Definition read_to_string (path : rstr) d : result rstr rstr :=
  let? p := found true path d in
  match snd p with
  | Inode i =>
      match dk_files d !! i with
      | Some (mkFile (Text s) _) => Ok s
      | Some (mkFile (Binary _) _) => Err EINVAL_UTF8
      | None => Err ENOENT
      end
  | Symlink _ => Err ELOOP
  | Directory _ => Err EISDIR
  end.

(** The common start of the editing tools: only a regular file, through a link or
    not. *)
Definition regular_file (path : rstr) : FM Metadata :=
  let! lmeta := syscall StatFailed (query (symlink_metadata path)) in
  let! meta := (if md_is_symlink lmeta then syscall StatResolvedFailed (query (metadata path)) else ret lmeta) in
  if md_is_file meta then ret meta else fail NotRegular.

(** ** Changing files *)

Definition create_new (r : route) d : result rstr (Z * Disk) :=
  let? p := lookup false r d in
  match snd p with
  | Some _ => Err EEXIST
  | None =>
      let i := dk_fresh d in
      Ok (i, fresh_inode (set_files (<[i := mkFile (Text []) create_mode]> (dk_files d))
                            (set_entries (<[fst p := Inode i]> (dk_entries d)) d)))
  end.
Definition put_content (i : Z) (c : Content) d : Disk :=
  set_files (alter (fun f => mkFile c (fd_mode f)) i (dk_files d)) d.
Definition put_mode (i : Z) (mode : Z) d : Disk :=
  set_files (alter (fun f => mkFile (fd_content f) mode) i (dk_files d)) d.
(** A write that fails leaves a part of the bytes. *)
Definition write_all (i : Z) (s : rstr) : FM unit :=
  fun m =>
    let d := mc_disk m in
    match io_error (dk_calls d) with
    | Some e =>
        (Err (TmpWriteFailed e), step_to (put_content i (Text (take (short_write (dk_calls d)) s)) (count_call d)) m)
    | None => (Ok tt, step_to (put_content i (Text s) (count_call d)) m)
    end.
Definition sync_all : FM unit := syscall TmpSyncFailed (fun d => Ok (tt, d)).
Definition set_permissions (i : Z) (mode : Z) : FM unit :=
  syscall TmpChmodFailed (fun d => Ok (tt, put_mode i mode d)).
(** [rename] acts on the entries: a symbolic link at the target is replaced. *)
Definition rename (from to : route) d : result rstr (unit * Disk) :=
  let? p := lookup false from d in
  let? q := lookup false to d in
  match snd p, snd q with
  | None, _ => Err ENOENT
  | Some _, Some (Directory _) => Err EISDIR
  | Some n, _ => Ok (tt, set_entries (<[fst q := n]> (delete (fst p) (dk_entries d))) d)
  end.
Definition remove_file (r : route) d : result rstr (unit * Disk) :=
  let? p := lookup false r d in
  match snd p with
  | None => Err ENOENT
  | Some (Directory _) => Err EISDIR
  | Some _ => Ok (tt, set_entries (delete (fst p) (dk_entries d)) d)
  end.

(** [TmpGuard]: on any failure the temporary file is removed, best effort. *)
Definition guarded {A} (tmp : route) (body : FM A) : FM A :=
  fun m =>
    match body m with
    | (Ok a, m') => (Ok a, m')
    | (Err f, m') => (Err f, snd (syscall RenameFailed (remove_file tmp) m'))
    end.
Definition tmp_name (tool name stamp : rstr) : rstr :=
  lit "." ++ name ++ lit "." ++ tool ++ lit "." ++ stamp ++ lit ".tmp".
Definition atomic_write (tool path : rstr) (bytes : rstr) (orig_meta : Metadata) : FM unit :=
  match file_name path with
  | None => fail NoFileName
  | Some name =>
      let! d := gets mc_disk in
      let tmp := sibling path (tmp_name tool name (stamp (dk_calls d))) in
      guarded tmp
        (let! i := syscall TmpOpenFailed (create_new tmp) in
         write_all i bytes ;;
         sync_all ;;
         set_permissions i (md_mode orig_meta) ;;
         syscall RenameFailed (rename tmp (route_of path)))
  end.
End Calls.

(** ** Occurrences of a text *)

(** [str::matches(..).count()]: occurrences from the left that do not overlap;
    [skip] characters belong to the last one. *)
Fixpoint count_from (skip : nat) (needle hay : rstr) : nat :=
  match hay with
  | [] => 0
  | _ :: r =>
      match skip with
      | S k => count_from k needle r
      | O => if starts_with needle hay then S (count_from (pred (length needle)) needle r) else count_from 0 needle r
      end
  end.
Definition match_count (needle hay : rstr) : nat := count_from 0 needle hay.
(** [str::replace]. *)
Fixpoint replace_from (skip : nat) (needle new hay : rstr) : rstr :=
  match hay with
  | [] => []
  | c :: r =>
      match skip with
      | S k => replace_from k needle new r
      | O => if starts_with needle hay then new ++ replace_from (pred (length needle)) needle new r
             else c :: replace_from 0 needle new r
      end
  end.
Definition replace (needle new hay : rstr) : rstr := replace_from 0 needle new hay.
(** [str::replacen(.., 1)]. *)
Definition replace_first (needle new hay : rstr) : rstr :=
  match str_find needle hay with
  | Some n => take n hay ++ new ++ drop (n + length needle) hay
  | None => hay
  end.

(** ** The tools *)

Record EditSpec : Type := mkEdit {
  es_old_string : rstr;
  es_new_string : rstr;
  es_replace_all : bool;
}.
(** One replacement in a text: the new text and the number of replacements. *)
Definition replace_in (edit : option nat) (s : EditSpec) (current : rstr) : result Failure (rstr * nat) :=
  let count := match_count (es_old_string s) current in
  if (count =? 0)%nat then Err (OldNotFound edit)
  else if negb (es_replace_all s) && (1 <? count)%nat then Err (OldAmbiguous edit count)
  else if es_replace_all s then Ok (replace (es_old_string s) (es_new_string s) current, count)
  else Ok (replace_first (es_old_string s) (es_new_string s) current, 1%nat).
Record EditOutcome : Type := mkOutcome {
  eo_path : rstr;
  eo_replacements : nat;
  eo_before : rstr;
  eo_after : rstr;
}.
Definition bytes_written (o : EditOutcome) : Z := byte_len (eo_after o).

Section Tools.
Context `{Kernel}.

Definition do_edit (path : rstr) (s : EditSpec) : FM EditOutcome :=
  let! meta := regular_file path in
  let! original := syscall ReadFailed (query (read_to_string path)) in
  let! '(new_content, replacements) := lift (replace_in None s original) in
  atomic_write (lit "edit_file") path new_content meta ;;
  ret (mkOutcome path replacements original new_content).
(** The handler's checks and the work of its thread; what the handler does after
    them is in [EditTools]. *)
Definition edit_on_disk (path : rstr) (s : EditSpec) : FM EditOutcome :=
  if rstr_eqb (es_old_string s) (es_new_string s) then fail (MustDiffer None)
  else match es_old_string s with
       | [] => fail (EmptyOld None)
       | _ => do_edit path s
       end.

Definition MAX_EDITS : nat := 50.
(** [for (i, e) in edits.iter().enumerate()]: the checks before any edit. *)
Fixpoint check_edits (i : nat) (edits : list EditSpec) : result Failure unit :=
  match edits with
  | [] => Ok tt
  | e :: rest =>
      match es_old_string e with
      | [] => Err (EmptyOld (Some i))
      | _ => if rstr_eqb (es_old_string e) (es_new_string e) then Err (MustDiffer (Some i))
             else check_edits (S i) rest
      end
  end.
Fixpoint apply_edits (i : nat) (edits : list EditSpec) (current : rstr) (total : nat) : result Failure (rstr * nat) :=
  match edits with
  | [] => Ok (current, total)
  | e :: rest =>
      let? '(current', n) := replace_in (Some i) e current in
      apply_edits (S i) rest current' (total + n)
  end.
Definition do_multi_edit (path : rstr) (edits : list EditSpec) : FM EditOutcome :=
  let! meta := regular_file path in
  let! original := syscall ReadFailed (query (read_to_string path)) in
  let! '(current, total) := lift (apply_edits 0 edits original 0) in
  atomic_write (lit "multi_edit") path current meta ;;
  ret (mkOutcome path total original current).
Definition multi_edit_on_disk (path : rstr) (edits : list EditSpec) : FM EditOutcome :=
  match edits with
  | [] => fail NoEdits
  | _ =>
      if (MAX_EDITS <? length edits)%nat then fail (TooManyEdits (length edits))
      else lift (check_edits 0 edits) ;; do_multi_edit path edits
  end.

(** [std::fs::copy]: the source is opened and looked at, the destination is
    created or emptied, then the bytes are moved from file to file. *)
Definition COPY_FILE_MAX_BYTES : Z := 32 * 1024 * 1024.
Definition open_source (path : rstr) (d : Disk) : result rstr (Z * Disk) :=
  let? p := found true path d in
  match snd p with
  | Inode i => Ok (i, d)
  | Symlink _ => Err ELOOP
  | Directory _ => Err EISDIR
  end.
(** [O_CREAT | O_TRUNC], through links; a link to nothing creates its target. *)
Definition open_truncated (r : route) (d : Disk) : result rstr (Z * Disk) :=
  let? p := lookup true r d in
  match snd p with
  | Some (Inode i) => Ok (i, put_content i (Text []) d)
  | Some (Directory _) => Err EISDIR
  | Some (Symlink _) => Err ELOOP
  | None =>
      let i := dk_fresh d in
      Ok (i, fresh_inode (set_files (<[i := mkFile (Text []) create_mode]> (dk_files d))
                            (set_entries (<[fst p := Inode i]> (dk_entries d)) d)))
  end.
Definition transfer (from to : Z) (d : Disk) : result rstr (Z * Disk) :=
  match dk_files d !! from with
  | Some f => Ok (content_len (fd_content f), put_mode to (fd_mode f) (put_content to (fd_content f) d))
  | None => Err ENOENT
  end.
Definition fs_copy (src dst : rstr) : FM Z :=
  let! from := syscall CopyFailed (open_source src) in
  let! to := syscall CopyFailed (open_truncated (route_of dst)) in
  syscall CopyFailed (transfer from to).
Definition mkdir (r : route) (d : Disk) : result rstr (unit * Disk) :=
  let? p := lookup false r d in
  match snd p with
  | Some _ => Err EEXIST
  | None =>
      let x := dk_fresh d in
      Ok (tt, fresh_inode (set_entries
        (<[(x, lit ".") := Directory x]> (<[(x, lit "..") := Directory (fst (fst p))]>
           (<[fst p := Directory x]> (dk_entries d)))) d))
  end.
Definition is_dir (r : route) (d : Disk) : bool :=
  match lookup true r d with Ok (_, Some (Directory _)) => true | _ => false end.
(** [Path::is_dir]: false when the call fails. *)
Definition stat_dir (r : route) : FM bool :=
  let! here := catch (syscall ParentsFailed (query (fun d => Ok (is_dir r d)))) in
  ret (match here with Ok b => b | Err _ => false end).
Definition mkdir_or_there (r : route) (missing : FM unit) : FM unit :=
  let! made := catch (syscall ParentsFailed (mkdir r)) in
  match made with
  | Ok _ => ret tt
  | Err (ParentsFailed e) =>
      if rstr_eqb e ENOENT then missing
      else let! there := stat_dir r in if there then ret tt else fail (ParentsFailed e)
  | Err f => fail f
  end.
(** [create_dir_all] of a path, given with its last step first: a directory whose
    parent is missing is made after its parent. *)
Fixpoint create_dir_all (start : Z) (back : list rstr) : FM unit :=
  match back with
  | [] => ret tt
  | _ :: parent =>
      let here := (start, rev back) in
      mkdir_or_there here
        (create_dir_all start parent ;;
         mkdir_or_there here
           (let! there := stat_dir here in if there then ret tt else fail (ParentsFailed ENOENT)))
  end.
Definition plain_steps (parts : list rstr) : list rstr := List.filter (fun c => negb (rstr_eqb c [slash])) parts.
Definition create_parent_dirs (path : rstr) : FM unit :=
  create_dir_all (start_of cwd path) (rev (plain_steps (removelast (components path)))).
Definition copy_file (src dst : rstr) (create_parents overwrite : bool) : FM Z :=
  if same_components src dst || rstr_eqb src dst then fail SamePath
  else
    let! src_meta := syscall SourceStatFailed (query (symlink_metadata src)) in
    if negb (md_is_file src_meta) then fail NotRegular
    else if COPY_FILE_MAX_BYTES <? md_len src_meta then fail (TooLarge (md_len src_meta))
    else
      let! dst_meta := catch (syscall DestinationStatFailed (query (symlink_metadata dst))) in
      match dst_meta with
      | Ok _ => if overwrite then ret tt else fail DestinationExists
      | Err (DestinationStatFailed e) => if rstr_eqb e ENOENT then ret tt else fail (DestinationStatFailed e)
      | Err f => fail f
      end ;;
      (if create_parents then create_parent_dirs dst else ret tt) ;;
      fs_copy src dst.
End Tools.
