(* ===== verification/Patch.v ===== *)
(** [apply_patch] up to the write of the file ([copperclaw-mcp/src/tools/apply_patch.rs]): the hunks of a
    unified diff, read line by line, and their application to a file of text.

    Lines of the patch are counted from 1 in the errors.  A line in a hunk whose
    first character is longer than a byte makes the worker thread panic: the
    failure is then [JoinFailed]. *)
From S2P Require Import Prelude Files.

Inductive HunkLine : Type :=
| ContextLine (s : rstr)
| DeleteLine (s : rstr)
| AddLine (s : rstr).
Record Hunk : Type := mkHunk {
  hk_header : rstr;
  hk_old_start : Z;
  hk_lines : list HunkLine;
}.
Record ApplyOutcome : Type := mkApplied {
  ao_path : rstr;
  ao_hunks_applied : nat;
  ao_lines_added : nat;
  ao_lines_removed : nat;
  ao_before : rstr;
  ao_after : rstr;
}.

(** ** Reading a patch *)

Definition usize_max : Z := u64_max.
Definition at_sign : rstr := lit "@@".
(** [ -OLDSTART,OLDLEN +NEWSTART,NEWLEN @@]: only the first number counts. *)
Definition parse_hunk_header (rest : rstr) (idx : nat) : result Failure Z :=
  let line := S idx in
  let body := trim_start rest in
  match str_find at_sign body with
  | None => Err (Rejected (MissingClose line))
  | Some close =>
      match split_ascii_whitespace (trim (take close body)) with
      | [] => Err (Rejected (MissingOldRange line))
      | [_] => Err (Rejected (MissingNewRange line))
      | old :: _ :: _ =>
          match strip_prefix (lit "-") old with
          | None => Err (Rejected (OldRangeSign line))
          | Some old_rest =>
              let old_start_str := hd old_rest (split_char (chr ",") old_rest) in
              match parse_uint usize_max old_start_str with
              | None => Err (Rejected (BadOldStart line old_start_str))
              | Some old_start => Ok old_start
              end
          end
      end
  end.

(** The hunks read so far, newest first, and the one being read. *)
Record Reader : Type := mkReader {
  rd_hunks : list Hunk;
  rd_current : option Hunk;
}.
Definition stash (r : Reader) : list Hunk :=
  match rd_current r with Some h => h :: rd_hunks r | None => rd_hunks r end.
Definition push_line (h : Hunk) (l : HunkLine) : Hunk := mkHunk (hk_header h) (hk_old_start h) (hk_lines h ++ [l]).
(** Lines between hunks that say nothing. *)
Definition noise (raw : rstr) : bool :=
  match raw with
  | [] => true
  | _ => starts_with (lit "diff ") raw || starts_with (lit "index ") raw || starts_with (lit "Binary ") raw
         || starts_with (lit "\ ") raw
  end.
Definition read_line (idx : nat) (raw : rstr) (r : Reader) : result Failure Reader :=
  if (starts_with (lit "--- ") raw || starts_with (lit "+++ ") raw)
     && match rd_current r with None => true | Some _ => false end
  then Ok r
  else match strip_prefix at_sign raw with
  | Some rest =>
      let? old_start := parse_hunk_header rest idx in
      Ok (mkReader (stash r) (Some (mkHunk raw old_start [])))
  | None =>
      match rd_current r with
      | None => if noise raw then Ok r else Err (Rejected (UnexpectedLine (S idx) raw))
      | Some hunk =>
          let push l := Ok (mkReader (rd_hunks r) (Some (push_line hunk l))) in
          if starts_with (lit "\ ") raw then Ok r
          else match raw with
               | [] => push (ContextLine [])
               | c :: payload =>
                   if 128 <=? c then Err JoinFailed
                   else if c =? chr " " then push (ContextLine payload)
                   else if c =? chr "-" then push (DeleteLine payload)
                   else if c =? chr "+" then push (AddLine payload)
                   else Err (Rejected (UnknownPrefix c (S idx)))
               end
      end
  end.
Fixpoint read_lines (idx : nat) (lines : list rstr) (r : Reader) : result Failure Reader :=
  match lines with
  | [] => Ok r
  | raw :: rest => let? r' := read_line idx raw r in read_lines (S idx) rest r'
  end.
Definition parse_patch (patch : rstr) : result Failure (list Hunk) :=
  let? r := read_lines 0 (str_lines patch) (mkReader [] None) in
  match rev (stash r) with
  | [] => Err (Rejected NoHunks)
  | hunks => Ok hunks
  end.

(** ** Applying it *)

Definition ends_with_newline (s : rstr) : bool :=
  match last s with Some c => c =? newline | None => false end.
Definition file_lines (original : rstr) : list rstr :=
  match original with
  | [] => []
  | _ => if ends_with_newline original then removelast (split_char newline original) else split_char newline original
  end.
Record Progress : Type := mkProgress {
  pg_cursor : nat;
  pg_out : list rstr;
  pg_added : nat;
  pg_removed : nat;
}.
(** One line of a hunk against the line at the cursor. *)
Definition apply_line (header : rstr) (src : list rstr) (l : HunkLine) (p : Progress) : result Failure Progress :=
  let line := S (pg_cursor p) in
  match l with
  | ContextLine expected =>
      match src !! pg_cursor p with
      | None => Err (Rejected (ContextDiffers header expected line None))
      | Some actual =>
          if rstr_eqb actual expected
          then Ok (mkProgress (S (pg_cursor p)) (pg_out p ++ [expected]) (pg_added p) (pg_removed p))
          else Err (Rejected (ContextDiffers header expected line (Some actual)))
      end
  | DeleteLine expected =>
      match src !! pg_cursor p with
      | None => Err (Rejected (DeleteDiffers header expected line None))
      | Some actual =>
          if rstr_eqb actual expected
          then Ok (mkProgress (S (pg_cursor p)) (pg_out p) (pg_added p) (S (pg_removed p)))
          else Err (Rejected (DeleteDiffers header expected line (Some actual)))
      end
  | AddLine payload => Ok (mkProgress (pg_cursor p) (pg_out p ++ [payload]) (S (pg_added p)) (pg_removed p))
  end.
Fixpoint apply_lines (header : rstr) (src : list rstr) (ls : list HunkLine) (p : Progress) : result Failure Progress :=
  match ls with
  | [] => Ok p
  | l :: rest => let? p' := apply_line header src l p in apply_lines header src rest p'
  end.
(** The lines up to the start of the hunk are copied, then its lines are walked. *)
Definition apply_hunk (src : list rstr) (h : Hunk) (p : Progress) : result Failure Progress :=
  let target := Z.max 0 (hk_old_start h - 1) in
  if target <? Z.of_nat (pg_cursor p)
  then Err (Rejected (GoesBackwards (hk_header h) (hk_old_start h) (S (pg_cursor p))))
  else if Z.of_nat (length src) <? target
  then Err (Rejected (PastEnd (hk_header h) (hk_old_start h) (length src)))
  else
    let target_idx := Z.to_nat target in
    apply_lines (hk_header h) src (hk_lines h)
      (mkProgress target_idx (pg_out p ++ take (target_idx - pg_cursor p) (drop (pg_cursor p) src))
         (pg_added p) (pg_removed p)).
Fixpoint apply_hunks (src : list rstr) (hunks : list Hunk) (p : Progress) : result Failure Progress :=
  match hunks with
  | [] => Ok p
  | h :: rest => let? p' := apply_hunk src h p in apply_hunks src rest p'
  end.
(** The new text, and the lines added and removed. *)
Definition patched (hunks : list Hunk) (original : rstr) : result Failure (rstr * (nat * nat)) :=
  let src_lines := file_lines original in
  let? p := apply_hunks src_lines hunks (mkProgress 0 [] 0 0) in
  let new_content := join newline (pg_out p ++ drop (pg_cursor p) src_lines) in
  Ok (if ends_with_newline original then new_content ++ [newline] else new_content, (pg_added p, pg_removed p)).

Section Apply.
Context `{Kernel}.

Definition do_apply (path patch : rstr) : FM ApplyOutcome :=
  let! hunks := lift (parse_patch patch) in
  let! meta := regular_file path in
  let! original := syscall ReadFailed (query (read_to_string path)) in
  let! '(new_content, (lines_added, lines_removed)) := lift (patched hunks original) in
  atomic_write (lit "apply_patch") path new_content meta ;;
  ret (mkApplied path (length hunks) lines_added lines_removed original new_content).
(** The handler up to the write; the rest is in [EditTools]. *)
Definition patch_on_disk (path patch : rstr) : FM ApplyOutcome :=
  match patch with
  | [] => fail (Rejected EmptyPatch)
  | _ => do_apply path patch
  end.
End Apply.
