(* ===== verification/FilesProps.v ===== *)
(** What the editing tools do to a disk, whatever fails: an edit replaces one text
    by another without a moment at which the file is something else, and a link is
    replaced by a file. *)
From S2P Require Import Prelude Files Patch.

Section Lookups.
Implicit Types (d : Disk).

(** ** Looking up a path *)

Lemma lookup_unfold links follow_last d dir name rest :
  lookup_from links follow_last d dir (name :: rest)
  = let here := (dir, name) in
    let jump target := match links with
                       | O => Err ELOOP
                       | S l => lookup_from l follow_last d (start_of dir target) (steps_of target ++ rest)
                       end in
    match rest, dk_entries d !! here with
    | [], Some (Symlink target) => if follow_last then jump target else Ok (here, Some (Symlink target))
    | [], n => Ok (here, n)
    | _ :: _, Some (Directory x) => lookup_from links follow_last d x rest
    | _ :: _, Some (Symlink target) => jump target
    | _ :: _, Some (Inode _) => Err ENOTDIR
    | _ :: _, None => Err ENOENT
    end.
Proof. by destruct links. Qed.
Lemma lookup_nil links follow_last d dir : lookup_from links follow_last d dir [] = Err ENOENT.
Proof. by destruct links. Qed.

(** Two disks that agree but for files that are there or not. *)
Definition flat (n : option Node) : Prop := n = None \/ exists i, n = Some (Inode i).
Definition alike (a b : option Node) : Prop := a = b \/ (flat a /\ flat b).
Lemma alike_sym a b : alike a b -> alike b a.
Proof. unfold alike. intuition congruence. Qed.
Lemma lookup_alike d d' links follow_last dir steps e n :
  (forall k, alike (dk_entries d !! k) (dk_entries d' !! k)) ->
  lookup_from links follow_last d dir steps = Ok (e, n) ->
  lookup_from links follow_last d' dir steps = Ok (e, dk_entries d' !! e) /\ n = dk_entries d !! e.
Proof.
  intros Ha. revert dir steps. induction links as [|l IHl].
  all: intros dir steps; revert dir; induction steps as [|name rest IH]; intros dir; [by rewrite lookup_nil|].
  all: rewrite !lookup_unfold; cbv zeta; specialize (Ha (dir, name)).
  all: destruct rest as [|name' rest'].
  all: destruct Ha as [Hs | [[Ei|[i Ei]] [Ej|[j Ej]]]]; [|rewrite ?Ei, ?Ej; try done; intros [= <- <-]; by rewrite ?Ei, ?Ej ..].
  all: rewrite <- Hs; destruct (dk_entries d !! (dir, name)) as [[i|t|x]|] eqn:E; try done; try apply IH.
  all: cbv beta iota; try destruct follow_last; try done; try (intros [= <- <-]; by rewrite <- Hs).
  all: apply IHl.
Qed.
Lemma lookup_here d links dir steps e n :
  lookup_from links false d dir steps = Ok (e, n) -> n = dk_entries d !! e /\ last steps = Some (snd e).
Proof.
  revert dir steps. induction links as [|l IHl].
  all: intros dir steps; revert dir; induction steps as [|name rest IH]; intros dir; [by rewrite lookup_nil|].
  all: rewrite !lookup_unfold; cbv zeta beta; destruct rest as [|name' rest'].
  all: destruct (dk_entries d !! (dir, name)) as [[i|t|x]|] eqn:E; try done; try (intros [= <- <-]; by split; [rewrite E|]).
  all: try (intros Hl; apply IH in Hl as [-> Hlast]; by split).
  all: intros Hl; apply IHl in Hl as [-> Hlast]; by rewrite last_app_cons in Hlast.
Qed.
(** A new file does not change where other paths lead. *)
Lemma lookup_add d d' links follow_last dir steps e n k i :
  dk_entries d !! k = None -> dk_entries d' = <[k := Inode i]> (dk_entries d) ->
  lookup_from links follow_last d dir steps = Ok (e, n) ->
  lookup_from links follow_last d' dir steps = Ok (e, dk_entries d' !! e).
Proof.
  intros Hk Hd. revert dir steps. induction links as [|l IHl].
  all: intros dir steps; revert dir; induction steps as [|name rest IH]; intros dir; [by rewrite lookup_nil|].
  all: rewrite !lookup_unfold; cbv zeta beta; destruct (decide ((dir, name) = k)) as [<- | Hne].
  all: try (rewrite Hk, Hd, lookup_insert_eq; destruct rest; [intros [= <- <-]; by rewrite lookup_insert_eq | done]).
  all: assert (dk_entries d' !! (dir, name) = dk_entries d !! (dir, name)) as Es by (by rewrite Hd, lookup_insert_ne).
  all: rewrite Es; destruct rest as [|name' rest'].
  all: destruct (dk_entries d !! (dir, name)) as [[j|t|x]|] eqn:E; try done; try apply IH.
  all: try destruct follow_last; try done; try (intros [= <- <-]; by rewrite Es).
  all: apply IHl.
Qed.
(** A path that ends at a file, or at nothing, leads there through links as well. *)
Lemma lookup_follow_flat d links dir steps e n :
  lookup_from links false d dir steps = Ok (e, n) -> flat n -> lookup_from links true d dir steps = Ok (e, n).
Proof.
  intros Hl Hn. revert dir steps Hl. induction links as [|l IHl].
  all: intros dir steps; revert dir; induction steps as [|name rest IH]; intros dir; [by rewrite lookup_nil|].
  all: rewrite !lookup_unfold; cbv zeta beta; destruct rest as [|name' rest'].
  all: destruct (dk_entries d !! (dir, name)) as [[j|t|x]|]; try done; try apply IH; try apply IHl.
  all: intros [= <- <-]; destruct Hn as [?|[? ?]]; congruence.
Qed.
Lemma lookup_follow d links dir steps e i :
  lookup_from links false d dir steps = Ok (e, Some (Inode i)) ->
  lookup_from links true d dir steps = Ok (e, Some (Inode i)).
Proof. intros Hl. apply lookup_follow_flat; [done|]. right. by exists i. Qed.
(** A path that leads somewhere has something in its last step. *)
Lemma lookup_something d links dir steps e x :
  lookup_from links true d dir steps = Ok (e, Some x) -> exists e' y, lookup_from links false d dir steps = Ok (e', Some y).
Proof.
  revert dir steps. induction links as [|l IHl].
  all: intros dir steps; revert dir; induction steps as [|name rest IH]; intros dir; [by rewrite lookup_nil|].
  all: rewrite !lookup_unfold; cbv zeta beta; destruct rest as [|name' rest'].
  all: destruct (dk_entries d !! (dir, name)) as [[j|t|z]|]; try done; try apply IH; try apply IHl.
  all: by eexists _, _.
Qed.
Lemma lookup_entries d d' links follow_last dir steps :
  dk_entries d = dk_entries d' -> lookup_from links follow_last d dir steps = lookup_from links follow_last d' dir steps.
Proof.
  intros Hd. revert dir steps. induction links as [|l IHl].
  all: intros dir steps; revert dir; induction steps as [|name rest IH]; intros dir; [by rewrite !lookup_nil|].
  all: rewrite !lookup_unfold, Hd; cbv zeta beta; destruct rest as [|name' rest'].
  all: destruct (dk_entries d' !! (dir, name)) as [[j|t|x]|]; try done; try apply IH.
  all: try destruct follow_last; try done; apply IHl.
Qed.

(** ** Names *)

Lemma last_filter {A} (p : A -> bool) (l : list A) x :
  last l = Some x -> p x = true -> last (List.filter p l) = Some x.
Proof.
  intros Hl Hx. apply last_Some in Hl as [l' ->]. rewrite List.filter_app, last_app. cbn. by rewrite Hx.
Qed.
Lemma split_on_ne p s : split_on p s <> [].
Proof. destruct s as [|c s]; cbn; [done|]. destruct (p c), (split_on p s); done. Qed.
Lemma last_steps path name :
  file_name path = Some name -> last (steps_of path) = Some name \/ last (steps_of path) = Some (lit ".").
Proof.
  unfold file_name, components, steps_of, split_char. intros Hf. destruct path as [|c path]; [done|].
  set (pieces := split_on (fun c => c =? slash) (c :: path)) in *.
  assert (pieces <> []) as Hne by apply split_on_ne. destruct (last pieces) as [q|] eqn:El.
  2: { by apply last_None in El. }
  destruct q as [|x q]; [right; by rewrite last_app|]. rewrite app_nil_r.
  rewrite (last_filter filled pieces (x :: q)) by done. destruct (rstr_eqb (x :: q) (lit ".")) eqn:Edot.
  { right. f_equal. by apply rstr_eqb_eq. }
  left. f_equal. destruct pieces as [|first rest]; [done|].
  assert (last ((match first with [] => [[slash]] | _ => [first] end)
    ++ List.filter (fun c => filled c && negb (rstr_eqb c (lit "."))) rest) = Some (x :: q)) as Hl.
  { destruct rest as [|r rest].
    - cbn in El. by simplify_eq.
    - rewrite last_app, (last_filter _ (r :: rest) (x :: q)); [done | done | by rewrite Edot]. }
  apply last_Some in Hl as [l El']. rewrite El', rev_app_distr in Hf. cbn [rev app] in Hf.
  destruct (_ || _ || _); congruence.
Qed.
Lemma tmp_name_differs tool name st : tmp_name tool name st <> name /\ tmp_name tool name st <> lit ".".
Proof.
  unfold tmp_name. split; intros E; apply (f_equal length) in E; rewrite !length_app in E; cbn in E; lia.
Qed.
End Lookups.

#[local] Opaque lookup_from.

(** ** Every disk on the way *)

(** Total description of a run: what holds after success, what after failure. *)
Definition covers {A} (P : Machine -> Prop) (m : FM A) (Q : A -> Machine -> Prop) (R : Machine -> Prop) : Prop :=
  forall w, P w -> match m w with (Ok a, w') => Q a w' | (Err _, w') => R w' end.
Lemma covers_bind {A B} P (m : FM A) Q (k : A -> FM B) T R :
  covers P m Q R -> (forall a, covers (Q a) (k a) T R) -> covers P (mbind m k) T R.
Proof.
  intros Hm Hk w Hw. specialize (Hm w Hw). unfold mbind. destruct (m w) as [[a|e] w1]; [by apply Hk | done].
Qed.
Lemma covers_ret {A} (P : Machine -> Prop) (a : A) (Q : A -> Machine -> Prop) (R : Machine -> Prop) :
  (forall w, P w -> Q a w) -> covers P (ret a) Q R.
Proof. intros H w Hw. by apply H. Qed.
Lemma covers_fail {A} (P : Machine -> Prop) f (Q : A -> Machine -> Prop) : covers P (fail f) Q P.
Proof. by intros w Hw. Qed.
Lemma covers_weaken {A} (P P' : Machine -> Prop) (m : FM A) (Q Q' : A -> Machine -> Prop) (R R' : Machine -> Prop) :
  covers P' m Q' R' -> (forall w, P w -> P' w) -> (forall a w, Q' a w -> Q a w) -> (forall w, R' w -> R w) -> covers P m Q R.
Proof.
  intros Hm HP HQ HR w Hw. specialize (Hm w (HP w Hw)). destruct (m w) as [[a|e] w1]; auto.
Qed.

Section Stages.
Context `{Kernel} (base : list Disk) (safe : Disk -> Prop).
Implicit Types (S : Disk -> Prop).

(** The disk is at stage [S], and every disk since [base] was safe. *)
Definition at_stage S (m : Machine) : Prop :=
  S (mc_disk m) /\ exists new, mc_past m = new ++ base /\ Forall safe new.
Lemma at_stage_step S S' m d' : (safe (mc_disk m)) -> at_stage S m -> S' d' -> at_stage S' (step_to d' m).
Proof.
  intros Hs [_ (new & E & Hn)] Hd. split; [done|]. exists (mc_disk m :: new). cbn. rewrite E. split; [done|]. by constructor.
Qed.
Lemma at_stage_weaken S S' m : (forall d, S d -> S' d) -> at_stage S m -> at_stage S' m.
Proof. intros Hw [Hd Hn]. split; [by apply Hw | done]. Qed.
Lemma covers_syscall {A} S (T : A -> Disk -> Prop) fault act :
  (forall d, S d -> safe d) -> (forall d, S d -> S (count_call d)) ->
  (forall d a d', S d -> act d = Ok (a, d') -> T a d') ->
  covers (at_stage S) (syscall fault act) (fun a => at_stage (T a)) (at_stage S).
Proof.
  intros Hsafe Hcount Hact m Hm. pose proof (proj1 Hm) as HS. unfold syscall. destruct (io_error _) as [e|].
  { eapply at_stage_step; [by apply Hsafe | exact Hm | by apply Hcount]. }
  destruct (act (count_call (mc_disk m))) as [[a d']|e] eqn:Ea.
  - eapply at_stage_step; [by apply Hsafe | exact Hm|]. eapply Hact; [by apply Hcount | exact Ea].
  - eapply at_stage_step; [by apply Hsafe | exact Hm | by apply Hcount].
Qed.
Lemma covers_gets {A} S (f : Machine -> A) (T : A -> Disk -> Prop) :
  (forall m, S (mc_disk m) -> T (f m) (mc_disk m)) -> covers (at_stage S) (gets f) (fun a => at_stage (T a)) (at_stage S).
Proof. intros Hf m [HS Hn]. split; [by apply Hf | exact Hn]. Qed.
End Stages.

Section AtomicWrite.
Context `{Kernel} (d0 : Disk) (base : list Disk) (path name bytes : rstr) (e : entry) (n0 : Node) (meta : Metadata) (tool : rstr).
Hypothesis (Hpath : lookup false (route_of path) d0 = Ok (e, Some n0)) (Hname : file_name path = Some name)
  (Hreg : forall x, n0 <> Directory x).

Definition tmp_like (n : rstr) : Prop := exists st, n = tmp_name tool name st.
(** Nothing but the entry itself and temporary names changed; no old file did. *)
Definition kept (d : Disk) : Prop :=
  (forall k, k <> e -> ~ tmp_like (snd k) -> dk_entries d !! k = dk_entries d0 !! k)
  /\ (forall i, i <> dk_fresh d0 -> dk_files d !! i = dk_files d0 !! i).
Definition old_version (d : Disk) : Prop := kept d /\ dk_entries d !! e = Some n0.
Definition new_version (d : Disk) : Prop :=
  dk_entries d = <[e := Inode (dk_fresh d0)]> (dk_entries d0)
  /\ dk_files d = <[dk_fresh d0 := mkFile (Text bytes) (md_mode meta)]> (dk_files d0)
  /\ dk_fresh d = dk_fresh d0 + 1.
Definition either_version (d : Disk) : Prop := old_version d \/ new_version d.

Lemma entry_not_tmp : ~ tmp_like (snd e).
Proof.
  intros (st & E). destruct (lookup_here _ _ _ _ _ _ Hpath) as [_ Hl]. cbn [route_of snd] in Hl.
  destruct (tmp_name_differs tool name st) as [H1 H2].
  destruct (last_steps path name Hname) as [E' | E']; rewrite E' in Hl; injection Hl as Hl; rewrite E in Hl; by symmetry in Hl.
Qed.
Definition untouched (d : Disk) : Prop :=
  dk_entries d = dk_entries d0 /\ dk_files d = dk_files d0 /\ dk_fresh d = dk_fresh d0.
Lemma untouched_old d : untouched d -> old_version d.
Proof.
  intros (E1 & E2 & _). split; [split; intros; by rewrite ?E1, ?E2|]. rewrite E1.
  by destruct (lookup_here _ _ _ _ _ _ Hpath) as [<- _].
Qed.
Definition with_tmp (tmp : route) (content : Content) (mode : Z) (d : Disk) : Prop :=
  exists k, lookup false tmp d0 = Ok (k, None) /\ tmp_like (snd k)
    /\ dk_entries d = <[k := Inode (dk_fresh d0)]> (dk_entries d0)
    /\ dk_files d = <[dk_fresh d0 := mkFile content mode]> (dk_files d0)
    /\ dk_fresh d = dk_fresh d0 + 1.
Lemma with_tmp_old tmp c mode d : with_tmp tmp c mode d -> old_version d.
Proof.
  intros (k & Hl & Ht & E1 & E2 & _). split; [split|].
  - intros k' _ Hk'. rewrite E1, lookup_insert_ne; [done|]. by intros ->.
  - intros i Hi. by rewrite E2, lookup_insert_ne.
  - rewrite E1, lookup_insert_ne.
    + by destruct (lookup_here _ _ _ _ _ _ Hpath) as [<- _].
    + intros ->. by apply entry_not_tmp.
Qed.
Lemma new_kept d : new_version d -> kept d.
Proof.
  intros (E1 & E2 & _). split; intros; [by rewrite E1, lookup_insert_ne | by rewrite E2, lookup_insert_ne].
Qed.

Lemma sibling_like st d k n : lookup false (sibling path (tmp_name tool name st)) d = Ok (k, n) -> tmp_like (snd k).
Proof.
  intros Hl. apply lookup_here in Hl as [_ Hl]. unfold sibling in Hl. cbn [snd] in Hl. rewrite last_snoc in Hl.
  injection Hl as Hl. by exists st.
Qed.
Lemma remove_old st d d' : old_version d -> remove_file (sibling path (tmp_name tool name st)) d = Ok (tt, d') -> old_version d'.
Proof.
  intros [[Hk Hf] He] Hr. unfold remove_file in Hr. apply rbind_Ok in Hr as ([k n] & El & Hr).
  pose proof (sibling_like _ _ _ _ El) as Ht. cbn [fst snd] in Hr.
  assert (d' = set_entries (delete k (dk_entries d)) d) as -> by (destruct n as [[]|]; congruence).
  split; [split; [|exact Hf]|].
  - intros k' H1 H2. cbn. rewrite lookup_delete_ne; [by apply Hk|]. by intros ->.
  - cbn. rewrite lookup_delete_ne; [done|]. intros ->. by apply entry_not_tmp.
Qed.
Lemma rename_done tmp c mode d d' :
  with_tmp tmp c mode d -> c = Text bytes -> mode = md_mode meta -> rename tmp (route_of path) d = Ok (tt, d') -> new_version d'.
Proof.
  intros (k & Hl & Ht & E1 & E2 & E3) -> -> Hr. unfold rename in Hr.
  pose proof (lookup_here _ _ _ _ _ _ Hl) as [Hnone _].
  assert (k <> e) as Hne by (intros ->; by apply entry_not_tmp).
  unfold lookup in *. rewrite (lookup_add d0 d _ _ _ _ _ _ _ _ (eq_sym Hnone) E1 Hl) in Hr.
  rewrite (lookup_add d0 d _ _ _ _ _ _ _ _ (eq_sym Hnone) E1 Hpath) in Hr. cbn [rbind fst snd] in Hr.
  rewrite E1, lookup_insert_eq, lookup_insert_ne in Hr by done.
  pose proof (lookup_here _ _ _ _ _ _ Hpath) as [He _]. rewrite <- He in Hr.
  assert (d' = set_entries (<[e := Inode (dk_fresh d0)]> (delete k (<[k := Inode (dk_fresh d0)]> (dk_entries d0)))) d) as ->
    by (destruct n0 as [|?|x]; [congruence | congruence | by destruct (Hreg x)]).
  split; [|by split]. cbn. by rewrite delete_insert_id.
Qed.

Abbreviation stage := (at_stage base either_version) (only parsing).
Lemma covers_stage {A} S (T : A -> Disk -> Prop) fault act :
  (forall d, S d -> either_version d) -> (forall d, S d -> S (count_call d)) ->
  (forall d a d', S d -> act d = Ok (a, d') -> T a d') ->
  covers (stage S) (syscall fault act) (fun a => stage (T a)) (stage S).
Proof. apply covers_syscall. Qed.
Lemma covers_open tmp : (forall k n, lookup false tmp d0 = Ok (k, n) -> tmp_like (snd k)) ->
  covers (stage untouched) (syscall TmpOpenFailed (create_new tmp))
    (fun i => stage (fun d => i = dk_fresh d0 /\ with_tmp tmp (Text []) create_mode d)) (stage untouched).
Proof.
  intros Ht. apply covers_stage; [intros d Hd; left; by apply untouched_old | by intros d ? |].
  intros d i d' (E1 & E2 & E3) Hc. unfold create_new in Hc. apply rbind_Ok in Hc as ([k n] & El & Hc). cbn [fst snd] in Hc.
  unfold lookup in El. rewrite (lookup_entries d d0) in El by done. fold (lookup false tmp d0) in El.
  destruct n; [done|]. injection Hc as <- <-. rewrite E3. split; [done|]. exists k. cbn. rewrite E1, E2, E3.
  repeat split; try done. by eapply Ht.
Qed.
Lemma put_content_tmp tmp c c' mode d :
  with_tmp tmp c mode d -> with_tmp tmp c' mode (put_content (dk_fresh d0) c' (count_call d)).
Proof.
  intros (k & Hl & Ht & E1 & E2 & E3). exists k. cbn. rewrite E2, alter_insert_eq, <- E1, <- E3. done.
Qed.
Lemma covers_write tmp mode :
  covers (stage (with_tmp tmp (Text []) mode)) (write_all (dk_fresh d0) bytes)
    (fun _ => stage (with_tmp tmp (Text bytes) mode)) (stage (fun d => exists c, with_tmp tmp c mode d)).
Proof.
  intros m Hm. pose proof (proj1 Hm) as Hd. unfold write_all. destruct (io_error _).
  all: eapply at_stage_step; [left; by eapply with_tmp_old | exact Hm |].
  - eexists. by eapply put_content_tmp.
  - by eapply put_content_tmp.
Qed.
Lemma covers_chmod tmp mode :
  covers (stage (with_tmp tmp (Text bytes) mode)) (set_permissions (dk_fresh d0) (md_mode meta))
    (fun _ => stage (with_tmp tmp (Text bytes) (md_mode meta))) (stage (with_tmp tmp (Text bytes) mode)).
Proof.
  apply covers_stage; [intros d Hd; left; by eapply with_tmp_old | by intros d ? |].
  intros d [] d' (k & Hl & Ht & E1 & E2 & E3) [= <-]. exists k. cbn. by rewrite E2, alter_insert_eq, <- E1, <- E3.
Qed.
Lemma covers_guarded {A} st (body : FM A) S (T : A -> Disk -> Prop) :
  covers (stage S) body (fun a => stage (T a)) (stage old_version) ->
  covers (stage S) (guarded (sibling path (tmp_name tool name st)) body) (fun a => stage (T a)) (stage old_version).
Proof.
  intros Hb m Hm. specialize (Hb m Hm). unfold guarded. destruct (body m) as [[a|f] m1]; [done|].
  assert (covers (stage old_version) (syscall RenameFailed (remove_file (sibling path (tmp_name tool name st))))
    (fun _ => stage old_version) (stage old_version)) as Hr.
  { apply covers_stage; [by left | by intros d Hd |]. intros d [] d' Hd Hrm. by eapply remove_old. }
  specialize (Hr m1 Hb). by destruct (syscall _ _ m1) as [[]].
Qed.
Lemma old_of_untouched m : stage untouched m -> stage old_version m.
Proof. apply at_stage_weaken. apply untouched_old. Qed.
Lemma old_of_tmp tmp m : stage (fun d => exists c mode, with_tmp tmp c mode d) m -> stage old_version m.
Proof. apply at_stage_weaken. intros d (c & mode & Hd). by eapply with_tmp_old. Qed.
Lemma covers_body tmp : (forall k n, lookup false tmp d0 = Ok (k, n) -> tmp_like (snd k)) ->
  covers (stage untouched)
    (let! i := syscall TmpOpenFailed (create_new tmp) in
     write_all i bytes ;; sync_all ;; set_permissions i (md_mode meta) ;; syscall RenameFailed (rename tmp (route_of path)))
    (fun _ => stage new_version) (stage old_version).
Proof.
  intros Ht. eapply covers_bind.
  { eapply covers_weaken; [by apply covers_open | done | done | apply old_of_untouched]. }
  intros i m Hm. pose proof (proj1 Hm) as [-> _].
  assert (stage (with_tmp tmp (Text []) create_mode) m) as Hm' by (eapply at_stage_weaken; [|exact Hm]; by intros d [_ Hd]).
  clear Hm. revert m Hm'. change (covers (stage (with_tmp tmp (Text []) create_mode))
    (write_all (dk_fresh d0) bytes ;; sync_all ;; set_permissions (dk_fresh d0) (md_mode meta) ;;
     syscall RenameFailed (rename tmp (route_of path))) (fun _ => stage new_version) (stage old_version)).
  eapply covers_bind; [eapply covers_weaken; [apply covers_write | done | done |]; intros m; apply at_stage_weaken; intros d [c Hd]; by eapply with_tmp_old|].
  intros []. eapply covers_bind.
  { eapply covers_weaken; [eapply (covers_stage (with_tmp tmp (Text bytes) create_mode) (fun _ => with_tmp tmp (Text bytes) create_mode)) | done | done | intros m; apply at_stage_weaken; intros d Hd; by eapply with_tmp_old].
    - intros d Hd. left. by eapply with_tmp_old.
    - by intros d Hd.
    - by intros d [] d' Hd [= <-]. }
  intros []. eapply covers_bind.
  { eapply covers_weaken; [apply covers_chmod | done | done | intros m; apply at_stage_weaken; intros d Hd; by eapply with_tmp_old]. }
  intros []. eapply covers_weaken; [eapply (covers_stage _ (fun _ => new_version)) | done | done | intros m; apply at_stage_weaken; intros d Hd; by eapply with_tmp_old].
  - intros d Hd. left. by eapply with_tmp_old.
  - by intros d Hd.
  - intros d [] d' Hd Hr. by eapply rename_done.
Qed.
Lemma atomic_write_covers :
  covers (stage untouched) (atomic_write tool path bytes meta) (fun _ => stage new_version) (stage old_version).
Proof.
  unfold atomic_write. rewrite Hname. eapply covers_bind.
  - eapply covers_weaken; [apply (covers_gets base either_version untouched mc_disk (fun _ => untouched)); done | done | done | apply old_of_untouched].
  - intros d. apply covers_guarded, covers_body. intros k n. apply sibling_like.
Qed.
End AtomicWrite.

(** ** One edit *)

Section Edits.
Context `{Kernel}.
Implicit Types (m : Machine) (d : Disk) (path : rstr).

(** The common shape of the editing tools. *)
Definition rewrite_file (tool : rstr) (plan : rstr -> result Failure (rstr * nat)) path : FM EditOutcome :=
  let! meta := regular_file path in
  let! original := syscall ReadFailed (query (read_to_string path)) in
  let! '(new_content, replacements) := lift (plan original) in
  atomic_write tool path new_content meta ;;
  ret (mkOutcome path replacements original new_content).
Lemma do_edit_shape path s : do_edit path s = rewrite_file (lit "edit_file") (replace_in None s) path.
Proof. reflexivity. Qed.
Lemma do_multi_edit_shape path edits :
  do_multi_edit path edits = rewrite_file (lit "multi_edit") (fun t => apply_edits 0 edits t 0) path.
Proof. reflexivity. Qed.

Lemma found_untouched d0 d follow_last path : untouched d0 d -> found follow_last path d = found follow_last path d0.
Proof. intros (E & _). unfold found, lookup. by rewrite (lookup_entries d d0). Qed.
Lemma reads_untouched d0 d path : untouched d0 d ->
  symlink_metadata path d = symlink_metadata path d0 /\ metadata path d = metadata path d0
  /\ read_to_string path d = read_to_string path d0.
Proof.
  intros Hu. pose proof Hu as (_ & E & _). unfold symlink_metadata, metadata, read_to_string, meta_of.
  rewrite !(found_untouched d0 d) by done. by rewrite E.
Qed.
Section Look.
Context (d0 : Disk) (base : list Disk).
Abbreviation looking := (at_stage base (untouched d0)) (only parsing).
Lemma covers_query {A} (P : Prop) fault (f : Disk -> result rstr A) :
  (forall d, untouched d0 d -> f d = f d0) ->
  covers (looking (fun d => untouched d0 d /\ P)) (syscall fault (query f))
    (fun a => looking (fun d => untouched d0 d /\ P /\ f d0 = Ok a)) (looking (fun d => untouched d0 d /\ P)).
Proof.
  intros Hf. apply covers_syscall; [by intros d [Hd _] | by intros d [Hd HP] |].
  intros d a d' [Hd HP] Hq. unfold query in Hq. rewrite (Hf d Hd) in Hq. apply rbind_Ok in Hq as (b & Eb & [= <- <-]). done.
Qed.
(** The metadata of a file that may be edited. *)
Definition editable path (meta : Metadata) : Prop :=
  exists lmeta, symlink_metadata path d0 = Ok lmeta
    /\ (if md_is_symlink lmeta then metadata path d0 = Ok meta else meta = lmeta) /\ md_is_file meta = true.
Lemma covers_regular path :
  covers (looking (untouched d0)) (regular_file path)
    (fun meta => looking (fun d => untouched d0 d /\ editable path meta)) (looking (untouched d0)).
Proof.
  assert (forall (m : Machine) (P : Prop), looking (fun d => untouched d0 d /\ P) m -> looking (untouched d0) m) as Hweak
    by (intros m P; apply at_stage_weaken; tauto).
  unfold regular_file. eapply covers_bind.
  { eapply covers_weaken; [apply (covers_query True) | | done | intros ?; apply Hweak].
    - intros d Hd. exact (proj1 (reads_untouched d0 d path Hd)).
    - intros m. by apply at_stage_weaken. }
  intros lmeta. eapply (covers_bind _ _ (fun meta => looking (fun d => untouched d0 d
      /\ exists lmeta, symlink_metadata path d0 = Ok lmeta /\ (if md_is_symlink lmeta then metadata path d0 = Ok meta else meta = lmeta)))).
  - destruct (md_is_symlink lmeta) eqn:El.
    + eapply covers_weaken; [apply (covers_query (symlink_metadata path d0 = Ok lmeta)) | | | intros ?; apply Hweak].
      * intros d Hd. exact (proj1 (proj2 (reads_untouched d0 d path Hd))).
      * intros m. apply at_stage_weaken. tauto.
      * intros meta m. apply at_stage_weaken. intros d (Hd & H1 & H2). split; [done|]. exists lmeta. by rewrite El.
    + apply covers_ret. intros m. apply at_stage_weaken. intros d (Hd & _ & H1). split; [done|]. exists lmeta. by rewrite El.
  - intros meta. destruct (md_is_file meta) eqn:Ef.
    + apply covers_ret. intros m. apply at_stage_weaken. intros d (Hd & lm & H1 & H2). split; [done|]. by exists lm.
    + intros m Hm. cbn. eapply Hweak, Hm.
Qed.
(** A run of a tool, up to the write: nothing has changed yet. *)
Lemma rewrite_cases tool plan path m :
  d0 = mc_disk m -> base = mc_past m ->
  (exists f m', rewrite_file tool plan path m = (Err f, m') /\ looking (untouched d0) m')
  \/ exists meta original new_content replacements m1,
      rewrite_file tool plan path m
      = (atomic_write tool path new_content meta ;; ret (mkOutcome path replacements original new_content)) m1
      /\ looking (untouched d0) m1 /\ editable path meta /\ read_to_string path d0 = Ok original
      /\ plan original = Ok (new_content, replacements).
Proof.
  intros Hd Hb. assert (looking (untouched d0) m) as Hm.
  { subst. split; [done|]. exists []. by split. }
  destruct (rewrite_file tool plan path m) as [r w] eqn:Er.
  unfold rewrite_file in Er. unfold mbind at 1 in Er. pose proof (covers_regular path m Hm) as H1.
  destruct (regular_file path m) as [[meta|f] m1]; [|left; injection Er as <- <-; by eexists _, _].
  assert (editable path meta) as Hed by apply H1.
  unfold mbind at 1 in Er. pose proof (covers_query (editable path meta) ReadFailed (read_to_string path)
    (fun d Hd => proj2 (proj2 (reads_untouched d0 d path Hd))) m1 H1) as H2.
  destruct (syscall _ _ m1) as [[original|f] m2].
  2: { left. injection Er as <- <-. eexists _, _. split; [reflexivity|]. by eapply at_stage_weaken; [|exact H2]; intros d []. }
  assert (read_to_string path d0 = Ok original) as Hread by apply H2.
  assert (looking (untouched d0) m2) as Hm2 by (by eapply at_stage_weaken; [|exact H2]; intros d []).
  unfold mbind at 1, lift in Er.
  destruct (plan original) as [[new_content n]|f] eqn:Ep; [|left; injection Er as <- <-; by eexists _, _].
  right. by exists meta, original, new_content, n, m2.
Qed.
End Look.

(** What a run of an editing tool may do to the disk. *)
Definition edit_report (d0 : Disk) (base : list Disk) (e : entry) (n0 : Node) (name tool : rstr) (r : result Failure EditOutcome) (m' : Machine) : Prop :=
  match r with
  | Ok o => exists meta, editable d0 (eo_path o) meta /\ read_to_string (eo_path o) d0 = Ok (eo_before o)
      /\ at_stage base (either_version d0 name (eo_after o) e n0 meta tool) (new_version d0 (eo_after o) e meta) m'
  | Err f => exists bytes meta, at_stage base (either_version d0 name bytes e n0 meta tool) (old_version d0 name e n0 tool) m'
  end.
Lemma rewrite_path tool plan path m o :
  fst (rewrite_file tool plan path m) = Ok o -> eo_path o = path.
Proof.
  intros E. destruct (rewrite_cases _ _ tool plan path m eq_refl eq_refl)
    as [(f & m' & Er & _) | (meta & t & t' & n & m1 & Er & _)]; rewrite Er in E; [done|].
  unfold mbind in E. destruct (atomic_write _ _ _ _ m1) as [[]]; [|done]. by injection E as <-.
Qed.
Lemma editable_entry d path e n0 meta : editable d path meta -> lookup false (route_of path) d = Ok (e, Some n0) ->
  forall x, n0 <> Directory x.
Proof.
  intros (lmeta & Hs & Hm & Hf) Hl x ->. unfold symlink_metadata, found in Hs. rewrite Hl in Hs. cbn in Hs.
  injection Hs as <-. cbn in Hm. by subst meta.
Qed.
Lemma stage_safer base (P Q S : Disk -> Prop) m : (forall d, P d -> Q d) -> at_stage base P S m -> at_stage base Q S m.
Proof. intros Hw (Hd & new & E & Hn). split; [done|]. exists new. split; [done|]. by eapply Forall_impl. Qed.
Lemma rewrite_report tool plan path m e n0 name :
  lookup false (route_of path) (mc_disk m) = Ok (e, Some n0) -> file_name path = Some name ->
  edit_report (mc_disk m) (mc_past m) e n0 name tool (fst (rewrite_file tool plan path m)) (snd (rewrite_file tool plan path m)).
Proof.
  intros Hl Hn. destruct (rewrite_cases (mc_disk m) (mc_past m) tool plan path m eq_refl eq_refl)
    as [(f & m' & -> & Hm) | (meta & t & t' & n & m1 & -> & Hm & Hed & Hread & _)]; cbn.
  - exists [], (mkMetadata true false 0 0). eapply at_stage_weaken; [|eapply stage_safer; [|exact Hm]].
    + intros d. by apply (untouched_old _ path).
    + intros d Hd. left. by apply (untouched_old _ path).
  - pose proof (atomic_write_covers (mc_disk m) (mc_past m) path name t' e n0 meta tool Hl Hn (editable_entry _ _ _ _ _ Hed Hl) m1) as Hw.
    assert (at_stage (mc_past m) (either_version (mc_disk m) name t' e n0 meta tool) (untouched (mc_disk m)) m1) as Hm1.
    { eapply stage_safer; [|exact Hm]. intros d Hd. left. by apply (untouched_old _ path). }
    specialize (Hw Hm1). unfold mbind. destruct (atomic_write _ _ _ _ m1) as [[[]|f] m2]; cbn.
    + exists meta. done.
    + by exists t', meta.
Qed.

(** ** A file is never torn *)

(** An editing tool at work on a path. *)
Definition patch_outcome (o : ApplyOutcome) : EditOutcome :=
  mkOutcome (ao_path o) (ao_hunks_applied o) (ao_before o) (ao_after o).
Inductive disk_edits path : FM EditOutcome -> Prop :=
| disk_edit s : disk_edits path (edit_on_disk path s)
| disk_multi edits : disk_edits path (multi_edit_on_disk path edits)
| disk_patch patch : disk_edits path (let! o := patch_on_disk path patch in ret (patch_outcome o)).
Definition text_at d (k : entry) (t : rstr) (mode : Z) : Prop :=
  exists i, dk_entries d !! k = Some (Inode i) /\ dk_files d !! i = Some (mkFile (Text t) mode).
(** The other entries are as they were, and so is every old file. *)
Definition same_elsewhere (name : rstr) (e : entry) (d0 d : Disk) : Prop :=
  (forall k, k <> e -> (forall tool st, snd k <> tmp_name tool name st) -> dk_entries d !! k = dk_entries d0 !! k)
  /\ forall i f, dk_files d0 !! i = Some f -> dk_files d !! i = Some f.
Definition intact (name : rstr) (e : entry) (n0 : Node) (t : rstr) (mode : Z) (d0 d : Disk) : Prop :=
  same_elsewhere name e d0 d /\ (dk_entries d !! e = Some n0 \/ text_at d e t mode).
Lemma kept_elsewhere d0 d name e tool : dk_files d0 !! dk_fresh d0 = None -> kept d0 name e tool d -> same_elsewhere name e d0 d.
Proof.
  intros Hf [Hk Hi]. split.
  - intros k Hne Ht. apply Hk; [done|]. intros (st & E). by apply (Ht tool st).
  - intros i f Hd. rewrite Hi; [done|]. by intros ->; rewrite Hf in Hd.
Qed.
Lemma new_text_at d0 d bytes e meta : new_version d0 bytes e meta d -> text_at d e bytes (md_mode meta).
Proof. intros (E1 & E2 & _). exists (dk_fresh d0). by rewrite E1, E2, !lookup_insert_eq. Qed.
Lemma either_intact d0 d name bytes e n0 meta tool :
  dk_files d0 !! dk_fresh d0 = None -> either_version d0 name bytes e n0 meta tool d -> intact name e n0 bytes (md_mode meta) d0 d.
Proof.
  intros Hf [[Hk He] | Hn]; split; try (by left).
  - by eapply kept_elsewhere.
  - eapply (kept_elsewhere _ _ _ _ tool), new_kept; [done | exact Hn].
  - right. by eapply new_text_at.
Qed.
Lemma untouched_intact d0 name e n0 t mode : dk_entries d0 !! e = Some n0 -> intact name e n0 t mode d0 d0.
Proof. intros He. split; [by split | by left]. Qed.
Definition patch_plan (hunks : list Hunk) (original : rstr) : result Failure (rstr * nat) :=
  let? '(new_content, _) := patched hunks original in Ok (new_content, length hunks).
Lemma do_apply_shape path patch hunks m : parse_patch patch = Ok hunks ->
  (let! o := do_apply path patch in ret (patch_outcome o)) m = rewrite_file (lit "apply_patch") (patch_plan hunks) path m.
Proof.
  intros Hp. unfold do_apply, rewrite_file, patch_plan, lift, mbind. rewrite Hp.
  destruct (regular_file path m) as [[meta|f] m1]; [|done]. destruct (syscall _ _ m1) as [[t|f] m2]; [|done].
  destruct (patched hunks t) as [[t' [a r]]|f]; [|done]. cbn. by destruct (atomic_write _ _ _ _ m2) as [[]].
Qed.
Lemma apply_patch_shape path patch m :
  (exists f, patch_on_disk path patch m = (Err f, m))
  \/ exists hunks, (let! o := patch_on_disk path patch in ret (patch_outcome o)) m
                  = rewrite_file (lit "apply_patch") (patch_plan hunks) path m.
Proof.
  unfold patch_on_disk. destruct patch as [|c patch]; [left; by eexists|].
  destruct (parse_patch (c :: patch)) as [hunks|f] eqn:Ep; [right; exists hunks; by apply do_apply_shape|].
  left. exists f. unfold do_apply, mbind, lift. by rewrite Ep.
Qed.
(** Numbers of files and directories that are given out next are free. *)
Record numbered (d : Disk) : Prop := mkNumbered {
  nb_files : forall i, dk_fresh d <= i -> dk_files d !! i = None;
  nb_entries : forall k n, dk_entries d !! k = Some n -> fst k < dk_fresh d;
}.
Lemma new_numbered d0 d bytes e n0 meta :
  numbered d0 -> dk_entries d0 !! e = Some n0 -> new_version d0 bytes e meta d -> numbered d.
Proof.
  intros [Hf He] Hn (E1 & E2 & E3). split.
  - intros i Hi. rewrite E2, lookup_insert_ne by lia. apply Hf. lia.
  - intros k n. rewrite E1, E3. destruct (decide (k = e)) as [-> | Hk]; [specialize (He _ _ Hn); lia|].
    rewrite lookup_insert_ne by done. intros Hd. specialize (He _ _ Hd). lia.
Qed.
Lemma edits_shape path run m : disk_edits path run ->
  (exists f, run m = (Err f, m)) \/ exists tool plan, run m = rewrite_file tool plan path m.
Proof.
  intros [s|edits|patch].
  - unfold edit_on_disk. destruct (rstr_eqb _ _); [left; by eexists|]. destruct (es_old_string s); [left; by eexists|].
    right. eexists _, _. by rewrite do_edit_shape.
  - unfold multi_edit_on_disk. destruct edits as [|e edits]; [left; by eexists|]. destruct (_ <? _)%nat; [left; by eexists|].
    unfold mbind at 1, lift. destruct (check_edits 0 (e :: edits)) as [[]|f]; [|left; by eexists].
    right. eexists _, _. by rewrite do_multi_edit_shape.
  - destruct (apply_patch_shape path patch m) as [(f & E) | (hunks & E)].
    + left. unfold mbind. rewrite E. by eexists.
    + right. by eexists _, _.
Qed.
Lemma disk_path path run m : disk_edits path run -> forall o, fst (run m) = Ok o -> eo_path o = path.
Proof.
  intros Hrun o Ho. destruct (edits_shape path run m Hrun) as [(f & E) | (tool & plan & E)]; rewrite E in Ho; [done|].
  by eapply rewrite_path.
Qed.
Lemma lookup_entry d path e n : lookup false (route_of path) d = Ok (e, n) -> dk_entries d !! e = n.
Proof. intros Hl. by destruct (lookup_here _ _ _ _ _ _ Hl) as [<- _]. Qed.

(** A crash at any moment of the work on the disk leaves a whole file: whatever
    system calls fail, the entry is the one it was or a file with the complete new
    text and the old mode, every other entry but temporary names is as it was, and
    so is every file that existed. *)
Lemma disk_never_torn path run m e n0 name :
  disk_edits path run ->
  lookup false (route_of path) (mc_disk m) = Ok (e, Some n0) -> file_name path = Some name ->
  numbered (mc_disk m) ->
  exists after mode new,
    mc_past (snd (run m)) = new ++ mc_past m
    /\ Forall (intact name e n0 after mode (mc_disk m)) (mc_disk (snd (run m)) :: new)
    /\ match fst (run m) with
       | Ok o => after = eo_after o /\ text_at (mc_disk (snd (run m))) e after mode
           /\ read_to_string path (mc_disk m) = Ok (eo_before o)
           /\ (exists meta, editable (mc_disk m) path meta /\ md_mode meta = mode) /\ numbered (mc_disk (snd (run m)))
       | Err _ => dk_entries (mc_disk (snd (run m))) !! e = Some n0
       end.
Proof.
  intros Hrun Hl Hn Hnum. pose proof (nb_files _ Hnum _ (Z.le_refl _)) as Hf. pose proof (lookup_entry _ _ _ _ Hl) as He.
  destruct (edits_shape path run m Hrun) as [(f & E) | (tool & plan & E)]; rewrite E.
  { exists [], 0, []. cbn. split; [done|]. split; [|done]. constructor; [|constructor]. by apply untouched_intact. }
  pose proof (rewrite_report tool plan path m e n0 name Hl Hn) as Hr.
  pose proof (rewrite_path tool plan path m) as Hp.
  destruct (rewrite_file tool plan path m) as [[o|f] m']; cbn [fst snd edit_report] in *.
  - destruct Hr as (meta & Hed & Hread & Hnew & new & Hpast & Hall). rewrite (Hp o eq_refl) in *.
    exists (eo_after o), (md_mode meta), new. split; [done|]. split; [|by repeat split; [by eapply new_text_at | | exists meta | eapply new_numbered ..]].
    constructor; [|eapply Forall_impl; [exact Hall|]; intros d Hd; by eapply either_intact].
    eapply (either_intact _ _ _ _ _ _ meta tool); [done|]. by right.
  - destruct Hr as (bytes & meta & Hold & new & Hpast & Hall). exists bytes, (md_mode meta), new.
    split; [done|]. split; [|apply Hold]. constructor; [|eapply Forall_impl; [exact Hall|]; intros d Hd; by eapply either_intact].
    eapply (either_intact _ _ _ _ _ _ meta tool); [done|]. by left.
Qed.

(** An edit through a symbolic link does not reach the file the link leads to:
    a success leaves a new file in the place of the link, and every file that
    existed has its old content. *)
Theorem edit_replaces_link path run m e target name o m' :
  disk_edits path run ->
  lookup false (route_of path) (mc_disk m) = Ok (e, Some (Symlink target)) -> file_name path = Some name ->
  dk_files (mc_disk m) !! dk_fresh (mc_disk m) = None -> run m = (Ok o, m') ->
  (exists mode, text_at (mc_disk m') e (eo_after o) mode)
  /\ (forall k, k <> e -> dk_entries (mc_disk m') !! k = dk_entries (mc_disk m) !! k)
  /\ (forall i f, dk_files (mc_disk m) !! i = Some f -> dk_files (mc_disk m') !! i = Some f).
Proof.
  intros Hrun Hl Hn Hf Er. destruct (edits_shape path run m Hrun) as [(f & E) | (tool & plan & E)]; [congruence|].
  pose proof (rewrite_report tool plan path m e _ name Hl Hn) as Hr. rewrite <- E, Er in Hr. cbn [fst snd edit_report] in Hr.
  destruct Hr as (meta & _ & _ & Hnew & _). pose proof Hnew as (E1 & E2 & _).
  split; [exists (md_mode meta); by eapply new_text_at|]. split.
  - intros k Hk. by rewrite E1, lookup_insert_ne.
  - intros i f Hi. rewrite E2, lookup_insert_ne; [done|]. intros <-. by rewrite Hf in Hi.
Qed.
End Edits.

(** ** Examples *)

(** A directory with a file, a link to it and itself as [d]; a kernel without
    faults, and one whose seventh call (the rename) fails. *)
Definition calm_kernel : Kernel := {|
  io_error := fun _ => None; short_write := fun _ => 0%nat; stamp := fun _ => lit "7.9"; create_mode := 420 |}.
Definition full_kernel : Kernel := {|
  io_error := fun n => if (n =? 6)%nat then Some (lit "No space left on device (os error 28)") else None;
  short_write := fun _ => 0%nat; stamp := fun _ => lit "7.9"; create_mode := 420 |}.
Definition example_disk : Disk :=
  mkDisk (list_to_map [((0, lit "."), Directory 0); ((0, lit "d"), Directory 0); ((0, lit "a.txt"), Inode 5);
                       ((0, lit "link"), Symlink (lit "a.txt"))])
    {[5 := mkFile (Text (lit "one two")) 493]} 6 0.
Definition example_machine : Machine := mkMachine example_disk [].
Definition example_edit : EditSpec := mkEdit (lit "two") (lit "three") false.

Lemma edit_replaces_link_witness :
  let w := @edit_on_disk calm_kernel (lit "link") example_edit example_machine in
  (exists mode, text_at (mc_disk (snd w)) (0, lit "link") (lit "one three") mode)
  /\ dk_files (mc_disk (snd w)) !! 5 = Some (mkFile (Text (lit "one two")) 493).
Proof.
  intros w. set (o := mkOutcome (lit "link") 1 (lit "one two") (lit "one three")).
  assert (fst w = Ok o) as Hw by (by vm_compute).
  assert (@edit_on_disk calm_kernel (lit "link") example_edit example_machine = (Ok o, snd w)) as E
    by (rewrite <- Hw; apply surjective_pairing).
  clearbody w. clear Hw.
  destruct (@edit_replaces_link calm_kernel (lit "link") _ example_machine (0, lit "link") (lit "a.txt") (lit "link") o (snd w)
    (@disk_edit calm_kernel (lit "link") example_edit) ltac:(by vm_compute) ltac:(by vm_compute) ltac:(by vm_compute) E)
    as (Ht & _ & Hold).
  split; [exact Ht|]. apply Hold. by vm_compute.
Defined.
