(* ===== verification/FilesEdits.v ===== *)
(** Edits of a file when no system call fails: which texts are accepted and what
    becomes of them, and a file that is copied onto itself. *)
From S2P Require Import Prelude Files FilesProps.

#[local] Opaque lookup_from.

(** ** Occurrences *)

Section Texts.
Context (needle : rstr) (Hne : needle <> []).
Implicit Types (hay : rstr).

(** The text occurs in [hay] at character [n]. *)
Definition occurs_at hay (n : nat) : Prop := starts_with needle (drop n hay) = true.
Lemma occurs_app pre post : occurs_at (pre ++ needle ++ post) (length pre).
Proof. unfold occurs_at, starts_with. by rewrite drop_app_length, strip_prefix_app. Qed.
Lemma occurs_nil n : ~ occurs_at [] n.
Proof. unfold occurs_at, starts_with. rewrite drop_nil. by destruct needle. Qed.
Lemma occurs_drop hay k n : occurs_at (drop k hay) n <-> occurs_at hay (k + n).
Proof. unfold occurs_at. by rewrite drop_drop. Qed.
Lemma count_skip k hay : count_from k needle hay = match_count needle (drop k hay).
Proof. revert k. induction hay as [|c hay IH]; intros [|k]; try done. cbn. apply IH. Qed.
Lemma count_here hay : occurs_at hay 0 -> match_count needle hay = S (match_count needle (drop (length needle) hay)).
Proof.
  intros Ho. destruct hay as [|c hay]; [by apply occurs_nil in Ho|]. unfold occurs_at in Ho. rewrite drop_0 in Ho.
  unfold match_count at 1. cbn [count_from]. rewrite Ho, count_skip. by destruct needle.
Qed.
Lemma count_later c hay : ~ occurs_at (c :: hay) 0 -> match_count needle (c :: hay) = match_count needle hay.
Proof. unfold occurs_at. rewrite drop_0. intros Ho. unfold match_count. cbn [count_from]. by destruct (starts_with _ _). Qed.
Lemma occurs_0_dec hay : occurs_at hay 0 \/ ~ occurs_at hay 0.
Proof. unfold occurs_at. destruct (starts_with _ _); auto. Qed.
Lemma count_none hay : (forall n, ~ occurs_at hay n) -> match_count needle hay = 0%nat.
Proof.
  induction hay as [|c hay IH]; intros Hn; [done|]. rewrite count_later by apply Hn. apply IH. intros n Ho. by apply (Hn (S n)).
Qed.
Lemma count_unique hay n : occurs_at hay n -> (forall k, occurs_at hay k -> k = n) ->
  match_count needle hay = 1%nat /\ str_find needle hay = Some n.
Proof.
  revert n. induction hay as [|c hay IH]; intros n Ho Hu; [by apply occurs_nil in Ho|].
  destruct (occurs_0_dec (c :: hay)) as [H0 | H0].
  - pose proof (Hu 0%nat H0) as <-. rewrite count_here by done. split.
    + rewrite count_none; [done|]. intros k Hk. apply occurs_drop in Hk. apply Hu in Hk. by destruct needle.
    + cbn. unfold occurs_at in H0. rewrite drop_0 in H0. by rewrite H0.
  - rewrite count_later by done. destruct n as [|n]; [done|]. destruct (IH n Ho) as [-> Hf].
    + intros k Hk. specialize (Hu (S k) Hk). lia.
    + split; [done|]. cbn. unfold occurs_at in H0. rewrite drop_0 in H0. destruct (starts_with _ _); [done|]. by rewrite Hf.
Qed.
Lemma count_some hay n : occurs_at hay n -> (1 <= match_count needle hay)%nat.
Proof.
  revert n. induction hay as [|c hay IH]; intros n Ho; [by apply occurs_nil in Ho|].
  destruct (occurs_0_dec (c :: hay)) as [H0 | H0]; [rewrite count_here by done; lia|].
  rewrite count_later by done. destruct n as [|n]; [done|]. by apply (IH n).
Qed.
(** Two occurrences that do not overlap are two matches. *)
Lemma count_two hay n k : occurs_at hay n -> occurs_at hay (n + length needle + k) -> (2 <= match_count needle hay)%nat.
Proof.
  revert n. induction hay as [|c hay IH]; intros n Ho Ho'; [by apply occurs_nil in Ho|].
  destruct (occurs_0_dec (c :: hay)) as [H0 | H0].
  - rewrite count_here by done. apply le_n_S, (count_some _ (n + k)), occurs_drop.
    by replace (length needle + (n + k))%nat with (n + length needle + k)%nat by lia.
  - rewrite count_later by done. destruct n as [|n]; [done|]. by apply (IH n).
Qed.
End Texts.

(** ** Edits on a quiet kernel *)

Section Quiet.
Context `{Kernel} (Hquiet : forall n, io_error n = None).
Implicit Types (m : Machine) (d : Disk).

Lemma syscall_quiet {A} fault (act : Disk -> result rstr (A * Disk)) m a d' :
  act (count_call (mc_disk m)) = Ok (a, d') -> syscall fault act m = (Ok a, step_to d' m).
Proof. intros Ha. unfold syscall. by rewrite Hquiet, Ha. Qed.
(** A text file at a path, no file waiting under a temporary name, and the next
    inodes free. *)
Record ready (path name : rstr) (e : entry) (t : rstr) (mode : Z) d : Prop := mkReady {
  rd_inode : exists i, lookup false (route_of path) d = Ok (e, Some (Inode i)) /\ dk_files d !! i = Some (mkFile (Text t) mode);
  rd_name : file_name path = Some name;
  rd_fresh : forall j, dk_fresh d <= j -> dk_files d !! j = None;
  rd_tmp : forall tool st, exists k, lookup false (sibling path (tmp_name tool name st)) d = Ok (k, None);
}.
Lemma ready_new path name e t mode d d' t' meta :
  ready path name e t mode d -> new_version d t' e meta d' -> ready path name e t' (md_mode meta) d'.
Proof.
  intros [(i & Hl & Hi) Hn Hf Ht] (E1 & E2 & E3). pose proof (lookup_entry _ _ _ _ Hl) as He.
  assert (forall k, alike (dk_entries d !! k) (dk_entries d' !! k)) as Ha.
  { intros k. rewrite E1. destruct (decide (k = e)) as [-> | Hne]; [|left; by rewrite lookup_insert_ne].
    right. rewrite He, lookup_insert_eq. split; right; by eexists. }
  split; [|exact Hn | |].
  - exists (dk_fresh d). pose proof (lookup_alike d d' _ _ _ _ _ _ Ha Hl) as [El _].
    unfold lookup. rewrite El, E1, E2, !lookup_insert_eq. done.
  - intros j Hj. rewrite E2, lookup_insert_ne by lia. apply Hf. lia.
  - intros tool st. destruct (Ht tool st) as [k Hk]. exists k.
    pose proof (lookup_alike d d' _ _ _ _ _ _ Ha Hk) as [El En]. unfold lookup. rewrite El, E1.
    rewrite lookup_insert_ne; [by rewrite <- En|]. intros <-. by rewrite He in En.
Qed.
Lemma atomic_write_quiet path name e t mode m tool bytes meta :
  ready path name e t mode (mc_disk m) -> exists m', atomic_write tool path bytes meta m = (Ok tt, m').
Proof.
  intros [(i & Hl & Hi) Hn Hf Ht]. destruct m as [d past]. cbn [mc_disk] in *.
  unfold atomic_write. rewrite Hn. unfold mbind at 1, gets. cbn [mc_disk].
  destruct (Ht tool (stamp (dk_calls d))) as [k Hk]. set (tmp := sibling path _) in *.
  assert (dk_entries d !! k = None) as Hnone by (by destruct (lookup_here _ _ _ _ _ _ Hk) as [<- _]).
  unfold guarded, mbind at 1. rewrite (syscall_quiet _ _ _ (dk_fresh d) (fresh_inode
    (set_files (<[dk_fresh d := mkFile (Text []) create_mode]> (dk_files d))
       (set_entries (<[k := Inode (dk_fresh d)]> (dk_entries d)) (count_call d))))).
  2: { unfold create_new. cbn [mc_disk]. unfold lookup in *. rewrite (lookup_entries _ d) by done. by rewrite Hk. }
  unfold mbind at 1, write_all. rewrite Hquiet. unfold mbind at 1, sync_all.
  erewrite syscall_quiet by reflexivity. unfold mbind at 1, set_permissions. erewrite syscall_quiet by reflexivity.
  erewrite syscall_quiet; [by eexists|]. unfold rename, lookup in *.
  erewrite (lookup_add d); [|exact Hnone | reflexivity | exact Hk].
  erewrite (lookup_add d); [|exact Hnone | reflexivity | exact Hl]. cbn [rbind fst snd].
  cbn. rewrite lookup_insert_eq, lookup_insert_ne.
  - rewrite (lookup_entry _ _ _ _ Hl). reflexivity.
  - intros ->. by rewrite (lookup_entry _ _ _ _ Hl) in Hnone.
Qed.
Lemma ready_untouched path name e t mode d d' : ready path name e t mode d -> untouched d d' -> ready path name e t mode d'.
Proof.
  intros [(i & Hl & Hi) Hn Hf Ht] (E1 & E2 & E3). split; [|exact Hn | |].
  - exists i. rewrite E2. unfold lookup in *. by rewrite (lookup_entries d' d).
  - intros j. rewrite E2, E3. apply Hf.
  - intros tool st. destruct (Ht tool st) as [k Hk]. exists k. unfold lookup in *. by rewrite (lookup_entries d' d).
Qed.
Lemma ready_reads path name e t mode d : ready path name e t mode d ->
  symlink_metadata path d = Ok (mkMetadata true false mode (byte_len t)) /\ read_to_string path d = Ok t.
Proof.
  intros [(i & Hl & Hi) _ _ _]. unfold symlink_metadata, read_to_string, found, lookup in *.
  rewrite (lookup_follow _ _ _ _ _ _ Hl), Hl. cbn. by rewrite Hi.
Qed.
Lemma query_quiet {A} fault (f : Disk -> result rstr A) m a :
  f (count_call (mc_disk m)) = Ok a -> syscall fault (query f) m = (Ok a, step_to (count_call (mc_disk m)) m).
Proof. intros Hf. apply syscall_quiet. unfold query. by rewrite Hf. Qed.
Lemma rewrite_quiet path name e t mode m tool plan t' n :
  ready path name e t mode (mc_disk m) -> plan t = Ok (t', n) ->
  exists m', rewrite_file tool plan path m = (Ok (mkOutcome path n t t'), m') /\ ready path name e t' mode (mc_disk m').
Proof.
  intros Hr Hp. set (d1 := count_call (mc_disk m)). set (m1 := step_to d1 m). set (m2 := step_to (count_call d1) m1).
  assert (ready path name e t mode d1) as Hr1 by (by eapply ready_untouched).
  assert (ready path name e t mode (mc_disk m2)) as Hr2 by (by eapply ready_untouched).
  set (meta := mkMetadata true false mode (byte_len t)).
  assert (regular_file path m = (Ok meta, m1)) as Hreg.
  { unfold regular_file, mbind. rewrite (query_quiet _ _ _ meta); [reflexivity|]. exact (proj1 (ready_reads _ _ _ _ _ _ Hr1)). }
  assert (syscall ReadFailed (query (read_to_string path)) m1 = (Ok t, m2)) as Hread.
  { apply query_quiet. exact (proj2 (ready_reads _ _ _ _ _ _ Hr2)). }
  destruct (atomic_write_quiet path name e t mode m2 tool t' meta Hr2) as [m3 Hw].
  assert (rewrite_file tool plan path m = (Ok (mkOutcome path n t t'), m3)) as Er.
  { clearbody m1 m2. unfold rewrite_file, mbind, lift. rewrite Hreg, Hread. cbv beta iota. rewrite Hp. cbv beta iota. by rewrite Hw. }
  exists m3. split; [done|]. destruct (rd_inode _ _ _ _ _ _ Hr) as (i & Hl & _).
  pose proof (rewrite_report tool plan path m e (Inode i) name Hl (rd_name _ _ _ _ _ _ Hr)) as Hrep. rewrite Er in Hrep.
  destruct Hrep as (meta' & (lm & Hs & Hm & _) & _ & Hnew & _). cbn [eo_path] in *.
  rewrite (proj1 (ready_reads _ _ _ _ _ _ Hr)) in Hs. injection Hs as <-. cbn in Hm. subst meta'.
  by apply (ready_new _ _ _ _ _ _ _ _ _ Hr) in Hnew.
Qed.
Lemma rewrite_quiet_err path name e t mode m tool plan f :
  ready path name e t mode (mc_disk m) -> plan t = Err f ->
  exists m', rewrite_file tool plan path m = (Err f, m') /\ ready path name e t mode (mc_disk m').
Proof.
  intros Hr Hp. set (d1 := count_call (mc_disk m)). set (m1 := step_to d1 m).
  assert (ready path name e t mode d1) as Hr1 by (by eapply ready_untouched).
  assert (ready path name e t mode (count_call d1)) as Hr2 by (by eapply ready_untouched).
  assert (regular_file path m = (Ok (mkMetadata true false mode (byte_len t)), m1)) as Hreg.
  { unfold regular_file, mbind. erewrite query_quiet; [|exact (proj1 (ready_reads _ _ _ _ _ _ Hr1))]. reflexivity. }
  exists (step_to (count_call d1) m1). split; [|exact Hr2].
  unfold rewrite_file, mbind, lift. rewrite Hreg, (query_quiet _ _ _ t); [|exact (proj2 (ready_reads _ _ _ _ _ _ Hr2))].
  cbv beta iota. by rewrite Hp.
Qed.

(** The text one edit makes of a text, if it is accepted. *)
Definition edited (s : EditSpec) (t : rstr) : option rstr :=
  if rstr_eqb (es_old_string s) (es_new_string s) then None
  else match es_old_string s with
       | [] => None
       | _ => match replace_in None s t with Ok (t', _) => Some t' | Err _ => None end
       end.
Fixpoint edited_all (edits : list EditSpec) (t : rstr) : option rstr :=
  match edits with
  | [] => Some t
  | s :: rest => match edited s t with Some t' => edited_all rest t' | None => None end
  end.
Lemma replace_in_number a b s t :
  match replace_in a s t, replace_in b s t with Ok x, Ok y => x = y | Err _, Err _ => True | _, _ => False end.
Proof. unfold replace_in. set (c := match_count _ _). by destruct (c =? 0)%nat, (es_replace_all s), (1 <? c)%nat. Qed.
(** Each tool from a ready file, against its text. *)
Definition ends_with path name e mode (t : rstr) (want : option rstr) (r : result Failure rstr * Machine) : Prop :=
  match want with
  | Some t' => fst r = Ok t' /\ ready path name e t' mode (mc_disk (snd r))
  | None => (exists f, fst r = Err f) /\ ready path name e t mode (mc_disk (snd r))
  end.
Lemma edit_file_text path name e t mode m s : ready path name e t mode (mc_disk m) ->
  ends_with path name e mode t (edited s t) ((let! o := edit_on_disk path s in ret (eo_after o)) m).
Proof.
  intros Hr. unfold edited, edit_on_disk, mbind. destruct (rstr_eqb _ _); [by split; [eexists|]|].
  destruct (es_old_string s); [by split; [eexists|]|]. rewrite do_edit_shape.
  destruct (replace_in None s t) as [[t' n]|f] eqn:Ep.
  - destruct (rewrite_quiet path name e t mode m (lit "edit_file") (replace_in None s) t' n Hr Ep) as (m' & -> & Hm). done.
  - destruct (rewrite_quiet_err path name e t mode m (lit "edit_file") (replace_in None s) f Hr Ep) as (m' & -> & Hm). by split; [eexists|].
Qed.
Lemma check_edits_Ok i edits : check_edits i edits = Ok tt ->
  Forall (fun s => es_old_string s <> [] /\ rstr_eqb (es_old_string s) (es_new_string s) = false) edits.
Proof.
  revert i. induction edits as [|s rest IH]; intros i; [constructor|]. cbn.
  destruct (es_old_string s) eqn:E; [done|]. destruct (rstr_eqb _ _) eqn:Ee; [done|]. intros Hc.
  constructor; [by rewrite E | by eapply IH].
Qed.
Lemma check_edits_Err i edits f t : check_edits i edits = Err f -> edited_all edits t = None.
Proof.
  revert i t. induction edits as [|s rest IH]; intros i t; [done|]. cbn. unfold edited.
  destruct (es_old_string s); [by destruct (rstr_eqb _ _)|]. destruct (rstr_eqb _ _); [done|]. intros Hc.
  destruct (replace_in None s t) as [[t' n]|]; [by eapply IH | done].
Qed.
Lemma apply_edits_text i edits t total :
  Forall (fun s => es_old_string s <> [] /\ rstr_eqb (es_old_string s) (es_new_string s) = false) edits ->
  match apply_edits i edits t total with Ok (t', _) => edited_all edits t = Some t' | Err _ => edited_all edits t = None end.
Proof.
  intros Hc. revert i t total. induction Hc as [|s rest [H1 H2] _ IH]; intros i t total; [done|]. cbn.
  unfold edited. rewrite H2. pose proof (replace_in_number (Some i) None s t) as Hn.
  destruct (es_old_string s); [done|]. destruct (replace_in (Some i) s t) as [[t1 n1]|], (replace_in None s t) as [[t2 n2]|]; try done.
  injection Hn as -> ->. apply IH.
Qed.
Lemma multi_edit_text path name e t mode m edits : ready path name e t mode (mc_disk m) ->
  edits <> [] -> (length edits <= MAX_EDITS)%nat ->
  ends_with path name e mode t (edited_all edits t) ((let! o := multi_edit_on_disk path edits in ret (eo_after o)) m).
Proof.
  intros Hr Hne Hlen. unfold multi_edit_on_disk. destruct edits as [|s rest]; [done|]. set (edits := s :: rest) in *.
  destruct (_ <? _)%nat eqn:El; [apply Nat.ltb_lt in El; lia|]. clear El.
  destruct (check_edits 0 edits) as [[]|f] eqn:Ec.
  2: { rewrite (check_edits_Err _ _ _ t Ec). by split; [eexists|]. }
  rewrite do_multi_edit_shape. pose proof (apply_edits_text 0 edits t 0 (check_edits_Ok _ _ Ec)) as Ha.
  destruct (apply_edits 0 edits t 0) as [[t' n]|f] eqn:Ep; rewrite Ha; unfold mbind, lift.
  - destruct (rewrite_quiet path name e t mode m (lit "multi_edit") (fun x => apply_edits 0 edits x 0) t' n Hr Ep) as (m' & -> & Hm). done.
  - destruct (rewrite_quiet_err path name e t mode m (lit "multi_edit") (fun x => apply_edits 0 edits x 0) f Hr Ep) as (m' & -> & Hm). by split; [eexists|].
Qed.

(** On a file of text and without faults, [edit_file] with a one-shot edit
    decides by the occurrences of the old string: one occurrence is replaced where
    it stands, with the mode of the file kept; none is an error, and so are two
    that do not overlap, with the file as it was. *)
Theorem edit_by_occurrence path name e t mode m s :
  ready path name e t mode (mc_disk m) ->
  es_old_string s <> [] -> es_old_string s <> es_new_string s -> es_replace_all s = false ->
  (forall pre post, t = pre ++ es_old_string s ++ post -> (forall n, occurs_at (es_old_string s) t n -> n = length pre) ->
    exists m', edit_on_disk path s m = (Ok (mkOutcome path 1 t (pre ++ es_new_string s ++ post)), m')
      /\ ready path name e (pre ++ es_new_string s ++ post) mode (mc_disk m'))
  /\ ((forall n, ~ occurs_at (es_old_string s) t n) ->
      exists m', edit_on_disk path s m = (Err (OldNotFound None), m') /\ ready path name e t mode (mc_disk m'))
  /\ (forall n k, occurs_at (es_old_string s) t n -> occurs_at (es_old_string s) t (n + length (es_old_string s) + k) ->
      exists count m', (2 <= count)%nat /\ edit_on_disk path s m = (Err (OldAmbiguous None count), m')
        /\ ready path name e t mode (mc_disk m')).
Proof.
  intros Hr Hne Hdiff Hall. assert (edit_on_disk path s = rewrite_file (lit "edit_file") (replace_in None s) path) as Es.
  { unfold edit_on_disk. destruct (rstr_eqb _ _) eqn:E; [by apply rstr_eqb_eq in E|]. by destruct (es_old_string s). }
  rewrite Es. split; [|split].
  - intros pre post Ht Hu. apply (rewrite_quiet _ _ _ _ _ _ _ _ _ _ Hr). unfold replace_in.
    destruct (count_unique _ Hne t (length pre)) as [Hc Hf]; [rewrite Ht; apply occurs_app | exact Hu|].
    rewrite Hc, Hall. cbn. unfold replace_first. rewrite Hf, Ht, take_app_length, <- length_app.
    by rewrite (app_assoc pre (es_old_string s) post), drop_app_length.
  - intros Hn. apply (rewrite_quiet_err _ _ _ _ _ _ _ _ _ Hr). unfold replace_in. by rewrite count_none.
  - intros n k Hn Hk. pose proof (count_two _ Hne _ _ _ Hn Hk) as Hc. exists (match_count (es_old_string s) t).
    destruct (rewrite_quiet_err _ _ _ _ _ _ (lit "edit_file") (replace_in None s) (OldAmbiguous None (match_count (es_old_string s) t)) Hr)
      as (m' & Hm); [|by exists m'].
    unfold replace_in. rewrite Hall. destruct (match_count _ _) as [|[|c]]; [lia | lia | done].
Qed.

(** A file that is copied onto itself is emptied: when the destination is
    another name of the source (a link, or a path spelled through another
    directory), [copy_file] with [overwrite] reports success and no bytes, and the
    file has lost its content. *)
Theorem copy_onto_itself src dst m e e' i n f :
  same_components src dst = false -> src <> dst ->
  found false src (mc_disk m) = Ok (e, Inode i) -> found false dst (mc_disk m) = Ok (e', n) ->
  found true src (mc_disk m) = Ok (e, Inode i) -> found true dst (mc_disk m) = Ok (e', Inode i) ->
  dk_files (mc_disk m) !! i = Some f -> content_len (fd_content f) <= COPY_FILE_MAX_BYTES ->
  exists m', copy_file src dst false true m = (Ok 0, m')
    /\ dk_files (mc_disk m') !! i = Some (mkFile (Text []) (fd_mode f))
    /\ dk_entries (mc_disk m') = dk_entries (mc_disk m).
Proof.
  intros Hc Hne Hs Hd Hs' Hd' Hf Hlen. destruct m as [d past]. cbn [mc_disk] in *.
  assert (forall follow path d', dk_entries d' = dk_entries d -> found follow path d' = found follow path d) as Hfound.
  { intros follow path d' E. unfold found, lookup. by rewrite (lookup_entries d' d). }
  unfold copy_file. rewrite Hc. destruct (rstr_eqb src dst) eqn:E; [by apply rstr_eqb_eq in E|]. cbn [orb].
  unfold mbind, catch. rewrite (query_quiet _ _ _ (mkMetadata true false (fd_mode f) (content_len (fd_content f)))).
  2: { unfold symlink_metadata. rewrite Hfound by done. rewrite Hs. cbn. by rewrite Hf. }
  cbn [md_is_file md_len negb]. destruct (Z.ltb_spec COPY_FILE_MAX_BYTES (content_len (fd_content f))); [lia|].
  rewrite (query_quiet _ _ _ (meta_of n d)).
  2: { unfold symlink_metadata. rewrite Hfound by done. rewrite Hd. done. }
  cbv beta iota. unfold ret, fs_copy, mbind. erewrite syscall_quiet.
  2: { unfold open_source. rewrite Hfound by done. by rewrite Hs'. }
  erewrite syscall_quiet.
  2: { unfold open_truncated. pose proof (Hfound true dst (count_call (count_call (count_call (count_call d)))) eq_refl) as Hl.
       rewrite Hd' in Hl. unfold found in Hl. cbn. destruct (lookup true (route_of dst) _) as [[k [x|]]|]; try done.
       injection Hl as _ ->. reflexivity. }
  erewrite syscall_quiet.
  2: { unfold transfer. cbn. rewrite lookup_alter_eq, Hf. reflexivity. }
  eexists. split; [reflexivity|]. split; [|done]. cbn. by rewrite !lookup_alter_eq, Hf.
Qed.
End Quiet.

(** ** Examples *)

Lemma example_ready : ready (lit "a.txt") (lit "a.txt") (0, lit "a.txt") (lit "one two") 493 example_disk.
Proof.
  split.
  - exists 5. by vm_compute.
  - by vm_compute.
  - intros j Hj. unfold example_disk in *. cbn in *. apply lookup_singleton_ne. lia.
  - intros tool st. exists (0, tmp_name tool (lit "a.txt") st).
    assert (sibling (lit "a.txt") (tmp_name tool (lit "a.txt") st) = (0, [lit "."; tmp_name tool (lit "a.txt") st])) as -> by done.
    destruct (tmp_name_differs tool (lit "a.txt") st) as [H1 H2]. unfold lookup. cbn [fst snd].
    rewrite lookup_unfold. cbv zeta. change (dk_entries example_disk !! (0, lit ".")) with (Some (Directory 0)). cbv beta iota.
    rewrite lookup_unfold. cbv zeta. set (n := tmp_name tool (lit "a.txt") st) in *.
    assert (dk_entries example_disk !! (0, n) = None) as ->; [|done].
    apply not_elem_of_list_to_map_1. cbn [fmap list_fmap fst]. rewrite !not_elem_of_cons. unfold n, tmp_name in *.
    repeat split; try congruence; try apply not_elem_of_nil; intros E; discriminate E.
Qed.
Lemma edit_by_occurrence_witness :
  exists m', @edit_on_disk calm_kernel (lit "a.txt") example_edit example_machine
             = (Ok (mkOutcome (lit "a.txt") 1 (lit "one two") (lit "one three")), m')
    /\ ready (lit "a.txt") (lit "a.txt") (0, lit "a.txt") (lit "one three") 493 (mc_disk m').
Proof.
  refine (proj1 (@edit_by_occurrence calm_kernel (fun _ => eq_refl) (lit "a.txt") (lit "a.txt") (0, lit "a.txt") (lit "one two") 493
    example_machine example_edit example_ready _ _ eq_refl) (lit "one ") [] eq_refl _); [done | done |].
  intros n Ho. destruct n as [|[|[|[|[|n]]]]]; try done; vm_compute in Ho; repeat (destruct n as [|n]; try discriminate Ho).
Defined.
Definition example_edits : list EditSpec := [example_edit; mkEdit (lit "e") (lit "E") true].
(** [a.txt] onto [d/a.txt], where [d] is the same directory. *)
Lemma copy_onto_itself_witness :
  exists m', @copy_file calm_kernel (lit "a.txt") (lit "d/a.txt") false true example_machine = (Ok 0, m')
    /\ dk_files (mc_disk m') !! 5 = Some (mkFile (Text []) 493)
    /\ dk_entries (mc_disk m') = dk_entries example_disk.
Proof.
  refine (@copy_onto_itself calm_kernel (fun _ => eq_refl) (lit "a.txt") (lit "d/a.txt") example_machine
    (0, lit "a.txt") (0, lit "a.txt") 5 (Inode 5) (mkFile (Text (lit "one two")) 493) _ _ _ _ _ _ _ _);
    by vm_compute.
Defined.
(** Occurrences that overlap are counted once: the edit is accepted though the old
    string occurs twice. *)
Example overlap_is_accepted :
  occurs_at (lit "aa") (lit "aaa") 0 /\ occurs_at (lit "aa") (lit "aaa") 1
  /\ replace_in None (mkEdit (lit "aa") (lit "b") false) (lit "aaa") = Ok (lit "ba", 1%nat).
Proof. by vm_compute. Qed.
