(* ===== verification/PatchProps.v ===== *)
(** What [apply_patch] does: a written patch is read back as its hunks, a patch
    that describes a file turns it into the file it describes, and the reversed
    patch turns it back. *)
From S2P Require Import Prelude Files Patch FilesProps FilesEdits.

(** ** Lines of a text *)

Definition one_line (l : rstr) : Prop := ~ In newline l.
Definition lines_text (ls : list rstr) : rstr := concat (map (fun l => l ++ [newline]) ls).

Lemma split_line l s : one_line l -> split_char newline (l ++ newline :: s) = l :: split_char newline s.
Proof. intros Hl. apply split_on_app; [|done]. intros c Hc. apply Z.eqb_neq. by intros ->. Qed.
Lemma split_last l : one_line l -> split_char newline l = [l].
Proof. intros Hl. apply split_on_none. intros c Hc. apply Z.eqb_neq. by intros ->. Qed.
Lemma strip_cr_id l : last l <> Some carriage_return -> strip_cr l = l.
Proof.
  intros Hl. unfold strip_cr. destruct (rev l) as [|c r] eqn:E; [done|].
  destruct (Z.eqb_spec c carriage_return) as [->|]; [|done]. destruct Hl.
  rewrite <- (rev_involutive l), E. cbn. by rewrite last_snoc.
Qed.
Lemma str_lines_text ls :
  Forall (fun l => one_line l /\ last l <> Some carriage_return) ls -> str_lines (lines_text ls) = ls.
Proof.
  unfold str_lines. intros Hls. induction Hls as [|l ls [Hl Hc] _ IH]; [done|]. cbn [lines_text map concat].
  rewrite <- app_assoc. cbn [app]. rewrite split_line by done. fold (lines_text ls).
  pose proof (split_on_ne (fun c => c =? newline) (lines_text ls)) as Hne. fold (split_char newline (lines_text ls)) in Hne.
  destruct (split_char newline (lines_text ls)) as [|q qs] eqn:E; [done|].
  change (lines_of (l :: q :: qs)) with (strip_cr l :: lines_of (q :: qs)). by rewrite strip_cr_id, IH.
Qed.

(** ** The lines of a file *)

(** A file of these lines, its last one ended or not. *)
Definition file_text (ls : list rstr) (ended : bool) : rstr := join newline ls ++ (if ended then [newline] else []).
Definition file_shape (ls : list rstr) (ended : bool) : Prop :=
  Forall one_line ls /\ if ended then ls <> [] else ls = [] \/ exists init l, ls = init ++ [l] /\ l <> [].
Lemma split_join l ls : Forall one_line (l :: ls) -> split_char newline (join newline (l :: ls)) = l :: ls.
Proof.
  revert l. induction ls as [|l' ls IH]; intros l Hl; apply Forall_cons in Hl as [Hl Hls].
  - cbn. by apply split_last.
  - change (join newline (l :: l' :: ls)) with (l ++ newline :: join newline (l' :: ls)).
    rewrite split_line by done. by rewrite IH.
Qed.
Lemma join_snoc init l : init <> [] -> join newline (init ++ [l]) = join newline init ++ newline :: l.
Proof.
  induction init as [|x [|y init] IH]; intros Hi; [done | done|].
  change (join newline ((x :: y :: init) ++ [l])) with (x ++ newline :: join newline ((y :: init) ++ [l])).
  rewrite IH by done. change (join newline (x :: y :: init)) with (x ++ newline :: join newline (y :: init)). by rewrite <- (app_assoc x).
Qed.
Lemma file_text_ended ls ended : file_shape ls ended -> ends_with_newline (file_text ls ended) = ended.
Proof.
  intros [Hall Hs]. unfold ends_with_newline, file_text. destruct ended; [by rewrite last_snoc|]. rewrite app_nil_r.
  destruct Hs as [-> | (init & l & -> & Hl)]; [done|].
  assert (last (join newline (init ++ [l])) = last l) as ->.
  { destruct init as [|x init]; [done|]. rewrite join_snoc by done. rewrite last_app_cons. by destruct l. }
  destruct (last l) as [c|] eqn:E; [|by apply last_None in E].
  apply Z.eqb_neq. intros ->. apply last_Some in E as [l' ->].
  apply Forall_app in Hall as [_ Hl']. apply Forall_inv in Hl'. apply Hl'. rewrite in_app_iff. right. by left.
Qed.
Lemma file_lines_text ls ended : file_shape ls ended -> file_lines (file_text ls ended) = ls.
Proof.
  intros Hs. pose proof (file_text_ended ls ended Hs) as He. destruct Hs as [Hall Hs].
  unfold file_lines. destruct (file_text ls ended) as [|c t] eqn:Et.
  - unfold file_text in Et. apply app_eq_nil in Et as [Et1 Et2]. destruct ended; [done|].
    destruct Hs as [-> | (init & l & -> & Hl)]; [done|]. destruct init; [by cbn in Et1|].
    rewrite join_snoc in Et1 by done. by apply app_eq_nil in Et1 as [_ ?].
  - rewrite He, <- Et. unfold file_text. destruct ls as [|l ls].
    { destruct ended; [done|]. by cbn in Et. }
    destruct ended.
    + assert (join newline (l :: ls) ++ [newline] = join newline ((l :: ls) ++ [[]])) as -> by (by rewrite join_snoc).
      change ((l :: ls) ++ [[]]) with (l :: (ls ++ [[]])). rewrite split_join.
      * change (l :: (ls ++ [[]])) with ((l :: ls) ++ [[]]). apply removelast_last.
      * apply (Forall_app _ (l :: ls)). split; [done|]. constructor; [|constructor]. intros [].
    + by rewrite app_nil_r, split_join.
Qed.

(** ** Writing a patch *)

Definition hunk_header (old_start old_len new_start new_len : Z) : rstr :=
  lit "@@ -" ++ show_z old_start ++ lit "," ++ show_z old_len
  ++ lit " +" ++ show_z new_start ++ lit "," ++ show_z new_len ++ lit " @@".
Definition line_text (l : HunkLine) : rstr :=
  match l with ContextLine s => chr " " :: s | DeleteLine s => chr "-" :: s | AddLine s => chr "+" :: s end.
Definition hunk_text (h : Hunk) : list rstr := hk_header h :: map line_text (hk_lines h).
Definition patch_text (hunks : list Hunk) : rstr := lines_text (concat (map hunk_text hunks)).

Definition payload (l : HunkLine) : rstr := match l with ContextLine s | DeleteLine s | AddLine s => s end.
(** A line that a patch can carry: no line feed in it, no carriage return after it. *)
Definition portable (s : rstr) : Prop := one_line s /\ last s <> Some carriage_return.
Definition number (n : Z) : Prop := 0 <= n <= u64_max.
Definition written (h : Hunk) : Prop :=
  Forall (fun l => portable (payload l)) (hk_lines h)
  /\ exists old_len new_start new_len, number (hk_old_start h) /\ number old_len /\ number new_start /\ number new_len
       /\ hk_header h = hunk_header (hk_old_start h) old_len new_start new_len.

(** The characters of a range: digits, comma and sign. *)
Definition range_char (c : rchar) : Prop := 43 <= c <= 57.
Lemma range_digits n : number n -> Forall range_char (show_z n).
Proof.
  intros Hn. destruct (show_z_spec n Hn) as (_ & _ & Hd). eapply Forall_impl; [exact Hd|].
  intros c Hc. cbn in Hc. unfold is_ascii_digit in Hc. unfold range_char. lia.
Qed.
Lemma range_text sign a b : range_char sign -> number a -> number b -> Forall range_char (sign :: show_z a ++ lit "," ++ show_z b).
Proof.
  intros Hs Ha Hb. constructor; [done|]. apply Forall_app. split; [by apply range_digits|].
  constructor; [by vm_compute | by apply range_digits].
Qed.
Lemma range_not_space c : range_char c -> is_whitespace c = false /\ is_ascii_whitespace c = false.
Proof. unfold range_char, is_whitespace, is_ascii_whitespace. intros Hc. split; repeat (apply orb_false_intro); lia. Qed.
Lemma find_at pre rest : Forall (fun c => c <> chr "@") pre -> str_find at_sign (pre ++ at_sign ++ rest) = Some (length pre).
Proof.
  induction pre as [|c pre IH]; intros Hp; [done|]. apply Forall_cons in Hp as [Hc Hp]. cbn [app str_find].
  assert (starts_with at_sign (c :: pre ++ at_sign ++ rest) = false) as ->; [|by rewrite IH].
  unfold starts_with, at_sign. cbn [lit strip_prefix]. destruct (Z.eqb_spec (Z.of_N (N_of_ascii "@")) c) as [<-|]; [by destruct Hc|]. done.
Qed.
Lemma runs_word cur w rest : Forall range_char w -> w <> [] \/ cur <> [] ->
  split_runs is_ascii_whitespace cur (w ++ 32 :: rest) = (rev cur ++ w) :: split_runs is_ascii_whitespace [] rest.
Proof.
  intros Hw. revert cur. induction Hw as [|c w Hc _ IH]; intros cur Hne; cbn.
  - destruct cur; [by destruct Hne|]. by rewrite app_nil_r.
  - destruct (range_not_space c Hc) as [_ ->]. rewrite IH by (by right). cbn. by rewrite <- app_assoc.
Qed.
Lemma runs_end cur w : Forall range_char w -> w <> [] \/ cur <> [] -> split_runs is_ascii_whitespace cur w = [rev cur ++ w].
Proof.
  intros Hw. revert cur. induction Hw as [|c w Hc _ IH]; intros cur Hne; cbn.
  - destruct cur; [by destruct Hne|]. by rewrite app_nil_r.
  - destruct (range_not_space c Hc) as [_ ->]. rewrite IH by (by right). cbn. by rewrite <- app_assoc.
Qed.
Lemma app_middle {A} (a b t : list A) x c : (a ++ x :: b ++ [c]) ++ t = (a ++ x :: b) ++ c :: t.
Proof. rewrite <- !app_assoc. cbn. by rewrite <- app_assoc. Qed.
Lemma parse_header os ol ns nl idx : number os -> number ol -> number ns -> number nl ->
  exists rest, strip_prefix at_sign (hunk_header os ol ns nl) = Some rest /\ parse_hunk_header rest idx = Ok os.
Proof.
  intros Hos Hol Hns Hnl. set (w1 := chr "-" :: show_z os ++ lit "," ++ show_z ol). set (w2 := chr "+" :: show_z ns ++ lit "," ++ show_z nl).
  assert (Forall range_char w1) as H1 by (by apply range_text). assert (Forall range_char w2) as H2 by (by apply range_text).
  set (body := w1 ++ 32 :: w2 ++ lit " "). exists (32 :: body ++ at_sign). split.
  { unfold hunk_header, body, w1, w2. clear. generalize (show_z os) (show_z ol) (show_z ns) (show_z nl). intros a b c d.
    cbn. by rewrite <- !app_assoc; cbn; rewrite <- !app_assoc; cbn; rewrite <- !app_assoc. }
  unfold parse_hunk_header. assert (trim_start (32 :: body ++ at_sign) = body ++ at_sign) as -> by done.
  rewrite <- (app_nil_r (body ++ at_sign)), <- app_assoc, find_at.
  2: { unfold body. apply Forall_app. split; [|constructor; [by vm_compute|]; apply Forall_app; split].
    - eapply Forall_impl; [exact H1|]. intros c Hc ->. unfold range_char in Hc. change (chr "@") with 64 in Hc. lia.
    - eapply Forall_impl; [exact H2|]. intros c Hc ->. unfold range_char in Hc. change (chr "@") with 64 in Hc. lia.
    - constructor; [by vm_compute | constructor]. }
  rewrite take_app_length. assert (trim body = w1 ++ 32 :: w2) as ->.
  { unfold trim. assert (trim_start body = body) as -> by done. unfold body. rewrite (app_comm_cons w2 (lit " ")), app_assoc.
    destruct (exists_last (l := w2)) as (w' & c & E); [done|].
    assert ((w1 ++ 32 :: w2) ++ lit " " = (w1 ++ 32 :: w') ++ c :: lit " ") as ->.
    { rewrite E. apply app_middle. }
    rewrite E in H2. apply Forall_app in H2 as [_ Hc]. apply Forall_inv in Hc.
    rewrite trim_end_app by apply range_not_space, Hc. rewrite E, <- app_assoc. done. }
  unfold split_ascii_whitespace. rewrite runs_word by (done || by left). rewrite runs_end by (done || by left). cbn [rev app].
  unfold w1. change (strip_prefix (lit "-") (chr "-" :: show_z os ++ lit "," ++ show_z ol)) with (Some (show_z os ++ lit "," ++ show_z ol)).
  cbv beta iota. unfold split_char. change (lit "," ++ show_z ol) with (chr "," :: show_z ol). rewrite split_on_app; [|intros c Hc | done].
  - cbn [hd]. by rewrite parse_uint_show by (done || apply Hos).
  - apply Z.eqb_neq. intros ->. destruct (show_z_spec os Hos) as (_ & _ & Hd).
    rewrite List.Forall_forall in Hd. specialize (Hd _ Hc). by vm_compute in Hd.
Qed.

Lemma header_head os ol ns nl : hunk_header os ol ns nl = lit "@@ -" ++ (show_z os ++ lit "," ++ show_z ol
  ++ lit " +" ++ show_z ns ++ lit "," ++ show_z nl ++ lit " @@").
Proof. reflexivity. Qed.
Lemma read_header idx h r : written h -> read_line idx (hk_header h) r = Ok (mkReader (stash r) (Some (mkHunk (hk_header h) (hk_old_start h) []))).
Proof.
  intros (_ & ol & ns & nl & Hos & Hol & Hns & Hnl & E). rewrite E.
  destruct (parse_header (hk_old_start h) ol ns nl idx Hos Hol Hns Hnl) as (rest & Hs & Hp).
  unfold read_line. rewrite Hs, Hp.
  assert (starts_with (lit "--- ") (hunk_header (hk_old_start h) ol ns nl) = false) as -> by (by rewrite header_head).
  assert (starts_with (lit "+++ ") (hunk_header (hk_old_start h) ol ns nl) = false) as -> by (by rewrite header_head). done.
Qed.
Lemma read_body idx h hs l :
  read_line idx (line_text l) (mkReader hs (Some h)) = Ok (mkReader hs (Some (push_line h l))).
Proof.
  unfold read_line. cbn [rd_current]. rewrite andb_false_r. by destruct l.
Qed.
Lemma read_bodies idx h hs ls rest :
  read_lines idx (map line_text ls ++ rest) (mkReader hs (Some h))
  = read_lines (idx + length ls) rest (mkReader hs (Some (mkHunk (hk_header h) (hk_old_start h) (hk_lines h ++ ls)))).
Proof.
  revert idx h. induction ls as [|l ls IH]; intros idx h; cbn [map app length].
  - rewrite Nat.add_0_r, app_nil_r. by destruct h.
  - cbn [read_lines]. rewrite read_body. cbn [rbind]. rewrite IH. cbn [hk_header hk_old_start hk_lines push_line].
    rewrite <- app_assoc. by replace (S idx + length ls)%nat with (idx + S (length ls))%nat by lia.
Qed.
Lemma read_hunks idx hunks r : Forall written hunks ->
  exists r', read_lines idx (concat (map hunk_text hunks)) r = Ok r' /\ stash r' = rev hunks ++ stash r.
Proof.
  intros Hw. revert idx r. induction Hw as [|h hunks Hh _ IH]; intros idx r; [by exists r|].
  cbn [map concat hunk_text app read_lines]. rewrite read_header by done. cbn [rbind]. rewrite read_bodies. cbn [hk_header hk_old_start hk_lines app].
  match goal with |- context [read_lines ?i _ ?x] => destruct (IH i x) as (r' & -> & E) end.
  exists r'. split; [done|]. rewrite E. cbn [rev]. rewrite <- app_assoc. by destruct h.
Qed.
Lemma header_portable h : written h -> portable (hk_header h).
Proof.
  intros (_ & ol & ns & nl & Hos & Hol & Hns & Hnl & ->). split.
  - unfold hunk_header. intros Hin. rewrite !in_app_iff in Hin.
    assert (forall n, number n -> ~ In newline (show_z n)) as Hnum.
    { intros n Hn Hc. pose proof (range_digits n Hn) as Hd. rewrite List.Forall_forall in Hd. by destruct (Hd _ Hc). }
    repeat destruct Hin as [Hin|Hin]; try (by eapply Hnum; [|exact Hin]); cbn in Hin; repeat destruct Hin as [Hin|Hin]; done.
  - unfold hunk_header. by rewrite !app_assoc, last_snoc || (change (lit " @@") with (lit " @" ++ [chr "@"]); rewrite !app_assoc, last_snoc).
Qed.
Lemma written_lines hunks : Forall written hunks -> Forall portable (concat (map hunk_text hunks)).
Proof.
  induction 1 as [|h hunks Hh _ IH]; [constructor|]. cbn [map concat]. apply Forall_app. split; [|done].
  constructor; [by apply header_portable|]. destruct Hh as [Hl _]. apply Forall_map. eapply Forall_impl; [exact Hl|].
  intros l [H1 H2]. split.
  - destruct l; intros [E|Hin]; try done; by apply H1.
  - destruct l as [[|c s]|[|c s]|[|c s]]; done.
Qed.

Lemma parse_patch_read hunks : hunks <> [] -> Forall written hunks -> parse_patch (patch_text hunks) = Ok hunks.
Proof.
  intros Hne Hw. unfold parse_patch, patch_text. rewrite str_lines_text by (by apply written_lines).
  destruct (read_hunks 0 hunks (mkReader [] None) Hw) as (r & -> & E). cbn [rbind]. rewrite E, app_nil_r, rev_involutive.
  by destruct hunks.
Qed.

(** A patch is read back as it was written: hunks whose headers state their
    first line and whose lines carry no line feed and end in no carriage return
    are printed as the text of a unified diff, and [parse_patch] returns them,
    headers, numbers and lines, in order. *)
Theorem parse_patch_roundtrip hunks :
  hunks <> [] -> Forall written hunks -> parse_patch (patch_text hunks) = Ok hunks.
Proof. apply parse_patch_read. Qed.

(** ** A patch that describes a file *)

(** What a run of hunk lines expects of the file, and what it leaves. *)
Definition old_side (ls : list HunkLine) : list rstr :=
  flat_map (fun l => match l with ContextLine s | DeleteLine s => [s] | AddLine _ => [] end) ls.
Definition new_side (ls : list HunkLine) : list rstr :=
  flat_map (fun l => match l with ContextLine s | AddLine s => [s] | DeleteLine _ => [] end) ls.
Definition reverse_line (l : HunkLine) : HunkLine :=
  match l with ContextLine s => ContextLine s | DeleteLine s => AddLine s | AddLine s => DeleteLine s end.
(** A file seen by a patch: unchanged lines before each hunk, and after the last. *)
Abbreviation piece := (list rstr * list HunkLine)%type (only parsing).
Definition old_lines (ps : list piece) : list rstr := flat_map (fun p => fst p ++ old_side (snd p)) ps.
Definition new_lines (ps : list piece) : list rstr := flat_map (fun p => fst p ++ new_side (snd p)) ps.
Definition reversed (ps : list piece) : list piece := map (fun p => (fst p, map reverse_line (snd p))) ps.
(** The hunks of the pieces, where [o] and [n] lines came before in the old and in
    the new file: each starts at the line after them. *)
Fixpoint hunks_of (o n : nat) (ps : list piece) : list Hunk :=
  match ps with
  | [] => []
  | (gap, ls) :: rest =>
      let o' := (o + length gap)%nat in
      let n' := (n + length gap)%nat in
      mkHunk (hunk_header (Z.of_nat (S o')) (Z.of_nat (length (old_side ls))) (Z.of_nat (S n')) (Z.of_nat (length (new_side ls))))
        (Z.of_nat (S o')) ls
      :: hunks_of (o' + length (old_side ls)) (n' + length (new_side ls)) rest
  end.

Lemma reverse_sides ls : old_side (map reverse_line ls) = new_side ls /\ new_side (map reverse_line ls) = old_side ls.
Proof.
  unfold old_side, new_side. induction ls as [|l ls [IH1 IH2]]; [done|]. cbn. rewrite IH1, IH2. by destruct l.
Qed.
Lemma reversed_lines ps : old_lines (reversed ps) = new_lines ps /\ new_lines (reversed ps) = old_lines ps.
Proof.
  unfold old_lines, new_lines. induction ps as [|[gap ls] ps [IH1 IH2]]; [done|]. cbn [reversed map flat_map fst snd]. fold (reversed ps).
  destruct (reverse_sides ls) as [-> ->]. by rewrite IH1, IH2.
Qed.

Lemma apply_lines_side header pre ls post out a r :
  exists a' r', apply_lines header (pre ++ old_side ls ++ post) ls (mkProgress (length pre) out a r)
    = Ok (mkProgress (length pre + length (old_side ls)) (out ++ new_side ls) a' r').
Proof.
  revert pre out a r. induction ls as [|l ls IH]; intros pre out a r.
  { cbn. rewrite Nat.add_0_r, app_nil_r. by eexists _, _. }
  destruct l as [s|s|s]; cbn [apply_lines apply_line old_side new_side flat_map app pg_cursor pg_out pg_added pg_removed].
  3: { cbn [rbind]. fold (old_side ls) (new_side ls). destruct (IH pre (out ++ [s]) (S a) r) as (a' & r' & E).
       exists a', r'. rewrite E, <- app_assoc. done. }
  all: fold (old_side ls) (new_side ls); rewrite (list_lookup_middle pre (old_side ls ++ post) s) by done; rewrite rstr_eqb_refl; cbn [rbind].
  all: specialize (IH (pre ++ [s])); rewrite length_app in IH; cbn [length] in IH; rewrite Nat.add_1_r in IH; rewrite <- app_assoc in IH; cbn [app] in IH.
  - destruct (IH (out ++ [s]) a r) as (a' & r' & E). exists a', r'. rewrite E, <- app_assoc. cbn [length app]. do 2 f_equal. lia.
  - destruct (IH out a (S r)) as (a' & r' & E). exists a', r'. rewrite E. cbn [length]. do 2 f_equal. lia.
Qed.
Lemma apply_hunks_pieces pre ps post out n a r :
  exists a' r', apply_hunks (pre ++ old_lines ps ++ post) (hunks_of (length pre) n ps) (mkProgress (length pre) out a r)
    = Ok (mkProgress (length pre + length (old_lines ps)) (out ++ new_lines ps) a' r').
Proof.
  revert pre out n a r. induction ps as [|[gap ls] ps IH]; intros pre out n a r.
  { cbn. rewrite Nat.add_0_r, app_nil_r. by eexists _, _. }
  cbn [hunks_of apply_hunks old_lines new_lines flat_map fst snd]. fold (old_lines ps) (new_lines ps).
  unfold apply_hunk. cbn [hk_old_start hk_header hk_lines pg_cursor pg_out pg_added pg_removed].
  replace (Z.max 0 (Z.of_nat (S (length pre + length gap)) - 1)) with (Z.of_nat (length pre + length gap)) by lia.
  destruct (Z.ltb_spec (Z.of_nat (length pre + length gap)) (Z.of_nat (length pre))); [lia|].
  destruct (Z.ltb_spec (Z.of_nat (length (pre ++ ((gap ++ old_side ls) ++ old_lines ps) ++ post))) (Z.of_nat (length pre + length gap)));
    [rewrite !length_app in *; lia|].
  rewrite Nat2Z.id, drop_app_length, <- !app_assoc. replace (length pre + length gap - length pre)%nat with (length gap) by lia.
  rewrite take_app_length. pose proof (apply_lines_side (hunk_header (Z.of_nat (S (length pre + length gap))) (Z.of_nat (length (old_side ls)))
    (Z.of_nat (S (n + length gap))) (Z.of_nat (length (new_side ls)))) (pre ++ gap) ls (old_lines ps ++ post) (out ++ gap) a r) as (a1 & r1 & E1).
  rewrite length_app, <- !app_assoc in E1. rewrite E1. cbn [rbind].
  destruct (IH (pre ++ gap ++ old_side ls) (out ++ gap ++ new_side ls) (n + length gap + length (new_side ls))%nat a1 r1) as (a' & r' & E).
  exists a', r'. rewrite !length_app, <- !app_assoc, !Nat.add_assoc in E. rewrite E. rewrite !length_app. do 2 f_equal. lia.
Qed.
Lemma patched_pieces ps tail ended :
  file_shape (old_lines ps ++ tail) ended ->
  exists a r, patched (hunks_of 0 0 ps) (file_text (old_lines ps ++ tail) ended)
    = Ok (file_text (new_lines ps ++ tail) ended, (a, r)).
Proof.
  intros Hs. unfold patched. rewrite file_lines_text, file_text_ended by done.
  destruct (apply_hunks_pieces [] ps tail [] 0 0 0) as (a & r & E). cbn [length app] in E. exists a, r.
  rewrite E. cbn [rbind pg_cursor pg_out pg_added pg_removed Nat.add]. rewrite drop_app_length. unfold file_text.
  by destruct ended; rewrite ?app_nil_r.
Qed.

Definition payloads_portable (ps : list piece) : Prop := Forall (fun p => Forall (fun l => portable (payload l)) (snd p)) ps.
Lemma hunks_written o n ps : payloads_portable ps ->
  Z.of_nat (o + length (old_lines ps)) < u64_max -> Z.of_nat (n + length (new_lines ps)) < u64_max ->
  Forall written (hunks_of o n ps).
Proof.
  intros Hp. revert o n. induction Hp as [|[gap ls] ps Hl _ IH]; intros o n Ho Hn; [constructor|].
  unfold old_lines, new_lines in Ho, Hn. cbn [flat_map fst snd] in Ho, Hn. fold (old_lines ps) in Ho. fold (new_lines ps) in Hn.
  rewrite !length_app in Ho, Hn. cbn [hunks_of]. constructor; [|apply IH; lia].
  split; [exact Hl|]. eexists _, _, _. cbn [hk_old_start hk_header]. unfold number.
  split; [|split; [|split; [|split; [|reflexivity]]]]; lia.
Qed.
Lemma portable_reversed ps : payloads_portable ps -> payloads_portable (reversed ps).
Proof.
  intros Hp. apply Forall_map. eapply Forall_impl; [exact Hp|]. intros [gap ls] Hl. cbn in *.
  apply Forall_map. eapply Forall_impl; [exact Hl|]. by intros [s|s|s].
Qed.

Section Quiet.
Context `{Kernel} (Hquiet : forall n, io_error n = None).

Lemma apply_patch_text path name e mode m ps tail ended :
  ready path name e (file_text (old_lines ps ++ tail) ended) mode (mc_disk m) -> ps <> [] -> payloads_portable ps ->
  Z.of_nat (length (old_lines ps)) < u64_max -> Z.of_nat (length (new_lines ps)) < u64_max ->
  file_shape (old_lines ps ++ tail) ended ->
  exists o m', patch_on_disk path (patch_text (hunks_of 0 0 ps)) m = (Ok o, m')
    /\ ready path name e (file_text (new_lines ps ++ tail) ended) mode (mc_disk m').
Proof.
  intros Hr Hne Hp Ho Hn Hs. set (hunks := hunks_of 0 0 ps).
  assert (parse_patch (patch_text hunks) = Ok hunks) as Hparse.
  { apply parse_patch_read; [by destruct ps as [|[]] | by apply hunks_written]. }
  assert (patch_on_disk path (patch_text hunks) = do_apply path (patch_text hunks)) as ->.
  { unfold patch_on_disk. destruct (patch_text hunks); [by cbn in Hparse | done]. }
  destruct (patched_pieces ps tail ended Hs) as (a & r & E).
  destruct (rewrite_quiet Hquiet path name e _ mode m (lit "apply_patch") (patch_plan hunks)
    (file_text (new_lines ps ++ tail) ended) (length hunks) Hr) as (m' & Hw & Hr').
  { unfold patch_plan, hunks. by rewrite E. }
  rewrite <- (do_apply_shape path (patch_text hunks) hunks m Hparse) in Hw. unfold mbind in Hw.
  destruct (do_apply path (patch_text hunks) m) as [[o|f] m1]; [|done]. apply (f_equal snd) in Hw. cbn in Hw. subst m1. by exists o, m'.
Qed.

End Quiet.

(** ** Examples *)

Definition demo_pieces : list piece :=
  [([lit "a"], [ContextLine (lit "b"); DeleteLine (lit "c"); AddLine (lit "C")]); ([lit "d"], [AddLine (lit "-- e"); ContextLine (lit "f")])].
Lemma parse_patch_roundtrip_witness :
  parse_patch (patch_text (hunks_of 0 0 demo_pieces)) = Ok (hunks_of 0 0 demo_pieces)
  /\ patch_text (hunks_of 0 0 demo_pieces)
     = lines_text [lit "@@ -2,2 +2,2 @@"; lit " b"; lit "-c"; lit "+C"; lit "@@ -5,1 +5,2 @@"; lit "+-- e"; lit " f"].
Proof.
  split; [|by vm_compute]. apply parse_patch_roundtrip; [done|].
  apply hunks_written; [|by vm_compute | by vm_compute].
  repeat constructor; cbn; intros Hc; repeat destruct Hc as [Hc|Hc]; done.
Defined.
(** A hunk of pure additions as [diff -U0] writes it, after line 2 of the file, goes
    in before that line. *)
Example insertion_is_early :
  (let? hunks := parse_patch (lines_text [lit "@@ -2,0 +3 @@"; lit "+new"]) in
   patched hunks (lines_text [lit "one"; lit "two"; lit "three"]))
  = Ok (lines_text [lit "one"; lit "new"; lit "two"; lit "three"], (1, 0)%nat).
Proof. by vm_compute. Qed.
(** A patch of a file with carriage returns, written with the same line ends, is
    refused: they are dropped from the patch only. *)
Example carriage_returns_differ :
  let cr l := lit l ++ [carriage_return] in
  (let? hunks := parse_patch (lines_text (map cr ["@@ -1 +1 @@"; "-one"; "+two"]%string)) in
   patched hunks (lines_text [cr "one"%string]))
  = Err (Rejected (DeleteDiffers (lit "@@ -1 +1 @@") (lit "one") 1 (Some (lit "one" ++ [carriage_return])))).
Proof. by vm_compute. Qed.
(** A patch that deletes every line leaves an empty line behind. *)
Example deletion_leaves_a_line :
  (let? hunks := parse_patch (lines_text [lit "@@ -1 +0,0 @@"; lit "-one"]) in patched hunks (lit "one" ++ [newline]))
  = Ok ([newline], (0, 1)%nat).
Proof. by vm_compute. Qed.
(** The file headers of the second file of a patch are taken for lines of the hunk. *)
Example second_file_header :
  (let? hunks := parse_patch (lines_text [lit "@@ -1 +1 @@"; lit "-one"; lit "+two"; lit "--- a/other"; lit "+++ b/other"]) in
   patched hunks (lit "one" ++ [newline]))
  = Err (Rejected (DeleteDiffers (lit "@@ -1 +1 @@") (lit "-- a/other") 2 None)).
Proof. by vm_compute. Qed.
(** A line that starts with a character of several bytes stops the worker. *)
Example wide_prefix_panics : parse_patch (lines_text [lit "@@ -1 +1 @@"; [8230]]) = Err JoinFailed.
Proof. by vm_compute. Qed.
