(* ===== verification/Transcript.v ===== *)
(** The conversation a runner keeps for its model ([copperclaw-providers/src/types.rs],
    [copperclaw-runner/src/formatter.rs]): the entries of the history, the prompt that
    a batch of inbound rows becomes, and the stubs that replace old tool results
    before the history is sent again.

    [json_text] is [serde_json]'s compact rendering of a value. *)
From S2P Require Import Prelude Types.

Inductive HistoryMessage : Type :=
| User (content : rstr)
| Assistant (content : rstr)
| ToolUse (id name : rstr) (input : json)
| Tool (tool_use_id content : rstr) (is_error : bool)
| Image (media_type data : rstr).
Abbreviation history := (list HistoryMessage) (only parsing).
Definition is_tool (m : HistoryMessage) : bool := match m with Tool _ _ _ => true | _ => false end.
Definition is_tool_use (m : HistoryMessage) : bool := match m with ToolUse _ _ _ => true | _ => false end.

(** ** The prompt of a batch *)

Section Format.
Context (json_text : json -> rstr).

Definition body_text (content : json) : rstr :=
  match jget_str "text" content with
  | Some s =>
      match s with
      | [] => match jget "attachment" content with
              | Some a => match jget "data_base64" a with Some _ => lit "[sent an image]" | None => [] end
              | None => []
              end
      | _ => s
      end
  | None => match jget_str "prompt" content with Some s => s | None => json_text content end
  end.
Record FormattedTurn : Type := mkFormatted {
  ft_prompt : rstr;
  ft_rows : list MessageInRow;
}.
Definition opt_field (name : string) (v : option string) : rstr :=
  match v with Some s => lit name ++ lit s | None => [] end.
Definition row_text (m : MessageInRow) : rstr :=
  lit "[" ++ lit (MessageKind_as_str (mi_kind m)) ++ opt_field " channel=" (mi_channel_type m)
  ++ opt_field " platform=" (mi_platform_id m) ++ opt_field " thread=" (mi_thread_id m)
  ++ lit " seq=" ++ show_z (mi_seq m) ++ lit "]" ++ [newline] ++ body_text (mi_content m).
Fixpoint rows_text (rows : list MessageInRow) : rstr :=
  match rows with
  | [] => []
  | [m] => row_text m
  | m :: rest => row_text m ++ [newline; newline] ++ rows_text rest
  end.
Definition format_messages (messages : list MessageInRow) : FormattedTurn :=
  let sorted := order_by mi_seq messages in
  mkFormatted (rows_text sorted) sorted.
Definition extract_inbound_images (rows : list MessageInRow) : list (rstr * rstr) :=
  flat_map (fun m =>
    match jget "attachment" (mi_content m) with
    | Some att =>
        match jget_str "data_base64" att with
        | Some data => [(default (lit "image/jpeg") (jget_str "mime_type" att), data)]
        | None => []
        end
    | None => []
    end) rows.
End Format.

(** ** Stubs for old results *)

Record ElisionCfg : Type := mkElision {
  ec_recent_results_kept : nat;
  ec_max_result_bytes : Z;
}.
Definition DEFAULT_ELISION : ElisionCfg := mkElision 6 2048.
Definition ELISION_MARKER : rstr := lit "[elided: stale tool result".
Definition already_elided (content : rstr) : bool := starts_with ELISION_MARKER content.
Definition em_dash : rchar := 8212.
Definition elision_stub (original : rstr) : rstr :=
  ELISION_MARKER ++ lit ", " ++ show_z (byte_len original) ++ lit " bytes, "
  ++ show_z (Z.of_nat (Nat.max (length (str_lines original)) 1)) ++ lit " lines " ++ [em_dash]
  ++ lit " re-run the tool if you need this output again]".
(** The positions of the tool results. *)
Fixpoint result_indices (i : nat) (h : history) : list nat :=
  match h with
  | [] => []
  | m :: rest => if is_tool m then i :: result_indices (S i) rest else result_indices (S i) rest
  end.
Definition elide_one (cfg : ElisionCfg) (m : HistoryMessage) : HistoryMessage :=
  match m with
  | Tool id content is_error =>
      if is_error then m
      else if already_elided content then m
      else if ec_max_result_bytes cfg <? byte_len content then Tool id (elision_stub content) is_error
      else m
  | _ => m
  end.
(** Entries before the cutoff are stale. *)
Fixpoint elide_before (cfg : ElisionCfg) (cutoff : nat) (h : history) : history :=
  match cutoff, h with
  | S c, m :: rest => elide_one cfg m :: elide_before cfg c rest
  | _, _ => h
  end.
Definition elide_stale_tool_results (h : history) (cfg : ElisionCfg) : history :=
  let indices := result_indices 0 h in
  if (length indices <=? ec_recent_results_kept cfg)%nat then h
  else
    let keep_from := (length indices - ec_recent_results_kept cfg)%nat in
    let stale_cutoff_idx := default (length h) (indices !! keep_from) in
    elide_before cfg stale_cutoff_idx h.
