(* ===== verification/VerifyGate.v ===== *)
(** The verification gate ([copperclaw-mcp/src/tools/verify_gate.rs]) and the hook of
    the shell tool ([apply_verify_gate] of [computer_use.rs]): for each project, a
    directory under the data root, whether it was edited since its last successful
    verify run, which stages have passed since, and how many runs failed.

    The markers of a project are text files of its [.copperclaw] directory.  Every
    access to one may fail ([MarkerIO.io_fault], by the moment, the project, the file
    and the kind of access); the mutators swallow the failure, as in the source.  A
    name is in [rt_projects] when the data root has a directory of that name. *)
From S2P Require Import Prelude Files.

(** ** Stages *)

Record Stage : Type := mkStage {
  sg_name : rstr;
  sg_command : rstr;
}.
Definition stage_name_char (c : rchar) : bool :=
  is_ascii_digit c || ((65 <=? c) && (c <=? 90)) || ((97 <=? c) && (c <=? 122)) || (c =? chr "_") || (c =? chr "-").
Definition split_stage_prefix (line : rstr) : option (rstr * rstr) :=
  match split_once (chr ":") line with
  | None => None
  | Some (name, after) =>
      match name with
      | [] => None
      | c :: _ =>
          if negb (forallb stage_name_char name) || is_ascii_digit c then None
          else match trim_start after with
               | [] => None
               | rest => Some (name, rest)
               end
      end
  end.
Fixpoint number_stages (i : Z) (lines : list rstr) : list Stage :=
  match lines with
  | [] => []
  | line :: r =>
      (match split_stage_prefix line with
       | Some (name, cmd) => mkStage name cmd
       | None => mkStage (lit "stage" ++ show_z i) line
       end) :: number_stages (i + 1) r
  end.
Definition nonempty_lines (text : rstr) : list rstr :=
  List.filter (fun l => match l with [] => false | _ => true end) (map trim (str_lines text)).
Definition parse_stages (text : rstr) : list Stage := number_stages 1 (nonempty_lines text).
(** Without an override, the stages the file of the project records. *)
Definition recorded_stages (verify_file : option rstr) (override_cmd : option rstr) : list Stage :=
  match override_cmd with
  | Some cmd => match trim cmd with [] => [] | t => [mkStage (lit "verify") t] end
  | None => match verify_file with Some text => parse_stages text | None => [] end
  end.

(** ** The data root *)

Inductive MarkerFile : Type :=
| VERIFY_FILE
| DIRTY_FILE
| FIX_CYCLES_FILE
| LAST_FAILURE_FILE
| STAGES_FILE
| REVIEWED_MARKER_FILE
| REVIEW_CYCLES_FILE
| NEEDS_SCREENSHOT_FILE
| SCREENSHOT_CYCLES_FILE
| SCREENSHOTS_DIR.
#[export] Instance MarkerFile_eq_dec : EqDecision MarkerFile.
Proof. solve_decision. Defined.
Definition marker_code (f : MarkerFile) : nat :=
  match f with
  | VERIFY_FILE => 0 | DIRTY_FILE => 1 | FIX_CYCLES_FILE => 2 | LAST_FAILURE_FILE => 3 | STAGES_FILE => 4
  | REVIEWED_MARKER_FILE => 5 | REVIEW_CYCLES_FILE => 6 | NEEDS_SCREENSHOT_FILE => 7
  | SCREENSHOT_CYCLES_FILE => 8 | SCREENSHOTS_DIR => 9
  end.
Definition marker_of_code (n : nat) : MarkerFile :=
  nth n [VERIFY_FILE; DIRTY_FILE; FIX_CYCLES_FILE; LAST_FAILURE_FILE; STAGES_FILE; REVIEWED_MARKER_FILE;
         REVIEW_CYCLES_FILE; NEEDS_SCREENSHOT_FILE; SCREENSHOT_CYCLES_FILE] SCREENSHOTS_DIR.
#[export, refine] Instance MarkerFile_countable : Countable MarkerFile :=
  inj_countable' marker_code marker_of_code _.
Proof. by intros []. Defined.

Inductive Access : Type := MakeDir | Write | Remove | Read.
(** What a failed access leaves: a failed write may have got some of its text into
    the file. *)
Inductive Damage : Type := Untouched | Cut (n : nat).
(** One entry of the stages file. *)
Record StageRecord : Type := mkStageRecord {
  sr_passed : bool;
  sr_at : Z;
}.
Class MarkerIO : Type := {
  io_fault : Z -> rstr -> MarkerFile -> Access -> option Damage;
  data_root_env : option rstr;
  (* [serde_json] on the stages file *)
  print_stage_state : gmap rstr StageRecord -> rstr;
  parse_stage_state : rstr -> option (gmap rstr StageRecord);
}.
(** What is relied on of them: no access fails, and what is printed parses back. *)
Class GoodIO `{MarkerIO} : Prop := {
  no_fault : forall t p f a, io_fault t p f a = None;
  stage_state_parses : forall m, parse_stage_state (print_stage_state m) = Some m;
}.

Section Gate.
Context {Repo : Type}.

(** A project: its markers, how many captures [screenshots] holds, its repository. *)
Record Project : Type := mkProject {
  pj_files : gmap MarkerFile rstr;
  pj_captures : nat;
  pj_git : option Repo;
}.
Definition empty_project : Project := mkProject ∅ 0 None.
Record Root : Type := mkRoot {
  rt_now : Z;
  rt_projects : gmap rstr Project;
}.
Implicit Types (r : Root) (p path name : rstr) (f : MarkerFile).

Definition set_projects (x : gmap rstr Project) r : Root := mkRoot (rt_now r) x.
Definition set_files (x : gmap MarkerFile rstr) (j : Project) : Project := mkProject x (pj_captures j) (pj_git j).
Definition project r p : Project := default empty_project (rt_projects r !! p).
Definition marker r p f : option rstr := pj_files (project r p) !! f.
(** Creates the state directory, and with it the project. *)
Definition make_dir r p : Root := set_projects (<[p := project r p]> (rt_projects r)) r.
Definition put r p f (s : rstr) : Root :=
  set_projects (<[p := set_files (<[f := s]> (pj_files (project r p))) (project r p)]> (rt_projects r)) r.
Definition drop_file r p f : Root :=
  set_projects (alter (fun j => set_files (delete f (pj_files j)) j) p (rt_projects r)) r.

Context `{MarkerIO}.

Definition fault r p f (a : Access) : option Damage := io_fault (rt_now r) p f a.
Definition remove_if_present r p f : Root :=
  match fault r p f Remove with Some _ => r | None => drop_file r p f end.
Definition write_best_effort r p f (contents : rstr) : Root :=
  match fault r p f MakeDir with
  | Some _ => r
  | None =>
      match fault r p f Write with
      | None => put r p f contents
      | Some Untouched => make_dir r p
      | Some (Cut n) => put r p f (take n contents)
      end
  end.
Definition read_best_effort r p f : option rstr :=
  match fault r p f Read with Some _ => None | None => marker r p f end.
Definition try_exists r p f : bool :=
  match read_best_effort r p f with Some _ => true | None => false end.

(** ** Which project a path belongs to *)

Definition DATA_ROOT_DEFAULT : rstr := lit "/data".
Definition resolve_data_root (env : option rstr) : rstr := default DATA_ROOT_DEFAULT env.
Definition data_root : rstr := resolve_data_root data_root_env.
Fixpoint strip_components (root path : list rstr) : option (list rstr) :=
  match root, path with
  | [], _ => Some path
  | c :: root', c' :: path' => if rstr_eqb c c' then strip_components root' path' else None
  | _ :: _, [] => None
  end.
(** [Component::Normal]. *)
Definition is_normal (c : rstr) : bool :=
  negb (rstr_eqb c (lit "/") || rstr_eqb c (lit ".") || rstr_eqb c (lit "..")).
Definition below_root path : option (list rstr) := strip_components (components data_root) (components path).
Definition project_root_of r path : option rstr :=
  match below_root path with
  | Some (name :: rest) =>
      if negb (is_normal name) then None
      else match rest with
           | _ :: _ => Some name
           | [] => match rt_projects r !! name with Some _ => Some name | None => None end
           end
  | _ => None
  end.
Definition STATE_DIR_NAME : rstr := lit ".copperclaw".
Definition is_under_state_dir path : bool :=
  match below_root path with
  | Some (_ :: name :: _) => is_normal name && rstr_eqb name STATE_DIR_NAME
  | _ => false
  end.

(** ** Markers *)

Definition FIX_CYCLE_CAP : Z := 2.
Definition LAST_FAILURE_MAX_BYTES : Z := 8 * 1024.
Fixpoint tail_truncate (max_bytes : Z) (s : rstr) : rstr :=
  if byte_len s <=? max_bytes then s
  else match s with [] => [] | _ :: s' => tail_truncate max_bytes s' end.
Definition reset_fix_cycles r p : Root := remove_if_present r p FIX_CYCLES_FILE.
Definition mark_dirty r p : Root :=
  let r := write_best_effort r p DIRTY_FILE [] in
  let r := reset_fix_cycles r p in
  remove_if_present r p STAGES_FILE.
Definition is_dirty r p : bool := try_exists r p DIRTY_FILE.
Definition clear_dirty r p : Root := reset_fix_cycles (remove_if_present r p DIRTY_FILE) p.
(** A counter file; absent or unparsable is zero. *)
Definition read_counter r p f : Z :=
  match read_best_effort r p f with
  | Some s => default 0 (parse_uint u32_max (trim s))
  | None => 0
  end.
Definition fix_cycles r p : Z := read_counter r p FIX_CYCLES_FILE.
Definition record_verify_failure r p (tail : rstr) : Z * Root :=
  let new_count := sat_add u32_max (fix_cycles r p) 1 in
  let r := write_best_effort r p FIX_CYCLES_FILE (show_z new_count) in
  (new_count, write_best_effort r p LAST_FAILURE_FILE (tail_truncate LAST_FAILURE_MAX_BYTES tail)).
Definition last_failure r p : option rstr := read_best_effort r p LAST_FAILURE_FILE.
Definition recorded_verify_command r p (override_cmd : option rstr) : option rstr :=
  match override_cmd with
  | Some cmd => Some (trim cmd)
  | None => match read_best_effort r p VERIFY_FILE with
            | Some s => match trim s with [] => None | t => Some t end
            | None => None
            end
  end.

(** ** Results of stages *)

(** [recorded_stages] of a project of the root. *)
Definition project_stages r p (override_cmd : option rstr) : list Stage :=
  recorded_stages (read_best_effort r p VERIFY_FILE) override_cmd.
Definition read_stage_state r p : gmap rstr StageRecord :=
  match read_best_effort r p STAGES_FILE with
  | Some s => default ∅ (parse_stage_state s)
  | None => ∅
  end.
Definition write_stage_state r p (state : gmap rstr StageRecord) : Root :=
  write_best_effort r p STAGES_FILE (print_stage_state state).
Definition record_stage_result r p (stage_name : rstr) (passed : bool) : Root :=
  write_stage_state r p (<[stage_name := mkStageRecord passed (rt_now r)]> (read_stage_state r p)).
Definition record_stage_verify_failure r p (stage_name tail : rstr) : Z * Root :=
  record_verify_failure r p (lit "stage '" ++ stage_name ++ lit "' failed: " ++ tail).
Definition green (state : gmap rstr StageRecord) (s : Stage) : bool :=
  match state !! sg_name s with Some rec => sr_passed rec | None => false end.
Definition all_stages_passed r p (stages : list Stage) : bool :=
  match stages with
  | [] => false
  | _ => forallb (green (read_stage_state r p)) stages
  end.
Definition pending_stages r p (stages : list Stage) : list Stage :=
  List.filter (fun s => negb (green (read_stage_state r p) s)) stages.

(** ** Scans over all projects *)

Fixpoint insert_name p (l : list rstr) : list rstr :=
  match l with
  | [] => [p]
  | q :: l' => if rstr_leb p q then p :: l else q :: insert_name p l'
  end.
(** The names of the projects [test] holds for, sorted. *)
Definition scan (test : Root -> rstr -> bool) r : list rstr :=
  fold_right insert_name [] (List.filter (test r) (map fst (map_to_list (rt_projects r)))).
Definition scan_dirty_projects r : list rstr := scan is_dirty r.

(** ** Hooks of the tools *)

(** What the session says: is the gate on, and the command that overrides the
    recorded ones. *)
Record GateCfg : Type := mkGateCfg {
  verify_gate_enabled : bool;
  check_command_override : option rstr;
}.
Implicit Types (ctx : GateCfg).
Definition mark_dirty_for_write ctx path r : Root :=
  if negb (verify_gate_enabled ctx) then r
  else if is_under_state_dir path then r
  else match project_root_of r path with
       | Some p => mark_dirty r p
       | None => r
       end.
Definition mark_dirty_for_shell_cwd ctx (cwd : option rstr) r : Root :=
  if negb (verify_gate_enabled ctx) then r
  else match cwd with
       | None => r
       | Some cwd => match project_root_of r cwd with Some p => mark_dirty r p | None => r end
       end.
Definition find_stage (stages : list Stage) (trimmed : rstr) : option Stage :=
  List.find (fun s => rstr_eqb (sg_command s) trimmed) stages.
Definition stage_passed r p (stages : list Stage) (stage : Stage) : Root :=
  let r := record_stage_result r p (sg_name stage) true in
  if all_stages_passed r p stages then clear_dirty r p else r.
Definition stage_failed r p (stage : Stage) (stdout stderr : rstr) : Root :=
  let tail := lit "stdout:" ++ [newline] ++ stdout ++ [newline; newline] ++ lit "stderr:" ++ [newline] ++ stderr in
  let r := snd (record_stage_verify_failure r p (sg_name stage) tail) in
  record_stage_result r p (sg_name stage) false.
Definition apply_verify_gate ctx (cwd : option rstr) (command : rstr) (success : bool) (stdout stderr : rstr) r : Root :=
  if negb (verify_gate_enabled ctx) then r
  else match cwd with
       | None => r
       | Some cwd =>
           match project_root_of r cwd with
           | None => r
           | Some p =>
               let stages := project_stages r p (check_command_override ctx) in
               match find_stage stages (trim command) with
               | None => mark_dirty r p
               | Some stage => if success then stage_passed r p stages stage else stage_failed r p stage stdout stderr
               end
           end
       end.
End Gate.
Arguments Project : clear implicits.
Arguments Root : clear implicits.
