(* ===== verification/EditTools.v ===== *)
(** The handlers of [edit_file], [multi_edit] and [apply_patch]
    ([copperclaw-mcp/src/tools/edit_file.rs], [multi_edit.rs], [apply_patch.rs]): the
    work on the disk of [Files] and [Patch], and after a success the markers of the
    verification gate ([mark_dirty_for_write] of [verify_gate.rs]) as the files they
    are on the same disk.

    The record of disks goes on through the markers.  Not modelled: the card with the
    difference that is shown to the user, and the digest of the linter that is run on
    the new file and added to the result. *)
From S2P Require Import Prelude VerifyGate Files Patch.

(** What the context of the session says: is the gate on; and the data root. *)
Record GateEnv : Type := mkGateEnv {
  ge_on : bool;
  ge_root : rstr;
}.

Section Markers.
Context `{Kernel}.
Implicit Types (g : GateEnv) (p path : rstr).

(** ** Where the markers are *)

(** [data_root.join(..).join(..)], for relative paths that follow. *)
Definition below (root : rstr) (more : list rstr) : route :=
  (start_of cwd root, plain_steps (components root) ++ more).
Definition state_dir g p : route := below (ge_root g) [p; STATE_DIR_NAME].
Definition marker_route g p (file : rstr) : route := below (ge_root g) [p; STATE_DIR_NAME; file].
Definition DIRTY_NAME : rstr := lit "dirty".
Definition FIX_CYCLES_NAME : rstr := lit "fix_cycles".
Definition STAGES_NAME : rstr := lit "stages".

(** The path below the data root, if it is there. *)
Definition rest_of g path : option (list rstr) := strip_components (components (ge_root g)) (components path).
(** The name of the project; a project that is the path itself must be a directory. *)
Definition project_root_of g path : FM (option rstr) :=
  match rest_of g path with
  | Some (name :: rest) =>
      if negb (is_normal name) then ret None
      else match rest with
           | _ :: _ => ret (Some name)
           | [] => let! there := stat_dir (below (ge_root g) [name]) in ret (if there then Some name else None)
           end
  | _ => ret None
  end.
Definition is_under_state_dir g path : bool :=
  match rest_of g path with
  | Some (_ :: name :: _) => is_normal name && rstr_eqb name STATE_DIR_NAME
  | _ => false
  end.

(** ** Marking *)

(** Failures are logged and forgotten. *)
Definition best_effort (m : FM unit) : FM unit := fun w => (Ok tt, snd (m w)).
(** [write(path, b"")]. *)
Definition write_empty (r : route) : FM unit :=
  let! _ := syscall MarkerFailed (open_truncated r) in ret tt.
Definition write_dirty g p : FM unit :=
  best_effort (create_dir_all (fst (state_dir g p)) (rev (snd (state_dir g p))) ;;
               write_empty (marker_route g p DIRTY_NAME)).
Definition remove_if_present (r : route) : FM unit := best_effort (syscall MarkerFailed (remove_file r)).
Definition mark_dirty g p : FM unit :=
  write_dirty g p ;;
  remove_if_present (marker_route g p FIX_CYCLES_NAME) ;;
  remove_if_present (marker_route g p STAGES_NAME).
Definition mark_dirty_for_write g path : FM unit :=
  if negb (ge_on g) then ret tt
  else if is_under_state_dir g path then ret tt
  else
    let! p := project_root_of g path in
    match p with Some p => mark_dirty g p | None => ret tt end.

(** ** The handlers *)

Definition edit_file g path (s : EditSpec) : FM EditOutcome :=
  let! o := edit_on_disk path s in
  mark_dirty_for_write g (eo_path o) ;; ret o.
Definition multi_edit g path (edits : list EditSpec) : FM EditOutcome :=
  let! o := multi_edit_on_disk path edits in
  mark_dirty_for_write g (eo_path o) ;; ret o.
Definition apply_patch g path (patch : rstr) : FM ApplyOutcome :=
  let! o := patch_on_disk path patch in
  mark_dirty_for_write g (ao_path o) ;; ret o.
End Markers.
