(* ===== verification/EditToolsProps.v ===== *)
(** What the editing tools do, markers included: a file is never torn, several edits
    in one call are the same edits one after the other, a patch is undone by its
    reverse. *)
From S2P Require Import Prelude VerifyGate Files Patch EditTools FilesProps FilesEdits PatchProps.

#[local] Opaque lookup_from.

(** ** The record of disks *)

(** What a run adds to the record, with the disk it started from. *)
Definition extends (m m' : Machine) : Prop :=
  exists new, mc_past m' = new ++ mc_past m /\ In (mc_disk m) (mc_disk m' :: new).
#[global] Instance extends_preorder : PreOrder extends.
Proof.
  split.
  - intros m. exists []. split; [done | by left].
  - intros m1 m2 m3 (new & E & Hin) (new' & E' & Hin'). exists (new' ++ new). rewrite E', E, app_assoc. split; [done|].
    destruct Hin as [<- | Hin]; [|right; apply in_or_app; by right].
    destruct Hin' as [-> | Hin']; [by left | right; apply in_or_app; by left].
Qed.
Section Records.
Context `{Kernel}.
Lemma syscall_extends {A} fault (act : Disk -> result rstr (A * Disk)) : keeps extends (syscall fault act).
Proof.
  intros m. unfold syscall. destruct (io_error _); [|destruct (act _) as [[a d]|e]]; exists [mc_disk m]; split; try done; by right; left.
Qed.
Lemma stat_returns r m : exists b m', stat_dir r m = (Ok b, m').
Proof. unfold stat_dir, mbind, catch. destruct (syscall _ _ m) as [[b|f] m1]; by eexists _, _. Qed.
Lemma stat_extends r : keeps extends (stat_dir r).
Proof. apply keeps_bind; [apply keeps_catch, syscall_extends | intros ?; apply keeps_ret]. Qed.
Lemma mkdir_extends r missing : keeps extends missing -> keeps extends (mkdir_or_there r missing).
Proof.
  intros Hm. apply keeps_bind; [apply keeps_catch, syscall_extends|]. intros [[]|f]; [apply keeps_ret|].
  destruct f; try apply keeps_fail. destruct (rstr_eqb _ _); [done|].
  apply keeps_bind; [apply stat_extends|]. intros []; [apply keeps_ret | apply keeps_fail].
Qed.
Lemma create_extends start back : keeps extends (create_dir_all start back).
Proof.
  induction back as [|name parent IH]; cbn [create_dir_all]; [apply keeps_ret|].
  apply mkdir_extends. apply keeps_bind; [exact IH|]. intros []. apply mkdir_extends.
  apply keeps_bind; [apply stat_extends|]. intros []; [apply keeps_ret | apply keeps_fail].
Qed.
Lemma remove_extends r : keeps extends (remove_if_present r).
Proof. intros w. apply (syscall_extends MarkerFailed (remove_file r)). Qed.
Lemma write_empty_extends r : keeps extends (write_empty r).
Proof. apply keeps_bind; [apply syscall_extends | intros ?; apply keeps_ret]. Qed.

(** A property of every disk since [base] that a run keeps. *)
Definition holds (base : list Disk) (S : Disk -> Prop) (m m' : Machine) : Prop := at_stage base S S m -> at_stage base S S m'.
#[global] Instance holds_preorder base S : PreOrder (holds base S).
Proof. split; [by intros m Hm | intros m1 m2 m3 H1 H2 Hm; by apply H2, H1]. Qed.
Lemma syscall_holds {A} base (S : Disk -> Prop) fault (act : Disk -> result rstr (A * Disk)) :
  (forall d, S d -> S (count_call d)) -> (forall d a d', S d -> act d = Ok (a, d') -> S d') ->
  keeps (holds base S) (syscall fault act).
Proof.
  intros Hc Ha m Hm. pose proof (covers_syscall base S S (fun _ => S) fault act (fun d Hd => Hd) Hc) as Hs.
  specialize (Hs ltac:(intros d a d'; by apply Ha) m Hm). by destruct (syscall fault act m) as [[a|e] m'].
Qed.
Lemma stat_holds base (S : Disk -> Prop) r : (forall d, S d -> S (count_call d)) -> keeps (holds base S) (stat_dir r).
Proof.
  intros Hc. apply keeps_bind; [|intros ?; apply keeps_ret]. apply keeps_catch, syscall_holds; [done|].
  intros d a d' Hd Hq. by injection Hq as <- <-.
Qed.
Lemma mkdir_holds base (S : Disk -> Prop) r missing :
  (forall d, S d -> S (count_call d)) -> (forall d d', S d -> mkdir r d = Ok (tt, d') -> S d') ->
  keeps (holds base S) missing -> keeps (holds base S) (mkdir_or_there r missing).
Proof.
  intros Hc Hd Hm. apply keeps_bind; [apply keeps_catch, syscall_holds; [done | by intros d []; eauto]|].
  intros [[]|f]; [apply keeps_ret|]. destruct f; try apply keeps_fail. destruct (rstr_eqb _ _); [done|].
  apply keeps_bind; [by apply stat_holds|]. intros []; [apply keeps_ret | apply keeps_fail].
Qed.
Lemma create_holds base (S : Disk -> Prop) start back :
  (forall d, S d -> S (count_call d)) -> (forall r d d', S d -> mkdir r d = Ok (tt, d') -> S d') ->
  keeps (holds base S) (create_dir_all start back).
Proof.
  intros Hc Hd. induction back as [|name parent IH]; cbn [create_dir_all]; [apply keeps_ret|].
  apply mkdir_holds; [done | by apply Hd|]. apply keeps_bind; [exact IH|]. intros []. apply mkdir_holds; [done | by apply Hd|].
  apply keeps_bind; [by apply stat_holds|]. intros []; [apply keeps_ret | apply keeps_fail].
Qed.
Lemma remove_holds base (S : Disk -> Prop) r :
  (forall d, S d -> S (count_call d)) -> (forall d d', S d -> remove_file r d = Ok (tt, d') -> S d') ->
  keeps (holds base S) (remove_if_present r).
Proof. intros Hc Hd w. apply (syscall_holds base S MarkerFailed (remove_file r)); [done | by intros d []; eauto]. Qed.
Lemma write_empty_holds base (S : Disk -> Prop) r :
  (forall d, S d -> S (count_call d)) -> (forall d i d', S d -> open_truncated r d = Ok (i, d') -> S d') ->
  keeps (holds base S) (write_empty r).
Proof. intros Hc Hd. apply keeps_bind; [by apply syscall_holds | intros ?; apply keeps_ret]. Qed.
End Records.

(** Where a path leads is an entry of the disk, through links as well. *)
Lemma lookup_where links follow_last d dir steps e n :
  lookup_from links follow_last d dir steps = Ok (e, n) -> n = dk_entries d !! e.
Proof. intros Hl. by apply (lookup_alike d d _ _ _ _ _ _ (fun _ => or_introl eq_refl)) in Hl as [_ Hn]. Qed.

(** ** What marking leaves alone *)

Section Marking.
Context `{Kernel} (g : GateEnv) (d1 : Disk) (Hnum : numbered d1).
Implicit Types (d : Disk) (m : Machine) (p path : rstr).

(** Entries that were there stay, but for the markers that are removed. *)
Definition entries_kept d : Prop :=
  forall k n, snd k <> FIX_CYCLES_NAME -> snd k <> STAGES_NAME -> dk_entries d1 !! k = Some n -> dk_entries d !! k = Some n.
Definition files_kept d : Prop := forall i f, dk_files d1 !! i = Some f -> dk_files d !! i = Some f.
(** The file the marker [dirty] of the project of [path] led to on the disk [d2]. *)
Definition dirty_file path (d2 : Disk) (i : Z) : Prop :=
  exists p rest k, rest_of g path = Some (p :: rest)
    /\ lookup true (marker_route g p DIRTY_NAME) d2 = Ok (k, Some (Inode i)).
(** Files that were there stay, but for that one, which is empty from then on. *)
Definition files_but_dirty path (d2 : Disk) d : Prop :=
  forall i f, dk_files d1 !! i = Some f ->
    dk_files d !! i = Some f \/ (dirty_file path d2 i /\ dk_files d !! i = Some (mkFile (Text []) (fd_mode f))).
Definition marked path (d2 : Disk) d : Prop := entries_kept d /\ files_but_dirty path d2 d.

Definition onward d : Prop := dk_fresh d1 <= dk_fresh d /\ forall i, dk_fresh d <= i -> dk_files d !! i = None.
Definition growing d : Prop := onward d /\ entries_kept d /\ files_kept d.
Definition marking path (d2 : Disk) d : Prop := onward d /\ marked path d2 d.
Lemma growing_start : growing d1.
Proof. split; [split; [lia | exact (nb_files _ Hnum)] | split; [by intros k n | by intros i f]]. Qed.
Lemma growing_marking path d2 d : growing d -> marking path d2 d.
Proof. intros (Ho & He & Hf). split; [done|]. split; [done|]. intros i f Hi. left. by apply Hf. Qed.
Lemma mkdir_growing r d d' : growing d -> mkdir r d = Ok (tt, d') -> growing d'.
Proof.
  intros ([Ho1 Ho2] & He & Hf) Hm. unfold mkdir in Hm. apply rbind_Ok in Hm as ([k [n|]] & El & Hm); [done|].
  cbn [fst snd] in Hm. injection Hm as <-. split; [|split; [|done]].
  - split; cbn; [lia|]. intros i Hi. apply Ho2. lia.
  - intros k' n H1 H2 Hk. cbn. pose proof (nb_entries _ Hnum _ _ Hk). assert (k <> k').
    { intros ->. apply lookup_here in El as [El _]. by rewrite (He _ _ H1 H2 Hk) in El. }
    rewrite !lookup_insert_ne; [by apply He | done | |]; intros <-; cbn in *; lia.
Qed.
Lemma remove_marking path d2 p file d d' :
  file = FIX_CYCLES_NAME \/ file = STAGES_NAME ->
  marking path d2 d -> remove_file (marker_route g p file) d = Ok (tt, d') -> marking path d2 d'.
Proof.
  intros Hfile (Ho & He & Hf) Hr. unfold remove_file in Hr. apply rbind_Ok in Hr as ([k n] & El & Hr). cbn [fst snd] in Hr.
  apply lookup_here in El as [_ El]. unfold marker_route, below in El. cbn [snd] in El.
  change [p; STATE_DIR_NAME; file] with ([p; STATE_DIR_NAME] ++ [file]) in El. rewrite app_assoc, last_snoc in El. injection El as El.
  assert (d' = set_entries (delete k (dk_entries d)) d) as -> by (destruct n as [[]|]; congruence).
  split; [done|]. split; [|done]. intros k' n' H1 H2 Hk. cbn. rewrite lookup_delete_ne; [by apply He|].
  intros ->. by destruct Hfile as [-> | ->].
Qed.
Lemma open_marking path p rest d2 i d' :
  rest_of g path = Some (p :: rest) -> growing d2 ->
  open_truncated (marker_route g p DIRTY_NAME) (count_call d2) = Ok (i, d') -> marking path d2 d'.
Proof.
  intros Hp ([Ho1 Ho2] & He & Hf) Hopen. unfold open_truncated in Hopen. apply rbind_Ok in Hopen as ([k n] & El & Hopen).
  unfold lookup in El. rewrite (lookup_entries _ d2) in El by done. fold (lookup true (marker_route g p DIRTY_NAME) d2) in El.
  pose proof (lookup_where _ _ _ _ _ _ _ El) as Ek. destruct n as [[j|?|?]|]; cbn [fst snd] in Hopen; try done; injection Hopen as <- <-.
  - split; [split; [done|]; intros x Hx; cbn; by rewrite lookup_alter_None, Ho2|]. split; [done|].
    intros x f Hx. specialize (Hf x f Hx). cbn. destruct (decide (j = x)) as [-> | Hne].
    + right. split; [by exists p, rest, k|]. by rewrite lookup_alter_eq, Hf.
    + left. by rewrite lookup_alter_ne.
  - assert (forall x f, dk_files d1 !! x = Some f -> dk_fresh d2 <> x) as Hnew.
    { intros x f Hx <-. specialize (Hf _ f Hx). by rewrite Ho2 in Hf. }
    split; [split; cbn; [lia|]; intros x Hx; rewrite lookup_insert_ne by lia; apply Ho2; lia|]. split.
    + intros k' n' H1 H2 Hk. specialize (He _ _ H1 H2 Hk). cbn. rewrite lookup_insert_ne; [done|]. intros ->. congruence.
    + intros x f Hx. left. cbn. rewrite lookup_insert_ne; [by apply Hf | by eapply Hnew].
Qed.

(** From any machine on which the disk has only grown since [base]. *)
Abbreviation so_far base m := (at_stage base growing growing m) (only parsing).
Abbreviation marked_since base path d2 m := (at_stage base (marking path d2) (marking path d2) m) (only parsing).
Lemma so_far_marking base path d2 m : so_far base m -> marked_since base path d2 m.
Proof.
  intros Hm. eapply at_stage_weaken; [|eapply stage_safer; [|exact Hm]]; intros d; apply growing_marking.
Qed.
Lemma write_dirty_frame base path p rest m :
  rest_of g path = Some (p :: rest) -> so_far base m ->
  exists m2, extends m m2 /\ extends m2 (snd (write_dirty g p m)) /\ marked_since base path (mc_disk m2) (snd (write_dirty g p m)).
Proof.
  intros Hp Hm. unfold write_dirty, best_effort, mbind. cbn [snd].
  pose proof (create_extends (fst (state_dir g p)) (rev (snd (state_dir g p))) m) as Hx.
  pose proof (create_holds base growing (fst (state_dir g p)) (rev (snd (state_dir g p))) (fun _ Hd => Hd) mkdir_growing m Hm) as Hg.
  destruct (create_dir_all _ _ m) as [[[]|f] m2]; cbn [snd] in *; exists m2.
  2: { split; [done|]. split; [reflexivity | by apply so_far_marking]. }
  split; [done|]. split; [apply write_empty_extends|]. unfold write_empty, mbind, syscall. destruct (io_error _) as [e|].
  { cbn. eapply at_stage_step; [| by apply so_far_marking | ]; apply growing_marking, Hg. }
  pose proof (proj1 Hg) as Hd. destruct (open_truncated _ _) as [[i d']|e] eqn:Eo; cbn.
  all: eapply at_stage_step; [by apply growing_marking | by apply so_far_marking |].
  - by eapply open_marking.
  - by apply growing_marking.
Qed.
Lemma mark_dirty_frame base path p rest m :
  rest_of g path = Some (p :: rest) -> so_far base m ->
  exists m2, extends m m2 /\ extends m2 (snd (mark_dirty g p m)) /\ marked_since base path (mc_disk m2) (snd (mark_dirty g p m)).
Proof.
  intros Hp Hm. destruct (write_dirty_frame base path p rest m Hp Hm) as (m2 & Hx & Hx2 & Hd). exists m2. split; [done|].
  assert (mark_dirty g p m = (remove_if_present (marker_route g p FIX_CYCLES_NAME) ;; remove_if_present (marker_route g p STAGES_NAME))
    (snd (write_dirty g p m))) as -> by done.
  set (m3 := snd (write_dirty g p m)) in *. clearbody m3. split.
  - etransitivity; [exact Hx2|]. apply keeps_bind; [apply remove_extends | intros []; apply remove_extends].
  - assert (keeps (holds base (marking path (mc_disk m2)))
      (remove_if_present (marker_route g p FIX_CYCLES_NAME) ;; remove_if_present (marker_route g p STAGES_NAME))) as Hk.
    { apply keeps_bind; [|intros []]; apply remove_holds; try done; intros d d'; apply remove_marking; auto. }
    exact (Hk m3 Hd).
Qed.
Lemma project_cases path m :
  exists op m1, project_root_of g path m = (Ok op, m1) /\ extends m m1
    /\ (forall base, so_far base m -> so_far base m1)
    /\ (forall p, op = Some p -> exists rest, rest_of g path = Some (p :: rest)).
Proof.
  unfold project_root_of. destruct (rest_of g path) as [[|name [|x rest]]|]; try (by eexists _, _; split; [reflexivity|]).
  all: destruct (negb (is_normal name)); try (by eexists _, _; split; [reflexivity|]).
  - unfold mbind. destruct (stat_returns (below (ge_root g) [name]) m) as (b & m1 & E). rewrite E. eexists _, m1. split; [reflexivity|].
    pose proof (stat_extends (below (ge_root g) [name]) m) as Hx. rewrite E in Hx. split; [done|]. split.
    + intros base Hm. pose proof (stat_holds base growing (below (ge_root g) [name]) (fun _ Hd => Hd) m Hm) as Hs. by rewrite E in Hs.
    + intros p. destruct b; [|done]. intros [= <-]. by eexists.
  - eexists _, _. split; [reflexivity|]. split; [reflexivity|]. split; [done|]. intros p [= <-]. by eexists.
Qed.
(** Marking never fails, and spares what was there. *)
Lemma marking_frame path m : mc_disk m = d1 ->
  exists m2 m', mark_dirty_for_write g path m = (Ok tt, m') /\ extends m m2 /\ extends m2 m'
    /\ marked_since (mc_past m) path (mc_disk m2) m'.
Proof.
  intros Ed. assert (so_far (mc_past m) m) as Hm by (split; [rewrite Ed; apply growing_start | by exists []]).
  assert (exists m2, extends m m2 /\ extends m2 m /\ marked_since (mc_past m) path (mc_disk m2) m) as Hsame.
  { exists m. split; [reflexivity|]. split; [reflexivity | by apply so_far_marking]. }
  unfold mark_dirty_for_write. destruct (negb (ge_on g)); [destruct Hsame as (m2 & Hs); by exists m2, m|].
  destruct (is_under_state_dir g path); [destruct Hsame as (m2 & Hs); by exists m2, m|].
  destruct (project_cases path m) as (op & m1 & E & Hx & Hg & Hp). unfold mbind at 1. rewrite E.
  specialize (Hg _ Hm). destruct op as [p|].
  - destruct (Hp p eq_refl) as [rest Hr]. destruct (mark_dirty_frame (mc_past m) path p rest m1 Hr Hg) as (m2 & Hx1 & Hx2 & Hd).
    exists m2, (snd (mark_dirty g p m1)). split; [done|]. split; [by etransitivity | done].
  - exists m1, m1. split; [done|]. split; [done|]. split; [reflexivity | by apply so_far_marking].
Qed.
End Marking.

(** ** A file is never torn *)

Section Handlers.
Context `{Kernel}.
Implicit Types (g : GateEnv) (m : Machine) (path : rstr).

(** A handler at work on a path. *)
Inductive edits_path g path : FM EditOutcome -> Prop :=
| runs_edit s : edits_path g path (edit_file g path s)
| runs_multi edits : edits_path g path (multi_edit g path edits)
| runs_patch patch : edits_path g path (let! o := apply_patch g path patch in ret (patch_outcome o)).
Lemma handler_shape g path run : edits_path g path run ->
  exists work, disk_edits path work /\ forall m, run m = (let! o := work in mark_dirty_for_write g (eo_path o) ;; ret o) m.
Proof.
  intros [s|edits|patch].
  - exists (edit_on_disk path s). split; [constructor | done].
  - exists (multi_edit_on_disk path edits). split; [constructor | done].
  - exists (let! o := patch_on_disk path patch in ret (patch_outcome o)). split; [constructor|]. intros m.
    unfold apply_patch, mbind. destruct (patch_on_disk path patch m) as [[o|f] m1]; [|done]. cbn [ret patch_outcome eo_path].
    by destruct (mark_dirty_for_write g (ao_path o) m1) as [[[]|f] m2].
Qed.
Lemma extends_twice m m2 m' : extends m m2 -> extends m2 m' ->
  exists new, mc_past m' = new ++ mc_past m /\ In (mc_disk m2) (mc_disk m' :: new).
Proof.
  intros (n1 & E1 & H1) (n2 & E2 & H2). exists (n2 ++ n1). rewrite E2, E1, app_assoc. split; [done|].
  destruct H2 as [-> | H2]; [by left | right; apply in_or_app; by left].
Qed.

(** C25. A crash at any moment of [edit_file], [multi_edit] or [apply_patch] leaves a whole file.
    On every disk from the call to the machine [m1], where the work on the file ends,
    whatever system calls fail: the entry is the one it was or a file with the
    complete new text and the old mode, every other entry but temporary names is as
    it was, and so is every file that existed.  A failure ends there, with the old
    entry.  A success has put the new text in place; on every disk after it only the
    markers of the verification gate change: entries stay but for [fix_cycles] and
    [stages], and files stay but for the one the project's [dirty] leads to, which is
    emptied. *)
Theorem edit_never_torn g path run m e n0 name :
  edits_path g path run ->
  lookup false (route_of path) (mc_disk m) = Ok (e, Some n0) -> file_name path = Some name ->
  numbered (mc_disk m) ->
  exists after mode m1 work,
    mc_past m1 = work ++ mc_past m
    /\ Forall (intact name e n0 after mode (mc_disk m)) (mc_disk m1 :: work)
    /\ match fst (run m) with
       | Err _ => dk_entries (mc_disk m1) !! e = Some n0 /\ snd (run m) = m1
       | Ok o => after = eo_after o /\ text_at (mc_disk m1) e after mode
           /\ read_to_string path (mc_disk m) = Ok (eo_before o)
           /\ (exists meta, editable (mc_disk m) path meta /\ md_mode meta = mode)
           /\ exists markers d2, mc_past (snd (run m)) = markers ++ mc_past m1
                /\ In d2 (mc_disk (snd (run m)) :: markers)
                /\ Forall (marked g (mc_disk m1) path d2) (mc_disk (snd (run m)) :: markers)
       end.
Proof.
  intros Hrun Hl Hn Hnum. destruct (handler_shape g path run Hrun) as (work & Hw & E). rewrite E. clear E.
  destruct (disk_never_torn path work m e n0 name Hw Hl Hn Hnum) as (after & mode & new & Hpast & Hall & Hend).
  pose proof (disk_path path work m Hw) as Hp. unfold mbind. destruct (work m) as [[o|f] m1]; cbn [fst snd] in *.
  2: { exists after, mode, m1, new. by split_and!. }
  rewrite (Hp o eq_refl). destruct Hend as (Ha & Ht & Hr & Hm & Hnum1).
  destruct (marking_frame g (mc_disk m1) Hnum1 path m1 eq_refl) as (m2 & m' & Em & Hx1 & Hx2 & [Hd (marks & Hmk & Hmarks)]).
  exists after, mode, m1, new. rewrite Em. cbn [fst snd ret]. split; [done|]. split; [done|].
  split; [done|]. split; [done|]. split; [done|]. split; [done|].
  destruct (extends_twice m1 m2 m' Hx1 Hx2) as (marks' & Hmk' & Hin).
  assert (marks' = marks) as -> by (rewrite Hmk in Hmk'; by apply app_inv_tail in Hmk').
  exists marks, (mc_disk m2). split; [done|]. split; [done|]. constructor; [apply Hd|].
  eapply Forall_impl; [exact Hmarks|]. intros d [_ Hk]. exact Hk.
Qed.
End Handlers.

(** ** Marking a project on a quiet kernel *)

Section Fits.
Context `{Kernel} (g : GateEnv) (path name : rstr) (e : entry).
Implicit Types (d : Disk) (p : rstr).

(** The project whose markers a write of the path changes, if any. *)
Definition marks_of d : option rstr :=
  if negb (ge_on g) then None
  else if is_under_state_dir g path then None
  else match rest_of g path with
       | Some (p :: rest) =>
           if negb (is_normal p) then None
           else match rest with
                | _ :: _ => Some p
                | [] => if is_dir (below (ge_root g) [p]) d then Some p else None
                end
       | _ => None
       end.
(** The markers do not touch the file: the project's state directory is there, and
    each marker in it is absent or a file of its own. *)
Definition apart d (k : entry) : Prop :=
  k <> e /\ flat (dk_entries d !! k)
  /\ forall i, dk_entries d !! k = Some (Inode i) -> is_Some (dk_files d !! i) /\ dk_entries d !! e <> Some (Inode i).
Definition gate_fits d : Prop :=
  forall p, marks_of d = Some p ->
    is_dir (state_dir g p) d = true
    /\ forall f, In f [DIRTY_NAME; FIX_CYCLES_NAME; STAGES_NAME] ->
         exists k, lookup false (marker_route g p f) d = Ok (k, dk_entries d !! k) /\ apart d k.

Definition disk_alike d d' : Prop := forall k, alike (dk_entries d !! k) (dk_entries d' !! k).
Lemma is_dir_alike r d d' : disk_alike d d' -> is_dir r d = is_dir r d'.
Proof.
  assert (forall a b, disk_alike a b -> is_dir r a = true -> is_dir r b = true) as Hab.
  { intros a b Ha. unfold is_dir. destruct (lookup true r a) as [[k [[i|t|x]|]]|] eqn:El; try done. intros _.
    destruct (lookup_alike a b _ _ _ _ _ _ Ha El) as [El' En]. unfold lookup. rewrite El'.
    destruct (Ha k) as [<- | [[Hf|[j Hf]] _]]; by rewrite <- En in *. }
  intros Ha. assert (disk_alike d' d) as Hb by (intros k; apply alike_sym, Ha).
  destruct (is_dir r d) eqn:E; [symmetry; by apply (Hab d)|]. destruct (is_dir r d') eqn:E'; [|done].
  rewrite <- E. by apply (Hab d').
Qed.
Lemma marks_alike d d' : disk_alike d d' -> marks_of d = marks_of d'.
Proof.
  intros Ha. assert (forall p, is_dir (below (ge_root g) [p]) d = is_dir (below (ge_root g) [p]) d') as E by (intros p; by apply is_dir_alike).
  unfold marks_of. destruct (rest_of g path) as [[|p [|x rest]]|]; rewrite ?E; reflexivity.
Qed.
(** A change of the disk that leaves the markers apart from the file. *)
Record spares d d' : Prop := mkSpares {
  sp_alike : disk_alike d d';
  sp_files : forall i, is_Some (dk_files d !! i) -> is_Some (dk_files d' !! i);
  sp_new : forall k i, k <> e -> dk_entries d' !! k = Some (Inode i) -> dk_entries d !! k = Some (Inode i)
             \/ (is_Some (dk_files d' !! i) /\ dk_entries d' !! e <> Some (Inode i));
  sp_entry : forall i, is_Some (dk_files d !! i) -> dk_entries d !! e <> Some (Inode i) -> dk_entries d' !! e <> Some (Inode i);
}.
Lemma gate_spared d d' : spares d d' -> gate_fits d -> gate_fits d'.
Proof.
  intros [Ha Hf Hn He] Hg p Hp. rewrite <- (marks_alike d d' Ha) in Hp. destruct (Hg p Hp) as [Hd Hm].
  split; [by rewrite <- (is_dir_alike _ d d' Ha)|]. intros f Hin. destruct (Hm f Hin) as (k & El & Hk & Hflat & Hi).
  exists k. destruct (lookup_alike d d' _ _ _ _ _ _ Ha El) as [El' _]. split; [exact El'|]. split; [done|]. split.
  - destruct (Ha k) as [<- | [_ Hk']]; done.
  - intros i Hd'. destruct (Hn k i Hk Hd') as [Hold | Hnew]; [|done]. destruct (Hi i Hold) as [H1 H2].
    split; [by apply Hf | by apply He].
Qed.

(** The file with its text, the markers apart from it. *)
Definition fits (t : rstr) (mode : Z) d : Prop := ready path name e t mode d /\ gate_fits d.
Lemma ready_alike t mode d d' :
  ready path name e t mode d -> disk_alike d d' -> dk_entries d' !! e = dk_entries d !! e ->
  (forall i, dk_entries d !! e = Some (Inode i) -> dk_files d' !! i = dk_files d !! i) ->
  (forall j, dk_fresh d' <= j -> dk_files d' !! j = None) ->
  (forall k tool st, snd k = tmp_name tool name st -> dk_entries d !! k = None -> dk_entries d' !! k = None) ->
  ready path name e t mode d'.
Proof.
  intros [(i & Hl & Hi) Hn Hf Ht] Ha He Hfile Hfresh Htmp. pose proof (lookup_entry _ _ _ _ Hl) as Hei. split; [|exact Hn | exact Hfresh |].
  - exists i. destruct (lookup_alike d d' _ _ _ _ _ _ Ha Hl) as [El _]. unfold lookup. rewrite El, He, Hei, Hfile by done. done.
  - intros tool st. destruct (Ht tool st) as [k Hk]. exists k. destruct (lookup_alike d d' _ _ _ _ _ _ Ha Hk) as [El En].
    unfold lookup. rewrite El. do 2 f_equal. apply (Htmp k tool st); [|done].
    apply lookup_here in Hk as [_ Hk]. unfold sibling in Hk. cbn [snd] in Hk. rewrite last_snoc in Hk. by injection Hk.
Qed.
Lemma marker_not_tmp p f d k n tool st :
  In f [DIRTY_NAME; FIX_CYCLES_NAME; STAGES_NAME] -> lookup false (marker_route g p f) d = Ok (k, n) -> snd k <> tmp_name tool name st.
Proof.
  intros Hin Hl. apply lookup_here in Hl as [_ Hl]. unfold marker_route, below in Hl. cbn [snd] in Hl.
  change [p; STATE_DIR_NAME; f] with ([p; STATE_DIR_NAME] ++ [f]) in Hl. rewrite app_assoc, last_snoc in Hl. injection Hl as <-.
  unfold tmp_name. by destruct Hin as [<- | [<- | [<- | []]]].
Qed.
Lemma open_fits t mode p d i d' :
  fits t mode d -> marks_of d = Some p -> open_truncated (marker_route g p DIRTY_NAME) d = Ok (i, d') -> fits t mode d' /\ disk_alike d d'.
Proof.
  intros [Hr Hg] Hp Ho. destruct (Hg p Hp) as [_ Hm]. destruct (Hm DIRTY_NAME) as (k & El & Hk & Hflat & Hi); [by left|].
  pose proof (fun tool st => marker_not_tmp p DIRTY_NAME d k _ tool st (or_introl eq_refl) El) as Hnt. unfold open_truncated in Ho. unfold lookup at 1 in Ho.
  rewrite (lookup_follow_flat _ _ _ _ _ _ El Hflat) in Ho. cbn [rbind fst snd] in Ho.
  destruct Hflat as [Hnone | [j Hj]]; [rewrite Hnone in * | rewrite Hj in *]; injection Ho as <- <-.
  - assert (disk_alike d (fresh_inode (Files.set_files (<[dk_fresh d:=mkFile (Text []) create_mode]> (dk_files d))
      (set_entries (<[k:=Inode (dk_fresh d)]> (dk_entries d)) d)))) as Ha.
    { intros x. cbn. destruct (decide (k = x)) as [<- | Hne]; [|left; by rewrite lookup_insert_ne].
      right. rewrite Hnone, lookup_insert_eq. split; [by left | right; by eexists]. }
    destruct (rd_inode _ _ _ _ _ _ Hr) as (ie & Hle & Hie). pose proof (lookup_entry _ _ _ _ Hle) as Hee.
    assert (ie <> dk_fresh d) as Hne by (intros ->; by rewrite (rd_fresh _ _ _ _ _ _ Hr) in Hie).
    split; [|exact Ha]. split; [apply (ready_alike t mode d); try done; cbn | apply (gate_spared d); [|exact Hg]; split; [exact Ha|..]; cbn].
    + by rewrite lookup_insert_ne.
    + intros x Hx. rewrite lookup_insert_ne; [done | congruence].
    + intros x Hx. rewrite lookup_insert_ne by lia. apply (rd_fresh _ _ _ _ _ _ Hr). lia.
    + intros x tool st Hx Hd. rewrite lookup_insert_ne; [done|]. intros <-. by apply (Hnt tool st).
    + intros x Hx. destruct (decide (dk_fresh d = x)) as [<- | Hx']; [by rewrite lookup_insert_eq | by rewrite lookup_insert_ne].
    + intros x y Hx. destruct (decide (k = x)) as [<- | Hx']; [|rewrite lookup_insert_ne by done; by left].
      rewrite lookup_insert_eq. intros [= <-]. right. rewrite lookup_insert_eq, lookup_insert_ne by done. split; [done | congruence].
    + intros x _ Hx. by rewrite lookup_insert_ne.
  - assert (disk_alike d (put_content j (Text []) d)) as Ha by (intros x; by left). destruct (Hi j eq_refl) as [Hj1 Hj2].
    split; [|exact Ha]. split; [apply (ready_alike t mode d); try done; cbn | apply (gate_spared d); [|exact Hg]; split; [exact Ha|..]; cbn].
    + intros x Hx. rewrite lookup_alter_ne; [done | congruence].
    + intros x Hx. by rewrite lookup_alter_None, (rd_fresh _ _ _ _ _ _ Hr).
    + intros x Hx. destruct (decide (j = x)) as [<- | Hne]; [by rewrite lookup_alter_eq, fmap_is_Some | by rewrite lookup_alter_ne].
    + intros x y _ Hx. by left.
    + done.
Qed.
Lemma remove_fits t mode p f d d' :
  In f [FIX_CYCLES_NAME; STAGES_NAME] -> fits t mode d -> marks_of d = Some p ->
  remove_file (marker_route g p f) d = Ok (tt, d') -> fits t mode d' /\ disk_alike d d'.
Proof.
  intros Hin [Hr Hg] Hp Ho. destruct (Hg p Hp) as [_ Hm]. destruct (Hm f) as (k & El & Hk & Hflat & Hi); [by right|].
  unfold remove_file in Ho. rewrite El in Ho. cbn [rbind fst snd] in Ho.
  destruct Hflat as [Hnone | [j Hj]]; [by rewrite Hnone in Ho|]. rewrite Hj in Ho. injection Ho as <-.
  assert (disk_alike d (set_entries (delete k (dk_entries d)) d)) as Ha.
  { intros x. cbn. destruct (decide (k = x)) as [<- | Hne]; [|left; by rewrite lookup_delete_ne].
    right. rewrite Hj, lookup_delete_eq. split; [right; by eexists | by left]. }
  split; [|exact Ha]. split; [apply (ready_alike t mode d); try done; cbn | apply (gate_spared d); [|exact Hg]; split; [exact Ha|..]; cbn].
  - by rewrite lookup_delete_ne.
  - apply (rd_fresh _ _ _ _ _ _ Hr).
  - intros x tool st _ Hx. destruct (decide (k = x)) as [<- | Hne]; [by rewrite lookup_delete_eq | by rewrite lookup_delete_ne].
  - done.
  - intros x y _ Hx. left. destruct (decide (k = x)) as [<- | Hne]; [by rewrite lookup_delete_eq in Hx | by rewrite lookup_delete_ne in Hx].
  - intros x _ Hx. by rewrite lookup_delete_ne.
Qed.
End Fits.

Section Quiet.
Context `{Kernel} (Hquiet : forall n, io_error n = None) (g : GateEnv) (path name : rstr) (e : entry).
Implicit Types (m : Machine) (d : Disk) (p : rstr).

Lemma is_dir_count r d : is_dir r (count_call d) = is_dir r d.
Proof. apply is_dir_alike. intros k. by left. Qed.
Lemma query_quiet_dir r m : stat_dir r m = (Ok (is_dir r (mc_disk m)), step_to (count_call (mc_disk m)) m).
Proof.
  unfold stat_dir, mbind, catch.
  rewrite (query_quiet Hquiet _ _ _ (is_dir r (mc_disk m))); [reflexivity|].
  by rewrite is_dir_count.
Qed.
Lemma mkdir_there r d : is_dir r d = true -> mkdir r d = Err EEXIST.
Proof.
  unfold is_dir, mkdir. destruct (lookup true r d) as [[k [[i|t|x]|]]|] eqn:El; try done. intros _.
  destruct (lookup_something _ _ _ _ _ _ El) as (k' & y & El'). unfold lookup. by rewrite El'.
Qed.
Lemma create_there start back m : is_dir (start, rev back) (mc_disk m) = true ->
  exists m', create_dir_all start back m = (Ok tt, m') /\ untouched (mc_disk m) (mc_disk m').
Proof.
  intros Hd. destruct back as [|b parent]; [by exists m|]. cbn [create_dir_all]. unfold mkdir_or_there, mbind, catch.
  unfold syscall at 1. rewrite Hquiet, mkdir_there.
  2: { by rewrite is_dir_count. }
  cbv beta iota. change (rstr_eqb EEXIST ENOENT) with false. cbv beta iota. rewrite query_quiet_dir. cbn [step_to mc_disk].
  rewrite is_dir_count, Hd. by eexists.
Qed.
Lemma untouched_fits t mode d d' : untouched d d' -> fits g path name e t mode d -> fits g path name e t mode d'.
Proof.
  intros Hu [Hr Hg]. pose proof Hu as (E1 & E2 & _). split; [by eapply ready_untouched|].
  apply (gate_spared g path e d); [|done]. split.
  - intros k. left. by rewrite E1.
  - intros i Hi. rewrite E2. exact Hi.
  - intros k i _ Hi. left. rewrite E1 in Hi. exact Hi.
  - intros i _ Hi. rewrite E1. exact Hi.
Qed.

(** The disk of the file and its project, from a call to the next. *)
Definition in_project (t : rstr) (mode : Z) p d : Prop := fits g path name e t mode d /\ marks_of g path d = Some p.
Lemma in_project_untouched t mode p d d' : untouched d d' -> in_project t mode p d -> in_project t mode p d'.
Proof.
  intros Hu [Hf Hp]. split; [by eapply untouched_fits|]. rewrite <- Hp. symmetry. apply marks_alike.
  intros k. left. by rewrite (proj1 Hu).
Qed.
Lemma start_stage (S : Disk -> Prop) m : S (mc_disk m) -> at_stage (mc_past m) S S m.
Proof. intros Hs. split; [done | by exists []]. Qed.
Lemma mark_dirty_fits t mode p m : in_project t mode p (mc_disk m) -> in_project t mode p (mc_disk (snd (mark_dirty g p m))).
Proof.
  intros Hm. assert (forall d, in_project t mode p d -> in_project t mode p (count_call d)) as Hc.
  { intros d. by apply in_project_untouched. }
  assert (in_project t mode p (mc_disk (snd (write_dirty g p m)))) as Hw.
  { destruct (proj2 (proj1 Hm) p (proj2 Hm)) as [Hd _]. unfold write_dirty, best_effort. cbn [snd]. unfold mbind at 1.
    destruct (create_there (fst (state_dir g p)) (rev (snd (state_dir g p))) m) as (m1 & -> & Hu); [by rewrite rev_involutive|].
    apply (in_project_untouched _ _ _ _ _ Hu) in Hm. cbv beta iota.
    refine (proj1 (write_empty_holds (mc_past m1) (in_project t mode p) (marker_route g p DIRTY_NAME) Hc _ m1 (start_stage _ _ Hm))).
    intros d i d' [Hf Hp] Ho. destruct (open_fits _ _ _ _ _ _ _ _ _ _ Hf Hp Ho) as [Hf' Ha]. split; [done|].
    rewrite <- Hp. symmetry. by apply marks_alike. }
  assert (mark_dirty g p m = (remove_if_present (marker_route g p FIX_CYCLES_NAME) ;; remove_if_present (marker_route g p STAGES_NAME))
    (snd (write_dirty g p m))) as -> by done.
  set (m3 := snd (write_dirty g p m)) in *. clearbody m3.
  assert (keeps (holds (mc_past m3) (in_project t mode p))
    (remove_if_present (marker_route g p FIX_CYCLES_NAME) ;; remove_if_present (marker_route g p STAGES_NAME))) as Hk.
  { apply keeps_bind; [|intros []]; apply remove_holds; try exact Hc; intros d d' [Hf Hp] Ho.
    all: edestruct (remove_fits g path name e t mode p) as [Hf' Ha]; [|exact Hf | exact Hp | exact Ho |]; [cbn; auto|].
    all: split; [done|]; rewrite <- Hp; symmetry; by apply marks_alike. }
  exact (proj1 (Hk m3 (start_stage _ _ Hw))).
Qed.
Lemma project_quiet m : ge_on g = true -> is_under_state_dir g path = false ->
  exists m1, project_root_of g path m = (Ok (marks_of g path (mc_disk m)), m1) /\ untouched (mc_disk m) (mc_disk m1).
Proof.
  intros H1 H2. unfold marks_of. rewrite H1, H2. cbn [negb]. unfold project_root_of.
  destruct (rest_of g path) as [[|p [|x rest]]|]; try (by exists m); destruct (negb (is_normal p)); try (by exists m).
  unfold mbind. rewrite query_quiet_dir. by eexists.
Qed.
(** Marking leaves the file as it is, and the markers apart from it. *)
Lemma mark_quiet t mode m : fits g path name e t mode (mc_disk m) ->
  exists m', mark_dirty_for_write g path m = (Ok tt, m') /\ fits g path name e t mode (mc_disk m').
Proof.
  intros Hm. unfold mark_dirty_for_write. destruct (ge_on g) eqn:Eon; [|by exists m].
  destruct (is_under_state_dir g path) eqn:Eu; [by exists m|]. cbn [negb].
  destruct (project_quiet m Eon Eu) as (m1 & E & Hu). unfold mbind at 1. rewrite E. cbv beta iota.
  pose proof (untouched_fits _ _ _ _ Hu Hm) as Hm1. destruct (marks_of g path (mc_disk m)) as [p|] eqn:Ep; [|by exists m1].
  exists (snd (mark_dirty g p m1)). split; [done|].
  apply (mark_dirty_fits t mode p m1). split; [exact Hm1|]. rewrite <- Ep. symmetry. apply marks_alike.
  intros k. left. by rewrite (proj1 Hu).
Qed.

(** ** The handlers on a quiet kernel *)

Lemma new_spares t mode d d' bytes meta :
  ready path name e t mode d -> new_version d bytes e meta d' -> spares e d d'.
Proof.
  intros Hr (E1 & E2 & _). destruct (rd_inode _ _ _ _ _ _ Hr) as (i & Hl & _). pose proof (lookup_entry _ _ _ _ Hl) as He.
  pose proof (rd_fresh _ _ _ _ _ _ Hr _ (Z.le_refl _)) as Hf. split.
  - intros k. rewrite E1. destruct (decide (e = k)) as [<- | Hne]; [|left; by rewrite lookup_insert_ne].
    right. rewrite He, lookup_insert_eq. split; right; by eexists.
  - intros j Hj. rewrite E2, lookup_insert_ne; [done|]. intros <-. rewrite Hf in Hj. by destruct Hj.
  - intros k j Hk. rewrite E1, lookup_insert_ne by done. by left.
  - intros j Hj _. rewrite E1, lookup_insert_eq. intros [= <-]. rewrite Hf in Hj. by destruct Hj.
Qed.
Lemma work_spares work t mode m o m' :
  disk_edits path work -> ready path name e t mode (mc_disk m) -> work m = (Ok o, m') -> spares e (mc_disk m) (mc_disk m').
Proof.
  intros Hw Hr E. destruct (edits_shape path work m Hw) as [(f & Ef) | (tool & plan & Ep)]; [congruence|].
  destruct (rd_inode _ _ _ _ _ _ Hr) as (i & Hl & _).
  pose proof (rewrite_report tool plan path m e (Inode i) name Hl (rd_name _ _ _ _ _ _ Hr)) as Hrep.
  rewrite <- Ep, E in Hrep. destruct Hrep as (meta & _ & _ & [Hnew _]). by eapply new_spares.
Qed.
(** A handler whose work turns the text into [want]. *)
Definition handled {A} (after : A -> rstr) (t : rstr) (mode : Z) (want : option rstr) (r : result Failure A * Machine) : Prop :=
  match want with
  | Some t' => exists o, fst r = Ok o /\ after o = t' /\ fits g path name e t' mode (mc_disk (snd r))
  | None => (exists f, fst r = Err f) /\ ready path name e t mode (mc_disk (snd r))
  end.
Lemma handler_text work t mode m want :
  disk_edits path work -> fits g path name e t mode (mc_disk m) ->
  ends_with path name e mode t want ((let! o := work in ret (eo_after o)) m) ->
  handled eo_after t mode want ((let! o := work in mark_dirty_for_write g (eo_path o) ;; ret o) m).
Proof.
  intros Hw [Hr Hg] Hend. unfold ends_with, handled, mbind in *. pose proof (disk_path path work m Hw) as Hp.
  pose proof (work_spares work t mode m) as Hs. destruct (work m) as [[o|f] m1]; cbn [fst snd ret] in *.
  2: { destruct want as [t1|]; [by destruct Hend as [? _]|]. split; [by eexists | apply Hend]. }
  destruct want as [t'|]; [|by destruct Hend as [[f Hf] _]]. destruct Hend as [[= Ht] Hr1]. rewrite (Hp o eq_refl).
  destruct (mark_quiet t' mode m1) as (m2 & -> & Hf2); [|by exists o].
  split; [done|]. eapply gate_spared; [|exact Hg]. by apply (Hs o m1).
Qed.
Lemma edit_file_handled t mode m s : fits g path name e t mode (mc_disk m) ->
  handled eo_after t mode (edited s t) (edit_file g path s m).
Proof. intros Hf. apply (handler_text (edit_on_disk path s)); [constructor | done | apply edit_file_text, Hf; done]. Qed.

(** The edits of a [multi_edit], each a call of [edit_file]. *)
Fixpoint one_by_one (edits : list EditSpec) : FM unit :=
  match edits with
  | [] => ret tt
  | s :: rest => let! _ := edit_file g path s in one_by_one rest
  end.
Lemma one_by_one_text t mode m edits : fits g path name e t mode (mc_disk m) ->
  match edited_all edits t with
  | Some t' => fst (one_by_one edits m) = Ok tt /\ ready path name e t' mode (mc_disk (snd (one_by_one edits m)))
  | None => exists f, fst (one_by_one edits m) = Err f
  end.
Proof.
  revert t m. induction edits as [|s rest IH]; intros t m Hf; [by split; [|apply Hf]|]. cbn [edited_all one_by_one].
  pose proof (edit_file_handled t mode m s Hf) as Hs. unfold handled, mbind in *.
  destruct (edited s t) as [t'|], (edit_file g path s m) as [[o|f] m1]; cbn [fst snd] in *.
  - destruct Hs as (o' & _ & _ & Hf1). by apply IH.
  - by destruct Hs as (? & ? & _).
  - by destruct Hs as [[? ?] _].
  - by eexists.
Qed.

(** C26. A [multi_edit] is its edits one after the other or nothing.  A call with no
    edits, or with more than [MAX_EDITS], is refused with the machine as it was.  With
    1 to 50 edits, on a file of plain text ([ready]: temporary names and the next
    inodes free) whose project's markers are files of their own ([gate_fits]), and
    when no system call fails: it succeeds exactly when a call of [edit_file] for
    each edit in turn would, with the same text in the end; otherwise the file is
    as it was, where the single calls may have changed it. *)
Theorem multi_edit_one_by_one t mode m edits :
  ready path name e t mode (mc_disk m) -> gate_fits g path e (mc_disk m) ->
  (length edits = 0%nat \/ (MAX_EDITS < length edits)%nat ->
    exists f, multi_edit g path edits m = (Err f, m) /\ kind f = "validation"%string)
  /\ ((1 <= length edits <= MAX_EDITS)%nat ->
    match multi_edit g path edits m, one_by_one edits m with
    | (Ok o, m1), (Ok _, m2) =>
        ready path name e (eo_after o) mode (mc_disk m1) /\ ready path name e (eo_after o) mode (mc_disk m2)
    | (Err _, m1), (Err _, _) => ready path name e t mode (mc_disk m1)
    | _, _ => False
    end).
Proof.
  intros Hr Hg. split.
  - intros Hlen. unfold multi_edit, multi_edit_on_disk, mbind at 1. destruct edits as [|s rest]; [by eexists|].
    destruct Hlen as [Hlen | Hlen]; [done|]. apply Nat.ltb_lt in Hlen. rewrite Hlen. by eexists.
  - intros [H1 H2]. assert (edits <> []) as Hne by (intros ->; cbn in H1; lia).
    pose proof (handler_text (multi_edit_on_disk path edits) t mode m _ (disk_multi _ _) (conj Hr Hg)
      (multi_edit_text Hquiet path name e t mode m edits Hr Hne H2)) as Hm.
    pose proof (one_by_one_text t mode m edits (conj Hr Hg)) as Ho. fold (multi_edit g path edits) in Hm. unfold handled in Hm.
    destruct (edited_all edits t) as [t'|], (multi_edit g path edits m) as [[o|f] m1], (one_by_one edits m) as [[[]|f2] m2];
      cbn [fst snd] in *; try (by destruct Hm as (? & ? & _)); try (by destruct Hm as [[? ?] _]); try (by destruct Ho).
    + destruct Hm as (o' & [= <-] & -> & [Hm _]). by destruct Ho.
    + by destruct Hm as [_ Hm].
Qed.

Lemma apply_patch_handled t t' mode m patch o m1 :
  fits g path name e t mode (mc_disk m) -> patch_on_disk path patch m = (Ok o, m1) -> ready path name e t' mode (mc_disk m1) ->
  exists m2, apply_patch g path patch m = (Ok o, m2) /\ fits g path name e t' mode (mc_disk m2).
Proof.
  intros [Hr Hg] E Hr1. assert ((let! o := patch_on_disk path patch in ret (patch_outcome o)) m = (Ok (patch_outcome o), m1)) as E'.
  { unfold mbind. by rewrite E. }
  pose proof (disk_path path _ m (disk_patch path patch) (patch_outcome o)) as Hp. rewrite E' in Hp. specialize (Hp eq_refl).
  unfold apply_patch, mbind. rewrite E. cbn in Hp. rewrite Hp.
  destruct (mark_quiet t' mode m1) as (m2 & -> & Hf); [|by exists m2].
  split; [done|]. eapply gate_spared; [|exact Hg]. by apply (work_spares _ t mode m (patch_outcome o) m1 (disk_patch path patch)).
Qed.
Lemma patch_text_handled mode m ps tail ended :
  fits g path name e (file_text (old_lines ps ++ tail) ended) mode (mc_disk m) -> ps <> [] -> payloads_portable ps ->
  Z.of_nat (length (old_lines ps)) < u64_max -> Z.of_nat (length (new_lines ps)) < u64_max ->
  file_shape (old_lines ps ++ tail) ended ->
  exists o m', apply_patch g path (patch_text (hunks_of 0 0 ps)) m = (Ok o, m')
    /\ fits g path name e (file_text (new_lines ps ++ tail) ended) mode (mc_disk m').
Proof.
  intros Hf Hne Hp Ho Hn Hs. pose proof Hf as [Hr _].
  destruct (apply_patch_text Hquiet path name e mode m ps tail ended Hr Hne Hp Ho Hn Hs) as (o & m1 & E & Hr1).
  exists o. by apply (apply_patch_handled _ _ _ _ _ _ _ Hf E Hr1).
Qed.

(** C27. A patch and its reverse.  Take a file of plain text that may be edited
    ([ready]) whose project's markers are files of their own ([gate_fits]), no system
    call that fails, and two versions of its text that both end in a line feed, with a
    line before it, or both do not ([file_shape]).  The diff between them, written
    with any context and with no line that ends in a carriage return
    ([payloads_portable]), each hunk numbered by the first line it covers or, for
    pure additions, the line they go before ([hunks_of]), changes the one into the
    other; the diff with additions and deletions exchanged changes it back, mode
    and final line feed included. *)
Theorem apply_patch_undone mode m ps tail ended :
  ready path name e (file_text (old_lines ps ++ tail) ended) mode (mc_disk m) -> gate_fits g path e (mc_disk m) ->
  ps <> [] -> payloads_portable ps ->
  Z.of_nat (length (old_lines ps)) < u64_max -> Z.of_nat (length (new_lines ps)) < u64_max ->
  file_shape (old_lines ps ++ tail) ended -> file_shape (new_lines ps ++ tail) ended ->
  exists o m1, apply_patch g path (patch_text (hunks_of 0 0 ps)) m = (Ok o, m1)
    /\ ready path name e (file_text (new_lines ps ++ tail) ended) mode (mc_disk m1)
    /\ exists o' m2, apply_patch g path (patch_text (hunks_of 0 0 (reversed ps))) m1 = (Ok o', m2)
       /\ ready path name e (file_text (old_lines ps ++ tail) ended) mode (mc_disk m2).
Proof.
  intros Hr Hg Hne Hp Ho Hn Hs Hs'. destruct (patch_text_handled mode m ps tail ended (conj Hr Hg)) as (o & m1 & E1 & Hf1); try done.
  exists o, m1. split; [done|]. split; [apply Hf1|]. destruct (reversed_lines ps) as [Eo En].
  rewrite <- Eo in Hf1, Hs'. destruct (patch_text_handled mode m1 (reversed ps) tail ended Hf1) as (o' & m2 & E2 & [Hr2 _]); try done.
  - by destruct ps.
  - by apply portable_reversed.
  - by rewrite Eo.
  - by rewrite En.
  - exists o', m2. split; [done|]. by rewrite En in Hr2.
Qed.
End Quiet.

(** ** Examples *)

(** A project with a file, whose stages have passed; a session with the gate on. *)
Definition app_disk : Disk :=
  mkDisk (list_to_map [((1, lit "data"), Directory 2); ((2, lit "app"), Directory 3); ((3, lit "a.txt"), Inode 5);
                       ((3, lit ".copperclaw"), Directory 4); ((4, lit "stages"), Inode 6)])
    (list_to_map [(5, mkFile (Text (lit "one two")) 493); (6, mkFile (Text (lit "{}")) 420)]) 7 0.
Definition app_machine : Machine := mkMachine app_disk [].
Definition app_path : rstr := lit "/data/app/a.txt".
Definition gate_on : GateEnv := mkGateEnv true (lit "/data").

Lemma app_numbered : numbered app_disk.
Proof.
  assert (map_Forall (fun (k : entry) (_ : Node) => fst k < 7) (dk_entries app_disk)) as He by (apply (bool_decide_unpack _); by vm_compute).
  assert (map_Forall (fun (i : Z) (_ : FileData) => i < 7) (dk_files app_disk)) as Hf by (apply (bool_decide_unpack _); by vm_compute).
  split; [|exact He]. intros i Hi. apply eq_None_not_Some. intros [f Hx]. specialize (Hf _ _ Hx). cbn in *. lia.
Qed.
Lemma app_ready : ready app_path (lit "a.txt") (3, lit "a.txt") (lit "one two") 493 app_disk.
Proof.
  split.
  - exists 5. by vm_compute.
  - by vm_compute.
  - apply (nb_files _ app_numbered).
  - intros tool st. exists (3, tmp_name tool (lit "a.txt") st).
    assert (sibling app_path (tmp_name tool (lit "a.txt") st) = (1, [lit "data"; lit "app"; tmp_name tool (lit "a.txt") st])) as -> by done.
    unfold lookup. cbn [fst snd]. rewrite !lookup_unfold. cbv zeta.
    change (dk_entries app_disk !! (1, lit "data")) with (Some (Directory 2)). cbv beta iota. rewrite !lookup_unfold. cbv zeta.
    change (dk_entries app_disk !! (2, lit "app")) with (Some (Directory 3)). cbv beta iota. rewrite lookup_unfold. cbv zeta.
    destruct (tmp_name_differs tool (lit "a.txt") st) as [H1 H2]. set (n := tmp_name tool (lit "a.txt") st) in *.
    assert (dk_entries app_disk !! (3, n) = None) as ->; [|done].
    apply not_elem_of_list_to_map_1. cbn [fmap list_fmap fst]. rewrite !not_elem_of_cons. unfold n, tmp_name in *.
    repeat split; try congruence; try apply not_elem_of_nil; intros E; discriminate E.
Qed.
Lemma app_gate : gate_fits gate_on app_path (3, lit "a.txt") app_disk.
Proof.
  intros p Hp. assert (p = lit "app") as -> by (vm_compute in Hp; by injection Hp). split; [by vm_compute|].
  intros f Hf. exists (4, f). destruct Hf as [<- | [<- | [<- | []]]]; (split; [by vm_compute|]); (split; [done|]).
  1, 2: split; [left; by vm_compute|]; intros i Hi; by vm_compute in Hi.
  split; [right; exists 6; by vm_compute|]. intros i Hi. assert (i = 6) as -> by (vm_compute in Hi; by injection Hi).
  split; [by eexists; vm_compute | by vm_compute].
Qed.
(** The file is edited, and the project is dirty with no stage passed. *)
Lemma edit_never_torn_witness :
  let w := @edit_file calm_kernel gate_on app_path example_edit app_machine in
  (exists m1, text_at (mc_disk m1) (3, lit "a.txt") (lit "one three") 493
    /\ exists markers d2, mc_past (snd w) = markers ++ mc_past m1
      /\ Forall (marked gate_on (mc_disk m1) app_path d2) (mc_disk (snd w) :: markers))
  /\ text_at (mc_disk (snd w)) (3, lit "a.txt") (lit "one three") 493
  /\ text_at (mc_disk (snd w)) (4, lit "dirty") [] 420 /\ dk_entries (mc_disk (snd w)) !! (4, lit "stages") = None.
Proof.
  intros w. split.
  - destruct (@edit_never_torn calm_kernel gate_on app_path _ app_machine (3, lit "a.txt") (Inode 5) (lit "a.txt")
      (@runs_edit calm_kernel gate_on app_path example_edit) ltac:(by vm_compute) ltac:(by vm_compute) app_numbered)
      as (after & mode & m1 & work & _ & _ & Hend).
    fold w in Hend. set (o := mkOutcome app_path 1 (lit "one two") (lit "one three")).
    assert (fst w = Ok o) as Hw by (by vm_compute). rewrite Hw in Hend.
    destruct Hend as (-> & Ht & _ & (meta & (lm & Hs & Hm & _) & <-) & markers & d2 & Hpast & _ & Hall).
    vm_compute in Hs. injection Hs as <-. cbn in Hm. subst meta.
    exists m1. split; [exact Ht|]. exists markers, d2. split; [exact Hpast | exact Hall].
  - split; [exists 7; by vm_compute|]. split; [exists 8; by vm_compute | by vm_compute].
Defined.
(** The disk is full at the rename: nothing is marked, and the file is the old one. *)
Example full_disk_keeps_file :
  let w := @edit_file full_kernel gate_on app_path example_edit app_machine in
  fst w = Err (RenameFailed (lit "No space left on device (os error 28)"))
  /\ text_at (mc_disk (snd w)) (3, lit "a.txt") (lit "one two") 493 /\ length (mc_past (snd w)) = 8%nat
  /\ dk_entries (mc_disk (snd w)) !! (4, lit "dirty") = None /\ dk_entries (mc_disk (snd w)) !! (4, lit "stages") = Some (Inode 6).
Proof. split; [by vm_compute|]. split; [exists 5; by vm_compute|]. split; [by vm_compute|]. split; by vm_compute. Qed.
(** When [dirty] is a link to the file that is edited, marking empties the file. *)
Definition linked_disk : Disk :=
  mkDisk (<[(4, lit "dirty") := Symlink (lit "../a.txt")]> (<[(4, lit "..") := Directory 3]> (dk_entries app_disk)))
    (dk_files app_disk) 7 0.
Example linked_marker_empties :
  let w := @edit_file calm_kernel gate_on app_path example_edit (mkMachine linked_disk []) in
  fst w = Ok (mkOutcome app_path 1 (lit "one two") (lit "one three")) /\ text_at (mc_disk (snd w)) (3, lit "a.txt") [] 493.
Proof. split; [by vm_compute|]. exists 7. by vm_compute. Qed.

Lemma multi_edit_one_by_one_witness :
  match @multi_edit calm_kernel gate_on app_path example_edits app_machine,
        @one_by_one calm_kernel gate_on app_path example_edits app_machine with
  | (Ok o, m1), (Ok _, m2) =>
      ready app_path (lit "a.txt") (3, lit "a.txt") (eo_after o) 493 (mc_disk m1)
      /\ ready app_path (lit "a.txt") (3, lit "a.txt") (eo_after o) 493 (mc_disk m2)
  | (Err _, m1), (Err _, _) => ready app_path (lit "a.txt") (3, lit "a.txt") (lit "one two") 493 (mc_disk m1)
  | _, _ => False
  end /\ match fst (@multi_edit calm_kernel gate_on app_path example_edits app_machine) with
        | Ok o => eo_after o = lit "onE thrEE" | Err _ => False end.
Proof.
  split; [|by vm_compute].
  refine (proj2 (@multi_edit_one_by_one calm_kernel (fun _ => eq_refl) gate_on app_path _ _ _ _ app_machine example_edits app_ready app_gate) _).
  cbn. unfold MAX_EDITS. lia.
Defined.
(** The file, edited in its only line and back. *)
Lemma apply_patch_undone_witness :
  exists o m1, @apply_patch calm_kernel gate_on app_path (patch_text (hunks_of 0 0 [([], [DeleteLine (lit "one two"); AddLine (lit "two"); AddLine (lit "one")])]))
      app_machine = (Ok o, m1)
    /\ ready app_path (lit "a.txt") (3, lit "a.txt") (join newline [lit "two"; lit "one"]) 493 (mc_disk m1)
    /\ exists o' m2, @apply_patch calm_kernel gate_on app_path (patch_text (hunks_of 0 0 [([], [AddLine (lit "one two"); DeleteLine (lit "two"); DeleteLine (lit "one")])]))
        m1 = (Ok o', m2)
      /\ ready app_path (lit "a.txt") (3, lit "a.txt") (lit "one two") 493 (mc_disk m2).
Proof.
  refine (@apply_patch_undone calm_kernel (fun _ => eq_refl) gate_on app_path (lit "a.txt") (3, lit "a.txt") 493 app_machine
    [([], [DeleteLine (lit "one two"); AddLine (lit "two"); AddLine (lit "one")])] [] false app_ready app_gate _ _ _ _ _ _).
  - done.
  - repeat constructor; cbn; intros Hc; repeat destruct Hc as [Hc|Hc]; done.
  - by vm_compute.
  - by vm_compute.
  - split; [|right; by exists [], (lit "one two")].
    repeat constructor. cbn. intros Hc. repeat destruct Hc as [Hc|Hc]; done.
  - split; [|right; by exists [lit "two"], (lit "one")].
    repeat constructor; cbn; intros Hc; repeat destruct Hc as [Hc|Hc]; done.
Defined.
