(* ===== verification/SelfReview.v ===== *)
(** The two gates on the last todo of a session
    ([copperclaw-mcp/src/tools/self_review.rs]): the diff of a project must have been
    reviewed since its last change, and a project whose interface was ever looked at
    must have been looked at again; with the tool [self_review] and the hooks of the
    runner's dispatch ([copperclaw-runner/src/run/tool_dispatch.rs]).

    Git and SHA-256 are the class [Git].  The tool is modelled for the projects under
    the data root, the only ones the gates look at; the texts of a diff are those
    [git2] prints. *)
From S2P Require Import Prelude Files VerifyGate.

Definition REVIEW_CYCLE_CAP : Z := 2.
Definition SEE_FIX_CYCLE_CAP : Z := 2.
Definition DEFAULT_CHUNK_BYTES : Z := 20000.
Definition MAX_CHUNK_BYTES : Z := 200000.
Definition MAX_FINDINGS_STORED : nat := 20.
Definition MAX_FINDING_CHARS : nat := 300.

(** An object id is its hexadecimal text. *)
Record ReviewMarker : Type := mkReviewMarker {
  rm_base : option rstr;
  rm_workdir_hash : rstr;
  rm_reviewed_at : Z;
  rm_findings : list rstr;
  rm_findings_count : Z;
}.
(** A line [git2] hands to the callback of [diff.print]. *)
Record DiffLine : Type := mkDiffLine {
  dl_path : rstr;
  dl_origin : rchar;
  dl_content : rstr;
}.
Record FileChange : Type := mkFileChange {
  fc_path : rstr;
  fc_additions : Z;
  fc_deletions : Z;
}.
Record DiffResult : Type := mkDiffResult {
  df_text : rstr;
  df_files_changed : list FileChange;
}.

Class Git (Repo : Type) : Type := {
  (* [Repository::open] of a directory with a repository *)
  repo_open_error : Repo -> option rstr;
  is_bare : Repo -> bool;
  (* [repo.head()], when it does not fail, and [peel_to_commit] *)
  repo_head : Repo -> option (result rstr rstr);
  (* the first id of the walk from HEAD, oldest first *)
  oldest_commit : Repo -> result rstr (option rstr);
  diff_lines : Repo -> option rstr -> result rstr (list DiffLine);
  parse_oid : rstr -> option rstr;
  sha256_hex : rstr -> rstr;
  print_marker : ReviewMarker -> rstr;
  parse_marker : rstr -> option ReviewMarker;
}.
Class GoodGit Repo `{Git Repo} : Prop := {
  marker_parses : forall m, parse_marker (print_marker m) = Some m;
  head_parses : forall g oid, repo_head g = Some (Ok oid) -> parse_oid oid = Some oid;
}.

Inductive ReviewState : Type := NeverReviewed | Dirty | Clean | NotApplicable.
Inductive SeeFixState : Type := NotUiTask | NeedsScreenshot | Satisfied.
Inductive ReviewError : Type :=
| NotADirectory
| NotARepo
| GitFailed (what e : rstr)
| BothForms
| MarkerNotWritten.

(** ** The diff of a project *)

(** [is_state_dir_path]. *)
Definition is_state_dir_path (path : rstr) : bool :=
  match components path with c :: _ => rstr_eqb c STATE_DIR_NAME | [] => false end.
Fixpoint count_change (path : rstr) (origin : rchar) (l : list FileChange) : list FileChange :=
  let add := if origin =? chr "+" then 1 else 0 in
  let del := if origin =? chr "-" then 1 else 0 in
  match l with
  | [] => [mkFileChange path add del]
  | c :: l' =>
      if rstr_eqb path (fc_path c) then mkFileChange path (fc_additions c + add) (fc_deletions c + del) :: l'
      else if rstr_leb path (fc_path c) then mkFileChange path add del :: l
      else c :: count_change path origin l'
  end.
Definition printed_line (l : DiffLine) : rstr :=
  let c := dl_origin l in
  (if (c =? chr " ") || (c =? chr "+") || (c =? chr "-") then [c] else []) ++ dl_content l.
Definition compute_lines (lines : list DiffLine) : DiffResult :=
  let shown := List.filter (fun l => negb (is_state_dir_path (dl_path l))) lines in
  mkDiffResult (concat (map printed_line shown))
    (fold_left (fun acc l => count_change (dl_path l) (dl_origin l) acc) shown []).

Section Review.
Context {Repo : Type} `{Git Repo} `{MarkerIO}.
Implicit Types (r : Root Repo) (p : rstr) (repo : Repo).

Definition compute_project_diff repo (base : option rstr) : result rstr DiffResult :=
  let? lines := diff_lines repo base in Ok (compute_lines lines).
Definition hash_text (text : rstr) : rstr := sha256_hex text.
Definition head_oid repo : result rstr (option rstr) :=
  match repo_head repo with
  | Some (Ok oid) => Ok (Some oid)
  | Some (Err e) => Err e
  | None => Ok None
  end.
Definition first_commit_oid repo : result rstr (option rstr) :=
  match repo_head repo with
  | None => Ok None
  | Some _ => oldest_commit repo
  end.
Definition read_marker r p : option ReviewMarker :=
  match read_best_effort r p REVIEWED_MARKER_FILE with
  | Some text => parse_marker text
  | None => None
  end.
Definition marker_base (m : ReviewMarker) : option rstr :=
  match rm_base m with Some s => parse_oid s | None => None end.
Definition repo_of r p : option Repo := pj_git (project r p).

(** ** The state of a review *)

Definition review_state r p : ReviewState :=
  match repo_of r p with
  | None => NotApplicable
  | Some repo =>
      if (match repo_open_error repo with Some _ => true | None => is_bare repo end) then NotApplicable
      else match read_marker r p with
           | None => NeverReviewed
           | Some marker =>
               match compute_project_diff repo (marker_base marker) with
               | Ok diff => if rstr_eqb (hash_text (df_text diff)) (rm_workdir_hash marker) then Clean else Dirty
               | Err _ => NotApplicable
               end
           end
  end.
Definition needs_review r p : bool :=
  match review_state r p with NeverReviewed | Dirty => true | Clean | NotApplicable => false end.
Definition scan_projects_needing_review r : list rstr := scan needs_review r.
Definition review_cycles r p : Z := read_counter r p REVIEW_CYCLES_FILE.
Definition record_review_refusal r p : Z * Root Repo :=
  let new_count := sat_add u32_max (review_cycles r p) 1 in
  (new_count, write_best_effort r p REVIEW_CYCLES_FILE (show_z new_count)).
Definition reset_review_cycles r p : Root Repo := remove_if_present r p REVIEW_CYCLES_FILE.

(** ** Screenshots *)

Definition is_ui_task r p : bool :=
  match fault r p SCREENSHOTS_DIR Read with
  | Some _ => false
  | None => (0 <? pj_captures (project r p))%nat
  end.
Definition mark_needs_screenshot r p : Root Repo :=
  if is_ui_task r p then write_best_effort r p NEEDS_SCREENSHOT_FILE [] else r.
Definition reset_screenshot_cycles r p : Root Repo := remove_if_present r p SCREENSHOT_CYCLES_FILE.
Definition clear_needs_screenshot r p : Root Repo :=
  reset_screenshot_cycles (remove_if_present r p NEEDS_SCREENSHOT_FILE) p.
Definition see_fix_state r p : SeeFixState :=
  if negb (is_ui_task r p) then NotUiTask
  else if try_exists r p NEEDS_SCREENSHOT_FILE then NeedsScreenshot else Satisfied.
Definition needs_screenshot r p : bool :=
  match see_fix_state r p with NeedsScreenshot => true | _ => false end.
Definition screenshot_cycles r p : Z := read_counter r p SCREENSHOT_CYCLES_FILE.
Definition record_screenshot_refusal r p : Z * Root Repo :=
  let new_count := sat_add u32_max (screenshot_cycles r p) 1 in
  (new_count, write_best_effort r p SCREENSHOT_CYCLES_FILE (show_z new_count)).
Definition scan_projects_needing_screenshot r : list rstr := scan needs_screenshot r.
Definition scan_ui_task_projects r : list rstr := scan is_ui_task r.
Definition mark_all_ui_tasks_need_screenshot r : Root Repo :=
  fold_left mark_needs_screenshot (scan_ui_task_projects r) r.
Definition clear_all_needs_screenshot r : Root Repo :=
  fold_left clear_needs_screenshot (scan_projects_needing_screenshot r) r.

(** What the runner does after a tool call that succeeded. *)
Inductive SeeFixAction : Type := Clear | Mark | NoAction.
Definition see_fix_action (tool_name : rstr) : SeeFixAction :=
  if rstr_eqb tool_name (lit "ui_screenshot") then Clear
  else if existsb (rstr_eqb tool_name) (map lit ["edit_file"; "multi_edit"; "apply_patch"; "copy_file"]%string) then Mark
  else NoAction.
Definition apply_see_fix_hooks (ctx : GateCfg) (tool_name : rstr) r : Root Repo :=
  match see_fix_action tool_name with
  | NoAction => r
  | Clear => if verify_gate_enabled ctx then clear_all_needs_screenshot r else r
  | Mark => if verify_gate_enabled ctx then mark_all_ui_tasks_need_screenshot r else r
  end.
(** What [write_file] does after it wrote [path]. *)
Definition after_write_file (ctx : GateCfg) (path : rstr) r : Root Repo :=
  let r := mark_dirty_for_write ctx path r in
  if verify_gate_enabled ctx && negb (str_contains (lit "/.copperclaw/") path) then
    match project_root_of r path with Some p => mark_needs_screenshot r p | None => r end
  else r.

(** ** The tool *)

Record Input : Type := mkInput {
  in_project : rstr;
  in_offset : option Z;
  in_limit : option Z;
  in_findings : option (list rstr);
  in_no_findings : option bool;
}.
Inductive Since : Type := LastReview | FirstCommit.
(** [rd_diff] is the window of bytes, which [from_utf8_lossy] turns into text. *)
Record ReadReply : Type := mkRead {
  rd_since : Since;
  rd_diff : list Z;
  rd_offset : Z;
  rd_total_bytes : Z;
  rd_truncated : bool;
  rd_files_changed : list FileChange;
  rd_reviewed_before : bool;
}.
Record SubmitReply : Type := mkSubmit {
  sb_no_findings : bool;
  sb_findings_recorded : Z;
}.
Inductive Reply : Type := ReadDone (r : ReadReply) | SubmitDone (s : SubmitReply).

Definition ellipsis_char : rchar := 8230.
Definition truncate_chars (s : rstr) (max : nat) : rstr :=
  if (length s <=? max)%nat then s else take (max - 1) s ++ [ellipsis_char].
Definition open_project_repo r p : result ReviewError Repo :=
  match repo_of r p with
  | None => Err NotARepo
  | Some repo => match repo_open_error repo with
                 | Some e => Err (GitFailed (lit "open repo") e)
                 | None => Ok repo
                 end
  end.
Definition git_call {A} (what : rstr) (x : result rstr A) : result ReviewError A :=
  match x with Ok a => Ok a | Err e => Err (GitFailed what e) end.
Definition window (bytes : list Z) (offset limit : Z) : Z * Z :=
  let total := Z.of_nat (length bytes) in
  let start := Z.min offset total in
  (start, Z.min (sat_add u64_max limit start) total).
Definition read_blocking r p (offset limit : Z) : result ReviewError ReadReply :=
  let? repo := open_project_repo r p in
  let marker := read_marker r p in
  let? base := match marker with
               | Some m => Ok (marker_base m)
               | None => git_call (lit "first commit") (first_commit_oid repo)
               end in
  let? diff := git_call (lit "diff") (compute_project_diff repo base) in
  let bytes := utf8 (df_text diff) in
  let '(start, end_) := window bytes offset limit in
  let total := Z.of_nat (length bytes) in
  Ok (mkRead (match marker with Some _ => LastReview | None => FirstCommit end)
        (take (Z.to_nat (end_ - start)) (drop (Z.to_nat start) bytes))
        start total (end_ <? total) (df_files_changed diff)
        (match marker with Some _ => true | None => false end)).

(** [write_marker]: the directory, then the file; a failure is reported. *)
Definition write_marker r p (m : ReviewMarker) : bool * Root Repo :=
  let done := match fault r p REVIEWED_MARKER_FILE MakeDir, fault r p REVIEWED_MARKER_FILE Write with
              | None, None => true
              | _, _ => false
              end in
  (done, write_best_effort r p REVIEWED_MARKER_FILE (print_marker m)).
Definition review_of (now : Z) (base : option rstr) (diff : DiffResult) (findings : list rstr) : ReviewMarker :=
  mkReviewMarker base (hash_text (df_text diff)) now
    (map (fun f => truncate_chars f MAX_FINDING_CHARS) (take MAX_FINDINGS_STORED findings))
    (Z.of_nat (length findings)).
Definition submit_blocking r p (findings : list rstr) : result ReviewError SubmitReply * Root Repo :=
  match (let? repo := open_project_repo r p in
         let? new_base := git_call (lit "head") (head_oid repo) in
         let? diff := git_call (lit "diff") (compute_project_diff repo new_base) in
         Ok (review_of (rt_now r) new_base diff findings)) with
  | Err e => (Err e, r)
  | Ok m =>
      match write_marker r p m with
      | (true, r') => (Ok (mkSubmit (match findings with [] => true | _ => false end) (Z.of_nat (length findings))), r')
      | (false, r') => (Err MarkerNotWritten, r')
      end
  end.
Definition self_review (input : Input) r : result ReviewError Reply * Root Repo :=
  let p := in_project input in
  match rt_projects r !! p with
  | None => (Err NotADirectory, r)
  | Some _ =>
      let no_findings := default false (in_no_findings input) in
      let findings := default [] (in_findings input) in
      let some_findings := match findings with [] => false | _ => true end in
      if no_findings && some_findings then (Err BothForms, r)
      else if no_findings || some_findings then
        let '(x, r') := submit_blocking r p findings in
        (let? s := x in Ok (SubmitDone s), r')
      else
        let offset := default 0 (in_offset input) in
        let limit := Z.min (Z.max 1 (default DEFAULT_CHUNK_BYTES (in_limit input))) MAX_CHUNK_BYTES in
        (let? d := read_blocking r p offset limit in Ok (ReadDone d), r)
  end.
End Review.
