(* ===== verification/Todo.v ===== *)
(** The todo list of a session ([copperclaw-mcp/src/tools/todo.rs]) with the three gates
    a completed todo passes, and the list it hands to the channels.

    The store is the file as [serde_json] reads it; it is replaced as a whole by a
    rename.  A handler holds the lock of the store from its first read to its last
    write, so that the handlers of one batch are one after the other. *)
From S2P Require Import Prelude TodoSchema Files VerifyGate SelfReview.

(** ** Items *)

Inductive TodoStatus : Type := Pending | InProgress | Completed | Blocked.
#[export] Instance TodoStatus_eq_dec : EqDecision TodoStatus.
Proof. solve_decision. Defined.
Record TodoItem : Type := mkTodo {
  td_id : Z;
  td_text : rstr;
  td_status : TodoStatus;
  td_created_at : Z;
  td_updated_at : Z;
  td_blocked_reason : option rstr;
}.
Definition next_id (items : list TodoItem) : Z :=
  sat_add u32_max (fold_left Z.max (map td_id items) 0) 1.

(** ** The list for the channels *)

Definition status_to_wire (s : TodoStatus) : TodoItemStatus :=
  match s with
  | Pending => WirePending
  | InProgress => WireInProgress
  | Blocked => WireBlocked
  | Completed => WireCompleted
  end.
Definition is_blocked (s : TodoStatus) : bool := match s with Blocked => true | _ => false end.
Definition wire_text (text : rstr) : rstr :=
  let trimmed := trim text in
  if (MAX_ITEM_TEXT_CHARS <? length trimmed)%nat then take (MAX_ITEM_TEXT_CHARS - 1) trimmed ++ [ellipsis_char] else trimmed.
Definition wire_item (it : TodoItem) : TodoListItem :=
  mkWire (td_id it) (wire_text (td_text it)) (status_to_wire (td_status it))
    (if is_blocked (td_status it) then td_blocked_reason it else None).
Definition build_wire_list (items : list TodoItem) : option WireList :=
  match items with
  | [] => None
  | _ => Some (mkWireList (map wire_item (take MAX_ITEMS items)) None)
  end.

(** ** Evidence *)

Definition FORBIDDEN_GENERIC : list rstr :=
  map lit ["done"; "complete"; "completed"; "finished"; "all set"; "all done"; "good to go"; "ready"; "yes"; "ok";
           "okay"; "all good"; "looks good"; "lgtm"; "shipped"; "wrapped up"]%string.
Definition MIN_EVIDENCE_LEN : Z := 40.
Definition VERIFICATION_VERBS : list rstr :=
  map lit ["ran "; "tested "; "test "; "tests "; "verified "; "verify "; "checked "; "check "; "validated "; "validate ";
           "confirmed "; "confirm "; "passed"; "succeeded"; "succeed "; "output"; "returned "; "started "; "starts ";
           "listed "; "responded"; "executed "; "execute "; "compiled"; "compile "; "built "; "build succeeded"]%string.
Definition is_ascii_alphanumeric (c : rchar) : bool :=
  is_ascii_digit c || ((65 <=? c) && (c <=? 90)) || ((97 <=? c) && (c <=? 122)).
(** What follows the last dot, [rsplit_once('.')]. *)
Definition after_last_dot (s : rstr) : option rstr :=
  match split_once (chr ".") (rev s) with Some (ext, _) => Some (rev ext) | None => None end.
Definition trim_closing (s : rstr) : rstr :=
  rev (trim_start_by (fun c => existsb (Z.eqb c) (lit ",.;)]")) (rev s)).
Definition path_shaped (tok : rstr) : bool := existsb (Z.eqb (chr "/")) tok && (3 <=? byte_len tok).
Definition extension_shaped (tok : rstr) : bool :=
  match after_last_dot tok with
  | None => false
  | Some ext =>
      let ext := trim_closing ext in
      (2 <=? byte_len ext) && (byte_len ext <=? 6) && forallb is_ascii_alphanumeric ext
  end.
Definition evidence_has_concrete_signal (text : rstr) : bool :=
  let lowered := map to_ascii_lowercase text in
  existsb path_shaped (split_whitespace lowered)
  || existsb extension_shaped (split_whitespace lowered)
  || existsb (fun v => str_contains v lowered) VERIFICATION_VERBS.
Definition is_acceptable_evidence (text : rstr) : bool :=
  let trimmed := trim text in
  if byte_len trimmed <? MIN_EVIDENCE_LEN then false
  else if existsb (rstr_eqb (map to_ascii_lowercase trimmed)) FORBIDDEN_GENERIC then false
  else evidence_has_concrete_signal trimmed.

(** ** The store *)

Inductive Store : Type :=
| NoStore
| Items (items : list TodoItem)
| Unparsable.
Inductive StoreAccess : Type := ReadStore | WriteTemp | RenameTemp | RenameCorrupt | RemoveStore.
Class TodoIO : Type := { store_fault : Z -> StoreAccess -> bool }.
Class GoodTodoIO `{TodoIO} : Prop := { no_store_fault : forall t a, store_fault t a = false }.

(** What is outstanding of a dirty project, for the message. *)
Inductive CmdHint : Type :=
| NoVerifyRecorded
| MissingOrFailing (pending : list Stage).
Inductive ToolError : Type :=
| TextRequired
| NothingToUpdate
| NoSuchTodo (id : Z)
| EvidenceRequired
| EvidenceTooWeak
| UnverifiedChanges (id : Z) (project : rstr) (hint : CmdHint) (remaining : Z)
| NotSelfReviewed (id : Z) (project : rstr) (remaining : Z)
| NoFreshScreenshot (id : Z) (project : rstr) (remaining : Z)
| StoreUnreadable
| StoreUnwritable.

Section Todos.
Context {Repo : Type} `{Git Repo} `{MarkerIO} `{TodoIO}.

(** [ss_emits] are the lists handed to the outbound pipeline, oldest first. *)
Record Session : Type := mkSession {
  ss_root : Root Repo;
  ss_store : Store;
  ss_emits : list WireList;
}.
Abbreviation M := (stateful Session ToolError).
Definition set_root (r : Root Repo) (s : Session) : Session := mkSession r (ss_store s) (ss_emits s).
Definition set_store (x : Store) (s : Session) : Session := mkSession (ss_root s) x (ss_emits s).
Definition now (s : Session) : Z := rt_now (ss_root s).
Definition faulty (s : Session) (a : StoreAccess) : bool := store_fault (now s) a.

Definition clear_store : M bool :=
  fun s => match ss_store s with
           | NoStore => (Ok false, s)
           | _ => if faulty s RemoveStore then (Err StoreUnwritable, s) else (Ok true, set_store NoStore s)
           end.
(** A store that does not parse is moved aside, when that works, and counts as empty. *)
Definition read_all : M (list TodoItem) :=
  fun s => match ss_store s with
           | NoStore => (Ok [], s)
           | Items items => if faulty s ReadStore then (Err StoreUnreadable, s) else (Ok items, s)
           | Unparsable => if faulty s ReadStore then (Err StoreUnreadable, s)
                           else (Ok [], if faulty s RenameCorrupt then s else set_store NoStore s)
           end.
Definition write_all (items : list TodoItem) : M unit :=
  fun s => if faulty s WriteTemp || faulty s RenameTemp then (Err StoreUnwritable, s)
           else (Ok tt, set_store (Items items) s).
Definition emit_after_mutation (items : list TodoItem) : M unit :=
  modify (fun s => match build_wire_list items with
                   | None => s
                   | Some l => match validate l with
                               | Err _ => s
                               | Ok _ => mkSession (ss_root s) (ss_store s) (ss_emits s ++ [l])
                               end
                   end).

(** ** Adding, listing, deleting *)

Definition todo_add (text : rstr) : M TodoItem :=
  let trimmed := trim text in
  match trimmed with
  | [] => fail TextRequired
  | _ =>
      let! items := read_all in
      let! t := gets now in
      let item := mkTodo (next_id items) trimmed Pending t t None in
      let items := items ++ [item] in
      write_all items ;;
      emit_after_mutation items ;;
      ret item
  end.
Definition todo_list : M (list TodoItem) := read_all.
Definition position (id : Z) (items : list TodoItem) : option nat :=
  option_map fst (list_find (fun it => td_id it = id) items).
Definition todo_delete (id : Z) : M TodoItem :=
  let! items := read_all in
  match position id items with
  | None => fail (NoSuchTodo id)
  | Some pos =>
      match items !! pos with
      | None => fail (NoSuchTodo id)
      | Some removed =>
          let items := delete pos items in
          write_all items ;;
          emit_after_mutation items ;;
          ret removed
      end
  end.

(** ** The gates *)

(** What becomes of the todo that was to be completed. *)
Abbreviation outcome := (TodoStatus * option rstr)%type (only parsing).
Definition project_path (p : rstr) : rstr :=
  match rev data_root with
  | [] => p
  | c :: _ => if c =? chr "/" then data_root ++ p else data_root ++ lit "/" ++ p
  end.
Definition cmd_hint (r : Root Repo) (p : rstr) (stages : list Stage) : CmdHint :=
  match stages with
  | [] => NoVerifyRecorded
  | _ => MissingOrFailing (pending_stages r p stages)
  end.
Definition verify_gate (ctx : GateCfg) (id : Z) : M outcome :=
  if negb (verify_gate_enabled ctx) then ret (Completed, None)
  else
    let! r := gets ss_root in
    match scan_dirty_projects r with
    | [] => ret (Completed, None)
    | p :: _ =>
        let cycles := fix_cycles r p in
        if cycles <? FIX_CYCLE_CAP then
          fail (UnverifiedChanges id p (cmd_hint r p (project_stages r p (check_command_override ctx)))
                  (sat_sub FIX_CYCLE_CAP cycles))
        else ret (Blocked, last_failure r p)
    end.
Definition review_blocked (p : rstr) : rstr :=
  lit "self-review was never completed for `" ++ project_path p ++ lit "` after " ++ show_z REVIEW_CYCLE_CAP ++ lit " cycle(s)".
Definition review_gate (id : Z) : M outcome :=
  let! r := gets ss_root in
  match scan_projects_needing_review r with
  | [] => ret (Completed, None)
  | p :: _ =>
      if review_cycles r p <? REVIEW_CYCLE_CAP then
        let '(new_cycles, r') := record_review_refusal r p in
        modify (set_root r') ;;
        fail (NotSelfReviewed id p (sat_sub REVIEW_CYCLE_CAP new_cycles))
      else ret (Blocked, Some (review_blocked p))
  end.
Definition arrow : rchar := 8594.
Definition see_fix_blocked (p : rstr) : rstr :=
  lit "see" ++ [arrow] ++ lit "fix loop never completed for `" ++ project_path p ++ lit "` after "
  ++ show_z SEE_FIX_CYCLE_CAP ++ lit " cycle(s): no post-fix screenshot".
Definition see_fix_gate (id : Z) : M outcome :=
  let! r := gets ss_root in
  match scan_projects_needing_screenshot r with
  | [] => ret (Completed, None)
  | p :: _ =>
      if screenshot_cycles r p <? SEE_FIX_CYCLE_CAP then
        let '(new_cycles, r') := record_screenshot_refusal r p in
        modify (set_root r') ;;
        fail (NoFreshScreenshot id p (sat_sub SEE_FIX_CYCLE_CAP new_cycles))
      else ret (Blocked, Some (see_fix_blocked p))
  end.
Definition unfinished (it : TodoItem) : bool :=
  match td_status it with Pending | InProgress => true | Completed | Blocked => false end.
Definition is_final (id : Z) (items : list TodoItem) : bool :=
  forallb (fun it => (td_id it =? id) || negb (unfinished it)) items.
Definition final_gates (ctx : GateCfg) (id : Z) (items : list TodoItem) (o : outcome) : M outcome :=
  if verify_gate_enabled ctx && negb (is_blocked (fst o)) && is_final id items then
    let! o := review_gate id in
    if is_blocked (fst o) then ret o else see_fix_gate id
  else ret o.
Definition check_evidence (evidence : option rstr) : M unit :=
  match evidence with
  | None => fail EvidenceRequired
  | Some ev => if is_acceptable_evidence ev then ret tt else fail EvidenceTooWeak
  end.
(** The status to set, when there is one, and the reason of a block. *)
Definition effective_status (ctx : GateCfg) (id : Z) (status : option TodoStatus) (evidence : option rstr)
    (items : list TodoItem) : M (option TodoStatus * option rstr) :=
  match status with
  | Some Completed =>
      check_evidence evidence ;;
      let! o := verify_gate ctx id in
      let! o := final_gates ctx id items o in
      ret (Some (fst o), snd o)
  | _ => ret (status, None)
  end.

(** ** Updating *)

Definition new_text (text : option rstr) (it : TodoItem) : M rstr :=
  match text with
  | None => ret (td_text it)
  | Some t => match trim t with [] => fail TextRequired | trimmed => ret trimmed end
  end.
Definition updated (t : Z) (text : rstr) (eff : option TodoStatus * option rstr) (it : TodoItem) : TodoItem :=
  match eff with
  | (Some status, reason) =>
      mkTodo (td_id it) text status (td_created_at it) t (if is_blocked status then reason else None)
  | (None, _) => mkTodo (td_id it) text (td_status it) (td_created_at it) t (td_blocked_reason it)
  end.
Record Update : Type := mkUpdate {
  up_id : Z;
  up_text : option rstr;
  up_status : option TodoStatus;
  up_evidence : option rstr;
}.
(** The handler from the lock of the store on. *)
Definition update_locked (ctx : GateCfg) (input : Update) : M TodoItem :=
  let id := up_id input in
  let! items := read_all in
  match position id items with
  | None => fail (NoSuchTodo id)
  | Some pos =>
      match items !! pos with
      | None => fail (NoSuchTodo id)
      | Some it =>
          let! eff := effective_status ctx id (up_status input) (up_evidence input) items in
          let! text := new_text (up_text input) it in
          let! t := gets now in
          let it := updated t text eff it in
          let items := <[pos := it]> items in
          write_all items ;;
          emit_after_mutation items ;;
          ret it
      end
  end.
Definition todo_update (ctx : GateCfg) (input : Update) : M TodoItem :=
  match up_text input, up_status input with
  | None, None => fail NothingToUpdate
  | _, _ => update_locked ctx input
  end.
End Todos.
Arguments Session : clear implicits.
