(* ===== verification/VerifyProps.v ===== *)
(** What the gates on completed todos guarantee: the calls an agent makes, in any
    order, and what must have run when a todo is completed. *)
From stdpp Require Import sorting.
From S2P Require Import Prelude TodoSchema Files VerifyGate SelfReview Todo.

(** ** Markers when no access fails *)

Section Markers.
Context {Repo : Type} `{Hio : MarkerIO} {Hgood : GoodIO}.
Implicit Types (r : Root Repo) (p q : rstr) (f g : MarkerFile).

Lemma write_good r p f s : write_best_effort r p f s = put r p f s.
Proof. unfold write_best_effort, fault. by rewrite !no_fault. Qed.
Lemma remove_good r p f : remove_if_present r p f = drop_file r p f.
Proof. unfold remove_if_present, fault. by rewrite no_fault. Qed.
Lemma read_good r p f : read_best_effort r p f = marker r p f.
Proof. unfold read_best_effort, fault. by rewrite no_fault. Qed.

Lemma project_insert r p q j :
  project (set_projects (<[p := j]> (rt_projects r)) r) q = if decide (p = q) then j else project r q.
Proof.
  unfold project, set_projects. cbn. destruct (decide (p = q)) as [<- | Hn];
    [by rewrite lookup_insert_eq | by rewrite lookup_insert_ne].
Qed.
Lemma marker_put r p f s q g :
  marker (put r p f s) q g = if decide (p = q /\ f = g) then Some s else marker r q g.
Proof.
  unfold marker, put. rewrite project_insert. destruct (decide (p = q)) as [<- | Hn].
  - cbn. destruct (decide (f = g)) as [<- | Hf].
    + rewrite lookup_insert_eq. by destruct (decide _) as [|[]].
    + rewrite lookup_insert_ne by done. destruct (decide _) as [[]|]; done.
  - destruct (decide _) as [[]|]; done.
Qed.
Lemma project_drop r p f q :
  project (drop_file r p f) q
  = if decide (p = q) then set_files (delete f (pj_files (project r q))) (project r q) else project r q.
Proof.
  unfold project, drop_file, set_projects. cbn. destruct (decide (p = q)) as [<- | Hn].
  - rewrite lookup_alter_eq. destruct (rt_projects r !! p); cbn; [done|].
    unfold set_files. cbn. by rewrite delete_empty.
  - by rewrite lookup_alter_ne.
Qed.
Lemma marker_drop r p f q g :
  marker (drop_file r p f) q g = if decide (p = q /\ f = g) then None else marker r q g.
Proof.
  unfold marker. rewrite project_drop. destruct (decide (p = q)) as [<- | Hn].
  - cbn. destruct (decide (f = g)) as [<- | Hf].
    + rewrite lookup_delete_eq. by destruct (decide _) as [|[]].
    + rewrite lookup_delete_ne by done. destruct (decide _) as [[]|]; done.
  - destruct (decide _) as [[]|]; done.
Qed.

(** What a change of other markers leaves: the markers of the verification gate, the
    project, the clock. *)
Definition gate_files : list MarkerFile := [VERIFY_FILE; DIRTY_FILE; STAGES_FILE].
Definition known r p : Prop := is_Some (rt_projects r !! p).
Definition same_gate p r r' : Prop :=
  (known r p -> known r' p) /\ Forall (fun f => marker r' p f = marker r p f) gate_files.
#[export] Instance same_gate_preorder p : PreOrder (same_gate p).
Proof.
  split.
  - intros r. split; [done | by apply List.Forall_forall].
  - intros r r1 r2 [K1 F1] [K2 F2]. split; [auto|]. rewrite List.Forall_forall in *.
    intros f Hf. by rewrite F2, F1.
Qed.

Lemma known_put r p f s q : known r q \/ p = q -> known (put r p f s) q.
Proof.
  unfold known, put, set_projects. cbn. destruct (decide (p = q)) as [<- | Hn];
    [by rewrite lookup_insert_eq | rewrite lookup_insert_ne by done]. intros [|]; done.
Qed.
Lemma known_drop r p f q : known r q -> known (drop_file r p f) q.
Proof.
  unfold known, drop_file, set_projects. cbn. destruct (decide (p = q)) as [<- | Hn];
    [rewrite lookup_alter_eq | by rewrite lookup_alter_ne]. intros [j ->]. eauto.
Qed.
Lemma same_gate_put p r q f s : p <> q \/ ~ In f gate_files -> same_gate p r (put r q f s).
Proof.
  intros Hn. split; [intros; apply known_put; by left|]. apply List.Forall_forall. intros g Hg.
  rewrite marker_put. destruct (decide _) as [[-> ->]|]; [by destruct Hn | done].
Qed.
Lemma same_gate_drop p r q f : p <> q \/ ~ In f gate_files -> same_gate p r (drop_file r q f).
Proof.
  intros Hn. split; [apply known_drop|]. apply List.Forall_forall. intros g Hg.
  rewrite marker_drop. destruct (decide _) as [[-> ->]|]; [by destruct Hn | done].
Qed.
Lemma same_gate_marker p r r' f : same_gate p r r' -> In f gate_files -> marker r' p f = marker r p f.
Proof. intros [_ F] Hf. rewrite List.Forall_forall in F. by apply F. Qed.
Lemma same_gate_reads p r r' :
  same_gate p r r' ->
  is_dirty r' p = is_dirty r p /\ read_stage_state r' p = read_stage_state r p
  /\ (forall ov, project_stages r' p ov = project_stages r p ov).
Proof.
  intros Hs. unfold is_dirty, try_exists, read_stage_state, project_stages.
  assert (forall f, In f gate_files -> read_best_effort r' p f = read_best_effort r p f) as E.
  { intros f Hf. rewrite !read_good. by apply same_gate_marker. }
  rewrite !E by (cbn; tauto). auto.
Qed.

(** ** Marking, passing and failing *)

Lemma same_gate_mark_other p q r : p <> q -> same_gate p r (mark_dirty r q).
Proof.
  intros Hn. unfold mark_dirty, reset_fix_cycles. rewrite write_good, !remove_good.
  etransitivity; [|by apply same_gate_drop; left]. etransitivity; [|by apply same_gate_drop; left].
  by apply same_gate_put; left.
Qed.
Lemma mark_dirty_marks r p :
  known (mark_dirty r p) p /\ is_dirty (mark_dirty r p) p = true
  /\ read_stage_state (mark_dirty r p) p = ∅
  /\ (forall ov, project_stages (mark_dirty r p) p ov = project_stages r p ov)
  /\ fix_cycles (mark_dirty r p) p = 0.
Proof.
  unfold mark_dirty, reset_fix_cycles. rewrite write_good, !remove_good.
  split; [apply known_drop, known_drop, known_put; by right|].
  unfold is_dirty, try_exists, read_stage_state, project_stages, fix_cycles, read_counter.
  rewrite !read_good, !marker_drop, !marker_put.
  repeat (destruct (decide _) as [[? ?]|?]; try done; try tauto).
Qed.
Lemma record_result_spec r p n b :
  read_stage_state (record_stage_result r p n b) p = <[n := mkStageRecord b (rt_now r)]> (read_stage_state r p)
  /\ is_dirty (record_stage_result r p n b) p = is_dirty r p
  /\ known (record_stage_result r p n b) p
  /\ (forall ov, project_stages (record_stage_result r p n b) p ov = project_stages r p ov).
Proof.
  unfold record_stage_result, write_stage_state. rewrite write_good. set (m := <[n := _]> _).
  unfold is_dirty, try_exists, project_stages. unfold read_stage_state at 1. rewrite !read_good, !marker_put.
  repeat (destruct (decide _) as [[? ?]|?]; try done; try tauto).
  rewrite stage_state_parses. split; [done|]. split; [done|]. split; [apply known_put; by right | done].
Qed.
Lemma same_gate_failure p r q tail : same_gate p r (snd (record_verify_failure r q tail)).
Proof.
  unfold record_verify_failure. rewrite !write_good. cbn [snd].
  etransitivity; apply same_gate_put; right; cbn; intuition congruence.
Qed.
Lemma same_gate_result p r q n b : p <> q -> same_gate p r (record_stage_result r q n b).
Proof. intros Hn. unfold record_stage_result, write_stage_state. rewrite write_good. by apply same_gate_put; left. Qed.
Lemma clear_dirty_keeps r p :
  read_stage_state (clear_dirty r p) p = read_stage_state r p
  /\ (known r p -> known (clear_dirty r p) p)
  /\ (forall ov, project_stages (clear_dirty r p) p ov = project_stages r p ov).
Proof.
  unfold clear_dirty, reset_fix_cycles. rewrite !remove_good.
  unfold read_stage_state, project_stages. rewrite !read_good, !marker_drop.
  repeat (destruct (decide _) as [[? ?]|?]; try done; try tauto).
  split; [done|]. split; [intros; by apply known_drop, known_drop | done].
Qed.
Lemma same_gate_clear p q r : p <> q -> same_gate p r (clear_dirty r q).
Proof.
  intros Hn. unfold clear_dirty, reset_fix_cycles. rewrite !remove_good.
  etransitivity; apply same_gate_drop; by left.
Qed.
Lemma clear_dirty_clears r p : is_dirty (clear_dirty r p) p = false /\ fix_cycles (clear_dirty r p) p = 0.
Proof.
  unfold clear_dirty, reset_fix_cycles, is_dirty, try_exists, fix_cycles, read_counter.
  rewrite !remove_good, !read_good, !marker_drop.
  repeat (destruct (decide _) as [[? ?]|?]; try done; try tauto).
Qed.

(** ** Scans *)

Lemma insert_name_In p q l : In q (insert_name p l) <-> q = p \/ In q l.
Proof.
  induction l as [|x l IH]; cbn; [intuition congruence|].
  destruct (rstr_leb p x); cbn; [|rewrite IH]; intuition congruence.
Qed.
Lemma scan_spec (test : Root Repo -> rstr -> bool) r p : In p (scan test r) <-> known r p /\ test r p = true.
Proof.
  unfold scan, known. transitivity (In p (List.filter (test r) (map fst (map_to_list (rt_projects r))))).
  - induction (List.filter _ _) as [|x l IH]; cbn; [done|]. rewrite insert_name_In, IH. intuition congruence.
  - rewrite List.filter_In, in_map_iff. split; intros [HA HB]; split; try done.
    + destruct HA as ([q j] & <- & Hq). apply list_elem_of_In, elem_of_map_to_list in Hq. by exists j.
    + destruct HA as [j Hj]. exists (p, j). split; [done|]. by apply list_elem_of_In, elem_of_map_to_list.
Qed.
Lemma insert_name_perm p l : Permutation (insert_name p l) (p :: l).
Proof. induction l as [|x l IH]; cbn; [done|]. destruct (rstr_leb p x); [done|]. rewrite IH. apply Permutation_swap. Qed.
Lemma insert_name_sorted p l :
  StronglySorted (fun a b => rstr_leb a b = true) l -> StronglySorted (fun a b => rstr_leb a b = true) (insert_name p l).
Proof.
  induction 1 as [|x l Hl IH Hall]; cbn; [repeat constructor|]. destruct (rstr_leb p x) eqn:Hpx.
  - constructor; [by constructor|]. constructor; [done|]. eapply Forall_impl; [exact Hall|]. intros y. exact (rstr_leb_trans p x y Hpx).
  - constructor; [done|]. rewrite insert_name_perm. constructor; [by apply rstr_leb_total | done].
Qed.
Lemma scan_sorted (test : Root Repo -> rstr -> bool) r :
  StronglySorted (fun a b => rstr_leb a b = true) (scan test r) /\ List.NoDup (scan test r).
Proof.
  unfold scan. assert (List.NoDup (List.filter (test r) (map fst (map_to_list (rt_projects r))))) as Hn.
  { apply List.NoDup_filter, NoDup_ListNoDup. exact (NoDup_fst_map_to_list (rt_projects r)). }
  revert Hn. generalize (List.filter (test r) (map fst (map_to_list (rt_projects r)))). intros l Hn. split.
  - clear Hn. induction l as [|p l IH]; cbn; [constructor | by apply insert_name_sorted].
  - apply (Permutation_NoDup (l := l)); [|done]. clear Hn. induction l as [|p l IH]; cbn; [done|].
    by rewrite insert_name_perm, <- IH.
Qed.
(** The order in which the directory is read does not matter. *)
Lemma scan_same (test : Root Repo -> rstr -> bool) r r' :
  (forall p, known r' p <-> known r p) -> (forall p, test r' p = test r p) -> scan test r' = scan test r.
Proof.
  intros Hk Ht. apply (StronglySorted_unique (fun a b => rstr_leb a b = true)); [apply scan_sorted.. |].
  apply NoDup_Permutation; [apply scan_sorted..|]. intros p. by rewrite !scan_spec, Hk, Ht.
Qed.
End Markers.

(** ** The calls of a session *)

Inductive ShellEnd : Type :=
| Exited (success : bool) (stdout stderr : rstr)
| TimedOut
| Launched.

Section Session.
Context {Repo : Type} `{Hgit : Git Repo} `{Hio : MarkerIO} `{Htodo : TodoIO}.

(** A call of a tool that gets as far as its hooks, the verify file as the agent
    records it, or what happens outside: commits, captures, the clock. *)
Inductive Call : Type :=
| WriteFile (path : rstr)
| EditTool (tool path : rstr)
| OtherTool (tool : rstr)
| Shell (cwd : option rstr) (command : rstr) (e : ShellEnd)
| RecordVerify (p text : rstr)
| AddTodo (text : rstr)
| UpdateTodo (u : Update)
| DeleteTodo (id : Z)
| ListTodos
| ClearTodos
| SelfReview (input : Input)
| Work (p : rstr) (captures : nat) (repo : option Repo)
| Tick (t : Z).

Definition on_root (f : Root Repo -> Root Repo) (s : Session Repo) : Session Repo := set_root (f (ss_root s)) s.
Definition shell_hook (ctx : GateCfg) (cwd : option rstr) (command : rstr) (e : ShellEnd) (r : Root Repo) : Root Repo :=
  match e with
  | Exited success stdout stderr => apply_verify_gate ctx cwd command success stdout stderr r
  | TimedOut | Launched => mark_dirty_for_shell_cwd ctx cwd r
  end.
Definition work (p : rstr) (captures : nat) (repo : option Repo) (r : Root Repo) : Root Repo :=
  set_projects (<[p := mkProject (pj_files (project r p)) captures repo]> (rt_projects r)) r.
Definition call (ctx : GateCfg) (c : Call) (s : Session Repo) : Session Repo :=
  match c with
  | WriteFile path => on_root (after_write_file ctx path) s
  | EditTool tool path => on_root (fun r => apply_see_fix_hooks ctx tool (mark_dirty_for_write ctx path r)) s
  | OtherTool tool => on_root (apply_see_fix_hooks ctx tool) s
  | Shell cwd command e => on_root (shell_hook ctx cwd command e) s
  | RecordVerify p text => on_root (fun r => put r p VERIFY_FILE text) s
  | AddTodo text => snd (todo_add text s)
  | UpdateTodo u => snd (todo_update ctx u s)
  | DeleteTodo id => snd (todo_delete id s)
  | ListTodos => snd (todo_list s)
  | ClearTodos => snd (clear_store s)
  | SelfReview input => on_root (fun r => snd (self_review input r)) s
  | Work p captures repo => on_root (work p captures repo) s
  | Tick t => on_root (fun r => mkRoot t (rt_projects r)) s
  end.
Definition calls (ctx : GateCfg) (cs : list Call) (s : Session Repo) : Session Repo :=
  fold_left (fun s c => call ctx c s) cs s.

(** The call may have changed the sources of [p]: a write outside the state
    directory, or a command in the project that is not one of its stages or whose
    end is not known. *)
Definition resolves (r : Root Repo) (path p : rstr) : bool := bool_decide (project_root_of r path = Some p).
Definition changes (ctx : GateCfg) (p : rstr) (s : Session Repo) (c : Call) : bool :=
  let r := ss_root s in
  match c with
  | WriteFile path | EditTool _ path => negb (is_under_state_dir path) && resolves r path p
  | Shell (Some cwd) command e =>
      resolves r cwd p
      && match e with
         | Exited _ _ _ =>
             match find_stage (project_stages r p (check_command_override ctx)) (trim command) with
             | Some _ => false
             | None => true
             end
         | TimedOut | Launched => true
         end
  | _ => false
  end.
(** The call ran [command] in [p], and it succeeded. *)
Definition passes (p command : rstr) (s : Session Repo) (c : Call) : bool :=
  match c with
  | Shell (Some cwd) cmd (Exited true _ _) => resolves (ss_root s) cwd p && rstr_eqb command (trim cmd)
  | _ => false
  end.
Definition rewrites (p : rstr) (c : Call) : bool :=
  match c with RecordVerify q _ => bool_decide (q = p) | _ => false end.
(** Somewhere in [cs], run from [s], the command of the stage succeeded. *)
Definition ran (ctx : GateCfg) (p : rstr) (s : Session Repo) (cs : list Call) (st : Stage) : Prop :=
  exists mid c rest, cs = mid ++ c :: rest /\ passes p (sg_command st) (calls ctx mid s) c = true.

Lemma calls_app ctx cs cs' s : calls ctx (cs ++ cs') s = calls ctx cs' (calls ctx cs s).
Proof. apply fold_left_app. Qed.
Lemma ran_later ctx p s cs cs' st : ran ctx p s cs st -> ran ctx p s (cs ++ cs') st.
Proof. intros (mid & c & rest & -> & Hp). exists mid, c, (rest ++ cs'). by rewrite <- app_assoc. Qed.
Lemma ran_now ctx p s cs c st : passes p (sg_command st) (calls ctx cs s) c = true -> ran ctx p s (cs ++ [c]) st.
Proof. intros Hp. by exists cs, c, []. Qed.

(** ** What each call does to the gate of a project *)

Context {Hgood : GoodIO}.

Lemma fold_same_gate p (f : Root Repo -> rstr -> Root Repo) l r :
  (forall r q, same_gate p r (f r q)) -> same_gate p r (fold_left f l r).
Proof.
  intros Hf. revert r. induction l as [|q l IH]; intros r; cbn; [reflexivity|]. etransitivity; [apply Hf | apply IH].
Qed.
Ltac other_file := right; cbn; intuition congruence.
Lemma same_gate_needs p (r : Root Repo) q : same_gate p r (mark_needs_screenshot r q).
Proof.
  unfold mark_needs_screenshot. destruct (is_ui_task r q); [|reflexivity].
  rewrite write_good. apply same_gate_put. other_file.
Qed.
Lemma same_gate_seen p (r : Root Repo) q : same_gate p r (clear_needs_screenshot r q).
Proof.
  unfold clear_needs_screenshot, reset_screenshot_cycles. rewrite !remove_good.
  etransitivity; apply same_gate_drop; other_file.
Qed.
Lemma same_gate_hooks p ctx tool (r : Root Repo) : same_gate p r (apply_see_fix_hooks ctx tool r).
Proof.
  unfold apply_see_fix_hooks. destruct (see_fix_action tool); try reflexivity;
    destruct (verify_gate_enabled ctx); try reflexivity.
  - apply fold_same_gate. intros. apply same_gate_seen.
  - apply fold_same_gate. intros. apply same_gate_needs.
Qed.
Lemma same_gate_review p input (r : Root Repo) : same_gate p r (snd (self_review input r)).
Proof.
  unfold self_review. destruct (rt_projects r !! in_project input); [|reflexivity].
  destruct (_ && _); [reflexivity|]. destruct (_ || _); [|reflexivity].
  unfold submit_blocking. destruct (rbind _ _) as [m|e]; [|reflexivity].
  unfold write_marker, fault. rewrite write_good, !no_fault. cbn. apply same_gate_put. other_file.
Qed.

(** A handler of the todo list leaves the markers of the verification gate alone. *)
Definition same_gates p (s s' : Session Repo) : Prop := same_gate p (ss_root s) (ss_root s').
#[export] Instance same_gates_preorder p : PreOrder (same_gates p).
Proof. split; [intros s; unfold same_gates; reflexivity | intros s s1 s2; unfold same_gates; by etransitivity]. Qed.
Ltac same_root := unfold same_gates; cbn; reflexivity.
Lemma keeps_read_all p : keeps (same_gates p) read_all.
Proof.
  intros s. unfold read_all. destruct (ss_store s); [same_root | destruct (faulty s ReadStore); same_root|].
  destruct (faulty s ReadStore); [same_root|]. destruct (faulty s RenameCorrupt); same_root.
Qed.
Lemma keeps_write_all p items : keeps (same_gates p) (write_all items).
Proof. intros s. unfold write_all. destruct (_ || _); same_root. Qed.
Lemma keeps_emit p items : keeps (same_gates p) (emit_after_mutation items).
Proof.
  apply keeps_modify. intros s. destruct (build_wire_list items) as [l|]; [|same_root]. destruct (validate l); same_root.
Qed.
#[local] Hint Resolve keeps_read_all keeps_write_all keeps_emit : keeps.
Lemma keeps_review_gate p id : keeps (same_gates p) (review_gate id).
Proof.
  intros s. unfold review_gate. cbn. destruct (scan_projects_needing_review (ss_root s)) as [|q l]; [same_root|].
  destruct (_ <? _); [|same_root]. unfold record_review_refusal. rewrite write_good.
  cbn. apply same_gate_put. other_file.
Qed.
Lemma keeps_see_fix_gate p id : keeps (same_gates p) (see_fix_gate id).
Proof.
  intros s. unfold see_fix_gate. cbn. destruct (scan_projects_needing_screenshot (ss_root s)) as [|q l]; [same_root|].
  destruct (_ <? _); [|same_root]. unfold record_screenshot_refusal. rewrite write_good.
  cbn. apply same_gate_put. other_file.
Qed.
Lemma keeps_verify_gate p ctx id : keeps (same_gates p) (verify_gate ctx id).
Proof. unfold verify_gate. split_steps. Qed.
#[local] Hint Resolve keeps_review_gate keeps_see_fix_gate keeps_verify_gate : keeps.
Lemma keeps_final_gates p ctx id items o : keeps (same_gates p) (final_gates ctx id items o).
Proof. unfold final_gates. split_steps. Qed.
#[local] Hint Resolve keeps_final_gates : keeps.
Lemma keeps_effective p ctx id st ev items : keeps (same_gates p) (effective_status ctx id st ev items).
Proof. unfold effective_status, check_evidence. split_steps. Qed.
#[local] Hint Resolve keeps_effective : keeps.
Lemma keeps_update p ctx u : keeps (same_gates p) (todo_update ctx u).
Proof. unfold todo_update, update_locked, new_text. split_steps. Qed.
Lemma keeps_add p text : keeps (same_gates p) (todo_add text).
Proof. unfold todo_add. split_steps. Qed.
Lemma keeps_delete p id : keeps (same_gates p) (todo_delete id).
Proof. unfold todo_delete. split_steps. Qed.
Lemma same_gates_clear p (s : Session Repo) : same_gates p s (snd (clear_store s)).
Proof. unfold clear_store. destruct (ss_store s); try same_root; destruct (faulty s RemoveStore); same_root. Qed.

Section Enabled.
Context (ctx : GateCfg) (Hon : verify_gate_enabled ctx = true) (p : rstr).
Let ov := check_command_override ctx.

Lemma resolves_spec (r : Root Repo) path q : resolves r path q = true <-> project_root_of r path = Some q.
Proof. apply bool_decide_eq_true. Qed.
Lemma write_marks path (r : Root Repo) :
  (negb (is_under_state_dir path) && resolves r path p = true /\ mark_dirty_for_write ctx path r = mark_dirty r p)
  \/ (negb (is_under_state_dir path) && resolves r path p = false /\ same_gate p r (mark_dirty_for_write ctx path r)).
Proof.
  unfold mark_dirty_for_write. rewrite Hon. cbn [negb]. destruct (is_under_state_dir path); cbn; [right; split; done|].
  unfold resolves. destruct (project_root_of r path) as [q|] eqn:E; [|right; split; done].
  destruct (bool_decide _) eqn:Hq; [apply bool_decide_eq_true in Hq; simplify_eq; by left|].
  apply bool_decide_eq_false in Hq. right. split; [done|]. apply same_gate_mark_other. congruence.
Qed.
Lemma lost_marks cwd (r : Root Repo) :
  (resolves r cwd p = true /\ mark_dirty_for_shell_cwd ctx (Some cwd) r = mark_dirty r p)
  \/ (resolves r cwd p = false /\ same_gate p r (mark_dirty_for_shell_cwd ctx (Some cwd) r)).
Proof.
  unfold mark_dirty_for_shell_cwd, resolves. rewrite Hon. cbn [negb].
  destruct (project_root_of r cwd) as [q|] eqn:E; [|right; split; done].
  destruct (bool_decide _) eqn:Hq; [apply bool_decide_eq_true in Hq; simplify_eq; by left|].
  apply bool_decide_eq_false in Hq. right. split; [done|]. apply same_gate_mark_other. congruence.
Qed.

(** A command that ended in the project: a run of one of its stages, or a change. *)
Inductive verify_run (r : Root Repo) (command : rstr) (success : bool) (so se : rstr) : Root Repo -> Prop :=
| run_changes :
    find_stage (project_stages r p ov) (trim command) = None ->
    verify_run r command success so se (mark_dirty r p)
| run_passes st :
    find_stage (project_stages r p ov) (trim command) = Some st -> success = true ->
    verify_run r command success so se (stage_passed r p (project_stages r p ov) st)
| run_fails st :
    find_stage (project_stages r p ov) (trim command) = Some st -> success = false ->
    verify_run r command success so se (stage_failed r p st so se).
Lemma same_gate_stage (r : Root Repo) (q : rstr) (stages : list Stage) (st : Stage) (b : bool) (so se : rstr) :
  p <> q ->
  same_gate p r (if b then stage_passed r q stages st else stage_failed r q st so se).
Proof.
  intros Hn. destruct b.
  - unfold stage_passed. destruct (all_stages_passed _ _ _); [|by apply same_gate_result].
    etransitivity; [by apply same_gate_result | by apply same_gate_clear].
  - unfold stage_failed, record_stage_verify_failure.
    etransitivity; [by apply same_gate_failure | by apply same_gate_result].
Qed.
Lemma ended_runs (cwd command : rstr) (b : bool) (so se : rstr) (r : Root Repo) :
  (resolves r cwd p = true /\ verify_run r command b so se (apply_verify_gate ctx (Some cwd) command b so se r))
  \/ (resolves r cwd p = false /\ same_gate p r (apply_verify_gate ctx (Some cwd) command b so se r)).
Proof.
  unfold apply_verify_gate, resolves. rewrite Hon. cbn [negb].
  destruct (project_root_of r cwd) as [q|] eqn:E; [|right; split; done].
  destruct (bool_decide _) eqn:Hq.
  - apply bool_decide_eq_true in Hq. simplify_eq. left. split; [done|].
    destruct (find_stage _ _) as [st|] eqn:Ef; [|by apply run_changes].
    destruct b; [by apply run_passes | by apply run_fails].
  - apply bool_decide_eq_false in Hq. right. split; [done|]. assert (p <> q) by congruence.
    destruct (find_stage _ _); [by apply same_gate_stage | by apply same_gate_mark_other].
Qed.

Lemma same_gate_after_write path (r : Root Repo) :
  same_gate p (mark_dirty_for_write ctx path r) (after_write_file ctx path r).
Proof.
  unfold after_write_file. destruct (_ && _); [|reflexivity].
  destruct (project_root_of _ _); [apply same_gate_needs | reflexivity].
Qed.

(** Every call changes the project, runs one of its stages, or leaves its gate alone. *)
Inductive effect (s : Session Repo) (c : Call) (s' : Session Repo) : Prop :=
| effect_changes : changes ctx p s c = true -> same_gate p (mark_dirty (ss_root s) p) (ss_root s') -> effect s c s'
| effect_runs cwd command b so se :
    changes ctx p s c = false -> c = Shell (Some cwd) command (Exited b so se) -> resolves (ss_root s) cwd p = true ->
    verify_run (ss_root s) command b so se (ss_root s') -> effect s c s'
| effect_none : changes ctx p s c = false -> same_gates p s s' -> effect s c s'.
Lemma call_effect s c : rewrites p c = false -> effect s c (call ctx c s).
Proof.
  intros Hw. destruct c as [path|tool path|tool|[cwd|] command e|q text|text|u|id| | |input|q n g|t]; cbn [call].
  - pose proof (same_gate_after_write path (ss_root s)) as Ha.
    destruct (write_marks path (ss_root s)) as [[Hc E]|[Hc Hs]].
    + apply effect_changes; [done|]. rewrite <- E. exact Ha.
    + apply effect_none; [done|]. unfold same_gates. etransitivity; [exact Hs | exact Ha].
  - pose proof (same_gate_hooks p ctx tool (mark_dirty_for_write ctx path (ss_root s))) as Ha.
    destruct (write_marks path (ss_root s)) as [[Hc E]|[Hc Hs]].
    + apply effect_changes; [done|]. rewrite <- E. exact Ha.
    + apply effect_none; [done|]. unfold same_gates. etransitivity; [exact Hs | exact Ha].
  - apply effect_none; [done | apply same_gate_hooks].
  - destruct e as [b so se| |]; cbn.
    + destruct (ended_runs cwd command b so se (ss_root s)) as [[Hr Hv]|[Hr Hs]].
      * destruct (changes ctx p s (Shell (Some cwd) command (Exited b so se))) eqn:Hc.
        -- apply effect_changes; [done|]. cbn in Hc. rewrite Hr in Hc. fold ov in Hc.
           change (same_gate p (mark_dirty (ss_root s) p) (apply_verify_gate ctx (Some cwd) command b so se (ss_root s))).
           destruct Hv as [Hf|st Hf|st Hf]; rewrite Hf in Hc; [reflexivity | done | done].
        -- by eapply effect_runs.
      * apply effect_none; [|done]. cbn. by rewrite Hr.
    + destruct (lost_marks cwd (ss_root s)) as [[Hr E]|[Hr Hs]];
        [apply effect_changes; cbn; [by rewrite Hr | rewrite E; reflexivity] | apply effect_none; [cbn; by rewrite Hr | done]].
    + destruct (lost_marks cwd (ss_root s)) as [[Hr E]|[Hr Hs]];
        [apply effect_changes; cbn; [by rewrite Hr | rewrite E; reflexivity] | apply effect_none; [cbn; by rewrite Hr | done]].
  - apply effect_none; [done|]. unfold same_gates. cbn.
    destruct e; cbn; unfold apply_verify_gate, mark_dirty_for_shell_cwd; rewrite Hon; reflexivity.
  - cbn in Hw. apply bool_decide_eq_false in Hw. apply effect_none; [done|]. apply same_gate_put. left. congruence.
  - apply effect_none; [done | apply keeps_add].
  - apply effect_none; [done | apply keeps_update].
  - apply effect_none; [done | apply keeps_delete].
  - apply effect_none; [done | apply keeps_read_all].
  - apply effect_none; [done | apply same_gates_clear].
  - apply effect_none; [done | apply same_gate_review].
  - apply effect_none; [done|]. split.
    + intros [j Hj]. unfold known, work, set_projects. cbn. destruct (decide (q = p)) as [-> | Hn];
        [by rewrite lookup_insert_eq | rewrite lookup_insert_ne by done; eauto].
    + apply List.Forall_forall. intros f _. cbn [on_root set_root ss_root]. unfold marker, work.
      rewrite project_insert. by destruct (decide _) as [->|].
  - apply effect_none; [done|]. split; [done|]. by apply List.Forall_forall.
Qed.

(** From the change on: what is recorded green has run, and a clean project ran all. *)
Definition settled (s0 : Session Repo) (L : list Stage) (cs : list Call) (s : Session Repo) : Prop :=
  let r := ss_root s in
  known r p /\ project_stages r p ov = L
  /\ (forall st, In st L -> green (read_stage_state r p) st = true -> ran ctx p s0 cs st)
  /\ (is_dirty r p = true \/ (L <> [] /\ forall st, In st L -> ran ctx p s0 cs st)).
Lemma settled_later s0 L cs c s : settled s0 L cs s -> settled s0 L (cs ++ [c]) s.
Proof.
  intros (Hk & HL & Hg & Hd). split; [done|]. split; [done|].
  split; [intros; apply ran_later; auto|]. destruct Hd as [Hd | [Hn Hall]]; [by left | right].
  split; [done|]. intros. apply ran_later. auto.
Qed.
Lemma settled_same s0 L cs s s' : settled s0 L cs s -> same_gates p s s' -> settled s0 L cs s'.
Proof.
  intros (Hk & HL & Hg & Hd) Hs. destruct (same_gate_reads _ _ _ Hs) as (Ed & Er & Es).
  unfold settled. rewrite Ed, Er, Es. split; [by apply Hs | done].
Qed.
Lemma settled_marked s0 L cs (r : Root Repo) s' :
  project_stages r p ov = L -> same_gate p (mark_dirty r p) (ss_root s') -> settled s0 L cs s'.
Proof.
  intros HL Hs. destruct (mark_dirty_marks r p) as (Hk & Hd & Hg & Hst & _).
  destruct (same_gate_reads _ _ _ Hs) as (Ed & Er & Es). unfold settled. rewrite Ed, Er, Es, Hd, Hg, Hst.
  split; [by apply Hs|]. split; [done|]. split; [|by left]. intros st _. unfold green. by rewrite lookup_empty.
Qed.
Lemma find_stage_Some L cmd st : find_stage L cmd = Some st -> In st L /\ rstr_eqb (sg_command st) cmd = true.
Proof. intros E. by apply List.find_some in E. Qed.
Lemma green_recorded s0 L cs c s st b :
  settled s0 L cs s -> List.NoDup (map sg_name L) -> In st L ->
  (b = true -> ran ctx p s0 (cs ++ [c]) st) ->
  forall st', In st' L ->
    green (read_stage_state (record_stage_result (ss_root s) p (sg_name st) b) p) st' = true ->
    ran ctx p s0 (cs ++ [c]) st'.
Proof.
  intros (_ & _ & Hg & _) Hnd Hin Hb st' Hin'. destruct (record_result_spec (ss_root s) p (sg_name st) b) as (-> & _).
  unfold green. destruct (decide (sg_name st = sg_name st')) as [En | Hne].
  - rewrite En, lookup_insert_eq. cbn. intros Ht.
    assert (st = st') as <- by (by eapply NoDup_map_inj). auto.
  - rewrite lookup_insert_ne by done. intros Ht. apply ran_later. auto.
Qed.
Lemma settled_fails s0 L cs c s s' st so se :
  settled s0 L cs s -> List.NoDup (map sg_name L) -> In st L ->
  ss_root s' = stage_failed (ss_root s) p st so se -> settled s0 L (cs ++ [c]) s'.
Proof.
  intros Hset Hnd Hin E. unfold stage_failed, record_stage_verify_failure in E. set (tail := _ ++ _) in E.
  assert (settled s0 L cs (set_root (snd (record_verify_failure (ss_root s) p tail)) s)) as Hset1
    by (eapply settled_same; [exact Hset | apply same_gate_failure]).
  set (s1 := set_root _ s) in Hset1. change (snd (record_verify_failure (ss_root s) p tail)) with (ss_root s1) in E.
  assert (false = true -> ran ctx p s0 (cs ++ [c]) st) as Hno by done.
  pose proof (green_recorded s0 L cs c s1 st false Hset1 Hnd Hin Hno) as Hg.
  destruct (record_result_spec (ss_root s1) p (sg_name st) false) as (_ & Ed & Hk & Es).
  apply (settled_later _ _ _ c) in Hset1 as (_ & HL & _ & Hd).
  unfold settled. rewrite E, Ed, Es. auto.
Qed.
Lemma settled_passes s0 L cs c s s' st :
  settled s0 L cs s -> List.NoDup (map sg_name L) -> In st L -> ran ctx p s0 (cs ++ [c]) st ->
  ss_root s' = stage_passed (ss_root s) p L st -> settled s0 L (cs ++ [c]) s'.
Proof.
  intros Hset Hnd Hin Hran E. unfold stage_passed in E.
  pose proof (green_recorded s0 L cs c s st true Hset Hnd Hin (fun _ => Hran)) as Hg.
  destruct (record_result_spec (ss_root s) p (sg_name st) true) as (_ & Ed & Hk & Es).
  destruct Hset as (_ & HL & _ & Hd). set (r1 := record_stage_result _ _ _ _) in *.
  destruct (all_stages_passed r1 p L) eqn:Ha; unfold settled; rewrite E.
  - destruct (clear_dirty_keeps r1 p) as (Eg & Hk' & Es'). rewrite Eg, Es', Es.
    split; [auto|]. split; [done|]. split; [exact Hg|]. right. unfold all_stages_passed in Ha.
    destruct L as [|x L]; [done|]. split; [done|]. rewrite forallb_forall in Ha. auto.
  - rewrite Es, Ed. split; [done|]. split; [done|]. split; [exact Hg|].
    destruct Hd as [Hd | [Hn Hall]]; [by left | right]. split; [done|]. intros. apply ran_later. auto.
Qed.
Lemma settled_call s0 L cs c :
  List.NoDup (map sg_name L) -> rewrites p c = false ->
  settled s0 L cs (calls ctx cs s0) -> settled s0 L (cs ++ [c]) (calls ctx (cs ++ [c]) s0).
Proof.
  intros Hnd Hw Hset. rewrite calls_app. cbn [calls fold_left]. set (s := calls ctx cs s0) in *.
  destruct (call_effect s c Hw) as [Hc Hs | cwd command b so se Hc Ec Hr Hv | Hc Hs].
  - destruct Hset as (_ & HL & _). by eapply settled_marked.
  - pose proof Hset as (_ & HL & _). remember (ss_root (call ctx c s)) as r' eqn:Er. destruct Hv as [Hf | st Hf Hb | st Hf Hb].
    + subst c. cbn in Hc. fold ov in Hc. by rewrite Hr, Hf in Hc.
    + rewrite HL in Hf. rewrite HL in Er. apply find_stage_Some in Hf as [Hin Hcmd].
      eapply settled_passes; try done. apply ran_now. subst c b. cbn. fold s. by rewrite Hr.
    + rewrite HL in Hf. apply find_stage_Some in Hf as [Hin Hcmd]. by eapply settled_fails.
  - apply settled_later. by eapply settled_same.
Qed.
End Enabled.
End Session.
Arguments Call : clear implicits.

(** ** A completed todo *)

Section Completed.
Context {Repo : Type} `{Hgit : Git Repo} `{Hio : MarkerIO} `{Htodo : TodoIO}.
Implicit Types (s : Session Repo) (ctx : GateCfg).

Lemma read_all_root s items s' : read_all s = (Ok items, s') -> ss_root s' = ss_root s.
Proof.
  unfold read_all. destruct (ss_store s); [by intros [= _ <-] | |]; destruct (faulty s ReadStore); try done;
    [by intros [= _ <-]|]. destruct (faulty s RenameCorrupt); by intros [= _ <-].
Qed.
Lemma verify_gate_open ctx id s o s' :
  verify_gate ctx id s = (Ok o, s') -> verify_gate_enabled ctx = true ->
  s' = s /\ match scan_dirty_projects (ss_root s) with
            | [] => o = (Completed, None)
            | p :: _ => FIX_CYCLE_CAP <= fix_cycles (ss_root s) p /\ o = (Blocked, last_failure (ss_root s) p)
            end.
Proof.
  unfold verify_gate. intros E Hon. rewrite Hon in E. cbn in E.
  destruct (scan_dirty_projects (ss_root s)) as [|p l]; [by injection E as <- <-|].
  destruct (Z.ltb_spec (fix_cycles (ss_root s) p) FIX_CYCLE_CAP); [done|]. by injection E as <- <-.
Qed.
Lemma review_gate_open id s o s' :
  review_gate id s = (Ok o, s') ->
  s' = s /\ match scan_projects_needing_review (ss_root s) with
            | [] => o = (Completed, None)
            | p :: _ => REVIEW_CYCLE_CAP <= review_cycles (ss_root s) p /\ o = (Blocked, Some (review_blocked p))
            end.
Proof.
  unfold review_gate. cbn. destruct (scan_projects_needing_review (ss_root s)) as [|p l]; [by intros [= <- <-]|].
  destruct (Z.ltb_spec (review_cycles (ss_root s) p) REVIEW_CYCLE_CAP); [done | by intros [= <- <-]].
Qed.
Lemma see_fix_gate_open id s o s' :
  see_fix_gate id s = (Ok o, s') ->
  s' = s /\ match scan_projects_needing_screenshot (ss_root s) with
            | [] => o = (Completed, None)
            | p :: _ => SEE_FIX_CYCLE_CAP <= screenshot_cycles (ss_root s) p /\ o = (Blocked, Some (see_fix_blocked p))
            end.
Proof.
  unfold see_fix_gate. cbn. destruct (scan_projects_needing_screenshot (ss_root s)) as [|p l]; [by intros [= <- <-]|].
  destruct (Z.ltb_spec (screenshot_cycles (ss_root s) p) SEE_FIX_CYCLE_CAP); [done | by intros [= <- <-]].
Qed.
Lemma final_gates_open ctx id items s o s' :
  final_gates ctx id items (Completed, None) s = (Ok o, s') -> fst o = Completed -> verify_gate_enabled ctx = true ->
  is_final id items = true ->
  scan_projects_needing_review (ss_root s) = [] /\ scan_projects_needing_screenshot (ss_root s) = [].
Proof.
  unfold final_gates. intros E Ho Hon Hf. rewrite Hon, Hf in E. cbn [fst is_blocked negb andb] in E.
  apply mbind_inv in E as (o1 & s1 & E1 & E). apply review_gate_open in E1 as [-> E1].
  destruct (scan_projects_needing_review (ss_root s)) as [|p l].
  - subst o1. cbn in E. apply see_fix_gate_open in E as [_ E].
    destruct (scan_projects_needing_screenshot (ss_root s)) as [|p l]; [done|]. destruct E as [_ ->]. done.
  - destruct E1 as [_ ->]. cbn in E. by injection E as <- _.
Qed.
Lemma effective_completed ctx id ev items s st reason s' :
  effective_status ctx id (Some Completed) ev items s = (Ok (st, reason), s') -> verify_gate_enabled ctx = true ->
  st = Some Completed ->
  (exists e, ev = Some e /\ is_acceptable_evidence e = true) /\ scan_dirty_projects (ss_root s) = []
  /\ (is_final id items = true ->
      scan_projects_needing_review (ss_root s) = [] /\ scan_projects_needing_screenshot (ss_root s) = []).
Proof.
  unfold effective_status. intros E Hon ->. apply mbind_inv in E as ([] & s1 & Ee & E).
  unfold check_evidence in Ee. destruct ev as [e|]; [|done].
  destruct (is_acceptable_evidence e) eqn:Ha; [|done]. injection Ee as <-.
  apply mbind_inv in E as (o & s2 & Ev & E). apply verify_gate_open in Ev as [-> Ev]; [|done].
  apply mbind_inv in E as (o2 & s3 & Ef & E). injection E as Eo _ _. split; [eauto|].
  destruct (scan_dirty_projects (ss_root s)) as [|p l].
  - subst o. split; [done|]. intros Hf. by eapply final_gates_open.
  - destruct Ev as [_ ->]. unfold final_gates in Ef. cbn [fst is_blocked negb] in Ef.
    rewrite andb_false_r in Ef. cbn in Ef. injection Ef as <- _. done.
Qed.
(** Inversion of an update that sets a status. *)
Lemma update_inv ctx u s it s' :
  todo_update ctx u s = (Ok it, s') ->
  exists items s1 old eff s2,
    read_all s = (Ok items, s1) /\ In old items /\ td_id old = up_id u
    /\ effective_status ctx (up_id u) (up_status u) (up_evidence u) items s1 = (Ok eff, s2)
    /\ td_status it = default (td_status old) (fst eff).
Proof.
  intros E. assert (update_locked ctx u s = (Ok it, s')) as E'.
  { unfold todo_update in E. by destruct (up_text u), (up_status u). }
  clear E. unfold update_locked in E'. apply mbind_inv in E' as (items & s1 & Er & E).
  destruct (position (up_id u) items) as [pos|] eqn:Hp; [|done].
  destruct (items !! pos) as [old|] eqn:Ho; [|done].
  apply mbind_inv in E as (eff & s2 & Ee & E). apply mbind_inv in E as (text & s3 & _ & E).
  apply mbind_inv in E as (tm & s4 & _ & E). apply mbind_inv in E as ([] & s5 & _ & E).
  apply mbind_inv in E as ([] & s6 & _ & E). injection E as <- _. exists items, s1, old, eff, s2.
  unfold position in Hp. destruct (list_find _ items) as [[i old']|] eqn:Hf; [|done]. injection Hp as ->.
  apply list_find_Some in Hf as (Hx & Hid & _). simplify_eq. split; [done|].
  split; [by apply list_elem_of_In, list_elem_of_lookup; eauto|]. split; [done|]. split; [done|].
  by destruct eff as [[st|] reason].
Qed.
Lemma update_completed ctx u s it s' :
  todo_update ctx u s = (Ok it, s') -> verify_gate_enabled ctx = true ->
  up_status u = Some Completed -> td_status it = Completed ->
  (exists e, up_evidence u = Some e /\ is_acceptable_evidence e = true) /\ scan_dirty_projects (ss_root s) = []
  /\ exists items s1, read_all s = (Ok items, s1)
     /\ (is_final (up_id u) items = true ->
         scan_projects_needing_review (ss_root s) = [] /\ scan_projects_needing_screenshot (ss_root s) = []).
Proof.
  intros E Hon Hu Hit. apply update_inv in E as (items & s1 & old & [st reason] & s2 & Er & _ & _ & Ee & Est).
  rewrite Hu in Ee. assert (st = Some Completed) as ->.
  { unfold effective_status in Ee. apply mbind_inv in Ee as ([] & ? & _ & Ee).
    apply mbind_inv in Ee as (? & ? & _ & Ee). apply mbind_inv in Ee as (? & ? & _ & Ee).
    injection Ee as <- _ _. cbn in Est. congruence. }
  apply effective_completed in Ee; [|done..]. rewrite (read_all_root _ _ _ Er) in Ee.
  destruct Ee as (He & Hd & Hf). split; [done|]. split; [done|]. eauto.
Qed.
End Completed.
