(* ===== verification/TodoProps.v ===== *)
(** The list behind the todo tools: its invariant, the checklist handed to the channels,
    what the gates refuse and for how long. *)
From S2P Require Import Prelude TodoSchema Files VerifyGate SelfReview Todo VerifyProps.

(** ** Texts with something to read *)

Definition ink (s : rstr) : bool := existsb (fun c => negb (is_whitespace c)) s.
Lemma ink_trim_start s : ink (trim_start s) = ink s /\ (trim_start s = [] <-> ink s = false).
Proof.
  unfold trim_start, ink. induction s as [|c s IH]; cbn; [done|].
  destruct (is_whitespace c) eqn:Hc; cbn; [exact IH|]. by rewrite Hc.
Qed.
Lemma ink_rev s : ink (rev s) = ink s.
Proof.
  unfold ink. induction s as [|c s IH]; cbn; [done|]. rewrite existsb_app, IH. cbn. by rewrite orb_false_r, orb_comm.
Qed.
Lemma ink_trim s : ink (trim s) = ink s /\ (trim s = [] <-> ink s = false).
Proof.
  unfold trim, trim_end. destruct (ink_trim_start s) as [E1 _].
  destruct (ink_trim_start (rev (trim_start s))) as [E2 N2]. rewrite ink_rev in E2, N2. rewrite ink_rev, E2, E1.
  split; [done|]. rewrite <- E1, <- N2. split; [|by intros ->].
  intros E. apply (f_equal (@rev Z)) in E. by rewrite rev_involutive in E.
Qed.
Lemma trim_ink s c t : trim s = c :: t -> ink (c :: t) = true.
Proof.
  intros E. destruct (ink_trim s) as [Ei En]. rewrite <- E, Ei.
  destruct (ink s); [done|]. by rewrite (proj2 En eq_refl) in E.
Qed.

(** ** The invariant of the list *)

(** Ids are distinct and fit, texts can be read, a reason comes with a block. *)
Record wf_items (items : list TodoItem) : Prop := {
  wf_ids : List.NoDup (map td_id items);
  wf_width : Forall (fun it => 0 <= td_id it <= u32_max) items;
  wf_texts : Forall (fun it => ink (td_text it) = true) items;
  wf_reasons : Forall (fun it => td_blocked_reason it <> None -> td_status it = Blocked) items;
}.
Lemma ids_max_ge l a : a <= fold_left Z.max l a /\ Forall (fun x => x <= fold_left Z.max l a) l.
Proof.
  revert a. induction l as [|x l IH]; intros a; cbn; [split; [lia | constructor]|].
  destruct (IH (Z.max a x)) as [H1 H2]. split; [lia|]. constructor; [lia | done].
Qed.
Lemma next_id_fresh items :
  next_id items < u32_max \/ Forall (fun it => td_id it < u32_max) items ->
  ~ In (next_id items) (map td_id items).
Proof.
  unfold next_id, sat_add. intros Hb Hin. destruct (ids_max_ge (map td_id items) 0) as [H0 Hall].
  rewrite List.Forall_forall in Hall. pose proof (Hall _ Hin) as Hle.
  destruct Hb as [Hb | Hb]; [lia|]. apply in_map_iff in Hin as (it & E & Hit).
  rewrite List.Forall_forall in Hb. specialize (Hb it Hit). lia.
Qed.
Lemma next_id_width items : 0 <= next_id items <= u32_max.
Proof. unfold next_id, sat_add. destruct (ids_max_ge (map td_id items) 0). unfold u32_max. lia. Qed.

Lemma wf_add items it :
  wf_items items -> ~ In (td_id it) (map td_id items) -> 0 <= td_id it <= u32_max -> ink (td_text it) = true ->
  td_blocked_reason it = None -> wf_items (items ++ [it]).
Proof.
  intros [Hi Hw Ht Hr] Hn Hid Hink Hre. split.
  - rewrite map_app. cbn. by apply NoDup_snoc.
  - apply List.Forall_app. split; [done|]. by constructor.
  - apply List.Forall_app. split; [done|]. by constructor.
  - apply List.Forall_app. split; [done|]. constructor; [congruence | constructor].
Qed.
Lemma wf_delete items pos old : wf_items items -> items !! pos = Some old -> wf_items (delete pos items).
Proof.
  intros [Hi Hw Ht Hr] Ho. rewrite delete_take_drop. split;
    try (apply List.Forall_app; split; [by apply Forall_take | by apply Forall_drop]).
  rewrite <- (take_drop_middle _ _ _ Ho), map_app in Hi. cbn in Hi. rewrite map_app. by apply NoDup_remove_1 in Hi.
Qed.
Lemma wf_insert items pos old it :
  wf_items items -> items !! pos = Some old -> td_id it = td_id old -> ink (td_text it) = true ->
  (td_blocked_reason it <> None -> td_status it = Blocked) -> wf_items (<[pos := it]> items).
Proof.
  intros [Hi Hw Ht Hr] Ho Hid Hink Hre. split.
  - change (@map TodoItem Z td_id) with (@fmap list _ TodoItem Z td_id). rewrite list_fmap_insert, Hid.
    rewrite list_insert_id; [done|]. by rewrite list_lookup_fmap, Ho.
  - apply Forall_insert; [done|]. rewrite Hid. by eapply (Forall_lookup_1 _ _ _ _ Hw).
  - by apply Forall_insert.
  - by apply Forall_insert.
Qed.

(** ** The checklist *)

Lemma wire_text_ok text : ink text = true -> trim (wire_text text) <> [] /\ (length (wire_text text) <= MAX_ITEM_TEXT_CHARS)%nat.
Proof.
  intros Hi. unfold wire_text. destruct (ink_trim text) as [Ei _]. destruct (Nat.ltb_spec MAX_ITEM_TEXT_CHARS (length (trim text))).
  - split.
    + intros E. apply ink_trim in E. unfold ink in E. rewrite existsb_app in E. cbn in E. by rewrite orb_true_r in E.
    + rewrite length_app, length_take. change (length [ellipsis_char]) with 1%nat. unfold MAX_ITEM_TEXT_CHARS in *. lia.
  - split; [|done]. intros E. apply ink_trim in E. congruence.
Qed.
Lemma validate_wire items seen :
  List.NoDup (map td_id items) -> Forall (fun it => ~ In (td_id it) seen) items -> Forall (fun it => ink (td_text it) = true) items ->
  validate_items seen (map wire_item items) = Ok tt.
Proof.
  revert seen. induction items as [|it items IH]; intros seen Hn Hs Ht; cbn [map validate_items]; [done|].
  inversion Hn as [|? ? Hx Hn']; subst. inversion Hs as [|? ? Hi Hs']; subst. inversion Ht as [|? ? Hk Ht']; subst.
  destruct (existsb _ seen) eqn:He.
  { apply existsb_exists in He as (x & Hx' & E). apply Z.eqb_eq in E. cbn in E. by subst x. }
  destruct (wire_text_ok _ Hk) as [Hne Hlen]. cbn [wire_item wi_text wi_id].
  destruct (trim (wire_text (td_text it))) as [|c t]; [done|].
  destruct (Nat.ltb_spec MAX_ITEM_TEXT_CHARS (length (wire_text (td_text it)))); [lia|]. apply IH; [done| |done].
  rewrite List.Forall_forall in *. intros x Hin [E | Hseen]; [|by apply (Hs' x)].
  apply Hx. rewrite E. by apply in_map.
Qed.
Lemma validate_untitled ws :
  ws <> [] -> (length ws <= MAX_ITEMS)%nat -> validate_items [] ws = Ok tt -> validate (mkWireList ws None) = Ok tt.
Proof.
  intros Hn Hlen Hv. unfold validate. cbn [wl_items wl_title]. destruct ws as [|w ws]; [done|].
  destruct (Nat.ltb_spec MAX_ITEMS (length (w :: ws))); [lia | exact Hv].
Qed.
Lemma wire_valid items l : wf_items items -> build_wire_list items = Some l -> validate l = Ok tt.
Proof.
  intros [Hi _ Ht _] E.
  assert (items <> [] /\ l = mkWireList (map wire_item (take MAX_ITEMS items)) None) as [Hn ->].
  { unfold build_wire_list in E. destruct items; [done|]. split; [done|]. congruence. }
  apply validate_untitled; [by destruct items | rewrite length_map, length_take; lia|]. apply validate_wire.
  - rewrite <- (take_drop MAX_ITEMS items), map_app in Hi. by apply NoDup_app_remove_r in Hi.
  - apply List.Forall_forall. by intros ? _ [].
  - by apply Forall_take.
Qed.

(** ** The handlers keep it *)

Section Handlers.
Context {Repo : Type} `{Hgit : Git Repo} `{Hio : MarkerIO} `{Htodo : TodoIO}.
Implicit Types (s : Session Repo).

Definition stored s : list TodoItem := match ss_store s with Items items => items | _ => [] end.
Definition wf_store s : Prop := wf_items (stored s).
Lemma read_all_stored s items s' : read_all s = (Ok items, s') -> items = stored s /\ ss_emits s' = ss_emits s.
Proof.
  unfold read_all, stored. destruct (ss_store s); [by intros [= <- <-]| |]; destruct (faulty s ReadStore); try done;
    [by intros [= <- <-]|]. destruct (faulty s RenameCorrupt); by intros [= <- <-].
Qed.
(** What a handler that succeeded leaves: the new list stored, and shown unless empty. *)
Definition published s s' (items : list TodoItem) : Prop :=
  ss_store s' = Items items
  /\ match build_wire_list items with
     | Some l => validate l = Ok tt /\ ss_emits s' = ss_emits s ++ [l]
     | None => items = [] /\ ss_emits s' = ss_emits s
     end.
Lemma publish s0 s items (it it' : TodoItem) s' :
  wf_items items -> ss_emits s = ss_emits s0 ->
  (write_all items ;; emit_after_mutation items ;; ret it) s = (Ok it', s') ->
  it' = it /\ published s0 s' items.
Proof.
  intros Hwf He E. apply mbind_inv in E as ([] & s1 & Ew & E). unfold write_all in Ew.
  destruct (_ || _); [done|]. injection Ew as <-. cbn in E. injection E as <- <-. split; [done|]. unfold published.
  destruct (build_wire_list items) as [l|] eqn:Hl.
  - rewrite (wire_valid _ _ Hwf Hl). cbn. by rewrite He.
  - split; [done|]. by destruct items.
Qed.
Lemma add_publishes text s it s' :
  wf_store s -> Forall (fun it => td_id it < u32_max) (stored s) -> todo_add text s = (Ok it, s') ->
  td_id it = next_id (stored s) /\ td_status it = Pending /\ wf_items (stored s ++ [it]) /\ published s s' (stored s ++ [it]).
Proof.
  unfold todo_add. intros Hwf Hb E. destruct (trim text) as [|c t] eqn:Ht; [done|].
  apply mbind_inv in E as (items & s1 & Er & E). apply read_all_stored in Er as [-> Ee].
  apply mbind_inv in E as (tm & s2 & Eg & E). injection Eg as <- <-.
  assert (wf_items (stored s ++ [mkTodo (next_id (stored s)) (c :: t) Pending (now s1) (now s1) None])) as Hwf'.
  { apply wf_add; try done; cbn; [by apply next_id_fresh; right | apply next_id_width | by eapply trim_ink]. }
  by apply (publish s) in E as [-> Hp].
Qed.
Lemma delete_publishes id s it s' :
  wf_store s -> todo_delete id s = (Ok it, s') ->
  td_id it = id /\ exists pos, stored s !! pos = Some it /\ wf_items (delete pos (stored s))
                               /\ published s s' (delete pos (stored s)).
Proof.
  unfold todo_delete. intros Hwf E. apply mbind_inv in E as (items & s1 & Er & E).
  apply read_all_stored in Er as [-> Ee].
  destruct (position id (stored s)) as [pos|] eqn:Hp; [|done]. destruct (stored s !! pos) as [old|] eqn:Ho; [|done].
  pose proof (wf_delete _ _ _ Hwf Ho) as Hwf'.
  apply (publish s) in E as [-> Hpub]; [|done|done].
  unfold position in Hp. destruct (list_find _ _) as [[i x]|] eqn:Hf; [|done]. injection Hp as ->.
  apply list_find_Some in Hf as (Hx & Hid & _). simplify_eq. eauto.
Qed.

Definition same_emits s s' : Prop := ss_emits s' = ss_emits s.
#[export] Instance same_emits_preorder : PreOrder same_emits.
Proof. split; [done | intros s s1 s2; unfold same_emits; congruence]. Qed.
Lemma emits_gate {A} (m : stateful (Session Repo) ToolError A) s a s' :
  keeps same_emits m -> m s = (Ok a, s') -> ss_emits s' = ss_emits s.
Proof. intros Hk E. specialize (Hk s). by rewrite E in Hk. Qed.
Lemma emits_review_gate id : keeps same_emits (review_gate id).
Proof. unfold review_gate. split_steps; try (by apply keeps_modify); by destruct (record_review_refusal _ _). Qed.
Lemma emits_see_fix_gate id : keeps same_emits (see_fix_gate id).
Proof. unfold see_fix_gate. split_steps; try (by apply keeps_modify); by destruct (record_screenshot_refusal _ _). Qed.
#[local] Hint Resolve emits_review_gate emits_see_fix_gate : keeps.
Lemma emits_effective ctx id st ev items : keeps same_emits (effective_status ctx id st ev items).
Proof. unfold effective_status, check_evidence, verify_gate, final_gates. split_steps. Qed.

Lemma update_publishes ctx u s it s' :
  wf_store s -> todo_update ctx u s = (Ok it, s') ->
  td_id it = up_id u /\ exists pos old, stored s !! pos = Some old /\ td_id old = up_id u
    /\ wf_items (<[pos := it]> (stored s)) /\ published s s' (<[pos := it]> (stored s)).
Proof.
  intros Hwf E. assert (update_locked ctx u s = (Ok it, s')) as E'.
  { unfold todo_update in E. by destruct (up_text u), (up_status u). }
  clear E. unfold update_locked in E'. apply mbind_inv in E' as (items & s1 & Er & E).
  apply read_all_stored in Er as [-> Ee].
  destruct (position (up_id u) (stored s)) as [pos|] eqn:Hp; [|done].
  destruct (stored s !! pos) as [old|] eqn:Ho; [|done].
  apply mbind_inv in E as (eff & s2 & Ef & E). apply emits_gate in Ef; [|apply emits_effective].
  apply mbind_inv in E as (text & s3 & Et & E). apply mbind_inv in E as (tm & s4 & Eg & E). injection Eg as <- <-.
  pose proof (Forall_lookup_1 _ _ _ _ (wf_texts _ Hwf) Ho) as Hink.
  pose proof (Forall_lookup_1 _ _ _ _ (wf_reasons _ Hwf) Ho) as Hre.
  assert (s3 = s2 /\ ink text = true) as [-> Htext].
  { unfold new_text in Et. destruct (up_text u) as [t|]; [|by injection Et as <- <-].
    destruct (trim t) as [|c t'] eqn:Htr; [done|]. injection Et as <- <-. split; [done|]. by eapply trim_ink. }
  assert (wf_items (<[pos := updated (now s2) text eff old]> (stored s))) as Hwf'.
  { eapply wf_insert; try done; destruct eff as [[st|] reason]; cbn; try done. by destruct st. }
  apply (publish s) in E as [-> Hpub]; [|done|congruence].
  unfold position in Hp. destruct (list_find _ _) as [[i x]|] eqn:Hf; [|done]. injection Hp as ->.
  apply list_find_Some in Hf as (Hx & Hid & _). simplify_eq.
  split; [by destruct eff as [[st|] reason]|]. eauto 10.
Qed.
End Handlers.
