(* ===== verification/TodoGates.v ===== *)
(** The promises of the gates on completed todos, and where they end. *)
From S2P Require Import Prelude TodoSchema Files VerifyGate SelfReview Todo VerifyProps TodoProps.

(** ** A session to try things on *)

#[export, refine] Instance StageRecord_eq_dec : EqDecision StageRecord := _.
Proof. solve_decision. Defined.
#[export, refine] Instance StageRecord_countable : Countable StageRecord :=
  inj_countable' (fun x => (sr_passed x, sr_at x)) (fun x => mkStageRecord (fst x) (snd x)) _.
Proof. by intros []. Defined.
Definition print_code {A} `{Countable A} (a : A) : rstr := [Zpos (encode a)].
Definition parse_code {A} `{Countable A} (s : rstr) : option A :=
  match s with [Zpos n] => decode n | _ => None end.
Lemma parse_print_code {A} `{Countable A} (a : A) : parse_code (print_code a) = Some a.
Proof. apply decode_encode. Qed.
Definition marker_tuple (m : ReviewMarker) :=
  (rm_base m, rm_workdir_hash m, rm_reviewed_at m, rm_findings m, rm_findings_count m).
Definition marker_of_tuple (x : option rstr * rstr * Z * list rstr * Z) : ReviewMarker :=
  let '(b, h, t, f, n) := x in mkReviewMarker b h t f n.

#[export] Instance demo_io : MarkerIO :=
  {| io_fault _ _ _ _ := None; data_root_env := None;
     print_stage_state m := print_code m; parse_stage_state s := parse_code s |}.
#[export] Instance demo_good : GoodIO.
Proof. split; [done | intros m; apply parse_print_code]. Defined.
#[export] Instance demo_store : TodoIO := {| store_fault _ _ := false |}.
#[export] Instance demo_good_store : GoodTodoIO.
Proof. by split. Defined.
(** A repository is the text of its one file, all of it committed nowhere. *)
#[export] Instance demo_git : Git rstr :=
  {| repo_open_error _ := None; is_bare _ := false; repo_head _ := Some (Ok (lit "c0"));
     oldest_commit _ := Ok (Some (lit "c0"));
     diff_lines text _ := Ok [mkDiffLine (lit "main.rs") (chr "+") text];
     parse_oid s := Some s; sha256_hex s := s;
     print_marker m := print_code (marker_tuple m);
     parse_marker s := option_map marker_of_tuple (parse_code s) |}.
#[export] Instance demo_good_git : GoodGit rstr.
Proof.
  split; [|by intros _ oid [= <-]]. intros m.
  change (option_map marker_of_tuple (parse_code (print_code (marker_tuple m))) = Some m).
  rewrite parse_print_code. by destruct m.
Defined.

Definition on_ctx : GateCfg := mkGateCfg true None.
Definition demo_app : rstr := lit "app".
Definition evidence : rstr := lit "ran cargo test in /data/app, 12 of 12 passed".
Definition complete (id : Z) : Update := mkUpdate id None (Some Completed) (Some evidence).
(** One project with the given markers, one pending todo. *)
Definition demo_session (files : list (MarkerFile * rstr)) (captures : nat) (repo : option rstr) : Session rstr :=
  mkSession (mkRoot 5 {[ demo_app := mkProject (list_to_map files) captures repo ]})
    (Items [mkTodo 1 (lit "build the app") InProgress 1 1 None]) [].
Definition edit_app : Call rstr := EditTool (lit "edit_file") (lit "/data/app/src/main.rs").
Definition test_run (ok : bool) : Call rstr := Shell (Some (lit "/data/app")) (lit " cargo test ") (Exited ok (lit "12 tests") []).
Definition two_stages : rstr := lit "lint: cargo clippy" ++ [newline] ++ lit "cargo test".
Definition lint_run : Call rstr := Shell (Some (lit "/data/app/src")) (lit "cargo clippy") (Exited true [] []).

(** ** Completed means verified *)


(** ** The gates of the last todo give up *)

Section GiveUp.
#[local] Opaque show_z.
Context {Repo : Type} `{Hgit : Git Repo} `{Hio : MarkerIO} `{Htodo : TodoIO} {Hgood : GoodIO} {Hstore : GoodTodoIO}.
Implicit Types (r : Root Repo) (s : Session Repo) (p q : rstr).

Lemma project_put r p f x q :
  pj_git (project (put r p f x) q) = pj_git (project r q)
  /\ pj_captures (project (put r p f x) q) = pj_captures (project r q).
Proof. unfold put. rewrite project_insert. by destruct (decide (p = q)) as [->|]. Qed.
Lemma read_put r p f x q g : f <> g -> read_best_effort (put r p f x) q g = read_best_effort r q g.
Proof. intros Hn. rewrite !read_good, marker_put. destruct (decide _) as [[_ ?]|]; done. Qed.
Lemma review_state_put r p f x q : f <> REVIEWED_MARKER_FILE -> review_state (put r p f x) q = review_state r q.
Proof.
  intros Hn. unfold review_state, repo_of, read_marker. destruct (project_put r p f x q) as [-> _].
  by rewrite read_put.
Qed.
Lemma see_fix_state_put r p f x q : f <> NEEDS_SCREENSHOT_FILE -> see_fix_state (put r p f x) q = see_fix_state r q.
Proof.
  intros Hn. unfold see_fix_state, is_ui_task, try_exists, fault. rewrite !no_fault.
  destruct (project_put r p f x q) as [_ ->]. by rewrite read_put.
Qed.
Lemma is_dirty_put r p f x q : f <> DIRTY_FILE -> is_dirty (put r p f x) q = is_dirty r q.
Proof. intros Hn. unfold is_dirty, try_exists. by rewrite read_put. Qed.
Lemma known_put_iff r p f x q : known r p -> known (put r p f x) q <-> known r q.
Proof.
  intros Hp. unfold known, put, set_projects. cbn. destruct (decide (p = q)) as [-> | Hn];
    [rewrite lookup_insert_eq | by rewrite lookup_insert_ne]. split; [done | by eexists].
Qed.
(** Counting a refusal changes no scan. *)
Lemma scans_put r p f x :
  known r p -> f = REVIEW_CYCLES_FILE \/ f = SCREENSHOT_CYCLES_FILE ->
  scan_dirty_projects (put r p f x) = scan_dirty_projects r
  /\ scan_projects_needing_review (put r p f x) = scan_projects_needing_review r
  /\ scan_projects_needing_screenshot (put r p f x) = scan_projects_needing_screenshot r.
Proof.
  intros Hp Hf. split_and!; apply scan_same; try (intros; by apply known_put_iff); intros q.
  - apply is_dirty_put. by destruct Hf as [-> | ->].
  - unfold needs_review. rewrite review_state_put; [done | by destruct Hf as [-> | ->]].
  - unfold needs_screenshot. rewrite see_fix_state_put; [done | by destruct Hf as [-> | ->]].
Qed.
Lemma counter_nonneg r p f : 0 <= read_counter r p f.
Proof.
  unfold read_counter. destruct (read_best_effort r p f) as [x|]; [|done].
  destruct (parse_uint u32_max (trim x)) as [n|] eqn:E; [|done]. by apply parse_uint_nonneg in E.
Qed.
Lemma counter_put r p f n : 0 <= n < 2 -> read_counter (put r p f (show_z (sat_add u32_max n 1))) p f = n + 1.
Proof.
  intros Hn. unfold read_counter. rewrite read_good, marker_put. destruct (decide _) as [_|[]]; [|done].
  assert (n = 0 \/ n = 1) as [-> | ->] by lia; vm_compute; reflexivity.
Qed.

(** How many more completions of the last todo are refused. *)
Definition refusals_left r : nat :=
  match scan_projects_needing_review r with
  | p :: _ => Z.to_nat (REVIEW_CYCLE_CAP - review_cycles r p)
  | [] => match scan_projects_needing_screenshot r with
          | p :: _ => Z.to_nat (SEE_FIX_CYCLE_CAP - screenshot_cycles r p)
          | [] => 0
          end
  end.
Lemma refusals_left_bound r : (refusals_left r <= 2)%nat.
Proof.
  unfold refusals_left, REVIEW_CYCLE_CAP, SEE_FIX_CYCLE_CAP, review_cycles, screenshot_cycles.
  destruct (scan_projects_needing_review r) as [|p l].
  - destruct (scan_projects_needing_screenshot r) as [|p l]; [lia|]. pose proof (counter_nonneg r p SCREENSHOT_CYCLES_FILE). lia.
  - pose proof (counter_nonneg r p REVIEW_CYCLES_FILE). lia.
Qed.

Context (ctx : GateCfg) (u : Update) (Hon : verify_gate_enabled ctx = true) (Hstatus : up_status u = Some Completed)
  (Hev : exists e, up_evidence u = Some e /\ is_acceptable_evidence e = true)
  (Htext : forall t, up_text u = Some t -> trim t <> []).
Definition ready s : Prop :=
  scan_dirty_projects (ss_root s) = [] /\ exists items, ss_store s = Items items /\ In (up_id u) (map td_id items).
Definition refused (e : ToolError) : Prop :=
  (exists p n, e = NotSelfReviewed (up_id u) p n) \/ (exists p n, e = NoFreshScreenshot (up_id u) p n).
Lemma review_attempt s :
  scan_dirty_projects (ss_root s) = [] ->
  match scan_projects_needing_review (ss_root s) with
  | [] => review_gate (up_id u) s = (Ok (Completed, None), s)
  | p :: _ => review_gate (up_id u) s = (Ok (Blocked, Some (review_blocked p)), s)
      \/ exists e r', review_gate (up_id u) s = (Err e, set_root r' s) /\ refused e
           /\ scan_dirty_projects r' = [] /\ refusals_left (ss_root s) = S (refusals_left r')
  end.
Proof.
  intros Hd. unfold review_gate. cbn. destruct (scan_projects_needing_review (ss_root s)) as [|p l] eqn:Hr; [done|].
  destruct (Z.ltb_spec (review_cycles (ss_root s) p) REVIEW_CYCLE_CAP) as [Hlt | _]; [right | by left].
  unfold record_review_refusal. rewrite write_good.
  assert (known (ss_root s) p) as Hk by (apply (scan_spec needs_review); unfold scan_projects_needing_review in Hr; rewrite Hr; by left).
  pose proof (counter_nonneg (ss_root s) p REVIEW_CYCLES_FILE) as Hnn. unfold REVIEW_CYCLE_CAP in *.
  set (x := show_z _). destruct (scans_put (ss_root s) p REVIEW_CYCLES_FILE x Hk) as (E1 & E2 & E3); [by left|].
  eexists _, (put (ss_root s) p REVIEW_CYCLES_FILE x). split; [reflexivity|]. split; [left; eauto|].
  split; [congruence|]. unfold refusals_left. rewrite E2, Hr. unfold REVIEW_CYCLE_CAP, review_cycles in *.
  unfold x. rewrite counter_put by lia. lia.
Qed.
Lemma see_fix_attempt s :
  scan_dirty_projects (ss_root s) = [] -> scan_projects_needing_review (ss_root s) = [] ->
  (exists o, see_fix_gate (up_id u) s = (Ok o, s) /\ (fst o = Completed \/ fst o = Blocked))
  \/ exists e r', see_fix_gate (up_id u) s = (Err e, set_root r' s) /\ refused e
       /\ scan_dirty_projects r' = [] /\ refusals_left (ss_root s) = S (refusals_left r').
Proof.
  intros Hd Hr. unfold see_fix_gate. cbn.
  destruct (scan_projects_needing_screenshot (ss_root s)) as [|p l] eqn:Hs; [left; eexists; split; [reflexivity | by left]|].
  destruct (Z.ltb_spec (screenshot_cycles (ss_root s) p) SEE_FIX_CYCLE_CAP) as [Hlt | _];
    [right | left; eexists; split; [reflexivity | by right]].
  unfold record_screenshot_refusal. rewrite write_good.
  assert (known (ss_root s) p) as Hk
    by (apply (scan_spec needs_screenshot); unfold scan_projects_needing_screenshot in Hs; rewrite Hs; by left).
  pose proof (counter_nonneg (ss_root s) p SCREENSHOT_CYCLES_FILE) as Hnn. unfold SEE_FIX_CYCLE_CAP in *.
  set (x := show_z _). destruct (scans_put (ss_root s) p SCREENSHOT_CYCLES_FILE x Hk) as (E1 & E2 & E3); [by right|].
  eexists _, (put (ss_root s) p SCREENSHOT_CYCLES_FILE x). split; [reflexivity|]. split; [right; eauto|].
  split; [congruence|]. unfold refusals_left. rewrite E2, Hr, E3, Hs. unfold SEE_FIX_CYCLE_CAP, screenshot_cycles in *.
  unfold x. rewrite counter_put by lia. lia.
Qed.
(** Either the gates let the todo be settled, or one refusal is used up. *)
Definition settles (items : list TodoItem) s : Prop :=
  exists st reason, effective_status ctx (up_id u) (Some Completed) (up_evidence u) items s = (Ok (Some st, reason), s)
                    /\ (st = Completed \/ st = Blocked).
Definition uses_up (items : list TodoItem) s : Prop :=
  exists e r', effective_status ctx (up_id u) (Some Completed) (up_evidence u) items s = (Err e, set_root r' s)
    /\ refused e /\ scan_dirty_projects r' = [] /\ refusals_left (ss_root s) = S (refusals_left r').
Lemma gates_attempt items s : scan_dirty_projects (ss_root s) = [] -> settles items s \/ uses_up items s.
Proof.
  intros Hd. destruct Hev as (e & He & Ha). unfold settles, uses_up, effective_status. rewrite He. cbn [check_evidence].
  rewrite Ha. unfold verify_gate, final_gates. rewrite Hon. cbn [negb]. unfold mbind, gets, ret. rewrite Hd.
  cbn [fst snd is_blocked negb andb].
  destruct (is_final (up_id u) items); [|left; by exists Completed, None; split; [|left]].
  pose proof (review_attempt s Hd) as Hr. destruct (scan_projects_needing_review (ss_root s)) as [|p l] eqn:Hscan.
  - rewrite Hr. cbn [fst is_blocked]. destruct (see_fix_attempt s Hd Hscan) as [([st reason] & -> & Ho) | (x & r' & -> & Hx)].
    + left. by exists st, reason.
    + right. by exists x, r'.
  - destruct Hr as [-> | (x & r' & -> & Hx)]; [left | right; by exists x, r'].
    cbn. eexists _, _. split; [reflexivity | by right].
Qed.
Lemma update_attempt s :
  ready s ->
  (exists it s', todo_update ctx u s = (Ok it, s') /\ (td_status it = Completed \/ td_status it = Blocked))
  \/ (exists e s', todo_update ctx u s = (Err e, s') /\ refused e /\ ready s'
        /\ refusals_left (ss_root s) = S (refusals_left (ss_root s'))).
Proof.
  intros (Hd & items & Hi & Hin). unfold todo_update. rewrite Hstatus.
  assert (read_all s = (Ok items, s)) as Er.
  { unfold read_all, faulty. rewrite Hi. by rewrite no_store_fault. }
  assert (exists pos it, position (up_id u) items = Some pos /\ items !! pos = Some it) as (pos & old & Hp & Ho).
  { unfold position. apply in_map_iff in Hin as (it & Eid & Hit). apply list_elem_of_In in Hit.
    destruct (list_find (fun it => td_id it = up_id u) items) as [[pos old]|] eqn:Hf.
    - exists pos, old. split; [done|]. by apply list_find_Some in Hf as (? & _).
    - apply list_find_None in Hf. rewrite Forall_forall in Hf. by apply Hf in Hit. }
  assert (update_locked ctx u s = (let! eff := effective_status ctx (up_id u) (Some Completed) (up_evidence u) items in
            let! text := new_text (up_text u) old in let! t := gets now in
            let it := updated t text eff old in let items := <[pos := it]> items in
            write_all items ;; emit_after_mutation items ;; ret it) s) as El.
  { unfold update_locked. rewrite (mbind_run _ _ _ _ _ Er), Hp, Ho, Hstatus. done. }
  destruct (gates_attempt items s Hd) as [(st & reason & E & Hst) | (e & r' & E & Hre & Hd' & Hleft)].
  - left. assert (exists text, new_text (up_text u) old s = (Ok text, s)) as [text Et].
    { unfold new_text. destruct (up_text u) as [t|]; [|by eexists]. specialize (Htext t eq_refl).
      destruct (trim t); [done | by eexists]. }
    rewrite (mbind_run _ _ _ _ _ E), (mbind_run _ _ _ _ _ Et) in El. cbn in El.
    unfold mbind, write_all, faulty in El. rewrite !no_store_fault in El. cbn in El.
    eexists _, _. split; [destruct (up_text u); exact El|]. by destruct Hst as [-> | ->]; [left | right].
  - right. rewrite (mbind_stop _ _ _ _ _ E) in El. exists e, (set_root r' s).
    split; [destruct (up_text u); exact El|]. split; [done|]. split; [|done]. split; [done|]. by exists items.
Qed.
End GiveUp.

(** C9. While no project is dirty, completing a todo with evidence is refused at most
    twice in a row, for a missing review or a missing screenshot; the next attempt
    completes the todo or blocks it. *)
Theorem gates_give_up {Repo} `{Git Repo} `{MarkerIO} `{TodoIO} {Hgood : GoodIO} {Hstore : GoodTodoIO} ctx u (s : Session Repo) :
  verify_gate_enabled ctx = true -> up_status u = Some Completed ->
  (exists e, up_evidence u = Some e /\ is_acceptable_evidence e = true) ->
  (forall t, up_text u = Some t -> trim t <> []) ->
  ready u s ->
  let at_attempt n := Nat.iter n (fun s => snd (todo_update ctx u s)) s in
  exists n, (n <= 2)%nat
  /\ (forall m, (m < n)%nat -> exists e, fst (todo_update ctx u (at_attempt m)) = Err e /\ refused u e)
  /\ exists it, fst (todo_update ctx u (at_attempt n)) = Ok it /\ (td_status it = Completed \/ td_status it = Blocked).
Proof.
  intros Hon Hst Hev Htext Hr at_attempt.
  assert (forall k s, ready u s -> refusals_left (ss_root s) = k -> exists n, (n <= k)%nat
    /\ (forall m, (m < n)%nat -> exists e, fst (todo_update ctx u (Nat.iter m (fun s => snd (todo_update ctx u s)) s)) = Err e /\ refused u e)
    /\ exists it, fst (todo_update ctx u (Nat.iter n (fun s => snd (todo_update ctx u s)) s)) = Ok it
                  /\ (td_status it = Completed \/ td_status it = Blocked)) as Hall.
  { clear Hr at_attempt s. induction k as [|k IH]; intros s Hr Hk;
      (destruct (update_attempt ctx u Hon Hst Hev Htext s Hr) as [(it & s' & E & Hit) | (e & s' & E & He & Hr' & Hl)];
       [exists 0%nat; split; [lia|]; split; [lia|]; cbn; rewrite E; eauto | try lia]).
    destruct (IH s' Hr') as (n & Hn & Hm & Hok); [lia|]. exists (S n). split; [lia|].
    assert (snd (todo_update ctx u s) = s') as Es by (by rewrite E). split; [|by rewrite Nat.iter_succ_r, Es].
    intros [|m] Hlt; [cbn; rewrite E; eauto|]. rewrite Nat.iter_succ_r, Es. apply Hm. lia. }
  destruct (Hall _ s Hr eq_refl) as (n & Hn & Hrest). exists n. split; [|exact Hrest].
  pose proof (refusals_left_bound (ss_root s)). lia.
Qed.
Lemma gates_give_up_witness :
  let s := demo_session [] 0 (Some (lit "fn main")) in
  exists n, (n <= 2)%nat
  /\ exists it, fst (todo_update on_ctx (complete 1) (Nat.iter n (fun s => snd (todo_update on_ctx (complete 1) s)) s)) = Ok it
  /\ (td_status it = Completed \/ td_status it = Blocked).
Proof.
  intros s. assert (ready (complete 1) s) as Hr.
  { split; [vm_compute; reflexivity|]. eexists. split; [reflexivity | by left]. }
  destruct (gates_give_up on_ctx (complete 1) s eq_refl eq_refl) as (n & Hn & _ & Hok); [| |exact Hr|].
  - eexists. split; [reflexivity | vm_compute; reflexivity].
  - done.
  - by exists n.
Defined.


(** A review that was submitted counts for as long as its record is there and the
    diff from the commit it was anchored to hashes to the same value, however the
    repository got there; otherwise the project is dirty again. *)
Theorem review_holds_until_changed {Repo} `{Git Repo} `{MarkerIO} {Hgood : GoodIO} {Hgit : GoodGit Repo} input (r r' : Root Repo) sb :
  self_review input r = (Ok (SubmitDone sb), r') ->
  exists repo base d, repo_of r (in_project input) = Some repo /\ head_oid repo = Ok base
  /\ compute_project_diff repo base = Ok d
  /\ sb_findings_recorded sb = Z.of_nat (length (default [] (in_findings input)))
  /\ forall r2 repo2 d2,
       marker r2 (in_project input) REVIEWED_MARKER_FILE = marker r' (in_project input) REVIEWED_MARKER_FILE ->
       repo_of r2 (in_project input) = Some repo2 -> repo_open_error repo2 = None -> is_bare repo2 = false ->
       compute_project_diff repo2 base = Ok d2 ->
       review_state r2 (in_project input)
       = if bool_decide (sha256_hex (df_text d2) = sha256_hex (df_text d)) then Clean else Dirty.
Proof.
  unfold self_review. set (p := in_project input). destruct (rt_projects r !! p); [|done].
  set (fs := default [] (in_findings input)). destruct (_ && _); [done|].
  destruct (_ || _); [|by destruct (read_blocking _ _ _ _)].
  unfold submit_blocking, open_project_repo. destruct (repo_of r p) as [repo|] eqn:Hrepo; [|done].
  destruct (repo_open_error repo); [done|]. cbn [rbind].
  destruct (head_oid repo) as [base|] eqn:Hhead; [|done]. cbn [rbind git_call].
  destruct (compute_project_diff repo base) as [d|] eqn:Hd; [|done]. cbn [rbind git_call].
  unfold write_marker, fault. rewrite !no_fault, write_good. cbn [rbind]. intros [= <- <-].
  exists repo, base, d. split_and!; try done. intros r2 repo2 d2 Hm Hr2 Ho Hb Hd2.
  unfold review_state. rewrite Hr2, Ho, Hb. unfold read_marker. rewrite read_good, Hm, marker_put.
  destruct (decide _) as [_|[]]; [|done]. rewrite marker_parses.
  assert (marker_base (review_of (rt_now r) base d fs) = base) as ->.
  { unfold marker_base, review_of. cbn. unfold head_oid in Hhead. destruct (repo_head repo) as [[oid|e]|] eqn:Hrh; try done.
    - injection Hhead as <-. by eapply head_parses.
    - by injection Hhead as <-. }
  rewrite Hd2. unfold review_of, hash_text. cbn. case_bool_decide as Heq.
  - rewrite Heq. by rewrite rstr_eqb_refl.
  - by rewrite rstr_eqb_neq.
Qed.
Lemma review_holds_until_changed_witness :
  let r := ss_root (demo_session [] 0 (Some (lit "fn main"))) in
  exists sb r', self_review (mkInput demo_app None None None (Some true)) r = (Ok (SubmitDone sb), r')
  /\ review_state r' demo_app = Clean /\ review_state (work demo_app 0 (Some (lit "fn main2")) r') demo_app = Dirty.
Proof.
  intros r. set (input := mkInput demo_app None None None (Some true)).
  assert (Ef : fst (self_review input r) = Ok (SubmitDone (mkSubmit true 0))) by (vm_compute; reflexivity).
  assert (E : self_review input r = (Ok (SubmitDone (mkSubmit true 0)), snd (self_review input r)))
    by (by rewrite <- Ef, <- surjective_pairing).
  exists (mkSubmit true 0), (snd (self_review input r)). split; [exact E|].
  destruct (review_holds_until_changed input r _ _ E) as (repo & base & d & Hr & Hb & Hd & _ & Hall).
  injection Hr as <-. injection Hb as <-. injection Hd as <-. split.
  - erewrite Hall; [| | | | |reflexivity]; try reflexivity. by rewrite bool_decide_eq_true_2.
  - erewrite Hall; [| | | | |reflexivity]; try reflexivity. rewrite bool_decide_eq_false_2; [done | by vm_compute].
Defined.

(** ** The checklist *)

Definition handler {Repo} `{Git Repo} `{MarkerIO} `{TodoIO} (ctx : GateCfg) (c : Call Repo)
    : option (stateful (Session Repo) ToolError TodoItem) :=
  match c with
  | AddTodo text => Some (todo_add text)
  | UpdateTodo u => Some (todo_update ctx u)
  | DeleteTodo id => Some (todo_delete id)
  | _ => None
  end.

(** From a well-formed list every call that adds, changes or drops a todo stores a
    well-formed list, with that item added at the end under a new id, in the place of
    the item of its id, or gone, and shows the channels exactly this list, which always
    passes their validation (at most 50 items with distinct ids and at most 200
    characters); an empty list is not shown.  Ids are below the largest of their width. *)
Theorem checklist_follows_store {Repo} `{Git Repo} `{MarkerIO} `{TodoIO} ctx c h (s : Session Repo) it s' :
  handler ctx c = Some h -> wf_store s -> Forall (fun x => td_id x < u32_max) (stored s) -> h s = (Ok it, s') ->
  wf_store s'
  /\ match c with
     | AddTodo _ => stored s' = stored s ++ [it] /\ td_id it = next_id (stored s)
     | UpdateTodo u => td_id it = up_id u
         /\ exists pos old, stored s !! pos = Some old /\ td_id old = td_id it /\ stored s' = <[pos := it]> (stored s)
     | DeleteTodo id => td_id it = id /\ exists pos, stored s !! pos = Some it /\ stored s' = delete pos (stored s)
     | _ => False
     end
  /\ match build_wire_list (stored s') with
     | Some l => validate l = Ok tt /\ ss_emits s' = ss_emits s ++ [l]
     | None => stored s' = [] /\ ss_emits s' = ss_emits s
     end.
Proof.
  intros Hh Hwf Hmax E.
  assert (forall items, published s s' items -> stored s' = items
    /\ match build_wire_list items with
       | Some l => validate l = Ok tt /\ ss_emits s' = ss_emits s ++ [l]
       | None => items = [] /\ ss_emits s' = ss_emits s
       end) as Hpub.
  { intros items [Hs Hl]. unfold stored. by rewrite Hs. }
  destruct c; try done; injection Hh as <-.
  - apply add_publishes in E as (Hid & _ & Hwf' & Hp); [|done..]. apply Hpub in Hp as [Es Hl].
    unfold wf_store. rewrite Es. by split_and!.
  - apply update_publishes in E as (Hid & pos & old & Ho & Hold & Hwf' & Hp); [|done]. apply Hpub in Hp as [Es Hl].
    unfold wf_store. rewrite Es. split; [done|]. split; [|done]. split; [done|]. exists pos, old. by rewrite Hold, Hid.
  - apply delete_publishes in E as (Hid & pos & Ho & Hwf' & Hp); [|done]. apply Hpub in Hp as [Es Hl].
    unfold wf_store. rewrite Es. split; [done|]. split; [|done]. split; [done|]. by exists pos.
Qed.
Lemma demo_wf files captures repo : wf_store (demo_session files captures repo).
Proof.
  unfold wf_store, stored, demo_session. cbn. split.
  - constructor; [by intros [] | constructor].
  - constructor; [vm_compute; done | constructor].
  - by repeat constructor.
  - by repeat constructor.
Qed.
Lemma checklist_follows_store_witness :
  let s := demo_session [] 0 None in
  exists it s', todo_add (lit " ship it ") s = (Ok it, s') /\ wf_store s'
  /\ exists l, build_wire_list (stored s') = Some l /\ validate l = Ok tt /\ ss_emits s' = ss_emits s ++ [l].
Proof.
  intros s. set (h := todo_add (lit " ship it ")).
  assert (Ef : fst (h s) = Ok (mkTodo 2 (lit "ship it") Pending 5 5 None)) by (vm_compute; reflexivity).
  assert (E : h s = (Ok (mkTodo 2 (lit "ship it") Pending 5 5 None), snd (h s)))
    by (by rewrite <- Ef, <- surjective_pairing).
  eexists _, (snd (h s)). split; [exact E|].
  assert (Forall (fun x => td_id x < u32_max) (stored s)) as Hmax by (by repeat constructor).
  destruct (checklist_follows_store on_ctx (AddTodo (lit " ship it ")) h s _ _ eq_refl (demo_wf [] 0 None) Hmax E)
    as (Hwf & _ & Hl).
  split; [done|]. destruct (build_wire_list _) as [l|] eqn:Hb; [by exists l|]. destruct Hl as [Hl _]. vm_compute in Hl. done.
Defined.

(** ** Refused for good *)

Section Refused.
Context {Repo : Type} `{Hgit : Git Repo} `{Hio : MarkerIO} `{Htodo : TodoIO} {Hgood : GoodIO} {Hstore : GoodTodoIO}.
#[local] Opaque show_z.
Lemma hooks_keep_cycles ctx tool (r : Root Repo) p :
  marker (apply_see_fix_hooks ctx tool r) p FIX_CYCLES_FILE = marker r p FIX_CYCLES_FILE.
Proof.
  assert (forall (f : Root Repo -> rstr -> Root Repo) l r,
    (forall r q, marker (f r q) p FIX_CYCLES_FILE = marker r p FIX_CYCLES_FILE) ->
    marker (fold_left f l r) p FIX_CYCLES_FILE = marker r p FIX_CYCLES_FILE) as Hfold.
  { intros f l r0 Hf. revert r0. induction l as [|q l IH]; intros r0; cbn; [done|]. by rewrite IH, Hf. }
  unfold apply_see_fix_hooks. destruct (see_fix_action tool); try done; destruct (verify_gate_enabled ctx); try done;
    apply Hfold; intros r0 q.
  - unfold clear_needs_screenshot, reset_screenshot_cycles. rewrite !remove_good, !marker_drop.
    by repeat (destruct (decide _) as [[_ ?]|_]; [done|]).
  - unfold mark_needs_screenshot. destruct (is_ui_task r0 q); [|done]. rewrite write_good, marker_put.
    by destruct (decide _) as [[_ ?]|_].
Qed.
Lemma failure_counts (r : Root Repo) p st so se :
  fix_cycles r p = 0 -> fix_cycles (stage_failed r p st so se) p = 1.
Proof.
  intros H0. unfold stage_failed, record_stage_verify_failure, record_stage_result, write_stage_state, record_verify_failure.
  rewrite H0, !write_good. cbn [snd]. unfold fix_cycles, read_counter. rewrite read_good, !marker_put.
  repeat (destruct (decide _) as [[_ ?]|?]; try done; try tauto).
Qed.
Lemma dirty_refused ctx u items p l (s : Session Repo) :
  verify_gate_enabled ctx = true -> ss_store s = Items items -> In (up_id u) (map td_id items) ->
  up_status u = Some Completed -> (exists e, up_evidence u = Some e /\ is_acceptable_evidence e = true) ->
  scan_dirty_projects (ss_root s) = p :: l -> fix_cycles (ss_root s) p < FIX_CYCLE_CAP ->
  todo_update ctx u s
  = (Err (UnverifiedChanges (up_id u) p (cmd_hint (ss_root s) p (project_stages (ss_root s) p (check_command_override ctx)))
            (sat_sub FIX_CYCLE_CAP (fix_cycles (ss_root s) p))), s).
Proof.
  intros Hon Hi Hin Hst (e & He & Ha) Hd Hlt.
  assert (todo_update ctx u s = update_locked ctx u s) as ->
    by (unfold todo_update; rewrite Hst; by destruct (up_text u)).
  assert (read_all s = (Ok items, s)) as Er.
  { unfold read_all, faulty. rewrite Hi. by rewrite no_store_fault. }
  unfold update_locked. rewrite (mbind_run _ _ _ _ _ Er).
  destruct (position (up_id u) items) as [pos|] eqn:Hp.
  - assert (exists it, items !! pos = Some it) as [it ->].
    { unfold position in Hp. destruct (list_find _ items) as [[i x]|] eqn:Hf; [|done]. injection Hp as ->.
      apply list_find_Some in Hf as (Hx & _). eauto. }
    unfold effective_status. rewrite Hst, He. cbn [check_evidence]. rewrite Ha. unfold verify_gate. rewrite Hon.
    unfold mbind, gets, ret, fail. cbn [negb fst snd]. rewrite Hd. destruct (Z.ltb_spec (fix_cycles (ss_root s) p) FIX_CYCLE_CAP); [done | lia].
  - exfalso. unfold position in Hp. destruct (list_find _ items) as [[i x]|] eqn:Hf; [done|].
    apply list_find_None in Hf. apply in_map_iff in Hin as (it & Eid & Hit). rewrite Forall_forall in Hf.
    apply list_elem_of_In in Hit. by apply Hf in Hit.
Qed.
End Refused.

(** The cap on fix cycles does not end a loop of edit, failing run and attempt:
    whatever the state, after an edit of a project and a failing run of one of its
    stages, a completion is refused with one cycle left as long as the project is the
    first dirty one: the edit took back the cycles of all the runs before. *)
Theorem refused_after_every_edit {Repo} `{Git Repo} `{MarkerIO} `{TodoIO} {Hgood : GoodIO} {Hstore : GoodTodoIO}
    ctx p tool path cwd command so se st u items l (s : Session Repo) :
  let edit := EditTool tool path in
  let run := Shell (Some cwd) command (Exited false so se) in
  let s' := calls ctx [edit; run] s in
  verify_gate_enabled ctx = true -> changes ctx p s edit = true ->
  resolves (ss_root (call ctx edit s)) cwd p = true ->
  find_stage (project_stages (ss_root s) p (check_command_override ctx)) (trim command) = Some st ->
  ss_store s = Items items -> In (up_id u) (map td_id items) ->
  up_status u = Some Completed -> (exists e, up_evidence u = Some e /\ is_acceptable_evidence e = true) ->
  scan_dirty_projects (ss_root s') = p :: l ->
  exists hint, todo_update ctx u s' = (Err (UnverifiedChanges (up_id u) p hint 1), s').
Proof.
  intros edit run s' Hon Hc Hr Hf Hi Hin Hst Hev Hd.
  assert (call ctx edit s = set_root (apply_see_fix_hooks ctx tool (mark_dirty (ss_root s) p)) s) as E1.
  { destruct (write_marks ctx Hon p path (ss_root s)) as [[_ E]|[Hn _]]; [|cbn in Hc; congruence].
    unfold edit, call, on_root. by rewrite E. }
  set (r1 := apply_see_fix_hooks ctx tool (mark_dirty (ss_root s) p)) in E1.
  destruct (mark_dirty_marks (ss_root s) p) as (_ & _ & _ & Hst1 & Hfix).
  assert (fix_cycles r1 p = 0) as Hfix1.
  { unfold fix_cycles, read_counter in *. rewrite read_good in *. unfold r1. by rewrite hooks_keep_cycles. }
  assert (project_stages r1 p (check_command_override ctx) = project_stages (ss_root s) p (check_command_override ctx)) as Hst2.
  { rewrite <- Hst1. apply (same_gate_reads p). apply same_gate_hooks. }
  assert (ss_root s' = stage_failed r1 p st so se) as E2.
  { unfold s', calls. cbn [fold_left]. rewrite E1 in *. cbn [set_root ss_root] in Hr.
    apply resolves_spec in Hr. unfold run, call, on_root, shell_hook, apply_verify_gate. cbn [set_root ss_root].
    by rewrite Hon, Hr, Hst2, Hf. }
  assert (ss_store s' = Items items) as Es.
  { unfold s', calls. cbn [fold_left]. by rewrite E1. }
  pose proof (failure_counts r1 p st so se Hfix1) as Hone. rewrite <- E2 in Hone.
  eexists. rewrite (dirty_refused ctx u items p l s' Hon Es Hin Hst Hev Hd) by (rewrite Hone; done).
  rewrite Hone. reflexivity.
Qed.
Lemma refused_after_every_edit_witness :
  let s := demo_session [(VERIFY_FILE, lit "cargo test"); (FIX_CYCLES_FILE, lit "2"); (DIRTY_FILE, [])] 0 None in
  exists hint, fst (todo_update on_ctx (complete 1) (calls on_ctx [edit_app; test_run false] s))
               = Err (UnverifiedChanges 1 demo_app hint 1).
Proof.
  intros s.
  destruct (refused_after_every_edit on_ctx demo_app (lit "edit_file") (lit "/data/app/src/main.rs") (lit "/data/app")
    (lit " cargo test ") (lit "12 tests") [] (mkStage (lit "stage1") (lit "cargo test")) (complete 1)
    [mkTodo 1 (lit "build the app") InProgress 1 1 None] [] s) as [hint E]; [try (vm_compute; reflexivity)..| |].
  - by left.
  - eexists. split; [reflexivity | vm_compute; reflexivity].
  - vm_compute. reflexivity.
  - exists hint. change (calls on_ctx [edit_app; test_run false] s) with
      (calls on_ctx [EditTool (lit "edit_file") (lit "/data/app/src/main.rs");
                     Shell (Some (lit "/data/app")) (lit " cargo test ") (Exited false (lit "12 tests") [])] s).
    by rewrite E.
Defined.

(** ** What is kept of a failure *)

Lemma trim_start_solid_text s : Forall (fun c => is_whitespace c = false) s -> trim_start s = s.
Proof. destruct s as [|c s]; [done|]. intros Hs. inversion Hs; subst. by apply trim_start_by_cons. Qed.
Lemma trim_solid_text s : Forall (fun c => is_whitespace c = false) s -> trim s = s.
Proof.
  intros Hs. unfold trim, trim_end. rewrite (trim_start_solid_text s) by done.
  rewrite trim_start_solid_text by (by apply Forall_rev). apply rev_involutive.
Qed.
Lemma show_parses n : 0 <= n <= u32_max -> default 0 (parse_uint u32_max (trim (show_z n))) = n.
Proof.
  intros Hn. assert (n <= u64_max) by (unfold u32_max, u64_max in *; lia).
  destruct (show_z_spec n) as (_ & _ & Hd); [lia|]. rewrite trim_solid_text; [by rewrite parse_uint_show by lia|].
  eapply Forall_impl; [exact Hd|]. intros c Hc.
  unfold is_ascii_digit in Hc. apply andb_prop in Hc as [Hlo%Z.leb_le Hhi%Z.leb_le]. unfold is_whitespace.
  rewrite !orb_false_iff, !andb_false_iff, !Z.leb_gt, !Z.eqb_neq. lia.
Qed.
Lemma tail_truncate_spec max s :
  0 <= max ->
  exists cut, s = cut ++ tail_truncate max s /\ byte_len (tail_truncate max s) <= max
  /\ forall cut' c, cut = cut' ++ [c] -> max < byte_len (c :: tail_truncate max s).
Proof.
  intros Hm. induction s as [|c s IH]; cbn [tail_truncate].
  - destruct (Z.leb_spec (byte_len []) max); exists []; (split; [done|]); (split; [cbn; lia|]); by intros [].
  - destruct (Z.leb_spec (byte_len (c :: s)) max) as [Hle | Hgt].
    + exists []. split; [done|]. split; [done|]. by intros [].
    + destruct IH as (cut & E & Hb & Hnext). exists (c :: cut). split; [by rewrite E at 1|]. split; [done|].
      intros cut' x Ec. destruct cut' as [|y cut']; [|injection Ec as -> Ec; by eapply Hnext].
      injection Ec as -> ->. cbn in E. by rewrite <- E.
Qed.

(** A failing run is counted, up to the largest number of the file, and of its output
    the longest end that fits into 8 KiB without cutting a character is kept: nothing
    is lost of an output that fits. *)
Theorem failure_is_counted {Repo} `{MarkerIO} {Hgood : GoodIO} (r : Root Repo) p tail :
  fix_cycles r p <= u32_max ->
  let r' := snd (record_verify_failure r p tail) in
  fst (record_verify_failure r p tail) = Z.min u32_max (fix_cycles r p + 1)
  /\ fix_cycles r' p = Z.min u32_max (fix_cycles r p + 1)
  /\ exists cut kept, tail = cut ++ kept /\ last_failure r' p = Some kept /\ byte_len kept <= 8192
     /\ (byte_len tail <= 8192 -> cut = []) /\ forall cut' c, cut = cut' ++ [c] -> 8192 < byte_len (c :: kept).
Proof.
  intros Hmax. unfold record_verify_failure. cbn [fst snd]. pose proof (counter_nonneg r p FIX_CYCLES_FILE) as Hnn.
  fold (fix_cycles r p) in Hnn. set (n := sat_add u32_max (fix_cycles r p) 1).
  assert (n = Z.min u32_max (fix_cycles r p + 1)) as En by done. split; [done|]. rewrite !write_good. split.
  - unfold fix_cycles at 1, read_counter. rewrite read_good, !marker_put.
    destruct (decide _) as [[_ ?]|_]; [done|]. destruct (decide _) as [_|[]]; [|done].
    rewrite <- En. apply show_parses. lia.
  - destruct (tail_truncate_spec LAST_FAILURE_MAX_BYTES tail) as (cut & E & Hb & Hc); [done|].
    exists cut, (tail_truncate LAST_FAILURE_MAX_BYTES tail). split; [done|]. split.
    { unfold last_failure. rewrite read_good, marker_put. by destruct (decide _) as [_|[]]. }
    split; [done|]. split; [|done]. intros Hfit. destruct cut as [|c cut] using rev_ind; [done|].
    exfalso. specialize (Hc _ _ eq_refl). rewrite E, <- app_assoc, byte_len_app in Hfit.
    pose proof (byte_len_nonneg cut). change LAST_FAILURE_MAX_BYTES with 8192 in *. cbn [app] in Hfit. lia.
Qed.
Lemma failure_is_counted_witness :
  let r := ss_root (demo_session [(FIX_CYCLES_FILE, lit "4294967295")] 0 None) in
  fix_cycles r demo_app <= u32_max /\ fst (record_verify_failure r demo_app (lit "boom")) = u32_max.
Proof.
  intros r. assert (Hr : fix_cycles r demo_app <= u32_max) by (vm_compute; done). split; [exact Hr|].
  destruct (failure_is_counted r demo_app (lit "boom") Hr) as [E _]. rewrite E. vm_compute. reflexivity.
Defined.

(** ** Where the comments promise something else *)

(** With 8 KiB of output the name of the stage, which is put in front of it, is what
    the truncation takes away. *)
Lemma long_failure_loses_stage {Repo} `{MarkerIO} {Hgood : GoodIO} (r : Root Repo) p stage out :
  byte_len out = 8192 -> last_failure (snd (record_stage_verify_failure r p stage out)) p = Some out.
Proof.
  intros Hout. unfold record_stage_verify_failure, record_verify_failure. cbn [snd]. rewrite !write_good.
  unfold last_failure. rewrite read_good, marker_put. destruct (decide _) as [_|[]]; [|done]. f_equal.
  assert (forall a, tail_truncate LAST_FAILURE_MAX_BYTES (a ++ out) = out) as Ha; 
    [|by rewrite !app_assoc].
  induction a as [|c a IH]; cbn [app tail_truncate].
  - destruct out as [|c out]; [done|]. cbn [tail_truncate]. rewrite Hout. done.
  - destruct (Z.leb_spec (byte_len (c :: a ++ out)) LAST_FAILURE_MAX_BYTES) as [Hle|_]; [|exact IH].
    exfalso. cbn [byte_len] in Hle. rewrite byte_len_app in Hle. pose proof (byte_len_nonneg a).
    change LAST_FAILURE_MAX_BYTES with 8192 in Hle. assert (1 <= len_utf8 c) by (unfold len_utf8; repeat destruct (_ <? _); lia). lia.
Qed.
(** Two stages of one name share one result: the run of the first makes both green. *)
Example same_name_greens_both :
  let files := [(VERIFY_FILE, lit "t: cargo test" ++ [newline] ++ lit "t: cargo clippy")] in
  let s := calls on_ctx [edit_app; Shell (Some (lit "/data/app")) (lit "cargo test") (Exited true [] [])] (demo_session files 0 None) in
  option_map td_status (match fst (todo_update on_ctx (complete 1) s) with Ok it => Some it | Err _ => None end) = Some Completed.
Proof. vm_compute. reflexivity. Qed.
(** Two stages with one command can never both be green: the run counts for the first. *)
Example same_command_never_green :
  let files := [(VERIFY_FILE, lit "unit: make check" ++ [newline] ++ lit "docs: make check")] in
  let run := Shell (Some (lit "/data/app")) (lit "make check") (Exited true [] []) in
  let s := calls on_ctx [edit_app; run; run] (demo_session files 0 None) in
  fst (todo_update on_ctx (complete 1) s)
  = Err (UnverifiedChanges 1 demo_app (MissingOrFailing [mkStage (lit "docs") (lit "make check")]) 2).
Proof. vm_compute. reflexivity. Qed.
(** Green results outlive the commands they were for: the verify file is exempt from
    marking, so that a stage that passed can be given another command. *)
Example rewritten_verify_keeps_green :
  let files := [(VERIFY_FILE, two_stages)] in
  let s := calls on_ctx [edit_app; lint_run; RecordVerify demo_app (lit "lint: cargo test --all" ++ [newline] ++ lit "build: true");
                         Shell (Some (lit "/data/app")) (lit "true") (Exited true [] [])] (demo_session files 0 None) in
  option_map td_status (match fst (todo_update on_ctx (complete 1) s) with Ok it => Some it | Err _ => None end) = Some Completed.
Proof. vm_compute. reflexivity. Qed.
(** A copy is an edit for the screenshot gate and none for the verification gate. *)
Example copy_is_no_change :
  let s := demo_session [(VERIFY_FILE, two_stages)] 1 None in
  is_dirty (ss_root (call on_ctx (OtherTool (lit "copy_file")) s)) demo_app = false
  /\ see_fix_state (ss_root (call on_ctx (OtherTool (lit "copy_file")) s)) demo_app = NeedsScreenshot.
Proof. vm_compute. split; reflexivity. Qed.
(** A verify run that fails on a clean project leaves it clean, and the todo completes. *)
Example failing_run_completes :
  let s := call on_ctx (test_run false) (demo_session [(VERIFY_FILE, lit "cargo test")] 0 None) in
  option_map td_status (match fst (todo_update on_ctx (complete 1) s) with Ok it => Some it | Err _ => None end) = Some Completed.
Proof. vm_compute. reflexivity. Qed.
(** The status only the gate is meant to set is taken from the agent, without evidence
    or a gate; the todo then no longer counts as unfinished. *)
Example agent_blocks_todo :
  let s := demo_session [(DIRTY_FILE, [])] 0 (Some (lit "fn main")) in
  option_map td_status (match fst (todo_update on_ctx (mkUpdate 1 None (Some Blocked) None) s) with Ok it => Some it | Err _ => None end)
  = Some Blocked.
Proof. vm_compute. reflexivity. Qed.
(** A list of files alone passes for evidence, and so do fourteen characters of three
    bytes with a verb. *)
Example delivery_is_evidence : is_acceptable_evidence (lit "wrote package.json and server.js and more") = true.
Proof. vm_compute. reflexivity. Qed.
Example short_evidence : is_acceptable_evidence (repeat 9989 11 ++ lit " passed") = true.
Proof. vm_compute. reflexivity. Qed.
(** After a review was submitted the refusals before it still count: the next change is
    refused once less. *)
Example review_cycles_survive :
  let s := demo_session [] 0 (Some (lit "fn main")) in
  let submit := SelfReview (mkInput demo_app None None None (Some true)) in
  let s' := calls on_ctx [UpdateTodo (complete 1); submit; Work demo_app 0 (Some (lit "fn main2"))] s in
  review_cycles (ss_root s') demo_app = 1
  /\ fst (todo_update on_ctx (complete 1) s') = Err (NotSelfReviewed 1 demo_app 0).
Proof. vm_compute. split; reflexivity. Qed.
