(* ===== verification/Compaction.v ===== *)
(** Compaction of a runner's history ([copperclaw-runner/src/compaction.rs]) and what
    the run loop does with it before each prompt ([run_loop] and the chat commands of
    [run/mod.rs], [state.rs]): the trigger, the split that keeps tool calls with their
    results, the summary with its retry and its fallback, and the project facts pinned
    to the front, rendered from the files of the session.

    The provider, the clock and the file system answer through [Surroundings]: what
    the n-th query yields, and which archive writes fail.  The data root is given as
    the entries its directory has. *)
From S2P Require Import Prelude Types Transcript VerifyGate.

(** ** The trigger *)

Inductive Effort : Type := Low | Medium | High.
Record CompactionCfg : Type := mkCompaction {
  cc_model_input_window : Z;
  cc_safety_margin_tokens : Z;
  cc_output_reserve_tokens : Z;
  cc_soft_target_tokens : Z;
  cc_summary_model : rstr;
  cc_summary_effort : Effort;
  cc_summary_max_tokens : Z;
}.
Definition saturating_sub (a b : Z) : Z := Z.max 0 (a - b).
Definition hard_threshold (c : CompactionCfg) : Z :=
  saturating_sub (saturating_sub (cc_model_input_window c) (cc_safety_margin_tokens c)) (cc_output_reserve_tokens c).
Definition effective_threshold (c : CompactionCfg) : Z :=
  let hard := hard_threshold c in
  if cc_soft_target_tokens c =? 0 then hard else Z.min (cc_soft_target_tokens c) hard.
Definition should_compact (c : CompactionCfg) (estimated_tokens : Z) : bool := effective_threshold c <? estimated_tokens.

Definition TOKEN_NUM : Z := 2.
Definition TOKEN_DEN : Z := 7.
(** Every run of ASCII white space counts as one character. *)
Fixpoint ws_count (prev_ws : bool) (s : rstr) : Z :=
  match s with
  | [] => 0
  | c :: r =>
      let is_ws := is_ascii_whitespace c in
      if is_ws && prev_ws then ws_count prev_ws r else 1 + ws_count is_ws r
  end.
Definition ws_collapsed_len (s : rstr) : Z := ws_count false s.
Definition IMAGE_CHARS : Z := 5250.

Section Estimate.
Context (json_text : json -> rstr).
Definition chars_of (m : HistoryMessage) : Z :=
  match m with
  | User content | Assistant content => ws_collapsed_len content
  | ToolUse id name input => ws_collapsed_len id + ws_collapsed_len name + ws_collapsed_len (json_text input)
  | Tool tool_use_id content _ => ws_collapsed_len tool_use_id + ws_collapsed_len content
  | Image media_type _ => ws_collapsed_len media_type + IMAGE_CHARS
  end.
Definition div_ceil (a b : Z) : Z := (a + b - 1) / b.
Definition estimate_tokens (messages : list HistoryMessage) : Z :=
  div_ceil (fold_left (fun chars m => chars + chars_of m) messages 0 * TOKEN_NUM) TOKEN_DEN.
End Estimate.

(** ** Splitting and cutting a history *)

(** The first position from [pivot] on that is neither a tool result nor right
    after a tool use. *)
Fixpoint settle (fuel : nat) (h : list HistoryMessage) (pivot : nat) : nat :=
  match fuel with
  | O => pivot
  | S f =>
      match h !! pivot with
      | None => pivot
      | Some m =>
          if is_tool m || match pivot with O => false | S i => match h !! i with Some m' => is_tool_use m' | None => false end end
          then settle f h (S pivot)
          else pivot
      end
  end.
Definition pair_safe_pivot (h : list HistoryMessage) : nat := settle (length h) h (Nat.div2 (length h)).

Definition PROJECT_FACTS_MARKER : rstr := lit "project_facts:".
Definition is_pinned_facts_header (m : HistoryMessage) : bool :=
  match m with User content => starts_with PROJECT_FACTS_MARKER content | _ => false end.

Fixpoint drop_leading_tools (h : list HistoryMessage) : list HistoryMessage :=
  match h with
  | m :: r => if is_tool m then drop_leading_tools r else h
  | [] => []
  end.
Definition truncate_to_recent (h : list HistoryMessage) (keep : nat) : list HistoryMessage :=
  drop_leading_tools (drop (length h - keep) h).
Definition prepend_facts (facts : option rstr) (h : list HistoryMessage) : list HistoryMessage :=
  match facts with Some header => User header :: h | None => h end.

(** ** The project facts *)

(** An entry of the data root: what is read of it when it is a directory. *)
Record Entry : Type := mkEntry {
  en_name : rstr;
  en_is_dir : bool;
  en_has_git : bool;
  en_has_state : bool;
  en_git_head : option rstr;
  en_verify : option rstr;
  en_ls_files : option rstr;
  en_decisions : option rstr;
}.
Record DataRoot : Type := mkDataRoot {
  dr_entries : list Entry;
  dr_todos : option (list json);
}.
Fixpoint insert_by_name (e : Entry) (l : list Entry) : list Entry :=
  match l with
  | [] => [e]
  | e' :: r => if rstr_leb (en_name e) (en_name e') then e :: l else e' :: insert_by_name e r
  end.
Definition scan_projects (root : DataRoot) : list Entry :=
  fold_right insert_by_name []
    (List.filter (fun e => en_is_dir e && (en_has_git e || en_has_state e)) (dr_entries root)).
Definition git_branch (e : Entry) : option rstr :=
  match en_git_head e with
  | Some head => strip_prefix (lit "ref: refs/heads/") (trim head)
  | None => None
  end.

Definition line (s : rstr) : rstr := s ++ [newline].
Definition ellipsis : rchar := 8230.
Definition MAX_VERIFY_STAGES_PINNED : nat := 20.
Definition MAX_INVENTORY_FILES : nat := 200.
Definition MAX_DECISIONS_LINES : nat := 30.
Definition show_len {A} (l : list A) : rstr := show_z (Z.of_nat (length l)).
Definition more_text (total shown : nat) (what : rstr) : rstr :=
  if (shown <? total)%nat
  then line (lit "    " ++ [ellipsis] ++ lit " (" ++ show_z (Z.of_nat (total - shown)) ++ lit " more " ++ what ++ lit " omitted)")
  else [].
Definition verify_stages_text (e : Entry) : rstr :=
  match recorded_stages (en_verify e) None with
  | [] => line (lit "  verify: (none recorded)")
  | [s] => line (lit "  verify: " ++ sg_command s)
  | stages =>
      let capped := take MAX_VERIFY_STAGES_PINNED stages in
      line (lit "  verify:")
      ++ concat (map (fun s => line (lit "    " ++ sg_name s ++ lit ": " ++ sg_command s)) capped)
      ++ more_text (length stages) (length capped) (lit "stages")
  end.
Definition filled_line (l : rstr) : bool := match l with [] => false | _ => true end.
Definition git_ls_files (e : Entry) : list rstr :=
  match en_ls_files e with Some out => List.filter filled_line (str_lines out) | None => [] end.
Definition file_inventory_text (e : Entry) : rstr :=
  match git_ls_files e with
  | [] => []
  | files =>
      let capped := take MAX_INVENTORY_FILES files in
      line (lit "  files (" ++ show_len files ++ lit "):")
      ++ concat (map (fun f => line (lit "    " ++ f)) capped)
      ++ more_text (length files) (length capped) (lit "files")
  end.
Definition decisions_tail_text (e : Entry) : rstr :=
  match en_decisions e with
  | None => []
  | Some text =>
      match nonempty_lines text with
      | [] => []
      | lines =>
          let tail := drop (length lines - MAX_DECISIONS_LINES) lines in
          line (lit "  decisions (last " ++ show_len tail ++ lit "):")
          ++ concat (map (fun d => line (lit "    - " ++ d)) tail)
      end
  end.
Definition project_text (e : Entry) : rstr :=
  line (lit "- " ++ en_name e
        ++ match git_branch e with Some b => lit " (branch: " ++ b ++ lit ")" | None => [] end)
  ++ verify_stages_text e ++ file_inventory_text e ++ decisions_tail_text e.

Definition todo_glyph (status : rstr) : rstr :=
  if rstr_eqb status (lit "completed") then lit "[x]"
  else if rstr_eqb status (lit "in_progress") then lit "[~]"
  else if rstr_eqb status (lit "blocked") then lit "[!]"
  else lit "[ ]".
Definition todo_text (it : json) : rstr :=
  let text := default [] (jget_str "text" it) in
  let glyph := todo_glyph (default (lit "pending") (jget_str "status" it)) in
  let blocked := match jget_str "blocked_reason" it with
                 | Some (c :: s) => lit "  (blocked: " ++ (c :: s) ++ lit ")"
                 | _ => []
                 end in
  match jget "id" it with
  | Some (JNum n) => if (0 <=? n) && (n <=? u64_max)
                     then lit "  " ++ glyph ++ lit " " ++ show_z n ++ lit ". " ++ text ++ blocked
                     else lit "  " ++ glyph ++ lit " " ++ text ++ blocked
  | _ => lit "  " ++ glyph ++ lit " " ++ text ++ blocked
  end.
Definition read_todos (root : DataRoot) : list rstr := map todo_text (default [] (dr_todos root)).
Definition facts_body (root : DataRoot) : rstr :=
  concat (map project_text (scan_projects root))
  ++ match read_todos root with
     | [] => []
     | todos => line (lit "plan / key decisions (todo list):") ++ concat (map line todos)
     end.
Definition build_project_facts_header (root : DataRoot) : option rstr :=
  match facts_body root with
  | [] => None
  | body => Some (PROJECT_FACTS_MARKER ++ [newline]
                  ++ lit "(pinned verbatim through compaction " ++ [em_dash] ++ lit " do not summarise or drop)" ++ [newline]
                  ++ trim_end body)
  end.

(** ** The runner *)

Inductive ProviderEvent : Type :=
| Result (text : option rstr)
| Error (message : rstr)
| OtherEvent.
Record QueryInput : Type := mkQuery {
  qi_system : rstr;
  qi_model : rstr;
  qi_effort : Effort;
  qi_history : list HistoryMessage;
  qi_max_tokens : Z;
}.
(** The two statements of a save. *)
Inductive SaveStep : Type := SaveHistory | SaveContinuation.
(** What the n-th query of the runner meets, its archive write, the data root and the
    clock then, whether a sentinel file can be removed, and whether the state can be
    saved. *)
Class Surroundings : Type := {
  sr_query : nat -> QueryInput -> result rstr (list ProviderEvent);
  sr_archive_error : nat -> option rstr;
  sr_root : nat -> DataRoot;
  sr_stamp : nat -> rstr;
  sr_removable : bool;
  sr_save_error : nat -> SaveStep -> option rstr;
  sr_todo_removable : bool;
}.
(** The state of the run loop between prompts: what is in memory, what was saved
    last, the sentinel files, the notes for the status line, the queries for summaries,
    the archives written, and whether there is a todo store (its content is in
    [Todo]). *)
Record Runner : Type := mkRunner {
  rn_history : list HistoryMessage;
  rn_continuation : option rstr;
  rn_saved : list HistoryMessage * option rstr;
  rn_clear_pending : bool;
  rn_compact_pending : bool;
  rn_notices : list (nat * nat * Z);
  rn_sent : list QueryInput;
  rn_archives : list (rstr * rstr);
  rn_todo_file : bool;
}.
Inductive RunError : Type :=
| CompactNowFailed
| SlashCompactFailed
| StateNotSaved (e : rstr).
Definition RM (A : Type) : Type := stateful Runner RunError A.

Section Run.
Context `{Surroundings} (json_text : json -> rstr).

Definition set_history (h : list HistoryMessage) (r : Runner) : Runner :=
  mkRunner h (rn_continuation r) (rn_saved r) (rn_clear_pending r) (rn_compact_pending r) (rn_notices r) (rn_sent r) (rn_archives r) (rn_todo_file r).
Definition set_continuation (c : option rstr) (r : Runner) : Runner :=
  mkRunner (rn_history r) c (rn_saved r) (rn_clear_pending r) (rn_compact_pending r) (rn_notices r) (rn_sent r) (rn_archives r) (rn_todo_file r).
Definition set_saved (s : list HistoryMessage * option rstr) (r : Runner) : Runner :=
  mkRunner (rn_history r) (rn_continuation r) s (rn_clear_pending r) (rn_compact_pending r) (rn_notices r) (rn_sent r) (rn_archives r) (rn_todo_file r).
Definition set_sentinels (clear compact : bool) (r : Runner) : Runner :=
  mkRunner (rn_history r) (rn_continuation r) (rn_saved r) clear compact (rn_notices r) (rn_sent r) (rn_archives r) (rn_todo_file r).
Definition push_notice (n : nat * nat * Z) (r : Runner) : Runner :=
  mkRunner (rn_history r) (rn_continuation r) (rn_saved r) (rn_clear_pending r) (rn_compact_pending r) (rn_notices r ++ [n]) (rn_sent r) (rn_archives r) (rn_todo_file r).
Definition add_query (q : QueryInput) (r : Runner) : Runner :=
  mkRunner (rn_history r) (rn_continuation r) (rn_saved r) (rn_clear_pending r) (rn_compact_pending r) (rn_notices r) (rn_sent r ++ [q]) (rn_archives r) (rn_todo_file r).
Definition add_archive (a : rstr * rstr) (r : Runner) : Runner :=
  mkRunner (rn_history r) (rn_continuation r) (rn_saved r) (rn_clear_pending r) (rn_compact_pending r) (rn_notices r) (rn_sent r) (rn_archives r ++ [a]) (rn_todo_file r).

Definition drop_todo_file (r : Runner) : Runner :=
  mkRunner (rn_history r) (rn_continuation r) (rn_saved r) (rn_clear_pending r) (rn_compact_pending r) (rn_notices r) (rn_sent r) (rn_archives r) false.

(** How many queries were sent. *)
Definition queries (r : Runner) : nat := length (rn_sent r).

(** *** Compaction *)

Definition SUMMARY_SYSTEM_PROMPT : rstr :=
  lit "Summarize the following conversation succinctly. Preserve any decisions, open questions, identifiers, and unresolved tool requests. Be terse.".
(** The events up to the first result; a stream that ends says nothing. *)
Fixpoint collect_summary (events : list ProviderEvent) : result rstr rstr :=
  match events with
  | [] => Ok []
  | Result text :: _ => Ok (default [] text)
  | Error message :: _ => Err message
  | OtherEvent :: rest => collect_summary rest
  end.
Definition summarise (cfg : CompactionCfg) (oldest : list HistoryMessage) : RM (result rstr rstr) :=
  let! n := gets queries in
  let q := mkQuery SUMMARY_SYSTEM_PROMPT (cc_summary_model cfg) (cc_summary_effort cfg) oldest (cc_summary_max_tokens cfg) in
  modify (add_query q) ;;
  ret (let? events := sr_query n q in collect_summary events).
Definition usable (r : result rstr rstr) : option rstr :=
  match r with
  | Ok s => match trim s with [] => None | _ => Some s end
  | Err _ => None
  end.
Definition summarise_with_retry (cfg : CompactionCfg) (oldest : list HistoryMessage) : RM (option rstr) :=
  let! first := summarise cfg oldest in
  match usable first with
  | Some s => ret (Some s)
  | None => let! second := summarise cfg oldest in ret (usable second)
  end.

Definition message_text (m : HistoryMessage) : rstr :=
  match m with
  | User content => lit "user" ++ [newline; newline] ++ content
  | Assistant content => lit "assistant" ++ [newline; newline] ++ content
  | ToolUse id name input =>
      lit "tool_use" ++ [newline; newline] ++ lit "id: " ++ id ++ [newline] ++ lit "name: " ++ name ++ [newline]
      ++ lit "input: " ++ json_text input
  | Tool tool_use_id content is_error =>
      lit "tool_result" ++ [newline; newline] ++ lit "tool_use_id: " ++ tool_use_id ++ [newline]
      ++ lit "is_error: " ++ lit (if is_error then "true" else "false") ++ [newline; newline] ++ content
  | Image media_type data =>
      lit "image" ++ [newline; newline] ++ lit "media_type: " ++ media_type ++ [newline]
      ++ lit "base64_bytes: " ++ show_z (byte_len data)
  end.
Fixpoint archive_entries (i : nat) (h : list HistoryMessage) : rstr :=
  match h with
  | [] => []
  | m :: r => lit "## " ++ show_z (Z.of_nat i) ++ lit ". " ++ message_text m ++ [newline; newline] ++ archive_entries (S i) r
  end.
Definition archive_text (stamp : rstr) (h : list HistoryMessage) : rstr :=
  lit "# Compaction archive" ++ [newline; newline] ++ lit "Archived at " ++ stamp ++ [newline; newline] ++ archive_entries 0 h.
(** Best effort: a failed write only means that there is no archive. *)
Definition write_archive (h : list HistoryMessage) : RM unit :=
  let! n := gets queries in
  match sr_archive_error n with
  | Some _ => ret tt
  | None =>
      let stamp := sr_stamp n in
      modify (add_archive (map (fun c => if c =? chr ":" then chr "-" else c) stamp ++ lit ".md", archive_text stamp h))
  end.

Definition BOUNDARY : rstr := lit "compact_boundary: ".
Definition NO_SUMMARY : rstr :=
  lit "compact_boundary: [summary unavailable " ++ [em_dash] ++ lit " older messages were truncated to fit the context window]".
Definition compact (h : list HistoryMessage) (cfg : CompactionCfg) : RM (list HistoryMessage) :=
  if (length h <? 4)%nat then ret h
  else
    let h := List.filter (fun m => negb (is_pinned_facts_header m)) h in
    let! n := gets queries in
    let facts := build_project_facts_header (sr_root n) in
    let pivot := pair_safe_pivot h in
    if (pivot =? 0)%nat || (length h <=? pivot)%nat then ret (prepend_facts facts h)
    else
      let oldest := take pivot h in
      let newest := drop pivot h in
      write_archive h ;;
      let! summary := summarise_with_retry cfg oldest in
      let boundary := match summary with Some s => BOUNDARY ++ s | None => NO_SUMMARY end in
      ret (prepend_facts facts (User boundary :: newest)).

(** *** The run loop *)

Definition RESUME_DEDUP_LOOKBACK : nat := 10.
Definition RECOVERY_KEEP_MESSAGES : nat := 8.
Definition save_state (h : list HistoryMessage) (c : option rstr) : RM unit :=
  let! n := gets queries in
  match sr_save_error n SaveHistory with
  | Some e => fail (StateNotSaved e)
  | None =>
      modify (fun r => set_saved (h, snd (rn_saved r)) r) ;;
      match sr_save_error n SaveContinuation with
      | Some e => fail (StateNotSaved e)
      | None => modify (fun r => set_saved (fst (rn_saved r), c) r)
      end
  end.
(** The start of a runner whose host asked for recovery: a failed save is only
    logged. *)
Definition recover (recovery_mode : bool) : RM unit :=
  if negb recovery_mode then ret tt
  else
    let! before := gets rn_history in
    let h := truncate_to_recent before RECOVERY_KEEP_MESSAGES in
    modify (set_history h) ;;
    if (length h =? length before)%nat then ret tt
    else
      modify (set_continuation None) ;;
      let! _ := catch (save_state h None) in ret tt.
Definition with_context {A} (m : RM A) (e : RunError) : RM A :=
  fun w => match m w with (Ok a, w') => (Ok a, w') | (Err _, w') => (Err e, w') end.
(** The sentinel files, before a prompt: clear wins over compact. *)
Definition honour_sentinels (cfg : CompactionCfg) : RM unit :=
  let! r := gets (fun r => r) in
  if rn_clear_pending r then
    modify (set_history []) ;;
    modify (set_continuation None) ;;
    if sr_removable then modify (set_sentinels false false) else ret tt
  else if rn_compact_pending r then
    let! h := with_context (compact (rn_history r) cfg) CompactNowFailed in
    modify (set_history h) ;;
    modify (set_continuation None) ;;
    if sr_removable then modify (set_sentinels false false) else ret tt
  else ret tt.
(** The trigger: an error would leave an empty history. *)
Definition auto_compact (cfg : CompactionCfg) : RM unit :=
  let! h := gets rn_history in
  let est_tokens := estimate_tokens json_text h in
  if should_compact cfg est_tokens then
    let! compacted := catch (compact h cfg) in
    let h' := match compacted with Ok c => c | Err _ => [] end in
    modify (set_history h') ;;
    modify (push_notice (length h, length h', div_ceil est_tokens 1000))
  else ret tt.
(** The newest user entry among the last ones is this prompt already. *)
Definition is_prompt_already_in_history (h : list HistoryMessage) (prompt : rstr) : bool :=
  match List.find (fun m => match m with User _ => true | _ => false end) (take RESUME_DEDUP_LOOKBACK (rev h)) with
  | Some (User content) => rstr_eqb content prompt
  | _ => false
  end.
Definition push_prompt (formatted : FormattedTurn) : RM unit :=
  let! h := gets rn_history in
  if is_prompt_already_in_history h (ft_prompt formatted) then ret tt
  else modify (set_history (h ++ User (ft_prompt formatted)
                              :: map (fun im => Image (fst im) (snd im)) (extract_inbound_images (ft_rows formatted)))).
Definition prepare_turn (cfg : CompactionCfg) (formatted : FormattedTurn) : RM unit :=
  honour_sentinels cfg ;;
  auto_compact cfg ;;
  push_prompt formatted.

Inductive SlashCommand : Type := Clear | Compact | Help.
Definition parse_slash (text : rstr) : option SlashCommand :=
  let t := map to_ascii_lowercase (trim text) in
  if rstr_eqb t (lit "/clear") || rstr_eqb t (lit "/reset") || rstr_eqb t (lit "/new") then Some Clear
  else if rstr_eqb t (lit "/compact") then Some Compact
  else if rstr_eqb t (lit "/help") || rstr_eqb t (lit "/?") || rstr_eqb t (lit "/commands") then Some Help
  else None.
Definition detect_slash_command_batch (formatted : FormattedTurn) : option SlashCommand :=
  match ft_rows formatted with
  | [row] =>
      if bool_decide (mi_kind row = Chat)
      then match jget_str "text" (mi_content row) with Some text => parse_slash text | None => None end
      else None
  | _ => None
  end.
(** What is told to the user: the entries before and after. *)
Inductive Confirmation : Type :=
| Cleared (prior : nat) (todo_removed : bool)
| Compacted (prior after : nat)
| HelpText.
(** Best effort; true when a store was removed. *)
Definition clear_todo_store : RM bool :=
  let! there := gets rn_todo_file in
  if there && sr_todo_removable then modify drop_todo_file ;; ret true else ret false.
Definition slash_history (cfg : CompactionCfg) (cmd : SlashCommand) : RM Confirmation :=
  let! h := gets rn_history in
  let! confirmation :=
    match cmd with
    | Clear =>
        modify (set_history []) ;;
        modify (set_continuation None) ;;
        let! todo_removed := clear_todo_store in
        ret (Cleared (length h) todo_removed)
    | Compact =>
        let! h' := with_context (compact h cfg) SlashCompactFailed in
        modify (set_history h') ;;
        modify (set_continuation None) ;;
        ret (Compacted (length h) (length h'))
    | Help => ret HelpText
    end in
  let! r := gets (fun r => r) in
  save_state (rn_history r) (rn_continuation r) ;;
  ret confirmation.

(** What a turn of the model appends: its text, its calls, then for each call the
    result and the images it brought. *)
Record ToolCall : Type := mkCall {
  tc_id : rstr;
  tc_name : rstr;
  tc_input : json;
}.
Record ToolAnswer : Type := mkAnswer {
  ta_content : rstr;
  ta_images : list (rstr * rstr);
  ta_is_error : bool;
}.
Definition append_output (text : rstr) (calls : list ToolCall) (h : list HistoryMessage) : list HistoryMessage :=
  h ++ (match text with [] => [] | _ => [Assistant text] end)
    ++ map (fun c => ToolUse (tc_id c) (tc_name c) (tc_input c)) calls.
Definition append_results (answers : list (ToolCall * ToolAnswer)) (h : list HistoryMessage) : list HistoryMessage :=
  h ++ flat_map (fun '(c, a) => Tool (tc_id c) (ta_content a) (ta_is_error a)
                                :: map (fun im => Image (fst im) (snd im)) (ta_images a)) answers.
End Run.
