(* ===== verification/CompactionProps.v ===== *)
(** What compaction keeps of a history: a tool call is not parted from its result,
    neither in what is summarised nor in what stays, as long as no image stands
    between two results of a turn; it never fails, and pins one header; when it is
    triggered; what a crash or a recovery makes of the history. *)
From stdpp Require Import relations.
From S2P Require Import Prelude Types Transcript Compaction.

(** ** Calls and results *)

(** The calls that wait for their result, along a history; a result that answers no
    waiting call is refused. *)
Fixpoint remove_first (id : rstr) (open : list rstr) : option (list rstr) :=
  match open with
  | [] => None
  | x :: r => if rstr_eqb x id then Some r else option_map (cons x) (remove_first id r)
  end.
Fixpoint waiting (open : list rstr) (h : list HistoryMessage) : option (list rstr) :=
  match h with
  | [] => Some open
  | ToolUse id _ _ :: r => waiting (open ++ [id]) r
  | Tool id _ _ :: r => match remove_first id open with Some open' => waiting open' r | None => None end
  | _ :: r => waiting open r
  end.
(** Every call has its result and every result its call. *)
Definition paired (h : list HistoryMessage) : Prop := waiting [] h = Some [].

(** A history in groups: one entry that is no call and no result, or the calls of a
    turn followed by their results in order. *)
Definition calls_of (cs : list (ToolCall * ToolAnswer)) : list HistoryMessage :=
  map (fun '(c, _) => ToolUse (tc_id c) (tc_name c) (tc_input c)) cs.
Definition results_of (cs : list (ToolCall * ToolAnswer)) : list HistoryMessage :=
  map (fun '(c, a) => Tool (tc_id c) (ta_content a) (ta_is_error a)) cs.
Inductive group : list HistoryMessage -> Prop :=
| group_plain m : is_tool m = false -> is_tool_use m = false -> group [m]
| group_batch cs : cs <> [] -> group (calls_of cs ++ results_of cs).
Inductive grouped : list HistoryMessage -> Prop :=
| grouped_nil : grouped []
| grouped_cons g h : group g -> grouped h -> grouped (g ++ h).

Lemma grouped_app h1 h2 : grouped h1 -> grouped h2 -> grouped (h1 ++ h2).
Proof. intros H1 H2. induction H1 as [|g h Hg _ IH]; [done|]. rewrite <- app_assoc. by constructor. Qed.
Lemma grouped_plain m h : is_tool m = false -> is_tool_use m = false -> grouped h -> grouped (m :: h).
Proof. intros H1 H2 Hh. apply (grouped_cons [m]); [by constructor | done]. Qed.
Lemma grouped_plains l : Forall (fun m => is_tool m = false /\ is_tool_use m = false) l -> grouped l.
Proof. induction 1 as [|m l [H1 H2] _ IH]; [constructor | by apply grouped_plain]. Qed.

Lemma waiting_app open h1 h2 :
  waiting open (h1 ++ h2) = match waiting open h1 with Some o => waiting o h2 | None => None end.
Proof.
  revert open. induction h1 as [|m h1 IH]; intros open; [done|]. destruct m; cbn; try apply IH.
  destruct (remove_first _ _); [apply IH | done].
Qed.
Lemma waiting_calls open cs : waiting open (calls_of cs) = Some (open ++ map (fun '(c, _) => tc_id c) cs).
Proof.
  revert open. induction cs as [|[c a] cs IH]; intros open; cbn; [by rewrite app_nil_r|].
  rewrite IH. by rewrite <- app_assoc.
Qed.
Lemma waiting_results cs : waiting (map (fun '(c, _) => tc_id c) cs) (results_of cs) = Some [].
Proof. induction cs as [|[c a] cs IH]; cbn; [done|]. by rewrite rstr_eqb_refl. Qed.
Lemma grouped_paired h : grouped h -> paired h.
Proof.
  unfold paired. induction 1 as [|g h Hg _ IH]; [done|]. rewrite waiting_app.
  destruct Hg as [m H1 H2 | cs _]; [by destruct m|]. rewrite waiting_app, waiting_calls. cbn [app]. by rewrite waiting_results.
Qed.

(** ** The split *)

(** A cut before position [p] parts a turn's calls and results. *)
Definition parts (h : list HistoryMessage) (p : nat) : bool :=
  match h !! p with
  | None => false
  | Some m => is_tool m || match p with O => false | S i => match h !! i with Some m' => is_tool_use m' | None => false end end
  end.
Lemma settle_stops fuel h p : (length h - p <= fuel)%nat -> (p <= length h)%nat ->
  parts h (settle fuel h p) = false /\ (p <= settle fuel h p <= length h)%nat.
Proof.
  revert p. induction fuel as [|f IH]; intros p Hf Hp; cbn.
  - unfold parts. by rewrite lookup_ge_None_2 by lia.
  - destruct (h !! p) as [m|] eqn:E; [|unfold parts; by rewrite E]. pose proof (lookup_lt_Some _ _ _ E).
    destruct (is_tool m || _) eqn:Et; [destruct (IH (S p)) as [H1 H2]; [lia | lia | split; [done | lia]]|].
    unfold parts. by rewrite E.
Qed.
Lemma inside_batch cs p : (0 < p < length (calls_of cs ++ results_of cs))%nat -> parts (calls_of cs ++ results_of cs) p = true.
Proof.
  intros Hp. assert (length (calls_of cs) = length cs /\ length (results_of cs) = length cs) as [Hc Hr]
    by (unfold calls_of, results_of; by rewrite !length_map).
  rewrite length_app in Hp. unfold parts. destruct (decide (p < length cs)%nat) as [Hlt | Hge].
  - rewrite lookup_app_l by lia. destruct (calls_of cs !! p) as [m|] eqn:E; [|apply lookup_ge_None in E; lia].
    destruct p as [|i]; [lia|]. rewrite lookup_app_l by lia. unfold calls_of. rewrite list_lookup_fmap.
    destruct (cs !! i) as [[c a]|] eqn:Ei; [cbn; apply orb_true_r | apply lookup_ge_None in Ei; lia].
  - rewrite lookup_app_r by lia. rewrite Hc. unfold results_of. rewrite list_lookup_fmap.
    destruct (cs !! (p - length cs)%nat) as [[c a]|] eqn:Ei; [done | apply lookup_ge_None in Ei; lia].
Qed.
Lemma parts_shift g h p : (length g < p)%nat -> parts (g ++ h) p = parts h (p - length g).
Proof.
  intros Hp. unfold parts. rewrite lookup_app_r by lia. destruct p as [|i]; [lia|].
  rewrite (lookup_app_r g h i) by lia. by replace (S i - length g)%nat with (S (i - length g)) by lia.
Qed.
Lemma parts_inside g h p : (p < length g)%nat -> parts (g ++ h) p = parts g p.
Proof.
  intros Hp. unfold parts. rewrite lookup_app_l by lia. destruct p as [|i]; [done|]. by rewrite lookup_app_l by lia.
Qed.
(** A cut that parts nothing leaves groups on both sides. *)
Lemma grouped_split h p : grouped h -> parts h p = false -> grouped (take p h) /\ grouped (drop p h).
Proof.
  intros Hh. revert p. induction Hh as [|g h Hg Hh IH]; intros p Hp.
  { rewrite take_nil, drop_nil. by repeat constructor. }
  destruct p as [|p']; [split; [constructor | by constructor]|]. set (p := S p') in *.
  destruct (decide (p < length g)%nat) as [Hlt | Hge].
  - exfalso. rewrite parts_inside in Hp by done. destruct Hg as [m H1 H2 | cs Hne]; [cbn in Hlt; lia|].
    rewrite inside_batch in Hp; [done | lia].
  - rewrite take_app, drop_app. rewrite (take_ge g), (drop_ge g) by lia.
    assert (grouped (take (p - length g) h) /\ grouped (drop (p - length g) h)) as [H1 H2].
    { apply IH. destruct (decide (p = length g)) as [E | Hne]; [|rewrite <- (parts_shift g); [done | lia]].
      replace (p - length g)%nat with 0%nat by lia. unfold parts. destruct h as [|m h]; [done|]. cbn. rewrite orb_false_r.
      clear - Hp E. unfold parts in Hp. rewrite E, lookup_app_r, Nat.sub_diag in Hp by lia. cbn in Hp.
      by apply orb_false_elim in Hp as [? _]. }
    split; [by constructor | done].
Qed.
Lemma pivot_bounds h : parts h (pair_safe_pivot h) = false /\ (Nat.div2 (length h) <= pair_safe_pivot h <= length h)%nat.
Proof.
  assert (Nat.div2 (length h) <= length h)%nat by (rewrite Nat.div2_div; apply Nat.Div0.div_le_upper_bound; lia).
  apply settle_stops; [apply Nat.le_sub_l | done].
Qed.
Lemma grouped_filter h : grouped h -> grouped (List.filter (fun m => negb (is_pinned_facts_header m)) h).
Proof.
  induction 1 as [|g h Hg _ IH]; [constructor|]. rewrite List.filter_app. apply grouped_app; [|done].
  destruct Hg as [m H1 H2 | cs Hne].
  - cbn. destruct (negb _); [by apply grouped_plain; [| |constructor] | constructor].
  - assert (List.filter (fun m => negb (is_pinned_facts_header m)) (calls_of cs ++ results_of cs) = calls_of cs ++ results_of cs) as ->.
    { rewrite List.filter_app. f_equal; clear; induction cs as [|[c a] cs IH]; cbn; by f_equal. }
    rewrite <- (app_nil_r (_ ++ _)). constructor; [by constructor | constructor].
Qed.

(** ** One compaction *)

Section Compacting.
Context `{Surroundings} (json_text : json -> rstr).
Implicit Types (r : Runner) (h : list HistoryMessage).

Definition stripped h : list HistoryMessage := List.filter (fun m => negb (is_pinned_facts_header m)) h.
Definition query_of (cfg : CompactionCfg) h : QueryInput :=
  mkQuery SUMMARY_SYSTEM_PROMPT (cc_summary_model cfg) (cc_summary_effort cfg) h (cc_summary_max_tokens cfg).
Definition answer (n : nat) (cfg : CompactionCfg) h : option rstr :=
  usable (let? events := sr_query n (query_of cfg h) in collect_summary events).
(** The summary a compaction gets: the first usable one of two answers. *)
Definition summary_of (n : nat) (cfg : CompactionCfg) h : option rstr :=
  match answer n cfg h with Some s => Some s | None => answer (S n) cfg h end.
(** All but the queries and the archives is as it was; each query asks for a
    summary of [oldest]. *)
Definition asked (cfg : CompactionCfg) (oldest : list HistoryMessage) r r' : Prop :=
  rn_history r' = rn_history r /\ rn_continuation r' = rn_continuation r /\ rn_saved r' = rn_saved r
  /\ rn_clear_pending r' = rn_clear_pending r /\ rn_compact_pending r' = rn_compact_pending r /\ rn_notices r' = rn_notices r
  /\ exists k, (k <= 2)%nat /\ rn_sent r' = rn_sent r ++ replicate k (query_of cfg oldest).

Lemma summarise_with_retry_run cfg oldest r :
  exists r', summarise_with_retry cfg oldest r = (Ok (summary_of (queries r) cfg oldest), r')
    /\ asked cfg oldest r r' /\ rn_archives r' = rn_archives r.
Proof.
  unfold summarise_with_retry, summarise, summary_of. unfold mbind, gets, modify, ret. cbn [queries rn_sent add_query].
  fold (query_of cfg oldest). fold (answer (queries r) cfg oldest). destruct (answer (queries r) cfg oldest) as [s|] eqn:E1.
  - eexists. split; [reflexivity|]. split; [|done]. repeat split. exists 1%nat. split; [lia | done].
  - unfold queries at 1. cbn [rn_sent add_query]. rewrite length_app. cbn [length]. rewrite Nat.add_1_r.
    fold (queries r). fold (answer (S (queries r)) cfg oldest).
    eexists. split; [reflexivity|]. split; [|done]. repeat split. exists 2%nat. split; [lia|]. cbn. by rewrite <- app_assoc.
Qed.
Lemma write_archive_run h r : exists r', write_archive json_text h r = (Ok tt, r') /\ queries r' = queries r
  /\ rn_sent r' = rn_sent r /\ (forall cfg o r2, asked cfg o r' r2 -> asked cfg o r r2).
Proof.
  unfold write_archive, mbind, gets. destruct (sr_archive_error _); [by exists r|].
  eexists. split; [reflexivity|]. split; [done|]. split; [done|]. intros cfg o r2 Ha. exact Ha.
Qed.
(** What comes out of a compaction. *)
Definition compacted (cfg : CompactionCfg) r h : list HistoryMessage :=
  if (length h <? 4)%nat then h
  else
    let kept := stripped h in
    let facts := build_project_facts_header (sr_root (queries r)) in
    let pivot := pair_safe_pivot kept in
    if (pivot =? 0)%nat || (length kept <=? pivot)%nat then prepend_facts facts kept
    else
      let boundary := match summary_of (queries r) cfg (take pivot kept) with Some s => BOUNDARY ++ s | None => NO_SUMMARY end in
      prepend_facts facts (User boundary :: drop pivot kept).
Lemma compact_run h cfg r : exists r',
  compact json_text h cfg r = (Ok (compacted cfg r h), r')
  /\ asked cfg (take (pair_safe_pivot (stripped h)) (stripped h)) r r'.
Proof.
  unfold compact, compacted. destruct (_ <? 4)%nat.
  { exists r. split; [done|]. repeat split. exists 0%nat. split; [lia | by rewrite app_nil_r]. }
  fold (stripped h). unfold mbind at 1, gets. destruct (_ || _).
  { exists r. split; [done|]. repeat split. exists 0%nat. split; [lia | by rewrite app_nil_r]. }
  destruct (write_archive_run (stripped h) r) as (r1 & E1 & Eq & Es & Hasked).
  destruct (summarise_with_retry_run cfg (take (pair_safe_pivot (stripped h)) (stripped h)) r1) as (r2 & E2 & Ha & _).
  exists r2. unfold mbind at 1. rewrite E1. unfold mbind at 1. rewrite E2, Eq. split; [done|]. by apply Hasked.
Qed.

Definition facts_count h : nat := length (List.filter is_pinned_facts_header h).
Lemma stripped_count h : facts_count (stripped h) = 0%nat.
Proof.
  unfold facts_count, stripped. induction h as [|m h IH]; [done|]. cbn. destruct (is_pinned_facts_header m) eqn:E; cbn; [done|].
  by rewrite E.
Qed.
Lemma facts_header_marked root header : build_project_facts_header root = Some header -> is_pinned_facts_header (User header) = true.
Proof.
  unfold build_project_facts_header. destruct (facts_body root) as [|c b]; [done|]. set (rest := [newline] ++ _).
  intros E. assert (header = PROJECT_FACTS_MARKER ++ rest) as -> by congruence. cbn [is_pinned_facts_header].
  unfold starts_with. by rewrite strip_prefix_app.
Qed.
Lemma boundary_not_header s : is_pinned_facts_header (User (BOUNDARY ++ s)) = false /\ is_pinned_facts_header (User NO_SUMMARY) = false.
Proof. done. Qed.
Lemma drop_count n h : facts_count h = 0%nat -> facts_count (drop n h) = 0%nat.
Proof.
  unfold facts_count. intros Hz. rewrite <- (take_drop n h), List.filter_app, length_app in Hz. lia.
Qed.
Lemma prepend_count root h : facts_count h = 0%nat ->
  facts_count (prepend_facts (build_project_facts_header root) h)
  = match build_project_facts_header root with Some _ => 1%nat | None => 0%nat end.
Proof.
  intros Hz. destruct (build_project_facts_header root) as [header|] eqn:E; [|done].
  unfold facts_count, prepend_facts. cbn [List.filter]. rewrite (facts_header_marked root header E). cbn. by f_equal.
Qed.
Lemma compacted_count cfg r h : (4 <= length h)%nat ->
  facts_count (compacted cfg r h) = match build_project_facts_header (sr_root (queries r)) with Some _ => 1%nat | None => 0%nat end.
Proof.
  intros Hl. unfold compacted. destruct (Nat.ltb_spec (length h) 4); [lia|]. pose proof (stripped_count h) as Hz.
  destruct (_ || _); [by apply prepend_count|]. apply prepend_count.
  destruct (summary_of _ _ _) as [s|]; unfold facts_count; cbn [List.filter].
  - rewrite (proj1 (boundary_not_header s)). by apply drop_count.
  - rewrite (proj2 (boundary_not_header [])). by apply drop_count.
Qed.
Lemma grouped_compacted cfg r h : grouped h -> grouped (compacted cfg r h).
Proof.
  intros Hg. unfold compacted. destruct (_ <? 4)%nat; [done|]. pose proof (grouped_filter h Hg) as Hs. fold (stripped h) in Hs.
  assert (forall facts k, grouped k -> grouped (prepend_facts facts k)) as Hpre.
  { intros [f|] k Hk; [by apply grouped_plain | done]. }
  destruct (_ || _); [by apply Hpre|]. apply Hpre, grouped_plain; [done | done|].
  by apply (grouped_split (stripped h) (pair_safe_pivot (stripped h)) Hs), pivot_bounds.
Qed.
Lemma compacted_length cfg r h : (length (compacted cfg r h) <= S (length h))%nat.
Proof.
  unfold compacted. destruct (_ <? 4)%nat eqn:E4; [lia|]. apply Nat.ltb_ge in E4.
  assert (length (stripped h) <= length h)%nat as Hs by apply List.filter_length_le.
  assert (forall facts k, (length (prepend_facts facts k) <= S (length k))%nat) as Hpre by (intros [f|] k; cbn; lia).
  destruct (_ || _) eqn:Eb; [specialize (Hpre (build_project_facts_header (sr_root (queries r))) (stripped h)); lia|].
  apply orb_false_elim in Eb as [E1 _]. apply Nat.eqb_neq in E1.
  etransitivity; [apply Hpre|]. cbn [length]. rewrite length_drop. lia.
Qed.
End Compacting.

(** ** The run loop *)

(** Only the last answer of a turn brings images. *)
Definition images_last (cs : list (ToolCall * ToolAnswer)) : Prop :=
  Forall (fun '(_, a) => ta_images a = []) (removelast cs).
Definition append_turn (text : rstr) (cs : list (ToolCall * ToolAnswer)) (h : list HistoryMessage) : list HistoryMessage :=
  append_results cs (append_output text (map fst cs) h).
Definition plain_images (ims : list (rstr * rstr)) : list HistoryMessage := map (fun im => Image (fst im) (snd im)) ims.
Lemma grouped_images ims : grouped (plain_images ims).
Proof. apply grouped_plains, Forall_map, Forall_true. by intros im. Qed.
Lemma results_images cs : images_last cs -> exists ims,
  flat_map (fun '(c, a) => Tool (tc_id c) (ta_content a) (ta_is_error a) :: map (fun im => Image (fst im) (snd im)) (ta_images a)) cs
  = results_of cs ++ plain_images ims.
Proof.
  unfold images_last. induction cs as [|[c a] cs IH]; intros Hi; [by exists []|]. destruct cs as [|ca cs].
  - exists (ta_images a). cbn. by rewrite app_nil_r.
  - cbn [removelast] in Hi. apply Forall_cons in Hi as [Ha Hi]. destruct (IH Hi) as [ims E]. exists ims.
    cbn [flat_map results_of map]. cbn [flat_map] in E. rewrite E, Ha. done.
Qed.
Lemma grouped_turn text cs h : images_last cs -> grouped h -> grouped (append_turn text cs h).
Proof.
  intros Hi Hh. unfold append_turn, append_results, append_output. rewrite <- !app_assoc. apply grouped_app; [done|].
  apply grouped_app; [destruct text; [constructor | by apply grouped_plain; [| |constructor]]|].
  destruct (results_images cs Hi) as [ims ->]. rewrite map_map.
  assert (map (fun x : ToolCall * ToolAnswer => ToolUse (tc_id (fst x)) (tc_name (fst x)) (tc_input (fst x))) cs = calls_of cs) as ->
    by (apply map_ext; by intros []).
  rewrite app_assoc. apply grouped_app; [|apply grouped_images]. destruct cs as [|ca cs]; [constructor|].
  rewrite <- (app_nil_r (_ ++ _)). constructor; [by constructor | constructor].
Qed.

Section Loop.
Context `{Surroundings} (json_text : json -> rstr) (cfg : CompactionCfg).
Implicit Types (r : Runner).

(** A step of the run loop: the work before a prompt, a chat command, a turn of the
    model, a message put in between, a save that may fail half-way, and a crash with
    a restart. *)
Inductive run_step : Runner -> Runner -> Prop :=
| step_prepare formatted r res r' : prepare_turn json_text cfg formatted r = (res, r') -> run_step r r'
| step_slash cmd r res r' : slash_history json_text cfg cmd r = (res, r') -> run_step r r'
| step_turn text cs r : images_last cs -> run_step r (set_history (append_turn text cs (rn_history r)) r)
| step_steer text r : run_step r (set_history (rn_history r ++ [User text]) r)
| step_save r res r' : save_state (rn_history r) (rn_continuation r) r = (res, r') -> run_step r r'
| step_crash r : run_step r (set_continuation (snd (rn_saved r)) (set_history (fst (rn_saved r)) r)).

Definition well_kept r : Prop :=
  grouped (rn_history r) /\ grouped (fst (rn_saved r)) /\ Forall (fun q => grouped (qi_history q)) (rn_sent r).
Lemma asked_well_kept h r r' : grouped h -> well_kept r ->
  asked cfg (take (pair_safe_pivot (stripped h)) (stripped h)) r r' -> well_kept r'.
Proof.
  intros Hh (H1 & H2 & H3) (E1 & _ & E3 & _ & _ & _ & k & _ & Es). unfold well_kept. rewrite E1, E3, Es.
  split; [done|]. split; [done|]. apply Forall_app. split; [done|]. apply Forall_replicate.
  apply (grouped_split (stripped h)); [by apply grouped_filter | apply pivot_bounds].
Qed.
Lemma compact_well_kept h r : grouped h -> well_kept r ->
  exists r', compact json_text h cfg r = (Ok (compacted cfg r h), r') /\ well_kept r' /\ grouped (compacted cfg r h).
Proof.
  intros Hh Hr. destruct (compact_run json_text h cfg r) as (r' & E & Ha). exists r'. split; [done|].
  split; [by eapply asked_well_kept | by apply grouped_compacted].
Qed.
Lemma set_history_kept h r : grouped h -> well_kept r -> well_kept (set_history h r).
Proof. intros Hh (_ & H2 & H3). by repeat split. Qed.
Lemma honour_kept r : well_kept r -> well_kept (snd (honour_sentinels json_text cfg r)).
Proof.
  intros Hr. unfold honour_sentinels, mbind at 1, gets. destruct (rn_clear_pending r).
  { unfold mbind, modify. destruct sr_removable; cbn; (split; [constructor|]); apply Hr. }
  destruct (rn_compact_pending r); [|done]. unfold mbind at 1, with_context.
  destruct (compact_well_kept (rn_history r) r (proj1 Hr) Hr) as (r' & -> & Hk & Hg). unfold mbind, modify.
  destruct sr_removable; cbn; (split; [exact Hg|]); apply Hk.
Qed.
Lemma honour_ok r : exists r', honour_sentinels json_text cfg r = (Ok tt, r').
Proof.
  unfold honour_sentinels, mbind at 1, gets. destruct (rn_clear_pending r).
  { unfold mbind, modify. destruct sr_removable; by eexists. }
  destruct (rn_compact_pending r); [|by eexists]. unfold mbind at 1, with_context.
  destruct (compact_run json_text (rn_history r) cfg r) as (r' & -> & _). unfold mbind, modify. destruct sr_removable; by eexists.
Qed.
Lemma auto_kept r : well_kept r -> exists r', auto_compact json_text cfg r = (Ok tt, r') /\ well_kept r'.
Proof.
  intros Hr. unfold auto_compact, mbind at 1, gets. destruct (should_compact _ _); [|by exists r].
  destruct (compact_well_kept (rn_history r) r (proj1 Hr) Hr) as (r' & E & Hk & Hg).
  unfold mbind, catch, modify. rewrite E. eexists. split; [reflexivity|]. split; [exact Hg|]. apply Hk.
Qed.
Lemma push_kept formatted r : well_kept r -> well_kept (snd (push_prompt formatted r)).
Proof.
  intros Hr. unfold push_prompt, mbind, gets. destruct (is_prompt_already_in_history _ _); [done|]. cbn.
  apply set_history_kept; [|done]. apply grouped_app; [apply Hr|]. apply grouped_plain; [done | done | apply grouped_images].
Qed.
Lemma prepare_kept formatted r : well_kept r -> well_kept (snd (prepare_turn json_text cfg formatted r)).
Proof.
  intros Hr. unfold prepare_turn. pose proof (honour_kept r Hr) as H1. destruct (honour_ok r) as [r1 E1].
  rewrite E1 in H1. unfold mbind at 1. rewrite E1. destruct (auto_kept r1 H1) as (r2 & E2 & H2).
  unfold mbind at 1. rewrite E2. by apply push_kept.
Qed.
Lemma save_kept r res r' : well_kept r -> save_state (rn_history r) (rn_continuation r) r = (res, r') -> well_kept r'.
Proof.
  intros (H1 & H2 & H3). unfold save_state, mbind, gets, modify. destruct (sr_save_error _ SaveHistory); [by intros [= _ <-]|].
  destruct (sr_save_error _ SaveContinuation); intros [= _ <-]; by repeat split.
Qed.
Definition save_and_confirm (c : Confirmation) : RM Confirmation :=
  let! r := gets (fun r => r) in save_state (rn_history r) (rn_continuation r) ;; ret c.
Lemma slash_kept cmd r : well_kept r -> well_kept (snd (slash_history json_text cfg cmd r)).
Proof.
  assert (forall r1 c, well_kept r1 -> well_kept (snd (save_and_confirm c r1))) as Hsave.
  { intros r1 c H1. unfold save_and_confirm, mbind, gets. destruct (save_state _ _ r1) as [[[]|e] r2] eqn:E; by eapply save_kept. }
  intros Hr. unfold slash_history, mbind at 1, gets. destruct cmd.
  - assert (forall r1, well_kept r1 -> rn_history r1 = [] -> well_kept (snd ((let! c := (let! b := clear_todo_store in ret (Cleared (length (rn_history r)) b)) in save_and_confirm c) r1))) as Hclear.
    { intros r1 Hr1 _. unfold clear_todo_store, mbind, gets. destruct (_ && _); by apply Hsave. }
    apply (Hclear (set_continuation None (set_history [] r))); [|done]. split; [constructor | apply Hr].
  - unfold mbind at 1, mbind at 1, with_context.
    destruct (compact_well_kept (rn_history r) r (proj1 Hr) Hr) as (r' & -> & Hk & Hg).
    apply (Hsave (set_continuation None (set_history (compacted cfg r (rn_history r)) r'))). split; [exact Hg | apply Hk].
  - by apply (Hsave r HelpText).
Qed.
Lemma run_step_kept r r' : well_kept r -> run_step r r' -> well_kept r'.
Proof.
  intros Hr Hs. destruct Hs as [f r res r' E | cmd r res r' E | text cs r Hi | text r | r res r' E | r].
  - pose proof (prepare_kept f r Hr) as Hp. by rewrite E in Hp.
  - pose proof (slash_kept cmd r Hr) as Hp. by rewrite E in Hp.
  - apply set_history_kept; [by apply grouped_turn, Hr | done].
  - apply set_history_kept; [|done]. apply grouped_app; [apply Hr | by apply grouped_plain; [| |constructor]].
  - by eapply save_kept.
  - destruct Hr as (H1 & H2 & H3). by repeat split.
Qed.

(** C28. Calls and results stay together: in whatever order prompts, chat commands,
    compactions, turns, steering messages, saves and crashes follow each other, as
    long as only the last answer of a turn brings images, every call in the history
    has its result and every result its call, in memory and in the saved state, and
    so do the slices that were sent to be summarised. *)
Theorem calls_stay_paired r r' :
  rn_history r = [] -> fst (rn_saved r) = [] -> rn_sent r = [] -> rtc run_step r r' ->
  paired (rn_history r') /\ paired (fst (rn_saved r')) /\ Forall (fun q => paired (qi_history q)) (rn_sent r').
Proof.
  intros H1 H2 H3 Hrun. assert (well_kept r) as Hr.
  { unfold well_kept. rewrite H1, H2, H3. repeat constructor. }
  assert (well_kept r') as (K1 & K2 & K3).
  { clear - Hr Hrun. induction Hrun as [|r r1 r' Hs _ IH]; [done|]. apply IH. by eapply run_step_kept. }
  split; [by apply grouped_paired|]. split; [by apply grouped_paired|].
  eapply Forall_impl; [exact K3|]. intros q. apply grouped_paired.
Qed.
End Loop.

(** Compaction never fails and pins one header: whatever the provider and the
    file system answer, [compact] ends in a history, with one header of project
    facts when there are facts and none otherwise, at most one entry longer than
    before, and with at most two queries, both about the oldest entries; without a
    usable summary the history says so in its boundary. *)
Theorem compact_never_fails {Env : Surroundings} json_text h cfg r : (4 <= length h)%nat ->
  exists h' r', compact json_text h cfg r = (Ok h', r')
    /\ facts_count h' = match build_project_facts_header (sr_root (queries r)) with Some _ => 1%nat | None => 0%nat end
    /\ (length h' <= S (length h))%nat
    /\ (exists k, (k <= 2)%nat
        /\ rn_sent r' = rn_sent r ++ replicate k (query_of cfg (take (pair_safe_pivot (stripped h)) (stripped h))))
    /\ (answer (queries r) cfg (take (pair_safe_pivot (stripped h)) (stripped h)) = None ->
        answer (S (queries r)) cfg (take (pair_safe_pivot (stripped h)) (stripped h)) = None ->
        (0 < pair_safe_pivot (stripped h) < length (stripped h))%nat ->
        h' = prepend_facts (build_project_facts_header (sr_root (queries r)))
               (User NO_SUMMARY :: drop (pair_safe_pivot (stripped h)) (stripped h))).
Proof.
  intros Hl. destruct (compact_run json_text h cfg r) as (r' & E & Ha). exists (compacted cfg r h), r'.
  split; [done|]. split; [by apply compacted_count|]. split; [apply compacted_length|]. split; [apply Ha|].
  intros H1 H2 Hp. unfold compacted. destruct (Nat.ltb_spec (length h) 4); [lia|].
  destruct (Nat.eqb_spec (pair_safe_pivot (stripped h)) 0); [lia|].
  destruct (Nat.leb_spec (length (stripped h)) (pair_safe_pivot (stripped h))); [lia|]. cbn [orb].
  unfold summary_of. by rewrite H1, H2.
Qed.

(** ** The trigger *)

Definition total_chars (json_text : json -> rstr) (h : list HistoryMessage) : Z :=
  fold_right (fun m chars => chars_of json_text m + chars) 0 h.
Lemma fold_chars json_text h a :
  fold_left (fun chars m => chars + chars_of json_text m) h a = a + total_chars json_text h.
Proof.
  revert a. induction h as [|m h IH]; intros a; cbn; [lia|]. rewrite IH. unfold total_chars. lia.
Qed.
Lemma ws_count_bounds b s : 0 <= ws_count b s <= Z.of_nat (length s).
Proof. revert b. induction s as [|c s IH]; intros b; cbn; [lia|]. destruct (_ && _); specialize (IH b) as H1; [lia|]. specialize (IH (is_ascii_whitespace c)). lia. Qed.
Lemma chars_nonneg json_text m : 0 <= chars_of json_text m.
Proof.
  assert (forall s, 0 <= ws_collapsed_len s) as Hw by (intros s; apply ws_count_bounds).
  destruct m; cbn; repeat match goal with |- context [ws_collapsed_len ?s] => pose proof (Hw s); generalize dependent (ws_collapsed_len s); intros end;
    unfold IMAGE_CHARS; lia.
Qed.
Lemma div_ceil_spec a b : 0 < b -> b * (div_ceil a b - 1) < a <= b * div_ceil a b.
Proof.
  intros Hb. unfold div_ceil. pose proof (Z.div_mod (a + b - 1) b). pose proof (Z.mod_pos_bound (a + b - 1) b). nia.
Qed.

(** C29. The bounds of the trigger: the estimate is two sevenths of the collapsed
    characters, rounded up, and does not shrink when the history grows; no soft
    target can put the trigger above the window less margin and reserve, and a
    history that triggers nothing leaves that much room. *)
Theorem trigger_bounds json_text h more cfg :
  0 <= cc_safety_margin_tokens cfg -> 0 <= cc_output_reserve_tokens cfg -> 0 <= cc_soft_target_tokens cfg ->
  cc_safety_margin_tokens cfg + cc_output_reserve_tokens cfg <= cc_model_input_window cfg ->
  7 * (estimate_tokens json_text h - 1) < 2 * total_chars json_text h <= 7 * estimate_tokens json_text h
  /\ estimate_tokens json_text h <= estimate_tokens json_text (h ++ more)
  /\ 0 <= effective_threshold cfg <= hard_threshold cfg
  /\ (should_compact cfg (estimate_tokens json_text h) = false ->
      estimate_tokens json_text h + cc_safety_margin_tokens cfg + cc_output_reserve_tokens cfg <= cc_model_input_window cfg).
Proof.
  intros Hm Ho Hs Hw. assert (forall k, estimate_tokens json_text k = div_ceil (2 * total_chars json_text k) 7) as He.
  { intros k. unfold estimate_tokens, TOKEN_NUM, TOKEN_DEN. rewrite fold_chars, Z.mul_comm. done. }
  assert (hard_threshold cfg = cc_model_input_window cfg - cc_safety_margin_tokens cfg - cc_output_reserve_tokens cfg) as Hh
    by (unfold hard_threshold, saturating_sub; lia).
  assert (0 <= effective_threshold cfg <= hard_threshold cfg) as Ht.
  { unfold effective_threshold. destruct (Z.eqb_spec (cc_soft_target_tokens cfg) 0); lia. }
  split; [rewrite He; apply div_ceil_spec; lia|]. split; [|split; [done|]].
  - rewrite !He. assert (total_chars json_text h <= total_chars json_text (h ++ more)) as Hc.
    { assert (0 <= total_chars json_text more) as Hp
        by (induction more as [|m l IH]; cbn; [lia | pose proof (chars_nonneg json_text m); unfold total_chars in IH; lia]).
      induction h as [|m l IH]; cbn; [done|]. unfold total_chars in IH. lia. }
    unfold div_ceil. apply Z.div_le_mono; lia.
  - unfold should_compact. intros Hc. apply Z.ltb_ge in Hc. lia.
Qed.

(** ** Recovery *)

(** A history in which a turn calls one tool at a time. *)
Inductive single : list HistoryMessage -> Prop :=
| single_nil : single []
| single_plain m h : is_tool m = false -> is_tool_use m = false -> single h -> single (m :: h)
| single_call id name input content err h : single h -> single (ToolUse id name input :: Tool id content err :: h).
Lemma single_grouped h : single h -> grouped h.
Proof.
  induction 1 as [|m h H1 H2 _ IH | id name input content err h _ IH]; [constructor | by apply grouped_plain|].
  apply (grouped_cons (calls_of [(mkCall id name input, mkAnswer content [] err)] ++ results_of [(mkCall id name input, mkAnswer content [] err)])); [|done].
  by constructor.
Qed.
Lemma single_tail h : single h -> forall n, single (drop_leading_tools (drop n h)).
Proof.
  assert (forall k, single k -> drop_leading_tools k = k) as Hid.
  { intros k Hk. destruct Hk as [|m k H1 H2 Hk |]; [done | cbn; by rewrite H1 | done]. }
  induction 1 as [|m h H1 H2 Hs IH | id name input content err h Hs IH]; intros n.
  - rewrite drop_nil. constructor.
  - destruct n as [|n]; [rewrite drop_0, Hid; by constructor | apply IH].
  - destruct n as [|[|n]]; [rewrite drop_0, Hid; by constructor | cbn; by rewrite (Hid h Hs) | apply IH].
Qed.

(** Recovery keeps a usable history when turns call one tool at a time: the
    truncated history is the end of the old one, no longer than the window, and
    every result in it has its call. *)
Theorem recovery_keeps_pairs h keep : single h ->
  paired (truncate_to_recent h keep) /\ (length (truncate_to_recent h keep) <= keep)%nat
  /\ exists dropped, h = dropped ++ truncate_to_recent h keep.
Proof.
  intros Hs. unfold truncate_to_recent. split; [by apply grouped_paired, single_grouped, single_tail|].
  assert (forall k, exists d, k = d ++ drop_leading_tools k) as Hsuf.
  { induction k as [|m k [d IH]]; [by exists []|]. cbn. destruct (is_tool m); [|by exists []]. exists (m :: d). cbn. by f_equal. }
  destruct (Hsuf (drop (length h - keep) h)) as [d E]. split.
  - apply (f_equal length) in E. rewrite length_app, length_drop in E. lia.
  - exists (take (length h - keep) h ++ d). by rewrite <- app_assoc, <- E, take_drop.
Qed.

Lemma truncate_cut pre k h keep : length k = keep -> match k with m :: _ => is_tool m = false | [] => True end ->
  h = pre ++ k -> truncate_to_recent h keep = k.
Proof.
  intros <- Hk ->. unfold truncate_to_recent. rewrite length_app. replace (length pre + length k - length k)%nat with (length pre) by lia.
  rewrite drop_app_length. destruct k as [|m k]; [done|]. cbn. by rewrite Hk.
Qed.
(** Recovery parts parallel calls: when the window begins between two calls of
    one turn, the result of the first call stays without it, behind the second
    call, where it is not looked for. *)
Theorem recovery_parts_parallel_calls pre post a b name input ca cb ea eb : a <> b ->
  waiting [] (truncate_to_recent (pre ++ [ToolUse a name input; ToolUse b name input; Tool a ca ea; Tool b cb eb] ++ post) (3 + length post)) = None.
Proof.
  intros Hab. rewrite (truncate_cut (pre ++ [ToolUse a name input]) ([ToolUse b name input; Tool a ca ea; Tool b cb eb] ++ post)); [|done | done|].
  - cbn. destruct (rstr_eqb b a) eqn:E; [|done]. by apply rstr_eqb_eq in E.
  - by rewrite <- app_assoc.
Qed.

(** An image between two results of one turn parts them: when the middle of
    the history falls on it, [compact] keeps the image and the second result and
    gives the call away to the summary. *)
Theorem compaction_parts_image_turns {Env : Surroundings} json_text cfg r pre post a b name input ca cb ea eb mt data :
  let h := pre ++ [ToolUse a name input; ToolUse b name input; Tool a ca ea; Image mt data; Tool b cb eb] ++ post in
  facts_count h = 0%nat -> Nat.div2 (length h) = (length pre + 3)%nat ->
  exists h' r', compact json_text h cfg r = (Ok h', r') /\ waiting [] h' = None.
Proof.
  intros h Hf Hd. destruct (compact_run json_text h cfg r) as (r' & E & _). exists (compacted cfg r h), r'. split; [done|].
  assert (stripped h = h) as Hs.
  { clear - Hf. unfold facts_count, stripped in *. induction h as [|m h IH]; [done|]. cbn in *.
    destruct (is_pinned_facts_header m); [done|]. cbn. by rewrite IH. }
  assert (length h = length pre + 5 + length post)%nat as Hlen by (unfold h; rewrite !length_app; cbn; lia).
  assert (pair_safe_pivot h = length pre + 3)%nat as Hp.
  { unfold pair_safe_pivot. rewrite Hd. destruct (length h) as [|f] eqn:El; [lia|]. cbn [settle].
    assert (h !! (length pre + 3)%nat = Some (Image mt data)) as -> by (unfold h; by rewrite lookup_app_r, Nat.add_comm, Nat.add_sub by lia).
    replace (length pre + 3)%nat with (S (length pre + 2)) at 1 by lia.
    assert (h !! (length pre + 2)%nat = Some (Tool a ca ea)) as -> by (unfold h; by rewrite lookup_app_r, Nat.add_comm, Nat.add_sub by lia). done. }
  unfold compacted. destruct (Nat.ltb_spec (length h) 4); [lia|]. rewrite Hs, Hp.
  destruct (Nat.eqb_spec (length pre + 3) 0); [lia|]. destruct (Nat.leb_spec (length h) (length pre + 3)); [lia|]. cbn [orb].
  assert (drop (length pre + 3) h = Image mt data :: Tool b cb eb :: post) as ->.
  { unfold h. rewrite drop_app, drop_ge by lia. by replace (length pre + 3 - length pre)%nat with 3%nat by lia. }
  by destruct (build_project_facts_header _).
Qed.

(** The trigger leaves the provider's continuation, which the other two ways to
    compact clear. *)
Lemma auto_compact_continuation {Env : Surroundings} json_text cfg r :
  rn_continuation (snd (auto_compact json_text cfg r)) = rn_continuation r.
Proof.
  unfold auto_compact, mbind at 1, gets. destruct (should_compact _ _); [|done].
  destruct (compact_run json_text (rn_history r) cfg r) as (r' & E & _ & Ec & _). unfold mbind, catch, modify. by rewrite E.
Qed.

(** ** Stubs *)

Lemma stub_elided c : already_elided (elision_stub c) = true.
Proof. unfold already_elided, elision_stub, starts_with. by rewrite strip_prefix_app. Qed.
#[local] Opaque elision_stub already_elided.
Lemma elide_one_idem cfg m : elide_one cfg (elide_one cfg m) = elide_one cfg m.
Proof.
  destruct m as [| | |id c err|]; try done. cbn. destruct err eqn:Ee; [done|]. destruct (already_elided c) eqn:Ea; [cbn; by rewrite Ea|].
  destruct (_ <? _) eqn:Eb; [|cbn; by rewrite Ea, Eb]. cbn. by rewrite stub_elided.
Qed.
Lemma elide_one_tool cfg m : is_tool (elide_one cfg m) = is_tool m.
Proof. destruct m as [| | |id c err|]; try done. cbn. by destruct err, (already_elided c), (ec_max_result_bytes cfg <? byte_len c). Qed.
Lemma elide_before_indices cfg n h i : result_indices i (elide_before cfg n h) = result_indices i h.
Proof.
  revert n i. induction h as [|m h IH]; intros [|n] i; try done. cbn. rewrite elide_one_tool, IH. done.
Qed.
Lemma elide_before_length cfg n h : length (elide_before cfg n h) = length h.
Proof. revert n. induction h as [|m h IH]; intros [|n]; try done. cbn. by rewrite IH. Qed.
Lemma elide_before_idem cfg n h : elide_before cfg n (elide_before cfg n h) = elide_before cfg n h.
Proof. revert n. induction h as [|m h IH]; intros [|n]; try done. cbn. by rewrite elide_one_idem, IH. Qed.
Lemma elide_before_waiting cfg n h open : waiting open (elide_before cfg n h) = waiting open h.
Proof.
  revert n open. induction h as [|m h IH]; intros [|n] open; try done. cbn [elide_before].
  destruct m as [| | |id c err|]; cbn; try apply IH.
  destruct err, (already_elided c), (ec_max_result_bytes cfg <? byte_len c); cbn; destruct (remove_first _ _); try done; apply IH.
Qed.

(** The stubs are stable and harmless: eliding an elided history changes
    nothing, so the history sent is the same at every turn until a result gets
    stale; no entry comes, goes or moves, and calls and results stay paired. *)
Theorem elision_stable cfg h :
  elide_stale_tool_results (elide_stale_tool_results h cfg) cfg = elide_stale_tool_results h cfg
  /\ length (elide_stale_tool_results h cfg) = length h
  /\ (forall open, waiting open (elide_stale_tool_results h cfg) = waiting open h).
Proof.
  unfold elide_stale_tool_results at 2 3 4 5. destruct (_ <=? _)%nat eqn:E.
  - split; [|done]. unfold elide_stale_tool_results. by rewrite E.
  - set (n := default _ _). split; [|split; [apply elide_before_length | intros; apply elide_before_waiting]].
    unfold elide_stale_tool_results. rewrite !elide_before_indices, E, elide_before_length. apply elide_before_idem.
Qed.

(** ** Resuming *)

Definition no_user (m : HistoryMessage) : Prop := match m with User _ => False | _ => True end.
Lemma find_user_app l m k : Forall no_user l ->
  List.find (fun m => match m with User _ => true | _ => false end) (l ++ User m :: k) = Some (User m).
Proof. induction 1 as [|x l Hx _ IH]; [done|]. cbn. by destruct x. Qed.
Lemma find_user_none l : Forall no_user l -> List.find (fun m => match m with User _ => true | _ => false end) l = None.
Proof. induction 1 as [|x l Hx _ IH]; [done|]. cbn. by destruct x. Qed.

(** A prompt is not repeated after a crash in its turn, up to ten entries: when
    the runner finds the prompt again with only the turn's entries behind it, it
    goes on with the history as it is; with ten or more entries behind it the
    prompt is pushed a second time. *)
Theorem resume_without_repeat formatted r before turn :
  rn_history r = before ++ User (ft_prompt formatted) :: turn -> Forall no_user turn ->
  rn_history (snd (push_prompt formatted r))
  = if (length turn <? 10)%nat then rn_history r
    else rn_history r ++ User (ft_prompt formatted) :: plain_images (extract_inbound_images (ft_rows formatted)).
Proof.
  intros Hh Ht. unfold push_prompt, mbind, gets. set (h := rn_history r) in *.
  assert (Forall no_user (rev turn)) as Hr by (by apply Forall_rev).
  assert (rev h = rev turn ++ User (ft_prompt formatted) :: rev before) as Er.
  { rewrite Hh, rev_app_distr. cbn. by rewrite <- app_assoc. }
  assert (is_prompt_already_in_history h (ft_prompt formatted) = (length turn <? 10)%nat) as ->.
  { unfold is_prompt_already_in_history, RESUME_DEDUP_LOOKBACK. rewrite Er, take_app, length_rev.
    destruct (Nat.ltb_spec (length turn) 10) as [Hlt | Hge].
    - rewrite take_ge by (rewrite length_rev; lia). destruct (10 - length turn)%nat as [|k] eqn:E; [lia|]. cbn [take].
      rewrite find_user_app by done. apply rstr_eqb_refl.
    - replace (10 - length turn)%nat with 0%nat by lia. rewrite take_0, app_nil_r, find_user_none; [done|]. by apply Forall_take. }
  by destruct (_ <? _)%nat.
Qed.

(** ** Examples *)

Definition demo_root : DataRoot :=
  mkDataRoot [mkEntry (lit "shop") true true false (Some (lit "ref: refs/heads/main")) (Some (lit "npm test")) None None] None.
(** A provider whose first answer is blank; archives cannot be written. *)
Definition demo_surroundings : Surroundings := {|
  sr_query := fun n _ => if (n =? 0)%nat then Ok [OtherEvent; Result (Some (lit "  "))] else Ok [Result (Some (lit "built a shop"))];
  sr_archive_error := fun _ => Some (lit "disk full"); sr_root := fun _ => demo_root; sr_stamp := fun _ => lit "t";
  sr_removable := true; sr_save_error := fun _ _ => None; sr_todo_removable := true |}.
Definition demo_cfg : CompactionCfg := mkCompaction 200000 16000 4096 40000 (lit "m") Low 1024.
Definition demo_json (j : json) : rstr := lit "{}".
Definition demo_start : Runner := mkRunner [] None ([], None) false false [] [] [] true.
Definition demo_prompt : FormattedTurn := mkFormatted (lit "[chat seq=2] build a shop") [].
Definition demo_calls : list (ToolCall * ToolAnswer) :=
  [(mkCall (lit "a") (lit "shell") JNull, mkAnswer (lit "ok") [] false);
   (mkCall (lit "b") (lit "view_image") JNull, mkAnswer (lit "ok") [(lit "image/png", lit "AA==")] false)].
Definition demo_prepared : Runner := snd (@prepare_turn demo_surroundings demo_json demo_cfg demo_prompt demo_start).
Definition demo_turned : Runner := set_history (append_turn (lit "on it") demo_calls (rn_history demo_prepared)) demo_prepared.
Definition demo_compacted : Runner := snd (@slash_history demo_surroundings demo_json demo_cfg Compact demo_turned).

Lemma calls_stay_paired_witness :
  paired (rn_history demo_compacted) /\ paired (fst (rn_saved demo_compacted))
  /\ Forall (fun q => paired (qi_history q)) (rn_sent demo_compacted) /\ length (rn_sent demo_compacted) = 2%nat
  /\ map facts_count [rn_history demo_compacted] = [1%nat].
Proof.
  assert (rtc (@run_step demo_surroundings demo_json demo_cfg) demo_start demo_compacted) as Hrun.
  { eapply rtc_l; [eapply (step_prepare _ _ demo_prompt); apply surjective_pairing|].
    eapply rtc_l; [eapply (step_turn _ _ (lit "on it") demo_calls); by repeat constructor|].
    eapply rtc_l; [eapply (step_slash _ _ Compact); apply surjective_pairing | apply rtc_refl]. }
  destruct (@calls_stay_paired demo_surroundings demo_json demo_cfg demo_start demo_compacted eq_refl eq_refl eq_refl Hrun) as (H1 & H2 & H3).
  split; [exact H1|]. split; [exact H2|]. split; [exact H3|]. split; by vm_compute.
Defined.
Lemma compact_never_fails_witness :
  exists h' r', @compact demo_surroundings demo_json (rn_history demo_turned) demo_cfg demo_turned = (Ok h', r') /\ facts_count h' = 1%nat.
Proof.
  destruct (@compact_never_fails demo_surroundings demo_json (rn_history demo_turned) demo_cfg demo_turned ltac:(vm_compute; lia))
    as (h' & r' & E & Hc & _).
  exists h', r'. split; [exact E|]. rewrite Hc. by vm_compute.
Defined.
Lemma trigger_bounds_witness :
  0 <= effective_threshold demo_cfg <= hard_threshold demo_cfg /\ effective_threshold demo_cfg = 40000.
Proof.
  split; [|by vm_compute].
  apply (trigger_bounds demo_json (rn_history demo_turned) [] demo_cfg); vm_compute; intros E; discriminate E.
Defined.
Lemma recovery_keeps_pairs_witness :
  let h := [User (lit "q"); ToolUse (lit "a") (lit "t") JNull; Tool (lit "a") (lit "r") false; Assistant (lit "x")] in
  paired (truncate_to_recent h 2) /\ truncate_to_recent h 2 = [Assistant (lit "x")].
Proof.
  intros h. split; [|by vm_compute]. apply (recovery_keeps_pairs h 2). apply single_plain; [done | done|].
  apply single_call, single_plain; [done | done | constructor].
Defined.
Lemma recovery_parts_parallel_calls_witness :
  waiting [] (truncate_to_recent ([User (lit "q")] ++ [ToolUse (lit "a") (lit "t") JNull; ToolUse (lit "b") (lit "t") JNull;
    Tool (lit "a") (lit "r") false; Tool (lit "b") (lit "r") false] ++ repeat (User (lit "s")) 5) RECOVERY_KEEP_MESSAGES) = None.
Proof.
  exact (recovery_parts_parallel_calls [User (lit "q")] (repeat (User (lit "s")) 5) (lit "a") (lit "b") (lit "t") JNull
    (lit "r") (lit "r") false false ltac:(intros E; discriminate E)).
Defined.
Lemma compaction_parts_image_turns_witness :
  exists h' r', @compact demo_surroundings demo_json
    (append_turn [] [(mkCall (lit "a") (lit "view_image") JNull, mkAnswer (lit "ok") [(lit "image/png", lit "AA==")] false);
                     (mkCall (lit "b") (lit "view_image") JNull, mkAnswer (lit "ok") [] false)] [User (lit "look")]
     ++ [Assistant (lit "x"); User (lit "y"); Assistant (lit "z")]) demo_cfg demo_start = (Ok h', r')
    /\ waiting [] h' = None.
Proof.
  exact (@compaction_parts_image_turns demo_surroundings demo_json demo_cfg demo_start [User (lit "look")]
    [Assistant (lit "x"); User (lit "y"); Assistant (lit "z")] (lit "a") (lit "b") (lit "view_image") JNull (lit "ok") (lit "ok") false false
    (lit "image/png") (lit "AA==") ltac:(by vm_compute) ltac:(by vm_compute)).
Defined.
Lemma resume_without_repeat_witness :
  rn_history (snd (push_prompt demo_prompt demo_turned)) = rn_history demo_turned.
Proof.
  assert (rn_history demo_turned = [] ++ User (ft_prompt demo_prompt) :: tail (rn_history demo_turned)) as E by (by vm_compute).
  assert (Forall no_user (tail (rn_history demo_turned))) as Ht by (vm_compute; by repeat constructor).
  rewrite (resume_without_repeat demo_prompt demo_turned [] (tail (rn_history demo_turned)) E Ht).
  by vm_compute.
Defined.
Example auto_compaction_keeps_continuation :
  let r := mkRunner (rn_history demo_turned) (Some (lit "resp_1")) ([], None) false false [] [] [] true in
  let cfg := mkCompaction 200000 16000 4096 1 (lit "m") Low 1024 in
  let r' := snd (@prepare_turn demo_surroundings demo_json cfg demo_prompt r) in
  rn_continuation r' = Some (lit "resp_1") /\ rn_sent r' <> []
  /\ rn_continuation (snd (@slash_history demo_surroundings demo_json cfg Compact r)) = None.
Proof. by vm_compute. Qed.
