(* ===== verification/ProviderCall.v ===== *)
(** One call of the model ([copperclaw-runner/src/run/provider_call.rs],
    [failover_health.rs], the usage report of [run/mod.rs], the spend counters of [hud.rs]):
    the retries of a query, the events of its stream, the walk along the chain of
    providers, and what of it is reported to the host.

    The providers answer through [Upstream]: what the n-th query of the session meets, the
    n-th reading of the clock, which writes of the tool row succeed.  The tools, the
    temperature and the names of a query are constants of the session and left out;
    heartbeats and metrics are left out too. *)
From S2P Require Import Prelude Types Outbox Transcript Compaction Failover Schedule Budgets Redact.

(** ** Queries and events *)

Record QueryInput : Type := mkQueryInput {
  qu_system : rstr;
  qu_system_context : option rstr;
  qu_model : string;
  qu_effort : Effort;
  qu_previous_continuation : option rstr;
  qu_history : list HistoryMessage;
  qu_max_tokens : Z;
}.
Inductive ProviderEvent : Type :=
| Init (continuation : rstr)
| Usage (input_tokens output_tokens cache_read_tokens cache_creation_tokens : Z)
| EvResult (text : option rstr)
| EvError (message : rstr) (retryable : bool)
| ToolStart (name : string) (declared_timeout_ms : option Z)
| ToolEnd
| ToolCall (id name : rstr) (input : json)
| ToolInputParseError (tool_use_id tool_name raw_input parse_error : rstr)
| Thinking (text : rstr) (redacted : bool)
| Progress (message : rstr)
| Activity.
(** A query is refused, runs into the deadline, or opens a stream of events.  A stream
    either ends after its events, or nothing but silence or keep-alives follows them, as
    with a provider run as a subprocess that hangs. *)
Inductive Reply : Type :=
| Refused (e : ProviderError)
| TimedOut
| Stream (events : list ProviderEvent) (ends : bool).
Class Upstream : Type := {
  up_query : nat -> nat -> QueryInput -> Reply;
  up_now : nat -> instant;
  up_tool_written : nat -> bool;
}.

Record PendingToolCall : Type := mkPending {
  pt_id : rstr;
  pt_name : rstr;
  pt_input : json;
  pt_parse_error : option rstr;
}.
Record LlmTurnOutput : Type := mkOutput {
  lo_continuation : option rstr;
  lo_text : rstr;
  lo_tool_calls : list PendingToolCall;
  lo_failed : bool;
  lo_retryable_failure : bool;
  lo_failure_reason : rstr;
  lo_input_tokens : Z;
  lo_output_tokens : Z;
}.
Definition no_output : LlmTurnOutput := mkOutput None [] [] false false [] 0 0.
Inductive TurnOutcome : Type := Done | Failed (reason : rstr).

(** ** What a turn costs *)

Record TurnSpend : Type := mkTurnSpend {
  ts_tokens : Z;
  ts_cost_micros : Z;
  ts_priced_any : bool;
  ts_unpriced_any : bool;
}.
Definition no_spend : TurnSpend := mkTurnSpend 0 0 false false.
Definition spend_record (provider model : rstr) (input_tokens output_tokens : Z) (s : TurnSpend) : TurnSpend :=
  let total := input_tokens + output_tokens in
  if total =? 0 then s
  else match price_for provider model with
       | Some price =>
           let micros := (input_tokens * input_per_mtok_micros price + output_tokens * output_per_mtok_micros price) / 1000000 in
           mkTurnSpend (ts_tokens s + total) (ts_cost_micros s + Z.min u64_max micros) true (ts_unpriced_any s)
       | None => mkTurnSpend (ts_tokens s + total) (ts_cost_micros s) (ts_priced_any s) true
       end.

Record UsageReport : Type := mkReport {
  ur_session_id : uuid;
  ur_agent_group_id : uuid;
  ur_seq : Z;
  ur_model : rstr;
  ur_provider : rstr;
  ur_input_tokens : Z;
  ur_output_tokens : Z;
  ur_started_at : instant;
  ur_ended_at : instant;
  ur_outcome : TurnOutcome;
}.
Definition build_usage_report_payload (uuid_text : uuid -> rstr) (to_rfc3339 : instant -> rstr) (r : UsageReport) : json :=
  let '(status, error) := match ur_outcome r with Done => (lit "ok", None) | Failed reason => (lit "error", Some reason) end in
  JObj [("usage_report",
    JObj [("session_id", JStr (uuid_text (ur_session_id r))); ("agent_group_id", JStr (uuid_text (ur_agent_group_id r)));
          ("seq", JNum (ur_seq r)); ("model", JStr (ur_model r)); ("provider", JStr (ur_provider r));
          ("input_tokens", JNum (ur_input_tokens r)); ("output_tokens", JNum (ur_output_tokens r));
          ("started_at", JStr (to_rfc3339 (ur_started_at r))); ("ended_at", JStr (to_rfc3339 (ur_ended_at r)));
          ("status", JStr status); ("error", match error with Some e => JStr e | None => JNull end)])]%string.

(** ** The chain *)

Record FailoverProvider : Type := mkProvider {
  fp_provider_name : string;
  fp_model : string;
}.
Record Deps : Type := mkDeps {
  dp_session_id : uuid;
  dp_agent_group_id : uuid;
  dp_system : rstr;
  dp_effort : Effort;
  dp_max_tokens : Z;
  dp_elision : ElisionCfg;
  dp_primary : FailoverProvider;
  dp_failover_chain : list FailoverProvider;
  dp_provider_deadline_ms : Z;
  dp_surface_thinking : bool;
}.
Definition candidates (d : Deps) : list FailoverProvider := dp_primary d :: dp_failover_chain d.
Definition cand (idx : nat) : string := "cand" ++ to_string (show_z (Z.of_nat idx)).
Definition candidate_entry (idx : nat) (p : FailoverProvider) : ChainEntry :=
  mkEntry (fp_provider_name p) (fp_model p) [mkKey (cand idx) None].
Definition from_candidates (cs : list FailoverProvider) : FallbackChain :=
  mkChain (imap candidate_entry cs) ∅ None.
Definition health_key (idx : nat) (p : FailoverProvider) : string * string * string :=
  (fp_provider_name p, fp_model p, cand idx).

(** What calls of the model change: the queries sent, the health of the chain, who was last
    announced, the notes for the status line, the row of the current tool, the surfaced
    reasoning, the spend, the reports, and how often the clock was read. *)
Record Calls : Type := mkCalls {
  ca_sent : list (nat * QueryInput);
  ca_health : gmap (string * string * string) HealthEntry;
  ca_active : option (string * nat);
  ca_notes : list rstr;
  ca_tool : option ContainerState;
  ca_thoughts : list (rstr * bool);
  ca_spend : TurnSpend;
  ca_seq : Z;
  ca_reports : list UsageReport;
  ca_ticks : nat;
}.
Definition add_sent (q : nat * QueryInput) (s : Calls) : Calls :=
  mkCalls (ca_sent s ++ [q]) (ca_health s) (ca_active s) (ca_notes s) (ca_tool s) (ca_thoughts s) (ca_spend s) (ca_seq s) (ca_reports s) (ca_ticks s).
Definition set_health (h : gmap (string * string * string) HealthEntry) (s : Calls) : Calls :=
  mkCalls (ca_sent s) h (ca_active s) (ca_notes s) (ca_tool s) (ca_thoughts s) (ca_spend s) (ca_seq s) (ca_reports s) (ca_ticks s).
Definition set_active (a : string * nat) (notes : list rstr) (s : Calls) : Calls :=
  mkCalls (ca_sent s) (ca_health s) (Some a) (ca_notes s ++ notes) (ca_tool s) (ca_thoughts s) (ca_spend s) (ca_seq s) (ca_reports s) (ca_ticks s).
Definition add_call_note (n : rstr) (s : Calls) : Calls :=
  mkCalls (ca_sent s) (ca_health s) (ca_active s) (ca_notes s ++ [n]) (ca_tool s) (ca_thoughts s) (ca_spend s) (ca_seq s) (ca_reports s) (ca_ticks s).
Definition set_tool (t : option ContainerState) (s : Calls) : Calls :=
  mkCalls (ca_sent s) (ca_health s) (ca_active s) (ca_notes s) t (ca_thoughts s) (ca_spend s) (ca_seq s) (ca_reports s) (ca_ticks s).
Definition add_thought (t : rstr * bool) (s : Calls) : Calls :=
  mkCalls (ca_sent s) (ca_health s) (ca_active s) (ca_notes s) (ca_tool s) (ca_thoughts s ++ [t]) (ca_spend s) (ca_seq s) (ca_reports s) (ca_ticks s).
Definition set_spend (t : TurnSpend) (s : Calls) : Calls :=
  mkCalls (ca_sent s) (ca_health s) (ca_active s) (ca_notes s) (ca_tool s) (ca_thoughts s) t (ca_seq s) (ca_reports s) (ca_ticks s).
Definition add_report (r : UsageReport) (s : Calls) : Calls :=
  mkCalls (ca_sent s) (ca_health s) (ca_active s) (ca_notes s) (ca_tool s) (ca_thoughts s) (ca_spend s) (ca_seq s + 1) (ca_reports s ++ [r]) (ca_ticks s).
Definition tick (s : Calls) : Calls :=
  mkCalls (ca_sent s) (ca_health s) (ca_active s) (ca_notes s) (ca_tool s) (ca_thoughts s) (ca_spend s) (ca_seq s) (ca_reports s) (S (ca_ticks s)).

Section Calling.
Context `{Upstream} (deps : Deps).
Implicit Types (s : Calls).

Definition now_of s : instant := up_now (ca_ticks s).
Definition chain : FallbackChain := from_candidates (candidates deps).
Definition candidate (idx : nat) : FailoverProvider := default (dp_primary deps) (candidates deps !! idx).
Definition provider_text (p : FailoverProvider) : rstr := lit (fp_provider_name p).

(** *** Live health *)

Definition select_start (now : instant) s : nat :=
  match select chain None (ca_health s) now with Some sel => sel_entry_index sel | None => 0%nat end.
(** The notes of [switched to], the only effect of a transition here. *)
Definition enter_candidate (idx : nat) s : Calls :=
  let name := fp_provider_name (candidate idx) in
  let notes :=
    match ca_active s with
    | Some (from, _) => if String.eqb from name then [] else [lit "switched to " ++ lit name]
    | None => []
    end in
  set_active (name, idx) notes s.
Definition record_candidate_failure (idx : nat) (reason : DegradeReason) (now : instant) s : Calls :=
  set_health (record_failure chain (ca_health s) (health_key idx (candidate idx)) reason now) s.
Definition record_candidate_success (idx : nat) s : Calls :=
  set_health (record_success (ca_health s) (health_key idx (candidate idx))) s.

(** *** One query with its retries *)

Definition MAX_PROVIDER_ATTEMPTS : nat := 3.
Definition FAILURE_REASON_CAP : nat := 200.
(** [left] attempts remain after this one. *)
Fixpoint query_with_retry (left : nat) (idx : nat) (input : QueryInput) s : result ProviderError (list ProviderEvent * bool) * Calls :=
  let reply := up_query (length (ca_sent s)) idx input in
  let s := add_sent (idx, input) s in
  match reply with
  | Stream events ends => (Ok (events, ends), s)
  | TimedOut =>
      match left with
      | S l => query_with_retry l idx input s
      | O => (Err (DeadlineExceeded (dp_provider_deadline_ms deps) (Z.of_nat MAX_PROVIDER_ATTEMPTS)), s)
      end
  | Refused e =>
      match left with
      | S l => if is_retryable e then query_with_retry l idx input s else (Err e, s)
      | O => (Err e, s)
      end
  end.
Definition format_provider_failure_reason (e : ProviderError) : rstr :=
  let raw := redact_secrets (lit "provider rejected the query before streaming started (" ++ display e ++ lit ")") in
  if (length raw <=? FAILURE_REASON_CAP)%nat then raw else take (FAILURE_REASON_CAP - 1) raw ++ [ellipsis].

(** *** The stream *)

Definition set_current_tool (name : string) (declared_timeout_ms : option Z) s : Calls :=
  let timeout := match declared_timeout_ms with Some t => if t <=? i64_max then Some t else None | None => None end in
  let t := mkContainerState (Some name) timeout (Some (now_of s)) (Some (now_of s)) in
  if up_tool_written (ca_ticks s) then set_tool (state_set (ca_tool s) t) (tick s) else tick s.
Definition clear_current_tool s : Calls :=
  if up_tool_written (ca_ticks s) then set_tool (clear_tool (ca_tool s) (now_of s)) (tick s) else tick s.
Definition set_lo_continuation (c : rstr) (o : LlmTurnOutput) : LlmTurnOutput :=
  mkOutput (Some c) (lo_text o) (lo_tool_calls o) (lo_failed o) (lo_retryable_failure o) (lo_failure_reason o) (lo_input_tokens o) (lo_output_tokens o).
Definition set_lo_text (t : rstr) (o : LlmTurnOutput) : LlmTurnOutput :=
  mkOutput (lo_continuation o) t (lo_tool_calls o) (lo_failed o) (lo_retryable_failure o) (lo_failure_reason o) (lo_input_tokens o) (lo_output_tokens o).
Definition add_lo_call (c : PendingToolCall) (o : LlmTurnOutput) : LlmTurnOutput :=
  mkOutput (lo_continuation o) (lo_text o) (lo_tool_calls o ++ [c]) (lo_failed o) (lo_retryable_failure o) (lo_failure_reason o) (lo_input_tokens o) (lo_output_tokens o).
Definition set_lo_failure (retryable : bool) (reason : rstr) (o : LlmTurnOutput) : LlmTurnOutput :=
  mkOutput (lo_continuation o) (lo_text o) (lo_tool_calls o) true retryable reason (lo_input_tokens o) (lo_output_tokens o).
Definition set_lo_tokens (i t : Z) (o : LlmTurnOutput) : LlmTurnOutput :=
  mkOutput (lo_continuation o) (lo_text o) (lo_tool_calls o) (lo_failed o) (lo_retryable_failure o) (lo_failure_reason o) i t.
Definition stream_failure_reason (message : rstr) : rstr :=
  let trimmed := take (FAILURE_REASON_CAP - 60) message in
  let suffix := if (FAILURE_REASON_CAP - 60 <? length message)%nat then [ellipsis] else [] in
  lit "provider stream ended with an error event (" ++ trimmed ++ suffix ++ lit ")".
(** What a stream leaves: the output and the tokens last seen, or nothing when it stalls,
    because the wait for the next event has no deadline. *)
Fixpoint pump_events (events : list ProviderEvent) (ends : bool) (out : LlmTurnOutput) (it ot : Z) s
  : option (LlmTurnOutput * Z * Z) * Calls :=
  match events with
  | [] => (if ends then Some (out, it, ot) else None, s)
  | e :: rest =>
      match e with
      | Init c => pump_events rest ends (set_lo_continuation c out) it ot s
      | Usage i o _ _ => pump_events rest ends out (if 0 <? i then i else it) (if 0 <? o then o else ot) s
      | EvResult text => (Some (match text with Some t => set_lo_text t out | None => out end, it, ot), s)
      | EvError message retryable =>
          let message := redact_secrets message in
          let reason := match lo_failure_reason out with [] => stream_failure_reason message | r => r end in
          (Some (set_lo_failure retryable reason out, it, ot), s)
      | ToolStart name timeout => pump_events rest ends out it ot (set_current_tool name timeout s)
      | ToolCall id name input => pump_events rest ends (add_lo_call (mkPending id name input None) out) it ot s
      | ToolInputParseError id name _ err =>
          pump_events rest ends (add_lo_call (mkPending id name (JObj []) (Some err)) out) it ot s
      | ToolEnd => pump_events rest ends out it ot (clear_current_tool s)
      | Thinking text redacted =>
          pump_events rest ends out it ot (if dp_surface_thinking deps then add_thought (text, redacted) s else s)
      | Progress _ | Activity => pump_events rest ends out it ot s
      end
  end.

Record AttemptResult : Type := mkAttempt {
  ar_out : LlmTurnOutput;
  ar_input_tokens : Z;
  ar_output_tokens : Z;
  ar_usage_fail_reason : option rstr;
  ar_reached_stream : bool;
}.
Definition STREAM_SENTINEL : rstr := lit "provider stream ended with an error event".
(** No result: the stream that was opened last stalls, and with it the whole call. *)
Fixpoint run_one_provider_attempt (left : nat) (idx : nat) (input : QueryInput) s : option AttemptResult * Calls :=
  match query_with_retry (MAX_PROVIDER_ATTEMPTS - 1) idx input s with
  | (Err e, s) =>
      let reason := format_provider_failure_reason e in
      (Some (mkAttempt (set_lo_failure false reason no_output) 0 0 (Some reason) false), s)
  | (Ok (events, ends), s) =>
      match pump_events events ends no_output 0 0 s with
      | (None, s) => (None, s)
      | (Some (out, it, ot), s) =>
          let finished := (Some (mkAttempt out it ot (if lo_failed out then Some STREAM_SENTINEL else None) true), s) in
          match left with
          | S l => if lo_failed out && lo_retryable_failure out then run_one_provider_attempt l idx input s else finished
          | O => finished
          end
      end
  end.

(** *** The walk along the chain *)

Definition emit_usage_report (p : FailoverProvider) (it ot : Z) (started_at : instant) (outcome : TurnOutcome) s : Calls :=
  add_report (mkReport (dp_session_id deps) (dp_agent_group_id deps) (ca_seq s) (lit (fp_model p)) (provider_text p)
                it ot started_at (now_of s) outcome) (tick s).
Definition query_input (history : list HistoryMessage) (previous_continuation context_block : option rstr) (p : FailoverProvider) : QueryInput :=
  mkQueryInput (dp_system deps) (match context_block with Some [] => None | b => b end) (fp_model p) (dp_effort deps)
    previous_continuation (elide_stale_tool_results history (dp_elision deps)) (dp_max_tokens deps).
(** The candidate [idx] and the [left] ones behind it. *)
Fixpoint walk (left idx : nat) (history : list HistoryMessage) (previous_continuation context_block : option rstr) s
  : option LlmTurnOutput * Calls :=
  let p := candidate idx in
  let s := enter_candidate idx s in
  let turn_started_at := now_of s in
  match run_one_provider_attempt (MAX_PROVIDER_ATTEMPTS - 1) idx (query_input history previous_continuation context_block p) (tick s) with
  | (None, s) => (None, s)
  | (Some a, s) =>
      let s := if lo_failed (ar_out a)
               then match from_error_text (default STREAM_SENTINEL (ar_usage_fail_reason a)) with
                    | Some reason => record_candidate_failure idx reason turn_started_at s
                    | None => s
                    end
               else record_candidate_success idx s in
      let s := set_spend (spend_record (provider_text p) (lit (fp_model p)) (ar_input_tokens a) (ar_output_tokens a) (ca_spend s)) s in
      let outcome := if lo_failed (ar_out a) then Failed (default STREAM_SENTINEL (ar_usage_fail_reason a)) else Done in
      let s := emit_usage_report p (ar_input_tokens a) (ar_output_tokens a) turn_started_at outcome s in
      if lo_failed (ar_out a) then
        match left with
        | S l => walk l (S idx) history previous_continuation context_block s
        | O => (Some (ar_out a), s)
        end
      else (Some (set_lo_tokens (ar_input_tokens a) (ar_output_tokens a) (ar_out a)), s)
  end.
Definition run_llm_turn (history : list HistoryMessage) (previous_continuation context_block : option rstr) s : option LlmTurnOutput * Calls :=
  let total := length (candidates deps) in
  let now := now_of s in
  let start := Nat.min (select_start now s) (total - 1) in
  walk (total - 1 - start) start history previous_continuation context_block (tick s).
End Calling.
