(* ===== verification/ProviderProps.v ===== *)
(** What a call of the model guarantees: after a bounded number of queries it returns, or it
    waits for ever on a stream that stalls; every candidate it tried is reported once, in order; the answer is that of the
    first candidate that gave one; a candidate that failed is not where the next call
    starts while it cools down; and the host records what was reported. *)
From S2P Require Import Prelude Types Outbox Transcript Compaction Failover Grants Schedule Budgets Redact ProviderCall.

Section Walk.
Context `{Upstream} (deps : Deps).
Implicit Types (s : Calls) (input : QueryInput).

(** All but the queries, the tool row, the reasoning and the clock is as it was. *)
Record same_but s s' : Prop := {
  fr_health : ca_health s' = ca_health s;
  fr_active : ca_active s' = ca_active s;
  fr_notes : ca_notes s' = ca_notes s;
  fr_spend : ca_spend s' = ca_spend s;
  fr_seq : ca_seq s' = ca_seq s;
  fr_reports : ca_reports s' = ca_reports s;
}.
Lemma same_but_refl s : same_but s s.
Proof. by split. Qed.
Lemma same_but_trans s1 s2 s3 : same_but s1 s2 -> same_but s2 s3 -> same_but s1 s3.
Proof. intros [] []. split; congruence. Qed.
(** The same query to one candidate, [k] times. *)
Definition asked_for (idx : nat) input (k : nat) s s' : Prop :=
  same_but s s' /\ ca_sent s' = ca_sent s ++ replicate k (idx, input).

(** A stream on which the wait for the next event never ends. *)
Definition terminal (e : ProviderEvent) : bool := match e with EvResult _ | EvError _ _ => true | _ => false end.
Definition stalls (r : Reply) : bool := match r with Stream events ends => negb ends && negb (existsb terminal events) | _ => false end.
(** What the last query sent met. *)
Definition last_reply (idx : nat) input s : Reply := up_query (length (ca_sent s) - 1) idx input.

Lemma query_with_retry_asks left idx input s : let '(r, s') := query_with_retry deps left idx input s in
  (exists k, (1 <= k <= S left)%nat /\ asked_for idx input k s s')
  /\ match r with Ok (events, ends) => last_reply idx input s' = Stream events ends | Err _ => True end.
Proof.
  revert s. induction left as [|l IH]; intros s; cbn [query_with_retry].
  - destruct (up_query _ _ _) eqn:E; (split; [exists 1%nat; split; [lia|]; by split|]); try done.
    unfold last_reply. cbn. by rewrite length_app, Nat.add_sub.
  - assert (let '(r, s') := query_with_retry deps l idx input (add_sent (idx, input) s) in
      (exists k, (1 <= k <= S (S l))%nat /\ asked_for idx input k s s')
      /\ match r with Ok (events, ends) => last_reply idx input s' = Stream events ends | Err _ => True end) as Hagain.
    { specialize (IH (add_sent (idx, input) s)). destruct (query_with_retry _ _ _ _ _) as [r s']. destruct IH as [(k & Hk & Hf & Hs) Hr].
      split; [|done]. exists (S k). split; [lia|]. split.
      - eapply same_but_trans; [|exact Hf]. by split.
      - rewrite Hs. cbn. by rewrite <- app_assoc. }
    destruct (up_query _ _ _) as [e| |events ends] eqn:E; [destruct (is_retryable e); [done|] | done |];
      (split; [exists 1%nat; split; [lia|]; by split|]); try done.
    unfold last_reply. cbn. by rewrite length_app, Nat.add_sub.
Qed.
Lemma pump_events_asks events ends out it ot s : let '(r, s') := pump_events deps events ends out it ot s in
  same_but s s' /\ ca_sent s' = ca_sent s /\ (r = None -> stalls (Stream events ends) = true).
Proof.
  revert out it ot s. induction events as [|e events IH]; intros out it ot s; [split; [apply same_but_refl|]; split; [done|]; by destruct ends|].
  assert (forall out it ot s1, same_but s s1 -> ca_sent s1 = ca_sent s -> terminal e = false ->
    let '(r, s') := pump_events deps events ends out it ot s1 in
    same_but s s' /\ ca_sent s' = ca_sent s /\ (r = None -> stalls (Stream (e :: events) ends) = true)) as Hgo.
  { intros out' it' ot' s1 Hf Hs He. specialize (IH out' it' ot' s1). destruct (pump_events _ _ _ _ _ _ s1) as [r s']. destruct IH as (Hf' & Hs' & Hr).
    split; [by eapply same_but_trans|]. split; [congruence|]. intros E. cbn. rewrite He. by apply Hr. }
  destruct e; cbn [pump_events]; try (apply Hgo; [apply same_but_refl | done | done]); try (by split; [apply same_but_refl|]).
  - apply Hgo; [..|done]; unfold set_current_tool; by destruct (up_tool_written _).
  - apply Hgo; [..|done]; unfold clear_current_tool; by destruct (up_tool_written _).
  - apply Hgo; [..|done]; by destruct (dp_surface_thinking deps).
Qed.
(** An attempt makes at most three streams of at most three queries each; it ends unless the
    last stream stalls. *)
Lemma attempt_asks left idx input s : let '(r, s') := run_one_provider_attempt deps left idx input s in
  (exists k, (1 <= k <= 3 * S left)%nat /\ asked_for idx input k s s') /\ (r = None -> stalls (last_reply idx input s') = true).
Proof.
  revert s. induction left as [|l IH]; intros s; cbn [run_one_provider_attempt];
    pose proof (query_with_retry_asks (MAX_PROVIDER_ATTEMPTS - 1) idx input s) as Hq;
    destruct (query_with_retry _ _ _ _ s) as [[[events ends]|e] s1]; destruct Hq as [(k & Hk & Hq) Hlast]; unfold MAX_PROVIDER_ATTEMPTS in Hk;
    try (split; [exists k; split; [lia | exact Hq] | done]);
    pose proof (pump_events_asks events ends no_output 0 0 s1) as Hp; destruct (pump_events _ events _ _ _ _ s1) as [r s2];
    destruct Hq as [Hf Hs]; destruct Hp as (Hf' & Hs' & Hst);
    (assert (asked_for idx input k s s2) as Hq by (split; [by eapply same_but_trans | congruence]));
    (assert (r = None -> stalls (last_reply idx input s2) = true) as Hst2 by (intros E; unfold last_reply in *; rewrite Hs', Hlast; by apply Hst));
    (destruct r as [[[out it] ot]|]; [|split; [exists k; split; [lia | exact Hq] | intros _; exact (Hst2 eq_refl)]]).
  - split; [|done]. exists k. split; [lia | exact Hq].
  - destruct (_ && _); [|split; [exists k; split; [lia | exact Hq] | done]].
    specialize (IH s2). destruct (run_one_provider_attempt _ _ _ _ s2) as [r s3]. destruct IH as [(k' & Hk' & Hf2 & Hs2) Hr].
    split; [|done]. exists (k + k')%nat. split; [lia|]. split.
    * eapply same_but_trans; [exact Hf|]. by eapply same_but_trans.
    * rewrite Hs2, Hs', Hs, replicate_add. by rewrite <- app_assoc.
Qed.

(** One candidate: entered, asked, its health and the report written. *)
Definition tried (idx : nat) history continuation context s : option AttemptResult * Calls :=
  let p := candidate deps idx in
  let s := enter_candidate deps idx s in
  match run_one_provider_attempt deps (MAX_PROVIDER_ATTEMPTS - 1) idx (query_input deps history continuation context p) (tick s) with
  | (None, s1) => (None, s1)
  | (Some a, s1) =>
      let s1 := if lo_failed (ar_out a)
                then match from_error_text (default STREAM_SENTINEL (ar_usage_fail_reason a)) with
                     | Some reason => record_candidate_failure deps idx reason (now_of s) s1
                     | None => s1
                     end
                else record_candidate_success deps idx s1 in
      let s1 := set_spend (spend_record (provider_text p) (lit (fp_model p)) (ar_input_tokens a) (ar_output_tokens a) (ca_spend s1)) s1 in
      let outcome := if lo_failed (ar_out a) then Failed (default STREAM_SENTINEL (ar_usage_fail_reason a)) else Done in
      (Some a, emit_usage_report deps p (ar_input_tokens a) (ar_output_tokens a) (now_of s) outcome s1)
  end.
Lemma walk_eq left idx history continuation context s :
  walk deps left idx history continuation context s =
  match tried idx history continuation context s with
  | (None, s1) => (None, s1)
  | (Some a, s1) =>
      if lo_failed (ar_out a) then
        match left with S l => walk deps l (S idx) history continuation context s1 | O => (Some (ar_out a), s1) end
      else (Some (set_lo_tokens (ar_input_tokens a) (ar_output_tokens a) (ar_out a)), s1)
  end.
Proof. unfold tried. destruct left; cbn [walk]; by destruct (run_one_provider_attempt _ _ _ _ _) as [[a|] s1]. Qed.
Lemma tried_spec idx history continuation context s a s1 : tried idx history continuation context s = (Some a, s1) ->
  (exists r, ca_reports s1 = ca_reports s ++ [r] /\ ur_seq r = ca_seq s /\ ur_provider r = provider_text (candidate deps idx)
     /\ ur_model r = lit (fp_model (candidate deps idx)) /\ (ur_outcome r = Done <-> lo_failed (ar_out a) = false))
  /\ ca_seq s1 = ca_seq s + 1
  /\ ca_active s1 = Some (fp_provider_name (candidate deps idx), idx)
  /\ (exists k, (1 <= k <= 9)%nat
      /\ ca_sent s1 = ca_sent s ++ replicate k (idx, query_input deps history continuation context (candidate deps idx)))
  /\ (forall key, key <> health_key idx (candidate deps idx) -> ca_health s1 !! key = ca_health s !! key)
  /\ (lo_failed (ar_out a) = false -> health (ca_health s1) (health_key idx (candidate deps idx)) = 
        mkHealth Healthy None (he_last_failure_at (health (ca_health s) (health_key idx (candidate deps idx)))) None 0)
  /\ (lo_failed (ar_out a) = true -> forall reason, from_error_text (default STREAM_SENTINEL (ar_usage_fail_reason a)) = Some reason ->
        exists started, he_status (health (ca_health s1) (health_key idx (candidate deps idx))) = reason_status reason
        /\ he_cooldown_until (health (ca_health s1) (health_key idx (candidate deps idx))) = Some (started + DEFAULT_REPROBE_AFTER)).
Proof.
  unfold tried. set (p := candidate deps idx). set (input := query_input _ _ _ _ p).
  pose proof (attempt_asks (MAX_PROVIDER_ATTEMPTS - 1) idx input (tick (enter_candidate deps idx s))) as Hasks.
  destruct (run_one_provider_attempt _ _ _ _ _) as [[a'|] s0]; [|done]. destruct Hasks as [(k & Hk & Hf & Hs) _].
  intros E. injection E as -> <-.
  destruct Hf as [Hh Ha Hn Hsp Hq Hr]. cbn in Hh, Ha, Hq, Hr, Hs. unfold MAX_PROVIDER_ATTEMPTS in Hk.
  set (why := default STREAM_SENTINEL (ar_usage_fail_reason a)).
  match goal with |- context [set_spend _ ?x] => set (s2 := x) end.
  assert (ca_reports s2 = ca_reports s /\ ca_seq s2 = ca_seq s /\ ca_active s2 = Some (fp_provider_name p, idx)
    /\ ca_sent s2 = ca_sent s ++ replicate k (idx, input)) as (Er & Eq & Ea & Es)
    by (unfold s2; destruct (lo_failed _); [destruct (from_error_text _)|]; cbn; done).
  split; [eexists; split; [cbn; by rewrite Er|]; cbn; rewrite Eq; repeat split; destruct (lo_failed _); done|].
  cbn. rewrite Eq, Ea, Es. do 2 (split; [done|]). split; [exists k; split; [lia | done]|]. unfold s2.
  split; [|split].
  - intros key Hkey. destruct (lo_failed _); [destruct (from_error_text _)|]; cbn; rewrite ?Hh; try done;
      unfold record_failure, record_success; by rewrite lookup_insert_ne.
  - intros ->. cbn. unfold record_success, health at 1. by rewrite lookup_insert_eq, Hh.
  - intros -> reason ->. cbn. unfold record_failure, health. rewrite lookup_insert_eq. cbn. by eexists.
Qed.

(** The call waits for ever on candidate [idx]: asked, and the stream it opened stalls. *)
Record waits_on (idx : nat) history continuation context s s' : Prop := {
  wo_reports : ca_reports s' = ca_reports s;
  wo_serving : ca_active s' = Some (fp_provider_name (candidate deps idx), idx);
  wo_queries : exists k, (1 <= k <= 9)%nat
    /\ ca_sent s' = ca_sent s ++ replicate k (idx, query_input deps history continuation context (candidate deps idx));
  wo_stalls : stalls (last_reply idx (query_input deps history continuation context (candidate deps idx)) s') = true;
}.
Lemma tried_waits idx history continuation context s s1 : tried idx history continuation context s = (None, s1) ->
  waits_on idx history continuation context s s1.
Proof.
  unfold tried. set (p := candidate deps idx). set (input := query_input _ _ _ _ p).
  pose proof (attempt_asks (MAX_PROVIDER_ATTEMPTS - 1) idx input (tick (enter_candidate deps idx s))) as Hasks.
  destruct (run_one_provider_attempt _ _ _ _ _) as [[a'|] s0]; [done|]. destruct Hasks as [(k & Hk & Hf & Hs) Hr].
  intros E. injection E as <-. destruct Hf as [Hh Ha Hn Hsp Hq Hrep]. split; [done | done | | by apply Hr].
  exists k. unfold MAX_PROVIDER_ATTEMPTS in Hk. split; [lia | done].
Qed.

(** [n] candidates from [idx] on were tried, with these reports. *)
Record tried_in_order (idx n : nat) (answered : bool) history continuation context s s' : Prop := {
  to_reports : exists rs, ca_reports s' = ca_reports s ++ rs /\ length rs = n
    /\ forall i r, rs !! i = Some r -> ur_seq r = ca_seq s + Z.of_nat i
        /\ ur_provider r = provider_text (candidate deps (idx + i)) /\ ur_model r = lit (fp_model (candidate deps (idx + i)))
        /\ (ur_outcome r = Done <-> S i = n /\ answered = true);
  to_queries : exists q, ca_sent s' = ca_sent s ++ q /\ (n <= length q <= 9 * n)%nat
    /\ Forall (fun x => exists i, (i < n)%nat /\ x = ((idx + i)%nat, query_input deps history continuation context (candidate deps (idx + i)))) q;
  to_serving : ca_active s' = match n with O => ca_active s | S m => Some (fp_provider_name (candidate deps (idx + m)), (idx + m)%nat) end;
  to_healthy : answered = true -> he_status (health (ca_health s') (health_key (idx + (n - 1)) (candidate deps (idx + (n - 1))))) = Healthy;
}.
Lemma tried_none idx history continuation context s : tried_in_order idx 0 false history continuation context s s.
Proof.
  split; [exists [] | exists [] | done | done]; rewrite app_nil_r; (split; [done|]); [split; [done|]; by intros [|i] r | split; [cbn; lia | done]].
Qed.
Lemma tried_once idx history continuation context s a s1 : tried idx history continuation context s = (Some a, s1) ->
  tried_in_order idx 1 (negb (lo_failed (ar_out a))) history continuation context s s1.
Proof.
  intros E. apply tried_spec in E as ((r & Hr & Hseq & Hp & Hm & Ho) & _ & Ha & (k & Hk & Hq) & _ & Hh & _).
  assert (idx + (1 - 1) = idx)%nat as E0 by lia. split; rewrite ?E0; [| | by rewrite Nat.add_0_r |].
  - exists [r]. do 2 (split; [done|]). intros [|i] r' Hi; cbn in Hi; [|done]. injection Hi as <-. rewrite Nat.add_0_r.
    split; [lia|]. do 2 (split; [done|]). rewrite Ho. destruct (lo_failed _); cbn; split; try done; by intros [].
  - eexists. split; [exact Hq|]. split; [rewrite length_replicate; lia|]. apply Forall_replicate. exists 0%nat. rewrite Nat.add_0_r. split; [lia | done].
  - intros Hn. rewrite Hh by (by destruct (lo_failed _)). done.
Qed.
Lemma tried_more idx n answered history continuation context s s1 s' : (answered = true -> 0 < n)%nat -> ca_seq s1 = ca_seq s + 1 ->
  tried_in_order idx 1 false history continuation context s s1 ->
  tried_in_order (S idx) n answered history continuation context s1 s' ->
  tried_in_order idx (S n) answered history continuation context s s'.
Proof.
  intros Hn Hseq [(rs1 & E1 & L1 & R1) (q1 & Eq1 & Lq1 & Q1) Hserv1 _] [(rs2 & E2 & L2 & R2) (q2 & Eq2 & Lq2 & Q2) Hserv Hh].
  assert (forall i, S idx + i = idx + S i)%nat as Es by lia.
  split.
  - exists (rs1 ++ rs2). rewrite E2, E1, app_assoc, length_app. split; [done|]. split; [lia|]. intros i r Hi.
    destruct (decide (i < 1)%nat) as [Hlt|Hge].
    + rewrite lookup_app_l in Hi by lia. destruct (R1 i r Hi) as (H1 & H2 & H3 & H4). do 3 (split; [done|]). rewrite H4. split; [by intros []|]. intros [H5 H6]. specialize (Hn H6). lia.
    + rewrite lookup_app_r in Hi by lia. destruct (R2 _ r Hi) as (H1 & H2 & H3 & H4). replace (S idx + (i - length rs1))%nat with (idx + i)%nat in * by lia.
      rewrite Hseq in H1. split; [lia|]. do 2 (split; [done|]). rewrite H4. split; intros []; (split; [lia | done]).
  - exists (q1 ++ q2). rewrite Eq2, Eq1, app_assoc, length_app. split; [done|]. split; [lia|]. apply Forall_app. split.
    + eapply Forall_impl; [exact Q1|]. intros x (i & Hi & ->). exists i. split; [lia | done].
    + eapply Forall_impl; [exact Q2|]. intros x (i & Hi & ->). exists (S i). rewrite Es. split; [lia | done].
  - rewrite Hserv. destruct n as [|m]; [by rewrite Hserv1 | by rewrite Es].
  - intros Ha. specialize (Hn Ha). replace (idx + (S n - 1))%nat with (S idx + (n - 1))%nat by lia. by apply Hh.
Qed.
(** How a walk ends: with an answer, with the failure of the last candidate, or never. *)
Definition walk_ends (idx total : nat) history continuation context s (out : option LlmTurnOutput) s' : Prop :=
  match out with
  | Some out => exists n, (1 <= n <= total)%nat /\ (lo_failed out = true -> n = total)
      /\ tried_in_order idx n (negb (lo_failed out)) history continuation context s s'
  | None => exists n s1, (n < total)%nat /\ tried_in_order idx n false history continuation context s s1
      /\ waits_on (idx + n) history continuation context s1 s'
  end.
Lemma walk_tries left idx history continuation context s : let '(out, s') := walk deps left idx history continuation context s in
  walk_ends idx (S left) history continuation context s out s'.
Proof.
  revert idx s. induction left as [|l IH]; intros idx s; rewrite walk_eq; destruct (tried _ _ _ _ s) as [[a|] s1] eqn:E;
    try (apply tried_waits in E; exists 0%nat, s; rewrite Nat.add_0_r; split; [lia|]; split; [apply tried_none | done]);
    pose proof (tried_once _ _ _ _ _ _ _ E) as Ht; destruct (lo_failed (ar_out a)) eqn:Ef; cbn [negb] in *;
    try (exists 1%nat; cbn [lo_failed set_lo_tokens]; rewrite Ef; split; [lia | done]).
  apply tried_spec in E as (_ & Hseq & _). specialize (IH (S idx) s1). destruct (walk _ l _ _ _ _ s1) as [[out|] s'].
  - destruct IH as (n & Hn & Hall & Htr). exists (S n). split; [lia|]. split; [intros H1; by rewrite Hall|].
    apply (tried_more idx n _ _ _ _ s s1); [lia | done | done | done].
  - destruct IH as (n & s2 & Hn & Htr & Hw). exists (S n), s2. split; [lia|].
    split; [apply (tried_more idx n _ _ _ _ s s1); done|]. by rewrite Nat.add_succ_r.
Qed.
Lemma select_start_bound now s : (select_start deps now s <= length (dp_failover_chain deps))%nat.
Proof.
  unfold select_start, select. assert (length (fc_entries (chain deps)) = S (length (dp_failover_chain deps))) as Hl by (cbn; by rewrite length_imap).
  destruct (fc_entries (chain deps)) as [|e l]; [lia|]. cbv zeta.
  assert (default 0%nat (find_index (entry_eligible (ca_health s) now) (e :: l)) <= length (dp_failover_chain deps))%nat as Hi.
  { destruct (find_index _ _) as [i|] eqn:Ei; cbn [default]; [|lia]. apply (find_index_Some _ _ _ e) in Ei as [Hi _].
    assert (i < length (e :: l))%nat by (apply nth_error_Some; by rewrite Hi). unfold id. lia. }
  revert Hi. generalize (default 0%nat (find_index (entry_eligible (ca_health s) now) (e :: l))). intros k Hk.
  match goal with |- context [let '(_, _) := ?x in _] => destruct x end. exact Hk.
Qed.
End Walk.

(** * Properties *)

(** C20. A call of the model goes through the candidates from the selected one on, in order,
    each with the elided history and at most nine queries, until one answers; it fails only
    when all failed.  Each candidate that was tried is reported once, with consecutive
    numbers and under its own name, as done when it gave the answer and as failed otherwise;
    the one that answered is healthy and the one last announced.  The call comes back unless
    a stream stalls without an end or a terminal event: then the candidates before failed
    and were reported, and it waits for ever, unreported, on the stream it opened last. *)
Theorem model_call_accounted `{Upstream} (deps : Deps) (history : list HistoryMessage) (continuation context : option rstr) (s : Calls) :
  let start := select_start deps (now_of s) s in
  let total := (length (candidates deps) - start)%nat in
  let '(out, s') := run_llm_turn deps history continuation context s in
  match out with
  | Some out => exists n, (1 <= n <= total)%nat /\ (lo_failed out = true -> n = total)
      /\ tried_in_order deps start n (negb (lo_failed out)) history continuation context s s'
  | None => exists n s1, (n < total)%nat /\ tried_in_order deps start n false history continuation context s s1
      /\ waits_on deps (start + n) history continuation context s1 s'
  end.
Proof.
  intros start total. pose proof (select_start_bound deps (now_of s) s) as Hb. unfold run_llm_turn. cbn [candidates length].
  rewrite Nat.sub_succ, Nat.sub_0_r, Nat.min_l by done. fold start in Hb |- *.
  pose proof (walk_tries deps (length (dp_failover_chain deps) - start) start history continuation context (tick s)) as Hw.
  replace (S (length (dp_failover_chain deps) - start)) with total in Hw by (unfold total; cbn [candidates length]; lia).
  destruct (walk _ _ _ _ _ _ _) as [[out|] s'].
  - destruct Hw as (n & Hn & Hall & [H1 H2 H3 H4]). exists n. split; [exact Hn|]. split; [exact Hall | by split].
  - destruct Hw as (n & s1 & Hn & [H1 H2 H3 H4] & Hwait). exists n, s1. split; [done|]. split; [by split | done].
Qed.

(** C21. What the runner reports of a call is what the host records: session, group, number,
    model, provider, tokens and times as they are, [ok] without an error for an answer and
    [error] with the reason otherwise, whatever the table holds. *)
Theorem report_recorded_as_sent `{Calendar} (uuid_text : uuid -> rstr) (to_rfc3339 : instant -> rstr) (r : UsageReport) (now : instant) t :
  (forall i, parse_rfc3339 (to_rfc3339 i) = Some i) ->
  is_i64 (ur_seq r) = true -> 0 <= ur_input_tokens r <= u32_max -> 0 <= ur_output_tokens r <= u32_max ->
  exists payload, jget "usage_report" (build_usage_report_payload uuid_text to_rfc3339 r) = Some payload
  /\ record_usage_report payload now t = t ++ [mkAgentTurn (uuid_text (ur_session_id r)) (uuid_text (ur_agent_group_id r)) (ur_seq r)
       (ur_model r) (ur_provider r) (ur_input_tokens r) (ur_output_tokens r) (ur_started_at r) (ur_ended_at r)
       (match ur_outcome r with Done => lit "ok" | Failed _ => lit "error" end)
       (match ur_outcome r with Done => None | Failed reason => Some reason end)].
Proof.
  intros Hround Hseq Hin Hout. unfold is_i64 in Hseq. assert (forall n, 0 <= n <= u32_max -> (i64_min <=? n) && (n <=? i64_max) = true) as Hr
    by (unfold u32_max, i64_min, i64_max; intros n Hn; apply andb_true_intro; rewrite !Z.leb_le; lia).
  destruct r as [session group seq model provider i o started ended [|reason]]; cbn in *; eexists; (split; [reflexivity|]);
    unfold record_usage_report, jget_i64, pick_ts, jget_str; cbn; by rewrite Hseq, !Hr, !Hround by done.
Qed.

Module ProviderDemo.
Definition deps (more : list FailoverProvider) (thinking : bool) : Deps :=
  mkDeps 1 2 (lit "You are an agent.") Medium 4096 DEFAULT_ELISION (mkProvider "anthropic" "claude-sonnet-5") more 60000 thinking.
Definition fresh : Calls := mkCalls [] ∅ None [] None [] no_spend 0 [] 0.
Definition answering (reply : nat -> nat -> Reply) : Upstream :=
  {| up_query := fun n idx _ => reply n idx; up_now := fun n => Z.of_nat n * ns_per_s; up_tool_written := fun _ => true |}.
Definition hello : list HistoryMessage := [User (lit "hello")].

(** The calendar of the round trip: an instant is written as its digits. *)
Definition digits : Calendar :=
  {| parse_rfc3339 := fun s => match s with [n] => Some n | _ => None end; add_seconds := fun _ _ => None;
     cron_parses := fun _ => false; cron_next := fun _ _ => None |}.
Definition failed_call : UsageReport := mkReport 1 2 7 (lit "m") (lit "p") 10 0 5 6 (Failed (lit "overloaded")).
Lemma report_recorded_as_sent_witness :
  exists payload, jget "usage_report" (build_usage_report_payload show_z (fun i => [i]) failed_call) = Some payload
  /\ @record_usage_report digits payload 9 []
     = [mkAgentTurn (lit "1") (lit "2") 7 (lit "m") (lit "p") 10 0 5 6 (lit "error") (Some (lit "overloaded"))].
Proof. exact (@report_recorded_as_sent digits show_z (fun i => [i]) failed_call 9 [] (fun _ => eq_refl) eq_refl ltac:(cbn; unfold u32_max; lia) ltac:(cbn; unfold u32_max; lia)). Defined.

(** The primary is overloaded: three queries to it, then the fallback answers; the next call
    starts with the fallback. *)
Definition overloaded (n idx : nat) : Reply :=
  match idx with O => Refused ErrOverloaded | _ => Stream [Usage 10 5 0 0; EvResult (Some (lit "hi"))] true end.
Definition two : Deps := deps [mkProvider "openai" "gpt-5"] false.
Example primary_down_fallback_answers :
  let '(out, s) := @run_llm_turn (answering overloaded) two hello None None fresh in
  option_map lo_text out = Some (lit "hi") /\ map fst (ca_sent s) = [0; 0; 0; 1]%nat /\ ca_notes s = [lit "switched to openai"]
  /\ map ur_outcome (ca_reports s) = [Failed (lit "provider rejected the query before streaming started (overloaded)"); Done]
  /\ @select_start two (60 * ns_per_s) s = 1%nat /\ @select_start two (200 * ns_per_s) s = 0%nat.
Proof. vm_compute. repeat split. Qed.

(** A stream that breaks after it was billed and is queried again: no report and no counter
    has the tokens of the broken one. *)
Definition breaks_once (n idx : nat) : Reply :=
  match n with O => Stream [Usage 900 100 0 0; EvError (lit "connection reset") true] true | _ => Stream [Usage 10 5 0 0; EvResult (Some (lit "hi"))] true end.
Example retried_tokens_lost :
  let '(out, s) := @run_llm_turn (answering breaks_once) (deps [] false) hello None None fresh in
  length (ca_sent s) = 2%nat /\ map (fun r => (ur_input_tokens r, ur_output_tokens r)) (ca_reports s) = [(10, 5)]
  /\ ts_tokens (ca_spend s) = 15 /\ option_map lo_input_tokens out = Some 10.
Proof. vm_compute. repeat split. Qed.

(** The row of the current tool is set while the model writes the call and clear when the
    call is run; a stream that breaks in between leaves it set although nothing runs. *)
Definition calls_shell (n idx : nat) : Reply :=
  Stream [ToolStart "shell" (Some 600000); ToolEnd; ToolCall (lit "t1") (lit "shell") (JObj []); EvResult None] true.
Definition breaks_in_call (n idx : nat) : Reply := Stream [ToolStart "shell" (Some 600000); EvError (lit "bad event") false] true.
Example tool_row_not_of_running_tool :
  (let '(out, s) := @run_llm_turn (answering calls_shell) (deps [] false) hello None None fresh in
   option_map (fun o => map pt_name (lo_tool_calls o)) out = Some [lit "shell"] /\ (ca_tool s ≫= cs_current_tool) = None)
  /\ (let '(out, s) := @run_llm_turn (answering breaks_in_call) (deps [] false) hello None None fresh in
      option_map lo_tool_calls out = Some [] /\ (ca_tool s ≫= cs_current_tool) = Some "shell"%string).
Proof. vm_compute. repeat split. Qed.
(** The fallback accepts the query and falls silent after its first words: the call never
    comes back, and of the two candidates only the failed one is reported. *)
Definition falls_silent (n idx : nat) : Reply :=
  match idx with O => Refused ErrOverloaded | _ => Stream [Init (lit "c"); Activity] false end.
Example silent_stream_hangs :
  let '(out, s) := @run_llm_turn (answering falls_silent) two hello None None fresh in
  out = None /\ map fst (ca_sent s) = [0; 0; 0; 1]%nat /\ map ur_provider (ca_reports s) = [lit "anthropic"].
Proof. vm_compute. repeat split. Qed.
End ProviderDemo.
