(* ===== verification/TurnGuards.v ===== *)
(** The guards of the tool loop of a turn: the content-loop breaker, the budget of tool turns
    and the chains of a batch ([copperclaw-runner/src/run/drive_turn.rs]), the walls an
    agent runs into ([run/blocker.rs]) and the meaning of a reaction
    ([copperclaw-channels/core/src/reaction.rs]).

    The text of a JSON value is a parameter, as in [Transcript]. *)
From Stdlib Require Import OrdersEx.
From stdpp Require Import relations.
From S2P Require Import Prelude Types Transcript Compaction Policy ProviderCall.

(** ** The content-loop breaker *)

Definition TOOL_LOOP_BREAKER_THRESHOLD : nat := 4.
Inductive LoopPattern : Type := Identical | PingPong.
#[export] Instance LoopPattern_eq_dec : EqDecision LoopPattern.
Proof. solve_decision. Defined.

(** [BTreeMap::insert]: keys in ascending order, a present one gets the new value. *)
Fixpoint btree_insert (k : string) (v : json) (m : list (string * json)) : list (string * json) :=
  match m with
  | [] => [(k, v)]
  | (k', v') :: r =>
      match String_as_OT.compare k k' with
      | Lt => (k, v) :: m
      | Eq => (k, v) :: r
      | Gt => (k', v') :: btree_insert k v r
      end
  end.
Fixpoint canonicalize_json (v : json) : json :=
  match v with
  | JObj o => JObj (fold_left (fun sorted '(k, w) => btree_insert k w sorted) (map (fun '(k, w) => (k, canonicalize_json w)) o) [])
  | JArr l => JArr (map canonicalize_json l)
  | _ => v
  end.
Definition unit_separator : rchar := 31.

Section Guard.
Context (json_text : json -> rstr).

Definition fingerprint (name : rstr) (args : json) : rstr := name ++ unit_separator :: json_text (canonicalize_json args).
(** [A, B, A, B, ...] *)
Fixpoint alternates (a b : rstr) (l : list rstr) : bool :=
  match l with
  | [] => true
  | x :: r => rstr_eqb x a && alternates b a r
  end.
(** The window after one more call, and the pattern it shows. *)
Definition observe (recent : list rstr) (name : rstr) (args : json) : list rstr * option LoopPattern :=
  let recent := recent ++ [fingerprint name args] in
  let window := TOOL_LOOP_BREAKER_THRESHOLD in
  let recent := if (window <? length recent)%nat then drop (length recent - window) recent else recent in
  let pattern :=
    if (length recent <? window)%nat then None
    else match recent with
         | a :: b :: _ =>
             if forallb (fun fp => rstr_eqb fp a) recent then Some Identical
             else if negb (rstr_eqb a b) && alternates a b recent then Some PingPong
             else None
         | _ => None
         end in
  (recent, pattern).
(** The calls of a batch: those with broken input are not observed, nothing is after a trip. *)
Fixpoint observe_batch (recent : list rstr) (tripped : option LoopPattern) (calls : list PendingToolCall) : list rstr * option LoopPattern :=
  match calls with
  | [] => (recent, tripped)
  | c :: r =>
      match pt_parse_error c, tripped with
      | None, None => let '(recent, tripped) := observe recent (pt_name c) (pt_input c) in observe_batch recent tripped r
      | _, _ => observe_batch recent tripped r
      end
  end.
End Guard.

(** ** The budget of tool turns *)

Inductive BudgetDecision : Type := Continue | BailNoProgress | BailHardCeiling.
Definition budget_decision (total hard : nat) (made_progress : bool) : BudgetDecision :=
  if (hard <=? total)%nat then BailHardCeiling
  else if made_progress then Continue else BailNoProgress.

(** ** Walls *)

Definition BLOCKER_RUN_THRESHOLD : nat := 2.
Inductive BlockerCategory : Type := Egress | VerifyGate | Provenance | Autonomous | Policy.
#[export] Instance BlockerCategory_eq_dec : EqDecision BlockerCategory.
Proof. solve_decision. Defined.
Definition classify (content : rstr) : option BlockerCategory :=
  let has s := str_contains (lit s) content in
  if has "set-egress-allow" then Some Egress
  else if has "unverified changes since" then Some VerifyGate
  else if has "untrusted-provenance" then Some Provenance
  else if has "autonomous (heartbeat/scheduled) turn" || has "approved grant" then Some Autonomous
  else if has "tool profile." || has "(read-only)." || has "active skill's allowed-tools" then Some Policy
  else None.
Record BlockerRun : Type := mkBlockerRun {
  br_category : option BlockerCategory;
  br_count : nat;
  br_user_replied : bool;
}.
Definition no_run : BlockerRun := mkBlockerRun None 0 false.
Definition observe_result (tool_name : rstr) (is_error : bool) (content : rstr) (b : BlockerRun) : BlockerRun :=
  if rstr_eqb tool_name (lit "send_message") && negb is_error then mkBlockerRun None 0 true
  else match (if is_error then classify content else None) with
       | Some cat =>
           if bool_decide (br_category b = Some cat) then mkBlockerRun (br_category b) (S (br_count b)) (br_user_replied b)
           else mkBlockerRun (Some cat) 1 (br_user_replied b)
       | None => mkBlockerRun None 0 (br_user_replied b)
       end.
Definition tail_blocker (b : BlockerRun) : option BlockerCategory :=
  if br_user_replied b || (br_count b <? BLOCKER_RUN_THRESHOLD)%nat then None else br_category b.

(** ** Reactions *)

Inductive ReactionSignal : Type := Affirmative | Looking | Negative.
Record InboundReaction : Type := mkReaction {
  re_emoji : rstr;
  re_target_seq : option rstr;
  re_actor : option rstr;
}.
Definition label (s : ReactionSignal) : rstr :=
  match s with Affirmative => lit "affirmative" | Looking => lit "looking" | Negative => lit "negative" end.
Definition interjection_line (s : ReactionSignal) (emoji : rstr) : rstr :=
  let gloss :=
    match s with
    | Affirmative => lit "read this as affirmative " ++ [8212] ++ lit " the user approves; proceed with what you proposed"
    | Looking => lit "the user is watching / reviewing; keep going, no reply needed"
    | Negative => lit "read this as negative " ++ [8212] ++ lit " hold off / reconsider; do NOT proceed"
    end in
  lit "[the user reacted " ++ emoji ++ lit " to your last message " ++ [8212] ++ lit " " ++ gloss ++ lit "]".
Definition parse_reaction (content : json) : option InboundReaction :=
  match jget "reaction" content with
  | Some (JObj o) =>
      match jget_str "emoji" (JObj o) with
      | Some emoji => Some (mkReaction emoji (jget_str "target_seq" (JObj o)) (jget_str "actor" (JObj o)))
      | None => None
      end
  | _ => None
  end.
Definition is_reaction_content (content : json) : bool :=
  match jget "reaction" content with
  | Some (JObj o) => match assoc "emoji" o with Some _ => true | None => false end
  | _ => false
  end.
Definition variation_selector : rchar := 65039.
Definition classify_reaction (emoji : rstr) : option ReactionSignal :=
  let norm := map to_ascii_lowercase (rev (trim_start_by (fun c => c =? variation_selector) (rev (trim emoji)))) in
  let among := existsb (rstr_eqb norm) in
  if among [[128077]; [9989]; lit "thumbsup"; lit "+1"; lit "white_check_mark"; lit "heavy_check_mark"; lit "ok_hand"] then Some Affirmative
  else if among [[128064]; lit "eyes"] then Some Looking
  else if among [[128078]; [10060]; lit "thumbsdown"; lit "-1"; lit "x"; lit "cross_mark"; lit "no_entry_sign"] then Some Negative
  else None.
(** [own_ids]: the platform's ids of what the agent delivered. *)
Definition steer_for_row (content : json) (own_ids : list rstr) : option (ReactionSignal * rstr) :=
  match parse_reaction content with
  | Some r =>
      match re_target_seq r with
      | Some target =>
          if existsb (rstr_eqb target) own_ids
          then option_map (fun signal => (signal, re_emoji r)) (classify_reaction (re_emoji r))
          else None
      | None => None
      end
  | None => None
  end.

(** ** The chains of a batch *)

Definition EDIT_FAMILY_TOOLS : list rstr := Eval vm_compute in map lit ["edit_file"; "multi_edit"; "apply_patch"; "write_file"]%string.
Definition UNRESOLVED_PATH : rstr := 0 :: lit "edit-family-unresolved-path" ++ [0].
Definition edit_family_path (name : rstr) (input : json) : option rstr :=
  if existsb (rstr_eqb name) EDIT_FAMILY_TOOLS
  then Some (match jget_str "path" input with Some path => path | None => UNRESOLVED_PATH end)
  else None.
(** The loop that gives every call its chain: the next free one, that of the shell, those of
    the paths. *)
Record Chains : Type := mkChains {
  ch_next : nat;
  ch_shell : option nat;
  ch_edits : gmap rstr nat;
}.
Definition chain_of_call (c : PendingToolCall) (m : Chains) : nat * Chains :=
  if rstr_eqb (pt_name c) (lit "shell") then
    match ch_shell m with
    | Some i => (i, m)
    | None => (ch_next m, mkChains (S (ch_next m)) (Some (ch_next m)) (ch_edits m))
    end
  else match edit_family_path (pt_name c) (pt_input c) with
       | Some path =>
           match ch_edits m !! path with
           | Some i => (i, m)
           | None => (ch_next m, mkChains (S (ch_next m)) (ch_shell m) (<[path := ch_next m]> (ch_edits m)))
           end
       | None => (ch_next m, mkChains (S (ch_next m)) (ch_shell m) (ch_edits m))
       end.
Fixpoint chain_of (calls : list PendingToolCall) (m : Chains) : list nat * nat :=
  match calls with
  | [] => ([], ch_next m)
  | c :: r => let '(i, m) := chain_of_call c m in let '(cs, n) := chain_of r m in (i :: cs, n)
  end.
Definition no_chains : Chains := mkChains 0 None ∅.
(** The indices of the calls of chain [chain], in order. *)
Fixpoint bucket (i chain : nat) (chains : list nat) : list nat :=
  match chains with
  | [] => []
  | c :: r => if (c =? chain)%nat then i :: bucket (S i) chain r else bucket (S i) chain r
  end.
Definition batch_chains (calls : list PendingToolCall) : list (list nat) :=
  let '(chains, n) := chain_of calls no_chains in
  map (fun chain => bucket 0 chain chains) (seq 0 n).

(** ** The batch at work

    One future per chain awaits its calls in order; the chains are polled together, so that
    the calls of different chains begin and end in any order. *)
Definition parse_failure (e : rstr) : ToolAnswer :=
  mkAnswer (lit "Your tool_use input JSON could not be parsed: " ++ e ++ lit ". Please re-issue this exact tool call with valid JSON.") [] true.
(** What a call may be answered: anything, unless its input is broken. *)
Definition answers (c : PendingToolCall) (o : ToolAnswer) : Prop :=
  match pt_parse_error c with Some e => o = parse_failure e | None => True end.
Record ChainRun : Type := mkChainRun {
  cr_done : list (nat * ToolAnswer);
  cr_running : option nat;
  cr_todo : list nat;
}.
Inductive BatchEvent : Type := Begin (i : nat) | Finish (i : nat) (o : ToolAnswer).
Inductive batch_step (calls : list PendingToolCall) : BatchEvent -> list ChainRun -> list ChainRun -> Prop :=
| step_begin pre post finished i rest :
    batch_step calls (Begin i) (pre ++ mkChainRun finished None (i :: rest) :: post) (pre ++ mkChainRun finished (Some i) rest :: post)
| step_finish pre post finished i c o rest : calls !! i = Some c -> answers c o ->
    batch_step calls (Finish i o) (pre ++ mkChainRun finished (Some i) rest :: post) (pre ++ mkChainRun (finished ++ [(i, o)]) None rest :: post).
Inductive batch_runs (calls : list PendingToolCall) : list BatchEvent -> list ChainRun -> Prop :=
| runs_start : batch_runs calls [] (map (mkChainRun [] None) (batch_chains calls))
| runs_step tr e st st' : batch_runs calls tr st -> batch_step calls e st st' -> batch_runs calls (tr ++ [e]) st'.
Definition at_rest (c : ChainRun) : bool := match cr_running c, cr_todo c with None, [] => true | _, _ => false end.
Definition all_done (st : list ChainRun) : bool := forallb at_rest st.
(** The results of all chains, back in the order of the calls. *)
Definition gather (st : list ChainRun) : list ToolAnswer :=
  map snd (order_by (fun p => Z.of_nat (fst p)) (flat_map cr_done st)).
