(* ===== verification/GuardProps.v ===== *)
(** What the guards of the tool loop guarantee: the breaker trips exactly on four equal calls
    or two calls in turn, whatever the order of their arguments' keys; every refusal of the
    policy has its wall; and the calls of a batch that touch the same thing run one after
    the other, in order, while the results come back in the order of the calls. *)
From Stdlib Require Import OrdersEx.
From stdpp Require Import relations sorting.
From S2P Require Import Prelude Types MessagesIn Outbox Policy Grants Gate Transcript Compaction ProviderCall TurnGuards.

(** ** JSON up to the order of keys *)

Section JsonInd.
Context (P : json -> Prop) (Hnull : P JNull) (Hbool : forall b, P (JBool b)) (Hnum : forall n, P (JNum n)) (Hstr : forall s, P (JStr s))
  (Harr : forall l, Forall P l -> P (JArr l)) (Hobj : forall o, Forall (fun kv => P (snd kv)) o -> P (JObj o)).
Fixpoint json_deep_ind (v : json) : P v :=
  match v with
  | JNull => Hnull
  | JBool b => Hbool b
  | JNum n => Hnum n
  | JStr s => Hstr s
  | JArr l => Harr l ((fix go l := match l return Forall P l with [] => Forall_nil_2 _ | x :: r => Forall_cons_2 _ _ _ (json_deep_ind x) (go r) end) l)
  | JObj o => Hobj o ((fix go o := match o return Forall (fun kv => P (snd kv)) o with
                                   | [] => Forall_nil_2 _ | kv :: r => Forall_cons_2 _ _ _ (json_deep_ind (snd kv)) (go r) end) o)
  end.
End JsonInd.

(** Equal up to the order of the keys of objects, at any depth. *)
Inductive reordered : json -> json -> Prop :=
| ro_refl v : reordered v v
| ro_sym v w : reordered v w -> reordered w v
| ro_trans u v w : reordered u v -> reordered v w -> reordered u w
| ro_keys o o' : List.NoDup (map fst o) -> Permutation o o' -> reordered (JObj o) (JObj o')
| ro_member o k v w o' : reordered v w -> reordered (JObj (o ++ (k, v) :: o')) (JObj (o ++ (k, w) :: o'))
| ro_element l v w l' : reordered v w -> reordered (JArr (l ++ v :: l')) (JArr (l ++ w :: l')).
Fixpoint unique_keys (v : json) : Prop :=
  match v with
  | JObj o => List.NoDup (map fst o) /\ (fix go o := match o with [] => True | kv :: r => unique_keys (snd kv) /\ go r end) o
  | JArr l => (fix go l := match l with [] => True | x :: r => unique_keys x /\ go r end) l
  | _ => True
  end.
Definition slt (a b : string * json) : Prop := String_as_OT.lt (fst a) (fst b).
Lemma btree_insert_perm k v m : ~ In k (map fst m) -> Permutation (btree_insert k v m) ((k, v) :: m).
Proof.
  induction m as [|[k' v'] m IH]; intros Hn; [done|]. cbn in *. destruct (String_as_OT.compare_spec k k') as [E|E|E].
  - exfalso. apply Hn. by left.
  - done.
  - rewrite IH by tauto. apply perm_swap.
Qed.
Lemma btree_insert_lt x k v m : String_as_OT.lt x k -> Forall (fun p => String_as_OT.lt x (fst p)) m ->
  Forall (fun p => String_as_OT.lt x (fst p)) (btree_insert k v m).
Proof.
  intros Hx. induction 1 as [|[k' v'] m Hk Hm IH]; cbn; [by repeat constructor|]. destruct (String_as_OT.compare k k'); repeat constructor; done.
Qed.
Lemma btree_insert_sorted k v m : StronglySorted slt m -> StronglySorted slt (btree_insert k v m).
Proof.
  induction 1 as [|[k' v'] m Hm IH Hk]; cbn; [by repeat constructor|]. destruct (String_as_OT.compare_spec k k') as [E|E|E].
  - unfold String_as_OT.eq in E. subst k'. by constructor.
  - constructor; [by constructor|]. constructor; [done|]. eapply Forall_impl; [exact Hk|]. intros p Hp. unfold slt in *. cbn in *. by etransitivity.
  - constructor; [done|]. by apply btree_insert_lt.
Qed.
Definition btree_of (o : list (string * json)) : list (string * json) := fold_left (fun sorted '(k, w) => btree_insert k w sorted) o [].
Lemma btree_of_spec o : List.NoDup (map fst o) -> Permutation (btree_of o) o /\ StronglySorted slt (btree_of o).
Proof.
  unfold btree_of. intros Hnd. assert (forall m, StronglySorted slt m -> List.NoDup (map fst o ++ map fst m) ->
    Permutation (fold_left (fun sorted '(k, w) => btree_insert k w sorted) o m) (o ++ m)
    /\ StronglySorted slt (fold_left (fun sorted '(k, w) => btree_insert k w sorted) o m)) as H.
  { clear Hnd. induction o as [|[k w] o IH]; intros m Hm Hnd; [done|]. cbn in *. inversion Hnd as [|? ? Hk Ho]; subst.
    assert (~ In k (map fst m)) as Hkm by (intros Hi; apply Hk, in_or_app; by right).
    assert (Permutation (map fst (btree_insert k w m)) (k :: map fst m)) as Hp by (apply (Permutation_map fst (btree_insert_perm k w m Hkm))).
    destruct (IH (btree_insert k w m)) as [H1 H2]; [by apply btree_insert_sorted | | split; [|done]].
    - apply (Permutation_NoDup (l := map fst o ++ k :: map fst m)); [by apply Permutation_app_head | by apply NoDup_Add with (1 := Add_app _ _ _)].
    - rewrite H1, btree_insert_perm by done. symmetry. apply Permutation_middle. }
  destruct (H []) as [H1 H2]; [constructor | by rewrite app_nil_r|]. by rewrite app_nil_r in H1.
Qed.

Definition canon_members (o : list (string * json)) : list (string * json) := map (fun '(k, w) => (k, canonicalize_json w)) o.
Lemma canon_members_keys o : map fst (canon_members o) = map fst o.
Proof. unfold canon_members. rewrite map_map. by apply map_ext; intros []. Qed.
Lemma sorted_unique l1 l2 : StronglySorted slt l1 -> StronglySorted slt l2 -> Permutation l1 l2 -> l1 = l2.
Proof.
  intros H1 H2. apply (StronglySorted_unique_strong slt); [|done|done]. intros x y _ _ Hxy Hyx. exfalso.
  unfold slt in *. eapply (StrictOrder_Irreflexive (R := String_as_OT.lt)). by etransitivity.
Qed.
Lemma reordered_canon v w : reordered v w -> canonicalize_json v = canonicalize_json w.
Proof.
  induction 1 as [| | |o o' Hnd Hp|o k v w o' _ IH|l v w l' _ IH]; try congruence.
  - cbn. f_equal. fold (canon_members o) (canon_members o'). change (btree_of (canon_members o) = btree_of (canon_members o')).
    assert (Permutation (canon_members o) (canon_members o')) as Hpc by (by apply Permutation_map).
    destruct (btree_of_spec (canon_members o)) as [H1 H2]; [by rewrite canon_members_keys|].
    destruct (btree_of_spec (canon_members o')) as [H3 H4]; [rewrite canon_members_keys; by apply (Permutation_NoDup (Permutation_map fst Hp))|].
    apply sorted_unique; [done | done|]. by rewrite H1, Hpc, H3.
  - cbn. by rewrite !map_app; cbn; rewrite IH.
  - cbn. by rewrite !map_app; cbn; rewrite IH.
Qed.
Lemma reordered_members o : Forall (fun kv => reordered (snd kv) (canonicalize_json (snd kv))) o ->
  forall pre, reordered (JObj (pre ++ o)) (JObj (pre ++ canon_members o)).
Proof.
  induction 1 as [|[k v] o Hv _ IH]; intros pre; [constructor|]. apply (ro_trans _ (JObj (pre ++ (k, canonicalize_json v) :: o))); [by constructor|].
  specialize (IH (pre ++ [(k, canonicalize_json v)])). by rewrite <- !app_assoc in IH.
Qed.
Lemma reordered_elements l : Forall (fun v => reordered v (canonicalize_json v)) l ->
  forall pre, reordered (JArr (pre ++ l)) (JArr (pre ++ map canonicalize_json l)).
Proof.
  induction 1 as [|v l Hv _ IH]; intros pre; [constructor|]. apply (ro_trans _ (JArr (pre ++ canonicalize_json v :: l))); [by constructor|].
  specialize (IH (pre ++ [canonicalize_json v])). by rewrite <- !app_assoc in IH.
Qed.
Lemma canon_reordered v : unique_keys v -> reordered v (canonicalize_json v).
Proof.
  induction v as [| | | |l IH|o IH] using json_deep_ind; intros Hu; try exact (ro_refl _).
  - apply (reordered_elements l) with (pre := []). induction IH as [|x l Hx _ IHl]; [constructor|]. destruct Hu as [H1 H2].
    constructor; [by apply Hx | by apply IHl].
  - destruct Hu as [Hnd Hu]. apply (ro_trans _ (JObj (canon_members o))).
    + apply (reordered_members o) with (pre := []). clear Hnd. induction IH as [|x o Hx _ IHo]; [constructor|]. destruct Hu as [H1 H2].
      constructor; [by apply Hx | by apply IHo].
    + change (reordered (JObj (canon_members o)) (JObj (btree_of (canon_members o)))). rewrite <- canon_members_keys in Hnd.
      apply ro_keys; [done|]. symmetry. by apply btree_of_spec.
Qed.
Lemma canon_eq_iff v w : unique_keys v -> unique_keys w -> canonicalize_json v = canonicalize_json w <-> reordered v w.
Proof.
  intros Hv Hw. split; [|apply reordered_canon]. intros E. apply (ro_trans _ (canonicalize_json v)); [by apply canon_reordered|].
  rewrite E. apply ro_sym. by apply canon_reordered.
Qed.

(** ** The window *)

Lemma split_at_last (sep : rchar) a b x y : ~ In sep x -> ~ In sep y -> a ++ sep :: x = b ++ sep :: y -> a = b /\ x = y.
Proof.
  revert b. induction a as [|c a IH]; intros [|d b] Hx Hy E; cbn in E.
  - by injection E as ->.
  - injection E as -> ->. exfalso. apply Hx. apply in_or_app. right. by left.
  - injection E as -> <-. exfalso. apply Hy. apply in_or_app. right. by left.
  - injection E as -> E. by destruct (IH b Hx Hy E) as [-> ->].
Qed.
Section Window.
Context (json_text : json -> rstr).

Definition prints (c : rstr * json) : rstr := fingerprint json_text (fst c) (snd c).
(** The guard after a sequence of calls: its window and what the last call showed. *)
Definition guard_after (calls : list (rstr * json)) : list rstr * option LoopPattern :=
  fold_left (fun '(recent, _) c => observe json_text recent (fst c) (snd c)) calls ([], None).
Lemma guard_window calls : fst (guard_after calls) = drop (length calls - 4) (map prints calls).
Proof.
  unfold guard_after. induction calls as [|c calls IH] using rev_ind; [done|]. rewrite fold_left_app. cbn [fold_left].
  destruct (fold_left _ calls _) as [recent p]. cbn [fst] in IH. subst recent. unfold observe. cbn [fst].
  rewrite map_app, length_app. cbn [map length]. set (f := map prints calls). assert (length f = length calls) as Hf by apply length_map.
  fold (prints c). unfold TOOL_LOOP_BREAKER_THRESHOLD. rewrite length_app, length_drop, Hf. cbn [length].
  destruct (Nat.ltb_spec 4 (length calls - (length calls - 4) + 1)) as [H|H].
  - rewrite drop_app_le by (rewrite length_drop, Hf; lia). rewrite drop_drop, drop_app_le by (rewrite Hf; lia). do 2 f_equal. lia.
  - rewrite drop_app_le by (rewrite Hf; lia). do 2 f_equal. lia.
Qed.
Lemma pattern_of_window a b c d :
  (if forallb (fun fp => rstr_eqb fp a) [a; b; c; d] then Some Identical
   else if negb (rstr_eqb a b) && alternates a b [a; b; c; d] then Some PingPong else None)
  = (if decide (b = a /\ c = a /\ d = a) then Some Identical
     else if decide (b <> a /\ c = a /\ d = b) then Some PingPong else None).
Proof.
  cbn. rewrite !rstr_eqb_refl, !andb_true_r. cbn [andb].
  assert (forall x y, rstr_eqb x y = bool_decide (x = y)) as E by (intros x y; destruct (bool_decide_reflect (x = y)) as [->|H]; [apply rstr_eqb_refl | by apply rstr_eqb_neq]).
  rewrite !E. repeat case_bool_decide; repeat case_decide; try done; exfalso; intuition congruence.
Qed.
Lemma guard_pattern calls c : snd (guard_after (calls ++ [c])) =
  match drop (length (calls ++ [c]) - 4) (map prints (calls ++ [c])) with
  | [a; b; d; e] => if decide (b = a /\ d = a /\ e = a) then Some Identical
                    else if decide (b <> a /\ d = a /\ e = b) then Some PingPong else None
  | _ => None
  end.
Proof.
  pose proof (guard_window (calls ++ [c])) as Hw. pose proof (f_equal length Hw) as Hl. rewrite length_drop, length_map in Hl.
  revert Hw Hl. unfold guard_after. rewrite fold_left_app. cbn [fold_left]. destruct (fold_left _ calls _) as [recent p].
  unfold observe. cbn [fst snd]. set (w := if (_ <? _)%nat then _ else _). intros <- Hl. unfold TOOL_LOOP_BREAKER_THRESHOLD.
  destruct (Nat.ltb_spec (length w) 4) as [H|H].
  - destruct w as [|w1 [|w2 [|w3 [|w4 w]]]]; cbn in *; try done; lia.
  - destruct w as [|w1 [|w2 [|w3 [|w4 [|w5 w]]]]]; cbn in H; try lia; [apply pattern_of_window | cbn in Hl; lia].
Qed.
Lemma guard_pattern_short calls c : (length calls < 3)%nat -> snd (guard_after (calls ++ [c])) = None.
Proof.
  intros Hl. rewrite guard_pattern, length_app. cbn [length]. replace (length calls + 1 - 4)%nat with 0%nat by lia.
  destruct calls as [|c1 [|c2 [|c3 calls]]]; cbn in *; try done; lia.
Qed.
Lemma guard_pattern_four pre c1 c2 c3 c : snd (guard_after ((pre ++ [c1; c2; c3]) ++ [c])) =
  if decide (prints c2 = prints c1 /\ prints c3 = prints c1 /\ prints c = prints c1) then Some Identical
  else if decide (prints c2 <> prints c1 /\ prints c3 = prints c1 /\ prints c = prints c2) then Some PingPong else None.
Proof.
  rewrite guard_pattern, <- app_assoc, map_app, length_app. cbn [app length map].
  replace (length pre + 4 - 4)%nat with (length (map prints pre)) by (rewrite length_map; lia). by rewrite drop_app_length.
Qed.
End Window.
Lemma last_three {A} (l : list A) : (3 <= length l)%nat -> exists pre a b c, l = pre ++ [a; b; c].
Proof.
  intros Hl. destruct l as [|c l _] using rev_ind; [cbn in Hl; lia|]. destruct l as [|b l _] using rev_ind; [cbn in Hl; lia|].
  destruct l as [|a l _] using rev_ind; [cbn in Hl; lia|]. exists l, a, b, c. by rewrite <- !app_assoc.
Qed.
Lemma exists_last_three {A} (Q : A -> A -> A -> Prop) pre a b c :
  (exists pre' x y z, pre ++ [a; b; c] = pre' ++ [x; y; z] /\ Q x y z) <-> Q a b c.
Proof.
  split; [|intros H; by exists pre, a, b, c]. intros (pre' & x & y & z & E & H). apply app_inj_2 in E as [_ E]; [|done]. by simplify_eq.
Qed.

(** C22. The content-loop breaker, over any calls of a turn: the last call trips it as a
    repetition exactly when the last four calls are one call, as an alternation exactly when
    they are two different calls in turn; and two calls count as one exactly when tool and
    arguments are the same up to the order of the keys, at any depth. *)
Theorem breaker_trips_exactly (json_text : json -> rstr) (calls : list (rstr * json)) (c : rstr * json) :
  (forall x y, In x (calls ++ [c]) -> In y (calls ++ [c]) ->
     json_text (canonicalize_json (snd x)) = json_text (canonicalize_json (snd y)) -> canonicalize_json (snd x) = canonicalize_json (snd y)) ->
  Forall (fun c => unique_keys (snd c) /\ ~ In unit_separator (json_text (canonicalize_json (snd c)))) (calls ++ [c]) ->
  let same (x y : rstr * json) := fst x = fst y /\ reordered (snd x) (snd y) in
  (snd (guard_after json_text (calls ++ [c])) = Some Identical <->
     exists pre c1 c2 c3, calls = pre ++ [c1; c2; c3] /\ same c2 c1 /\ same c3 c1 /\ same c c1)
  /\ (snd (guard_after json_text (calls ++ [c])) = Some PingPong <->
     exists pre c1 c2 c3, calls = pre ++ [c1; c2; c3] /\ ~ same c2 c1 /\ same c3 c1 /\ same c c2).
Proof.
  intros Hinj Hu same. destruct (le_lt_dec 3 (length calls)) as [Hl|Hl]; [|rewrite guard_pattern_short by done;
    split; (split; [done|]); intros (pre & c1 & c2 & c3 & -> & _); rewrite length_app in Hl; cbn in Hl; lia].
  destruct (last_three calls Hl) as (pre & c1 & c2 & c3 & ->). rewrite guard_pattern_four.
  assert (forall x y, In x [c1; c2; c3; c] -> In y [c1; c2; c3; c] -> prints json_text x = prints json_text y <-> same x y) as Hs.
  { rewrite List.Forall_forall in Hu. rewrite <- app_assoc in Hinj, Hu. cbn [app] in Hinj, Hu. intros x y Hx Hy.
    assert (forall z, In z [c1; c2; c3; c] -> In z (pre ++ [c1; c2; c3; c])) as Hin by (intros z Hz; apply in_or_app; by right).
    unfold prints, fingerprint, same. rewrite <- canon_eq_iff by (by apply Hu, Hin). split.
    - intros E. apply split_at_last in E as [-> E]; [|by apply Hu, Hin|by apply Hu, Hin]. split; [done | by apply Hinj; [apply Hin | apply Hin|]].
    - by intros [-> ->]. }
  cbn [In] in Hs. pose proof (Hs c2 c1 ltac:(tauto) ltac:(tauto)) as H21. pose proof (Hs c3 c1 ltac:(tauto) ltac:(tauto)) as H31.
  pose proof (Hs c c1 ltac:(tauto) ltac:(tauto)) as H1. pose proof (Hs c c2 ltac:(tauto) ltac:(tauto)) as H2. clear Hs. split.
  - etransitivity; [|symmetry; apply (exists_last_three (fun c1 c2 c3 => same c2 c1 /\ same c3 c1 /\ same c c1))].
    rewrite <- H21, <- H31, <- H1. clearbody same. repeat case_decide; split; try done; tauto.
  - etransitivity; [|symmetry; apply (exists_last_three (fun c1 c2 c3 => ~ same c2 c1 /\ same c3 c1 /\ same c c2))].
    rewrite <- H21, <- H31, <- H2. clearbody same. repeat case_decide; split; try done; tauto.
Qed.

(** ** Walls *)

Definition WALL_PHRASES : list rstr :=
  map lit ["untrusted-provenance"; "autonomous (heartbeat/scheduled) turn"; "approved grant"; "tool profile."; "(read-only)."; "active skill's allowed-tools"]%string.
Lemma phrase_classified r : existsb (fun p => str_contains p r) WALL_PHRASES = true -> classify r <> None.
Proof.
  unfold classify, WALL_PHRASES. cbn [map existsb]. intros H. destruct (str_contains (lit "set-egress-allow") r); [done|].
  destruct (str_contains (lit "unverified changes since") r); [done|].
  repeat (destruct (str_contains _ r); [done|]). done.
Qed.
Lemma phrase_within r a b : existsb (fun p => str_contains p r) WALL_PHRASES = true -> existsb (fun p => str_contains p (a ++ r ++ b)) WALL_PHRASES = true.
Proof. rewrite !existsb_exists. intros (p & Hp & E). exists p. split; [done | by apply str_contains_in]. Qed.
Lemma phrase_suffix r a : existsb (fun p => str_contains p r) WALL_PHRASES = true -> existsb (fun p => str_contains p (a ++ r)) WALL_PHRASES = true.
Proof. intros H. rewrite <- (app_nil_r r). by apply phrase_within. Qed.
Lemma refusal_classified p tool r : evaluate p tool = Deny r -> classify r <> None.
Proof.
  intros E. apply phrase_classified. assert (r = taint_reason tool \/ r = autonomy_reason tool \/ (exists f, r = profile_reason tool f)
    \/ r = skill_reason tool \/ exists f, r = role_reason tool f) as H.
  { unfold evaluate in E. cbv zeta in E. repeat case_hyp E; try done; injection E as <-; eauto 10. }
  destruct H as [-> | [-> | [[f ->] | [-> | [f ->]]]]].
  - unfold taint_reason. rewrite (app_assoc (lit "Tool `")). by apply phrase_within.
  - by do 2 apply phrase_suffix.
  - by do 4 apply phrase_suffix.
  - by do 2 apply phrase_suffix.
  - by do 4 apply phrase_suffix.
Qed.
Lemma grant_refusal_classified autonomous g name input now r : autonomy_verdict autonomous g name input now = Blocked r -> classify r <> None.
Proof.
  unfold autonomy_verdict. intros E. apply phrase_classified. repeat case_hyp E; try done. injection E as <-. by do 6 apply phrase_suffix.
Qed.

(** One result: the tool, whether it failed, its text. *)
Definition result_kind (x : rstr * bool * rstr) : option BlockerCategory := let '(name, err, content) := x in if err then classify content else None.
Definition is_reply (x : rstr * bool * rstr) : bool := let '(name, err, content) := x in rstr_eqb name (lit "send_message") && negb err.
Definition run_after (xs : list (rstr * bool * rstr)) : BlockerRun :=
  fold_left (fun b '(name, err, content) => observe_result name err content b) xs no_run.
Lemma run_after_snoc xs x : run_after (xs ++ [x]) = let '(name, err, content) := x in observe_result name err content (run_after xs).
Proof. unfold run_after. by rewrite fold_left_app. Qed.
Lemma run_category xs : br_category (run_after xs) = None <-> br_count (run_after xs) = 0%nat.
Proof.
  induction xs as [|[[name err] content] xs IH] using rev_ind; [done|]. rewrite run_after_snoc. unfold observe_result.
  destruct (_ && _); [done|]. destruct (if err then _ else _) as [cat|]; [|done]. case_bool_decide as E; cbn; [rewrite E|]; split; done.
Qed.
Lemma run_replied xs : br_user_replied (run_after xs) = existsb is_reply xs.
Proof.
  induction xs as [|[[name err] content] xs IH] using rev_ind; [done|]. rewrite run_after_snoc, existsb_app. unfold observe_result. cbn. rewrite orb_false_r.
  destruct (_ && _); [by rewrite orb_true_r|]. rewrite orb_false_r. destruct (if err then _ else _); [|done]. by case_bool_decide.
Qed.
(** After a result the run is of its kind, one longer when it was before. *)
Lemma run_kind xs x : br_category (run_after (xs ++ [x])) = result_kind x.
Proof.
  rewrite run_after_snoc. destruct x as [[name err] content]. unfold observe_result, result_kind.
  destruct (_ && negb err) eqn:E; [apply andb_prop in E as [_ E]; by destruct err|]. destruct (if err then _ else _); [|done]. by case_bool_decide.
Qed.
Lemma run_count xs x cat : result_kind x = Some cat ->
  br_count (run_after (xs ++ [x])) = if decide (br_category (run_after xs) = Some cat) then S (br_count (run_after xs)) else 1%nat.
Proof.
  rewrite run_after_snoc. destruct x as [[name err] content]. unfold observe_result, result_kind. intros Hk.
  destruct (_ && negb err) eqn:E; [apply andb_prop in E as [_ E]; by destruct err|]. rewrite Hk. case_bool_decide as H1; case_decide; done.
Qed.
Lemma last_two_kinds xs cat : tail_blocker (run_after xs) = Some cat
  <-> existsb is_reply xs = false /\ exists pre x y, xs = pre ++ [x; y] /\ result_kind x = Some cat /\ result_kind y = Some cat.
Proof.
  unfold tail_blocker. rewrite run_replied. destruct (existsb is_reply xs) eqn:Er; cbn [orb]; [split; [done | by intros []]|]. unfold BLOCKER_RUN_THRESHOLD.
  destruct xs as [|y xs _] using rev_ind; [split; [done|]; intros (_ & pre & x & y & E & _); by destruct pre|]. rewrite run_kind. split.
  - destruct (Nat.ltb_spec (br_count (run_after (xs ++ [y]))) 2) as [|Hc]; [done|]. intros Hy. split; [done|].
    rewrite (run_count _ _ cat) in Hc by done. case_decide as Hx; [|lia]. destruct xs as [|x xs _] using rev_ind; [done|].
    rewrite run_kind in Hx. exists xs, x, y. by rewrite <- app_assoc.
  - intros (_ & pre & x & y' & E & Hx & Hy). change (pre ++ [x; y']) with (pre ++ [x] ++ [y']) in E. rewrite app_assoc in E. apply app_inj_tail in E as [-> ->].
    rewrite (run_count _ _ cat), run_kind, decide_True by done.
    assert (br_count (run_after (pre ++ [x])) <> 0%nat) by (rewrite <- run_category, run_kind; congruence).
    destruct (Nat.ltb_spec (S (br_count (run_after (pre ++ [x])))) 2); [lia | done].
Qed.

(** What a user is told of a wall: over any results of a turn there is one exactly when
    no message was sent to the user and the last two results failed for the same reason of
    the list, and that reason is it; and every call the policy or a grant refuses fails for
    such a reason. *)
Theorem wall_is_last_two_refusals xs cat :
  (tail_blocker (run_after xs) = Some cat
    <-> existsb is_reply xs = false /\ exists pre x y, xs = pre ++ [x; y] /\ result_kind x = Some cat /\ result_kind y = Some cat)
  /\ (forall p tool r, evaluate p tool = Deny r -> result_kind (tool, true, r) <> None)
  /\ (forall autonomous g name input now r, autonomy_verdict autonomous g name input now = Blocked r -> result_kind (name, true, r) <> None).
Proof.
  split; [apply last_two_kinds|]. split; intros; cbn; [by eapply refusal_classified | by eapply grant_refusal_classified].
Qed.

(** ** Chains *)

(** What a call must not share at the same time: the shell, or the file of its path. *)
Inductive Key : Type := Shell | Path (p : rstr).
#[export] Instance Key_eq_dec : EqDecision Key.
Proof. solve_decision. Defined.
Definition serial_key (c : PendingToolCall) : option Key :=
  if rstr_eqb (pt_name c) (lit "shell") then Some Shell else option_map Path (edit_family_path (pt_name c) (pt_input c)).
Definition key_chain (m : Chains) (k : Key) : option nat := match k with Shell => ch_shell m | Path p => ch_edits m !! p end.
Definition good (m : Chains) : Prop :=
  (forall k i, key_chain m k = Some i -> (i < ch_next m)%nat)
  /\ (forall k k' i, key_chain m k = Some i -> key_chain m k' = Some i -> k = k').
Lemma chain_of_call_cases c m i m' : chain_of_call c m = (i, m') ->
  (exists k, serial_key c = Some k /\ key_chain m k = Some i /\ m' = m)
  \/ (i = ch_next m /\ ch_next m' = S i /\ (forall k, serial_key c = Some k -> key_chain m k = None)
      /\ forall k, key_chain m' k = if decide (serial_key c = Some k) then Some i else key_chain m k).
Proof.
  unfold chain_of_call, serial_key. destruct (rstr_eqb (pt_name c) (lit "shell")); [|destruct (edit_family_path _ _) as [p|]; cbn [option_map]].
  - destruct (ch_shell m) as [j|] eqn:Es; intros E; injection E as <- <-; [left; by exists Shell | right]. do 2 (split; [done|]). split.
    + intros k H. by injection H as <-.
    + intros [|p]; cbn; case_decide as H; done.
  - destruct (ch_edits m !! p) as [j|] eqn:Es; intros E; injection E as <- <-; [left; by exists (Path p) | right]. do 2 (split; [done|]). split.
    + intros k H. by injection H as <-.
    + intros [|q]; cbn; case_decide as H; try done; [injection H as <-; apply lookup_insert_eq|]. apply lookup_insert_ne. congruence.
  - intros E. injection E as <- <-. right. do 2 (split; [done|]). split; [done|]. intros [|q]; by case_decide.
Qed.
Lemma good_no_chains : good no_chains.
Proof. split; intros [|p]; cbn; try rewrite lookup_empty; done. Qed.
Lemma chain_of_call_spec c m i m' : good m -> chain_of_call c m = (i, m') ->
  good m' /\ (i < ch_next m')%nat /\ (ch_next m <= ch_next m')%nat
  /\ (forall k, key_chain m' k = Some i <-> serial_key c = Some k)
  /\ (forall k j, key_chain m k = Some j -> key_chain m' k = Some j)
  /\ (forall k j, key_chain m' k = Some j -> (j < ch_next m)%nat -> key_chain m k = Some j)
  /\ ((i < ch_next m)%nat -> exists k, serial_key c = Some k /\ key_chain m k = Some i)
  /\ (forall k j, serial_key c = Some k -> key_chain m k = Some j -> i = j).
Proof.
  intros [Hlt Hinj] E. apply chain_of_call_cases in E as [(k & Hk & Hm & ->) | (-> & Hn & Hnone & Hk)].
  - split; [done|]. pose proof (Hlt _ _ Hm). split; [done|]. split; [done|]. split; [|repeat split; [done | done | by exists k | congruence]].
    intros k'. split; [intros H'; by rewrite (Hinj _ _ _ H' Hm) | congruence].
  - rewrite Hn. split; [|split; [lia|]; split; [lia|]; split; [|split; [|split; [|split]]]].
    + split.
      * intros k j. rewrite Hk, Hn. case_decide; [intros E; injection E as <-; lia|]. intros Hj. apply Hlt in Hj. lia.
      * intros k k' j. rewrite !Hk. repeat case_decide; try congruence; intros E1 E2; [injection E1 as <-; apply Hlt in E2; lia | injection E2 as <-; apply Hlt in E1; lia | by eapply Hinj].
    + intros k. rewrite Hk. case_decide; [done|]. split; [intros Hj; apply Hlt in Hj; lia | done].
    + intros k j Hj. rewrite Hk. case_decide as Hs; [|done]. rewrite (Hnone _ Hs) in Hj. done.
    + intros k j. rewrite Hk. case_decide; [intros E; injection E as <-; lia | done].
    + lia.
    + intros k j Hs Hj. rewrite (Hnone _ Hs) in Hj. done.
Qed.
Lemma chain_of_spec calls m ids n : good m -> chain_of calls m = (ids, n) ->
  length ids = length calls /\ (ch_next m <= n)%nat
  /\ forall j c id, calls !! j = Some c -> ids !! j = Some id -> (id < n)%nat
      /\ (forall k i, serial_key c = Some k -> key_chain m k = Some i -> id = i)
      /\ ((id < ch_next m)%nat -> exists k, serial_key c = Some k /\ key_chain m k = Some id).
Proof.
  revert m ids n. induction calls as [|c calls IH]; intros m ids n Hg; cbn [chain_of]; [intros E; injection E as <- <-; split; [done|]; split; [done|]; done|].
  destruct (chain_of_call c m) as [i m'] eqn:Ec. destruct (chain_of calls m') as [cs n'] eqn:Er. intros E. injection E as <- <-.
  apply chain_of_call_spec in Ec as (Hg' & Hi & Hle & Hiff & Hkeep & Hback & Hold & Hsame); [|done].
  destruct (IH m' cs n' Hg' Er) as (Hl & Hn & Hall). split; [cbn; lia|]. split; [lia|]. intros [|j] c' id Hc Hid; cbn in Hc, Hid.
  - injection Hc as <-. injection Hid as <-. split; [lia|]. split; [done | done].
  - destruct (Hall j c' id Hc Hid) as (H1 & H2 & H3). split; [done|]. split; [intros k i0 Hk Hj; by apply (H2 k), Hkeep|].
    intros Hlt. destruct H3 as (k & Hk & Hj); [lia|]. exists k. split; [done | by apply Hback].
Qed.
Lemma chain_of_same calls m ids n : good m -> chain_of calls m = (ids, n) -> forall i j ci cj a b, (i < j)%nat ->
  calls !! i = Some ci -> calls !! j = Some cj -> ids !! i = Some a -> ids !! j = Some b ->
  a = b <-> exists k, serial_key ci = Some k /\ serial_key cj = Some k.
Proof.
  revert m ids n. induction calls as [|c calls IH]; intros m ids n Hg; cbn [chain_of]; [done|].
  destruct (chain_of_call c m) as [i0 m'] eqn:Ec. destruct (chain_of calls m') as [cs n'] eqn:Er. intros E. injection E as <- <-.
  apply chain_of_call_spec in Ec as (Hg' & Hi & Hle & Hiff & Hkeep & Hback & Hold & Hsame); [|done].
  intros [|i] [|j] ci cj a b Hij Hci Hcj Ha Hb; cbn in *; try lia; [|by apply (IH m' cs n' Hg' Er i j); [lia | | | |]].
  injection Hci as <-. injection Ha as <-. destruct (chain_of_spec calls m' cs n' Hg' Er) as (_ & _ & Hall).
  destruct (Hall j cj b Hcj Hb) as (_ & H2 & H3). split.
  - intros ->. destruct (H3 Hi) as (k & Hk & Hj). exists k. split; [by apply Hiff | done].
  - intros (k & Hk & Hk'). symmetry. apply (H2 k); [done | by apply Hiff].
Qed.

Lemma bucket_In x i ch ids : In x (bucket i ch ids) <-> exists j, x = (i + j)%nat /\ ids !! j = Some ch.
Proof.
  revert i. induction ids as [|c ids IH]; intros i; cbn; [split; [done | by intros (j & _ & H)]|].
  assert (In x (bucket (S i) ch ids) <-> exists j, x = (i + S j)%nat /\ ids !! j = Some ch) as H by (rewrite IH; split; intros (j & -> & Hj); exists j; split; (lia || done)).
  destruct (Nat.eqb_spec c ch) as [->|Hc]; cbn [In]; rewrite H; split.
  - intros [<- | (j & -> & Hj)]; [exists 0%nat; split; [lia | done] | by exists (S j)].
  - intros ([|j] & -> & Hj); [left; lia | right; by exists j].
  - intros (j & -> & Hj). by exists (S j).
  - intros ([|j] & -> & Hj); [by injection Hj as -> | by exists j].
Qed.
Lemma bucket_sorted i ch ids : StronglySorted lt (bucket i ch ids).
Proof.
  revert i. induction ids as [|c ids IH]; intros i; cbn; [constructor|]. destruct (c =? ch)%nat; [|done]. constructor; [done|].
  apply List.Forall_forall. intros x Hx. apply bucket_In in Hx as (j & -> & _). lia.
Qed.
Lemma flat_map_app_perm {A B} (f g : A -> list B) l : Permutation (flat_map (fun x => f x ++ g x) l) (flat_map f l ++ flat_map g l).
Proof.
  induction l as [|x l IH]; [done|]. cbn. rewrite IH, <- !app_assoc. apply Permutation_app_head. rewrite !app_assoc. apply Permutation_app_tail, Permutation_app_comm.
Qed.
Lemma flat_map_one (c i a n : nat) : (a <= c < a + n)%nat -> flat_map (fun ch => if (c =? ch)%nat then [i] else []) (seq a n) = [i].
Proof.
  revert a. induction n as [|n IH]; intros a Hc; [lia|]. cbn. destruct (Nat.eqb_spec c a) as [->|Hne]; [|apply IH; lia].
  assert (forall b m, (a < b)%nat -> flat_map (fun ch => if (a =? ch)%nat then [i] else []) (seq b m) = []) as E; [|cbn; by rewrite E by lia].
  intros b m. revert b. induction m as [|m IHm]; intros b Hb; [done|]. cbn. destruct (Nat.eqb_spec a b); [lia|]. apply IHm. lia.
Qed.
Lemma buckets_perm i ids n : Forall (fun c => (c < n)%nat) ids -> Permutation (flat_map (fun ch => bucket i ch ids) (seq 0 n)) (seq i (length ids)).
Proof.
  intros Hf. revert i. induction Hf as [|c ids Hc _ IH]; intros i; cbn [bucket length seq]; [induction (seq 0 n); done|].
  assert (forall l, flat_map (fun ch => if (c =? ch)%nat then i :: bucket (S i) ch ids else bucket (S i) ch ids) l
    = flat_map (fun ch => (if (c =? ch)%nat then [i] else []) ++ bucket (S i) ch ids) l) as ->
    by (intros l; induction l as [|x l IHl]; [done|]; cbn; rewrite IHl; by destruct (c =? x)%nat).
  rewrite flat_map_app_perm, flat_map_one by lia. cbn. by rewrite IH.
Qed.
Lemma batch_chains_spec calls : Permutation (concat (batch_chains calls)) (seq 0 (length calls))
  /\ Forall (StronglySorted lt) (batch_chains calls)
  /\ forall i j ci cj ch, (i < j)%nat -> calls !! i = Some ci -> calls !! j = Some cj -> In ch (batch_chains calls) -> In j ch ->
       (exists k, serial_key ci = Some k /\ serial_key cj = Some k) -> In i ch.
Proof.
  unfold batch_chains. destruct (chain_of calls no_chains) as [ids n] eqn:E. destruct (chain_of_spec _ _ _ _ good_no_chains E) as (Hl & _ & Hids).
  split; [|split].
  - rewrite <- flat_map_concat_map, <- Hl. apply buckets_perm. apply List.Forall_forall. intros id Hid. apply list_elem_of_In, list_elem_of_lookup in Hid as [j Hj].
    destruct (lookup_lt_is_Some_2 calls j) as [c Hc]; [rewrite <- Hl; by eapply lookup_lt_Some|]. by destruct (Hids j c id Hc Hj).
  - apply List.Forall_forall. intros ch Hch. apply in_map_iff in Hch as (x & <- & _). apply bucket_sorted.
  - intros i j ci cj ch Hij Hci Hcj Hch Hj Hk. apply in_map_iff in Hch as (x & <- & _). apply bucket_In in Hj as (j' & -> & Hb).
    destruct (lookup_lt_is_Some_2 ids i) as [a Ha]; [rewrite Hl; by eapply lookup_lt_Some|].
    apply bucket_In. exists i. split; [done|]. rewrite Ha. f_equal. by apply (chain_of_same calls no_chains ids n good_no_chains E i j' ci cj a x).
Qed.

(** ** The batch *)

Section Batch.
Context (calls : list PendingToolCall).

Definition ids_of (c : ChainRun) : list nat := map fst (cr_done c) ++ option_list (cr_running c) ++ cr_todo c.
Definition chain_weight (c : ChainRun) : nat := 2 * length (cr_todo c) + length (option_list (cr_running c)).
Definition weight (st : list ChainRun) : nat := list_sum (map chain_weight st).
Lemma weight_app a b : weight (a ++ b) = (weight a + weight b)%nat.
Proof. unfold weight. by rewrite map_app, list_sum_app. Qed.
Lemma batch_step_keeps e st st' : batch_step calls e st st' ->
  map ids_of st' = map ids_of st /\ weight st = S (weight st')
  /\ (forall i o, In (i, o) (flat_map cr_done st') <-> In (i, o) (flat_map cr_done st) \/ e = Finish i o)
  /\ (forall i o, e = Finish i o -> exists c, calls !! i = Some c /\ answers c o).
Proof.
  destruct 1 as [pre post finished i rest | pre post finished i c o rest Hc Ho].
  - rewrite !map_app, !weight_app, !flat_map_app. cbn. split; [done|]. split; [lia|]. split; [|done].
    intros j o. rewrite !in_app_iff. split; [tauto | by intros [?|?]].
  - rewrite !map_app, !weight_app, !flat_map_app. split; [unfold ids_of; cbn; by rewrite map_app, <- app_assoc|]. split; [unfold weight; cbn; lia|]. cbn [flat_map cr_done]. split.
    + intros j p. rewrite !in_app_iff. cbn. assert ((i, o) = (j, p) <-> Finish i o = Finish j p) by (split; intros E; by injection E as -> ->). tauto.
    + intros j p H. injection H as <- <-. by exists c.
Qed.
Lemma batch_runs_inv tr st : batch_runs calls tr st ->
  map ids_of st = batch_chains calls /\ (length tr + weight st = 2 * length calls)%nat
  /\ (forall i o, In (i, o) (flat_map cr_done st) <-> In (Finish i o) tr)
  /\ (forall i o, In (Finish i o) tr -> exists c, calls !! i = Some c /\ answers c o).
Proof.
  induction 1 as [|tr e st st' _ (IH1 & IH2 & IH3 & IH4) Hs].
  - split; [rewrite map_map; apply map_id|]. split.
    + destruct (batch_chains_spec calls) as [Hp _]. apply Permutation_length in Hp. rewrite length_seq in Hp. rewrite <- Hp. clear Hp. cbn [length].
      assert (forall l, weight (map (mkChainRun [] None) l) = (2 * length (concat l))%nat) as ->; [|lia].
      intros l. induction l as [|ch l IH]; [done|]. change (map (mkChainRun [] None) (ch :: l)) with ([mkChainRun [] None ch] ++ map (mkChainRun [] None) l).
      rewrite weight_app, IH. unfold weight, chain_weight. cbn [concat map cr_todo cr_running option_list]. rewrite length_app. cbn. lia.
    + split; [|done]. intros i o. split; [|done]. rewrite flat_map_concat_map, map_map. cbn. induction (batch_chains calls); done.
  - destruct (batch_step_keeps e st st' Hs) as (H1 & H2 & H3 & H4). split; [congruence|]. rewrite length_app. cbn [length]. split; [lia|]. split.
    + intros i o. rewrite H3, IH3, in_app_iff. cbn. intuition congruence.
    + intros i o. rewrite in_app_iff. cbn. intros [H|[H|[]]]; [by apply IH4 | by apply H4].
Qed.
Lemma done_ids st : all_done st = true -> map fst (flat_map cr_done st) = concat (map ids_of st) /\ weight st = 0%nat.
Proof.
  unfold all_done. induction st as [|[d r t] st IH]; [done|]. cbn [forallb]. intros H. apply andb_prop in H as [H Hst].
  destruct (IH Hst) as [H1 H2]. destruct r as [i|]; [done|]. destruct t as [|j t]; [|done]. cbn. rewrite map_app, H1. unfold ids_of at 2. cbn. rewrite app_nil_r.
  split; [done|]. change (weight ([mkChainRun d None []] ++ st) = 0%nat). by rewrite weight_app, H2.
Qed.
Lemma batch_progress tr st : batch_runs calls tr st -> all_done st = false -> exists e st', batch_step calls e st st'.
Proof.
  intros Hr Hd. apply batch_runs_inv in Hr as (Hids & _). unfold all_done in Hd.
  assert (exists c, In c st /\ at_rest c = false) as (c & Hc & Hn).
  { clear Hids. induction st as [|c st IH]; [done|]. cbn in Hd. destruct (at_rest c) eqn:E; [|exists c; split; [by left | done]].
    destruct (IH Hd) as (c' & ? & ?). exists c'. split; [by right | done]. }
  apply in_split in Hc as (pre & post & ->). destruct c as [d [i|] t]; cbn in Hn.
  - assert (exists c, calls !! i = Some c) as [c Hc].
    { apply lookup_lt_is_Some_2. destruct (batch_chains_spec calls) as [Hp _]. assert (In i (concat (batch_chains calls))) as Hi.
      { rewrite <- Hids, map_app, concat_app. apply in_or_app. right. cbn. apply in_or_app. left. unfold ids_of. cbn. apply in_or_app. right. by left. }
      apply (Permutation_in _ Hp), in_seq in Hi. lia. }
    exists (Finish i (match pt_parse_error c with Some e => parse_failure e | None => mkAnswer [] [] false end)).
    eexists. eapply step_finish; [exact Hc | unfold answers; by destruct (pt_parse_error c)].
  - destruct t as [|j t]; [done|]. exists (Begin j). eexists. constructor.
Qed.
Lemma begin_state tr st t1 j t2 : batch_runs calls tr st -> tr = t1 ++ Begin j :: t2 ->
  exists s1 s2, batch_runs calls t1 s1 /\ batch_step calls (Begin j) s1 s2.
Proof.
  intros H. revert t2. induction H as [|tr e st st' Hr IH Hs]; intros t2 E; [by destruct t1|].
  destruct t2 as [|x t2 _] using rev_ind; [apply app_inj_tail in E as [-> ->]; by exists st, st'|].
  rewrite app_comm_cons, app_assoc in E. apply app_inj_tail in E as [-> _]. by apply (IH t2).
Qed.
Lemma seq_sorted a n : StronglySorted le (seq a n).
Proof.
  revert a. induction n as [|n IH]; intros a; [constructor|]. cbn [seq]. constructor; [apply IH|].
  apply List.Forall_forall. intros x Hx. apply in_seq in Hx. lia.
Qed.
Lemma gather_spec st : Permutation (map fst (flat_map cr_done st)) (seq 0 (length calls)) ->
  length (gather st) = length calls /\ forall i o, gather st !! i = Some o <-> In (i, o) (flat_map cr_done st).
Proof.
  intros Hp. unfold gather. set (l := flat_map cr_done st) in *. set (s := order_by _ l). pose proof (order_by_perm (fun p => Z.of_nat (fst p)) l) as Hs. fold s in Hs.
  assert (map fst s = seq 0 (length calls)) as E.
  { apply (StronglySorted_unique_strong le); [intros; lia | | | by rewrite Hs].
    - apply (StronglySorted_map_In _ (fun a b => Z.of_nat (fst a) <= Z.of_nat (fst b)) _ s); [intros; lia | apply order_by_sorted].
    - apply seq_sorted. }
  assert (forall i p, s !! i = Some p -> fst p = i) as Hf.
  { intros i p Hi. assert (map fst s !! i = Some (fst p)) as H by (rewrite list_lookup_fmap, Hi; done). rewrite E in H. apply lookup_seq in H. lia. }
  split; [rewrite length_map, <- (length_map fst), E; apply length_seq|]. intros i o. rewrite list_lookup_fmap. split.
  - destruct (s !! i) as [p|] eqn:Hi; [|done]. intros H. injection H as <-. rewrite <- (Hf _ _ Hi), <- surjective_pairing.
    apply (Permutation_in _ Hs). apply list_elem_of_In. by eapply list_elem_of_lookup_2.
  - intros H. apply (Permutation_in _ (Permutation_sym Hs)), list_elem_of_In, list_elem_of_lookup in H as [j Hj]. pose proof (Hf _ _ Hj) as E1. cbn in E1. subst j. by rewrite Hj.
Qed.
End Batch.

(** C23. A batch of calls, however its chains are interleaved: it ends after two steps per
    call and can always go on until then; the results come back in the order of the calls,
    each the one its call ended with; a call that needs the shell, or edits the file at a
    path, begins only after every earlier call of the batch that needs the same has ended. *)
Theorem batch_in_call_order calls tr st : batch_runs calls tr st ->
  (if all_done st then length tr = 2 * length calls else (length tr <= 2 * length calls) /\ exists e st', batch_step calls e st st')%nat
  /\ (all_done st = true -> length (gather st) = length calls
        /\ forall i o, gather st !! i = Some o <-> In (Finish i o) tr)
  /\ (forall i o, In (Finish i o) tr -> exists c, calls !! i = Some c /\ answers c o)
  /\ (forall t1 j t2 i ci cj k, tr = t1 ++ Begin j :: t2 -> (i < j)%nat -> calls !! i = Some ci -> calls !! j = Some cj ->
        serial_key ci = Some k -> serial_key cj = Some k -> exists o, In (Finish i o) t1).
Proof.
  intros Hr. destruct (batch_runs_inv calls tr st Hr) as (Hids & Hlen & Hdone & Hans). split; [|split; [|split; [done|]]].
  - destruct (all_done st) eqn:E; [apply done_ids in E as [_ E]; lia | split; [lia | by eapply batch_progress]].
  - intros E. apply done_ids in E as [E _]. destruct (gather_spec calls st) as [H1 H2]; [rewrite E, Hids; apply batch_chains_spec|].
    split; [done|]. intros i o. by rewrite H2, Hdone.
  - intros t1 j t2 i ci cj k E Hij Hci Hcj Hki Hkj. destruct (begin_state calls tr st t1 j t2 Hr E) as (s1 & s2 & Hr1 & Hs).
    destruct (batch_runs_inv calls t1 s1 Hr1) as (Hids1 & _ & Hd1 & _). inversion Hs as [pre post finished i' rest E1 E2 E3|]; subst i' s1 s2. clear Hs Hr1.
    destruct (batch_chains_spec calls) as (_ & Hsort & Hsame). rewrite <- Hids1, map_app in Hsort, Hsame. cbn [map] in Hsort, Hsame.
    set (ch := ids_of _) in Hsort, Hsame. assert (ch = map fst finished ++ j :: rest) as Ech by done.
    assert (In i ch) as Hi by (apply (Hsame i j ci cj); [done | done | done | apply in_elt | rewrite Ech; apply in_elt | by exists k]).
    apply Forall_app in Hsort as [_ Hsort]. apply Forall_cons_1 in Hsort as [Hsort _]. rewrite Ech in Hsort, Hi.
    apply in_app_or in Hi as [Hi | Hi].
    + apply in_map_iff in Hi as ([i' o] & Ei & Hi). cbn in Ei. subst i'. exists o. apply Hd1. rewrite flat_map_app. cbn. rewrite !in_app_iff. tauto.
    + exfalso. apply StronglySorted_app_1_r in Hsort. inversion Hsort as [|? ? _ Hf]; subst. destruct Hi as [->|Hi]; [lia|].
      rewrite List.Forall_forall in Hf. apply Hf in Hi. lia.
Qed.

Module GuardDemo.
(** A printer of JSON good enough for the examples. *)
Fixpoint text (v : json) : rstr :=
  match v with
  | JNull => lit "null"
  | JBool b => lit (if b then "true" else "false")
  | JNum n => show_z n
  | JStr s => [34] ++ s ++ [34]
  | JArr l => lit "[" ++ flat_map (fun x => text x ++ lit ",") l ++ lit "]"
  | JObj o => lit "{" ++ flat_map (fun kv => [34] ++ lit (fst kv) ++ [34] ++ lit ":" ++ text (snd kv) ++ lit ",") o ++ lit "}"
  end.
Definition look (shuffled : bool) : rstr * json :=
  (lit "read_file", JObj (if shuffled then [("limit", JNum 5); ("path", JStr (lit "a"))] else [("path", JStr (lit "a")); ("limit", JNum 5)])%string).
Definition grep : rstr * json := (lit "grep", JObj []).
(** The same call four times, the keys in any order. *)
Lemma breaker_trips_exactly_witness :
  snd (guard_after text ([grep; look false; look true; look true] ++ [look false])) = Some Identical.
Proof.
  apply (breaker_trips_exactly text [grep; look false; look true; look true] (look false)).
  - intros x y Hx Hy. cbn in Hx, Hy. repeat (destruct Hx as [<-|Hx]; [repeat (destruct Hy as [<-|Hy]; [by vm_compute|]); done|]). done.
  - repeat (apply Forall_cons_2; [split; [vm_compute; repeat split; repeat constructor; intros H; by repeat (destruct H as [H|H]; [discriminate H|])
      | vm_compute; intros H; by repeat (destruct H as [H|H]; [discriminate H|])]|]). constructor.
  - exists [grep], (look false), (look true), (look true). split; [reflexivity|].
    assert (reordered (snd (look true)) (snd (look false))) as H by (apply ro_keys; [repeat constructor; cbn; intuition done | apply perm_swap]).
    repeat split; try exact H; constructor.
Defined.

Definition shell (id : string) : PendingToolCall := mkPending (lit id) (lit "shell") (JObj []) None.
Definition edit (id path : string) : PendingToolCall := mkPending (lit id) (lit "edit_file") (JObj [("path", JStr (lit path))]%string) None.
Definition broken : PendingToolCall := mkPending (lit "b") (lit "read_file") (JObj []) (Some (lit "eof")).
Example chains_of_batch :
  batch_chains [shell "s1"; edit "e1" "a.rs"; shell "s2"; broken; edit "e2" "a.rs"; edit "e3" "b.rs"] = [[0; 2]; [1; 4]; [3]; [5]]%nat.
Proof. vm_compute. reflexivity. Qed.
(** Two spellings of one path are two chains: both edits run at once. *)
Example spelling_escapes_chain : batch_chains [edit "e1" "src/a.rs"; edit "e2" "./src/a.rs"] = [[0]; [1]]%nat.
Proof. vm_compute. reflexivity. Qed.

Definition ok (s : string) : ToolAnswer := mkAnswer (lit s) [] false.
(** The second call begins and ends first; the results are still in order. *)
Lemma batch_in_call_order_witness : exists st,
  batch_runs [shell "s1"; broken] [Begin 1; Begin 0; Finish 1 (parse_failure (lit "eof")); Finish 0 (ok "done")] st
  /\ all_done st = true /\ gather st = [ok "done"; parse_failure (lit "eof")] /\ length (gather st) = 2%nat.
Proof.
  exists [mkChainRun [(0%nat, ok "done")] None []; mkChainRun [(1%nat, parse_failure (lit "eof"))] None []].
  assert (batch_runs [shell "s1"; broken] [Begin 1; Begin 0; Finish 1 (parse_failure (lit "eof")); Finish 0 (ok "done")]
    [mkChainRun [(0%nat, ok "done")] None []; mkChainRun [(1%nat, parse_failure (lit "eof"))] None []]) as Hr.
  { apply (runs_step _ [Begin 1; Begin 0; Finish 1 (parse_failure (lit "eof"))] (Finish 0 (ok "done")) [mkChainRun [] (Some 0%nat) []; mkChainRun [(1%nat, parse_failure (lit "eof"))] None []]);
      [|apply (step_finish _ [] [_] [] 0%nat (shell "s1") (ok "done") []); done].
    apply (runs_step _ [Begin 1; Begin 0] (Finish 1 (parse_failure (lit "eof"))) [mkChainRun [] (Some 0%nat) []; mkChainRun [] (Some 1%nat) []]);
      [|apply (step_finish _ [_] [] [] 1%nat broken _ []); done].
    apply (runs_step _ [Begin 1] (Begin 0) [mkChainRun [] None [0%nat]; mkChainRun [] (Some 1%nat) []]); [|apply (step_begin _ [] [_] [] 0%nat [])].
    apply (runs_step _ [] (Begin 1) [mkChainRun [] None [0%nat]; mkChainRun [] None [1%nat]]); [apply runs_start | apply (step_begin _ [_] [] [] 1%nat [])]. }
  split; [exact Hr|]. split; [reflexivity|]. split; [reflexivity|]. apply (batch_in_call_order _ _ _ Hr). reflexivity.
Defined.
End GuardDemo.
